(* ===== verification/_CoqProject ===== *)
-Q . S2P
Prelude.v
Identity.v
Glob.v
Permissions.v
Json.v
Catalog.v
OpPolicy.v
Lookup.v
ServiceGrants.v
PolicyGate.v
GatewayQueue.v
SecretNames.v
Delegation.v
ApprovalSignIn.v
Approvals.v
ApprovalProofs.v
ApprovalTheorems.v
WireText.v
WorkItemSigning.v
RunnerPrincipals.v
GatewayMint.v
GatewayMintProofs.v
EffectChain.v
GatewayRoutes.v
SecretValues.v
Programs.v
DispatchLimits.v
DispatchTypes.v
DispatchPark.v
TerminalErrors.v
Composite.v
Dispatcher.v
DispatchLemmas.v
DispatchExample.v
DispatchGate.v
DispatchRecord.v
DispatchFaults.v
DispatchAnswers.v
IngestedRequests.v
RunnerEdge.v
RunnerEdgeProofs.v
Connectors.v
RunnerAssignments.v
RunnerLoop.v
Substitution.v
RunbookSchemas.v
RunbookEngine.v
RunbookTemplates.v
RunbookRuns.v
RunbookRunProofs.v
Assertions.v
AssertionProofs.v
Cron.v
Sensors.v
SensorProofs.v
SensorRunner.v
Dashboards.v
DashboardProofs.v
CheckNotices.v
Scheduler.v
SchedulerProofs.v
Events.v
EventProofs.v
