(* ===== verification/Prelude.v ===== *)
(** A verification of the core of the MEHO backplane.

    MEHO ([src/backend/src/meho_backplane/], to which all paths below are relative)
    is a governance layer between callers (people, AI agents, service accounts) and
    the systems they operate.  A caller names an operation of a connector; MEHO
    looks it up in its catalogue, decides whether it runs at once, waits for a
    person's approval or is refused, and records what happened.  Around this
    decision it runs runbooks (step-by-step procedures whose steps are verified),
    hands commands to runners at the edge, checks systems with sensors and starts
    agent runs on a schedule or on events.  This development models that core and
    proves what makes it correct.  Vendor connectors, web surfaces and search
    are not part of it.

    * How to read it

    Python code is embedded shallowly.  A function that may raise returns [res];
    a service method is a [txn], a function from the database to the database it
    leaves behind and a result, in which only [commit] writes.  A database table is
    the list of its rows in the order a query returns them, so that statements
    about all states also cover every order.  An [UPDATE ... WHERE] is
    [update_where]; an insert that a unique index may refuse raises the component's
    integrity error.  Identifiers made by [uuid4], and the readings of the clock,
    are arguments.  A [str] is a [string] whose characters are the code points below
    256; a [datetime] is an integer number of microseconds.  Log lines, metrics and
    tracing are left out, as they change no state.

    The files, in dependency order:

    - [Prelude] (this file): results, transactions, Python's string functions,
      tables, the tactics [split_matches], [to_prop], [invert_ok], the hint
      database [meho], and the lemmas the components share.
    - [Identity]: who calls ([auth/operator.py]), the role ladder and the role
      floors ([operations/role_floors.py]).
    - [Glob]: [fnmatch] patterns, compiled and matched as the standard library does,
      with their declarative meaning [Matches].
    - [Permissions]: the permission resolver of agents ([auth/permissions.py]) and
      the codes of refusals ([operations/deny_reasons.py]).
    - [Json]: JSON values, Python's [==] and [str] on them, and the scanner behind
      [re.sub].
    - [Catalog]: descriptor rows, connector ids, which rows a tenant sees, and the
      floor for operations that dial an address from the call
      ([operations/_lookup.py], [operations/caller_address.py]).
    - [OpPolicy]: operator overrides of risk level and approval, install-wide and
      per tenant ([operations/op_policy.py]).
    - [Lookup]: the descriptor a dispatch uses, and the hints when there is none
      ([operations/_lookup.py]).
    - [ServiceGrants]: standing grants of service principals, their review,
      renewal, revocation and use ([operations/service_grants.py],
      [delete_names.py]).
    - [PolicyGate]: the read scopes of service principals
      ([operations/service_read_scopes.py]) and the policy gate
      ([operations/_validate.py]), which combines role floors, permissions, read
      scopes and grants.  The grants reach the gate through the class
      [GrantAuthority] with its laws [GrantAuthorityLaws]; [ServiceGrants] is
      proved to be an instance.
    - [GatewayQueue]: the command queue of the edge runners ([gateway/queue.py]),
      the acceptance of results ([operations/gateway_commands.py]), the sweep for
      unreported commands ([gateway/unreported_mint.py]) and the remote-write gate
      ([runner/satellite_tier.py]).
    - [SecretNames]: which names are names of secrets, and the walk that hides their
      values ([broadcast/events.py]).
    - [Delegation], [ApprovalSignIn]: who told an approver to decide, and the proof
      that a person is present ([operations/approval_queue.py],
      [auth/approval_sign_in.py], [auth/fresh_sign_in.py]).
    - [Approvals]: the approval queue ([operations/approval_queue.py]): parking a call,
      approving, rejecting, withdrawing, expiry and its sweep, the resume of an
      approved call.  [ApprovalProofs] holds its lemmas, [ApprovalTheorems] its
      theorems.
    - [WireText]: JSON, times and base64 as texts that are hashed or signed;
      [WorkItemSigning]: the signature of a remote write
      ([runner/work_item_signing.py]).
    - [RunnerPrincipals]: the identities of the runners ([auth/runner_principals.py]),
      the guard of their routes ([auth/runner_guard.py]), the allowlist of remote
      writes and the dead-man switch ([gateway/deadman.py]).
    - [GatewayMint]: the ladder a gateway command passes before it is minted
      ([operations/gateway_commands.py]), with its theorems in [GatewayMintProofs].
    - [EffectChain]: the chain of effect records on a runner's disk and its
      verification at the centre ([runner/effect_audit.py],
      [gateway/effect_ingest.py]).
    - [GatewayRoutes]: the long poll and the report of a result
      ([api/v1/gateway.py]).
    - [SecretValues]: what the caller and the audit table see of an answer with
      secrets ([operations/_secret_values.py]).
    - [Programs]: programs that call the world outside, and what holds of all their
      runs.  [DispatchLimits]: the rate and concurrency limits of dispatches
      ([operations/dispatch_limits.py]).
    - [DispatchTypes]: the answers ([operations/_errors.py], [connectors/schemas.py]),
      the context variables, the audit row, and everything a dispatch calls.
      [DispatchPark]: audit rows ([operations/_audit.py]) and what stands before a
      request for approval; [TerminalErrors]: the short view of a failed composite;
      [Composite]: the gate of a composite's own steps and its children
      ([operations/composite.py]); [Dispatcher]: the dispatch itself
      ([operations/dispatcher.py], one definition per function or phase).
      [DispatchLemmas] says what each function keeps, [DispatchExample] is a small
      world for concrete runs, [DispatchGate], [DispatchRecord] and
      [DispatchAnswers] hold the theorems, [DispatchFaults] what they need of
      exceptions.
    - [IngestedRequests]: the requests of operations ingested from OpenAPI
      ([operations/_branches.py], [operations/_rfc6570.py]): the split of the params,
      the path template, the pages of a listing.
    - [RunnerEdge]: the executor of a runner ([runner/executor.py]) and the brokering
      of wrapped credentials, with its theorems in [RunnerEdgeProofs].
    - [Connectors]: the registry and the resolver of connectors
      ([connectors/registry.py], [connectors/resolver.py]).
    - [RunnerAssignments]: targets, assignment documents and the ingest of check
      results ([gateway/assignment_service.py]).
    - [RunnerLoop]: the tick of a runner and its spool ([runner/loop.py],
      [runner/spool.py]).
    - [Substitution]: the placeholders of runbook texts ([runbooks/substitution.py],
      and their validation in [runbooks/schemas.py]).
    - [RunbookSchemas]: steps, verify gates and template bodies, validated and
      stored ([runbooks/schemas.py], [runbooks/service.py]).
    - [RunbookEngine]: the pure engine that shows a step and advances a run
      ([runbooks/engine.py]).
    - [RunbookTemplates]: the versioned templates ([runbooks/service.py]).
    - [RunbookRuns]: the runs ([runbooks/run_service.py]), with the read and write
      phases of an advance as separate transactions, and [RunbookRunProofs], their
      theorems.
    - [Assertions]: the assertion language of sensors and its evaluator
      ([checks/assertions.py], [checks/evaluate.py]), with its theorems in
      [AssertionProofs].
    - [Cron]: cron expressions and time zones ([scheduler/cron.py]).
    - [Sensors]: the sensor table, its history, the ticks of the runner and edits
      ([checks/repository.py], [checks/sensor_edit.py], [checks/runner.py]), with
      [SensorProofs].  [SensorRunner]: one evaluation, and the watchdog of the loop
      ([checks/runner.py], [checks/watchdog.py]).
    - [Dashboards]: the rollup of sensors ([checks/rollup.py]) and the claims of its
      changes ([checks/investigate.py]), with [DashboardProofs].  [CheckNotices]: the
      gates of the mails about them ([checks/notify.py]).
    - [Scheduler]: scheduled triggers, the tick that fires them and their admin calls
      ([scheduler/repository.py], [scheduler/loop.py], [scheduler/service.py],
      [scheduler/schemas.py]), with [SchedulerProofs].
    - [Events]: the outbox, the triggers that subscribe to its events, and its drain
      ([events/outbox.py], [events/matcher.py], [events/drain.py]), with [EventProofs].

    * What is shown

    The decision.  [auto_execute_has_authority] says for every kind of caller what a
    call that runs at once had behind it; [gated_operations_wait] that a destructive
    operation (outside sandbox mode) and one that dials an address from the call
    never run at once; [gate_writes_only_grant_uses] that deciding writes nothing but
    a grant's use; [preview_agrees] and [direct_run_is_stricter] relate previews to
    calls and runs that act for someone to their caller.  Under the gate,
    [resolve_verdict_lub] shows that the resolver's verdict is the least strict one
    its rows and ceilings allow, [never_auto_execute] and
    [resolve_verdict_live_rows] its limits and what it depends on.

    The dispatch, as a program that calls the rest of the process.
    [dispatched_calls_have_authority] covers everything a dispatch sends to a target,
    children of composites included: what was approved, or what the gate let run
    before; [destructive_calls_are_approved] what that means for deletes, in sandbox
    mode too; [reveals_are_for_people] is about secrets and
    [destructive_requests_are_previewed] about what an approver sees.
    [ok_answers_are_on_record] says that success is not answered without its audit
    row, but for an answer that the handler of the call made itself, [slots_are_given_back] and [step_approvals_are_spent_once] that slots and
    approvals are used as meant on every path, exceptions and cancellation included,
    [dispatch_terminates] that a dispatch ends with an answer unless it is cancelled
    or one of the calls around the execution raises, and [inline_issues_are_bounded] how much of a failed composite is shown.

    The policy behind it.  [approval_ends_only_with_authority] shows that no edit of
    an override ends approval anywhere without a platform admin, a reason and a
    fresh sign-in; [required_approval_reaches_everyone],
    [policy_writes_are_scoped] and [dispatch_policy_floor] what an edit reaches and
    what a dispatch reads.  [lookup_answers], [one_visible_bucket],
    [suggested_connectors_resolve] and [connector_id_roundtrip] are about finding the
    row at all.

    Standing grants.  [grant_use_is_authorised] (what a grant can clear),
    [one_active_grant] (the tables in every reachable state) and
    [revocation_is_final].

    Approvals.  [approve_is_authorised] says who may approve what;
    [decisions_are_final], [every_decision_is_audited] and
    [ended_requests_keep_no_secrets] hold in every reachable state of the queue;
    [approved_calls_run_once], [destructive_sign_in_is_exclusive],
    [park_is_idempotent] and [sweep_agrees_with_approve] are about the resume, the
    sign-in, repeated parks and the expiry.

    Secrets.  [scrub_is_exact], [default_view_hides] and
    [answers_are_split_exactly] say what a caller and the audit table see of the
    secrets in an answer, [reveal_flag_roundtrip] how a call asks for them.

    Limits.  [rate_limit_is_exact] says which requests of a window are refused, and
    [slots_bound_work] under which condition the cap on concurrent work holds in
    every interleaving of the workers.

    The edge.  [at_most_once] covers every interleaving of claimers, reporters and
    sweeps; [claim_is_authorised] says what a runner can get, [command_lifecycle]
    that the whole way from enqueue to result works, and [edge_allowlist_agrees]
    that backplane and runner decide alike.  [mint_is_authorised] and
    [remote_writes_have_their_own_approval] are about the mint;
    [minted_writes_run_at_the_edge], [remote_writes_are_issued_and_recorded] and
    [commands_run_at_most_once] about the runner's executor, crashes included;
    [effect_chain_is_tamper_evident] and [honest_chain_is_accepted] about the effect
    chain; [revoked_runners_get_no_tokens] and [assignments_hold_only_safe_work]
    about identities and documents; [results_arrive_exactly_once] about the spool;
    [polls_terminate] and [reports_are_atomic] about the routes;
    [resolution_is_the_least_fit] about the choice of a connector.

    Runbooks.  [version_discipline], [published_is_immutable],
    [create_and_edit_succeed], [create_publish_show] and [list_templates_spec] are
    about templates; [advance_gated], [engine_opacity], [engine_never_raises] and
    [matches_presence] about the engine; [run_state_machine],
    [terminal_runs_are_frozen], [only_the_assignee_advances], [abort_is_audited],
    [confirm_run_completes], [list_runs_scoped] and
    [current_step_ignores_row_order] about runs.

    Ingested requests.  [paths_stay_in_their_template] says that values leave the
    template of a path as it is, [resolved_requests_are_well_formed] which part of a
    request each param is in, [listings_come_back_whole] that every page of a listing
    is asked for with its token, and read.

    Checks.  [select_paths_round_trip], [verdicts_mean_what_they_say] and
    [evaluations_answer] are about the assertion language;
    [sensors_show_confirmed_states], [sensors_keep_their_cadence] and
    [trend_pages_cover_the_history] about the sensor table, ticks included;
    [sensors_only_read] about one evaluation; [one_alarm_per_stall] about the
    watchdog; [rollup_is_the_worst_that_counts] and [every_change_is_announced_once]
    about dashboards; [alerts_are_not_lost] about their mails.

    Schedules and events.  [scheduled_work_runs_at_most_once] and
    [stored_triggers_are_well_formed] hold in every interleaving of ticks that may be
    cut off anywhere; [events_fire_each_trigger_once] and
    [consumed_events_reached_their_triggers] relate the outbox to the runs it starts.

    Where the code does not do what its comments say, a theorem shows it on a
    concrete state or for a class of inputs:
    [overlapping_advances_reopen_a_step], [failed_start_leaves_a_run],
    [empty_template_cannot_start], [unchecked_prompt_raises],
    [target_value_is_expanded], [unknown_level_has_no_ceiling],
    [unversioned_id_is_lost], [destructive_builtin_blocks_removal],
    [parked_direct_run_hides_a_refusal], [orphan_forward_breaks_chain],
    [exact_pin_loses_to_any_range], [release_race_exceeds_cap],
    [shared_segments_leave_the_template], [long_sums_raise],
    [one_row_stalls_the_tick], [one_zone_stalls_the_scheduler],
    [parking_reopens_a_cancelled_trigger] and [failed_triggers_miss_the_event].

    Statements about all states range over the states reachable by step relations
    ([template_step], the run steps of [RunbookRunProofs], [grants_step], [gw_step],
    the steps of [ApprovalProofs], [GatewayMintProofs], [RunnerPrincipals],
    [RunnerLoop] and [SensorProofs], [claim_step]), over the logs of sessions that
    interleave ([world] of [SchedulerProofs], [drains] of [EventProofs]), or over
    databases that satisfy the unique indexes ([policy_db_ok],
    [catalog_ok]).  Each theorem with hypotheses has a witness that applies it to
    concrete data.

    * Parameters, bounds and fuel

    Code that reaches outside is an argument of the definitions that call it: the
    dispatcher a verify step calls ([Dispatcher] of [RunbookRuns]), the digest of a
    command's parameters ([params_digest]), the registry of safe writes
    ([is_safe_write]), whether a connector's code is present ([row_code_missing]),
    what a dispatch asks of other parts of the process (the class [Environment]) and
    what it calls in them (the operations [DispatchOp]: the tables, the gate, the
    connectors and their handlers, previews, redaction, the reducer),
    the dispatcher's evidence for a delete under a grant ([binding], [effect]), the
    hashes ([sha256], [hmac_sha256]), key derivation ([derive_key]), the signature
    scheme (the class [SignatureScheme] with its laws [SignatureLaws]), the
    validation of parameters against a schema ([iter_errors]), the answers of
    Keycloak and Vault, the [packaging] library's versions and specifiers, the
    handlers of the operations, the writes to a runner's disk before it crashes (the
    budget of [edge]), the sums of floats, the parser of timestamps and the clock of
    floats in assertions ([float_sum], [fromisoformat], [float_timestamp]), the
    stored form of assertions ([model_validate]), the croniter and zoneinfo libraries
    (the class [CronLibrary] with its laws [CronLibraryLaws]), the recipients a
    deployment allows ([recipient_allowed]), the agent runtime and the credentials of
    agents (operations of [WorkOp]), the Valkey server (the class [Valkey] with its laws
    [ValkeyLaws]) and the durations and interleavings of a long poll
    ([rounds]).  No theorem assumes more of them than is written in its statement.

    Six functions use fuel: the dispatch of composites, with the depth limit and one,
    shown enough by [dispatch_terminates]; the glob compiler, with the length of the pattern,
    shown enough by [compile_fuel_enough]; the regular-expression scanner of [Json],
    with the length of the text, shown enough by [scan_fuel_enough] for patterns
    that consume a character; the long poll, with 31 turns, shown enough by
    [polls_terminate]; the cursor loop of a listing, with a turn for each page, shown
    enough by [listings_come_back_whole]; and the reading of all trend pages, a
    definition of the theorem [trend_pages_cover_the_history], which shows its fuel
    enough.  Everything else recurses structurally.

    * What is not modelled

    The preview of a call ([operations/_request_preview.py]) is an operation that the
    dispatch calls; memory scopes ([memory/]), redaction ([redaction/]), topology and
    the broadcast and reflex views ([broadcast/], [reflex/]) are kept apart from the
    core and left out.  Of the checks, the investigation runs (prompts to a model),
    the sweeper of old evidence, the administration of dashboards and the texts of
    mails are left out; of the scheduler, listings, the renewal of its Vault token and
    the sleep between ticks; of the events, the notification that wakes the drain, the
    prompts made of vendor events and the ingest of webhooks.  Of the dispatch,
    durations and texts for people are left out, the capture of full
    results for sensors, and children of one composite that run at the same time.  An
    audit write that fails inside the dead-man sweep is not modelled.  Not meant to
    be modelled: the adapters to vendor APIs, REST, MCP and web surfaces,
    authentication (JWT, Keycloak, Vault), retrieval and search, the query layer over
    DuckDB, the database layer and its migrations; they are I/O, third-party services
    or presentation.  The commands of one transaction are atomic here, as the row
    locks and advisory locks of the code make them; where the code reads in one
    transaction and writes in another, so does the model. *)


From stdpp Require Export base gmap sets list strings sorting.
From Stdlib Require Export Ascii.

(** * Results of fallible code

    A Python function that may raise is modelled as a function into [res E A]:
    [Ok a] is a normal return, [Raise e] an exception of the component's own
    error type [E]. *)

Inductive res (E A : Type) : Type :=
| Ok (a : A)
| Raise (e : E).
Arguments Ok {E A} a.
Arguments Raise {E A} e.

#[export] Instance res_ret E : MRet (res E) := fun A a => Ok a.
#[export] Instance res_bind E : MBind (res E) := fun A B f m =>
  match m with Ok a => f a | Raise e => Raise e end.
#[export] Instance res_fmap E : FMap (res E) := fun A B f m =>
  match m with Ok a => Ok (f a) | Raise e => Raise e end.

Definition is_Ok {E A} (m : res E A) : Prop := exists a, m = Ok a.

Definition ok_or {E A} (e : E) (o : option A) : res E A :=
  match o with Some a => Ok a | None => Raise e end.

(** [guard_or e b]: continue when [b] holds, raise [e] otherwise. *)
Definition guard_or {E} (e : E) (b : bool) : res E unit :=
  if b then Ok tt else Raise e.

(** A list comprehension whose element expression may raise: the elements are
    evaluated from left to right and the first exception wins. *)
Section ResMap.
Context {E A B : Type} (f : A -> res E B).

Fixpoint res_map (l : list A) : res E (list B) :=
  match l with
  | [] => Ok []
  | x :: l' => y ← f x; ys ← res_map l'; Ok (y :: ys)
  end.
End ResMap.

(** * Python strings

    A [str] is a [string]; its characters are the code points below 256. *)

#[global] Arguments Ascii.eqb : simpl never.

Fixpoint starts_with (p s : string) : bool :=
  match p, s with
  | EmptyString, _ => true
  | String a p', String b s' => Ascii.eqb a b && starts_with p' s'
  | String _ _, EmptyString => false
  end.

(** Python's [sub in s]. *)
Fixpoint contains (sub s : string) : bool :=
  starts_with sub s ||
  match s with
  | EmptyString => false
  | String _ s' => contains sub s'
  end.

(** Python's [c in s] for one character. *)
Fixpoint has_char (c : ascii) (s : string) : bool :=
  match s with
  | EmptyString => false
  | String d s' => Ascii.eqb c d || has_char c s'
  end.

Fixpoint all_chars (p : ascii -> bool) (s : string) : bool :=
  match s with EmptyString => true | String c s' => p c && all_chars p s' end.

(** Trimming both ends of a text. *)
Section Strip.
Context (white : ascii -> bool).

Fixpoint strip_left (s : string) : string :=
  match s with
  | EmptyString => ""
  | String c s' => if white c then strip_left s' else s
  end.

Fixpoint strip_right (s : string) : string :=
  match s with
  | EmptyString => ""
  | String c s' =>
      match strip_right s' with
      | EmptyString => if white c then "" else String c ""
      | t => String c t
      end
  end.

Definition strip_white (s : string) : string := strip_right (strip_left s).
End Strip.

(** Pydantic's [strip_whitespace]: the Unicode White_Space characters. *)
Definition is_white (c : ascii) : bool :=
  let n := nat_of_ascii c in
  ((9 <=? n) && (n <=? 13)) || (n =? 32) || (n =? 133) || (n =? 160).
Definition strip : string -> string := strip_white is_white.

(** Python's [str.strip]: also the four separators 28 to 31. *)
Definition py_space (c : ascii) : bool :=
  let n := nat_of_ascii c in is_white c || ((28 <=? n) && (n <=? 31)).
Definition py_strip : string -> string := strip_white py_space.

(** Python's [s.split(c)] for one character, and [re.split] on one character of a
    class. *)
Fixpoint split_by (sep : ascii -> bool) (s : string) : list string :=
  match s with
  | EmptyString => [""]
  | String d s' =>
      if sep d then "" :: split_by sep s'
      else match split_by sep s' with
           | [] => [String d ""]
           | x :: rest => String d x :: rest
           end
  end.
Definition split_on (c : ascii) : string -> list string := split_by (Ascii.eqb c).

(** Python's [s.partition(c)]: the third part is [None] without a separator. *)
Fixpoint partition_on (c : ascii) (s : string) : string * option string :=
  match s with
  | EmptyString => ("", None)
  | String d s' =>
      if Ascii.eqb c d then ("", Some s')
      else let '(a, b) := partition_on c s' in (String d a, b)
  end.

(** Python's [sep.join(parts)]. *)
Fixpoint join (sep : string) (parts : list string) : string :=
  match parts with
  | [] => ""
  | [x] => x
  | x :: rest => x +:+ sep +:+ join sep rest
  end.

(** Python's [repr] of a [str]: single quotes unless the text has a single quote
    and no double quote; backslash, the quote, the control characters and the
    non-printable code points below 256 are escaped. *)

Definition hex_digit (n : nat) : ascii :=
  ascii_of_nat (if decide (n < 10) then 48 + n else 87 + n).

Definition hex_escape (c : ascii) : string :=
  let n := nat_of_ascii c in
  "\x" +:+ String (hex_digit (n / 16)) (String (hex_digit (n mod 16)) "").

Definition non_printable (c : ascii) : bool :=
  let n := nat_of_ascii c in
  (n <? 32) || ((127 <=? n) && (n <=? 160)) || (n =? 173).

Definition repr_char (quote c : ascii) : string :=
  if Ascii.eqb c quote || Ascii.eqb c "\" then String "\" (String c "")
  else if Ascii.eqb c "010" then "\n"
  else if Ascii.eqb c "013" then "\r"
  else if Ascii.eqb c "009" then "\t"
  else if non_printable c then hex_escape c
  else String c "".

Fixpoint repr_body (quote : ascii) (s : string) : string :=
  match s with
  | EmptyString => ""
  | String c s' => repr_char quote c +:+ repr_body quote s'
  end.

Definition dquote : ascii := "034".

Definition py_repr (s : string) : string :=
  let quote := if contains "'" s && negb (contains (String dquote "") s)
               then dquote else "'"%char in
  String quote (repr_body quote s) +:+ String quote "".

(** The text without one final line feed, which the "$" of a Python regular
    expression skips. *)
Fixpoint drop_final_newline (s : string) : string :=
  match s with
  | EmptyString => ""
  | String c EmptyString => if Ascii.eqb c "010" then "" else s
  | String c s' => String c (drop_final_newline s')
  end.

(** Python's [sorted] on strings: by code points. *)
Definition str_le (a b : string) : Prop := String.leb a b = true.
#[export] Instance str_le_dec a b : Decision (str_le a b) := bool_eq_dec _ _.
Definition sorted_strings (l : list string) : list string := merge_sort str_le l.

(** * Tables

    A database table is the list of its rows.  [update_where p f] is
    [UPDATE ... SET f WHERE p], [delete_where p] is [DELETE ... WHERE p];
    [List.find p] is a query that expects at most one row. *)

Definition update_where {A} (p : A -> bool) (f : A -> A) (rows : list A) : list A :=
  (fun r => if p r then f r else r) <$> rows.

Definition select_where {A} (p : A -> bool) (rows : list A) : list A :=
  List.filter p rows.

Definition delete_where {A} (p : A -> bool) (rows : list A) : list A :=
  List.filter (fun r => negb (p r)) rows.

(** [Result.scalar_one_or_none]: [None] stands for [MultipleResultsFound]. *)
Definition scalar_one_or_none {A} (rows : list A) : option (option A) :=
  match rows with
  | [] => Some None
  | [r] => Some (Some r)
  | _ => None
  end.

(** * Transactions

    A service method runs against the database [S] and returns a value or
    raises; either way it leaves a database behind.  [commit] is the only way to
    change it, so what a method did before an exception survives exactly when it
    had been committed. *)

Definition txn (S E A : Type) : Type := S -> S * res E A.

#[export] Instance txn_ret S E : MRet (txn S E) := fun A a s => (s, Ok a).
#[export] Instance txn_bind S E : MBind (txn S E) := fun A B f m s =>
  match m s with
  | (s', Ok a) => f a s'
  | (s', Raise e) => (s', Raise e)
  end.

(** Read the database; the reader may raise. *)
Definition read_db {S E A} (f : S -> res E A) : txn S E A := fun s => (s, f s).
Definition commit {S E} (f : S -> S) : txn S E unit := fun s => (f s, Ok tt).
Definition lift_res {S E A} (r : res E A) : txn S E A := fun s => (s, r).

(** * Tactics and hints *)

Create HintDb meho.

(** Split on the scrutinee of a [match] in the goal or in a hypothesis. *)
Ltac split_match :=
  match goal with
  | |- context [match ?x with _ => _ end] => destruct x eqn:?
  | H : context [match ?x with _ => _ end] |- _ => destruct x eqn:?
  end.

Ltac split_matches := repeat (split_match; simplify_eq/=; try done).

(** Turn boolean facts into propositions. *)
Ltac to_prop :=
  repeat match goal with
  | H : bool_decide _ = true |- _ => apply bool_decide_eq_true in H
  | H : bool_decide _ = false |- _ => apply bool_decide_eq_false in H
  | H : _ && _ = true |- _ => apply andb_true_iff in H; destruct H
  | H : _ || _ = false |- _ => apply orb_false_iff in H; destruct H
  | H : negb _ = true |- _ => apply negb_true_iff in H
  | H : negb _ = false |- _ => apply negb_false_iff in H
  | H : Is_true _ |- _ => apply Is_true_true in H
  | H : (_ <? _)%Z = true |- _ => apply Z.ltb_lt in H
  | H : (_ <? _)%Z = false |- _ => apply Z.ltb_ge in H
  | H : (_ <=? _)%Z = true |- _ => apply Z.leb_le in H
  | H : (_ <=? _)%Z = false |- _ => apply Z.leb_gt in H
  end.

(** * Lemmas on results *)

Section Results.
Context {E A B : Type}.
Implicit Types (m : res E A) (f : A -> res E B).

Lemma bind_Ok m f b : (m ≫= f) = Ok b <-> exists a, m = Ok a /\ f a = Ok b.
Proof. destruct m; simpl; split; [eauto|intros (? & [= ->] & ?); done|done|by intros (? & ? & ?)]. Qed.

Lemma bind_Raise m f e :
  (m ≫= f) = Raise e <-> m = Raise e \/ exists a, m = Ok a /\ f a = Raise e.
Proof.
  destruct m as [a|e']; simpl.
  - split; [eauto|intros [?|(? & [= ->] & ?)]; done].
  - split; [intros [= ->]; by left|intros [[= ->]|(? & ? & ?)]; done].
Qed.

Lemma ok_or_Ok (e : E) (o : option A) a : ok_or e o = Ok a <-> o = Some a.
Proof. destruct o; simpl; naive_solver. Qed.

Lemma guard_or_Ok (e : E) b u : guard_or e b = Ok u <-> b = true.
Proof. destruct b, u; simpl; naive_solver. Qed.
End Results.

Lemma res_map_Ok {E A B} (f : A -> res E B) l ys :
  res_map f l = Ok ys <-> Forall2 (fun x y => f x = Ok y) l ys.
Proof.
  split.
  - revert ys; induction l as [|x l IH]; intros ys; simpl; [by intros [= <-]|].
    destruct (f x) as [y|e] eqn:Hf; [|done]; simpl.
    destruct (res_map f l) as [zs|e]; [|done]; simpl. intros [= <-]. constructor; auto.
  - induction 1 as [|x y l ys Hf _ IH]; [done|]. simpl. by rewrite Hf; simpl; rewrite IH.
Qed.

Lemma res_map_total {E A B} (f : A -> res E B) l :
  Forall (fun x => is_Ok (f x)) l -> is_Ok (res_map f l).
Proof.
  induction 1 as [|x l [y Hy] _ [ys IH]]; [by eexists|].
  exists (y :: ys). simpl. by rewrite Hy; simpl; rewrite IH.
Qed.

(** Invert every [_ ≫= _ = Ok _] hypothesis. *)
Ltac invert_ok :=
  repeat match goal with
  | H : (_ ≫= _) = Ok _ |- _ => apply bind_Ok in H; destruct H as (? & ? & ?)
  | H : ok_or _ _ = Ok _ |- _ => apply ok_or_Ok in H
  | H : guard_or _ _ = Ok _ |- _ => apply guard_or_Ok in H
  | H : Ok _ = Ok _ |- _ => injection H as H
  | H : Raise _ = Ok _ |- _ => discriminate H
  | H : Ok _ = Raise _ |- _ => discriminate H
  end; simplify_eq/=.

(** * Lemmas on transactions *)

Section Transactions.
Context {S E A B : Type}.
Implicit Types (m : txn S E A) (f : A -> txn S E B) (s : S).

Lemma txn_bind_inv m f s s' r :
  (m ≫= f) s = (s', r) ->
  (exists e, r = Raise e /\ m s = (s', Raise e)) \/
  (exists s1 a, m s = (s1, Ok a) /\ f a s1 = (s', r)).
Proof.
  unfold mbind, txn_bind. destruct (m s) as [s1 [a|e]]; [eauto|]. intros [= -> <-]. eauto.
Qed.

Lemma read_bind (g : S -> res E A) f s :
  (read_db g ≫= f) s = match g s with Ok a => f a s | Raise e => (s, Raise e) end.
Proof. unfold mbind, txn_bind, read_db. by destruct (g s). Qed.

Lemma lift_bind (g : res E A) f s :
  (lift_res g ≫= f) s = match g with Ok a => f a s | Raise e => (s, Raise e) end.
Proof. unfold mbind, txn_bind, lift_res. by destruct g. Qed.
End Transactions.

Lemma commit_bind {S E B} (g : S -> S) (f : unit -> txn S E B) s :
  (commit g ≫= f) s = f tt (g s).
Proof. done. Qed.

(** * Lemmas on strings *)

Lemma string_app_nil (s : string) : s +:+ "" = s.
Proof. induction s as [|c s IH]; [done|]. change (String c (s +:+ "") = String c s). by rewrite IH. Qed.

Lemma string_app_cons c (s t : string) : String c s +:+ t = String c (s +:+ t).
Proof. done. Qed.

Lemma string_app_assoc (s t u : string) : (s +:+ t) +:+ u = s +:+ t +:+ u.
Proof. induction s as [|c s IH]; [done|]. by rewrite !string_app_cons, IH. Qed.

Lemma starts_with_app p s : starts_with p (p +:+ s) = true.
Proof. induction p as [|c p IH]; [by destruct s|]. simpl. by rewrite Ascii.eqb_refl. Qed.

Lemma starts_with_spec p s : starts_with p s = true <-> exists t, s = p +:+ t.
Proof.
  split; [|intros [t ->]; apply starts_with_app].
  revert s; induction p as [|a p IH]; intros [|b s] Hs; simpl in *; try done.
  - by exists "".
  - by exists (String b s).
  - to_prop. apply Ascii.eqb_eq in H as ->. destruct (IH _ H0) as [t ->]. by exists t.
Qed.

Lemma contains_of_starts_with p s : starts_with p s = true -> contains p s = true.
Proof. destruct s; simpl; intros ->; done. Qed.

Lemma contains_app_r p s t : contains p t = true -> contains p (s +:+ t) = true.
Proof.
  intros Ht. induction s as [|c s IH]; [done|].
  rewrite string_app_cons; simpl. rewrite IH. apply orb_true_r.
Qed.

Lemma contains_app_l p s t : contains p s = true -> contains p (s +:+ t) = true.
Proof.
  induction s as [|c s IH]; simpl; intros H.
  - apply orb_true_iff in H as [H|]; [|done].
    apply starts_with_spec in H as [u Hu]. destruct p; [|done]. by destruct t.
  - apply orb_true_iff. apply orb_true_iff in H as [H|H].
    + left. apply starts_with_spec in H as [u Hu].
      apply starts_with_spec. exists (u +:+ t).
      by rewrite <- string_app_assoc, <- Hu, string_app_cons.
    + right. by apply IH.
Qed.

Lemma has_char_cons_false c d s :
  has_char c (String d s) = false <-> d <> c /\ has_char c s = false.
Proof. simpl. rewrite orb_false_iff, Ascii.eqb_neq. by split; intros [H ?]; split; auto. Qed.

Lemma has_char_app c s t : has_char c (s +:+ t) = has_char c s || has_char c t.
Proof. induction s as [|d s IH]; [done|]. rewrite string_app_cons. simpl. by rewrite IH, orb_assoc. Qed.

Lemma string_app_length s t : String.length (s +:+ t) = String.length s + String.length t.
Proof. induction s as [|c s IH]; [done|]. rewrite string_app_cons. simpl. by rewrite IH. Qed.

Lemma partition_on_app c a b : has_char c a = false -> partition_on c (a +:+ String c b) = (a, Some b).
Proof.
  induction a as [|d a IH]; intros H; [simpl; by rewrite Ascii.eqb_refl|].
  apply has_char_cons_false in H as [Hd H]. rewrite string_app_cons. simpl.
  rewrite (proj2 (Ascii.eqb_neq c d)) by done. by rewrite IH.
Qed.

Lemma split_on_app c a s :
  has_char c a = false -> split_on c (a +:+ String c s) = a :: split_on c s.
Proof.
  unfold split_on. induction a as [|d a IH]; intros H; [simpl; by rewrite Ascii.eqb_refl|].
  apply has_char_cons_false in H as [Hd H]. rewrite string_app_cons. simpl.
  rewrite (proj2 (Ascii.eqb_neq c d)) by done. by rewrite IH.
Qed.

Lemma split_on_none c a : has_char c a = false -> split_on c a = [a].
Proof.
  unfold split_on. induction a as [|d a IH]; intros H; [done|]. apply has_char_cons_false in H as [Hd H]. simpl.
  rewrite (proj2 (Ascii.eqb_neq c d)) by done. by rewrite IH.
Qed.

Lemma split_on_join c l :
  l <> [] -> Forall (fun s => has_char c s = false) l -> split_on c (join (String c "") l) = l.
Proof.
  intros Hne Hl. induction Hl as [|x l Hx Hl IH]; [done|]. destruct l as [|y l].
  - by apply split_on_none.
  - change (join (String c "") (x :: y :: l)) with (x +:+ String c (join (String c "") (y :: l))).
    rewrite split_on_app by done. by rewrite IH.
Qed.

#[export] Hint Resolve starts_with_app contains_of_starts_with contains_app_l
  contains_app_r : meho.

(** * Lemmas on tables *)

Section Tables.
Context {A : Type}.
Implicit Types (p q : A -> bool) (rows : list A) (r : A).

Lemma elem_of_select p rows r : r ∈ select_where p rows <-> r ∈ rows /\ p r = true.
Proof. unfold select_where. rewrite !list_elem_of_In, filter_In. done. Qed.

Lemma elem_of_delete p rows r : r ∈ delete_where p rows <-> r ∈ rows /\ p r = false.
Proof. unfold delete_where. rewrite !list_elem_of_In, filter_In, negb_true_iff. done. Qed.

Lemma elem_of_update p f rows r :
  r ∈ update_where p f rows <->
  exists r0, r0 ∈ rows /\ r = if p r0 then f r0 else r0.
Proof. unfold update_where. rewrite list_elem_of_fmap. naive_solver. Qed.

(** A query is a function of the set of rows, up to their order. *)
#[export] Instance select_where_Permutation p : Proper ((≡ₚ) ==> (≡ₚ)) (select_where p).
Proof.
  unfold select_where. induction 1 as [|x l l' _ IH|x y l|l l' l'' _ IH1 _ IH2]; simpl.
  - done.
  - destruct (p x); by rewrite IH.
  - destruct (p x), (p y); [constructor|done|done|done].
  - by rewrite IH1.
Qed.

Lemma find_Some_iff p rows r :
  List.find p rows = Some r -> r ∈ rows /\ p r = true.
Proof. intros H%find_some. by rewrite list_elem_of_In. Qed.

Lemma find_None_iff p rows :
  List.find p rows = None <-> forall r, r ∈ rows -> p r = false.
Proof.
  split.
  - intros H r Hr. rewrite list_elem_of_In in Hr. by eapply find_none.
  - intros H. induction rows as [|x rows IH]; simpl; [done|].
    rewrite H by left. apply IH. intros r Hr. apply H. by right.
Qed.

(** A query on a unique key returns the row it names. *)
Lemma find_unique {K} (key : A -> K) p rows r :
  NoDup (key <$> rows) ->
  (forall r', p r' = true -> key r' = key r) -> r ∈ rows -> p r = true ->
  List.find p rows = Some r.
Proof.
  intros Hnd Hp Hr Hpr. destruct (List.find p rows) as [r'|] eqn:Hf.
  - apply find_Some_iff in Hf as [Hr' Hp']. f_equal.
    apply list_elem_of_lookup in Hr as [i Hi], Hr' as [j Hj].
    assert (i = j) as ->; [|congruence].
    eapply NoDup_lookup; [done| |].
    + rewrite list_lookup_fmap, Hi. done.
    + rewrite list_lookup_fmap, Hj. simpl. by rewrite (Hp _ Hp').
  - rewrite find_None_iff in Hf. by rewrite Hf in Hpr.
Qed.

Lemma update_where_keys {K} (key : A -> K) p f rows :
  (forall r, key (f r) = key r) -> key <$> update_where p f rows = key <$> rows.
Proof.
  intros Hf. unfold update_where. rewrite <- list_fmap_compose.
  apply list_fmap_ext; intros i x _; simpl. by destruct (p x).
Qed.

(** A query whose predicate the update does not touch commutes with it. *)
Lemma select_update p q f rows :
  (forall r, p (f r) = p r) ->
  select_where p (update_where q f rows) = update_where q f (select_where p rows).
Proof.
  intros Hp. unfold select_where, update_where. induction rows as [|x rows IH]; [done|].
  rewrite fmap_cons. cbn [List.filter].
  destruct (q x) eqn:Hq; rewrite ?Hp; destruct (p x); rewrite ?fmap_cons, ?Hq, IH; done.
Qed.

Lemma update_where_none p f rows : (forall r, r ∈ rows -> p r = false) -> update_where p f rows = rows.
Proof.
  intros Hp. unfold update_where. induction rows as [|x rows IH]; [done|].
  rewrite fmap_cons, (Hp x) by left. f_equal. apply IH. intros r Hr. apply Hp. by right.
Qed.

(** An update by a unique key writes one position of the table. *)
Lemma update_where_insert {K} `{EqDecision K} (key : A -> K) f rows i x :
  NoDup (key <$> rows) -> rows !! i = Some x ->
  update_where (fun r => bool_decide (key r = key x)) f rows = <[i := f x]> rows.
Proof.
  intros Hnd Hi. apply list_eq. intros j. unfold update_where. rewrite list_lookup_fmap.
  destruct (decide (j = i)) as [->|Hj].
  - rewrite Hi, list_lookup_insert_eq by (by eapply lookup_lt_Some). simpl. by rewrite bool_decide_true.
  - rewrite list_lookup_insert_ne by done. destruct (rows !! j) as [y|] eqn:Hy; [|done]. simpl.
    rewrite bool_decide_false; [done|]. intros Hk. apply Hj.
    eapply NoDup_lookup; [done|by rewrite list_lookup_fmap, Hy|]. rewrite list_lookup_fmap, Hi. simpl.
    by rewrite Hk.
Qed.

Lemma find_only p rows i x :
  rows !! i = Some x -> p x = true -> (forall j y, rows !! j = Some y -> p y = true -> j = i) ->
  List.find p rows = Some x.
Proof.
  intros Hi Hp Hu. destruct (List.find p rows) as [y|] eqn:Hf.
  - apply find_Some_iff in Hf as [Hy Hpy]. apply list_elem_of_lookup in Hy as [j Hj].
    by rewrite (Hu _ _ Hj Hpy), Hi in Hj.
  - rewrite find_None_iff in Hf. rewrite Hf in Hp; [done|]. by eapply list_elem_of_lookup_2.
Qed.

Lemma key_inj {K} (key : A -> K) rows r r' :
  NoDup (key <$> rows) -> r ∈ rows -> r' ∈ rows -> key r = key r' -> r = r'.
Proof.
  intros Hnd Hr Hr' Hk. apply list_elem_of_lookup in Hr as [i Hi], Hr' as [j Hj].
  assert (i = j) as ->; [|congruence].
  eapply NoDup_lookup; [done| |]; rewrite list_lookup_fmap, ?Hi, ?Hj; simpl; by rewrite ?Hk.
Qed.

(** An [UPDATE] on a unique key replaces one row. *)
Lemma elem_of_update_key {K} `{EqDecision K} (key : A -> K) f rows d r' :
  NoDup (key <$> rows) -> d ∈ rows ->
  r' ∈ update_where (fun r => bool_decide (key r = key d)) f rows <->
  r' = f d \/ (r' ∈ rows /\ key r' <> key d).
Proof.
  intros Hnd Hd. rewrite elem_of_update. split.
  - intros (r & Hr & ->). case_bool_decide as Hk; [left; f_equal; by eapply key_inj|by right].
  - intros [->|[Hr Hk]].
    + exists d. split; [done|]. by rewrite bool_decide_true.
    + exists r'. split; [done|]. by rewrite bool_decide_false.
Qed.

(** A [DELETE] on a unique key removes one row. *)
Lemma elem_of_delete_key {K} `{EqDecision K} (key : A -> K) rows d r' :
  NoDup (key <$> rows) -> d ∈ rows ->
  r' ∈ delete_where (fun r => bool_decide (key r = key d)) rows <-> r' ∈ rows /\ r' <> d.
Proof.
  intros Hnd Hd. rewrite elem_of_delete, bool_decide_eq_false. split.
  - intros [Hr Hk]. split; [done|]. by intros ->.
  - intros [Hr Hne]. split; [done|]. intros Hk. apply Hne. by eapply key_inj.
Qed.

Lemma NoDup_select_where {K} (key : A -> K) p rows :
  NoDup (key <$> rows) -> NoDup (key <$> select_where p rows).
Proof.
  unfold select_where. induction rows as [|x rows IH]; simpl; [done|].
  intros [Hx Hnd]%NoDup_cons. destruct (p x); simpl; [|by apply IH].
  apply NoDup_cons; split; [|by apply IH].
  rewrite list_elem_of_fmap. intros (y & Hy & Hin). apply elem_of_select in Hin as [Hin _].
  apply Hx. rewrite Hy. by apply list_elem_of_fmap_2.
Qed.

Lemma NoDup_delete_where {K} (key : A -> K) p rows :
  NoDup (key <$> rows) -> NoDup (key <$> delete_where p rows).
Proof.
  unfold delete_where. induction rows as [|x rows IH]; simpl; [done|].
  intros [Hx Hnd]%NoDup_cons. destruct (p x); simpl; [by apply IH|].
  apply NoDup_cons; split; [|by apply IH].
  rewrite list_elem_of_fmap. intros (y & Hy & [Hin _]%elem_of_delete).
  apply Hx. rewrite Hy. by apply list_elem_of_fmap_2.
Qed.
End Tables.

Lemma update_where_ext {A} (p q : A -> bool) f rows :
  (forall r, r ∈ rows -> p r = q r) -> update_where p f rows = update_where q f rows.
Proof.
  intros H. unfold update_where. apply list_fmap_ext. intros i r Hr. rewrite H; [done|].
  by eapply list_elem_of_lookup_2.
Qed.

Lemma update_where_twice {A} (p : A -> bool) f g rows :
  (forall r, p (f r) = p r) ->
  update_where p g (update_where p f rows) = update_where p (fun r => g (f r)) rows.
Proof.
  intros Hp. unfold update_where. rewrite <- list_fmap_compose. apply list_fmap_ext. intros i r _. simpl.
  destruct (p r) eqn:E; [by rewrite Hp, E|by rewrite E].
Qed.

Lemma NoDup_snoc {A} (l : list A) x : NoDup l -> x ∉ l -> NoDup (l ++ [x]).
Proof.
  intros Hl Hx. apply NoDup_app. split_and!; [done| |apply NoDup_singleton].
  by intros y Hy ->%list_elem_of_singleton.
Qed.

Lemma existsb_intro {A} (p : A -> bool) l x : x ∈ l -> p x = true -> existsb p l = true.
Proof. intros Hx Hp. apply existsb_exists. exists x. by rewrite <- list_elem_of_In. Qed.

(** ** The order of strings *)

#[export] Instance str_le_total : Total str_le.
Proof. intros a b. apply String.leb_total. Qed.
#[export] Instance str_le_antisym : AntiSymm (=) str_le.
Proof. intros a b. apply String.leb_antisym. Qed.
#[export] Instance str_le_trans : Transitive str_le.
Proof.
  unfold str_le, String.leb. intros a. induction a as [|x a IH]; intros [|y b] [|z c] H1 H2; simpl in *; try done.
  unfold Ascii.compare in *.
  destruct (N.compare_spec (Ascii.N_of_ascii x) (Ascii.N_of_ascii y)) as [Exy|Exy|Exy]; [| |done];
  destruct (N.compare_spec (Ascii.N_of_ascii y) (Ascii.N_of_ascii z)) as [Eyz|Eyz|Eyz]; try done.
  - rewrite Exy, Eyz, N.compare_refl. by apply (IH b c).
  - rewrite Exy. by rewrite (proj2 (N.compare_lt_iff _ _) Eyz).
  - rewrite <- Eyz. by rewrite (proj2 (N.compare_lt_iff _ _) Exy).
  - rewrite (proj2 (N.compare_lt_iff (Ascii.N_of_ascii x) (Ascii.N_of_ascii z))); [done|lia].
Qed.

(** UUIDs are written in their canonical text form, and points in time as
    microseconds since the epoch (UTC), Python's [datetime] resolution. *)
Abbreviation uuid := string (only parsing).
Abbreviation datetime := Z (only parsing).
