(* ===== verification/Identity.v ===== *)
(** Who calls: the operator of a request ([auth/operator.py]), the role ladder
    and the per-operation role floors ([operations/role_floors.py]). *)

From S2P Require Import Prelude.

Inductive TenantRole := TENANT_ADMIN | OPERATOR | READ_ONLY.

Inductive PrincipalKind := USER | SERVICE | AGENT | RUNNER.

#[export] Instance TenantRole_eq_dec : EqDecision TenantRole.
Proof. solve_decision. Defined.
#[export] Instance PrincipalKind_eq_dec : EqDecision PrincipalKind.
Proof. solve_decision. Defined.

Definition role_value (r : TenantRole) : string :=
  match r with
  | TENANT_ADMIN => "tenant_admin"
  | OPERATOR => "operator"
  | READ_ONLY => "read_only"
  end.

(** The fields of [Operator] that the modelled code reads. *)
Record Operator := {
  op_sub : string;
  op_tenant_id : uuid;
  op_tenant_role : TenantRole;
  op_principal_kind : PrincipalKind;
  op_client_id : option string;
  op_platform_admin : bool;
  op_web_session : bool;
  op_name : option string;
  op_approver : bool;
  op_self_approver : bool;
  op_tenant_chosen : bool;
  op_auth_time : option Z;
  op_sid : option string;
  op_acr : option string;
  op_azp : option string;
}.

Definition MACHINE_PRINCIPAL_KINDS : list PrincipalKind := [AGENT; SERVICE; RUNNER].

Definition is_human_principal (o : Operator) : bool :=
  bool_decide (op_principal_kind o ∉ MACHINE_PRINCIPAL_KINDS).

Lemma is_human_iff o : is_human_principal o = true <-> op_principal_kind o = USER.
Proof.
  unfold is_human_principal. rewrite bool_decide_eq_true.
  destruct (op_principal_kind o); set_solver.
Qed.

Definition may_self_approve (o : Operator) : bool :=
  op_self_approver o && op_tenant_chosen o && is_human_principal o.

(** * Role floors *)

Definition ROLE_ORDER : list TenantRole := [READ_ONLY; OPERATOR; TENANT_ADMIN].

(** [_ROLE_ORDER.index(role)]; every role is in the tuple. *)
Definition role_rank (r : TenantRole) : nat :=
  match list_find (fun x => x = r) ROLE_ORDER with
  | Some (i, _) => i
  | None => length ROLE_ORDER
  end.

(** [_FLOORS]: the in-memory floor of each operation id. *)
Definition register_role_floor (op_id : string) (role : TenantRole)
  (floors : gmap string TenantRole) : gmap string TenantRole :=
  <[op_id := role]> floors.

Definition role_floor_for (floors : gmap string TenantRole) (op_id : string)
  : option TenantRole := floors !! op_id.

Definition role_floor_denial (floors : gmap string TenantRole) (op_id : string)
  (role : TenantRole) : option string :=
  match floors !! op_id with
  | None => None
  | Some floor =>
      if bool_decide (role_rank floor <= role_rank role) then None
      else Some (op_id +:+ " needs the " +:+ role_value floor +:+
                 " role; your role is " +:+ role_value role)
  end.

(** A role is admitted exactly when it is on or above the floor of the ladder
    read_only < operator < tenant_admin. *)
Lemma role_floor_denial_None floors op_id role :
  role_floor_denial floors op_id role = None <->
  forall floor, floors !! op_id = Some floor -> role_rank floor <= role_rank role.
Proof.
  unfold role_floor_denial. destruct (floors !! op_id) as [floor|]; [|by split].
  case_bool_decide as Hle; split; try done.
  - by intros _ ? [= <-].
  - intros H. by specialize (H _ eq_refl).
Qed.
