(* ===== verification/Glob.v ===== *)
(** Shell-style pattern matching: Python's [fnmatch] on a POSIX host (where
    [fnmatch] and [fnmatchcase] agree).  Grant patterns
    ([auth/permissions.py]) and the runner allowlist
    ([runner/satellite_tier.py]) are matched with it.

    [compile] translates a pattern to tokens the way [fnmatch.translate]
    builds its regular expression; [gmatch] is the language of the tokens;
    [Matches] is its declarative meaning, and [gmatch_spec] says they agree. *)

From S2P Require Import Prelude.

Inductive class_item :=
| COne (c : ascii)
| CRange (lo hi : ascii).

Inductive tok :=
| TStar
| TAny
| TLit (c : ascii)
| TClass (neg : bool) (items : list class_item).

Definition ascii_leb (a b : ascii) : bool := nat_of_ascii a <=? nat_of_ascii b.

(** * Translation *)

(** The text up to the first ']' and the text after it. *)
Fixpoint split_bracket (s : string) : option (string * string) :=
  match s with
  | EmptyString => None
  | String c s' =>
      if Ascii.eqb c "]" then Some ("", s')
      else match split_bracket s' with
           | Some (body, rest) => Some (String c body, rest)
           | None => None
           end
  end.

(** A leading [c] split off. *)
Definition split_lead (c : ascii) (s : string) : string * string :=
  match s with
  | String d s' => if Ascii.eqb c d then (String c "", s') else ("", s)
  | EmptyString => ("", s)
  end.

(** The body of a bracket expression (the text after '[') and the rest of the
    pattern; [None] when the bracket is never closed. *)
Definition class_split (s : string) : option (string * string) :=
  let '(bang, s1) := split_lead "!" s in
  let '(close, s2) := split_lead "]" s1 in
  match split_bracket s2 with
  | Some (body, rest) => Some (bang +:+ close +:+ body, rest)
  | None => None
  end.

Fixpoint class_walk (s : string) : list class_item :=
  match s with
  | EmptyString => []
  | String a s1 =>
      match s1 with
      | String h (String b s2) =>
          if Ascii.eqb h "-" then CRange a b :: class_walk s2 else COne a :: class_walk s1
      | _ => COne a :: class_walk s1
      end
  end.

Definition nonempty_item (i : class_item) : bool :=
  match i with COne _ => true | CRange lo hi => ascii_leb lo hi end.

(** An empty range such as [z-a] is dropped.  When that brings a '!' to the
    front of a bracket that did not start with one, the translation reads it as
    the negation mark. *)
Definition class_token (body : string) : tok :=
  match split_lead "!" body with
  | (EmptyString, _) =>
      match List.filter nonempty_item (class_walk body) with
      | COne c :: items =>
          if Ascii.eqb c "!" then TClass true items else TClass false (COne c :: items)
      | CRange lo hi :: items =>
          if Ascii.eqb lo "!" then TClass true (COne "-" :: COne hi :: items)
          else TClass false (CRange lo hi :: items)
      | [] => TClass false []
      end
  | (_, body') => TClass true (List.filter nonempty_item (class_walk body'))
  end.

Fixpoint compile_fuel (fuel : nat) (s : string) : list tok :=
  match fuel, s with
  | S fuel', String c s' =>
      if Ascii.eqb c "*" then TStar :: compile_fuel fuel' s'
      else if Ascii.eqb c "?" then TAny :: compile_fuel fuel' s'
      else if Ascii.eqb c "[" then
        match class_split s' with
        | Some (body, rest) => class_token body :: compile_fuel fuel' rest
        | None => TLit c :: compile_fuel fuel' s'
        end
      else TLit c :: compile_fuel fuel' s'
  | _, _ => []
  end.

(** Each token consumes at least one character of the pattern, so its length
    is enough fuel ([compile_fuel_enough]). *)
Definition compile (pat : string) : list tok := compile_fuel (String.length pat) pat.

(** * Matching *)

Definition in_item (c : ascii) (i : class_item) : bool :=
  match i with
  | COne d => Ascii.eqb c d
  | CRange lo hi => ascii_leb lo c && ascii_leb c hi
  end.

Definition tok_accepts (t : tok) (c : ascii) : bool :=
  match t with
  | TStar => false
  | TAny => true
  | TLit d => Ascii.eqb c d
  | TClass neg items => xorb neg (existsb (in_item c) items)
  end.

Fixpoint gmatch (p : list tok) : string -> bool :=
  match p with
  | [] => fun s => match s with EmptyString => true | String _ _ => false end
  | TStar :: p' =>
      fix star (s : string) : bool :=
        gmatch p' s || match s with EmptyString => false | String _ s' => star s' end
  | t :: p' => fun s =>
      match s with
      | EmptyString => false
      | String c s' => tok_accepts t c && gmatch p' s'
      end
  end.

(** [fnmatch(name, pat)]. *)
Definition fnmatch (name pat : string) : bool := gmatch (compile pat) name.

(** * Declarative meaning *)

Inductive Matches : list tok -> string -> Prop :=
| Matches_nil : Matches [] ""
| Matches_char t p c s : tok_accepts t c = true -> Matches p s -> Matches (t :: p) (String c s)
| Matches_star p u s : Matches p s -> Matches (TStar :: p) (u +:+ s).

#[export] Hint Constructors Matches : meho.

Lemma gmatch_spec p s : gmatch p s = true <-> Matches p s.
Proof.
  split.
  - revert s; induction p as [|t p IH]; intros s H.
    + destruct s; [constructor|done].
    + destruct t; simpl in H.
      { induction s as [|c s IHs]; apply orb_true_iff in H as [H|H]; try done.
        - apply (Matches_star p ""); auto.
        - apply (Matches_star p ""); auto.
        - specialize (IHs H). inversion IHs as [|? ? ? ? Hacc|? u s' Hm]; subst; [done|].
          by apply (Matches_star p (String c u)). }
      all: destruct s; [done|]; to_prop; constructor; auto.
  - induction 1 as [|t p c s Ht _ IH|p u s _ IH]; [done| |].
    + destruct t; simpl in *; rewrite ?Ht; done.
    + simpl. induction u as [|c u IHu].
      * destruct s; simpl; rewrite IH; done.
      * rewrite string_app_cons. rewrite IHu. apply orb_true_r.
Qed.

(** * Enough fuel *)

Lemma split_bracket_length s body rest :
  split_bracket s = Some (body, rest) -> String.length rest < String.length s.
Proof.
  revert body; induction s as [|c s IH]; intros body H; simpl in *; [done|].
  destruct (Ascii.eqb c "]"); simplify_eq; [lia|].
  destruct (split_bracket s) as [[b r]|]; simplify_eq. specialize (IH _ eq_refl). lia.
Qed.

Lemma split_lead_length c s a r :
  split_lead c s = (a, r) -> String.length r <= String.length s.
Proof. destruct s; simpl; [|destruct (Ascii.eqb _ _)]; intros; simplify_eq/=; lia. Qed.

Lemma class_split_length s body rest :
  class_split s = Some (body, rest) -> String.length rest < String.length s.
Proof.
  unfold class_split. destruct (split_lead "!" s) as [bang s1] eqn:H1.
  destruct (split_lead "]" s1) as [close s2] eqn:H2.
  destruct (split_bracket s2) as [[b r]|] eqn:H3; [|done]. intros [= _ ->].
  apply split_lead_length in H1, H2. apply split_bracket_length in H3. lia.
Qed.

Lemma compile_fuel_enough n m s :
  String.length s <= n -> String.length s <= m -> compile_fuel n s = compile_fuel m s.
Proof.
  revert m s; induction n as [|n IH]; intros m s Hn Hm; destruct s as [|c s]; simpl in *.
  1,3: by destruct m.
  { lia. }
  destruct m as [|m]; [lia|]. simpl.
  destruct (class_split s) as [[body rest]|] eqn:Hc;
    [pose proof (class_split_length _ _ _ Hc)|];
    repeat case_match; f_equal; apply IH; lia.
Qed.

Lemma compile_cons c s :
  compile (String c s) =
  if Ascii.eqb c "*" then TStar :: compile s
  else if Ascii.eqb c "?" then TAny :: compile s
  else if Ascii.eqb c "[" then
    match class_split s with
    | Some (body, rest) => class_token body :: compile rest
    | None => TLit c :: compile s
    end
  else TLit c :: compile s.
Proof.
  unfold compile at 1. simpl.
  destruct (class_split s) as [[body rest]|] eqn:Hc;
    [pose proof (class_split_length _ _ _ Hc)|];
    repeat case_match; f_equal; apply compile_fuel_enough; lia.
Qed.
