(* ===== verification/Permissions.v ===== *)
(** The per-(principal, operation, target) permission resolver of an agent
    ([auth/permissions.py]) and the reason codes of a refusal
    ([operations/deny_reasons.py]).

    The effective verdict of a dispatch is the strictest of three gates: the
    agent's grant rows, the ceiling of the operation's safety level, and the
    ceiling of the caller's role. *)

From S2P Require Import Prelude Identity Glob.

Inductive PermissionVerdict := AUTO_EXECUTE | NEEDS_APPROVAL | DENY.

#[export] Instance PermissionVerdict_eq_dec : EqDecision PermissionVerdict.
Proof. solve_decision. Defined.

Definition verdict_value (v : PermissionVerdict) : string :=
  match v with
  | AUTO_EXECUTE => "auto-execute"
  | NEEDS_APPROVAL => "needs-approval"
  | DENY => "deny"
  end.

(** A row of the [agent_permission] table. *)
Record AgentPermission := {
  ap_tenant_id : uuid;
  ap_principal_sub : string;
  ap_op_pattern : string;
  ap_target_scope : string;
  ap_verdict : PermissionVerdict;
  ap_expires_at : option datetime;
}.

Definition SAFETY_DEFAULT : gmap string PermissionVerdict :=
  {[ "safe" := AUTO_EXECUTE; "caution" := NEEDS_APPROVAL;
     "dangerous" := NEEDS_APPROVAL; "destructive" := NEEDS_APPROVAL ]}.

Definition SAFETY_CEILING : gmap string (option PermissionVerdict) :=
  {[ "safe" := None; "caution" := Some NEEDS_APPROVAL;
     "dangerous" := Some NEEDS_APPROVAL; "destructive" := Some NEEDS_APPROVAL ]}.

Definition VERDICT_ORDER : list PermissionVerdict := [AUTO_EXECUTE; NEEDS_APPROVAL; DENY].

(** [_VERDICT_ORDER.index(v)]; every verdict is in the tuple. *)
Definition verdict_index (v : PermissionVerdict) : nat :=
  match list_find (fun x => x = v) VERDICT_ORDER with
  | Some (i, _) => i
  | None => length VERDICT_ORDER
  end.

Definition more_restrictive (a b : PermissionVerdict) : PermissionVerdict :=
  if bool_decide (verdict_index b <= verdict_index a) then a else b.

Definition apply_ceiling (verdict : PermissionVerdict) (safety_level : string)
  : PermissionVerdict :=
  match SAFETY_CEILING !! safety_level with
  | Some (Some ceiling) => more_restrictive verdict ceiling
  | Some None | None => verdict
  end.

Definition role_ceiling (role : TenantRole) : option PermissionVerdict :=
  if bool_decide (role = READ_ONLY) then Some NEEDS_APPROVAL else None.

Definition is_glob_meta (c : ascii) : bool :=
  Ascii.eqb c "*" || Ascii.eqb c "?" || Ascii.eqb c "[".

Fixpoint pattern_specificity (pattern : string) : nat :=
  match pattern with
  | EmptyString => 0
  | String c rest => if is_glob_meta c then 0 else S (pattern_specificity rest)
  end.

(** The [WHERE] clause of [_load_rows]. *)
Definition row_live (now : datetime) (tenant_id : uuid) (subs : list string)
  (row : AgentPermission) : bool :=
  bool_decide (ap_tenant_id row = tenant_id) &&
  bool_decide (ap_principal_sub row ∈ subs) &&
  match ap_expires_at row with
  | None => true
  | Some t => (now <? t)%Z
  end.

Definition row_order (a b : AgentPermission) : Prop :=
  str_le (ap_op_pattern a) (ap_op_pattern b) /\
  (ap_op_pattern a = ap_op_pattern b -> str_le (ap_target_scope a) (ap_target_scope b)).
#[export] Instance row_order_dec a b : Decision (row_order a b).
Proof. unfold row_order. apply _. Defined.

Definition load_rows (table : list AgentPermission) (now : datetime)
  (tenant_id : uuid) (subs : list string) : list AgentPermission :=
  merge_sort row_order (select_where (row_live now tenant_id subs) table).

Definition grant_principal_subs (operator : Operator) : list string :=
  match op_client_id operator with
  | Some cid =>
      if bool_decide (op_principal_kind operator = AGENT) && negb (bool_decide (cid = ""))
      then [op_sub operator; cid] else [op_sub operator]
  | None => [op_sub operator]
  end.

(** The two filters of the resolver's loop: the operation glob and the target
    scope (empty or "*" covers every target). *)
Definition row_matches (op_id : string) (target : option string)
  (row : AgentPermission) : bool :=
  fnmatch op_id (ap_op_pattern row) &&
  negb (negb (bool_decide (ap_target_scope row = "")) &&
        negb (bool_decide (ap_target_scope row = "*")) &&
        negb (bool_decide (target = Some (ap_target_scope row)))).

Definition max_list (l : list nat) : nat := foldr Nat.max 0 l.

Definition top_rows (matching : list AgentPermission) : list AgentPermission :=
  let top := max_list ((fun r => pattern_specificity (ap_op_pattern r)) <$> matching) in
  select_where (fun r => bool_decide (pattern_specificity (ap_op_pattern r) = top)) matching.

Definition fold_verdicts (first : PermissionVerdict) (rest : list AgentPermission)
  : PermissionVerdict :=
  fold_left (fun acc r => more_restrictive acc (ap_verdict r)) rest first.

Definition pick_raw_verdict (matching : list AgentPermission) (safety_level : string)
  : PermissionVerdict * string :=
  match matching with
  | [] =>
      (default DENY (SAFETY_DEFAULT !! safety_level),
       "safety_level default (" +:+ safety_level +:+ ")")
  | _ =>
      match top_rows matching with
      | [] => (DENY, "")
      | first :: rest =>
          (fold_verdicts (ap_verdict first) rest,
           match rest with
           | [] => "permission row (pattern=" +:+ py_repr (ap_op_pattern first) +:+ ")"
           | _ => "most-restrictive of tied rows (patterns=" +:+
                  join ", " (sorted_strings (ap_op_pattern <$> first :: rest)) +:+ ")"
           end)
      end
  end.

Definition finalize_verdict (raw_verdict : PermissionVerdict) (safety_level : string)
  (role_ceil : option PermissionVerdict) (tenant_role : TenantRole) (source : string)
  : PermissionVerdict * string :=
  let after_op_ceil := apply_ceiling raw_verdict safety_level in
  let final := match role_ceil with
               | Some c => more_restrictive after_op_ceil c
               | None => after_op_ceil
               end in
  let ceil_applied := match role_ceil with
                      | Some _ => negb (bool_decide (after_op_ceil = final))
                      | None => false
                      end in
  let parts := ["verdict=" +:+ verdict_value final; "source=" +:+ source] ++
    (if bool_decide (after_op_ceil = raw_verdict) then [] else
       ["tightened by safety_level ceiling (" +:+ safety_level +:+ "→" +:+
        verdict_value after_op_ceil +:+ ")"]) ++
    (if ceil_applied then
       ["tightened by role ceiling (" +:+ role_value tenant_role +:+ "→" +:+
        verdict_value final +:+ ")"] else []) in
  (final, join "; " parts).

(** [resolve_verdict], with the [agent_permission] table and the clock of the
    database session as arguments. *)
Definition resolve_verdict (table : list AgentPermission) (now : datetime)
  (operator : Operator) (op_id safety_level : string) (target_id : option string)
  : PermissionVerdict * string :=
  let role_ceil := role_ceiling (op_tenant_role operator) in
  let rows := load_rows table now (op_tenant_id operator) (grant_principal_subs operator) in
  let matching := select_where (row_matches op_id target_id) rows in
  let '(raw_verdict, source) := pick_raw_verdict matching safety_level in
  finalize_verdict raw_verdict safety_level role_ceil (op_tenant_role operator) source.

(** * Reason codes of a refusal ([operations/deny_reasons.py]) *)

Definition AGENT_GRANT_DENIED := "agent_grant_denied".
Definition ROLE_INSUFFICIENT := "role_insufficient".
Definition READ_SCOPE_DENIED := "read_scope_denied".
Definition POLICY_DENIED := "policy_denied".

Definition deny_reason_code (reason : string) : string :=
  if starts_with (READ_SCOPE_DENIED +:+ ":") reason then READ_SCOPE_DENIED
  else if contains "verdict=deny" reason then AGENT_GRANT_DENIED
  else if contains " role; your role is " reason then ROLE_INSUFFICIENT
  else POLICY_DENIED.

(** * The verdict lattice *)

Definition verdict_le (a b : PermissionVerdict) : Prop := verdict_index a <= verdict_index b.

#[export] Instance verdict_le_po : PreOrder verdict_le.
Proof. unfold verdict_le. split; [intros ?; lia|intros ???; lia]. Qed.

Lemma verdict_le_antisym a b : verdict_le a b -> verdict_le b a -> a = b.
Proof. destruct a, b; vm_compute; intros; try done; lia. Qed.

Lemma more_restrictive_l a b : verdict_le a (more_restrictive a b).
Proof. destruct a, b; vm_compute; lia. Qed.

Lemma more_restrictive_r a b : verdict_le b (more_restrictive a b).
Proof. destruct a, b; vm_compute; lia. Qed.

Lemma more_restrictive_or a b : more_restrictive a b = a \/ more_restrictive a b = b.
Proof. unfold more_restrictive. case_bool_decide; auto. Qed.

Lemma AUTO_least v : verdict_le AUTO_EXECUTE v.
Proof. destruct v; vm_compute; lia. Qed.

#[export] Hint Resolve more_restrictive_l more_restrictive_r AUTO_least : meho.

Lemma fold_verdicts_ub first rest :
  verdict_le first (fold_verdicts first rest) /\
  forall r, r ∈ rest -> verdict_le (ap_verdict r) (fold_verdicts first rest).
Proof.
  unfold fold_verdicts. revert first; induction rest as [|x rest IH]; intros first; simpl.
  - split; [done|]. intros r Hr; set_solver.
  - destruct (IH (more_restrictive first (ap_verdict x))) as [H1 H2]. split.
    + etrans; [apply more_restrictive_l|exact H1].
    + intros r [->|Hr]%elem_of_cons; [|by apply H2].
      etrans; [apply more_restrictive_r|exact H1].
Qed.

Lemma fold_verdicts_attained first rest :
  fold_verdicts first rest = first \/
  exists r, r ∈ rest /\ fold_verdicts first rest = ap_verdict r.
Proof.
  unfold fold_verdicts. revert first; induction rest as [|x rest IH]; intros first; simpl; [by left|].
  destruct (IH (more_restrictive first (ap_verdict x))) as [->|(r & Hr & ->)].
  - destruct (more_restrictive_or first (ap_verdict x)) as [->| ->]; [by left|].
    right. exists x. split; [left|done].
  - right. exists r. split; [by right|done].
Qed.

(** * The rows that govern a dispatch *)

(** Declaratively: a row of the table is a candidate when it is live for the
    caller and covers the operation and the target; the governing rows are the
    candidates of the greatest specificity. *)
Definition candidate (table : list AgentPermission) (now : datetime) (operator : Operator)
  (op_id : string) (target : option string) (r : AgentPermission) : Prop :=
  r ∈ table /\
  row_live now (op_tenant_id operator) (grant_principal_subs operator) r = true /\
  row_matches op_id target r = true.

Definition governing table now operator op_id target (r : AgentPermission) : Prop :=
  candidate table now operator op_id target r /\
  forall r', candidate table now operator op_id target r' ->
    pattern_specificity (ap_op_pattern r') <= pattern_specificity (ap_op_pattern r).

Lemma max_list_ub l n : n ∈ l -> n <= max_list l.
Proof. induction 1; simpl; lia. Qed.

Lemma max_list_attained l : l <> [] -> max_list l ∈ l.
Proof.
  induction l as [|x l IH]; [done|]. intros _. simpl.
  destruct l as [|y l]; [simpl; rewrite Nat.max_0_r; left|].
  destruct (Nat.max_spec x (max_list (y :: l))) as [[_ ->]|[_ ->]]; [right; by apply IH|left].
Qed.

Lemma top_rows_spec matching r :
  r ∈ top_rows matching <->
  r ∈ matching /\ forall r', r' ∈ matching ->
    pattern_specificity (ap_op_pattern r') <= pattern_specificity (ap_op_pattern r).
Proof.
  unfold top_rows. rewrite elem_of_select, bool_decide_eq_true. split.
  - intros [Hr Heq]. split; [done|]. intros r' Hr'. rewrite Heq.
    apply max_list_ub. by apply (list_elem_of_fmap_2 (fun r => pattern_specificity (ap_op_pattern r))).
  - intros [Hr Hmax]. split; [done|]. apply Nat.le_antisymm.
    + apply max_list_ub. by apply (list_elem_of_fmap_2 (fun r => pattern_specificity (ap_op_pattern r))).
    + assert (matching <> []) as Hne by (intros ->; set_solver).
      pose proof (max_list_attained ((fun r => pattern_specificity (ap_op_pattern r)) <$> matching)) as Hm.
      destruct matching; [done|]. specialize (Hm ltac:(done)).
      apply list_elem_of_fmap in Hm as (r' & -> & Hr'). by apply Hmax.
Qed.

Lemma top_rows_nonempty matching : matching <> [] -> top_rows matching <> [].
Proof.
  intros Hne. pose proof (max_list_attained
    ((fun r => pattern_specificity (ap_op_pattern r)) <$> matching)) as Hm.
  destruct matching as [|x m]; [done|]. specialize (Hm ltac:(done)).
  apply list_elem_of_fmap in Hm as (r & Heq & Hr).
  assert (r ∈ top_rows (x :: m)) as Hin; [|intros E; rewrite E in Hin; set_solver].
  unfold top_rows. rewrite elem_of_select, bool_decide_eq_true. done.
Qed.

(** [pick_raw_verdict] is the least upper bound of the top rows' verdicts. *)
Lemma pick_raw_verdict_ub matching level r :
  r ∈ top_rows matching -> verdict_le (ap_verdict r) (fst (pick_raw_verdict matching level)).
Proof.
  intros Hr. assert (r ∈ matching) as Hm by (by apply top_rows_spec in Hr as [? _]).
  unfold pick_raw_verdict. destruct matching as [|x m]; [set_solver|].
  destruct (top_rows (x :: m)) as [|f rest]; [set_solver|]. simpl.
  destruct (fold_verdicts_ub (ap_verdict f) rest) as [H1 H2].
  apply elem_of_cons in Hr as [->|Hr]; auto.
Qed.

Lemma pick_raw_verdict_attained matching level :
  matching <> [] ->
  exists r, r ∈ top_rows matching /\ fst (pick_raw_verdict matching level) = ap_verdict r.
Proof.
  intros Hne. pose proof (top_rows_nonempty _ Hne) as Ht.
  unfold pick_raw_verdict. destruct matching as [|x m]; [done|].
  destruct (top_rows (x :: m)) as [|f rest]; [done|]. simpl.
  destruct (fold_verdicts_attained (ap_verdict f) rest) as [->|(r & Hr & ->)].
  - exists f. split; [left|done].
  - exists r. split; [by right|done].
Qed.

Lemma matching_candidate table now operator op_id target r :
  r ∈ select_where (row_matches op_id target)
        (load_rows table now (op_tenant_id operator) (grant_principal_subs operator)) <->
  candidate table now operator op_id target r.
Proof.
  unfold load_rows, candidate. rewrite elem_of_select, merge_sort_Permutation, elem_of_select.
  tauto.
Qed.

(** * The three gates *)

(** The verdicts that the ceilings of the safety level and of the role ask for. *)
Definition ceiling_asks (safety_level : string) (role : TenantRole) (v : PermissionVerdict) : Prop :=
  SAFETY_CEILING !! safety_level = Some (Some v) \/ role_ceiling role = Some v.

Lemma finalize_verdict_spec raw level role source :
  let v := fst (finalize_verdict raw level (role_ceiling role) role source) in
  verdict_le raw v /\ (forall c, ceiling_asks level role c -> verdict_le c v) /\
  (v = raw \/ ceiling_asks level role v).
Proof.
  unfold finalize_verdict, ceiling_asks, apply_ceiling. simpl.
  destruct (SAFETY_CEILING !! level) as [[c|]|]; destruct (role_ceiling role) as [d|]; simpl;
    repeat split; intros; destruct_or?; simplify_eq; eauto with meho; try done.
  all: try (etrans; [|apply more_restrictive_l]; eauto with meho; done).
  all: repeat match goal with
       | |- context [more_restrictive ?a ?b] => destruct (more_restrictive_or a b) as [->| ->]
       end; eauto.
Qed.

Lemma no_candidate_nil table now operator op_id target :
  (forall r, ~ candidate table now operator op_id target r) ->
  select_where (row_matches op_id target)
    (load_rows table now (op_tenant_id operator) (grant_principal_subs operator)) = [].
Proof.
  intros H. apply list.elem_of_nil_inv. intros r Hr%matching_candidate. by eapply H.
Qed.

Lemma governing_top table now operator op_id target r :
  governing table now operator op_id target r <->
  r ∈ top_rows (select_where (row_matches op_id target)
        (load_rows table now (op_tenant_id operator) (grant_principal_subs operator))).
Proof.
  unfold governing. rewrite top_rows_spec, matching_candidate.
  by setoid_rewrite matching_candidate.
Qed.

(** C21. The resolver returns the least strict verdict that all three gates
    allow: it is at least as strict as every governing grant row (a live,
    matching row of greatest specificity), as the ceilings of the safety level
    and of the role, and, when no row matches, as the safety-level default; and
    it is one of these verdicts, never stricter than all of them. *)
Theorem resolve_verdict_lub table now operator op_id level target :
  let v := fst (resolve_verdict table now operator op_id level target) in
  let none := forall r, ~ candidate table now operator op_id target r in
  let dflt := default DENY (SAFETY_DEFAULT !! level) in
  (forall r, governing table now operator op_id target r -> verdict_le (ap_verdict r) v) /\
  (forall c, ceiling_asks level (op_tenant_role operator) c -> verdict_le c v) /\
  (none -> verdict_le dflt v) /\
  ((exists r, governing table now operator op_id target r /\ v = ap_verdict r) \/
   ceiling_asks level (op_tenant_role operator) v \/ (none /\ v = dflt)).
Proof.
  simpl. unfold resolve_verdict.
  set (m := select_where _ _).
  destruct (pick_raw_verdict m level) as [raw source] eqn:Hp.
  assert (raw = fst (pick_raw_verdict m level)) as Hraw by (by rewrite Hp).
  destruct (finalize_verdict_spec raw level (op_tenant_role operator) source)
    as (Hle & Hceil & Hor).
  set (v := fst (finalize_verdict _ _ _ _ _)) in *.
  repeat split.
  - intros r Hr%governing_top. etrans; [by apply (pick_raw_verdict_ub m level)|]. by rewrite <- Hraw.
  - done.
  - intros Hnone%no_candidate_nil. fold m in Hnone. by rewrite Hnone in Hraw; simpl in Hraw; subst raw.
  - destruct Hor as [->|]; [|by right; left].
    destruct (decide (m = [])) as [Hm|Hm].
    + right; right. split; [|by rewrite Hraw, Hm].
      intros r Hr%matching_candidate. fold m in Hr. rewrite Hm in Hr. set_solver.
    + left. destruct (pick_raw_verdict_attained m level Hm) as (r & Hr & Heq).
      exists r. split; [by apply governing_top|]. by rewrite Hraw.
Qed.

(** Two lists of rows with the same governing set give the same verdict. *)
Lemma pick_raw_verdict_perm m m' level :
  m ≡ₚ m' -> fst (pick_raw_verdict m level) = fst (pick_raw_verdict m' level).
Proof.
  intros Hp.
  assert (forall r, r ∈ top_rows m <-> r ∈ top_rows m') as Htop.
  { intros r. rewrite !top_rows_spec. by setoid_rewrite Hp. }
  destruct (decide (m = [])) as [->|Hm]; [by apply Permutation_nil in Hp as ->|].
  assert (m' <> []) as Hm' by (intros ->; by apply Permutation_nil_r in Hp).
  destruct (pick_raw_verdict_attained m level Hm) as (r & Hr & E).
  destruct (pick_raw_verdict_attained m' level Hm') as (r' & Hr' & E').
  apply verdict_le_antisym.
  - rewrite E. apply pick_raw_verdict_ub. by apply Htop.
  - rewrite E'. apply pick_raw_verdict_ub. by apply Htop.
Qed.

Lemma finalize_verdict_fst raw level rc role s s' :
  fst (finalize_verdict raw level rc role s) = fst (finalize_verdict raw level rc role s').
Proof. done. Qed.

(** Only the caller's own live rows matter, and only as a set: two grant
    tables whose rows for the caller's tenant and principals that have not
    expired are the same up to order give the same verdict.  Rows of other
    tenants, of other principals and expired elevations never change it. *)
Theorem resolve_verdict_live_rows table table' now operator op_id level target :
  select_where (row_live now (op_tenant_id operator) (grant_principal_subs operator)) table ≡ₚ
  select_where (row_live now (op_tenant_id operator) (grant_principal_subs operator)) table' ->
  fst (resolve_verdict table now operator op_id level target) =
  fst (resolve_verdict table' now operator op_id level target).
Proof.
  intros Hp. unfold resolve_verdict, load_rows.
  set (m := select_where (row_matches _ _) _). set (m' := select_where (row_matches _ _) _).
  assert (m ≡ₚ m') as Hm.
  { unfold m, m'. by rewrite !merge_sort_Permutation, Hp. }
  pose proof (pick_raw_verdict_perm m m' level Hm) as Hraw.
  destruct (pick_raw_verdict m level) as [raw s], (pick_raw_verdict m' level) as [raw' s'].
  simpl in Hraw; subst raw'. apply finalize_verdict_fst.
Qed.

Lemma ceilings_hold table now operator op_id level target :
  level ∈ ["caution"; "dangerous"; "destructive"] \/ op_tenant_role operator = READ_ONLY ->
  fst (resolve_verdict table now operator op_id level target) <> AUTO_EXECUTE.
Proof.
  intros Hcase Hauto.
  assert (ceiling_asks level (op_tenant_role operator) NEEDS_APPROVAL) as Hask.
  { unfold ceiling_asks. destruct Hcase as [Hl|Hr].
    - left. repeat (apply elem_of_cons in Hl as [->|Hl]; [vm_compute; done|]).
      by apply not_elem_of_nil in Hl.
    - right. by rewrite Hr. }
  pose proof (finalize_verdict_spec) as Hspec. unfold resolve_verdict in Hauto.
  destruct (pick_raw_verdict _ level) as [raw source].
  destruct (Hspec raw level (op_tenant_role operator) source) as (_ & Hceil & _).
  specialize (Hceil _ Hask). rewrite Hauto in Hceil. vm_compute in Hceil. lia.
Qed.

(** An agent runs only safe operations at once: whatever its grant rows say,
    a caution, dangerous or destructive operation is never auto-executed, and
    neither is any operation of a read-only caller. *)
Theorem never_auto_execute table now operator op_id level target :
  level ∈ ["caution"; "dangerous"; "destructive"] \/ op_tenant_role operator = READ_ONLY ->
  fst (resolve_verdict table now operator op_id level target) <> AUTO_EXECUTE.
Proof. apply ceilings_hold. Qed.

(** The safety ceiling fails open for a level outside the four known ones: a
    grant row with verdict auto-execute lets an agent run such an operation at
    once, although without a matching row the same call is denied. *)
Theorem unknown_level_has_no_ceiling table now operator op_id level target :
  SAFETY_CEILING !! level = None -> op_tenant_role operator <> READ_ONLY ->
  (exists r, governing table now operator op_id target r) ->
  (forall r, governing table now operator op_id target r -> ap_verdict r = AUTO_EXECUTE) ->
  fst (resolve_verdict table now operator op_id level target) = AUTO_EXECUTE /\
  fst (resolve_verdict [] now operator op_id level target) = DENY.
Proof.
  intros Hlevel Hrole [r0 Hr0] Hall. unfold resolve_verdict.
  assert (role_ceiling (op_tenant_role operator) = None) as Hrc
    by (unfold role_ceiling; by case_bool_decide).
  split.
  - set (m := select_where _ _).
    assert (r0 ∈ m) as Hin by (apply matching_candidate, Hr0).
    assert (m <> []) as Hm by (intros E; rewrite E in Hin; set_solver).
    destruct (pick_raw_verdict_attained m level Hm) as (r & Hr & Heq).
    destruct (pick_raw_verdict m level) as [raw source]. simpl in Heq.
    unfold finalize_verdict, apply_ceiling. rewrite Hlevel, Hrc. simpl.
    rewrite Heq. apply Hall. by apply governing_top.
  - simpl. unfold finalize_verdict, apply_ceiling. rewrite Hlevel, Hrc. simpl.
    unfold SAFETY_CEILING, SAFETY_DEFAULT in *.
    destruct (decide (level ∈ dom SAFETY_CEILING)) as [Hin|Hin].
    + apply elem_of_dom in Hin as [? Hin]. unfold SAFETY_CEILING in Hin. congruence.
    + rewrite (proj1 (not_elem_of_dom _ _)); [done|]. exact Hin.
Qed.

Lemma finalize_deny_code raw level rc role source :
  fst (finalize_verdict raw level rc role source) = DENY ->
  deny_reason_code (snd (finalize_verdict raw level rc role source)) = AGENT_GRANT_DENIED.
Proof.
  unfold finalize_verdict; simpl. intros ->.
  set (rest := if bool_decide _ then _ else _). set (rest' := if _ : bool then _ else _).
  clearbody rest rest'. destruct (rest ++ rest'); reflexivity.
Qed.

(** A refusal by the agent's grants is reported as [agent_grant_denied], and
    one by the role floor as [role_insufficient] (for an operation id that does
    not itself carry another rule's mark). *)
Theorem deny_codes table now operator op_id level target floors role text :
  (fst (resolve_verdict table now operator op_id level target) = DENY ->
   deny_reason_code (snd (resolve_verdict table now operator op_id level target))
   = AGENT_GRANT_DENIED) /\
  (role_floor_denial floors op_id role = Some text ->
   starts_with (READ_SCOPE_DENIED +:+ ":") text = false ->
   contains "verdict=deny" text = false ->
   deny_reason_code text = ROLE_INSUFFICIENT).
Proof.
  split.
  - unfold resolve_verdict. destruct (pick_raw_verdict _ level) as [raw source].
    apply finalize_deny_code.
  - intros Hd Hs Hv. unfold deny_reason_code. rewrite Hs, Hv.
    unfold role_floor_denial in Hd. destruct (floors !! op_id); [|done].
    case_bool_decide; simplify_eq.
    rewrite contains_app_r; [done|]. by do 2 apply contains_app_r; apply contains_app_l.
Qed.

Lemma compile_literal c s : is_glob_meta c = false -> compile (String c s) = TLit c :: compile s.
Proof.
  unfold is_glob_meta. intros H. to_prop. rewrite compile_cons.
  by repeat match goal with E : Ascii.eqb _ _ = false |- _ => rewrite E; clear E end.
Qed.

(** Specificity measures what a pattern pins down: an operation id that a
    pattern matches starts with the pattern's literal prefix, whose length is the
    specificity; so a pattern without a metacharacter matches only itself. *)
Theorem specificity_is_shared_prefix op_id pattern :
  fnmatch op_id pattern = true ->
  String.substring 0 (pattern_specificity pattern) op_id =
  String.substring 0 (pattern_specificity pattern) pattern /\
  (pattern_specificity pattern = String.length pattern -> op_id = pattern).
Proof.
  unfold fnmatch. rewrite gmatch_spec. revert op_id.
  induction pattern as [|c pattern IH]; intros op_id H; simpl.
  - inversion H; subst. done.
  - destruct (is_glob_meta c) eqn:Hc; [by destruct op_id|].
    rewrite compile_literal in H by done.
    inversion H as [|t p d s Hacc Hm|]; subst. simpl in Hacc.
    apply Ascii.eqb_eq in Hacc as ->. destruct (IH _ Hm) as [IH1 IH2].
    split; [|intros [= Hlen]; by rewrite (IH2 Hlen)]. simpl. by rewrite IH1.
Qed.

(** * Witnesses *)

Section Examples.
Let agent : Operator := {|
  op_sub := "service-account-1"; op_tenant_id := "t1"; op_tenant_role := OPERATOR;
  op_principal_kind := AGENT; op_client_id := Some "agent:deployer";
  op_platform_admin := false; op_web_session := false; op_name := None; op_approver := false; op_self_approver := false;
  op_tenant_chosen := true; op_auth_time := None; op_sid := None; op_acr := None; op_azp := None |}.
Let grant pattern v exp : AgentPermission := {|
  ap_tenant_id := "t1"; ap_principal_sub := "agent:deployer"; ap_op_pattern := pattern;
  ap_target_scope := "*"; ap_verdict := v; ap_expires_at := exp |}.
Let foreign : AgentPermission := {|
  ap_tenant_id := "t2"; ap_principal_sub := "agent:deployer"; ap_op_pattern := "vault.kv.read";
  ap_target_scope := "*"; ap_verdict := DENY; ap_expires_at := None |}.

(** A narrower deny beats the broad grant; the rows of another tenant and an
    expired row do not count. *)
Example resolve_example :
  fst (resolve_verdict
         [grant "vault.*" AUTO_EXECUTE None; grant "vault.kv.*" DENY None;
          grant "vault.kv.read" AUTO_EXECUTE (Some 5%Z); foreign]
         10%Z agent "vault.kv.read" "safe" None) = DENY.
Proof. vm_compute. reflexivity. Qed.

Lemma resolve_verdict_live_rows_witness :
  fst (resolve_verdict [grant "*" AUTO_EXECUTE None; foreign] 10%Z agent "vault.kv.read" "safe" None)
  = fst (resolve_verdict [grant "a*" DENY (Some 9%Z); grant "*" AUTO_EXECUTE None] 10%Z agent
           "vault.kv.read" "safe" None).
Proof. apply resolve_verdict_live_rows. vm_compute. reflexivity. Defined.

Lemma never_auto_execute_witness :
  fst (resolve_verdict [grant "*" AUTO_EXECUTE None] 10%Z agent "vault.kv.write" "caution" None)
  <> AUTO_EXECUTE.
Proof. apply never_auto_execute. left. vm_compute. left. Defined.

Lemma unknown_level_has_no_ceiling_witness :
  fst (resolve_verdict [grant "*" AUTO_EXECUTE None] 10%Z agent "new.op" "critical" None)
  = AUTO_EXECUTE /\
  fst (resolve_verdict [] 10%Z agent "new.op" "critical" None) = DENY.
Proof.
  apply unknown_level_has_no_ceiling.
  - vm_compute. reflexivity.
  - vm_compute. discriminate.
  - exists (grant "*" AUTO_EXECUTE None). apply governing_top. vm_compute. left.
  - intros r [[Hr _] _]. apply list_elem_of_singleton in Hr as ->. reflexivity.
Defined.

Lemma deny_codes_witness :
  deny_reason_code (snd (resolve_verdict [grant "vault.*" DENY None] 10%Z agent
                           "vault.kv.read" "safe" None)) = AGENT_GRANT_DENIED /\
  deny_reason_code "targets.register needs the tenant_admin role; your role is operator"
  = ROLE_INSUFFICIENT.
Proof.
  destruct (deny_codes [grant "vault.*" DENY None] 10%Z agent "vault.kv.read" "safe" None
              {["targets.register" := TENANT_ADMIN]} OPERATOR
              "targets.register needs the tenant_admin role; your role is operator") as [H1 _].
  destruct (deny_codes [] 10%Z agent "targets.register" "safe" None
              {["targets.register" := TENANT_ADMIN]} OPERATOR
              "targets.register needs the tenant_admin role; your role is operator") as [_ H2].
  split; [apply H1|apply H2]; vm_compute; reflexivity.
Defined.

Lemma specificity_is_shared_prefix_witness :
  String.substring 0 (pattern_specificity "vault.kv.*") "vault.kv.read" =
  String.substring 0 (pattern_specificity "vault.kv.*") "vault.kv.*".
Proof. apply (specificity_is_shared_prefix "vault.kv.read" "vault.kv.*"). vm_compute. reflexivity. Defined.
End Examples.
