(* ===== verification/Json.v ===== *)
(** JSON values as Python holds them, Python's [==] and [str] on them, and the
    regular-expression scanner ([re.sub], [re.finditer], [re.search]) that the
    runbook code applies to the strings inside. *)

From stdpp Require Import pretty.
From S2P Require Import Prelude.

(** A dict is the list of its items in insertion order; its keys are distinct
    ([json_wf]).  A float is [m * 2^e] with [text], the decimal text Python's
    [repr] prints for it. *)
Inductive json : Type :=
| JNull
| JBool (b : bool)
| JInt (z : Z)
| JFloat (m e : Z) (text : string)
| JStr (s : string)
| JList (l : list json)
| JDict (d : list (string * json)).

Abbreviation json_dict := (list (string * json)).

(** Induction that reaches the elements of lists and the values of dicts. *)
Section JsonInd.
Variable P : json -> Prop.
Hypothesis HNull : P JNull.
Hypothesis HBool : forall b, P (JBool b).
Hypothesis HInt : forall z, P (JInt z).
Hypothesis HFloat : forall m e t, P (JFloat m e t).
Hypothesis HStr : forall s, P (JStr s).
Hypothesis HList : forall l, Forall P l -> P (JList l).
Hypothesis HDict : forall d, Forall (fun kv => P (snd kv)) d -> P (JDict d).

Fixpoint json_nested_ind (v : json) : P v :=
  match v with
  | JNull => HNull
  | JBool b => HBool b
  | JInt z => HInt z
  | JFloat m e t => HFloat m e t
  | JStr s => HStr s
  | JList l =>
      HList l ((fix go l : Forall P l :=
        match l with
        | [] => Forall_nil_2 _
        | x :: l' => Forall_cons_2 _ _ _ (json_nested_ind x) (go l')
        end) l)
  | JDict d =>
      HDict d ((fix go d : Forall (fun kv => P (snd kv)) d :=
        match d with
        | [] => Forall_nil_2 _
        | (k, x) :: d' => Forall_cons_2 (fun kv => P (snd kv)) (k, x) d' (json_nested_ind x) (go d')
        end) d)
  end.
End JsonInd.

(** [d.get(k)]: the first item with key [k]. *)
Fixpoint dict_get {A} (k : string) (d : list (string * A)) : option A :=
  match d with
  | [] => None
  | (k', v) :: d' => if bool_decide (k = k') then Some v else dict_get k d'
  end.

Fixpoint json_wf (v : json) : Prop :=
  match v with
  | JList l => (fix go l := match l with [] => True | x :: l' => json_wf x /\ go l' end) l
  | JDict d => NoDup d.*1 /\
      (fix go d := match d with [] => True | (_, x) :: d' => json_wf x /\ go d' end) d
  | _ => True
  end.

(** * Python equality *)

(** The numeric value of a scalar as [m * 2^e]; [True == 1 == 1.0] in Python. *)
Definition num_of (v : json) : option (Z * Z) :=
  match v with
  | JBool b => Some (if b then 1%Z else 0%Z, 0%Z)
  | JInt z => Some (z, 0%Z)
  | JFloat m e _ => Some (m, e)
  | _ => None
  end.

Definition num_eq (x y : Z * Z) : bool :=
  let '(m1, e1) := x in
  let '(m2, e2) := y in
  let e := Z.min e1 e2 in
  (m1 * 2 ^ (e1 - e) =? m2 * 2 ^ (e2 - e))%Z.

(** [a == b]. *)
Fixpoint py_eq (a b : json) : bool :=
  match a, b with
  | JNull, JNull => true
  | JStr s, JStr t => bool_decide (s = t)
  | JList l, JList l' =>
      (fix go l l' := match l, l' with
        | [], [] => true
        | x :: l, y :: l' => py_eq x y && go l l'
        | _, _ => false
        end) l l'
  | JDict d, JDict d' =>
      bool_decide (length d = length d') &&
      forallb (fun kv => match dict_get (fst kv) d' with
                         | Some y => py_eq (snd kv) y
                         | None => false
                         end) d
  | _, _ => match num_of a, num_of b with Some x, Some y => num_eq x y | _, _ => false end
  end.

(** * Python's [str] *)

Fixpoint json_repr (v : json) : string :=
  match v with
  | JNull => "None"
  | JBool true => "True"
  | JBool false => "False"
  | JInt z => pretty z
  | JFloat _ _ text => text
  | JStr s => py_repr s
  | JList l => "[" +:+ join ", " (List.map json_repr l) +:+ "]"
  | JDict d =>
      "{" +:+ join ", " (List.map (fun kv => py_repr (fst kv) +:+ ": " +:+ json_repr (snd kv)) d)
      +:+ "}"
  end.

Definition py_str (v : json) : string :=
  match v with JStr s => s | _ => json_repr v end.

(** * Scanning with a regular expression

    A pattern is given by what it matches at the start of a string: the groups
    and the rest.  [scan] walks the string left to right, taking a match where
    there is one and a character otherwise: the non-overlapping matches of
    [re.finditer] with the text between them. *)

Section Scan.
Context {A : Type} (m : string -> option (A * string)).

Fixpoint scan_fuel (fuel : nat) (s : string) : list (ascii + A) :=
  match fuel, s with
  | S f, String c s' =>
      match m s with
      | Some (a, rest) => inr a :: scan_fuel f rest
      | None => inl c :: scan_fuel f s'
      end
  | _, _ => []
  end.

Definition scan (s : string) : list (ascii + A) := scan_fuel (String.length s) s.

(** The matches of [re.finditer]. *)
Definition finditer (s : string) : list A :=
  omap (fun x => match x with inl _ => None | inr a => Some a end) (scan s).

(** The text of [re.sub] with a replacement function that may raise. *)
Fixpoint sub_segments {E} (repl : A -> res E string) (segs : list (ascii + A)) : res E string :=
  match segs with
  | [] => Ok ""
  | inl c :: rest => String c <$> sub_segments repl rest
  | inr a :: rest => r ← repl a; (fun t => r +:+ t) <$> sub_segments repl rest
  end.

Definition re_sub {E} (repl : A -> res E string) (s : string) : res E string :=
  sub_segments repl (scan s).

(** A match consumes at least one character. *)
Definition consuming : Prop :=
  forall s a rest, m s = Some (a, rest) -> String.length rest < String.length s.

Lemma scan_fuel_enough n k s :
  consuming -> String.length s <= n -> String.length s <= k -> scan_fuel n s = scan_fuel k s.
Proof.
  intros Hm. revert k s; induction n as [|n IH]; intros k s Hn Hk;
    destruct s as [|c s]; simpl in *; try lia; try (by destruct k).
  destruct k as [|k]; [lia|]. simpl. destruct (m (String c s)) as [[a rest]|] eqn:E.
  - apply Hm in E. simpl in E. f_equal. apply IH; lia.
  - f_equal. apply IH; lia.
Qed.

Lemma scan_cons c s :
  consuming ->
  scan (String c s) =
  match m (String c s) with
  | Some (a, rest) => inr a :: scan rest
  | None => inl c :: scan s
  end.
Proof.
  intros Hm. unfold scan at 1. simpl. destruct (m (String c s)) as [[a rest]|] eqn:E.
  - apply Hm in E. simpl in E. unfold scan. f_equal. apply scan_fuel_enough; auto; lia.
  - unfold scan. f_equal.
Qed.
End Scan.

(** [strip_prefix p s]: the rest of [s] after a literal prefix [p]. *)
Fixpoint strip_prefix (p s : string) : option string :=
  match p, s with
  | EmptyString, _ => Some s
  | String a p', String b s' => if Ascii.eqb a b then strip_prefix p' s' else None
  | String _ _, EmptyString => None
  end.

#[global] Arguments strip_prefix : simpl never.

Lemma strip_prefix_cons a p s :
  strip_prefix (String a p) s =
  match s with
  | String b s' => if Ascii.eqb a b then strip_prefix p s' else None
  | EmptyString => None
  end.
Proof. by destruct s. Qed.

Lemma strip_prefix_spec p s t : strip_prefix p s = Some t <-> s = p +:+ t.
Proof.
  split.
  - revert s; induction p as [|a p IH]; intros s H; [by injection H|].
    rewrite strip_prefix_cons in H. destruct s as [|b s]; [done|].
    destruct (Ascii.eqb_spec a b) as [->|]; [|done]. by rewrite (IH _ H).
  - intros ->. induction p as [|a p IH]; [done|].
    by rewrite string_app_cons, strip_prefix_cons, Ascii.eqb_refl.
Qed.
