(* ===== verification/Catalog.v ===== *)
(** The operation catalogue: descriptor rows, the connector id convention, and
    the predicates that say which descriptor rows a tenant sees
    ([operations/_lookup.py]), with the caller-address floor
    ([operations/caller_address.py]). *)

From S2P Require Import Prelude Json.

(** * Rows *)

(** The name of one operation ([OpKey] of [operations/op_policy.py]). *)
Record OpKey := {
  k_product : string;
  k_version : string;
  k_impl_id : string;
  k_op_id : string;
}.
#[export] Instance OpKey_eq_dec : EqDecision OpKey.
Proof. solve_decision. Defined.

(** A row of [endpoint_descriptor], with the columns the policy code reads.  The
    name columns are kept as one [OpKey]. *)
Record EndpointDescriptor := {
  ed_tenant_id : option uuid;
  ed_key : OpKey;
  ed_is_enabled : bool;
  ed_owner_package : option string;
  ed_method : option string;
  ed_tags : list string;
  ed_safety_level : string;
  ed_requires_approval : bool;
  ed_parameter_schema : json;
}.

Definition ed_triple (d : EndpointDescriptor) : string * string * string :=
  (k_product (ed_key d), k_version (ed_key d), k_impl_id (ed_key d)).

(** A row of [tenant_operation_setting]. *)
Record TenantOperationSetting := {
  ts_tenant_id : uuid;
  ts_key : OpKey;
  ts_enabled : bool;
}.

(** * Connector ids *)

Definition is_digit (c : ascii) : bool :=
  let n := nat_of_ascii c in (48 <=? n) && (n <=? 57).

Definition is_version_char (c : ascii) : bool :=
  let n := nat_of_ascii c in
  is_digit c || ((97 <=? n) && (n <=? 122)) || ((65 <=? n) && (n <=? 90)) ||
  Ascii.eqb c "." || Ascii.eqb c "_".

Definition is_version (s : string) : bool :=
  match s with
  | EmptyString => false
  | String c rest => is_digit c && all_chars is_version_char rest
  end.

(** The text before and after the last "-". *)
Fixpoint split_last_hyphen (s : string) : option (string * string) :=
  match s with
  | EmptyString => None
  | String c s' =>
      match split_last_hyphen s' with
      | Some (h, t) => Some (String c h, t)
      | None => if Ascii.eqb c "-" then Some ("", s') else None
      end
  end.

(** [_CONNECTOR_ID_TAIL_VERSION.match]: the version holds no "-", so the greedy
    head ends at the last one; "." of the pattern stops at a line feed. *)
Definition CONNECTOR_ID_TAIL_VERSION (s : string) : option (string * string) :=
  match split_last_hyphen s with
  | Some (head, tail) =>
      let version := drop_final_newline tail in
      if negb (bool_decide (head = "")) && negb (has_char "010" head) && is_version version
      then Some (head, version) else None
  | None => None
  end.

(** [head.split("-", 1)[0]]. *)
Fixpoint before_hyphen (s : string) : string :=
  match s with
  | EmptyString => ""
  | String c s' => if Ascii.eqb c "-" then "" else String c (before_hyphen s')
  end.

(** The triple (product, version, impl_id). *)
Definition parse_connector_id (connector_id : string) : string * string * string :=
  match CONNECTOR_ID_TAIL_VERSION connector_id with
  | None => (connector_id, "", "")
  | Some (head, version) =>
      (if has_char "-" head then before_hyphen head else head, version, head)
  end.

Definition render_connector_id (t : string * string * string) : option string :=
  let '(product, version, impl_id) := t in
  let connector_id :=
    if negb (bool_decide (impl_id = "")) && negb (bool_decide (version = ""))
    then impl_id +:+ "-" +:+ version else product in
  if bool_decide (parse_connector_id connector_id = (product, version, impl_id))
  then Some connector_id else None.

(** [_format_connector_id] of [runbooks/run_service.py]. *)
Definition format_connector_id (impl_id version : string) : string :=
  if bool_decide (version = "") then impl_id else impl_id +:+ "-" +:+ version.

(** * Visibility *)

(** [visible_scope_clause] for rows of the triple's connector. *)
Definition tenant_owns_connector (rows : list EndpointDescriptor) (tenant_id : uuid)
  (t : string * string * string) : bool :=
  existsb (fun d => bool_decide (ed_tenant_id d = Some tenant_id) && bool_decide (ed_triple d = t)) rows.

Definition visible_scope (rows : list EndpointDescriptor) (tenant_id : option uuid)
  (t : string * string * string) (d : EndpointDescriptor) : bool :=
  match tenant_id with
  | None => bool_decide (ed_tenant_id d = None)
  | Some tid =>
      bool_decide (ed_tenant_id d = Some tid) ||
      (bool_decide (ed_tenant_id d = None) && negb (tenant_owns_connector rows tid t))
  end.

(** [installed] is the list of connector packages installed in the process. *)
Definition installed_owner (installed : list string) (d : EndpointDescriptor) : bool :=
  match ed_owner_package d with None => true | Some p => bool_decide (p ∈ installed) end.

Definition enabled_for_tenant (settings : list TenantOperationSetting) (tenant_id : option uuid)
  (d : EndpointDescriptor) : bool :=
  match tenant_id with
  | None => ed_is_enabled d
  | Some tid =>
      match ed_tenant_id d with
      | Some _ => ed_is_enabled d
      | None =>
          match List.find (fun s => bool_decide (ts_tenant_id s = tid) &&
                                    bool_decide (ts_key s = ed_key d)) settings with
          | Some s => ts_enabled s
          | None => ed_is_enabled d
          end
      end
  end.

(** * The caller-address floor *)

Definition CALLER_ADDRESS_MARKER : string := "x-meho-caller-address".

Fixpoint has_caller_address (schema : json) : bool :=
  match schema with
  | JDict d =>
      match dict_get CALLER_ADDRESS_MARKER d with
      | Some (JBool true) => true
      | _ => existsb (fun kv => has_caller_address (snd kv)) d
      end
  | JList l => existsb has_caller_address l
  | _ => false
  end.

(** [SAFETY_RANK.get(level, 0)]. *)
Definition SAFETY_RANK (level : string) : nat :=
  if bool_decide (level = "safe") then 0
  else if bool_decide (level = "caution") then 1
  else if bool_decide (level = "dangerous") then 2
  else if bool_decide (level = "destructive") then 3
  else 0.

Definition raise_for_caller_address (parameter_schema : json) (safety_level : string)
  (requires_approval : bool) : string * bool :=
  if negb (has_caller_address parameter_schema) then (safety_level, requires_approval)
  else (if SAFETY_RANK safety_level <? SAFETY_RANK "caution" then "caution" else safety_level, true).

(** * Lemmas *)

Lemma split_last_hyphen_None s : has_char "-" s = false -> split_last_hyphen s = None.
Proof.
  induction s as [|c s IH]; [done|]. intros [Hc Hs]%has_char_cons_false. simpl. rewrite IH by done.
  by rewrite (proj2 (Ascii.eqb_neq c "-")).
Qed.

Lemma split_last_hyphen_app h t :
  has_char "-" t = false -> split_last_hyphen (h +:+ "-" +:+ t) = Some (h, t).
Proof.
  intros Ht. induction h as [|c h IH].
  - change (split_last_hyphen (String "-" t) = Some ("", t)). simpl. by rewrite split_last_hyphen_None.
  - rewrite string_app_cons. simpl. by rewrite IH.
Qed.

Lemma all_chars_has_char p c s : p c = false -> all_chars p s = true -> has_char c s = false.
Proof.
  intros Hp. induction s as [|d s IH]; [done|]. simpl. intros [Hd Hs]%andb_true_iff.
  apply orb_false_iff. split; [|by apply IH]. apply Ascii.eqb_neq. intros ->. congruence.
Qed.

Lemma is_version_char_of_digit c : is_digit c = true -> is_version_char c = true.
Proof. intros H. unfold is_version_char. by rewrite H. Qed.

Lemma is_version_no_char c v : is_version_char c = false -> is_version v = true -> has_char c v = false.
Proof.
  intros Hc Hv. destruct v as [|d v]; [done|]. apply andb_true_iff in Hv as [Hd Hv].
  apply (all_chars_has_char is_version_char); [done|]. simpl. by rewrite is_version_char_of_digit.
Qed.

Lemma drop_final_newline_id s : has_char "010" s = false -> drop_final_newline s = s.
Proof.
  induction s as [|c s IH]; [done|]. intros [Hc Hs]%has_char_cons_false. simpl.
  destruct s as [|d s]; [|by rewrite IH]. by rewrite (proj2 (Ascii.eqb_neq c "010")).
Qed.

Lemma before_hyphen_id s : has_char "-" s = false -> before_hyphen s = s.
Proof.
  induction s as [|c s IH]; [done|]. intros [Hc Hs]%has_char_cons_false. simpl.
  rewrite (proj2 (Ascii.eqb_neq c "-")) by done. by rewrite IH.
Qed.

Lemma parse_versioned impl_id version :
  impl_id <> "" -> has_char "010" impl_id = false -> is_version version = true ->
  parse_connector_id (impl_id +:+ "-" +:+ version) = (before_hyphen impl_id, version, impl_id).
Proof.
  intros Hne Hnl Hv. unfold parse_connector_id, CONNECTOR_ID_TAIL_VERSION.
  rewrite split_last_hyphen_app by (by apply is_version_no_char).
  rewrite drop_final_newline_id by (by apply is_version_no_char).
  rewrite bool_decide_false, Hnl, Hv by done. simpl.
  destruct (has_char "-" impl_id) eqn:Hh; [done|]. by rewrite before_hyphen_id.
Qed.

(** A connector id is rendered so that it parses back: the implementation id
    and a version that starts with a digit always come back from the id, and the
    product comes back exactly when it is the implementation id up to its first
    hyphen. *)
Theorem connector_id_roundtrip product version impl_id :
  impl_id <> "" -> has_char "010" impl_id = false -> is_version version = true ->
  parse_connector_id (format_connector_id impl_id version)
    = (before_hyphen impl_id, version, impl_id) /\
  (render_connector_id (product, version, impl_id) = Some (format_connector_id impl_id version) <->
   product = before_hyphen impl_id) /\
  (product <> before_hyphen impl_id -> render_connector_id (product, version, impl_id) = None).
Proof.
  intros Hne Hnl Hv. assert (version <> "") as Hv0 by (by intros ->).
  unfold render_connector_id, format_connector_id.
  rewrite !(bool_decide_false (impl_id = "")), !(bool_decide_false (version = "")) by done. simpl.
  rewrite parse_versioned by done. split; [done|]. split.
  - case_bool_decide as Hd; split; try done; [by injection Hd|]. intros ->. done.
  - intros Hp. rewrite bool_decide_false; [done|]. congruence.
Qed.

(** For a descriptor without a version the id built for a runbook's verify
    call never parses back to the descriptor's name, whatever the implementation
    id is, so the dispatcher cannot find the row the id was built from. *)
Theorem unversioned_id_is_lost product impl_id :
  product <> "" -> parse_connector_id (format_connector_id impl_id "") <> (product, "", impl_id).
Proof.
  intros Hp. unfold format_connector_id, parse_connector_id, CONNECTOR_ID_TAIL_VERSION. simpl.
  destruct (split_last_hyphen impl_id) as [[h t]|]; [|congruence].
  destruct (_ && is_version (drop_final_newline t)) eqn:Hv; [|congruence].
  apply andb_true_iff in Hv as [_ Hv]. intros [= _ Hd _]. by rewrite Hd in Hv.
Qed.

(** ** Visibility *)

Lemma tenant_owns_spec rows tid t :
  tenant_owns_connector rows tid t = true <->
  exists d, d ∈ rows /\ ed_tenant_id d = Some tid /\ ed_triple d = t.
Proof.
  unfold tenant_owns_connector. rewrite existsb_exists. setoid_rewrite andb_true_iff.
  setoid_rewrite bool_decide_eq_true. setoid_rewrite list_elem_of_In. done.
Qed.

(** Tenant isolation of the catalogue: a tenant sees only its own rows and
    the built-in ones, never another tenant's, and of one connector never both:
    as soon as the tenant has one row of the connector, none of the built-in
    ones is visible. *)
Theorem one_visible_bucket rows tid t d d' :
  d ∈ rows -> d' ∈ rows -> ed_triple d = t -> ed_triple d' = t ->
  visible_scope rows (Some tid) t d = true -> visible_scope rows (Some tid) t d' = true ->
  (ed_tenant_id d = None \/ ed_tenant_id d = Some tid) /\ ed_tenant_id d = ed_tenant_id d'.
Proof.
  intros Hd Hd' Ht Ht' Hv Hv'. simpl in Hv, Hv'.
  rewrite orb_true_iff, andb_true_iff, negb_true_iff, !bool_decide_eq_true in Hv, Hv'.
  assert (forall x, x ∈ rows -> ed_triple x = t -> ed_tenant_id x = Some tid ->
            tenant_owns_connector rows tid t = false -> False) as Hown.
  { intros x Hx Hxt Hxs Hn. apply not_true_iff_false in Hn as []. apply tenant_owns_spec. eauto. }
  destruct Hv as [H|[H Hn]], Hv' as [H'|[H' Hn']]; rewrite H, H'; split; auto.
  - by destruct (Hown d).
  - by destruct (Hown d').
Qed.

(** ** The caller-address floor *)

Lemma SAFETY_RANK_caution level :
  SAFETY_RANK (if SAFETY_RANK level <? 1 then "caution" else level) =
  Nat.max (SAFETY_RANK level) 1.
Proof.
  destruct (Nat.ltb_spec (SAFETY_RANK level) 1) as [H|H]; [|lia].
  change (SAFETY_RANK "caution") with 1. lia.
Qed.

(** Where the marker sits in a schema: at the top or below any key or item. *)
Inductive marked : json -> Prop :=
| marked_here d : dict_get CALLER_ADDRESS_MARKER d = Some (JBool true) -> marked (JDict d)
| marked_value d k v : (k, v) ∈ d -> marked v -> marked (JDict d)
| marked_item l v : v ∈ l -> marked v -> marked (JList l).

Lemma has_caller_address_spec schema : has_caller_address schema = true <-> marked schema.
Proof.
  split.
  - induction schema as [| | | | |l IH|d IH] using json_nested_ind; simpl; try done.
    + intros (x & Hx & Hm)%existsb_exists. rewrite <- list_elem_of_In in Hx.
      rewrite Forall_forall in IH. eapply marked_item; eauto.
    + intros H. assert (dict_get CALLER_ADDRESS_MARKER d = Some (JBool true) \/
        existsb (fun kv => has_caller_address (snd kv)) d = true) as [Hh|He].
      { destruct (dict_get CALLER_ADDRESS_MARKER d) as [[| [] | | | | |]|]; auto. }
      * by apply marked_here.
      * apply existsb_exists in He as ([k v] & Hx & Hm). rewrite <- list_elem_of_In in Hx.
        rewrite Forall_forall in IH. eapply marked_value; [done|]. by apply (IH (k, v)).
  - induction 1 as [d Hd|d k v Hin _ IH|l v Hin _ IH]; simpl.
    + by rewrite Hd.
    + assert (existsb (fun kv => has_caller_address (snd kv)) d = true) as ->.
      { apply existsb_exists. exists (k, v). by rewrite <- list_elem_of_In. }
      destruct (dict_get CALLER_ADDRESS_MARKER d) as [[| [] | | | | |]|]; done.
    + apply existsb_exists. exists v. by rewrite <- list_elem_of_In.
Qed.

(** The caller-address floor only raises: a schema that marks a parameter at
    any depth forces approval and a level of at least caution, and keeps a higher
    one; any other schema leaves both values as they were. *)
Theorem caller_address_floor schema level approval :
  let '(level', approval') := raise_for_caller_address schema level approval in
  (marked schema -> approval' = true /\ SAFETY_RANK level' = Nat.max (SAFETY_RANK level) 1 /\
                    (1 <= SAFETY_RANK level -> level' = level)) /\
  (~ marked schema -> level' = level /\ approval' = approval).
Proof.
  unfold raise_for_caller_address. change (SAFETY_RANK "caution") with 1.
  pose proof (has_caller_address_spec schema) as Hm. destruct (has_caller_address schema); simpl.
  - split; [|by intros []; apply Hm]. intros _. split_and!; [done|apply SAFETY_RANK_caution|].
    intros H. by rewrite (proj2 (Nat.ltb_ge _ _)).
  - split; [|done]. intros H. by apply Hm in H.
Qed.

(** * Instances of the theorems *)

Section CatalogExamples.
Let row tenant op := {| ed_tenant_id := tenant;
  ed_key := {| k_product := "vault"; k_version := "1.x"; k_impl_id := "vault"; k_op_id := op |};
  ed_is_enabled := true; ed_owner_package := None; ed_method := None; ed_tags := []; ed_safety_level := "safe";
  ed_requires_approval := false; ed_parameter_schema := JNull |}.
Let rows := [row None "kv.read"; row (Some "t1") "kv.read"].

Lemma connector_id_roundtrip_witness :
  parse_connector_id "harbor-rest-2.x" = ("harbor", "2.x", "harbor-rest").
Proof.
  apply (connector_id_roundtrip "harbor" "2.x" "harbor-rest"); [discriminate|reflexivity..].
Defined.

Lemma unversioned_id_is_lost_witness :
  parse_connector_id (format_connector_id "vault" "") <> ("vault", "", "vault").
Proof. apply unversioned_id_is_lost. discriminate. Defined.

Lemma one_visible_bucket_witness :
  (Some "t1" = None \/ Some "t1" = Some "t1") /\
  ed_tenant_id (row (Some "t1") "kv.read") = ed_tenant_id (row (Some "t1") "kv.read").
Proof.
  apply (one_visible_bucket rows "t1" ("vault", "1.x", "vault")
           (row (Some "t1") "kv.read") (row (Some "t1") "kv.read"));
    first [right; left|reflexivity].
Defined.
End CatalogExamples.
