(* ===== verification/OpPolicy.v ===== *)
(** Operator overrides of an operation's risk level and approval flag
    ([operations/op_policy.py]): the effective policy a dispatch reads, and the
    edits and removals of overrides with their authority checks.

    Edits and removals of one operation are serialised by an advisory lock, so
    each is one transaction on the descriptor and override tables. *)

From S2P Require Import Prelude Json Identity Catalog.

(** * Rows and values *)

Record OperationPolicyOverride := {
  ov_tenant_id : option uuid;
  ov_key : OpKey;
  ov_safety_level : option string;
  ov_requires_approval : option bool;
  ov_reason : option string;
  ov_set_by_sub : string;
  ov_set_at : datetime;
}.

(** The scope of a row: the two partial unique indexes make it a key. *)
Definition ov_scope (o : OperationPolicyOverride) : option uuid * OpKey := (ov_tenant_id o, ov_key o).

Record EffectivePolicy := { ep_safety_level : string; ep_requires_approval : bool }.
#[export] Instance EffectivePolicy_eq_dec : EqDecision EffectivePolicy.
Proof. solve_decision. Defined.

Inductive PolicyEditError :=
| risk_level_below_classification
| edit_tool_cannot_loosen
| approval_off_destructive
| approval_off_caller_address
| approval_off_needs_platform_admin
| approval_off_needs_reason
| approval_off_needs_fresh_sign_in
| approval_required_for_install
| OverrideNotFoundError
| OpPolicyKeyError (level : string).

Record PolicyDb := {
  pd_descriptors : list EndpointDescriptor;
  pd_overrides : list OperationPolicyOverride;
}.

Abbreviation policy_txn := (txn PolicyDb PolicyEditError).

(** * The effective policy *)

Definition approval_flags (overrides : list OperationPolicyOverride) : list bool :=
  omap ov_requires_approval overrides.

Definition approval (code_approval : bool) (overrides : list OperationPolicyOverride) : bool :=
  let flags := approval_flags overrides in
  if bool_decide (true ∈ flags) then true
  else code_approval && bool_decide (false ∉ flags).

(** Python's [max] with a key: the first of the greatest. *)
Fixpoint max_level (best : string) (levels : list string) : string :=
  match levels with
  | [] => best
  | l :: rest => max_level (if SAFETY_RANK best <? SAFETY_RANK l then l else best) rest
  end.

(** [o.safety_level for o in present if o.safety_level]. *)
Definition override_levels (overrides : list OperationPolicyOverride) : list string :=
  List.filter (fun l => negb (bool_decide (l = ""))) (omap ov_safety_level overrides).

Definition effective_policy (code_safety : string) (code_approval : bool)
  (present : list OperationPolicyOverride) : EffectivePolicy :=
  let safety := max_level code_safety (override_levels present) in
  {| ep_safety_level := safety;
     ep_requires_approval := approval code_approval present || bool_decide (safety = "destructive") |}.

(** [_visible_scope]: the install-wide overrides plus the tenant's own. *)
Definition override_visible (tenant_id : option uuid) (o : OperationPolicyOverride) : bool :=
  match ov_tenant_id o with
  | None => true
  | Some t => bool_decide (tenant_id = Some t)
  end.

(** [load_overrides(...).get(key, [])] for one of the wanted keys. *)
Definition load_overrides (rows : list OperationPolicyOverride) (tenant_id : option uuid)
  (keys : list OpKey) (key : OpKey) : list OperationPolicyOverride :=
  if bool_decide (key ∈ keys)
  then select_where (fun o => override_visible tenant_id o && bool_decide (ov_key o = key)) rows
  else [].

Definition with_caller_address_floor (d : EndpointDescriptor) (p : EffectivePolicy) : EffectivePolicy :=
  let '(level, appr) := raise_for_caller_address (ed_parameter_schema d) (ep_safety_level p)
                          (ep_requires_approval p) in
  {| ep_safety_level := level; ep_requires_approval := appr |}.

(** The items of the returned dict, in the order of the rows. *)
Definition effective_policy_map (overrides : list OperationPolicyOverride) (tenant_id : option uuid)
  (rows : list EndpointDescriptor) : list (OpKey * EffectivePolicy) :=
  (fun d => (ed_key d,
     with_caller_address_floor d
       (effective_policy (ed_safety_level d) (ed_requires_approval d)
          (load_overrides overrides tenant_id (ed_key <$> rows) (ed_key d))))) <$> rows.

(** The detached row a dispatch uses; the stored row is not changed. *)
Definition apply_effective_policy (overrides : list OperationPolicyOverride) (tenant_id : option uuid)
  (d : EndpointDescriptor) : EndpointDescriptor :=
  match effective_policy_map overrides tenant_id [d] with
  | (_, p) :: _ => {|
      ed_tenant_id := ed_tenant_id d; ed_key := ed_key d; ed_is_enabled := ed_is_enabled d;
      ed_owner_package := ed_owner_package d; ed_method := ed_method d; ed_tags := ed_tags d;
      ed_safety_level := ep_safety_level p;
      ed_requires_approval := ep_requires_approval p; ed_parameter_schema := ed_parameter_schema d |}
  | [] => d
  end.

(** * Scopes *)

(** [_scope_descriptor]: the tenant's own row of the operation, else the built-in. *)
Definition in_scope (key : OpKey) (tenant_id : option uuid) (d : EndpointDescriptor) : bool :=
  bool_decide (ed_key d = key) &&
  (bool_decide (ed_tenant_id d = None) || bool_decide (ed_tenant_id d = tenant_id)).

Definition scope_descriptor (db : PolicyDb) (key : OpKey) (tenant_id : option uuid)
  : option EndpointDescriptor :=
  let ds := select_where (in_scope key tenant_id) (pd_descriptors db) in
  match List.find (fun d => negb (bool_decide (ed_tenant_id d = None))) ds with
  | Some d => Some d
  | None => head ds
  end.

Definition classification (db : PolicyDb) (key : OpKey) (tenant_id : option uuid) : string * bool :=
  match scope_descriptor db key tenant_id with
  | None => ("safe", false)
  | Some d => (ed_safety_level d, ed_requires_approval d)
  end.

Record TenantScope := {
  sc_tenant_id : uuid;
  sc_code_safety : string;
  sc_code_approval : bool;
  sc_own : list OperationPolicyOverride;
}.

(** Every tenant an install-wide override reaches; of several copies of one
    tenant the last would win. *)
Definition copies_of (db : PolicyDb) (key : OpKey) (t : uuid) : list EndpointDescriptor :=
  select_where (fun d => bool_decide (ed_key d = key) && bool_decide (ed_tenant_id d = Some t))
    (pd_descriptors db).

Definition tenant_scope (db : PolicyDb) (key : OpKey) (code_safety : string) (code_approval : bool)
  (t : uuid) : TenantScope :=
  let copy := last (copies_of db key t) in
  {| sc_tenant_id := t;
     sc_code_safety := match copy with Some d => ed_safety_level d | None => code_safety end;
     sc_code_approval := match copy with Some d => ed_requires_approval d | None => code_approval end;
     sc_own := select_where (fun o => bool_decide (ov_key o = key) &&
                                      bool_decide (ov_tenant_id o = Some t)) (pd_overrides db) |}.

Definition reached_tenants (db : PolicyDb) (key : OpKey) : list uuid :=
  sorted_strings (remove_dups
    (omap ed_tenant_id (select_where (fun d => bool_decide (ed_key d = key)) (pd_descriptors db)) ++
     omap ov_tenant_id (select_where (fun o => bool_decide (ov_key o = key)) (pd_overrides db)))).

Definition tenant_scopes (db : PolicyDb) (key : OpKey) (code_safety : string) (code_approval : bool)
  : list TenantScope :=
  tenant_scope db key code_safety code_approval <$> reached_tenants db key.

(** * Checks *)

Definition opt_list {A} (o : option A) : list A := match o with Some x => [x] | None => [] end.

Definition tenants_losing_approval (scopes : list TenantScope)
  (before after : option OperationPolicyOverride) : list uuid :=
  sc_tenant_id <$> List.filter (fun s =>
    ep_requires_approval (effective_policy (sc_code_safety s) (sc_code_approval s)
                            (opt_list before ++ sc_own s)) &&
    negb (ep_requires_approval (effective_policy (sc_code_safety s) (sc_code_approval s)
                                  (opt_list after ++ sc_own s)))) scopes.

Record Requester := {
  rq_operator : Operator;
  rq_reason : option string;
  rq_person_present : bool;
  rq_tighten_only : bool;
}.

(** [reason and reason.strip()] as a condition. *)
Definition has_reason (reason : option string) : bool :=
  match reason with Some r => negb (bool_decide (py_strip r = "")) | None => false end.

Definition check_may_turn_approval_off (new_safety : string) (who : Requester)
  : res PolicyEditError unit :=
  _ ← guard_or approval_off_destructive (negb (bool_decide (new_safety = "destructive")));
  _ ← guard_or approval_off_needs_platform_admin (op_platform_admin (rq_operator who));
  _ ← guard_or approval_off_needs_reason (has_reason (rq_reason who));
  guard_or approval_off_needs_fresh_sign_in (rq_person_present who).

Definition refuse_unless_may_end_approval (old new : EffectivePolicy) (lost : list uuid)
  (who : Requester) : res PolicyEditError unit :=
  if negb (ep_requires_approval old && negb (ep_requires_approval new)) && bool_decide (length lost = 0)
  then Ok tt
  else
    _ ← guard_or edit_tool_cannot_loosen (negb (rq_tighten_only who));
    check_may_turn_approval_off (ep_safety_level new) who.

(** [_split]: the scope's own row, and all the others. *)
Fixpoint split_scope (scope : option uuid) (l : list OperationPolicyOverride)
  : option OperationPolicyOverride * list OperationPolicyOverride :=
  match l with
  | [] => (None, [])
  | o :: rest =>
      if bool_decide (ov_tenant_id o = scope) then (Some o, rest)
      else let '(mine, others) := split_scope scope rest in (mine, o :: others)
  end.

(** [SAFETY_RANK[level]]. *)
Definition safety_rank (level : string) : res PolicyEditError nat :=
  if bool_decide (level ∈ ["safe"; "caution"; "dangerous"; "destructive"])
  then Ok (SAFETY_RANK level) else Raise (OpPolicyKeyError level).

Definition new_safety_field (row : EndpointDescriptor) (old : EffectivePolicy) (requested : string)
  (tighten_only : bool) : res PolicyEditError (option string) :=
  r ← safety_rank requested;
  c ← safety_rank (ed_safety_level row);
  _ ← guard_or risk_level_below_classification (negb (r <? c));
  _ ← (if tighten_only
       then o ← safety_rank (ep_safety_level old);
            guard_or edit_tool_cannot_loosen (negb (r <? o))
       else Ok tt);
  Ok (if r <=? c then None else Some requested).

Definition new_approval_field (row : EndpointDescriptor) (others : list OperationPolicyOverride)
  (tenants : list TenantScope) (requested : bool) (new_safety : string) (who : Requester)
  : res PolicyEditError (option bool) :=
  let base := approval (ed_requires_approval row) others in
  if requested then
    let turned_off := existsb (fun o => bool_decide (ov_requires_approval o = Some false)) others in
    let needed_by_a_tenant := existsb (fun t =>
          negb (ep_requires_approval
                  (effective_policy (sc_code_safety t) (sc_code_approval t) (sc_own t)))) tenants in
    Ok (if ed_requires_approval row && negb turned_off && negb needed_by_a_tenant
        then None else Some true)
  else
    _ ← guard_or edit_tool_cannot_loosen (negb (rq_tighten_only who));
    _ ← guard_or approval_off_caller_address (negb (has_caller_address (ed_parameter_schema row)));
    if negb base then Ok None
    else
      _ ← guard_or approval_required_for_install (ed_requires_approval row);
      _ ← check_may_turn_approval_off new_safety who;
      Ok (Some false).

(** * Writes *)

(** A throw-away override, used only to compute a policy. *)
Definition candidate_override (safety_field : option string) (approval_field : option bool)
  : OperationPolicyOverride := {|
  ov_tenant_id := None;
  ov_key := {| k_product := ""; k_version := ""; k_impl_id := ""; k_op_id := "" |};
  ov_safety_level := safety_field; ov_requires_approval := approval_field;
  ov_reason := None; ov_set_by_sub := ""; ov_set_at := 0 |}.

Definition stripped_reason (reason : option string) : option string :=
  match reason with
  | Some r => if bool_decide (py_strip r = "") then None else Some (py_strip r)
  | None => None
  end.

Definition set_overrides (f : list OperationPolicyOverride -> list OperationPolicyOverride)
  (db : PolicyDb) : PolicyDb :=
  {| pd_descriptors := pd_descriptors db; pd_overrides := f (pd_overrides db) |}.

Definition is_scope (scope : option uuid) (key : OpKey) (o : OperationPolicyOverride) : bool :=
  bool_decide (ov_scope o = (scope, key)).

Definition store (key : OpKey) (mine : option OperationPolicyOverride) (scope : option uuid)
  (safety_field : option string) (approval_field : option bool) (reason : option string)
  (operator_sub : string) (approval_edited : bool) (now : datetime) (db : PolicyDb) : PolicyDb :=
  let full := {| ov_tenant_id := scope; ov_key := key; ov_safety_level := safety_field;
                 ov_requires_approval := approval_field; ov_reason := stripped_reason reason;
                 ov_set_by_sub := operator_sub; ov_set_at := now |} in
  match safety_field, approval_field, mine with
  | None, None, None => db
  | None, None, Some _ => set_overrides (delete_where (is_scope scope key)) db
  | _, _, None => set_overrides (fun l => l ++ [full]) db
  | _, _, Some m =>
      if negb approval_edited && bool_decide (approval_field = Some false) &&
         bool_decide (ov_requires_approval m = Some false)
      then set_overrides (update_where (is_scope scope key) (fun o =>
             {| ov_tenant_id := ov_tenant_id o; ov_key := ov_key o; ov_safety_level := safety_field;
                ov_requires_approval := ov_requires_approval o; ov_reason := ov_reason o;
                ov_set_by_sub := ov_set_by_sub o; ov_set_at := ov_set_at o |})) db
      else set_overrides (update_where (is_scope scope key) (fun _ => full)) db
  end.

Inductive ScopeLabel := scope_tenant | scope_install.

(** Old and new values, when touched or changed. *)
Record PolicyEditResult := {
  pr_safety_change : option (string * string);
  pr_approval_change : option (bool * bool);
  pr_scope : ScopeLabel;
  pr_approval_ended_for_tenants : list uuid;
}.

Definition changes (old new : EffectivePolicy) (safety_touched approval_touched : bool)
  : option (string * string) * option (bool * bool) :=
  (if safety_touched || negb (bool_decide (ep_safety_level new = ep_safety_level old))
   then Some (ep_safety_level old, ep_safety_level new) else None,
   if approval_touched || negb (bool_decide (ep_requires_approval new = ep_requires_approval old))
   then Some (ep_requires_approval old, ep_requires_approval new) else None).

Definition scope_label (scope : option uuid) : ScopeLabel :=
  match scope with None => scope_install | Some _ => scope_tenant end.

Definition edit_result (old new : EffectivePolicy) (safety_touched approval_touched : bool)
  (scope : option uuid) (lost : list uuid) : PolicyEditResult :=
  let '(s, a) := changes old new safety_touched approval_touched in
  {| pr_safety_change := s; pr_approval_change := a; pr_scope := scope_label scope;
     pr_approval_ended_for_tenants := lost |}.

Definition apply_policy_edit (row : EndpointDescriptor) (scope : option uuid) (who : Requester)
  (safety_level : option string) (requires_approval : option bool) (now : datetime)
  : policy_txn PolicyEditResult :=
  let key := ed_key row in
  let policy := effective_policy (ed_safety_level row) (ed_requires_approval row) in
  overrides ← read_db (fun db => Ok (load_overrides (pd_overrides db) scope [key] key));
  let '(mine, others) := split_scope scope overrides in
  let old := policy overrides in
  tenants ← read_db (fun db => Ok (match scope with
      | None => tenant_scopes db key (ed_safety_level row) (ed_requires_approval row)
      | Some _ => []
      end));
  safety_field ← lift_res (match safety_level with
      | None => Ok (mine ≫= ov_safety_level)
      | Some s => new_safety_field row old s (rq_tighten_only who)
      end);
  let new_safety := ep_safety_level (policy (others ++ [candidate_override safety_field None])) in
  approval_field ← lift_res (match requires_approval with
      | None => Ok (mine ≫= ov_requires_approval)
      | Some a => new_approval_field row others tenants a new_safety who
      end);
  let candidate := candidate_override safety_field approval_field in
  let new := policy (others ++ [candidate]) in
  let lost := tenants_losing_approval tenants mine (Some candidate) in
  _ ← lift_res (refuse_unless_may_end_approval old new lost who);
  _ ← commit (store key mine scope safety_field approval_field (rq_reason who)
                (op_sub (rq_operator who)) (match requires_approval with Some _ => true | None => false end) now);
  mret (edit_result old new (match safety_level with Some _ => true | None => false end)
          (match requires_approval with Some _ => true | None => false end) scope lost).

Definition remove_override (key : OpKey) (scope : option uuid) (who : Requester)
  : policy_txn PolicyEditResult :=
  overrides ← read_db (fun db => Ok (load_overrides (pd_overrides db) scope [key] key));
  let '(mine, others) := split_scope scope overrides in
  m ← lift_res (ok_or OverrideNotFoundError mine);
  code ← read_db (fun db => Ok (classification db key scope));
  let policy := effective_policy (fst code) (snd code) in
  let old := policy overrides in
  let new := policy others in
  tenants ← read_db (fun db => Ok (match scope with
      | None => tenant_scopes db key (fst code) (snd code)
      | Some _ => []
      end));
  let lost := tenants_losing_approval tenants (Some m) None in
  _ ← lift_res (refuse_unless_may_end_approval old new lost
        {| rq_operator := rq_operator who; rq_reason := rq_reason who;
           rq_person_present := rq_person_present who; rq_tighten_only := false |});
  _ ← commit (set_overrides (delete_where (is_scope scope key)));
  mret (edit_result old new (bool_decide (is_Some (ov_safety_level m)))
          (bool_decide (is_Some (ov_requires_approval m))) scope lost).

(** * Report *)

Definition scope_policy (db : PolicyDb) (o : OperationPolicyOverride) : EffectivePolicy :=
  let overrides := load_overrides (pd_overrides db) (ov_tenant_id o) [ov_key o] (ov_key o) in
  match scope_descriptor db (ov_key o) (ov_tenant_id o) with
  | None => effective_policy "safe" false overrides
  | Some d => with_caller_address_floor d
                (effective_policy (ed_safety_level d) (ed_requires_approval d) overrides)
  end.

(** [ORDER BY impl_id, version, op_id, set_at]. *)
Definition report_le (a b : OperationPolicyOverride) : Prop :=
  let ka := ov_key a in let kb := ov_key b in
  match String.compare (k_impl_id ka) (k_impl_id kb) with
  | Lt => True | Gt => False
  | Eq =>
    match String.compare (k_version ka) (k_version kb) with
    | Lt => True | Gt => False
    | Eq =>
      match String.compare (k_op_id ka) (k_op_id kb) with
      | Lt => True | Gt => False
      | Eq => (ov_set_at a <= ov_set_at b)%Z
      end
    end
  end.
#[export] Instance report_le_dec a b : Decision (report_le a b).
Proof. unfold report_le. repeat case_match; apply _. Defined.

Definition list_overrides (db : PolicyDb) (operator : Operator) (reduced_approval_only : bool)
  : list (OperationPolicyOverride * EffectivePolicy) :=
  let rows := merge_sort report_le (select_where (fun o =>
        (op_platform_admin operator || override_visible (Some (op_tenant_id operator)) o) &&
        (negb reduced_approval_only || bool_decide (ov_requires_approval o = Some false)))
        (pd_overrides db)) in
  let report := (fun o => (o, scope_policy db o)) <$> rows in
  if reduced_approval_only
  then List.filter (fun rp => negb (ep_requires_approval (snd rp))) report
  else report.

(** * The effective policy as a function of the set of overrides *)

Definition policy_fields (o : OperationPolicyOverride) : option string * option bool :=
  (ov_safety_level o, ov_requires_approval o).

(** Two lists of overrides say the same: they hold the same non-empty fields. *)
Definition same_policy (l l' : list OperationPolicyOverride) : Prop :=
  forall f, f <> (None, None) -> f ∈ policy_fields <$> l <-> f ∈ policy_fields <$> l'.

#[export] Instance same_policy_equiv : Equivalence same_policy.
Proof.
  split.
  - by intros l f _.
  - intros l l' H f Hf. symmetry. by apply H.
  - intros l1 l2 l3 H12 H23 f Hf. etrans; [by apply H12|by apply H23].
Qed.

(** When approval is required: an override requires it, or the classification
    does and no override turned it off, or a level is destructive. *)
Definition needs_approval (code_safety : string) (code_approval : bool)
  (l : list OperationPolicyOverride) : Prop :=
  (exists o, o ∈ l /\ ov_requires_approval o = Some true) \/
  (code_approval = true /\ ~ exists o, o ∈ l /\ ov_requires_approval o = Some false) \/
  (code_safety = "destructive" \/ exists o, o ∈ l /\ ov_safety_level o = Some "destructive").

Lemma SAFETY_RANK_3 level : 3 <= SAFETY_RANK level <-> level = "destructive".
Proof. unfold SAFETY_RANK. repeat case_bool_decide; split; intros; subst; try done; lia. Qed.

Lemma SAFETY_RANK_le level : SAFETY_RANK level <= 3.
Proof. unfold SAFETY_RANK. repeat case_bool_decide; lia. Qed.


Lemma max_level_ge levels best l :
  l = best \/ l ∈ levels -> SAFETY_RANK l <= SAFETY_RANK (max_level best levels).
Proof.
  revert best l. induction levels as [|x levels IH]; intros best l; simpl.
  - intros [->|H]; [done|set_solver].
  - set (b := if SAFETY_RANK best <? SAFETY_RANK x then x else best).
    assert (SAFETY_RANK best <= SAFETY_RANK b /\ SAFETY_RANK x <= SAFETY_RANK b) as [H1 H2]
      by (unfold b; destruct (Nat.ltb_spec (SAFETY_RANK best) (SAFETY_RANK x)); lia).
    pose proof (IH b b (or_introl eq_refl)) as Hb.
    intros [->|[->|H]%elem_of_cons]; [lia|lia|]. apply IH. by right.
Qed.

Lemma max_level_in levels best : max_level best levels = best \/ max_level best levels ∈ levels.
Proof.
  revert best. induction levels as [|x levels IH]; intros best; simpl; [by left|].
  destruct (IH (if SAFETY_RANK best <? SAFETY_RANK x then x else best)) as [->|H]; [|right; by right].
  destruct (_ <? _); [right; left|by left].
Qed.

Lemma max_level_destructive best levels :
  max_level best levels = "destructive" <-> best = "destructive" \/ "destructive" ∈ levels.
Proof.
  split.
  - intros H. destruct (max_level_in levels best) as [E|E]; rewrite H in E; auto.
  - intros H. apply SAFETY_RANK_3. change 3 with (SAFETY_RANK "destructive").
    apply max_level_ge. destruct H as [->|H]; auto.
Qed.

Lemma elem_of_override_levels l s :
  s ∈ override_levels l <-> s <> "" /\ exists o, o ∈ l /\ ov_safety_level o = Some s.
Proof.
  unfold override_levels. rewrite list_elem_of_In, filter_In, <- list_elem_of_In, list_elem_of_omap.
  rewrite negb_true_iff, bool_decide_eq_false. naive_solver.
Qed.

Lemma elem_of_flags l b : b ∈ approval_flags l <-> exists o, o ∈ l /\ ov_requires_approval o = Some b.
Proof. unfold approval_flags. by rewrite list_elem_of_omap. Qed.

Lemma effective_approval_spec c a l :
  ep_requires_approval (effective_policy c a l) = true <-> needs_approval c a l.
Proof.
  unfold effective_policy, needs_approval, approval. simpl.
  rewrite orb_true_iff, bool_decide_eq_true, max_level_destructive, elem_of_override_levels.
  rewrite <- !elem_of_flags. case_bool_decide as Ht; [naive_solver|].
  rewrite andb_true_iff, bool_decide_eq_true. naive_solver.
Qed.

Lemma same_policy_exists l l' (P : option string * option bool -> Prop) :
  same_policy l l' -> ~ P (None, None) ->
  (exists o, o ∈ l /\ P (policy_fields o)) -> exists o, o ∈ l' /\ P (policy_fields o).
Proof.
  intros Hs HP (o & Ho & Hp).
  assert (policy_fields o ∈ policy_fields <$> l') as (o' & Heq & Ho')%list_elem_of_fmap.
  { apply Hs; [|by apply list_elem_of_fmap_2]. intros E. by rewrite E in Hp. }
  exists o'. by rewrite <- Heq.
Qed.

#[export] Instance needs_approval_proper c a : Proper (same_policy ==> iff) (needs_approval c a).
Proof.
  assert (forall l l', same_policy l l' -> needs_approval c a l -> needs_approval c a l') as Himp.
  { intros l l' Hs. pose proof (symmetry Hs : same_policy l' l) as Hs'.
    intros [H|[[Ha H]|[H|H]]].
    - left. by apply (same_policy_exists l l' (fun f => snd f = Some true)).
    - right. left. split; [done|]. intros H'. apply H.
      by apply (same_policy_exists l' l (fun f => snd f = Some false)).
    - right. right. by left.
    - right. right. right. by apply (same_policy_exists l l' (fun f => fst f = Some "destructive")). }
  intros l l' Hs. split; apply Himp; done.
Qed.

(** * Scopes *)

(** The overrides and the approval flag that apply to a tenant, or install-wide
    for [None]. *)
Definition visible (db : PolicyDb) (key : OpKey) (t : option uuid) : list OperationPolicyOverride :=
  load_overrides (pd_overrides db) t [key] key.

Definition scope_approval (db : PolicyDb) (key : OpKey) (t : option uuid) : bool :=
  ep_requires_approval (effective_policy (fst (classification db key t)) (snd (classification db key t))
                          (visible db key t)).

(** The unique indexes of the two tables. *)
Record policy_db_ok (db : PolicyDb) : Prop := {
  po_overrides : NoDup (ov_scope <$> pd_overrides db);
  po_descriptors : NoDup ((fun d => (ed_tenant_id d, ed_key d)) <$> pd_descriptors db);
}.

Lemma elem_of_visible db key t o :
  o ∈ visible db key t <->
  o ∈ pd_overrides db /\ ov_key o = key /\ (ov_tenant_id o = None \/ ov_tenant_id o = t).
Proof.
  unfold visible, load_overrides. rewrite bool_decide_true by set_solver.
  rewrite elem_of_select, andb_true_iff, bool_decide_eq_true. unfold override_visible.
  destruct (ov_tenant_id o) as [u|]; [rewrite bool_decide_eq_true|]; naive_solver.
Qed.

Lemma visible_NoDup db key t :
  policy_db_ok db -> NoDup (ov_tenant_id <$> visible db key t).
Proof.
  intros Hok. assert (NoDup (ov_scope <$> visible db key t)) as H.
  { unfold visible, load_overrides. rewrite bool_decide_true by set_solver.
    apply NoDup_select_where, Hok. }
  assert (forall o, o ∈ visible db key t -> ov_key o = key) as Hk by (by intros o (_ & ? & _)%elem_of_visible).
  induction (visible db key t) as [|o l IH]; simpl in *; [constructor|].
  apply NoDup_cons in H as [Ho H]. apply NoDup_cons. split; [|apply IH; [done|set_solver]].
  intros (o' & Ht & Ho')%list_elem_of_fmap. apply Ho. apply list_elem_of_fmap. exists o'. split; [|done].
  unfold ov_scope. rewrite (Hk o), (Hk o') by set_solver. congruence.
Qed.

Lemma split_scope_spec scope l mine others :
  NoDup (ov_tenant_id <$> l) -> split_scope scope l = (mine, others) ->
  (forall o, o ∈ others <-> o ∈ l /\ ov_tenant_id o <> scope) /\
  (forall o, mine = Some o <-> o ∈ l /\ ov_tenant_id o = scope).
Proof.
  revert mine others. induction l as [|x l IH]; intros mine others Hnd H; simpl in H.
  { injection H as <- <-. split; intros o; set_solver. }
  apply NoDup_cons in Hnd as [Hx Hnd].
  assert (forall o, o ∈ l -> ov_tenant_id o <> ov_tenant_id x) as Hne.
  { intros o Ho E. apply Hx. rewrite <- E. by apply list_elem_of_fmap_2. }
  case_bool_decide as Hs.
  - injection H as <- <-. subst scope. split; intros o.
    + rewrite elem_of_cons. split; [|naive_solver]. intros Ho. split; [by right|by apply Hne].
    + split; [intros [= <-]; split; [left|done]|]. intros [Ho Ht]. apply elem_of_cons in Ho as [->|Ho]; [done|].
      by destruct (Hne o).
  - destruct (split_scope scope l) as [m os]. injection H as <- <-.
    destruct (IH _ _ Hnd eq_refl) as [IH1 IH2].
    split; intros o; rewrite ?elem_of_cons, ?IH1, ?IH2; naive_solver.
Qed.

(** * What a write leaves *)

(** One scope of one operation now says [f]; every other row is as it was. *)
Record written (scope : option uuid) (key : OpKey) (f : option string * option bool)
  (db db' : PolicyDb) : Prop := {
  wr_descriptors : pd_descriptors db' = pd_descriptors db;
  wr_others : forall o, ov_scope o <> (scope, key) -> o ∈ pd_overrides db' <-> o ∈ pd_overrides db;
  wr_mine : forall o, o ∈ pd_overrides db' -> ov_scope o = (scope, key) -> policy_fields o = f;
  wr_exists : f <> (None, None) -> exists o, o ∈ pd_overrides db' /\ ov_scope o = (scope, key);
  wr_keys : NoDup (ov_scope <$> pd_overrides db');
}.

Lemma is_scope_spec scope key o : is_scope scope key o = true <-> ov_scope o = (scope, key).
Proof. unfold is_scope. by rewrite bool_decide_eq_true. Qed.

Lemma written_delete scope key db :
  policy_db_ok db -> written scope key (None, None) db (set_overrides (delete_where (is_scope scope key)) db).
Proof.
  intros Hok. constructor; simpl; [done| | |done|by apply NoDup_delete_where, Hok].
  - intros o Ho. rewrite elem_of_delete, <- not_true_iff_false, is_scope_spec. naive_solver.
  - intros o Ho Hs. rewrite elem_of_delete, <- not_true_iff_false, is_scope_spec in Ho. naive_solver.
Qed.

Lemma written_append scope key n db :
  policy_db_ok db -> ov_scope n = (scope, key) ->
  (forall o, o ∈ pd_overrides db -> ov_scope o <> (scope, key)) ->
  written scope key (policy_fields n) db (set_overrides (fun l => l ++ [n]) db).
Proof.
  intros Hok Hn Hno. constructor; simpl; [done|..].
  - intros o Ho. rewrite elem_of_app, list_elem_of_singleton. split; [|by left]. intros [?| ->]; done.
  - intros o [Ho| ->%list_elem_of_singleton]%elem_of_app Hs; [by destruct (Hno o Ho)|done].
  - intros _. exists n. split; [apply elem_of_app; right; left|done].
  - rewrite fmap_app. apply NoDup_app. split_and!; [apply Hok| |apply NoDup_singleton].
    intros x (o & -> & Ho)%list_elem_of_fmap Hx%list_elem_of_singleton. apply (Hno o Ho). congruence.
Qed.

Lemma written_update scope key f g db m :
  policy_db_ok db -> m ∈ pd_overrides db -> ov_scope m = (scope, key) ->
  ov_scope (g m) = (scope, key) -> policy_fields (g m) = f ->
  written scope key f db (set_overrides (update_where (is_scope scope key) g) db).
Proof.
  intros Hok Hm Hms Hg Hf.
  assert (forall o, o ∈ pd_overrides db -> ov_scope o = (scope, key) -> o = m) as Huniq.
  { intros o Ho Hs. eapply (key_inj ov_scope); [apply Hok|done|done|congruence]. }
  assert (forall o, o ∈ update_where (is_scope scope key) g (pd_overrides db) <->
            o = g m \/ (o ∈ pd_overrides db /\ ov_scope o <> (scope, key))) as Hin.
  { intros o. rewrite elem_of_update. split.
    - intros (r & Hr & ->). destruct (is_scope scope key r) eqn:E.
      + apply is_scope_spec in E. left. by rewrite (Huniq r).
      + right. split; [done|]. intros E'%is_scope_spec. congruence.
    - intros [->|[Ho Hne]].
      + exists m. split; [done|]. by rewrite (proj2 (is_scope_spec _ _ _)).
      + exists o. split; [done|]. destruct (is_scope scope key o) eqn:E; [|done].
        by apply is_scope_spec in E. }
  constructor; simpl; [done|..].
  - intros o Ho. rewrite Hin. split; [intros [->|[? ?]]; done|by right].
  - intros o [->|[_ ?]]%Hin Hs; done.
  - intros _. exists (g m). rewrite Hin. auto.
  - replace (ov_scope <$> update_where (is_scope scope key) g (pd_overrides db))
      with (ov_scope <$> pd_overrides db); [apply Hok|].
    unfold update_where. rewrite <- list_fmap_compose. apply list_fmap_ext. intros i o Hi. simpl.
    destruct (is_scope scope key o) eqn:E; [|done]. apply is_scope_spec in E.
    rewrite (Huniq o) by (done || by eapply list_elem_of_lookup_2). congruence.
Qed.

Lemma store_written key mine scope sf af reason sub edited now db :
  policy_db_ok db ->
  (forall o, mine = Some o <-> o ∈ pd_overrides db /\ ov_scope o = (scope, key)) ->
  written scope key (sf, af) db (store key mine scope sf af reason sub edited now db).
Proof.
  intros Hok Hm.
  assert (mine = None -> forall o, o ∈ pd_overrides db -> ov_scope o <> (scope, key)) as Hno.
  { intros Hnone o Ho Hs. assert (mine = Some o) by (by apply Hm). congruence. }
  assert (mine = None -> sf = None -> af = None -> written scope key (sf, af) db db) as Hsame.
  { intros Hnone -> ->. constructor; [done|done| |done|apply Hok].
    intros o Ho Hs. by destruct (Hno Hnone o Ho). }
  destruct mine as [m|].
  - destruct (proj1 (Hm m) eq_refl) as [Hin Hs].
    unfold store. destruct sf as [s|], af as [a|]; [..|by apply written_delete].
    all: match goal with |- context [if ?b then _ else _] => destruct b eqn:Hk end.
    all: apply (written_update _ _ _ _ _ m); try done.
    all: to_prop; unfold ov_scope, policy_fields in *; simpl; congruence.
  - unfold store. destruct sf as [s|], af as [a|]; [..|by apply Hsame].
    all: match goal with |- context [fun l => l ++ [?n]] =>
           apply (written_append scope key n); [done|done|by apply Hno] end.
Qed.

(** ** What the tenants see after the write *)

Definition sees (t scope : option uuid) : Prop := scope = None \/ scope = t.

Lemma visible_written scope key f db db' t rest c :
  written scope key f db db' -> sees t scope -> policy_fields c = f ->
  (forall o, o ∈ rest <-> o ∈ visible db key t /\ ov_tenant_id o <> scope) ->
  same_policy (visible db' key t) (c :: rest).
Proof.
  intros Hw Hsee Hc Hrest g Hg. rewrite fmap_cons, elem_of_cons, !list_elem_of_fmap. split.
  - intros (o & -> & (Ho & Hk & Ht)%elem_of_visible). destruct (decide (ov_tenant_id o = scope)) as [E|E].
    + left. rewrite Hc. apply (wr_mine _ _ _ _ _ Hw); [done|]. unfold ov_scope. congruence.
    + right. exists o. split; [done|]. apply Hrest. rewrite elem_of_visible. split_and!; try done.
      apply (wr_others _ _ _ _ _ Hw); [|done]. unfold ov_scope. congruence.
  - intros [->|(o & -> & [(Ho & Hk & Ht)%elem_of_visible Hne]%Hrest)].
    + rewrite Hc in Hg. destruct (wr_exists _ _ _ _ _ Hw Hg) as (o & Ho & Hs).
      exists o. rewrite Hc, (wr_mine _ _ _ _ _ Hw o Ho Hs). split; [done|]. injection Hs as Hs1 Hs2.
      apply elem_of_visible. split_and!; try done. destruct Hsee; [left|right]; congruence.
    + exists o. split; [done|]. apply elem_of_visible. split_and!; try done.
      apply (wr_others _ _ _ _ _ Hw); [|done]. unfold ov_scope. congruence.
Qed.

Lemma visible_unseen scope key f db db' t key' :
  written scope key f db db' -> ~ (sees t scope /\ key' = key) ->
  same_policy (visible db' key' t) (visible db key' t).
Proof.
  intros Hw Hn g Hg. rewrite !list_elem_of_fmap.
  split; intros (o & -> & (Ho & Hk & Ht)%elem_of_visible); exists o; (split; [done|]);
    apply elem_of_visible; split_and!; try done; apply (wr_others _ _ _ _ _ Hw); try done;
    unfold ov_scope, sees in *; naive_solver.
Qed.

(** The fields of an optional override; no override says nothing. *)
Definition opt_fields (o : option OperationPolicyOverride) : option string * option bool :=
  match o with Some c => policy_fields c | None => (None, None) end.

Lemma visible_after scope key db db' t rest after :
  written scope key (opt_fields after) db db' -> sees t scope ->
  (forall o, o ∈ rest <-> o ∈ visible db key t /\ ov_tenant_id o <> scope) ->
  same_policy (visible db' key t) (opt_list after ++ rest).
Proof.
  intros Hw Hsee Hrest. destruct after as [c|]; simpl in *; [by eapply visible_written|].
  etrans; [by apply (visible_written _ _ _ _ _ _ rest (candidate_override None None) Hw)|].
  intros f Hf. rewrite fmap_cons, elem_of_cons. split; [by intros [->|?]|by right].
Qed.

Lemma select_ext {A} (p q : A -> bool) l :
  (forall x, x ∈ l -> p x = q x) -> select_where p l = select_where q l.
Proof.
  unfold select_where. induction l as [|x l IH]; intros H; [done|]. simpl. rewrite (H x) by left.
  rewrite IH; [done|]. intros y Hy. apply H. by right.
Qed.

Lemma elem_of_in_scope key t ds d :
  d ∈ select_where (in_scope key t) ds <->
  d ∈ ds /\ ed_key d = key /\ (ed_tenant_id d = None \/ ed_tenant_id d = t).
Proof. rewrite elem_of_select. unfold in_scope. by rewrite andb_true_iff, orb_true_iff, !bool_decide_eq_true. Qed.

Lemma elem_of_copies db key u d :
  d ∈ copies_of db key u <-> d ∈ pd_descriptors db /\ ed_key d = key /\ ed_tenant_id d = Some u.
Proof. unfold copies_of. by rewrite elem_of_select, andb_true_iff, !bool_decide_eq_true. Qed.

Lemma classification_tenant db key u :
  policy_db_ok db ->
  let '(cs, ca) := classification db key None in
  classification db key (Some u) =
  (sc_code_safety (tenant_scope db key cs ca u), sc_code_approval (tenant_scope db key cs ca u)).
Proof.
  intros Hok. destruct (classification db key None) as [cs ca] eqn:Hnone.
  unfold tenant_scope. simpl. unfold classification, scope_descriptor in *.
  pose proof (elem_of_copies db key u) as Hco. set (copies := copies_of db key u) in *.
  destruct (List.find _ (select_where (in_scope key (Some u)) _)) as [d|] eqn:Hf.
  - apply find_Some_iff in Hf as [(Hd & Hk & Ht)%elem_of_in_scope Hn]. to_prop.
    assert (ed_tenant_id d = Some u) as Hu by (by destruct Ht).
    destruct (last copies) as [d'|] eqn:Hl.
    + apply last_Some_elem_of, Hco in Hl as (Hd' & Hk' & Hu').
      assert (d = d') as -> by (eapply (key_inj (fun d => (ed_tenant_id d, ed_key d)));
        [apply Hok|done|done|congruence]). done.
    + apply last_None in Hl. assert (d ∈ copies) as Hdc by (by apply Hco). rewrite Hl in Hdc. set_solver.
  - rewrite find_None_iff in Hf.
    assert (forall d, d ∈ pd_descriptors db -> ed_key d = key -> ed_tenant_id d <> Some u) as Hno.
    { intros d Hd Hk Hu. assert (d ∈ select_where (in_scope key (Some u)) (pd_descriptors db)) as Hin
        by (apply elem_of_in_scope; auto). specialize (Hf d Hin). to_prop. congruence. }
    destruct copies as [|d0 cs0]; [|destruct (Hno d0) as []; by apply Hco; left]. simpl.
    rewrite (select_ext _ (in_scope key None)).
    2:{ intros d Hd. unfold in_scope. destruct (decide (ed_key d = key)) as [Hk|Hk];
          [|by rewrite (bool_decide_false (ed_key d = key))].
        rewrite (bool_decide_false (ed_tenant_id d = Some u)) by (by apply Hno).
        destruct (decide (ed_tenant_id d = None)) as [E|E]; rewrite ?E;
          rewrite ?(bool_decide_false (ed_tenant_id d = None)) by done; done. }
    assert (List.find (fun d => negb (bool_decide (ed_tenant_id d = None)))
              (select_where (in_scope key None) (pd_descriptors db)) = None) as E.
    { apply find_None_iff. intros d (_ & _ & Ht)%elem_of_in_scope.
      apply negb_false_iff, bool_decide_eq_true. by destruct Ht. }
    rewrite E in Hnone. exact Hnone.
Qed.

(** * Who may end approval *)

Lemma approval_ext c a l l' :
  same_policy l l' -> ep_requires_approval (effective_policy c a l) = ep_requires_approval (effective_policy c a l').
Proof.
  intros Hs. apply eq_true_iff_eq. rewrite !effective_approval_spec. by rewrite Hs.
Qed.

Lemma same_policy_elem l l' : (forall o, o ∈ l <-> o ∈ l') -> same_policy l l'.
Proof. intros H f _. rewrite !list_elem_of_fmap. setoid_rewrite H. done. Qed.

Lemma elem_of_opt_list {A} (o : option A) x : x ∈ opt_list o <-> o = Some x.
Proof. destruct o; simpl; set_solver. Qed.

Lemma classification_written scope key f db db' k t :
  written scope key f db db' -> classification db' k t = classification db k t.
Proof. intros Hw. unfold classification, scope_descriptor. by rewrite (wr_descriptors _ _ _ _ _ Hw). Qed.

(** What a tenant sees of an install-wide change: the tenant's scope with the
    install-wide row before and after it. *)
Lemma tenant_view db db' key u mine others after :
  policy_db_ok db -> written None key (opt_fields after) db db' ->
  split_scope None (visible db key None) = (mine, others) ->
  let '(cs, ca) := classification db key None in
  let s := tenant_scope db key cs ca u in
  scope_approval db key (Some u) = ep_requires_approval
    (effective_policy (sc_code_safety s) (sc_code_approval s) (opt_list mine ++ sc_own s)) /\
  scope_approval db' key (Some u) = ep_requires_approval
    (effective_policy (sc_code_safety s) (sc_code_approval s) (opt_list after ++ sc_own s)).
Proof.
  intros Hok Hw Hsplit. pose proof (classification_tenant db key u Hok) as Hc.
  destruct (classification db key None) as [cs ca]. simpl.
  apply split_scope_spec in Hsplit as [Hothers Hmine]; [|by apply visible_NoDup].
  assert (forall o, o ∈ sc_own (tenant_scope db key cs ca u) <->
            o ∈ visible db key (Some u) /\ ov_tenant_id o <> None) as Hown.
  { intros o. simpl. rewrite elem_of_select, andb_true_iff, !bool_decide_eq_true, elem_of_visible.
    split; [intros (? & ? & ->); naive_solver|]. intros [(? & ? & [?|?]) ?]; naive_solver. }
  unfold scope_approval. rewrite (classification_written _ _ _ _ _ _ _ Hw), Hc. simpl.
  split; apply approval_ext.
  - apply same_policy_elem. intros o. rewrite elem_of_app, elem_of_opt_list, Hmine.
    fold (sc_own (tenant_scope db key cs ca u)). rewrite Hown, !elem_of_visible.
    destruct (ov_tenant_id o) as [v|]; naive_solver.
  - apply (visible_after None key db db' (Some u)); [done|by left|]. exact Hown.
Qed.

Lemma elem_of_lost scopes before after u :
  u ∈ tenants_losing_approval scopes before after <->
  exists s, s ∈ scopes /\ sc_tenant_id s = u /\
    ep_requires_approval (effective_policy (sc_code_safety s) (sc_code_approval s)
                            (opt_list before ++ sc_own s)) = true /\
    ep_requires_approval (effective_policy (sc_code_safety s) (sc_code_approval s)
                            (opt_list after ++ sc_own s)) = false.
Proof.
  unfold tenants_losing_approval. rewrite list_elem_of_fmap.
  setoid_rewrite list_elem_of_In. setoid_rewrite filter_In. setoid_rewrite andb_true_iff.
  setoid_rewrite negb_true_iff. naive_solver.
Qed.

Lemma elem_of_reached db key u :
  u ∈ reached_tenants db key <->
  (exists d, d ∈ pd_descriptors db /\ ed_key d = key /\ ed_tenant_id d = Some u) \/
  (exists o, o ∈ pd_overrides db /\ ov_key o = key /\ ov_tenant_id o = Some u).
Proof.
  unfold reached_tenants, sorted_strings. rewrite merge_sort_Permutation, elem_of_remove_dups, elem_of_app.
  rewrite !list_elem_of_omap. setoid_rewrite elem_of_select. setoid_rewrite bool_decide_eq_true. naive_solver.
Qed.

(** A tenant out of reach sees what the whole install sees. *)
Lemma unreached_scope db key cs ca u :
  u ∉ reached_tenants db key ->
  sc_code_safety (tenant_scope db key cs ca u) = cs /\ sc_code_approval (tenant_scope db key cs ca u) = ca /\
  sc_own (tenant_scope db key cs ca u) = [].
Proof.
  rewrite elem_of_reached. intros Hn. unfold tenant_scope. simpl.
  destruct (last (copies_of db key u)) as [d|] eqn:Hl.
  { apply last_Some_elem_of, elem_of_copies in Hl as (Hd & Hk & Hu). destruct Hn. left. eauto. }
  split_and!; [done..|]. destruct (select_where _ _) as [|o l] eqn:Ho; [done|].
  assert (o ∈ o :: l) as Hin by left. rewrite <- Ho in Hin. apply elem_of_select in Hin as [Hin Hp].
  to_prop. destruct Hn. right. eauto.
Qed.

(** Approval that ends anywhere shows up in the scope of the write or among the
    tenants the code computes. *)
Lemma flip_is_noticed db db' key scope mine others after t :
  policy_db_ok db -> written scope key (opt_fields after) db db' ->
  split_scope scope (visible db key scope) = (mine, others) ->
  scope_approval db key t = true -> scope_approval db' key t = false ->
  let '(cs, ca) := classification db key scope in
  (ep_requires_approval (effective_policy cs ca (visible db key scope)) = true /\
   ep_requires_approval (effective_policy cs ca (others ++ opt_list after)) = false) \/
  (scope = None /\ tenants_losing_approval (tenant_scopes db key cs ca) mine after <> []).
Proof.
  intros Hok Hw Hsplit Hbefore Hafter. pose proof Hsplit as Hsplit0.
  apply split_scope_spec in Hsplit as [Hothers Hmine]; [|by apply visible_NoDup].
  assert (sees t scope) as Hsee.
  { destruct (decide (scope = None)) as [|Hn]; [by left|].
    destruct (decide (scope = t)) as [|Hn']; [by right|]. exfalso.
    unfold scope_approval in *. rewrite (classification_written _ _ _ _ _ _ _ Hw) in Hafter.
    rewrite (approval_ext _ _ _ (visible db key t)) in Hafter; [congruence|].
    eapply visible_unseen; [done|]. intros [[?|?] _]; done. }
  destruct (classification db key scope) as [cs ca] eqn:Hc.
  assert (scope_approval db' key scope =
          ep_requires_approval (effective_policy cs ca (others ++ opt_list after))) as Hnew.
  { unfold scope_approval. rewrite (classification_written _ _ _ _ _ _ _ Hw), Hc. apply approval_ext.
    etrans; [by apply (visible_after scope key db db' scope others after Hw); [by right|]|].
    apply same_policy_elem. intros o. rewrite !elem_of_app. tauto. }
  assert (scope_approval db key scope = ep_requires_approval (effective_policy cs ca (visible db key scope))) as Hold
    by (unfold scope_approval; by rewrite Hc).
  destruct (decide (scope = t)) as [<-|Hne].
  { left. rewrite <- Hnew, <- Hold. done. }
  destruct Hsee as [->|?]; [|done]. destruct t as [u|]; [|done].
  pose proof (tenant_view db db' key u mine others after Hok Hw Hsplit0) as Hv. rewrite Hc in Hv.
  destruct Hv as [Hv1 Hv2]. rewrite Hv1 in Hbefore. rewrite Hv2 in Hafter.
  destruct (decide (u ∈ reached_tenants db key)) as [Hr|Hr].
  - right. split; [done|]. intros Hnil.
    assert (u ∈ tenants_losing_approval (tenant_scopes db key cs ca) mine after) as Hin.
    { apply elem_of_lost. exists (tenant_scope db key cs ca u). split_and!; try done.
      unfold tenant_scopes. by apply list_elem_of_fmap_2. }
    rewrite Hnil in Hin. set_solver.
  - left. destruct (unreached_scope db key cs ca u Hr) as (E1 & E2 & E3). rewrite E1, E2, E3, app_nil_r in *.
    assert (others = []) as ->.
    { destruct others as [|o l]; [done|]. destruct (proj1 (Hothers o)) as [Ho Hno]; [left|].
      apply elem_of_visible in Ho as (_ & _ & Ht). by destruct Ht. }
    split; [|done]. rewrite <- Hbefore. apply approval_ext, same_policy_elem. intros o.
    rewrite elem_of_opt_list, Hmine, elem_of_visible. naive_solver.
Qed.

(** * The operations *)

Lemma refuse_Ok old new lost who :
  refuse_unless_may_end_approval old new lost who = Ok tt ->
  (ep_requires_approval old = true /\ ep_requires_approval new = false) \/ lost <> [] ->
  rq_tighten_only who = false /\ ep_safety_level new <> "destructive" /\
  op_platform_admin (rq_operator who) = true /\ has_reason (rq_reason who) = true /\
  rq_person_present who = true.
Proof.
  unfold refuse_unless_may_end_approval, check_may_turn_approval_off. intros H Hend.
  destruct (negb _ && _) eqn:Hb.
  - apply andb_true_iff in Hb as [Hb Hl]. apply bool_decide_eq_true in Hl. destruct lost; [|done].
    destruct Hend as [[Ho Hn]|?]; [|done]. by rewrite Ho, Hn in Hb.
  - invert_ok. by to_prop.
Qed.

(** A successful edit: the fields it stores, and the checks it passed. *)
Lemma edit_inv row scope who sl ra now db db' r :
  apply_policy_edit row scope who sl ra now db = (db', r) ->
  (db' = db /\ exists e, r = Raise e) \/
  exists mine others sf af,
    let policy := effective_policy (ed_safety_level row) (ed_requires_approval row) in
    let tenants := match scope with
                   | None => tenant_scopes db (ed_key row) (ed_safety_level row) (ed_requires_approval row)
                   | Some _ => []
                   end in
    let overrides := visible db (ed_key row) scope in
    let c := candidate_override sf af in
    let lost := tenants_losing_approval tenants mine (Some c) in
    split_scope scope overrides = (mine, others) /\
    (forall s, sl = Some s -> new_safety_field row (policy overrides) s (rq_tighten_only who) = Ok sf) /\
    (forall a, ra = Some a -> new_approval_field row others tenants a
       (ep_safety_level (policy (others ++ [candidate_override sf None]))) who = Ok af) /\
    refuse_unless_may_end_approval (policy overrides) (policy (others ++ [c])) lost who = Ok tt /\
    (exists now', db' = store (ed_key row) mine scope sf af (rq_reason who) (op_sub (rq_operator who))
                          (match ra with Some _ => true | None => false end) now' db) /\
    exists st at_, r = Ok (edit_result (policy overrides) (policy (others ++ [c])) st at_ scope lost).
Proof.
  unfold apply_policy_edit. intros H. rewrite read_bind in H. fold (visible db (ed_key row) scope) in H.
  destruct (split_scope scope (visible db (ed_key row) scope)) as [mine others] eqn:Hsplit.
  rewrite read_bind in H. rewrite lift_bind in H.
  destruct (match sl with None => _ | Some _ => _ end) as [sf|e] eqn:Hsf; [|injection H as <- <-; eauto].
  rewrite lift_bind in H.
  destruct (match ra with None => _ | Some _ => _ end) as [af|e] eqn:Haf; [|injection H as <- <-; eauto].
  rewrite lift_bind in H. destruct (refuse_unless_may_end_approval _ _ _ _) as [[]|e] eqn:Href;
    [|injection H as <- <-; eauto].
  rewrite commit_bind in H. injection H as <- <-. right. exists mine, others, sf, af.
  split_and!; try done; [intros s ->; done|intros a ->; done|eauto|eauto].
Qed.

Lemma remove_inv key scope who db db' r :
  remove_override key scope who db = (db', r) ->
  (db' = db /\ exists e, r = Raise e) \/
  exists m others,
    let '(cs, ca) := classification db key scope in
    let tenants := match scope with None => tenant_scopes db key cs ca | Some _ => [] end in
    split_scope scope (visible db key scope) = (Some m, others) /\
    refuse_unless_may_end_approval (effective_policy cs ca (visible db key scope))
      (effective_policy cs ca others) (tenants_losing_approval tenants (Some m) None)
      {| rq_operator := rq_operator who; rq_reason := rq_reason who;
         rq_person_present := rq_person_present who; rq_tighten_only := false |} = Ok tt /\
    db' = set_overrides (delete_where (is_scope scope key)) db.
Proof.
  unfold remove_override. intros H. rewrite read_bind in H. fold (visible db key scope) in H.
  destruct (split_scope scope (visible db key scope)) as [mine others] eqn:Hsplit.
  rewrite lift_bind in H. destruct mine as [m|]; [|injection H as <- <-; eauto]. simpl in H.
  rewrite read_bind in H. destruct (classification db key scope) as [cs ca]. simpl in H.
  rewrite read_bind, lift_bind in H.
  destruct (refuse_unless_may_end_approval _ _ _ _) as [[]|e] eqn:Href; [|injection H as <- <-; eauto].
  rewrite commit_bind in H. injection H as <- <-. right. exists m, others. done.
Qed.

(** One edit or removal by a requester.  The edit surfaces pass the descriptor
    row of the scope they edit. *)
Inductive policy_write (who : Requester) (key : OpKey) (scope : option uuid) (db : PolicyDb) : PolicyDb -> Prop :=
| pw_edit row sl ra now db' result :
    scope_descriptor db key scope = Some row -> ed_key row = key ->
    apply_policy_edit row scope who sl ra now db = (db', Ok result) -> policy_write who key scope db db'
| pw_remove db' result :
    remove_override key scope who db = (db', Ok result) -> policy_write who key scope db db'.

Lemma mine_stored db key scope mine others :
  policy_db_ok db -> split_scope scope (visible db key scope) = (mine, others) ->
  forall o, mine = Some o <-> o ∈ pd_overrides db /\ ov_scope o = (scope, key).
Proof.
  intros Hok Hs o. apply split_scope_spec in Hs as [_ Hm]; [|by apply visible_NoDup].
  rewrite Hm, elem_of_visible. unfold ov_scope. naive_solver.
Qed.

(** A write changes one scope only, and what ended somewhere passed the checks. *)
Lemma policy_write_spec who key scope db db' :
  policy_db_ok db -> policy_write who key scope db db' ->
  exists f, written scope key f db db' /\
  forall t, scope_approval db key t = true -> scope_approval db' key t = false ->
    op_platform_admin (rq_operator who) = true /\ has_reason (rq_reason who) = true /\
    rq_person_present who = true.
Proof.
  intros Hok [row sl ra now db1 result Hrow Hkey H|db1 result H].
  - subst key. apply edit_inv in H as [[_ [e ?]]|(mine & others & sf & af & Hs & _ & _ & Href & (now' & ->) & _)]; [done|].
    assert (classification db (ed_key row) scope = (ed_safety_level row, ed_requires_approval row)) as Hc
      by (unfold classification; by rewrite Hrow).
    set (c := candidate_override sf af) in *. exists (opt_fields (Some c)).
    pose proof (store_written (ed_key row) mine scope sf af (rq_reason who) (op_sub (rq_operator who))
      (match ra with Some _ => true | None => false end) now' db Hok (mine_stored _ _ _ _ _ Hok Hs)) as Hw.
    split; [done|]. intros t H1 H2.
    pose proof (flip_is_noticed _ _ _ _ _ _ (Some c) t Hok Hw Hs H1 H2) as Hf. rewrite Hc in Hf.
    eapply refuse_Ok in Href as (_ & _ & ? & ? & ?); [done|]. destruct Hf as [?|[-> ?]]; auto.
  - apply remove_inv in H as [[_ [e ?]]|(m & others & H)]; [done|].
    destruct (classification db key scope) as [cs ca] eqn:Hc. destruct H as (Hs & Href & ->).
    exists (opt_fields None). pose proof (written_delete scope key db Hok) as Hw.
    split; [done|]. intros t H1 H2.
    pose proof (flip_is_noticed _ _ _ _ _ _ None t Hok Hw Hs H1 H2) as Hf. rewrite Hc in Hf.
    eapply refuse_Ok in Href as (_ & _ & ? & ? & ?); [done|]. simpl in Hf. rewrite app_nil_r in Hf.
    destruct Hf as [?|[-> ?]]; auto.
Qed.

(** C22. Approval ends only with authority.  Whatever edit or removal of an
    override succeeds, in whatever scope: if the operation waited for approval
    before it in some tenant, or install-wide, and no longer does after it, then
    the requester is a platform admin who gave a reason and was present with a
    fresh sign-in.  This covers the tenants whose own copy of a built-in operation
    loses approval through an install-wide change. *)
Theorem approval_ends_only_with_authority who key scope db db' t :
  policy_db_ok db -> policy_write who key scope db db' ->
  scope_approval db key t = true -> scope_approval db' key t = false ->
  op_platform_admin (rq_operator who) = true /\ has_reason (rq_reason who) = true /\
  rq_person_present who = true.
Proof. intros Hok Hw H1 H2. destruct (policy_write_spec _ _ _ _ _ Hok Hw) as (f & _ & H). by eapply H. Qed.

Lemma levels_ext c a l l' :
  same_policy l l' ->
  SAFETY_RANK (ep_safety_level (effective_policy c a l)) = SAFETY_RANK (ep_safety_level (effective_policy c a l')).
Proof.
  assert (forall l l', same_policy l l' ->
    SAFETY_RANK (ep_safety_level (effective_policy c a l)) <= SAFETY_RANK (ep_safety_level (effective_policy c a l'))) as Hle.
  { clear l l'. intros l l' Hs. simpl. destruct (max_level_in (override_levels l) c) as [->|H].
    - apply max_level_ge. by left.
    - apply max_level_ge. right. apply elem_of_override_levels in H as [Hne Ho].
      apply elem_of_override_levels. split; [done|].
      by apply (same_policy_exists l l' (fun f => fst f = Some (max_level c (override_levels l)))). }
  intros Hs. apply Nat.le_antisymm; by apply Hle.
Qed.

(** Tenants are isolated: an edit or removal in one tenant's scope changes the
    effective approval and risk level of no other tenant and not the install-wide
    ones, no write changes another operation, and the classification rows are
    never written. *)
Theorem policy_writes_are_scoped who key scope db db' t key' c a :
  policy_db_ok db -> policy_write who key scope db db' -> ~ (sees t scope /\ key' = key) ->
  pd_descriptors db' = pd_descriptors db /\ policy_db_ok db' /\
  ep_requires_approval (effective_policy c a (visible db' key' t)) =
    ep_requires_approval (effective_policy c a (visible db key' t)) /\
  SAFETY_RANK (ep_safety_level (effective_policy c a (visible db' key' t))) =
    SAFETY_RANK (ep_safety_level (effective_policy c a (visible db key' t))).
Proof.
  intros Hok Hw Hn. destruct (policy_write_spec _ _ _ _ _ Hok Hw) as (f & Hwr & _).
  split; [apply Hwr|]. split.
  { constructor; [apply Hwr|]. rewrite (wr_descriptors _ _ _ _ _ Hwr). apply Hok. }
  pose proof (visible_unseen _ _ _ _ _ t key' Hwr Hn) as Hs. split; [by apply approval_ext|by apply levels_ext].
Qed.

(** * What a dispatch reads *)

Lemma apply_effective_policy_fields overrides t d :
  let p := with_caller_address_floor d
             (effective_policy (ed_safety_level d) (ed_requires_approval d)
                (visible {| pd_descriptors := []; pd_overrides := overrides |} (ed_key d) t)) in
  ed_safety_level (apply_effective_policy overrides t d) = ep_safety_level p /\
  ed_requires_approval (apply_effective_policy overrides t d) = ep_requires_approval p.
Proof. by split. Qed.

(** The policy a dispatch reads is never below the classification: the risk
    level is at least the classified one; a destructive operation waits for
    approval; an operation with a caller address is at least caution and waits
    for approval whatever the overrides say; and a required approval is off only
    by an override visible to the tenant that turned it off. *)
Theorem dispatch_policy_floor overrides t d :
  let d' := apply_effective_policy overrides t d in
  SAFETY_RANK (ed_safety_level d) <= SAFETY_RANK (ed_safety_level d') /\
  (ed_safety_level d' = "destructive" -> ed_requires_approval d' = true) /\
  (has_caller_address (ed_parameter_schema d) = true ->
     ed_requires_approval d' = true /\ 1 <= SAFETY_RANK (ed_safety_level d')) /\
  (ed_requires_approval d = true -> ed_requires_approval d' = false ->
     exists o, o ∈ overrides /\ ov_key o = ed_key d /\ (ov_tenant_id o = None \/ ov_tenant_id o = t) /\
       ov_requires_approval o = Some false).
Proof.
  cbn zeta. destruct (apply_effective_policy_fields overrides t d) as [-> ->].
  set (l := visible {| pd_descriptors := []; pd_overrides := overrides |} (ed_key d) t).
  set (p := effective_policy (ed_safety_level d) (ed_requires_approval d) l).
  assert (SAFETY_RANK (ed_safety_level d) <= SAFETY_RANK (ep_safety_level p)) as Hge
    by (apply max_level_ge; by left).
  assert (ep_safety_level p = "destructive" -> ep_requires_approval p = true) as Hdes.
  { intros H. simpl in *. rewrite H. apply orb_true_r. }
  assert (ed_requires_approval d = true -> ep_requires_approval p = false ->
          exists o, o ∈ l /\ ov_requires_approval o = Some false) as Hoff.
  { intros Ha Hp. apply elem_of_flags. apply dec_stable. intros Hn.
    assert (needs_approval (ed_safety_level d) (ed_requires_approval d) l) as Hneed.
    { right. left. split; [done|]. by rewrite <- elem_of_flags. }
    apply effective_approval_spec in Hneed. fold p in Hneed. congruence. }
  clearbody p. unfold with_caller_address_floor, raise_for_caller_address.
  change (SAFETY_RANK "caution") with 1.
  destruct (has_caller_address (ed_parameter_schema d)); simpl.
  - rewrite SAFETY_RANK_caution. split_and!; [lia|done|split; [done|lia]|done].
  - split_and!; [done|done|done|]. intros Ha Hp. destruct (Hoff Ha Hp) as (o & Ho & Hf).
    exists o. apply elem_of_visible in Ho as (? & ? & ?). done.
Qed.

(** * Requiring approval *)

Lemma needs_more c a x l :
  ov_requires_approval x <> Some false -> needs_approval c a l -> needs_approval c a (x :: l).
Proof.
  intros Hx [(o & Ho & E)|[[Ha H]|[H|(o & Ho & E)]]].
  - left. exists o. split; [by right|done].
  - right. left. split; [done|]. intros (o & [->|Ho]%elem_of_cons & E); [done|]. apply H. eauto.
  - right. right. by left.
  - right. right. right. exists o. split; [by right|done].
Qed.

Lemma required_field_spec row others tenants new_safety who af :
  new_approval_field row others tenants true new_safety who = Ok af ->
  af = Some true \/
  (af = None /\ ed_requires_approval row = true /\
   (forall o, o ∈ others -> ov_requires_approval o <> Some false) /\
   forall s, s ∈ tenants -> needs_approval (sc_code_safety s) (sc_code_approval s) (sc_own s)).
Proof.
  unfold new_approval_field. intros [= <-].
  destruct (ed_requires_approval row && _ && _) eqn:Hb; [|by left]. right. to_prop. split_and!; [done|done|..].
  - intros o Ho E. match goal with H : existsb _ others = false |- _ => rename H into Hf end.
    apply not_true_iff_false in Hf as []. apply existsb_exists. exists o. rewrite <- list_elem_of_In.
    by rewrite bool_decide_true.
  - intros s Hs. match goal with H : existsb _ tenants = false |- _ => rename H into Hf end.
    apply effective_approval_spec, not_false_iff_true. intros E. apply not_true_iff_false in Hf as [].
    apply existsb_exists. exists s. split; [by rewrite <- list_elem_of_In|]. by apply negb_true_iff.
Qed.

(** A successful edit that requires approval means it everywhere it reaches:
    afterwards the operation waits for approval in the edited scope, and after an
    install-wide edit in every tenant, also in one with its own copy of the
    operation, a lower classification, or an override that turned approval off. *)
Theorem required_approval_reaches_everyone row scope who sl now db db' result t :
  policy_db_ok db -> scope_descriptor db (ed_key row) scope = Some row ->
  apply_policy_edit row scope who sl (Some true) now db = (db', Ok result) ->
  sees t scope -> scope_approval db' (ed_key row) t = true.
Proof.
  intros Hok Hrow H Hsee.
  apply edit_inv in H as [[_ [e ?]]|(mine & others & sf & af & Hs & _ & Haf & _ & (now' & ->) & _)]; [done|].
  specialize (Haf true eq_refl). apply required_field_spec in Haf.
  assert (classification db (ed_key row) scope = (ed_safety_level row, ed_requires_approval row)) as Hc
    by (unfold classification; by rewrite Hrow).
  pose proof (store_written (ed_key row) mine scope sf af (rq_reason who) (op_sub (rq_operator who))
    true now' db Hok (mine_stored _ _ _ _ _ Hok Hs)) as Hw.
  set (db' := store _ _ _ _ _ _ _ _ _ _) in *. set (c := candidate_override sf af).
  change (sf, af) with (opt_fields (Some c)) in Hw.
  pose proof (split_scope_spec _ _ _ _ (visible_NoDup _ _ _ Hok) Hs) as [Hothers _].
  assert (forall l, (forall o, o ∈ l <-> o ∈ visible db (ed_key row) t /\ ov_tenant_id o <> scope) ->
    needs_approval (fst (classification db (ed_key row) t)) (snd (classification db (ed_key row) t)) (c :: l) ->
    scope_approval db' (ed_key row) t = true) as Hgoal.
  { intros l Hl Hn. unfold scope_approval. rewrite (classification_written _ _ _ _ _ _ _ Hw).
    apply effective_approval_spec. by rewrite (visible_after _ _ _ _ _ _ (Some c) Hw Hsee Hl). }
  destruct Haf as [->|(-> & Ha & Hoff & Hten)].
  { apply (Hgoal (select_where (fun o => negb (bool_decide (ov_tenant_id o = scope))) (visible db (ed_key row) t))).
    - intros o. by rewrite elem_of_select, negb_true_iff, bool_decide_eq_false.
    - left. exists c. split; [left|done]. }
  destruct (decide (scope = t)) as [<-|Hne].
  { apply (Hgoal others Hothers). rewrite Hc. simpl. apply needs_more; [done|]. right. left.
    split; [done|]. intros (o & Ho & E). by apply (Hoff o). }
  destruct Hsee as [->|?]; [|done]. destruct t as [u|]; [|done].
  pose proof (classification_tenant db (ed_key row) u Hok) as Hct. rewrite Hc in Hct.
  set (s := tenant_scope db (ed_key row) (ed_safety_level row) (ed_requires_approval row) u) in *.
  apply (Hgoal (sc_own s)).
  - intros o. unfold s. simpl. rewrite elem_of_select, andb_true_iff, !bool_decide_eq_true, elem_of_visible.
    split; [intros (? & ? & ->); naive_solver|]. intros [(? & ? & [?|?]) ?]; naive_solver.
  - rewrite Hct. cbn [fst snd]. apply needs_more; [done|].
    destruct (decide (u ∈ reached_tenants db (ed_key row))) as [Hr|Hr].
    + apply Hten. unfold tenant_scopes. by apply list_elem_of_fmap_2.
    + destruct (unreached_scope _ _ (ed_safety_level row) (ed_requires_approval row) u Hr) as (E1 & E2 & E3).
      fold s in E1, E2, E3. rewrite E1, E2, E3. right. left. split; [done|].
      intros (o & Ho & _). set_solver.
Qed.

(** * Instances of the theorems *)

Section PolicyExamples.
Let key := {| k_product := "k8s"; k_version := "1.x"; k_impl_id := "k8s"; k_op_id := "ns.delete" |}.
Let row tenant level appr := {| ed_tenant_id := tenant; ed_key := key; ed_is_enabled := true;
  ed_owner_package := None; ed_method := None; ed_tags := []; ed_safety_level := level; ed_requires_approval := appr;
  ed_parameter_schema := JDict [] |}.
Let person sub admin := {| op_sub := sub; op_tenant_id := "t1"; op_tenant_role := TENANT_ADMIN;
  op_principal_kind := USER; op_client_id := None; op_platform_admin := admin; op_web_session := true; op_name := None; op_approver := false; op_self_approver := false;
  op_tenant_chosen := true; op_auth_time := None; op_sid := None; op_acr := None; op_azp := None |}.
Let admin := {| rq_operator := person "root" true; rq_reason := Some "planned change";
  rq_person_present := true; rq_tighten_only := false |}.
Let install_on := {| ov_tenant_id := None; ov_key := key; ov_safety_level := None;
  ov_requires_approval := Some true; ov_reason := None; ov_set_by_sub := "root"; ov_set_at := 1 |}.
Let builtin := row None "caution" false.
Let copy := row (Some "t1") "caution" false.
Let db := {| pd_descriptors := [builtin; copy]; pd_overrides := [install_on] |}.

Lemma example_ok ds : NoDup ((fun d => (ed_tenant_id d, ed_key d)) <$> ds) ->
  policy_db_ok {| pd_descriptors := ds; pd_overrides := [install_on] |}.
Proof. intros H. constructor; [apply NoDup_singleton|done]. Qed.

Lemma example_keys level : NoDup ((fun d => (ed_tenant_id d, ed_key d)) <$> [row None level false; copy]).
Proof. apply NoDup_cons. split; [|apply NoDup_singleton]. intros H%list_elem_of_singleton. done. Qed.

(** A removal that ends approval for the tenant with its own copy. *)
Lemma approval_ends_only_with_authority_witness :
  scope_approval db key (Some "t1") = true /\
  op_platform_admin (rq_operator admin) = true /\ has_reason (rq_reason admin) = true /\
  rq_person_present admin = true.
Proof.
  split; [vm_compute; reflexivity|].
  apply (approval_ends_only_with_authority admin key None db
           (set_overrides (delete_where (is_scope None key)) db) (Some "t1")).
  - exact (example_ok _ (example_keys "caution")).
  - eapply pw_remove. vm_compute. reflexivity.
  - vm_compute. reflexivity.
  - vm_compute. reflexivity.
Defined.

Lemma policy_writes_are_scoped_witness : exists db',
  policy_write admin key (Some "t1") db db' /\
  ep_requires_approval (effective_policy "safe" false (visible db' key (Some "t2"))) =
    ep_requires_approval (effective_policy "safe" false (visible db key (Some "t2"))).
Proof.
  eexists. assert (policy_write admin key (Some "t1") db (fst (apply_policy_edit copy (Some "t1") admin
    (Some "dangerous") None 5 db))) as Hw.
  { eapply (pw_edit _ _ _ _ copy (Some "dangerous") None 5); vm_compute; reflexivity. }
  split; [exact Hw|]. apply (policy_writes_are_scoped admin key (Some "t1") db).
  - exact (example_ok _ (example_keys "caution")).
  - exact Hw.
  - intros [[H|H] _]; discriminate H.
Defined.

Lemma required_approval_reaches_everyone_witness : exists db',
  fst (apply_policy_edit builtin None admin None (Some true) 5
         {| pd_descriptors := [builtin; copy]; pd_overrides := [] |}) = db' /\
  scope_approval db' key (Some "t1") = true.
Proof.
  eexists. split; [reflexivity|].
  eapply (required_approval_reaches_everyone builtin None admin None 5
    {| pd_descriptors := [builtin; copy]; pd_overrides := [] |}).
  - constructor; [constructor|exact (example_keys "caution")].
  - vm_compute. reflexivity.
  - vm_compute. reflexivity.
  - left. reflexivity.
Defined.

(** The comment on the check that a level of destructive cannot be in play when
    approval ends somewhere does not hold for tenant copies: when the built-in
    operation is destructive and a tenant's own copy is not, removing the
    install-wide override that requires approval would end it for the copy alone,
    and it is refused as an attempt to turn off approval for a destructive
    operation, also to a platform admin with a reason and a fresh sign-in. *)
Theorem destructive_builtin_blocks_removal :
  let db := {| pd_descriptors := [row None "destructive" false; copy]; pd_overrides := [install_on] |} in
  policy_db_ok db /\
  scope_approval db key None = true /\
  scope_approval (set_overrides (delete_where (is_scope None key)) db) key None = true /\
  scope_approval (set_overrides (delete_where (is_scope None key)) db) key (Some "t1") = false /\
  remove_override key None admin db = (db, Raise approval_off_destructive).
Proof.
  split; [exact (example_ok _ (example_keys "destructive"))|].
  split_and!; vm_compute; reflexivity.
Qed.
End PolicyExamples.
