(* ===== verification/Lookup.v ===== *)
(** Descriptor lookup ([operations/_lookup.py]): the one row a dispatch uses for a
    tenant, and the probes that explain why there is none. *)

From S2P Require Import Prelude Json Identity Catalog OpPolicy.

Inductive LookupError := MultipleResultsFound.

(** What the queries read. *)
Record CatalogDb := {
  cd_descriptors : list EndpointDescriptor;
  cd_settings : list TenantOperationSetting;
  cd_overrides : list OperationPolicyOverride;
}.

Section Lookup.
(** The installed connector packages, and [row_code_missing] of
    [operations/_code_presence.py] (whether the connector's code is in the process). *)
Context (installed : list string).
Context (row_code_missing : option uuid -> EndpointDescriptor -> bool).

Definition triple_of (k : OpKey) : string * string * string := (k_product k, k_version k, k_impl_id k).

(** The rows of the named operation the tenant may see, in any state. *)
Definition visible_op (db : CatalogDb) (tenant_id : option uuid) (key : OpKey) (d : EndpointDescriptor) : bool :=
  visible_scope (cd_descriptors db) tenant_id (triple_of key) d && bool_decide (ed_key d = key).

Definition lookup_descriptor (db : CatalogDb) (tenant_id : option uuid) (key : OpKey)
  : res LookupError (option EndpointDescriptor) :=
  row ← ok_or MultipleResultsFound (scalar_one_or_none (select_where (fun d =>
          visible_op db tenant_id key d && enabled_for_tenant (cd_settings db) tenant_id d &&
          installed_owner installed d) (cd_descriptors db)));
  match row with
  | None => Ok None
  | Some d => if row_code_missing tenant_id d then Ok None
              else Ok (Some (apply_effective_policy (cd_overrides db) tenant_id d))
  end.

Definition find_uninstalled_package_owner (db : CatalogDb) (tenant_id : uuid) (key : OpKey) : option string :=
  head (select_where (fun d =>
    visible_op db (Some tenant_id) key d && enabled_for_tenant (cd_settings db) (Some tenant_id) d &&
    negb (installed_owner installed d)) (cd_descriptors db)) ≫= ed_owner_package.

Definition descriptor_exists_any_state (db : CatalogDb) (tenant_id : uuid) (key : OpKey) : bool :=
  existsb (fun d => visible_op db (Some tenant_id) key d && installed_owner installed d) (cd_descriptors db).

Definition count_known_ops (db : CatalogDb) (tenant_id : option uuid) (t : string * string * string) : nat :=
  length (select_where (fun d =>
    visible_scope (cd_descriptors db) tenant_id t d && bool_decide (ed_triple d = t) &&
    enabled_for_tenant (cd_settings db) tenant_id d) (cd_descriptors db)).

Definition CONNECTORS_WITH_OP_CAP : nat := 10.

(** The set of triples becomes a set of ids; [skip] leaves rows out. *)
Definition find_connectors_with_op (db : CatalogDb) (tenant_id : option uuid) (op_id : string)
  (exclude : string * string * string) (skip : EndpointDescriptor -> bool) : list string :=
  let rows := select_where (fun d =>
        visible_scope (cd_descriptors db) tenant_id (ed_triple d) d &&
        bool_decide (k_op_id (ed_key d) = op_id) &&
        enabled_for_tenant (cd_settings db) tenant_id d && installed_owner installed d) (cd_descriptors db) in
  let triples := List.filter (fun t => negb (bool_decide (t = exclude)))
                   (remove_dups (ed_triple <$> List.filter (fun d => negb (skip d)) rows)) in
  take CONNECTORS_WITH_OP_CAP (sorted_strings (remove_dups (omap render_connector_id triples))).

(** * Lemmas *)

(** The unique indexes of the descriptor table. *)
Definition catalog_ok (db : CatalogDb) : Prop :=
  NoDup ((fun d => (ed_tenant_id d, ed_key d)) <$> cd_descriptors db).

Lemma ed_triple_key d key : ed_key d = key -> ed_triple d = triple_of key.
Proof. by intros <-. Qed.

Lemma visible_op_spec db t key d :
  visible_op db t key d = true <->
  ed_key d = key /\
  (ed_tenant_id d = None /\
     (forall u, t = Some u -> tenant_owns_connector (cd_descriptors db) u (triple_of key) = false) \/
   t <> None /\ ed_tenant_id d = t).
Proof.
  unfold visible_op. rewrite andb_true_iff, bool_decide_eq_true. destruct t as [u|]; simpl.
  - rewrite orb_true_iff, andb_true_iff, negb_true_iff, !bool_decide_eq_true. naive_solver.
  - rewrite bool_decide_eq_true. naive_solver.
Qed.

Lemma visible_op_unique db t key d d' :
  catalog_ok db -> d ∈ cd_descriptors db -> d' ∈ cd_descriptors db ->
  visible_op db t key d = true -> visible_op db t key d' = true -> d = d'.
Proof.
  intros Hok Hd Hd' [Hk Hv]%visible_op_spec [Hk' Hv']%visible_op_spec.
  eapply (key_inj (fun d => (ed_tenant_id d, ed_key d))); [done..|]. f_equal; [|congruence].
  assert (forall x, x ∈ cd_descriptors db -> ed_key x = key -> t <> None -> ed_tenant_id x = t ->
    (forall u, t = Some u -> tenant_owns_connector (cd_descriptors db) u (triple_of key) = false) -> False) as Hno.
  { intros x Hx Hxk Hn Ht Hown. destruct t as [u|]; [|done]. specialize (Hown u eq_refl).
    apply not_true_iff_false in Hown as []. apply tenant_owns_spec. exists x. split_and!; [done..|].
    by apply ed_triple_key. }
  destruct Hv as [[Hn Hown]|[Hn Ht]], Hv' as [[Hn' Hown']|[Hn' Ht']]; [congruence|..|congruence];
    exfalso; eauto.
Qed.

Lemma scalar_unique {A} (l : list A) : NoDup l -> (forall x y, x ∈ l -> y ∈ l -> x = y) ->
  scalar_one_or_none l = Some (head l).
Proof.
  intros Hnd Hu. destruct l as [|x [|y l]]; [done..|]. exfalso.
  assert (x = y) as -> by (apply Hu; set_solver). apply NoDup_cons in Hnd as [H _]. set_solver.
Qed.

Lemma lookup_unique db t key :
  catalog_ok db ->
  let rows := select_where (fun d => visible_op db t key d && enabled_for_tenant (cd_settings db) t d &&
                                     installed_owner installed d) (cd_descriptors db) in
  scalar_one_or_none rows = Some (head rows).
Proof.
  intros Hok rows. apply scalar_unique.
  - by apply NoDup_fmap_1 with (fun d => (ed_tenant_id d, ed_key d)), NoDup_select_where.
  - intros x y Hx Hy. unfold rows in *. apply elem_of_select in Hx as [Hx Hpx], Hy as [Hy Hpy].
    to_prop. by eapply visible_op_unique.
Qed.

Lemma head_Some_elem {A} (l : list A) x : head l = Some x -> x ∈ l.
Proof. destruct l; [done|]. intros [= ->]. left. Qed.

(** The lookup of an operation for a tenant always answers: the unique index
    leaves at most one candidate.  It finds a descriptor exactly when a row of the
    operation is visible to the tenant, enabled for it, of an installed package
    and with its code present, and what it returns is that row with the tenant's
    effective policy; the row is the tenant's own or built in. *)
Theorem lookup_answers db t key :
  catalog_ok db ->
  exists r, lookup_descriptor db t key = Ok r /\
    forall d', r = Some d' <->
      exists d, d ∈ cd_descriptors db /\ visible_op db t key d = true /\
        enabled_for_tenant (cd_settings db) t d = true /\ installed_owner installed d = true /\
        row_code_missing t d = false /\ d' = apply_effective_policy (cd_overrides db) t d /\
        (ed_tenant_id d = None \/ ed_tenant_id d = t).
Proof.
  intros Hok. unfold lookup_descriptor. rewrite (lookup_unique db t key Hok). simpl.
  set (rows := select_where _ _).
  assert (forall d, d ∈ rows <-> d ∈ cd_descriptors db /\ visible_op db t key d = true /\
            enabled_for_tenant (cd_settings db) t d = true /\ installed_owner installed d = true) as Hrows.
  { intros d. unfold rows. rewrite elem_of_select, !andb_true_iff. tauto. }
  assert (forall d, visible_op db t key d = true -> ed_tenant_id d = None \/ ed_tenant_id d = t) as Htenant.
  { intros d [_ Hv]%visible_op_spec. naive_solver. }
  destruct (head rows) as [d|] eqn:Hh.
  - pose proof (head_Some_elem _ _ Hh) as (Hd & Hv & He & Hi)%Hrows.
    assert (forall x, x ∈ cd_descriptors db -> visible_op db t key x = true -> x = d) as Hu
      by (intros x Hx Hvx; by eapply visible_op_unique).
    destruct (row_code_missing t d) eqn:Hm; eexists; (split; [done|]); intros d'.
    + split; [done|]. intros (x & Hx & Hvx & _ & _ & Hmx & _). rewrite (Hu x Hx Hvx) in Hmx. congruence.
    + split; [intros [= <-]; exists d; split_and!; auto|].
      intros (x & Hx & Hvx & _ & _ & _ & -> & _). by rewrite (Hu x Hx Hvx).
  - eexists. split; [done|]. intros d'. split; [done|].
    intros (x & Hx & Hvx & Hex & Hix & _). assert (x ∈ rows) as Hin by (by apply Hrows).
    destruct rows; [set_solver|done].
Qed.

Lemma visible_scope_own db t d :
  visible_scope (cd_descriptors db) t (ed_triple d) d = true -> visible_op db t (ed_key d) d = true.
Proof. intros H. unfold visible_op. rewrite bool_decide_true by done. by rewrite andb_true_r. Qed.

(** The connectors named in an unknown-operation error can be used as they
    are: there are at most ten, none is the excluded one, and each parses to a
    connector on which the lookup of the operation finds a descriptor for the
    caller, as far as the connector's code is present. *)
Theorem suggested_connectors_resolve db t op_id exclude skip c :
  catalog_ok db -> (forall d, row_code_missing t d = false) ->
  c ∈ find_connectors_with_op db t op_id exclude skip ->
  length (find_connectors_with_op db t op_id exclude skip) <= CONNECTORS_WITH_OP_CAP /\
  parse_connector_id c <> exclude /\
  let '(product, version, impl_id) := parse_connector_id c in
  exists d, lookup_descriptor db t {| k_product := product; k_version := version;
              k_impl_id := impl_id; k_op_id := op_id |} = Ok (Some d).
Proof.
  intros Hok Hcode Hc. unfold find_connectors_with_op in *.
  set (ids := sorted_strings _) in *. split; [rewrite length_take; lia|].
  apply elem_of_take in Hc as (i & Hi & _). apply list_elem_of_lookup_2 in Hi. unfold ids, sorted_strings in Hi.
  rewrite merge_sort_Permutation, elem_of_remove_dups, list_elem_of_omap in Hi.
  destruct Hi as (tr & Htr & Hren).
  rewrite list_elem_of_In, filter_In, <- list_elem_of_In, elem_of_remove_dups, negb_true_iff,
    bool_decide_eq_false in Htr. destruct Htr as [Htr Hex].
  assert (parse_connector_id c = tr) as Hparse.
  { destruct tr as [[p v] im]. unfold render_connector_id in Hren. case_bool_decide; congruence. }
  split; [congruence|]. rewrite Hparse. destruct tr as [[p v] im].
  apply list_elem_of_fmap in Htr as (d & Hd & Hin). apply list_elem_of_In, filter_In in Hin as [Hin _].
  rewrite <- list_elem_of_In in Hin. apply elem_of_select in Hin as [Hin Hp]. to_prop.
  assert (ed_key d = {| k_product := p; k_version := v; k_impl_id := im; k_op_id := op_id |}) as Hk.
  { destruct d as [te [kp kv ki ko] en ow sl ra ps]. unfold ed_triple in Hd. simpl in *. congruence. }
  rewrite <- Hk. pose proof (visible_scope_own _ _ _ H) as Hv.
  unfold lookup_descriptor. rewrite (lookup_unique db t (ed_key d) Hok). simpl.
  set (rows := select_where _ _). destruct (head rows) as [x|] eqn:Hh.
  - simpl. rewrite Hcode. eexists. done.
  - assert (d ∈ rows) as Hdr by (apply elem_of_select; by rewrite Hv, H0, H1).
    destruct rows; [set_solver|done].
Qed.
End Lookup.

(** * Instances of the theorems *)

Section LookupExamples.
Let row tenant op := {| ed_tenant_id := tenant;
  ed_key := {| k_product := "vault"; k_version := "1.x"; k_impl_id := "vault"; k_op_id := op |};
  ed_is_enabled := true; ed_owner_package := None; ed_method := None; ed_tags := []; ed_safety_level := "safe";
  ed_requires_approval := false; ed_parameter_schema := JNull |}.
Let db := {| cd_descriptors := [row None "kv.read"; row (Some "t1") "kv.list"];
             cd_settings := []; cd_overrides := [] |}.

Lemma example_catalog : catalog_ok db.
Proof. apply NoDup_cons. split; [|apply NoDup_singleton]. by intros ?%list_elem_of_singleton. Qed.

(** The tenant's own row of the connector hides the built-in operations. *)
Lemma lookup_answers_witness : exists r,
  lookup_descriptor [] (fun _ _ => false) db (Some "t1") (ed_key (row None "kv.read")) = Ok r /\ r = None.
Proof.
  destruct (lookup_answers [] (fun _ _ => false) db (Some "t1") (ed_key (row None "kv.read"))
              example_catalog) as (r & Hr & _).
  exists r. split; [exact Hr|]. vm_compute in Hr. injection Hr as <-. reflexivity.
Defined.

Lemma suggested_connectors_resolve_witness : exists d,
  lookup_descriptor [] (fun _ _ => false) db (Some "t2")
    {| k_product := "vault"; k_version := "1.x"; k_impl_id := "vault"; k_op_id := "kv.read" |} = Ok (Some d).
Proof.
  apply (suggested_connectors_resolve [] (fun _ _ => false) db (Some "t2") "kv.read"
    ("k8s", "1.x", "k8s") (fun _ => false) "vault-1.x").
  - exact example_catalog.
  - reflexivity.
  - vm_compute. left.
Defined.
End LookupExamples.
