(* ===== verification/ServiceGrants.v ===== *)
(** Standing grants of service principals ([operations/service_grants.py]): the
    delete signs ([delete_names.py]), the create-time review, insertion, renewal
    and revocation of grants, and the consultation at dispatch that records each
    use on the approvals ledger.

    Every method is one transaction; what it raises rolls back what it wrote. *)

From S2P Require Import Prelude Json Glob Identity Catalog OpPolicy Lookup.

(** * Delete names *)

Fixpoint strip_prefix (p s : string) : option string :=
  match p, s with
  | EmptyString, _ => Some s
  | String a p', String b s' => if Ascii.eqb a b then strip_prefix p' s' else None
  | String _ _, EmptyString => None
  end.

(** [str.isupper] of one code point below 256. *)
Definition is_upper (c : ascii) : bool :=
  let n := nat_of_ascii c in
  ((65 <=? n) && (n <=? 90)) || ((192 <=? n) && (n <=? 222) && negb (n =? 215)).

Definition DESTRUCTIVE_ACTION_PREFIXES : list string := ["Destroy"; "Delete"; "Remove"; "Unregister"].
Definition VENDOR_ACTION_PREFIXES : list string := ["Vsan"; "VsanCluster"; "VsanPerf"; "VsanVit"].
Definition DELETE_ACTION_QUERY : string := "action=delete".
Definition DELETE_SHAPED_OP_ID_PATTERNS : list string :=
  ["DELETE:*"; "*.delete"; "*.destroy"; "*.remove"; "*.purge"].

(** What may follow a delete word: nothing, "_" or an upper-case letter. *)
Definition at_word_end (suffix : string) : bool :=
  match suffix with
  | EmptyString => true
  | String c _ => Ascii.eqb c "_" || is_upper c
  end.

Definition starts_with_delete_word (segment : string) : bool :=
  existsb (fun prefix => match strip_prefix prefix segment with
                         | Some suffix => at_word_end suffix
                         | None => false
                         end) DESTRUCTIVE_ACTION_PREFIXES.

Definition is_action_separator (c : ascii) : bool :=
  Ascii.eqb c "." || Ascii.eqb c "_" || Ascii.eqb c "/" || Ascii.eqb c "-".

Definition is_destructive_action_name (value : string) : bool :=
  existsb (fun segment =>
    starts_with_delete_word segment ||
    existsb (fun vendor_prefix => match strip_prefix vendor_prefix segment with
                                  | Some rest => starts_with_delete_word rest
                                  | None => false
                                  end) VENDOR_ACTION_PREFIXES)
    (split_by is_action_separator value).

Definition destructive_action_name_in_path (path : string) : option string :=
  let '(raw_path, query) := partition_on "?" path in
  let action_name := List.last (split_on "/" raw_path) "" in
  if negb (bool_decide (action_name = "")) && is_destructive_action_name action_name
  then Some action_name
  else if bool_decide (DELETE_ACTION_QUERY ∈ split_on "&" (default "" query))
  then Some DELETE_ACTION_QUERY else None.

Definition destructive_action_name_in_op_id (op_id : string) : option string :=
  match partition_on ":" op_id with
  | (_, Some path) => if starts_with "/" path then destructive_action_name_in_path path else None
  | (_, None) => None
  end.

(** * Delete signs *)

(** Why an operation counts as a delete; the refusal texts name the same cases. *)
Inductive DeleteSign :=
| sign_pattern (pattern : string)
| sign_action_name (name : string)
| sign_destructive_level
| sign_delete_verb
| sign_destructive_tag.

(** [str.upper], for comparison with an ASCII word. *)
Definition upper_char (c : ascii) : ascii :=
  let n := nat_of_ascii c in
  if (97 <=? n) && (n <=? 122) then ascii_of_nat (n - 32) else c.
Fixpoint upper (s : string) : string :=
  match s with EmptyString => "" | String c s' => String (upper_char c) (upper s') end.

Definition delete_shaped_reason_by_pattern (op_id : string) (patterns : list string) : option DeleteSign :=
  sign_pattern <$> List.find (fun pattern => fnmatch op_id pattern) patterns.

Definition delete_shaped_reason_by_action_name (op_id : string) : option DeleteSign :=
  sign_action_name <$> destructive_action_name_in_op_id op_id.

Definition delete_shaped_refusal_reason (op_id : string) (patterns : list string) : option DeleteSign :=
  match delete_shaped_reason_by_pattern op_id patterns with
  | Some r => Some r
  | None => delete_shaped_reason_by_action_name op_id
  end.

Definition delete_shaped_reason_by_descriptor (d : EndpointDescriptor) : option DeleteSign :=
  if bool_decide (ed_safety_level d = "destructive") then Some sign_destructive_level
  else if bool_decide (upper (default "" (ed_method d)) = "DELETE") then Some sign_delete_verb
  else if bool_decide ("destructive" ∈ ed_tags d) then Some sign_destructive_tag
  else None.

Definition delete_grant_reason (op_id : string) (patterns : list string)
  (descriptor : option EndpointDescriptor) : option DeleteSign :=
  match delete_shaped_refusal_reason op_id patterns with
  | Some r => Some r
  | None => descriptor ≫= delete_shaped_reason_by_descriptor
  end.

(** Whether a grant can never cover the operation because it dials an address
    from the call. *)
Definition caller_address_grant_reason (descriptor : option EndpointDescriptor) : bool :=
  match descriptor with
  | None => false
  | Some d => has_caller_address (ed_parameter_schema d)
  end.

(** * Rows *)

Record StandingGrant := {
  gr_id : uuid;
  gr_tenant_id : uuid;
  gr_principal_sub : string;
  gr_op_id : string;
  gr_connector_id : string;
  gr_target_id : option uuid;
  gr_target_product : option string;
  gr_target_name_pattern : option string;
  gr_reason : string;
  gr_created_by_sub : string;
  gr_created_at : datetime;
  gr_expires_at : option datetime;
  gr_revoked_at : option datetime;
  gr_revoked_by_sub : option string;
  gr_revoked_reason : option string;
  gr_replaced_at : option datetime;
}.

(** The audit row of a grant use, without the correlation ids it copies from the
    request (request, session, parent audit row, work reference). *)
Record GrantUse := {
  gu_grant_id : uuid;
  gu_tenant_id : uuid;
  gu_operator_sub : string;
  gu_op_id : string;
  gu_connector_id : string;
  gu_target_id : option uuid;
  gu_selector : option (option string * option string);
  gu_delete_grant : bool;
  gu_evidence : json_dict;
}.

(** The two grant tables and the ledger. *)
Record GrantsDb := {
  gd_grants : list StandingGrant;
  gd_delete_grants : list StandingGrant;
  gd_ledger : list GrantUse;
}.

Inductive GrantModel := ServicePrincipalGrant | SandboxDeleteGrant.
#[export] Instance GrantModel_eq_dec : EqDecision GrantModel.
Proof. solve_decision. Defined.

Definition grant_table (m : GrantModel) (db : GrantsDb) : list StandingGrant :=
  match m with ServicePrincipalGrant => gd_grants db | SandboxDeleteGrant => gd_delete_grants db end.

Definition on_table (m : GrantModel) (f : list StandingGrant -> list StandingGrant) (db : GrantsDb) : GrantsDb :=
  match m with
  | ServicePrincipalGrant => {| gd_grants := f (gd_grants db); gd_delete_grants := gd_delete_grants db;
                                gd_ledger := gd_ledger db |}
  | SandboxDeleteGrant => {| gd_grants := gd_grants db; gd_delete_grants := f (gd_delete_grants db);
                             gd_ledger := gd_ledger db |}
  end.

(** The settings the component reads. *)
Record GrantSettings := {
  gs_sandbox_mode : bool;
  gs_delete_shaped_patterns : list string;
  gs_delete_grants_from_api : bool;
}.

(** The target of a call, as far as grants read it. *)
Record Target := { tg_id : option uuid; tg_product : option string; tg_name : option string }.

Definition target_fields (target : option Target) : option uuid * option string * option string :=
  (target ≫= tg_id, target ≫= tg_product, target ≫= tg_name).

(** * Enforcement at dispatch *)

(** [_live_grant_scope_predicates]. *)
Definition live_grant_scope (tenant_id : uuid) (principal_sub op_id connector_id : string)
  (cutoff : datetime) (g : StandingGrant) : bool :=
  bool_decide (gr_tenant_id g = tenant_id) && bool_decide (gr_principal_sub g = principal_sub) &&
  bool_decide (gr_op_id g = op_id) && bool_decide (gr_connector_id g = connector_id) &&
  bool_decide (gr_revoked_at g = None) &&
  match gr_expires_at g with None => true | Some e => (cutoff <? e)%Z end.

Definition has_selector (g : StandingGrant) : bool :=
  negb (bool_decide (gr_target_product g = None)) || negb (bool_decide (gr_target_name_pattern g = None)).

Definition pure_targetless (g : StandingGrant) : bool :=
  bool_decide (gr_target_id g = None) && negb (has_selector g).

Definition selector_matches (g : StandingGrant) (target_product target_name : option string) : bool :=
  (bool_decide (gr_target_product g = None) || bool_decide (gr_target_product g = target_product)) &&
  match gr_target_name_pattern g with
  | None => true
  | Some pattern => match target_name with Some n => fnmatch n pattern | None => false end
  end.

(** The rows of a table are in the order the query returns them. *)
Definition find_live_grant (rows : list StandingGrant) (tenant_id : uuid)
  (principal_sub op_id connector_id : string) (target_id : option uuid)
  (target_product target_name : option string) (now : datetime) : option StandingGrant :=
  let scope := live_grant_scope tenant_id principal_sub op_id connector_id now in
  match target_id with
  | None => List.find (fun g => scope g && pure_targetless g) rows
  | Some tid =>
      match List.find (fun g => scope g && bool_decide (gr_target_id g = Some tid)) rows with
      | Some exact => Some exact
      | None =>
          List.find (fun g => selector_matches g target_product target_name)
            (select_where (fun g => scope g && bool_decide (gr_target_id g = None) && has_selector g) rows)
      end
  end.

(** The texts a park reason may end with. *)
Definition NULL_TARGET_HINT : string :=
  "a null-target standing grant does not match a target-scoped dispatch — null is matched literally, not as an any-target wildcard. Scope the grant to this target, or use a target selector (target_product / target_name_pattern) to authorise targets that do not exist yet (#3349)".

Definition null_target_only_park_hint (db : GrantsDb) (tenant_id : uuid)
  (principal_sub op_id connector_id : string) (target_id : option uuid) (now : datetime) : option string :=
  match target_id with
  | None => None
  | Some _ =>
      if existsb (fun g => live_grant_scope tenant_id principal_sub op_id connector_id now g &&
                           pure_targetless g) (gd_grants db)
      then Some NULL_TARGET_HINT else None
  end.

(** [_record_grant_use]: one ledger row, committed. *)
Definition record_grant_use (operator : Operator) (m : GrantModel) (g : StandingGrant)
  (connector_id : string) (target_id : option uuid) (matched_by_selector : bool)
  (evidence : json_dict) (db : GrantsDb) : GrantsDb :=
  {| gd_grants := gd_grants db; gd_delete_grants := gd_delete_grants db;
     gd_ledger := gd_ledger db ++
       [{| gu_grant_id := gr_id g; gu_tenant_id := op_tenant_id operator; gu_operator_sub := op_sub operator;
           gu_op_id := gr_op_id g; gu_connector_id := connector_id; gu_target_id := target_id;
           gu_selector := if matched_by_selector
                          then Some (gr_target_product g, gr_target_name_pattern g) else None;
           gu_delete_grant := bool_decide (m = SandboxDeleteGrant);
           gu_evidence := match m with SandboxDeleteGrant => evidence | ServicePrincipalGrant => [] end |}] |}.

Definition matched_by_selector (g : StandingGrant) : bool :=
  bool_decide (gr_target_id g = None) && has_selector g.

Section Consult.
Context (st : GrantSettings).
(** The dispatcher's binding check of a destructive call and its proposed effect
    ([destructive_binding_evidence] and [_build_proposed_effect] of
    [operations/dispatcher.py]), which may read the target. *)
Context (destructive_binding_evidence : Operator -> EndpointDescriptor -> option Target -> string ->
           string -> json_dict -> option json_dict).
Context (build_proposed_effect : Operator -> EndpointDescriptor -> option Target -> string ->
           json_dict -> json).

(** What a dispatch hands to the consultation. *)
Record GrantQuery := {
  gq_operator : Operator;
  gq_descriptor : EndpointDescriptor;
  gq_target : option Target;
  gq_connector_id : string;
  gq_preview_hash : option string;
  gq_params : option json_dict;
  gq_record : bool;
  gq_now : datetime;
}.

Definition query_op_id (q : GrantQuery) : string := k_op_id (ed_key (gq_descriptor q)).

Definition query_live (m : GrantModel) (q : GrantQuery) (db : GrantsDb) : option StandingGrant :=
  let '(target_id, target_product, target_name) := target_fields (gq_target q) in
  find_live_grant (grant_table m db) (op_tenant_id (gq_operator q)) (op_sub (gq_operator q))
    (query_op_id q) (gq_connector_id q) target_id target_product target_name (gq_now q).

Definition query_delete_sign (q : GrantQuery) : option DeleteSign :=
  delete_grant_reason (query_op_id q) (gs_delete_shaped_patterns st) (Some (gq_descriptor q)).

Definition delete_grant_evidence (q : GrantQuery) : option json_dict :=
  if bool_decide (ed_safety_level (gq_descriptor q) = "destructive")
  then match gq_preview_hash q, gq_params q with
       | Some h, Some params =>
           destructive_binding_evidence (gq_operator q) (gq_descriptor q) (gq_target q)
             (gq_connector_id q) h params
       | _, _ => None
       end
  else Some [("proposed_effect",
              build_proposed_effect (gq_operator q) (gq_descriptor q) (gq_target q) (gq_connector_id q)
                (default [] (gq_params q)))].

Definition use_grant (m : GrantModel) (q : GrantQuery) (g : StandingGrant) (evidence : json_dict)
  (db : GrantsDb) : GrantsDb * option uuid :=
  (record_grant_use (gq_operator q) m g (gq_connector_id q) (fst (fst (target_fields (gq_target q))))
     (matched_by_selector g) evidence db, Some (gr_id g)).

Definition consult_delete_grant (q : GrantQuery) (db : GrantsDb) : GrantsDb * option uuid :=
  match query_delete_sign q with
  | None => (db, None)
  | Some _ =>
      match query_live SandboxDeleteGrant q db with
      | None => (db, None)
      | Some g =>
          if negb (gq_record q) then (db, Some (gr_id g))
          else match delete_grant_evidence q with
               | None => (db, None)
               | Some evidence => use_grant SandboxDeleteGrant q g evidence db
               end
      end
  end.

(** The consultation of the ordinary grants, after the refusals. *)
Definition consult_ordinary_grant (q : GrantQuery) (db : GrantsDb) : GrantsDb * option uuid :=
  match query_delete_sign q with
  | Some _ => (db, None)
  | None =>
      match query_live ServicePrincipalGrant q db with
      | None => (db, None)
      | Some g => if negb (gq_record q) then (db, Some (gr_id g))
                  else use_grant ServicePrincipalGrant q g [] db
      end
  end.

Definition consult_and_record_grant (q : GrantQuery) (db : GrantsDb) : GrantsDb * option uuid :=
  if caller_address_grant_reason (Some (gq_descriptor q)) then (db, None)
  else if gs_sandbox_mode st then
    match consult_delete_grant q db with
    | (db', Some id) => (db', Some id)
    | (db', None) => consult_ordinary_grant q db'
    end
  else consult_ordinary_grant q db.
End Consult.

(** * The grant service *)

Inductive GrantError :=
| GrantWildcard (value : string)
| GrantBadQuery (value : string)
| GrantRoleFloorError (denial : string)
| GrantExpiryPast
| GrantCallerAddress
| GrantDeleteShaped (sign : DeleteSign)
| DeleteGrantConsoleOnlyError
| DeleteGrantNeedsTenantAdminError
| DeleteGrantNeedsExpiry
| DeleteGrantTooLong
| GrantDuplicate
| GrantLookupError
| GrantNotSandbox
| GrantNothingToRenew
| GrantNoLongerDelete
| GrantRevokedMeanwhile.

Record ServiceGrantCreate := {
  gp_principal_sub : string;
  gp_op_id : string;
  gp_connector_id : string;
  gp_target_id : option uuid;
  gp_target_product : option string;
  gp_target_name_pattern : option string;
  gp_reason : string;
  gp_expires_at : option datetime;
}.

Definition is_query_char (c : ascii) : bool := is_version_char c || Ascii.eqb c "-".

Definition nonempty (s : string) : bool := negb (bool_decide (s = "")).

(** One "key=value" of a literal query. *)
Definition is_query_pair (s : string) : bool :=
  match partition_on "=" s with
  | (k, Some v) => nonempty k && all_chars is_query_char k && nonempty v && all_chars is_query_char v
  | (_, None) => false
  end.

Definition is_ascii_upper (c : ascii) : bool :=
  let n := nat_of_ascii c in (65 <=? n) && (n <=? 90).

(** [_LITERAL_QUERY_STRING_OP_ID.match]: neither the method nor the path can hold
    the character that ends it, so the first ":" and the first "?" split. *)
Definition LITERAL_QUERY_STRING_OP_ID (s : string) : bool :=
  match partition_on ":" s with
  | (meth, Some rest) =>
      nonempty meth && all_chars is_ascii_upper meth &&
      match partition_on "?" rest with
      | (path, Some query) =>
          match strip_prefix "/" path with
          | Some p => nonempty p && negb (has_char "*" p)
          | None => false
          end &&
          forallb is_query_pair (split_on "&" (drop_final_newline query))
      | (_, None) => false
      end
  | (_, None) => false
  end.

Definition reject_wildcard (literal_query_ok : bool) (value : string) : res GrantError unit :=
  _ ← guard_or (GrantWildcard value) (negb (has_char "*" value));
  if has_char "?" value
  then if literal_query_ok
       then guard_or (GrantBadQuery value) (LITERAL_QUERY_STRING_OP_ID value)
       else Raise (GrantWildcard value)
  else Ok tt.

Definition reject_wildcards (p : ServiceGrantCreate) : res GrantError unit :=
  _ ← reject_wildcard true (gp_op_id p);
  _ ← reject_wildcard false (gp_connector_id p);
  reject_wildcard false (gp_principal_sub p).

Definition validate_expires_at (expires_at : option datetime) (now : datetime) : res GrantError unit :=
  match expires_at with
  | None => Ok tt
  | Some e => guard_or GrantExpiryPast (now <? e)%Z
  end.

(** Thirty days, in microseconds. *)
Definition SANDBOX_DELETE_GRANT_MAX_DAYS : Z := 30.
Definition day : Z := 86400000000.

Definition validate_delete_grant_expires_at (expires_at : option datetime) (now : datetime)
  : res GrantError unit :=
  match expires_at with
  | None => Raise DeleteGrantNeedsExpiry
  | Some e => guard_or DeleteGrantTooLong (e <=? now + SANDBOX_DELETE_GRANT_MAX_DAYS * day)%Z
  end.

Section Service.
Context (st : GrantSettings) (floors : gmap string TenantRole).
(** The parameters of the catalogue lookup. *)
Context (installed : list string) (row_code_missing : option uuid -> EndpointDescriptor -> bool).

Definition resolve_descriptor_for_classification (catalog : CatalogDb) (tenant_id : uuid)
  (connector_id op_id : string) : res GrantError (option EndpointDescriptor) :=
  let '(product, version, impl_id) := parse_connector_id connector_id in
  match lookup_descriptor installed row_code_missing catalog (Some tenant_id)
          {| k_product := product; k_version := version; k_impl_id := impl_id; k_op_id := op_id |} with
  | Ok d => Ok d
  | Raise MultipleResultsFound => Raise GrantLookupError
  end.

(** The readings of the clock within one call are one instant, [now]. *)
Definition review (catalog : CatalogDb) (tenant_id : uuid) (p : ServiceGrantCreate)
  (from_console : bool) (creator_role : TenantRole) (now : datetime) : res GrantError GrantModel :=
  _ ← reject_wildcards p;
  _ ← match role_floor_denial floors (gp_op_id p) creator_role with
      | Some denial => Raise (GrantRoleFloorError denial)
      | None => Ok tt
      end;
  _ ← validate_expires_at (gp_expires_at p) now;
  descriptor ← resolve_descriptor_for_classification catalog tenant_id (gp_connector_id p) (gp_op_id p);
  _ ← guard_or GrantCallerAddress (negb (caller_address_grant_reason descriptor));
  match delete_grant_reason (gp_op_id p) (gs_delete_shaped_patterns st) descriptor with
  | None => Ok ServicePrincipalGrant
  | Some sign =>
      _ ← guard_or (GrantDeleteShaped sign) (gs_sandbox_mode st);
      _ ← (if from_console then Ok tt
           else _ ← guard_or DeleteGrantConsoleOnlyError (gs_delete_grants_from_api st);
                guard_or DeleteGrantNeedsTenantAdminError (bool_decide (creator_role = TENANT_ADMIN)));
      _ ← validate_delete_grant_expires_at (gp_expires_at p) now;
      Ok SandboxDeleteGrant
  end.

(** The fully scoped key of a grant. *)
Definition grant_key (g : StandingGrant) :=
  (gr_tenant_id g, gr_principal_sub g, gr_op_id g, gr_connector_id g,
   (gr_target_id g, gr_target_product g, gr_target_name_pattern g)).

Definition new_grant (tenant_id : uuid) (created_by_sub : string) (p : ServiceGrantCreate) (id : uuid)
  (now : datetime) : StandingGrant := {|
  gr_id := id; gr_tenant_id := tenant_id; gr_principal_sub := gp_principal_sub p; gr_op_id := gp_op_id p;
  gr_connector_id := gp_connector_id p; gr_target_id := gp_target_id p;
  gr_target_product := gp_target_product p; gr_target_name_pattern := gp_target_name_pattern p;
  gr_reason := gp_reason p; gr_created_by_sub := created_by_sub; gr_created_at := now;
  gr_expires_at := gp_expires_at p; gr_revoked_at := None; gr_revoked_by_sub := None;
  gr_revoked_reason := None; gr_replaced_at := None |}.

(** In the unique indexes: neither revoked nor replaced. *)
Definition active (g : StandingGrant) : bool :=
  bool_decide (gr_revoked_at g = None) && bool_decide (gr_replaced_at g = None).

Definition ended (now : datetime) (g : StandingGrant) : bool :=
  match gr_expires_at g with None => false | Some e => (e <=? now)%Z end.

Definition set_replaced (now : datetime) (g : StandingGrant) : StandingGrant := {|
  gr_id := gr_id g; gr_tenant_id := gr_tenant_id g; gr_principal_sub := gr_principal_sub g;
  gr_op_id := gr_op_id g; gr_connector_id := gr_connector_id g; gr_target_id := gr_target_id g;
  gr_target_product := gr_target_product g; gr_target_name_pattern := gr_target_name_pattern g;
  gr_reason := gr_reason g; gr_created_by_sub := gr_created_by_sub g; gr_created_at := gr_created_at g;
  gr_expires_at := gr_expires_at g; gr_revoked_at := gr_revoked_at g; gr_revoked_by_sub := gr_revoked_by_sub g;
  gr_revoked_reason := gr_revoked_reason g; gr_replaced_at := Some now |}.

Definition mark_ended_grants_replaced (row : StandingGrant) (now : datetime)
  : list StandingGrant -> list StandingGrant :=
  update_where (fun g => bool_decide (grant_key g = grant_key row) && active g && ended now g) (set_replaced now).

(** The duplicate check of selector grants. *)
Definition duplicate_selector (row : StandingGrant) (rows : list StandingGrant) : bool :=
  existsb (fun g =>
    bool_decide ((gr_tenant_id g, gr_principal_sub g, gr_op_id g, gr_connector_id g) =
                 (gr_tenant_id row, gr_principal_sub row, gr_op_id row, gr_connector_id row)) &&
    bool_decide (gr_target_id g = None) && bool_decide (gr_target_product g = gr_target_product row) &&
    bool_decide (gr_target_name_pattern g = gr_target_name_pattern row) && active g) rows.

(** The two partial unique indexes and the primary key. *)
Definition violates_index (row : StandingGrant) (rows : list StandingGrant) : bool :=
  existsb (fun g => bool_decide (gr_id g = gr_id row)) rows ||
  existsb (fun g => active g &&
    bool_decide ((gr_tenant_id g, gr_principal_sub g, gr_op_id g, gr_connector_id g) =
                 (gr_tenant_id row, gr_principal_sub row, gr_op_id row, gr_connector_id row)) &&
    ((negb (bool_decide (gr_target_id row = None)) && bool_decide (gr_target_id g = gr_target_id row)) ||
     (pure_targetless row && pure_targetless g))) rows.

Definition insert_grant (row : StandingGrant) (now : datetime) (rows : list StandingGrant)
  : res GrantError (list StandingGrant) :=
  let rows := mark_ended_grants_replaced row now rows in
  _ ← guard_or GrantDuplicate (negb (has_selector row && duplicate_selector row rows));
  _ ← guard_or GrantDuplicate (negb (violates_index row rows));
  Ok (rows ++ [row]).

(** A request body: a target id excludes a selector. *)
Definition payload_ok (p : ServiceGrantCreate) : Prop :=
  gp_target_id p <> None -> gp_target_product p = None /\ gp_target_name_pattern p = None.

Definition create (catalog : CatalogDb) (tenant_id : uuid) (created_by_sub : string) (p : ServiceGrantCreate)
  (from_console : bool) (creator_role : TenantRole) (id : uuid) (now : datetime)
  : txn GrantsDb GrantError StandingGrant :=
  m ← lift_res (review catalog tenant_id p from_console creator_role now);
  let row := new_grant tenant_id created_by_sub p id now in
  rows ← read_db (fun db => insert_grant row now (grant_table m db));
  _ ← commit (on_table m (fun _ => rows));
  mret row.

Definition set_revoked (now : datetime) (by_sub : string) (reason : option string) (g : StandingGrant)
  : StandingGrant := {|
  gr_id := gr_id g; gr_tenant_id := gr_tenant_id g; gr_principal_sub := gr_principal_sub g;
  gr_op_id := gr_op_id g; gr_connector_id := gr_connector_id g; gr_target_id := gr_target_id g;
  gr_target_product := gr_target_product g; gr_target_name_pattern := gr_target_name_pattern g;
  gr_reason := gr_reason g; gr_created_by_sub := gr_created_by_sub g; gr_created_at := gr_created_at g;
  gr_expires_at := gr_expires_at g; gr_revoked_at := Some now; gr_revoked_by_sub := Some by_sub;
  gr_revoked_reason := reason; gr_replaced_at := gr_replaced_at g |}.

Definition revocable (tenant_id grant_id : uuid) (g : StandingGrant) : bool :=
  bool_decide (gr_tenant_id g = tenant_id) && bool_decide (gr_id g = grant_id) &&
  bool_decide (gr_revoked_at g = None).

(** [UPDATE ... RETURNING]: the new rows, and whether one matched. *)
Definition revoke_rows (tenant_id grant_id : uuid) (now : datetime) (by_sub : string)
  (reason : option string) (rows : list StandingGrant) : list StandingGrant * bool :=
  (update_where (revocable tenant_id grant_id) (set_revoked now by_sub reason) rows,
   existsb (revocable tenant_id grant_id) rows).

Definition grant_models : list GrantModel :=
  if gs_sandbox_mode st then [ServicePrincipalGrant; SandboxDeleteGrant] else [ServicePrincipalGrant].

(** The loop over the tables stops at the first hit. *)
Fixpoint revoke_in (models : list GrantModel) (tenant_id grant_id : uuid) (revoked_by_sub : string)
  (reason : option string) (now : datetime) (db : GrantsDb) : GrantsDb * bool :=
  match models with
  | [] => (db, false)
  | m :: rest =>
      let '(rows, hit) := revoke_rows tenant_id grant_id now revoked_by_sub reason (grant_table m db) in
      let db' := on_table m (fun _ => rows) db in
      if hit then (db', true) else revoke_in rest tenant_id grant_id revoked_by_sub reason now db'
  end.

Definition revoke (tenant_id grant_id : uuid) (revoked_by_sub : string) (reason : option string)
  (now : datetime) : GrantsDb -> GrantsDb * bool :=
  revoke_in grant_models tenant_id grant_id revoked_by_sub reason now.

(** ** Renewal *)

Definition created_le (a b : StandingGrant) : Prop := (gr_created_at a <= gr_created_at b)%Z.
#[export] Instance created_le_dec a b : Decision (created_le a b) := Z_le_dec _ _.

Definition renewal_payload (expires_at : option datetime) (reason : option string) (old : StandingGrant)
  : ServiceGrantCreate := {|
  gp_principal_sub := gr_principal_sub old; gp_op_id := gr_op_id old; gp_connector_id := gr_connector_id old;
  gp_target_id := gr_target_id old; gp_target_product := gr_target_product old;
  gp_target_name_pattern := gr_target_name_pattern old;
  gp_reason := match reason with Some r => if bool_decide (r = "") then gr_reason old else r
                               | None => gr_reason old end;
  gp_expires_at := expires_at |}.

Definition review_renewal (catalog : CatalogDb) (tenant_id : uuid) (expires_at : option datetime)
  (reason : option string) (creator_role : TenantRole) (now : datetime) (old : StandingGrant)
  : res GrantError (uuid * ServiceGrantCreate) :=
  let p := renewal_payload expires_at reason old in
  m ← review catalog tenant_id p true creator_role now;
  _ ← guard_or GrantNoLongerDelete (bool_decide (m = SandboxDeleteGrant));
  Ok (gr_id old, p).

(** The writes of a renewal, on the delete-grant table; [fresh old] is the id
    generated for the grant that takes the place of [old]. *)
Fixpoint renew_rows (tenant_id : uuid) (renewed_by_sub : string) (now : datetime) (fresh : uuid -> uuid)
  (reviewed : list (uuid * ServiceGrantCreate)) (rows : list StandingGrant)
  : res GrantError (list StandingGrant * list StandingGrant) :=
  match reviewed with
  | [] => Ok (rows, [])
  | (old_id, p) :: reviewed =>
      let '(rows, hit) := revoke_rows tenant_id old_id now renewed_by_sub (Some "renewed") rows in
      _ ← guard_or GrantRevokedMeanwhile hit;
      let row := new_grant tenant_id renewed_by_sub p (fresh old_id) now in
      rows ← insert_grant row now rows;
      '(rows, renewed) ← renew_rows tenant_id renewed_by_sub now fresh reviewed rows;
      Ok (rows, row :: renewed)
  end.

(** The read and review half of a renewal. *)
Definition renew_review (catalog : CatalogDb) (tenant_id : uuid) (principal_sub : string)
  (expires_at : option datetime) (reason : option string) (from_console : bool)
  (creator_role : TenantRole) (now : datetime) (db : GrantsDb)
  : res GrantError (list (uuid * ServiceGrantCreate)) :=
  _ ← guard_or GrantNotSandbox (gs_sandbox_mode st);
  _ ← guard_or DeleteGrantConsoleOnlyError from_console;
  let old_rows := merge_sort created_le (select_where (fun g =>
        bool_decide (gr_tenant_id g = tenant_id) && bool_decide (gr_principal_sub g = principal_sub) &&
        bool_decide (gr_revoked_at g = None) && negb (ended now g)) (gd_delete_grants db)) in
  _ ← guard_or GrantNothingToRenew (negb (bool_decide (length old_rows = 0)));
  res_map (review_renewal catalog tenant_id expires_at reason creator_role now) old_rows.

Definition renew_delete_grants (catalog : CatalogDb) (tenant_id : uuid) (principal_sub renewed_by_sub : string)
  (expires_at : option datetime) (reason : option string) (from_console : bool)
  (creator_role : TenantRole) (fresh : uuid -> uuid) (now : datetime)
  : txn GrantsDb GrantError (list StandingGrant) :=
  reviewed ← read_db (renew_review catalog tenant_id principal_sub expires_at reason from_console
                        creator_role now);
  out ← read_db (fun db => renew_rows tenant_id renewed_by_sub now fresh reviewed (gd_delete_grants db));
  _ ← commit (on_table SandboxDeleteGrant (fun _ => fst out));
  mret (snd out).
End Service.

(** * Lookup *)

(** What it means that a grant covers a call. *)
Record covers (q : GrantQuery) (g : StandingGrant) : Prop := {
  cv_tenant : gr_tenant_id g = op_tenant_id (gq_operator q);
  cv_principal : gr_principal_sub g = op_sub (gq_operator q);
  cv_op : gr_op_id g = query_op_id q;
  cv_connector : gr_connector_id g = gq_connector_id q;
  cv_not_revoked : gr_revoked_at g = None;
  cv_not_expired : forall e, gr_expires_at g = Some e -> (gq_now q < e)%Z;
  cv_target :
    match gq_target q ≫= tg_id with
    | None => gr_target_id g = None /\ has_selector g = false
    | Some tid => gr_target_id g = Some tid \/
        (gr_target_id g = None /\ has_selector g = true /\
         selector_matches g (gq_target q ≫= tg_product) (gq_target q ≫= tg_name) = true)
    end;
}.

Lemma live_grant_scope_iff t sub op conn now g :
  live_grant_scope t sub op conn now g = true <->
  gr_tenant_id g = t /\ gr_principal_sub g = sub /\ gr_op_id g = op /\ gr_connector_id g = conn /\
  gr_revoked_at g = None /\ forall e, gr_expires_at g = Some e -> (now < e)%Z.
Proof.
  unfold live_grant_scope. rewrite !andb_true_iff, !bool_decide_eq_true.
  destruct (gr_expires_at g) as [e|].
  - rewrite Z.ltb_lt. split; [intros (((((?&?)&?)&?)&?)&?); split_and!; try done; by intros ? [= <-]|].
    intros (?&?&?&?&?&H). split_and!; auto.
  - split; [intros (((((?&?)&?)&?)&?)&?)|intros (?&?&?&?&?&_)]; split_and!; done.
Qed.

Lemma find_Some_intro {A} (p : A -> bool) l x : x ∈ l -> p x = true -> exists y, List.find p l = Some y.
Proof.
  intros Hx Hp. destruct (List.find p l) as [y|] eqn:Hf; [eauto|].
  rewrite find_None_iff in Hf. by rewrite Hf in Hp.
Qed.

(** The lookup finds a covering grant exactly when there is one, and a grant for
    the concrete target goes before a selector. *)
Lemma query_live_spec m q db :
  match query_live m q db with
  | Some g => g ∈ grant_table m db /\ covers q g /\
              (gr_target_id g = None -> forall g', g' ∈ grant_table m db -> covers q g' ->
                 gr_target_id g' = None)
  | None => forall g, g ∈ grant_table m db -> ~ covers q g
  end.
Proof.
  unfold query_live, target_fields, find_live_grant. set (scope := live_grant_scope _ _ _ _ _).
  assert (forall g, covers q g -> scope g = true) as Hscope.
  { intros g []. apply live_grant_scope_iff. done. }
  assert (forall g, scope g = true -> match gq_target q ≫= tg_id with
    | None => gr_target_id g = None /\ has_selector g = false
    | Some tid => gr_target_id g = Some tid \/ (gr_target_id g = None /\ has_selector g = true /\
         selector_matches g (gq_target q ≫= tg_product) (gq_target q ≫= tg_name) = true) end ->
    covers q g) as Hcov.
  { intros g Hs Ht. apply live_grant_scope_iff in Hs as (?&?&?&?&?&?). by constructor. }
  destruct (gq_target q ≫= tg_id) as [tid|] eqn:Htid.
  - destruct (List.find _ (grant_table m db)) as [g|] eqn:Hf.
    + apply find_Some_iff in Hf as [Hg Hp]. to_prop. split_and!; [done|by apply Hcov; auto|congruence].
    + rewrite find_None_iff in Hf.
      assert (forall g', g' ∈ grant_table m db -> covers q g' -> gr_target_id g' = None /\
        has_selector g' = true /\ selector_matches g' (gq_target q ≫= tg_product) (gq_target q ≫= tg_name) = true) as Hsel.
      { intros g' Hg' Hc. pose proof (cv_target _ _ Hc) as Ht. rewrite Htid in Ht. destruct Ht as [Ht|Ht]; [|done].
        specialize (Hf _ Hg'). by rewrite (Hscope _ Hc), bool_decide_true in Hf. }
      destruct (List.find _ (select_where _ _)) as [g|] eqn:Hs.
      * apply find_Some_iff in Hs as [Hg Hm]. apply elem_of_select in Hg as [Hg Hp]. to_prop.
        split_and!; [done|by apply Hcov; auto|]. intros _ g' Hg' Hc. by apply (Hsel g').
      * rewrite find_None_iff in Hs. intros g Hg Hc. destruct (Hsel _ Hg Hc) as (? & ? & Hm).
        rewrite Hs in Hm; [done|]. apply elem_of_select. split; [done|].
        rewrite (Hscope _ Hc), bool_decide_true by done. done.
  - destruct (List.find _ (grant_table m db)) as [g|] eqn:Hf.
    + apply find_Some_iff in Hf as [Hg Hp]. unfold pure_targetless in Hp. to_prop.
      split_and!; [done|by apply Hcov; auto|]. intros _ g' Hg' Hc. pose proof (cv_target _ _ Hc) as Ht.
      rewrite Htid in Ht. apply Ht.
    + rewrite find_None_iff in Hf. intros g Hg Hc. specialize (Hf _ Hg). pose proof (cv_target _ _ Hc) as Ht.
      rewrite Htid in Ht. destruct Ht as [Ht1 Ht2]. unfold pure_targetless in Hf.
      by rewrite (Hscope _ Hc), bool_decide_true, Ht2 in Hf.
Qed.

(** * Consultation *)

Section ConsultFacts.
Context (st : GrantSettings).
Context (binding : Operator -> EndpointDescriptor -> option Target -> string -> string -> json_dict ->
           option json_dict).
Context (effect : Operator -> EndpointDescriptor -> option Target -> string -> json_dict -> json).

(** What a positive answer means: the grant and its table, and the state after. *)
Record granted (q : GrantQuery) (db db' : GrantsDb) (id : uuid) : Prop := {
  gt_address : has_caller_address (ed_parameter_schema (gq_descriptor q)) = false;
  gt_grant : exists m g, g ∈ grant_table m db /\ covers q g /\ gr_id g = id /\
    (m = SandboxDeleteGrant <-> query_delete_sign st q <> None) /\
    (m = SandboxDeleteGrant -> gs_sandbox_mode st = true) /\
    (gq_record q = true -> ed_safety_level (gq_descriptor q) = "destructive" ->
       delete_grant_evidence binding effect q <> None);
  gt_tables : gd_grants db' = gd_grants db /\ gd_delete_grants db' = gd_delete_grants db;
  gt_ledger : if gq_record q
    then exists u, gd_ledger db' = gd_ledger db ++ [u] /\ gu_grant_id u = id /\
      gu_operator_sub u = op_sub (gq_operator q) /\ gu_tenant_id u = op_tenant_id (gq_operator q) /\
      gu_op_id u = query_op_id q /\ gu_connector_id u = gq_connector_id q /\
      gu_target_id u = gq_target q ≫= tg_id
    else gd_ledger db' = gd_ledger db;
}.

Lemma granted_intro m g q db evidence :
  has_caller_address (ed_parameter_schema (gq_descriptor q)) = false ->
  g ∈ grant_table m db -> covers q g -> (m = SandboxDeleteGrant <-> query_delete_sign st q <> None) ->
  (m = SandboxDeleteGrant -> gs_sandbox_mode st = true) ->
  (gq_record q = true -> ed_safety_level (gq_descriptor q) = "destructive" ->
       delete_grant_evidence binding effect q <> None) ->
  granted q db (if gq_record q then fst (use_grant m q g evidence db) else db) (gr_id g).
Proof.
  intros Ha Hg Hc Hm Hs He. constructor; [done| | |].
  - exists m, g. by split_and!.
  - by destruct (gq_record q).
  - destruct (gq_record q); [|done]. eexists. split; [reflexivity|]. simpl. split_and!; try done. by destruct Hc.
Qed.

Lemma consult_ordinary_spec q db :
  has_caller_address (ed_parameter_schema (gq_descriptor q)) = false ->
  match consult_ordinary_grant st q db with
  | (db', Some id) => granted q db db' id
  | (db', None) => db' = db
  end.
Proof.
  intros Ha. unfold consult_ordinary_grant. destruct (query_delete_sign st q) eqn:Hsign; [done|].
  pose proof (query_live_spec ServicePrincipalGrant q db) as Hl. destruct (query_live _ q db) as [g|]; [|done].
  destruct Hl as (Hg & Hc & _).
  assert (granted q db (if gq_record q then fst (use_grant ServicePrincipalGrant q g [] db) else db) (gr_id g)) as H.
  { apply granted_intro; try done. intros _ Hlevel. exfalso.
    unfold query_delete_sign, delete_grant_reason in Hsign. destruct (delete_shaped_refusal_reason _ _); [done|].
    simpl in Hsign. unfold delete_shaped_reason_by_descriptor in Hsign.
    by rewrite Hlevel, bool_decide_true in Hsign. }
  by destruct (gq_record q).
Qed.

Lemma consult_delete_spec q db :
  has_caller_address (ed_parameter_schema (gq_descriptor q)) = false -> gs_sandbox_mode st = true ->
  match consult_delete_grant st binding effect q db with
  | (db', Some id) => granted q db db' id
  | (db', None) => db' = db
  end.
Proof.
  intros Ha Hsb. unfold consult_delete_grant. destruct (query_delete_sign st q) eqn:Hsign; [|done].
  pose proof (query_live_spec SandboxDeleteGrant q db) as Hl. destruct (query_live _ q db) as [g|]; [|done].
  destruct Hl as (Hg & Hc & _). destruct (gq_record q) eqn:Hr; simpl.
  - destruct (delete_grant_evidence binding effect q) as [ev|] eqn:Hev; [|done].
    pose proof (granted_intro SandboxDeleteGrant g q db ev) as H. rewrite Hr in H. apply H; try done.
    + by rewrite Hsign.
    + by rewrite Hev.
  - pose proof (granted_intro SandboxDeleteGrant g q db []) as H. rewrite Hr in H. apply H; try done.
    by rewrite Hsign.
Qed.

Lemma consult_spec q db :
  match consult_and_record_grant st binding effect q db with
  | (db', Some id) => granted q db db' id
  | (db', None) => db' = db
  end.
Proof.
  unfold consult_and_record_grant. simpl. destruct (has_caller_address _) eqn:Ha; [done|].
  destruct (gs_sandbox_mode st) eqn:Hsb; [|by apply consult_ordinary_spec].
  pose proof (consult_delete_spec q db Ha Hsb) as Hd.
  destruct (consult_delete_grant _ _ _ q db) as [db1 [id|]]; [done|]. subst. by apply consult_ordinary_spec.
Qed.

(** A standing grant clears a call only as far as it was reviewed: the grant is
    live and names exactly the caller, the operation, the connector and the target
    of the call; the operation takes no address from the caller; an operation with
    a delete sign is cleared only in sandbox mode, only by a delete grant, and, for
    a destructive one, only with its evidence; the use is written to the ledger,
    once, under the caller and the grant.  Without a grant nothing is written. *)
Theorem grant_use_is_authorised q db db' r :
  consult_and_record_grant st binding effect q db = (db', r) ->
  match r with
  | Some id => granted q db db' id /\
      (gs_sandbox_mode st = false -> query_delete_sign st q = None /\
         ed_safety_level (gq_descriptor q) <> "destructive")
  | None => db' = db
  end.
Proof.
  intros H. pose proof (consult_spec q db) as Hs. rewrite H in Hs. destruct r as [id|]; [|done].
  split; [done|]. intros Hoff. destruct Hs as [_ (m & g & _ & _ & _ & Hm & Hsb & _) _ _].
  assert (query_delete_sign st q = None) as Hn.
  { destruct m.
    - destruct (query_delete_sign st q); [|done]. by assert (ServicePrincipalGrant = SandboxDeleteGrant) by (by apply Hm).
    - rewrite Hsb in Hoff; done. }
  split; [done|]. intros Hlevel. unfold query_delete_sign, delete_grant_reason in Hn.
  destruct (delete_shaped_refusal_reason _ _); [done|]. simpl in Hn.
  unfold delete_shaped_reason_by_descriptor in Hn. by rewrite Hlevel, bool_decide_true in Hn.
Qed.
End ConsultFacts.

(** * The tables over time *)

Definition all_grants (db : GrantsDb) : list StandingGrant := gd_grants db ++ gd_delete_grants db.

(** One table: unique ids, one active grant per key, a target or a selector. *)
Record table_ok (rows : list StandingGrant) : Prop := {
  tk_ids : NoDup (gr_id <$> rows);
  tk_keys : NoDup (grant_key <$> select_where active rows);
  tk_shape : forall g, g ∈ rows -> gr_target_id g <> None -> has_selector g = false;
}.

(** A delete grant always ends, at most thirty days after it was made. *)
Definition delete_grant_bounded (g : StandingGrant) : Prop :=
  exists e, gr_expires_at g = Some e /\ (e <= gr_created_at g + SANDBOX_DELETE_GRANT_MAX_DAYS * day)%Z.

(** An update that keeps the key and only takes rows out of the active ones. *)
Definition retires (f : StandingGrant -> StandingGrant) : Prop :=
  forall g, gr_id (f g) = gr_id g /\ grant_key (f g) = grant_key g /\ active (f g) = false /\
            gr_expires_at (f g) = gr_expires_at g /\ gr_created_at (f g) = gr_created_at g /\
            (gr_revoked_at g <> None -> gr_revoked_at (f g) <> None).

Lemma set_replaced_retires now : retires (set_replaced now).
Proof. intros g. split_and!; try done. unfold active. simpl. apply andb_false_r. Qed.

Lemma set_revoked_retires now sub reason : retires (set_revoked now sub reason).
Proof. intros g. split_and!; done. Qed.

Lemma retire_select p f rows :
  retires f -> select_where active (update_where p f rows) = select_where (fun g => active g && negb (p g)) rows.
Proof.
  intros Hf. unfold select_where, update_where. induction rows as [|g rows IH]; [done|].
  rewrite fmap_cons. cbn [List.filter]. destruct (p g) eqn:Hp.
  - destruct (Hf g) as (_ & _ & -> & _). by rewrite andb_false_r.
  - rewrite andb_true_r, IH. done.
Qed.

Lemma has_selector_key g g' : grant_key g = grant_key g' -> has_selector g = has_selector g'.
Proof. unfold grant_key, has_selector. by intros [= _ _ _ _ _ -> ->]. Qed.

Lemma retire_ok p f rows : retires f -> table_ok rows -> table_ok (update_where p f rows).
Proof.
  intros Hf [Hid Hkey Hshape]. constructor.
  - rewrite update_where_keys; [done|]. intros g. apply Hf.
  - rewrite retire_select by done. clear -Hkey. induction rows as [|g rows IH]; [done|]. unfold select_where in *. simpl in *.
    destruct (active g); simpl in *; [|by apply IH]. apply NoDup_cons in Hkey as [Hg Hkey].
    destruct (p g); simpl; [by apply IH|]. apply NoDup_cons. split; [|by apply IH].
    intros (g' & He & Hin)%list_elem_of_fmap. apply Hg. rewrite He. apply list_elem_of_fmap_2.
    apply elem_of_select in Hin as [Hin Hp]. apply elem_of_select. to_prop. done.
  - intros g. rewrite elem_of_update. intros (g0 & Hg0 & ->). destruct (p g0); [|by apply Hshape].
    destruct (Hf g0) as (_ & Hk & _). rewrite (has_selector_key _ _ Hk). intros Ht. apply Hshape; [done|].
    unfold grant_key in Hk. injection Hk as _ _ _ _ Heq _ _. by rewrite <- Heq.
Qed.

(** The row of a request is new, active and of one shape. *)
Lemma insert_ok row now rows rows' :
  table_ok rows -> active row = true -> (gr_target_id row <> None -> has_selector row = false) ->
  insert_grant row now rows = Ok rows' -> table_ok rows'.
Proof.
  intros Hok Hact Hsh H. unfold insert_grant in H. invert_ok.
  apply (retire_ok (fun g => bool_decide (grant_key g = grant_key row) && active g && ended now g))
    with (f := set_replaced now) in Hok; [|apply set_replaced_retires].
  change (table_ok (mark_ended_grants_replaced row now rows)) in Hok.
  revert Hok H H0. generalize (mark_ended_grants_replaced row now rows). clear rows. intros rows [Hid Hkey Hshape] Hdup Hidx.
  apply negb_true_iff in Hidx, Hdup. unfold violates_index in Hidx. apply orb_false_iff in Hidx as [Hpk Hidx].
  constructor.
  - rewrite fmap_app. apply NoDup_snoc; [done|]. intros (g & He & Hg)%list_elem_of_fmap.
    apply not_true_iff_false in Hpk as []. apply (existsb_intro _ _ g); [done|]. by rewrite bool_decide_true.
  - unfold select_where. rewrite List.filter_app. simpl. rewrite Hact, fmap_app. apply NoDup_snoc; [done|].
    intros (g & He & Hg)%list_elem_of_fmap. apply elem_of_select in Hg as [Hg Hga].
    pose proof (has_selector_key _ _ He) as Hsel. unfold grant_key in He.
    injection He as Ht Hp Ho Hc Htg Hpr Hnp.
    destruct (has_selector row) eqn:Hs.
    + simpl in Hdup. apply not_true_iff_false in Hdup as []. apply (existsb_intro _ _ g); [done|].
      assert (gr_target_id row = None) as Hn by (apply dec_stable; intros Hn; by apply Hsh in Hn).
      rewrite !bool_decide_true by congruence. done.
    + apply not_true_iff_false in Hidx as []. apply (existsb_intro _ _ g); [done|].
      rewrite Hga, Ht, Hp, Ho, Hc. unfold pure_targetless. rewrite Hs, <- Hsel, <- Htg.
      repeat case_bool_decide; done.
  - intros g [Hg| ->%list_elem_of_singleton]%elem_of_app; [by apply Hshape|done].
Qed.

(** What one operation does to a table: it appends rows, and it may retire rows. *)
Record evolves (new : list uuid) (rows rows' : list StandingGrant) : Prop := {
  ev_ok : table_ok rows';
  ev_ids : gr_id <$> rows' = (gr_id <$> rows) ++ new;
  ev_revoked : forall g, g ∈ rows -> gr_revoked_at g <> None ->
    exists g', g' ∈ rows' /\ gr_id g' = gr_id g /\ gr_revoked_at g' <> None;
}.

Lemma retire_evolves p f rows : retires f -> table_ok rows -> evolves [] rows (update_where p f rows).
Proof.
  intros Hf Hok. constructor.
  - by apply retire_ok.
  - rewrite app_nil_r. apply update_where_keys. intros g. apply Hf.
  - intros g Hg Hr. exists (if p g then f g else g). split; [apply elem_of_update; eauto|].
    destruct (Hf g) as (? & _ & _ & _ & _ & ?). destruct (p g); auto.
Qed.

Lemma evolves_trans new1 new2 a b c : evolves new1 a b -> evolves new2 b c -> evolves (new1 ++ new2) a c.
Proof.
  intros [_ I1 R1] [O2 I2 R2]. constructor; [done|by rewrite I2, I1, app_assoc|].
  intros g Hg Hr. destruct (R1 g Hg Hr) as (g1 & Hg1 & <- & Hr1). by apply R2.
Qed.

Lemma insert_evolves row now rows rows' :
  table_ok rows -> active row = true -> (gr_target_id row <> None -> has_selector row = false) ->
  insert_grant row now rows = Ok rows' -> evolves [gr_id row] rows rows'.
Proof.
  intros Hok Ha Hs H. pose proof (insert_ok _ _ _ _ Hok Ha Hs H) as Hok'.
  unfold insert_grant in H. invert_ok.
  destruct (retire_evolves (fun g => bool_decide (grant_key g = grant_key row) && active g && ended now g)
              (set_replaced now) rows (set_replaced_retires now) Hok) as [_ I R].
  constructor; [done| |].
  - rewrite fmap_app. unfold mark_ended_grants_replaced. by rewrite I, app_nil_r.
  - intros g Hg Hr. destruct (R g Hg Hr) as (g' & Hg' & ? & ?). exists g'. split; [|done]. apply elem_of_app. by left.
Qed.

Lemma revoke_rows_evolves t id now sub reason rows :
  table_ok rows -> evolves [] rows (fst (revoke_rows t id now sub reason rows)).
Proof. intros Hok. apply retire_evolves; [apply set_revoked_retires|done]. Qed.

(** Retiring keeps the dates, so the bound of a delete grant stays. *)
Lemma retire_bounded p f rows :
  retires f -> (forall g, g ∈ rows -> delete_grant_bounded g) ->
  forall g, g ∈ update_where p f rows -> delete_grant_bounded g.
Proof.
  intros Hf Hb g. rewrite elem_of_update. intros (g0 & Hg0 & ->). specialize (Hb _ Hg0).
  destruct (p g0); [|done]. destruct (Hf g0) as (_ & _ & _ & He & Hc & _). unfold delete_grant_bounded.
  by rewrite He, Hc.
Qed.

Lemma insert_bounded row now rows rows' :
  (forall g, g ∈ rows -> delete_grant_bounded g) -> delete_grant_bounded row ->
  insert_grant row now rows = Ok rows' -> forall g, g ∈ rows' -> delete_grant_bounded g.
Proof.
  intros Hb Hr H. unfold insert_grant in H. invert_ok. intros g [Hg| ->%list_elem_of_singleton]%elem_of_app; [|done].
  by eapply retire_bounded; [apply set_replaced_retires| |exact Hg].
Qed.

Lemma payload_shape t sub p id now :
  payload_ok p -> gr_target_id (new_grant t sub p id now) <> None -> has_selector (new_grant t sub p id now) = false.
Proof. intros Hp Ht. destruct (Hp Ht) as [H1 H2]. unfold has_selector. simpl. by rewrite H1, H2. Qed.

Lemma review_bounded st floors installed missing catalog t p console role now sub id :
  review st floors installed missing catalog t p console role now = Ok SandboxDeleteGrant ->
  delete_grant_bounded (new_grant t sub p id now).
Proof.
  unfold review. intros H. invert_ok. destruct (delete_grant_reason _ _ _); [|done]. invert_ok.
  match goal with V : validate_delete_grant_expires_at _ _ = Ok _ |- _ => unfold validate_delete_grant_expires_at in V;
    destruct (gp_expires_at p) as [e|] eqn:He; [|done]; apply guard_or_Ok in V; apply Z.leb_le in V;
    exists e; done end.
Qed.

Lemma renew_rows_evolves t sub now fresh reviewed rows out :
  table_ok rows -> (forall x, x ∈ reviewed -> payload_ok (snd x)) ->
  renew_rows t sub now fresh reviewed rows = Ok out ->
  evolves (fresh <$> (fst <$> reviewed)) rows (fst out).
Proof.
  revert rows out. induction reviewed as [|[old p] reviewed IH]; intros rows out Hok Hp H; simpl in H.
  - injection H as <-. constructor; [done|by rewrite app_nil_r|eauto].
  - pose proof (revoke_rows_evolves t old now sub (Some "renewed") rows Hok) as Hrev. simpl in Hrev.
    invert_ok. match goal with I : insert_grant _ _ _ = Ok _ |- _ => apply insert_evolves in I; [|apply Hrev|done|] end.
    2:{ apply payload_shape. apply (Hp (old, p)). left. }
    match goal with R : renew_rows _ _ _ _ _ _ = Ok ?o |- _ => destruct o as [rows' renewed]; apply IH in R end.
    + invert_ok. apply (evolves_trans [] _ _ _ _ Hrev). by eapply (evolves_trans [fresh old]).
    + by eapply ev_ok.
    + intros y Hy. apply Hp. by right.
Qed.

Lemma renew_rows_bounded t sub now fresh reviewed rows out :
  (forall g, g ∈ rows -> delete_grant_bounded g) ->
  (forall x id, x ∈ reviewed -> delete_grant_bounded (new_grant t sub (snd x) id now)) ->
  renew_rows t sub now fresh reviewed rows = Ok out -> forall g, g ∈ fst out -> delete_grant_bounded g.
Proof.
  revert rows out. induction reviewed as [|[old p] reviewed IH]; intros rows out Hb Hp H; simpl in H.
  - by injection H as <-.
  - invert_ok. match goal with R : renew_rows _ _ _ _ _ _ = Ok ?o |- _ => destruct o as [rows' renewed] end.
    invert_ok. eapply (IH _ (rows', renewed)); [|intros y id Hy; apply Hp; by right|done]. intros g.
    eapply insert_bounded; [| |done].
    + by apply retire_bounded; [apply set_revoked_retires|].
    + apply (Hp (old, p)). left.
Qed.

(** ** Reachable states *)

Record grants_inv (db : GrantsDb) : Prop := {
  gi_grants : table_ok (gd_grants db);
  gi_delete : table_ok (gd_delete_grants db);
  gi_disjoint : forall id, id ∈ gr_id <$> gd_grants db -> id ∉ gr_id <$> gd_delete_grants db;
  gi_bounded : forall g, g ∈ gd_delete_grants db -> delete_grant_bounded g;
}.

(** One operation, under any settings.  Generated ids are new. *)
Inductive grants_step : GrantsDb -> GrantsDb -> Prop :=
| gst_create st floors installed missing catalog t sub p console role id now db db' r :
    payload_ok p -> id ∉ gr_id <$> all_grants db ->
    create st floors installed missing catalog t sub p console role id now db = (db', r) -> grants_step db db'
| gst_revoke st t id sub reason now db : grants_step db (fst (revoke st t id sub reason now db))
| gst_renew st floors installed missing catalog t who sub e reason console role fresh now db db' r :
    (forall id, fresh id ∉ gr_id <$> all_grants db) ->
    renew_delete_grants st floors installed missing catalog t who sub e reason console role fresh now db = (db', r) ->
    grants_step db db'
| gst_consult st binding effect q db :
    grants_step db (fst (consult_and_record_grant st binding effect q db)).

(** An id whose grant was revoked. *)
Definition revoked (id : uuid) (db : GrantsDb) : Prop :=
  exists g, g ∈ all_grants db /\ gr_id g = id /\ gr_revoked_at g <> None.

(** What every operation keeps. *)
Definition keeps (db db' : GrantsDb) : Prop :=
  grants_inv db' /\ forall id, revoked id db -> revoked id db'.

Lemma keeps_refl db : grants_inv db -> keeps db db.
Proof. by split. Qed.

Lemma keeps_same db db' :
  grants_inv db -> gd_grants db' = gd_grants db -> gd_delete_grants db' = gd_delete_grants db -> keeps db db'.
Proof.
  intros [? ? ? ?] H1 H2. split; [constructor; by rewrite ?H1, ?H2|].
  intros id (g & Hg & ?). exists g. unfold all_grants in *. by rewrite H1, H2.
Qed.

Lemma keeps_table m db rows new :
  grants_inv db -> evolves new (grant_table m db) rows -> (forall id, id ∈ new -> id ∉ gr_id <$> all_grants db) ->
  (m = SandboxDeleteGrant -> forall g, g ∈ rows -> delete_grant_bounded g) ->
  keeps db (on_table m (fun _ => rows) db).
Proof.
  intros [Hg Hd Hdis Hb] [Hok Hids Hrev] Hnew Hbd. unfold all_grants in Hnew. setoid_rewrite fmap_app in Hnew.
  setoid_rewrite not_elem_of_app in Hnew. split.
  - destruct m; constructor; simpl in *; auto; intros id; rewrite Hids, elem_of_app.
    + intros [Hi|Hi]; [by apply Hdis|by apply Hnew].
    + intros Hi [Hj|Hj]; [by apply (Hdis id)|by destruct (Hnew id Hj)].
  - intros id (g & [Hin|Hin]%elem_of_app & <- & Hr); destruct m; simpl in *; unfold revoked, all_grants; simpl.
    + destruct (Hrev g Hin Hr) as (g' & ? & ? & ?). exists g'. rewrite elem_of_app. auto.
    + exists g. rewrite elem_of_app. auto.
    + exists g. rewrite elem_of_app. auto.
    + destruct (Hrev g Hin Hr) as (g' & ? & ? & ?). exists g'. rewrite elem_of_app. auto.
Qed.

Lemma create_keeps st floors installed missing catalog t sub p console role id now db db' r :
  grants_inv db -> payload_ok p -> id ∉ gr_id <$> all_grants db ->
  create st floors installed missing catalog t sub p console role id now db = (db', r) -> keeps db db'.
Proof.
  intros Hinv Hp Hid. unfold create. rewrite lift_bind.
  destruct (review _ _ _ _ _ _ _ _ _ _) as [m|] eqn:Hr; [|intros [= <- _]; by apply keeps_refl].
  rewrite read_bind. destruct (insert_grant _ _ _) as [rows|] eqn:Hi; [|intros [= <- _]; by apply keeps_refl].
  rewrite commit_bind. intros [= <- _].
  assert (table_ok (grant_table m db)) as Hok by (destruct m; apply Hinv).
  apply (keeps_table m db rows [id]); [done| | |].
  - by apply (insert_evolves (new_grant t sub p id now) now); [| |apply payload_shape|].
  - by intros i ->%list_elem_of_singleton.
  - intros ->. eapply insert_bounded; [apply Hinv| |done]. by eapply review_bounded.
Qed.

Lemma revoke_in_keeps models t id sub reason now db :
  grants_inv db -> keeps db (fst (revoke_in models t id sub reason now db)).
Proof.
  revert db. induction models as [|m models IH]; intros db Hinv; simpl; [by apply keeps_refl|].
  assert (table_ok (grant_table m db)) as Hok by (destruct m; apply Hinv).
  assert (keeps db (on_table m (fun _ => update_where (revocable t id) (set_revoked now sub reason) (grant_table m db)) db)) as Hk.
  { apply (keeps_table m db _ []); [done| |by intros ? ?%not_elem_of_nil|].
    - by apply (revoke_rows_evolves t id now sub reason).
    - intros ->. apply retire_bounded; [apply set_revoked_retires|apply Hinv]. }
  destruct (existsb _ _); [done|]. destruct Hk as [Hk1 Hk2]. destruct (IH _ Hk1) as [H1 H2]. split; auto.
Qed.

Lemma renewal_payload_ok e reason old :
  (gr_target_id old <> None -> has_selector old = false) -> payload_ok (renewal_payload e reason old).
Proof.
  intros Hs Ht. simpl in *. specialize (Hs Ht). unfold has_selector in Hs. apply orb_false_iff in Hs as [H1 H2].
  apply negb_false_iff, bool_decide_eq_true in H1, H2. done.
Qed.

(** Every reviewed payload repeats a stored delete grant and passed the review. *)
Lemma renew_review_spec st floors installed missing catalog t who e reason console role now db reviewed x :
  renew_review st floors installed missing catalog t who e reason console role now db = Ok reviewed ->
  x ∈ reviewed ->
  exists old, old ∈ gd_delete_grants db /\ x = (gr_id old, renewal_payload e reason old) /\
    review st floors installed missing catalog t (renewal_payload e reason old) true role now = Ok SandboxDeleteGrant.
Proof.
  unfold renew_review. intros H Hx. invert_ok.
  match goal with R : res_map _ _ = Ok _ |- _ => apply res_map_Ok in R; rename R into HR end.
  apply list_elem_of_lookup in Hx as [i Hi]. destruct (Forall2_lookup_r _ _ _ _ _ HR Hi) as (old & Hold & Hrev).
  exists old. unfold review_renewal in Hrev. invert_ok. to_prop. subst. split; [|done].
  apply list_elem_of_lookup_2 in Hold. rewrite merge_sort_Permutation in Hold.
  apply elem_of_select in Hold as [Hold _]. exact Hold.
Qed.

Lemma renew_keeps st floors installed missing catalog t who sub e reason console role fresh now db db' r :
  grants_inv db -> (forall id, fresh id ∉ gr_id <$> all_grants db) ->
  renew_delete_grants st floors installed missing catalog t who sub e reason console role fresh now db = (db', r) ->
  keeps db db'.
Proof.
  intros Hinv Hfresh. unfold renew_delete_grants. rewrite read_bind.
  destruct (renew_review _ _ _ _ _ _ _ _ _ _ _ _ _) as [reviewed|] eqn:Hr; [|intros [= <- _]; by apply keeps_refl].
  rewrite read_bind. destruct (renew_rows _ _ _ _ _ _) as [out|] eqn:Ho; [|intros [= <- _]; by apply keeps_refl].
  rewrite commit_bind. intros [= <- _].
  apply (keeps_table SandboxDeleteGrant db (fst out) (fresh <$> (fst <$> reviewed))); [done| | |].
  - eapply renew_rows_evolves; [apply Hinv| |done]. intros x Hx.
    destruct (renew_review_spec _ _ _ _ _ _ _ _ _ _ _ _ _ _ _ Hr Hx) as (old & Hold & -> & _).
    apply renewal_payload_ok. by apply (tk_shape _ (gi_delete _ Hinv)).
  - intros id (y & -> & _)%list_elem_of_fmap. apply Hfresh.
  - intros _. eapply renew_rows_bounded; [apply Hinv| |done]. intros x id Hx.
    destruct (renew_review_spec _ _ _ _ _ _ _ _ _ _ _ _ _ _ _ Hr Hx) as (old & Hold & -> & Hrev).
    by eapply review_bounded.
Qed.

Lemma consult_tables st binding effect q db :
  gd_grants (fst (consult_and_record_grant st binding effect q db)) = gd_grants db /\
  gd_delete_grants (fst (consult_and_record_grant st binding effect q db)) = gd_delete_grants db.
Proof.
  pose proof (consult_spec st binding effect q db) as H.
  destruct (consult_and_record_grant _ _ _ q db) as [db' [id|]]; [apply H|by subst].
Qed.

Lemma step_keeps db db' : grants_inv db -> grants_step db db' -> keeps db db'.
Proof.
  intros Hinv Hs. destruct Hs.
  - by eapply create_keeps.
  - by apply revoke_in_keeps.
  - by eapply renew_keeps.
  - by apply keeps_same; [|apply consult_tables..].
Qed.

Definition grants_reach : relation GrantsDb := rtc grants_step.
Definition no_grants : GrantsDb := {| gd_grants := []; gd_delete_grants := []; gd_ledger := [] |}.

Lemma no_grants_inv : grants_inv no_grants.
Proof.
  assert (table_ok []) as H by (constructor; [by apply NoDup_nil|by apply NoDup_nil|by intros ? ?%not_elem_of_nil]).
  constructor; try done; simpl; by intros ? ?%not_elem_of_nil.
Qed.

Lemma reach_keeps db db' : grants_reach db db' -> grants_inv db -> keeps db db'.
Proof.
  induction 1 as [db|db db1 db2 Hs _ IH]; intros Hinv; [by apply keeps_refl|].
  destruct (step_keeps _ _ Hinv Hs) as [H1 K1]. destruct (IH H1) as [H2 K2]. split; auto.
Qed.

(** The grant tables of every reachable state: in each table there is at most
    one grant per caller, operation, connector and target (or selector) that is
    neither revoked nor replaced, ids are never reused, and every delete grant
    ends at most thirty days after it was made, also after renewals. *)
Theorem one_active_grant db :
  grants_reach no_grants db ->
  (forall m, NoDup (grant_key <$> select_where active (grant_table m db))) /\
  NoDup (gr_id <$> all_grants db) /\
  (forall g, g ∈ gd_delete_grants db -> exists e, gr_expires_at g = Some e /\
     (e <= gr_created_at g + SANDBOX_DELETE_GRANT_MAX_DAYS * day)%Z).
Proof.
  intros Hr. destruct (reach_keeps _ _ Hr no_grants_inv) as [[Hg Hd Hdis Hb] _]. split_and!; [|..|done].
  - intros []; [apply Hg|apply Hd].
  - unfold all_grants. rewrite fmap_app. apply NoDup_app. split_and!; [apply Hg|done|apply Hd].
Qed.

Lemma revoke_in_revoked models t id sub reason now db db' :
  revoke_in models t id sub reason now db = (db', true) -> revoked id db'.
Proof.
  revert db. induction models as [|m models IH]; intros db; simpl; [done|].
  destruct (existsb _ _) eqn:He; [|apply IH]. intros [= <-].
  apply existsb_exists in He as (g & Hg & Hp). rewrite <- list_elem_of_In in Hg.
  exists (set_revoked now sub reason g). split_and!; [| |done].
  - assert (set_revoked now sub reason g ∈ update_where (revocable t id) (set_revoked now sub reason) (grant_table m db)).
    { apply elem_of_update. exists g. by rewrite Hp. }
    unfold all_grants. destruct m; simpl in *; apply elem_of_app; auto.
  - unfold revocable in Hp. by to_prop.
Qed.

(** In a reachable state an id names one grant. *)
Lemma revoked_not_covering db id q m g :
  grants_inv db -> revoked id db -> g ∈ grant_table m db -> covers q g -> gr_id g <> id.
Proof.
  intros [Hg Hd Hdis _] (g0 & Hg0 & <- & Hr) Hin Hc He.
  assert (g = g0) as ->; [|by destruct Hc].
  apply (key_inj gr_id (all_grants db)); [| |done|done].
  - unfold all_grants. rewrite fmap_app. apply NoDup_app. split_and!; [apply Hg|done|apply Hd].
  - unfold all_grants. apply elem_of_app. destruct m; auto.
Qed.

(** Revoking a grant is final: once it succeeded, no later call is cleared by
    that grant, whatever is created, renewed, revoked or used afterwards, and
    under whatever settings. *)
Theorem revocation_is_final st t id sub reason now db db1 db2 st' binding effect q :
  grants_reach no_grants db -> revoke st t id sub reason now db = (db1, true) -> grants_reach db1 db2 ->
  snd (consult_and_record_grant st' binding effect q db2) <> Some id.
Proof.
  intros Hr Hrev Hr2. destruct (reach_keeps _ _ Hr no_grants_inv) as [Hinv _].
  pose proof (revoke_in_keeps (grant_models st) t id sub reason now db Hinv) as [Hinv1 _].
  unfold revoke in Hrev. rewrite Hrev in Hinv1. apply revoke_in_revoked in Hrev.
  destruct (reach_keeps _ _ Hr2 Hinv1) as [Hinv2 K]. apply K in Hrev.
  pose proof (consult_spec st' binding effect q db2) as Hs.
  destruct (consult_and_record_grant _ _ _ q db2) as [db3 [id'|]]; [|done]. simpl. intros [= ->].
  destruct Hs as [_ (m & g & Hg & Hc & He & _) _ _]. by eapply revoked_not_covering.
Qed.

(** ** Concrete runs *)

Definition w_settings : GrantSettings := {|
  gs_sandbox_mode := false; gs_delete_shaped_patterns := DELETE_SHAPED_OP_ID_PATTERNS;
  gs_delete_grants_from_api := false |}.
Definition w_catalog : CatalogDb := {| cd_descriptors := []; cd_settings := []; cd_overrides := [] |}.
Definition w_payload : ServiceGrantCreate := {|
  gp_principal_sub := "svc"; gp_op_id := "gh.issue.create"; gp_connector_id := "gh-rest-3";
  gp_target_id := None; gp_target_product := None; gp_target_name_pattern := Some "repo-*";
  gp_reason := "build"; gp_expires_at := None |}.
Definition w_create : GrantsDb * res GrantError StandingGrant :=
  create w_settings ∅ [] (fun _ _ => false) w_catalog "t" "ann" w_payload false OPERATOR "g1" 0 no_grants.
Definition w_descriptor : EndpointDescriptor := {|
  ed_tenant_id := None;
  ed_key := {| k_product := "gh"; k_version := "3"; k_impl_id := "gh-rest"; k_op_id := "gh.issue.create" |};
  ed_is_enabled := true; ed_owner_package := None; ed_method := None; ed_tags := [];
  ed_safety_level := "caution"; ed_requires_approval := true; ed_parameter_schema := JDict [] |}.
Definition w_operator : Operator := {|
  op_sub := "svc"; op_tenant_id := "t"; op_tenant_role := OPERATOR; op_principal_kind := SERVICE;
  op_client_id := None; op_platform_admin := false; op_web_session := false; op_name := None; op_approver := false; op_self_approver := false;
  op_tenant_chosen := true; op_auth_time := None; op_sid := None; op_acr := None; op_azp := None |}.
Definition w_query : GrantQuery := {|
  gq_operator := w_operator; gq_descriptor := w_descriptor;
  gq_target := Some {| tg_id := Some "r1"; tg_product := Some "gh"; tg_name := Some "repo-a" |};
  gq_connector_id := "gh-rest-3"; gq_preview_hash := None; gq_params := None; gq_record := true; gq_now := 5 |}.
Definition w_binding : Operator -> EndpointDescriptor -> option Target -> string -> string -> json_dict ->
  option json_dict := fun _ _ _ _ h _ => Some [("preview_hash", JStr h)].
Definition w_effect : Operator -> EndpointDescriptor -> option Target -> string -> json_dict -> json :=
  fun _ _ _ _ p => JDict p.

Lemma w_reach : grants_reach no_grants (fst w_create).
Proof.
  apply rtc_once.
  eapply (gst_create w_settings ∅ [] (fun _ _ => false) w_catalog "t" "ann" w_payload false OPERATOR "g1" 0);
    [by intros [] | by apply not_elem_of_nil | vm_compute; reflexivity].
Qed.

Lemma grant_use_is_authorised_witness :
  exists db', granted w_settings w_binding w_effect w_query (fst w_create) db' "g1".
Proof.
  eexists. apply (grant_use_is_authorised w_settings w_binding w_effect w_query (fst w_create) _ (Some "g1")).
  vm_compute. reflexivity.
Defined.

Lemma one_active_grant_witness :
  grants_reach no_grants (fst w_create) /\ NoDup (gr_id <$> all_grants (fst w_create)).
Proof. split; [apply w_reach|]. apply (one_active_grant (fst w_create)). apply w_reach. Defined.

Lemma revocation_is_final_witness :
  snd (consult_and_record_grant w_settings w_binding w_effect w_query (fst w_create)) = Some "g1" /\
  snd (consult_and_record_grant w_settings w_binding w_effect w_query
         (fst (revoke w_settings "t" "g1" "ann" None 3 (fst w_create)))) <> Some "g1".
Proof.
  split; [vm_compute; reflexivity|].
  apply (revocation_is_final w_settings "t" "g1" "ann" None 3 (fst w_create)
           (fst (revoke w_settings "t" "g1" "ann" None 3 (fst w_create)))).
  - apply w_reach.
  - vm_compute. reflexivity.
  - apply rtc_refl.
Defined.
