(* ===== verification/PolicyGate.v ===== *)
(** The policy gate of a dispatch ([policy_gate] of [operations/_validate.py]) with
    the read scopes of service principals ([operations/service_read_scopes.py]).

    The gate combines the role floors, the permission resolver, the read scopes and
    the standing grants.  What it needs from the grants is the interface
    [GrantAuthority] with its laws [GrantAuthorityLaws]; the theorems are proved
    against the interface, and the component [ServiceGrants] is an instance. *)

From stdpp Require Import pretty.
From S2P Require Import Prelude Json Glob Identity Permissions Catalog OpPolicy Lookup ServiceGrants.

(** * Read scopes *)

Record ReadScopeEntry := {
  rs_target_id : option uuid;
  rs_target_product : option string;
  rs_target_name_pattern : option string;
  rs_no_target : bool;
}.

Record ServicePrincipalReadScope := {
  sr_tenant_id : uuid;
  sr_principal_sub : string;
  sr_entries : list ReadScopeEntry;
  sr_set_by_sub : string;
  sr_set_at : datetime;
}.

Inductive ReadScopeValidationError := scope_wildcard (principal_sub : string).

Definition scope_of (tenant_id : uuid) (principal_sub : string) (r : ServicePrincipalReadScope) : bool :=
  bool_decide (sr_tenant_id r = tenant_id) && bool_decide (sr_principal_sub r = principal_sub).

Definition get_read_scope (tenant_id : uuid) (principal_sub : string)
  (rows : list ServicePrincipalReadScope) : option ServicePrincipalReadScope :=
  List.find (scope_of tenant_id principal_sub) rows.

(** [ServiceReadScopeService.set]: insert, or update the one row. *)
Definition set_read_scope (tenant_id : uuid) (principal_sub set_by_sub : string)
  (entries : list ReadScopeEntry) (now : datetime)
  : txn (list ServicePrincipalReadScope) ReadScopeValidationError ServicePrincipalReadScope :=
  _ ← lift_res (guard_or (scope_wildcard principal_sub)
                  (negb (has_char "*" principal_sub || has_char "?" principal_sub)));
  old ← read_db (fun rows => Ok (get_read_scope tenant_id principal_sub rows));
  let row := {| sr_tenant_id := tenant_id; sr_principal_sub := principal_sub; sr_entries := entries;
                sr_set_by_sub := set_by_sub; sr_set_at := now |} in
  _ ← commit (fun rows => match old with
        | None => rows ++ [row]
        | Some _ => update_where (scope_of tenant_id principal_sub) (fun _ => row) rows
        end);
  mret row.

(** [ServiceReadScopeService.clear]. *)
Definition clear_read_scope (tenant_id : uuid) (principal_sub : string)
  (rows : list ServicePrincipalReadScope) : list ServicePrincipalReadScope * bool :=
  match get_read_scope tenant_id principal_sub rows with
  | None => (rows, false)
  | Some _ => (delete_where (scope_of tenant_id principal_sub) rows, true)
  end.

Definition entry_matches (target_id : option uuid) (target_product target_name : option string)
  (e : ReadScopeEntry) : bool :=
  if rs_no_target e then false
  else match rs_target_id e with
       | Some tid => bool_decide (target_id = Some tid)
       | None =>
           (bool_decide (rs_target_product e = None) || bool_decide (rs_target_product e = target_product)) &&
           match rs_target_name_pattern e with
           | None => true
           | Some pattern => match target_name with Some n => fnmatch n pattern | None => false end
           end
       end.

Definition HOW_TO_CHANGE : string :=
  "a person can change it with `meho service-principals read-scope set`".

Definition opt_repr (o : option string) : string := match o with Some s => py_repr s | None => "None" end.

Definition read_scope_denial (rows : list ServicePrincipalReadScope) (operator : Operator)
  (target : option Target) : option string :=
  match get_read_scope (op_tenant_id operator) (op_sub operator) rows with
  | None => None
  | Some row =>
      match target with
      | None =>
          if existsb rs_no_target (sr_entries row) then None
          else Some (READ_SCOPE_DENIED +:+ ": this call has no target, and the read scope of service principal " +:+
                     py_repr (op_sub operator) +:+ " has no 'no target' entry; " +:+ HOW_TO_CHANGE)
      | Some t =>
          if existsb (entry_matches (tg_id t) (tg_product t) (tg_name t)) (sr_entries row) then None
          else Some (READ_SCOPE_DENIED +:+ ": target " +:+ opt_repr (tg_name t) +:+ " (" +:+
                     default "None" (tg_id t) +:+ ") is outside the read scope of service principal " +:+
                     py_repr (op_sub operator) +:+ "; " +:+ HOW_TO_CHANGE)
      end
  end.

(** * Park reasons *)

Definition READ_METHODS : list string := ["GET"; "HEAD"].

Definition is_mutating (d : EndpointDescriptor) : bool :=
  match ed_method d with
  | Some m => if bool_decide (m = "") then negb (bool_decide (ed_safety_level d = "safe"))
              else bool_decide (upper m ∉ READ_METHODS)
  | None => negb (bool_decide (ed_safety_level d = "safe"))
  end.

Definition sandbox_delete_grant_note (decide_only : bool) : string :=
  if decide_only
  then "; this instance is in sandbox mode, but no live delete grant covers this call, so it waits for approval"
  else "; this instance is in sandbox mode, so a delete grant made in the web console may cover it".

Definition service_safety_gate_reason (sandbox : bool) (d : EndpointDescriptor) : option string :=
  if bool_decide (ed_safety_level d = "destructive") then
    Some (if sandbox
          then "safety_level=destructive; service-principal deletes park (routed to the approval queue) unless a delete grant made in the web console covers them — this instance is in sandbox mode (#4622)"
          else "safety_level=destructive; service-principal deletes park always (routed to the approval queue) and are never satisfiable by a standing grant — mandatory human approval (#3183)")
  else if bool_decide (ed_safety_level d = "dangerous") then
    Some "safety_level=dangerous; service-principal mutations park (routed to the approval queue) unless a standing grant covers them (#3152)"
  else if bool_decide (ed_safety_level d = "caution") && is_mutating d then
    Some "safety_level=caution mutating op; service-principal mutations park unless a standing grant covers them (#3152)"
  else None.

Definition person_park_reason (operator : Operator) (d : EndpointDescriptor) : option string :=
  let level := ed_safety_level d in
  if bool_decide (level = "safe") then None
  else if op_web_session operator && is_human_principal operator then
    if bool_decide (level = "caution") then None
    else Some ("safety_level=" +:+ level +:+ "; in the web interface only safe and caution operations run at once, so this waits for an approval click (#3980)")
  else Some ("safety_level=" +:+ level +:+ "; a call made with a token runs only safe operations at once, so this waits for an approval click (#3980)").

Definition non_agent_park_reason (sandbox : bool) (operator : Operator) (d : EndpointDescriptor)
  (is_service decide_only : bool) : option string :=
  if bool_decide (ed_safety_level d = "destructive") then
    Some ("safety_level=destructive; mandatory human approval — every non-agent principal parks (routed to the approval queue), never auto-executes, and no standing grant can pre-clear it (#3183)" +:+
          if is_service && sandbox then sandbox_delete_grant_note decide_only else "")
  else if ed_requires_approval d then
    Some "requires_approval is True; routed to the approval queue (G11.7-T1)"
  else if is_service then service_safety_gate_reason sandbox d
  else person_park_reason operator d.

Definition person_role_floor_denial (floors : gmap string TenantRole) (operator : Operator)
  (d : EndpointDescriptor) : option string :=
  if is_human_principal operator then role_floor_denial floors (k_op_id (ed_key d)) (op_tenant_role operator)
  else None.

(** * The interface of the grants *)

Class GrantAuthority (S : Type) := {
  consult : GrantQuery -> S -> S * option uuid;
  park_hint : GrantQuery -> S -> option string;
  (** which grant may clear which call *)
  authorises : GrantQuery -> S -> uuid -> Prop;
  (** the grants used so far, in order *)
  uses : S -> list uuid;
  (** whether the process runs in sandbox mode, where deletes may be granted *)
  sandbox_mode : bool;
}.

(** Two queries about one call, apart from its preview hash, parameters and mode. *)
Definition same_call (q q' : GrantQuery) : Prop :=
  gq_operator q' = gq_operator q /\ gq_descriptor q' = gq_descriptor q /\ gq_target q' = gq_target q /\
  gq_connector_id q' = gq_connector_id q /\ gq_now q' = gq_now q.

Class GrantAuthorityLaws (S : Type) `{GrantAuthority S} : Prop := {
  consult_refused q s s' : consult q s = (s', None) -> s' = s;
  consult_granted q s s' id : consult q s = (s', Some id) ->
    authorises q s id /\ if gq_record q then uses s' = uses s ++ [id] else s' = s;
  authorises_no_address q s id : authorises q s id ->
    has_caller_address (ed_parameter_schema (gq_descriptor q)) = false;
  authorises_destructive q s id : authorises q s id ->
    ed_safety_level (gq_descriptor q) = "destructive" -> sandbox_mode = true;
  (** the hint, and below the destructive level the answer, do not depend on
      whether the call is only previewed *)
  consult_preview q q' s : same_call q q' ->
    (ed_safety_level (gq_descriptor q) <> "destructive" -> snd (consult q' s) = snd (consult q s)) /\
    park_hint q' s = park_hint q s;
}.

(** * The gate *)

Section Gate.
Context {S : Type} `{GrantAuthority S}.
(** The tables the gate reads besides the grants, and the registered role floors. *)
Context (permissions : list AgentPermission) (scopes : list ServicePrincipalReadScope).
Context (floors : gmap string TenantRole).

(** The arguments of [policy_gate]; [gk_actor] is the actor bound to the context
    ([resolve_actor_sub]) and [gk_now] the clock. *)
Record GateCall := {
  gk_operator : Operator;
  gk_descriptor : EndpointDescriptor;
  gk_target : option Target;
  gk_connector_id : option string;
  gk_preview_hash : option string;
  gk_params : option json_dict;
  gk_decide_only : bool;
  gk_actor : option string;
  gk_now : datetime;
}.

Definition grant_query (k : GateCall) (connector_id : string) : GrantQuery := {|
  gq_operator := gk_operator k; gq_descriptor := gk_descriptor k; gq_target := gk_target k;
  gq_connector_id := connector_id; gq_preview_hash := gk_preview_hash k; gq_params := gk_params k;
  gq_record := negb (gk_decide_only k); gq_now := gk_now k |}.

Definition CALLER_ADDRESS_NOTE : string :=
  "the operation connects to an address the caller gives, so no standing grant covers it; a person approves each call".

(** The verdict, when a grant clears the call, and the reason. *)
Definition service_grant_verdict (k : GateCall) (connector_id gate_reason : string) (s : S)
  : S * (option PermissionVerdict * string) :=
  let q := grant_query k connector_id in
  let level := ed_safety_level (gk_descriptor k) in
  match consult q s with
  | (s', Some grant_id) =>
      if gk_decide_only k && bool_decide (level = "destructive")
      then (s', (Some AUTO_EXECUTE, "auto-granted by delete grant " +:+ grant_id +:+
                   ", when the call sends the preview_hash of this preview"))
      else (s', (Some AUTO_EXECUTE, "auto-granted by standing grant " +:+ grant_id))
  | (s', None) =>
      if has_caller_address (ed_parameter_schema (gk_descriptor k))
      then (s', (None, gate_reason +:+ "; " +:+ CALLER_ADDRESS_NOTE))
      else match park_hint q s' with
           | Some hint => (s', (None, gate_reason +:+ "; " +:+ hint))
           | None => (s', (None, gate_reason))
           end
  end.

Definition is_service_call (k : GateCall) : bool :=
  bool_decide (op_principal_kind (gk_operator k) = SERVICE).

(** The warning about a person who holds a grant is a log line and leaves no
    state. *)
Definition non_agent_verdict (k : GateCall) (s : S) : S * (PermissionVerdict * option string) :=
  let is_service := is_service_call k in
  match person_role_floor_denial floors (gk_operator k) (gk_descriptor k) with
  | Some denial => (s, (DENY, Some denial))
  | None =>
      match non_agent_park_reason sandbox_mode (gk_operator k) (gk_descriptor k) is_service (gk_decide_only k) with
      | None =>
          match (if is_service then read_scope_denial scopes (gk_operator k) (gk_target k) else None) with
          | Some denial => (s, (DENY, Some denial))
          | None => (s, (AUTO_EXECUTE, None))
          end
      | Some gate_reason =>
          match (if is_service then gk_connector_id k else None) with
          | None => (s, (NEEDS_APPROVAL, Some gate_reason))
          | Some connector_id =>
              match service_grant_verdict k connector_id gate_reason s with
              | (s', (Some cleared, reason)) => (s', (cleared, Some reason))
              | (s', (None, reason)) => (s', (NEEDS_APPROVAL, Some reason))
              end
          end
      end
  end.

Definition agent_verdict (operator : Operator) (k : GateCall) : PermissionVerdict * string :=
  let d := gk_descriptor k in
  let '(verdict, reason) := resolve_verdict permissions (gk_now k) operator (k_op_id (ed_key d))
                              (ed_safety_level d) (gk_target k ≫= tg_id) in
  if ed_requires_approval d then
    let floored := more_restrictive verdict NEEDS_APPROVAL in
    if bool_decide (floored = verdict) then (verdict, reason)
    else (floored, reason +:+ "; floored to needs-approval (descriptor.requires_approval)")
  else (verdict, reason).

Definition caller_verdict (k : GateCall) (s : S) : S * (PermissionVerdict * option string) :=
  if bool_decide (op_principal_kind (gk_operator k) = AGENT)
  then let '(v, reason) := agent_verdict (gk_operator k) k in (s, (v, Some reason))
  else non_agent_verdict k s.

(** [operator.model_copy] with the actor as an agent. *)
Definition acting_agent (actor_sub : string) (o : Operator) : Operator := {|
  op_sub := actor_sub; op_tenant_id := op_tenant_id o; op_tenant_role := op_tenant_role o;
  op_principal_kind := AGENT; op_client_id := Some actor_sub; op_platform_admin := op_platform_admin o;
  op_web_session := op_web_session o; op_name := op_name o; op_approver := op_approver o;
  op_self_approver := op_self_approver o; op_tenant_chosen := op_tenant_chosen o;
  op_auth_time := op_auth_time o; op_sid := op_sid o; op_acr := op_acr o; op_azp := op_azp o |}.

Definition direct_run_verdict (actor_sub : string) (k : GateCall) (s : S)
  : S * (PermissionVerdict * option string) :=
  let '(av, agent_reason) := agent_verdict (acting_agent actor_sub (gk_operator k)) k in
  let agent_result := (av, Some ("agent " +:+ actor_sub +:+ " acting for " +:+ op_sub (gk_operator k) +:+
                                 ": " +:+ agent_reason)) in
  if bool_decide (av = DENY) then (s, agent_result)
  else if bool_decide (av = NEEDS_APPROVAL) &&
          negb (bool_decide (op_principal_kind (gk_operator k) = AGENT)) then (s, agent_result)
  else
    let '(s', (v, reason)) := caller_verdict k s in
    if bool_decide (more_restrictive v av = v) then (s', (v, reason)) else (s', agent_result).

Definition policy_gate (k : GateCall) (s : S) : S * (PermissionVerdict * option string) :=
  match gk_actor k with
  | Some actor_sub => direct_run_verdict actor_sub k s
  | None => caller_verdict k s
  end.

Definition waits_only_for_token_call (k : GateCall) : bool :=
  is_human_principal (gk_operator k) && negb (op_web_session (gk_operator k)) &&
  bool_decide (gk_actor k = None) && bool_decide (ed_safety_level (gk_descriptor k) = "caution") &&
  negb (ed_requires_approval (gk_descriptor k)).
End Gate.

(** * The grants as an authority *)

Section Instance.
Context (st : GrantSettings).
Context (binding : Operator -> EndpointDescriptor -> option Target -> string -> string -> json_dict ->
           option json_dict).
Context (effect : Operator -> EndpointDescriptor -> option Target -> string -> json_dict -> json).

(** A live grant of the right table that covers the call. *)
Definition may_clear (q : GrantQuery) (db : GrantsDb) (id : uuid) : Prop :=
  has_caller_address (ed_parameter_schema (gq_descriptor q)) = false /\
  exists m g, g ∈ grant_table m db /\ covers q g /\ gr_id g = id /\
    (m = SandboxDeleteGrant <-> query_delete_sign st q <> None) /\
    (m = SandboxDeleteGrant -> gs_sandbox_mode st = true).

#[export] Instance service_grants : GrantAuthority GrantsDb := {
  consult := consult_and_record_grant st binding effect;
  park_hint q db := null_target_only_park_hint db (op_tenant_id (gq_operator q)) (op_sub (gq_operator q))
                      (query_op_id q) (gq_connector_id q) (gq_target q ≫= tg_id) (gq_now q);
  authorises := may_clear;
  uses db := gu_grant_id <$> gd_ledger db;
  sandbox_mode := gs_sandbox_mode st;
}.

Lemma destructive_has_sign q : ed_safety_level (gq_descriptor q) = "destructive" -> query_delete_sign st q <> None.
Proof.
  intros Hl Hn. unfold query_delete_sign, delete_grant_reason in Hn.
  destruct (delete_shaped_refusal_reason _ _); [done|]. simpl in Hn.
  unfold delete_shaped_reason_by_descriptor in Hn. by rewrite Hl, bool_decide_true in Hn.
Qed.

Lemma consult_same_call q q' db :
  same_call q q' -> ed_safety_level (gq_descriptor q) <> "destructive" ->
  snd (consult_and_record_grant st binding effect q' db) = snd (consult_and_record_grant st binding effect q db).
Proof.
  destruct q as [o d t c h p r n], q' as [o' d' t' c' h' p' r' n']. unfold same_call. simpl.
  intros (-> & -> & -> & -> & ->) Hl. unfold consult_and_record_grant, consult_delete_grant, consult_ordinary_grant,
    query_delete_sign, query_live, query_op_id, delete_grant_evidence, use_grant. simpl.
  destruct (has_caller_address _); [done|]. rewrite (bool_decide_false (_ = "destructive")) by done.
  destruct (gs_sandbox_mode st), (delete_grant_reason _ _ _); try done;
    repeat (destruct (find_live_grant _ _ _ _ _ _ _ _ _); [by destruct r, r'|]); done.
Qed.

#[export] Instance service_grants_laws : GrantAuthorityLaws GrantsDb.
Proof.
  split.
  - intros q s s' Hc. pose proof (consult_spec st binding effect q s) as Hs. simpl in Hc. by rewrite Hc in Hs.
  - intros q s s' id Hc. pose proof (consult_spec st binding effect q s) as Hs. simpl in Hc. rewrite Hc in Hs.
    destruct Hs as [Ha (m & g & Hg & Hcv & Hid & Hm & Hsb & _) [Ht1 Ht2] Hl]. split.
    + split; [done|]. by exists m, g.
    + destruct (gq_record q).
      * destruct Hl as (u & Hl & Hu & _). simpl. by rewrite Hl, fmap_app, <- Hu.
      * destruct s, s'; simpl in *. by subst.
  - by intros q s id [Ha _].
  - intros q s id (_ & m & g & _ & _ & _ & Hm & Hsb) Hl. simpl. apply Hsb, Hm. by apply destructive_has_sign.
  - intros q q' s Hq. split; [by intros Hl; apply consult_same_call|].
    destruct q, q'. unfold same_call in Hq. simpl in *. by destruct Hq as (-> & -> & -> & -> & ->).
Qed.
End Instance.

(** * What the gate decides *)

Section Authority.
Context (permissions : list AgentPermission) (scopes : list ServicePrincipalReadScope).
Context (floors : gmap string TenantRole).

(** An entry of a read scope takes in a target, or a call without one. *)
Definition entry_takes_in (target : option Target) (e : ReadScopeEntry) : Prop :=
  match target with
  | None => rs_no_target e = true
  | Some t => rs_no_target e = false /\
      match rs_target_id e with
      | Some tid => tg_id t = Some tid
      | None => (forall p, rs_target_product e = Some p -> tg_product t = Some p) /\
          (forall pattern, rs_target_name_pattern e = Some pattern -> exists n, tg_name t = Some n /\ fnmatch n pattern = true)
      end
  end.

(** A principal without a row is not limited. *)
Definition in_read_scope (o : Operator) (target : option Target) : Prop :=
  (forall row, row ∈ scopes -> sr_tenant_id row = op_tenant_id o -> sr_principal_sub row <> op_sub o) \/
  (exists row e, row ∈ scopes /\ sr_tenant_id row = op_tenant_id o /\ sr_principal_sub row = op_sub o /\
     e ∈ sr_entries row /\ entry_takes_in target e).

Lemma read_scope_None o target : read_scope_denial scopes o target = None -> in_read_scope o target.
Proof.
  unfold read_scope_denial, get_read_scope. destruct (List.find _ scopes) as [row|] eqn:Hf.
  - apply find_Some_iff in Hf as [Hrow Hs]. unfold scope_of in Hs. to_prop. intros Hd. right.
    assert (exists e, e ∈ sr_entries row /\ entry_takes_in target e) as (e & ? & ?); [|by exists row, e].
    destruct target as [t|]; cbn [entry_takes_in].
    + destruct (existsb _ _) eqn:He; [|done]. apply existsb_exists in He as (e & Hin%list_elem_of_In & Hm).
      exists e. split; [done|]. unfold entry_matches in Hm. destruct (rs_no_target e); [done|]. split; [done|].
      destruct (rs_target_id e); [by to_prop|]. apply andb_true_iff in Hm as [Hp Hn]. split.
      * intros p E. rewrite E in Hp. apply orb_true_iff in Hp as [Hp|Hp]; to_prop; [done|congruence].
      * intros pattern E. rewrite E in Hn. destruct (tg_name t) as [n|]; [by exists n|done].
    + destruct (existsb _ _) eqn:He; [|done]. apply existsb_exists in He as (e & Hin%list_elem_of_In & Hm). by exists e.
  - intros _. left. intros row Hrow Ht Hs. rewrite find_None_iff in Hf. specialize (Hf row Hrow). unfold scope_of in Hf.
    by rewrite !bool_decide_true in Hf by done.
Qed.

(** What lets an agent's call run at once: the rows of its permissions, and the
    ceilings. *)
Record agent_entitled (o : Operator) (k : GateCall) : Prop := {
  ae_permitted : fst (resolve_verdict permissions (gk_now k) o (k_op_id (ed_key (gk_descriptor k)))
                        (ed_safety_level (gk_descriptor k)) (gk_target k ≫= tg_id)) = AUTO_EXECUTE;
  ae_approval : ed_requires_approval (gk_descriptor k) = false;
  ae_level : ed_safety_level (gk_descriptor k) ∉ ["caution"; "dangerous"; "destructive"];
  ae_role : op_tenant_role o <> READ_ONLY;
}.

(** What lets a person's or a service's call run at once without a grant. *)
Record entitled (k : GateCall) : Prop := {
  en_approval : ed_requires_approval (gk_descriptor k) = false;
  en_level : ed_safety_level (gk_descriptor k) <> "destructive";
  en_floor : op_principal_kind (gk_operator k) = USER ->
    forall floor, floors !! k_op_id (ed_key (gk_descriptor k)) = Some floor ->
      role_rank floor <= role_rank (op_tenant_role (gk_operator k));
  en_service : op_principal_kind (gk_operator k) = SERVICE ->
    ed_safety_level (gk_descriptor k) <> "dangerous" /\
    (ed_safety_level (gk_descriptor k) = "caution" ->
       exists m, ed_method (gk_descriptor k) = Some m /\ upper m ∈ ["GET"; "HEAD"]) /\
    in_read_scope (gk_operator k) (gk_target k);
  en_other : op_principal_kind (gk_operator k) <> SERVICE ->
    ed_safety_level (gk_descriptor k) = "safe" \/
    (ed_safety_level (gk_descriptor k) = "caution" /\ op_web_session (gk_operator k) = true /\
     op_principal_kind (gk_operator k) = USER);
}.

Lemma caution_read d : ed_safety_level d = "caution" -> is_mutating d = false ->
  exists m, ed_method d = Some m /\ upper m ∈ ["GET"; "HEAD"].
Proof.
  intros Hl. unfold is_mutating. rewrite Hl. destruct (ed_method d) as [m|]; [|done].
  case_bool_decide; [done|]. intros Hm. exists m. split; [done|].
  apply bool_decide_eq_false in Hm. destruct (decide (upper m ∈ READ_METHODS)); [done|by destruct Hm].
Qed.
End Authority.

Section GateFacts.
Context {S : Type} `{GrantAuthorityLaws S}.
Context (permissions : list AgentPermission) (scopes : list ServicePrincipalReadScope).
Context (floors : gmap string TenantRole).
Abbreviation gate := (policy_gate permissions scopes floors).

(** A grant that clears a call, and its use. *)
Definition cleared_by_grant (k : GateCall) (s s' : S) : Prop :=
  exists conn id, gk_connector_id k = Some conn /\ authorises (grant_query k conn) s id /\
    if gk_decide_only k then s' = s else uses s' = uses s ++ [id].

Lemma service_grant_verdict_spec k conn reason s s' v r :
  service_grant_verdict k conn reason s = (s', (v, r)) -> gk_connector_id k = Some conn ->
  match v with
  | Some v => v = AUTO_EXECUTE /\ cleared_by_grant k s s'
  | None => s' = s
  end.
Proof.
  unfold service_grant_verdict. intros Hv Hconn. destruct (consult _ s) as [s1 [id|]] eqn:Hc.
  - apply consult_granted in Hc as [Ha Hu]. simpl in Hu.
    assert (cleared_by_grant k s s1) as Hcl by (exists conn, id; by destruct (gk_decide_only k)).
    destruct (gk_decide_only k && _); injection Hv as <- <- <-; done.
  - apply consult_refused in Hc as ->. destruct (has_caller_address _); [|destruct (park_hint _ _)];
      by injection Hv as <- <- <-.
Qed.

(** What lets a person's or a service's call run at once. *)
Record runs_at_once (k : GateCall) : Prop := {
  ro_floor : person_role_floor_denial floors (gk_operator k) (gk_descriptor k) = None;
  ro_approval : ed_requires_approval (gk_descriptor k) = false;
  ro_level : ed_safety_level (gk_descriptor k) <> "destructive";
  ro_kind : if is_service_call k
    then ed_safety_level (gk_descriptor k) <> "dangerous" /\
         (ed_safety_level (gk_descriptor k) = "caution" -> is_mutating (gk_descriptor k) = false) /\
         read_scope_denial scopes (gk_operator k) (gk_target k) = None
    else ed_safety_level (gk_descriptor k) = "safe" \/
         (ed_safety_level (gk_descriptor k) = "caution" /\ op_web_session (gk_operator k) = true /\
          is_human_principal (gk_operator k) = true);
}.

Lemma runs_entitled k : runs_at_once k -> entitled scopes floors k.
Proof.
  intros [Hf Ha Hl Hk]. unfold is_service_call in Hk. constructor; [done|done|..].
  - intros Hu floor E. unfold person_role_floor_denial in Hf. rewrite (proj2 (is_human_iff _) Hu), role_floor_denial_None in Hf.
    by apply Hf.
  - intros Hs. rewrite bool_decide_true in Hk by done. destruct Hk as (Hd & Hc & Hr). split_and!; [done| |by apply read_scope_None].
    intros Hl'. apply caution_read; auto.
  - intros Hs. rewrite bool_decide_false in Hk by done. destruct Hk as [?|(? & ? & ?%is_human_iff)]; auto.
Qed.

Lemma non_agent_park_None sb o d svc decide :
  non_agent_park_reason sb o d svc decide = None <->
  ed_safety_level d <> "destructive" /\ ed_requires_approval d = false /\
  if svc then ed_safety_level d <> "dangerous" /\ (ed_safety_level d = "caution" -> is_mutating d = false)
  else ed_safety_level d = "safe" \/
       (ed_safety_level d = "caution" /\ op_web_session o = true /\ is_human_principal o = true).
Proof.
  unfold non_agent_park_reason, service_safety_gate_reason, person_park_reason.
  destruct (bool_decide (ed_safety_level d = "destructive")) eqn:Hd; to_prop; [by split; [|intros [? _]]|].
  destruct (ed_requires_approval d); [by split; [|intros (_ & ? & _)]|].
  destruct svc.
  - destruct (bool_decide (ed_safety_level d = "dangerous")) eqn:Hg; to_prop; [split; [done|by intros (_ & _ & ? & _)]|].
    destruct (bool_decide (ed_safety_level d = "caution")) eqn:Hc; to_prop; simpl.
    + destruct (is_mutating d); [split; [done|]|done]. intros (_ & _ & _ & Hm). by apply Hm in Hc.
    + split; [|done]. intros _. split_and!; done.
  - destruct (bool_decide (ed_safety_level d = "safe")) eqn:Hs; to_prop; [split; auto|].
    destruct (op_web_session o), (is_human_principal o); simpl;
      try (split; [done|]; intros (_ & _ & [?|(_ & ? & ?)]); done).
    case_bool_decide; [split; [intros _; split_and!; auto|done]|]. split; [done|]. by intros (_ & _ & [?|(? & _)]).
Qed.

Lemma non_agent_spec k s s' v r :
  non_agent_verdict scopes floors k s = (s', (v, r)) ->
  match v with
  | AUTO_EXECUTE => (s' = s /\ runs_at_once k) \/
      (is_service_call k = true /\ ~ runs_at_once k /\ cleared_by_grant k s s')
  | NEEDS_APPROVAL => s' = s /\ ~ runs_at_once k
  | DENY => s' = s /\ ~ runs_at_once k
  end.
Proof.
  unfold non_agent_verdict. destruct (person_role_floor_denial _ _ _) eqn:Hf.
  { intros [= <- <- _]. split; [done|]. intros [Hf' _ _ _]. by rewrite Hf in Hf'. }
  destruct (non_agent_park_reason _ _ _ _ _) as [reason|] eqn:Hp.
  - assert (~ runs_at_once k) as Hno.
    { intros [_ Ha Hl Hk].
      assert (non_agent_park_reason sandbox_mode (gk_operator k) (gk_descriptor k) (is_service_call k) (gk_decide_only k) = None) as Hn.
      { apply non_agent_park_None. split_and!; [done|done|]. by destruct (is_service_call k); [destruct Hk as (? & ? & _)|]. }
      by rewrite Hn in Hp. }
    destruct (is_service_call k) eqn:Hs; [|by intros [= <- <- _]].
    destruct (gk_connector_id k) as [conn|] eqn:Hc; [|by intros [= <- <- _]].
    destruct (service_grant_verdict k conn reason s) as [s1 [v1 r1]] eqn:Hv.
    apply service_grant_verdict_spec in Hv; [|done]. destruct v1 as [v1|]; intros [= <- <- _].
    + destruct Hv as [-> Hcl]. by right.
    + by rewrite Hv.
  - apply non_agent_park_None in Hp as (Hl & Ha & Hk).
    destruct (is_service_call k) eqn:Hs.
    + destruct (read_scope_denial _ _ _) eqn:Hr; intros [= <- <- _].
      * split; [done|]. intros [_ _ _ Hk']. rewrite Hs in Hk'. destruct Hk' as (_ & _ & Hn). by rewrite Hr in Hn.
      * left. split; [done|]. constructor; [done..|]. rewrite Hs. by destruct Hk.
    + intros [= <- <- _]. left. split; [done|]. constructor; [done..|]. by rewrite Hs.
Qed.

Lemma agent_verdict_spec o k :
  fst (agent_verdict permissions o k) = AUTO_EXECUTE -> agent_entitled permissions o k.
Proof.
  unfold agent_verdict. intros Hv.
  pose proof (ceilings_hold permissions (gk_now k) o (k_op_id (ed_key (gk_descriptor k)))
                (ed_safety_level (gk_descriptor k)) (gk_target k ≫= tg_id)) as Hc.
  destruct (resolve_verdict _ _ _ _ _ _) as [v r] eqn:Er. simpl in Hc.
  assert (v = AUTO_EXECUTE /\ ed_requires_approval (gk_descriptor k) = false) as [-> Ha].
  { destruct (ed_requires_approval _); [|done]. exfalso.
    destruct v; by case_bool_decide. }
  constructor; [by rewrite Er|done| |]; intros Hn; apply Hc; auto.
Qed.

(** The caller alone. *)
Lemma caller_spec k s s' v r :
  caller_verdict permissions scopes floors k s = (s', (v, r)) ->
  (op_principal_kind (gk_operator k) = AGENT /\ s' = s /\ v = fst (agent_verdict permissions (gk_operator k) k)) \/
  (op_principal_kind (gk_operator k) <> AGENT /\ non_agent_verdict scopes floors k s = (s', (v, r))).
Proof.
  unfold caller_verdict. case_bool_decide as Hk; [|by right].
  destruct (agent_verdict _ _ _) as [v' r']. intros [= <- <- _]. by left.
Qed.

Lemma stricter_result cv av (s1 s' : S) v (cr ar r : option string) :
  (if bool_decide (more_restrictive cv av = cv) then (s1, (cv, cr)) else (s1, (av, ar))) = (s', (v, r)) ->
  s1 = s' /\ v = more_restrictive cv av.
Proof.
  case_bool_decide as E; intros [= <- <- _]; [done|]. split; [done|]. by destruct (more_restrictive_or cv av).
Qed.

(** A direct run: the agent's own verdict, or the caller's under it. *)
Lemma gate_cases k s s' v r :
  gate k s = (s', (v, r)) ->
  match gk_actor k with
  | None => caller_verdict permissions scopes floors k s = (s', (v, r))
  | Some a =>
      let av := fst (agent_verdict permissions (acting_agent a (gk_operator k)) k) in
      (av = DENY /\ v = DENY /\ s' = s) \/
      (av = NEEDS_APPROVAL /\ op_principal_kind (gk_operator k) <> AGENT /\ v = NEEDS_APPROVAL /\ s' = s) \/
      (av <> DENY /\ (av = NEEDS_APPROVAL -> op_principal_kind (gk_operator k) = AGENT) /\
       exists cv cr, caller_verdict permissions scopes floors k s = (s', (cv, cr)) /\ v = more_restrictive cv av)
  end.
Proof.
  unfold policy_gate. destruct (gk_actor k) as [a|]; [|done]. unfold direct_run_verdict.
  destruct (agent_verdict _ _ _) as [av ar]. simpl.
  destruct (bool_decide (av = DENY)) eqn:Hd; to_prop; [intros [= <- <- _]; by left|].
  destruct (bool_decide (av = NEEDS_APPROVAL)) eqn:Hn; to_prop; simpl.
  - destruct (bool_decide (op_principal_kind _ = AGENT)) eqn:Hk; to_prop; simpl; [|intros [= <- <- _]; right; by left].
    destruct (caller_verdict _ _ _ k s) as [s1 [cv cr]]. intros Hv. right. right. split_and!; [done|done|].
    exists cv, cr. by apply stricter_result in Hv as [-> ->].
  - destruct (caller_verdict _ _ _ k s) as [s1 [cv cr]]. intros Hv. right. right. split_and!; [done|done|].
    exists cv, cr. by apply stricter_result in Hv as [-> ->].
Qed.

(** Conditions under which a call runs at once, by the caller's kind. *)
Lemma auto_execute_spec k s s' r :
  gate k s = (s', (AUTO_EXECUTE, r)) ->
  (op_principal_kind (gk_operator k) = AGENT -> s' = s /\ agent_entitled permissions (gk_operator k) k) /\
  (forall a, gk_actor k = Some a -> agent_entitled permissions (acting_agent a (gk_operator k)) k) /\
  (op_principal_kind (gk_operator k) <> AGENT ->
     (s' = s /\ runs_at_once k) \/ (is_service_call k = true /\ ~ runs_at_once k /\ cleared_by_grant k s s')).
Proof.
  intros Hg. pose proof (gate_cases _ _ _ _ _ Hg) as Hc.
  assert ((exists cr, caller_verdict permissions scopes floors k s = (s', (AUTO_EXECUTE, cr))) /\
          forall a, gk_actor k = Some a -> fst (agent_verdict permissions (acting_agent a (gk_operator k)) k) = AUTO_EXECUTE)
    as [[cr Hcv] Hact].
  { destruct (gk_actor k) as [a|]; [|split; [by eexists|done]]. simpl in Hc.
    destruct Hc as [(_ & ? & _)|[(_ & _ & ? & _)|(_ & _ & cv & cr & Hcv & Hm)]]; [done..|].
    destruct cv, (fst (agent_verdict _ (acting_agent a _) _)) eqn:Ea; vm_compute in Hm; try done.
    split; [by exists cr|]. by intros ? [= <-]. }
  pose proof (caller_spec _ _ _ _ _ Hcv) as Hcs. split_and!.
  - intros Hk. destruct Hcs as [(_ & ? & Hv)|[? _]]; [|done]. split; [done|]. by apply agent_verdict_spec.
  - intros a Ha. by apply agent_verdict_spec, Hact.
  - intros Hk. destruct Hcs as [(? & _)|[_ Hn]]; [done|]. by apply non_agent_spec in Hn.
Qed.

(** Outside sandbox mode, or with an address from the caller, nothing clears a
    call that waits. *)
Lemma no_grant_never_auto k s :
  ed_requires_approval (gk_descriptor k) = true \/ ed_safety_level (gk_descriptor k) = "destructive" ->
  (forall conn id, ~ authorises (grant_query k conn) s id) -> fst (snd (gate k s)) <> AUTO_EXECUTE.
Proof.
  intros Hwait Hno Hv. destruct (gate k s) as [s' [v r]] eqn:Hg. simpl in Hv. subst.
  apply auto_execute_spec in Hg as (Hag & _ & Hna).
  destruct (decide (op_principal_kind (gk_operator k) = AGENT)) as [Hk|Hk].
  - destruct (Hag Hk) as [_ [_ Ha Hl _]]. destruct Hwait as [Hw|Hw]; [congruence|].
    apply Hl. rewrite Hw. set_solver.
  - destruct (Hna Hk) as [[_ [_ Ha Hl _]]|(_ & _ & conn & id & _ & Haut & _)]; [|by eapply Hno].
    destruct Hwait as [Hw|Hw]; [congruence|done].
Qed.

Lemma gate_writes k s s' v r :
  gate k s = (s', (v, r)) ->
  s' = s \/ (v = AUTO_EXECUTE /\ gk_decide_only k = false /\ is_service_call k = true /\ ~ runs_at_once k /\
             exists conn id, gk_connector_id k = Some conn /\ authorises (grant_query k conn) s id /\
               uses s' = uses s ++ [id]).
Proof.
  intros Hg. pose proof (gate_cases _ _ _ _ _ Hg) as Hc.
  assert (forall v r, caller_verdict permissions scopes floors k s = (s', (v, r)) -> s' = s \/
    (v = AUTO_EXECUTE /\ gk_decide_only k = false /\ is_service_call k = true /\ ~ runs_at_once k /\
     exists conn id, gk_connector_id k = Some conn /\ authorises (grant_query k conn) s id /\
               uses s' = uses s ++ [id])) as Hcaller.
  { intros v0 r0 Hcv. apply caller_spec in Hcv as [(_ & ? & _)|[_ Hn]]; [by left|].
    apply non_agent_spec in Hn. destruct v0; [|by left; destruct Hn..].
    destruct Hn as [[? _]|(Hs & Hr & conn & id & Hco & Ha & Hu)]; [by left|].
    destruct (gk_decide_only k); [by left|]. right. split_and!; eauto. }
  destruct (gk_actor k) as [a|]; [|by eapply Hcaller]. simpl in Hc.
  destruct Hc as [(_ & _ & ?)|[(_ & _ & _ & ?)|(Hnd & Hna & cv & cr & Hcv & Hm)]]; [by left..|].
  destruct (Hcaller _ _ Hcv) as [?|(-> & Hdec & Hs & Hr & Hex)]; [by left|]. right.
  assert (fst (agent_verdict permissions (acting_agent a (gk_operator k)) k) = AUTO_EXECUTE) as Hav.
  { destruct (fst _); [done| |done]. specialize (Hna eq_refl). unfold is_service_call in Hs. to_prop. congruence. }
  rewrite Hav in Hm. split_and!; try done.
Qed.

(** The verdict of a direct run, exactly. *)
Lemma direct_run_spec k a s :
  gk_actor k = Some a ->
  let av := fst (agent_verdict permissions (acting_agent a (gk_operator k)) k) in
  let cv := fst (snd (caller_verdict permissions scopes floors k s)) in
  let v := fst (snd (gate k s)) in
  verdict_le av v /\
  (v = more_restrictive cv av \/
   (v = NEEDS_APPROVAL /\ av = NEEDS_APPROVAL /\ cv = DENY /\ op_principal_kind (gk_operator k) <> AGENT)).
Proof.
  intros Ha. cbn zeta. destruct (gate k s) as [s' [v r]] eqn:Hg. simpl. apply gate_cases in Hg.
  rewrite Ha in Hg. simpl in Hg. set (av := fst (agent_verdict _ _ _)) in *.
  destruct Hg as [(Hav & -> & _)|[(Hav & Hk & -> & _)|(_ & _ & cv & cr & -> & ->)]].
  - rewrite Hav. split; [done|]. left. by destruct (fst (snd _)).
  - rewrite Hav. split; [done|]. destruct (fst (snd (caller_verdict _ _ _ k s))); [by left..|by right].
  - simpl. split; [apply more_restrictive_r|by left].
Qed.

(** ** Previews *)

Definition with_decide_only (b : bool) (k : GateCall) : GateCall := {|
  gk_operator := gk_operator k; gk_descriptor := gk_descriptor k; gk_target := gk_target k;
  gk_connector_id := gk_connector_id k; gk_preview_hash := gk_preview_hash k; gk_params := gk_params k;
  gk_decide_only := b; gk_actor := gk_actor k; gk_now := gk_now k |}.

Lemma decide_only_unchanged k s : gk_decide_only k = true -> fst (gate k s) = s.
Proof.
  intros Hd. destruct (gate k s) as [s' [v r]] eqn:Hg. simpl.
  apply gate_writes in Hg as [?|(_ & Hn & _)]; [done|congruence].
Qed.

Lemma service_grant_preview k b b' conn reason s :
  ed_safety_level (gk_descriptor k) <> "destructive" ->
  snd (service_grant_verdict (with_decide_only b k) conn reason s) =
  snd (service_grant_verdict (with_decide_only b' k) conn reason s).
Proof.
  intros Hl. unfold service_grant_verdict. simpl. rewrite (bool_decide_false (_ = "destructive")) by done.
  rewrite !andb_false_r.
  destruct (consult_preview (grant_query (with_decide_only b k) conn) (grant_query (with_decide_only b' k) conn) s)
    as [Hc Hh]; [done|]. specialize (Hc Hl).
  destruct (consult (grant_query (with_decide_only b k) conn) s) as [s1 r1] eqn:E1.
  destruct (consult (grant_query (with_decide_only b' k) conn) s) as [s2 r2] eqn:E2. simpl in Hc. subst r2.
  destruct r1 as [id|]; [done|]. apply consult_refused in E1 as ->, E2 as ->.
  destruct (has_caller_address _); [done|]. rewrite Hh. by destruct (park_hint _ _).
Qed.

Lemma preview_spec k b b' s :
  ed_safety_level (gk_descriptor k) <> "destructive" ->
  snd (gate (with_decide_only b k) s) = snd (gate (with_decide_only b' k) s).
Proof.
  intros Hl.
  assert (snd (non_agent_verdict scopes floors (with_decide_only b k) s) =
          snd (non_agent_verdict scopes floors (with_decide_only b' k) s)) as Hn.
  { unfold non_agent_verdict, non_agent_park_reason, is_service_call. simpl.
    rewrite !(bool_decide_false (_ = "destructive")) by done.
    destruct (person_role_floor_denial _ _ _); [done|].
    match goal with |- context [match ?x with Some g => _ | None => _ end] => destruct x as [reason|] end.
    - destruct (bool_decide (_ = SERVICE)); [|done]. destruct (gk_connector_id k) as [conn|]; [|done].
      pose proof (service_grant_preview k b b' conn reason s Hl) as Hs.
      destruct (service_grant_verdict (with_decide_only b k) _ _ _) as [s1 [v1 r1]],
               (service_grant_verdict (with_decide_only b' k) _ _ _) as [s2 [v2 r2]].
      simpl in Hs. injection Hs as -> ->. by destruct v2.
    - destruct (bool_decide (_ = SERVICE)); [|done]. by destruct (read_scope_denial _ _ _). }
  assert (snd (caller_verdict permissions scopes floors (with_decide_only b k) s) =
          snd (caller_verdict permissions scopes floors (with_decide_only b' k) s)) as Hc.
  { unfold caller_verdict. simpl. case_bool_decide; [|done]. unfold agent_verdict. simpl.
    by destruct (resolve_verdict _ _ _ _ _ _), (ed_requires_approval _); [case_bool_decide|]. }
  unfold policy_gate. simpl. destruct (gk_actor k) as [a|]; [|done]. unfold direct_run_verdict.
  change (agent_verdict permissions (acting_agent a (gk_operator (with_decide_only b k))) (with_decide_only b k))
    with (agent_verdict permissions (acting_agent a (gk_operator (with_decide_only b' k))) (with_decide_only b' k)).
  destruct (agent_verdict _ _ _) as [av ar]. simpl. case_bool_decide; [done|].
  destruct (bool_decide (av = NEEDS_APPROVAL) && _); [done|].
  destruct (caller_verdict _ _ _ (with_decide_only b k) s) as [s1 [v1 r1]],
           (caller_verdict _ _ _ (with_decide_only b' k) s) as [s2 [v2 r2]].
  simpl in Hc. injection Hc as -> ->. by case_bool_decide.
Qed.
End GateFacts.

(** * The gate over the grant tables *)

Section Closed.
Context (st : GrantSettings).
Context (binding : Operator -> EndpointDescriptor -> option Target -> string -> string -> json_dict ->
           option json_dict).
Context (effect : Operator -> EndpointDescriptor -> option Target -> string -> json_dict -> json).
Context (permissions : list AgentPermission) (scopes : list ServicePrincipalReadScope).
Context (floors : gmap string TenantRole).

(** The gate with the standing grants as its authority. *)
Definition policy_gate_db : GateCall -> GrantsDb -> GrantsDb * (PermissionVerdict * option string) :=
  @policy_gate GrantsDb (service_grants st binding effect) permissions scopes floors.

(** C3. A call runs at once only with authority.  The permissions of an agent that
    calls, and of the agent of a run that acts for a caller, answer auto-execute for
    it; it is not marked for approval, not of a known level above safe, and neither
    by nor for a read-only role.  A person's call passes the role floor of the
    operation, is not marked for approval, and is safe, or caution from the web
    interface.  A service's call either is unmarked, below dangerous, sent with GET
    or HEAD when it is caution, and inside the service's read scope where it has
    one; or a live standing grant for exactly this call clears it, and unless the
    gate is only asked to decide, the use is on the ledger. *)
Theorem auto_execute_has_authority k db db' r :
  policy_gate_db k db = (db', (AUTO_EXECUTE, r)) ->
  (op_principal_kind (gk_operator k) = AGENT -> db' = db /\ agent_entitled permissions (gk_operator k) k) /\
  (forall a, gk_actor k = Some a -> agent_entitled permissions (acting_agent a (gk_operator k)) k) /\
  (op_principal_kind (gk_operator k) <> AGENT ->
     (db' = db /\ entitled scopes floors k) \/
     (op_principal_kind (gk_operator k) = SERVICE /\
      exists conn id, gk_connector_id k = Some conn /\ may_clear st (grant_query k conn) db id /\
        if gk_decide_only k then db' = db
        else gu_grant_id <$> gd_ledger db' = (gu_grant_id <$> gd_ledger db) ++ [id])).
Proof.
  intros Hg. apply auto_execute_spec in Hg as (H1 & H2 & H3). split_and!; [done..|].
  intros Hk. destruct (H3 Hk) as [[? ?%runs_entitled]|(Hs & _ & conn & id & Hc & Ha & Hu)]; [by left|]. right. split.
  - unfold is_service_call in Hs. by to_prop.
  - by exists conn, id.
Qed.

(** Some calls never run at once, whoever makes them and whatever grants and
    permissions exist: a destructive operation outside sandbox mode, and an
    operation that connects to an address from the call, once the effective policy
    of the catalogue is applied to its row. *)
Theorem gated_operations_wait k db :
  (ed_safety_level (gk_descriptor k) = "destructive" /\ gs_sandbox_mode st = false) \/
  (exists overrides t row, has_caller_address (ed_parameter_schema row) = true /\
     gk_descriptor k = apply_effective_policy overrides t row) ->
  fst (snd (policy_gate_db k db)) <> AUTO_EXECUTE.
Proof.
  intros Hc. apply no_grant_never_auto.
  - destruct Hc as [[Hl _]|(overrides & t & row & Hca & Hd)]; [by right|]. left. rewrite Hd.
    destruct (apply_effective_policy_fields overrides t row) as [_ ->].
    unfold with_caller_address_floor, raise_for_caller_address. by rewrite Hca.
  - intros conn id Ha. destruct Hc as [[Hl Hsb]|(overrides & t & row & Hca & Hd)].
    + assert (gs_sandbox_mode st = true) by (by eapply (@authorises_destructive _ _ (service_grants_laws st binding effect))).
      congruence.
    + destruct Ha as [Ha _]. simpl in Ha. rewrite Hd in Ha.
      change (has_caller_address (ed_parameter_schema row) = false) in Ha. by rewrite Hca in Ha.
Qed.

(** The gate writes nothing but the use of a grant: the database is unchanged,
    or the call runs at once, is not a preview, was made by a service for which it
    would have waited, and exactly one row of a grant that covers it was added to
    the ledger. *)
Theorem gate_writes_only_grant_uses k db db' v r :
  policy_gate_db k db = (db', (v, r)) ->
  db' = db \/
  (v = AUTO_EXECUTE /\ gk_decide_only k = false /\ op_principal_kind (gk_operator k) = SERVICE /\
   ~ runs_at_once scopes floors k /\
   exists conn id, gk_connector_id k = Some conn /\ may_clear st (grant_query k conn) db id /\
     gu_grant_id <$> gd_ledger db' = (gu_grant_id <$> gd_ledger db) ++ [id]).
Proof.
  intros Hg. apply gate_writes in Hg as [?|(Hv & Hd & Hs & Hr & Hex)]; [by left|]. right.
  split_and!; try done. unfold is_service_call in Hs. by to_prop.
Qed.

(** A run that acts for a caller is never less strict than its own agent, and
    its verdict is the stricter of the agent's and the caller's, with one
    exception: when the agent's call waits and the caller, who is no agent, would
    be refused, the call waits. *)
Theorem direct_run_is_stricter k a db :
  gk_actor k = Some a ->
  let av := fst (agent_verdict permissions (acting_agent a (gk_operator k)) k) in
  let cv := fst (snd (@caller_verdict GrantsDb (service_grants st binding effect) permissions scopes floors k db)) in
  let v := fst (snd (policy_gate_db k db)) in
  verdict_le av v /\
  (v = more_restrictive cv av \/
   (v = NEEDS_APPROVAL /\ av = NEEDS_APPROVAL /\ cv = DENY /\ op_principal_kind (gk_operator k) <> AGENT)).
Proof. apply direct_run_spec. Qed.

(** A preview tells the truth: it changes nothing, and below the destructive
    level its verdict and reason are those of the call itself. *)
Theorem preview_agrees k db :
  fst (policy_gate_db (with_decide_only true k) db) = db /\
  (ed_safety_level (gk_descriptor k) <> "destructive" ->
   snd (policy_gate_db (with_decide_only true k) db) = snd (policy_gate_db (with_decide_only false k) db)).
Proof.
  split; [by apply decide_only_unchanged|]. intros Hl. by apply preview_spec.
Qed.
End Closed.

(** ** Concrete calls *)

Definition w_grants : GrantsDb := fst w_create.

(** The service of [w_query] calls the operation its grant covers. *)
Definition w_call : GateCall := {|
  gk_operator := w_operator; gk_descriptor := w_descriptor; gk_target := gq_target w_query;
  gk_connector_id := Some "gh-rest-3"; gk_preview_hash := None; gk_params := None; gk_decide_only := false;
  gk_actor := None; gk_now := 5 |}.

Definition w_gate : GateCall -> GrantsDb -> GrantsDb * (PermissionVerdict * option string) :=
  policy_gate_db w_settings w_binding w_effect [] [] ∅.

Lemma auto_execute_has_authority_witness :
  exists db' conn id, w_gate w_call w_grants = (db', (AUTO_EXECUTE, Some "auto-granted by standing grant g1")) /\
    may_clear w_settings (grant_query w_call conn) w_grants id.
Proof.
  destruct (w_gate w_call w_grants) as [db' out] eqn:Hg.
  assert (out = (AUTO_EXECUTE, Some "auto-granted by standing grant g1")) as ->.
  { apply (f_equal snd) in Hg. vm_compute in Hg. by subst. }
  destruct (auto_execute_has_authority w_settings w_binding w_effect [] [] ∅ w_call w_grants db' _ Hg)
    as (_ & _ & [[_ [Ha _ _ _ _]]|(_ & conn & id & _ & Hm & _)]); [done|discriminate Ha|].
  by exists db', conn, id.
Defined.

Definition w_delete : GateCall := {|
  gk_operator := w_operator;
  gk_descriptor := {| ed_tenant_id := None; ed_key := ed_key w_descriptor; ed_is_enabled := true;
    ed_owner_package := None; ed_method := None; ed_tags := []; ed_safety_level := "destructive";
    ed_requires_approval := false; ed_parameter_schema := JDict [] |};
  gk_target := gq_target w_query; gk_connector_id := Some "gh-rest-3"; gk_preview_hash := None;
  gk_params := None; gk_decide_only := false; gk_actor := None; gk_now := 5 |}.

Lemma gated_operations_wait_witness :
  fst (snd (w_gate w_delete w_grants)) = NEEDS_APPROVAL /\ fst (snd (w_gate w_delete w_grants)) <> AUTO_EXECUTE.
Proof.
  split; [vm_compute; reflexivity|].
  apply (gated_operations_wait w_settings w_binding w_effect [] [] ∅ w_delete w_grants). left. split; reflexivity.
Defined.

Lemma gate_writes_only_grant_uses_witness :
  exists db', fst (w_gate w_call w_grants) = db' /\ db' <> w_grants /\
    exists id, gu_grant_id <$> gd_ledger db' = (gu_grant_id <$> gd_ledger w_grants) ++ [id].
Proof.
  assert (length (gd_ledger (fst (w_gate w_call w_grants))) = 1) as Hlen by (vm_compute; reflexivity).
  destruct (w_gate w_call w_grants) as [db' [v r]] eqn:Hg. exists db'. simpl in Hlen.
  assert (db' <> w_grants) as Hne by (intros ->; vm_compute in Hlen; done).
  split_and!; [done|done|].
  destruct (gate_writes_only_grant_uses w_settings w_binding w_effect [] [] ∅ w_call w_grants db' v r Hg)
    as [?|(_ & _ & _ & _ & conn & id & _ & _ & Hu)]; [done|]. by exists id.
Defined.

(** An agent run started by a read-only person. *)
Definition w_person : Operator := {|
  op_sub := "bob"; op_tenant_id := "t"; op_tenant_role := READ_ONLY; op_principal_kind := USER;
  op_client_id := None; op_platform_admin := false; op_web_session := false; op_name := None; op_approver := false; op_self_approver := false;
  op_tenant_chosen := true; op_auth_time := None; op_sid := None; op_acr := None; op_azp := None |}.
Definition w_floors : gmap string TenantRole := {["gh.issue.create" := TENANT_ADMIN]}.
Definition w_direct : GateCall := {|
  gk_operator := w_person; gk_descriptor := w_descriptor; gk_target := None; gk_connector_id := Some "gh-rest-3";
  gk_preview_hash := None; gk_params := None; gk_decide_only := false; gk_actor := Some "agent:x"; gk_now := 5 |}.

Lemma direct_run_is_stricter_witness :
  verdict_le (fst (agent_verdict [] (acting_agent "agent:x" w_person) w_direct))
             (fst (snd (w_gate w_direct w_grants))).
Proof.
  apply (direct_run_is_stricter w_settings w_binding w_effect [] [] ∅ w_direct "agent:x" w_grants). reflexivity.
Defined.

Lemma preview_agrees_witness :
  snd (w_gate (with_decide_only true w_call) w_grants) = snd (w_gate (with_decide_only false w_call) w_grants).
Proof. apply (preview_agrees w_settings w_binding w_effect [] [] ∅ w_call w_grants). discriminate. Defined.

(** The comment on the direct run says that a person never gets a refusal for a
    call that waits.  A person below the role floor does: the same call that is
    refused to the person waits for approval when an agent makes it for them. *)
Theorem parked_direct_run_hides_a_refusal :
  fst (snd (@caller_verdict GrantsDb (service_grants w_settings w_binding w_effect) [] [] w_floors w_direct w_grants)) = DENY /\
  fst (snd (policy_gate_db w_settings w_binding w_effect [] [] w_floors w_direct w_grants)) = NEEDS_APPROVAL.
Proof. vm_compute. done. Qed.
