(* ===== verification/GatewayQueue.v ===== *)
(** The outbound gateway's command queue ([gateway/queue.py]), the acceptance of a
    runner's result ([operations/gateway_commands.py]), the sweep for unreported
    commands ([gateway/unreported_mint.py]) and the satellite tier ladder
    ([runner/satellite_tier.py]).

    A claim reads a candidate and then flips it with a conditional update; the two
    are separate steps here, so that claimers may interleave.  The acceptance of a
    result is one transaction: its first update locks the row for the others. *)

From S2P Require Import Prelude Json Glob.

(** * Rows *)

Inductive GatewayCommandStatus := gw_pending | gw_delivered | gw_succeeded | gw_failed.
#[export] Instance GatewayCommandStatus_eq_dec : EqDecision GatewayCommandStatus.
Proof. solve_decision. Defined.

Record GatewayCommand := {
  gc_id : uuid;
  gc_tenant_id : uuid;
  gc_runner_id : string;
  gc_op_id : string;
  gc_params : json_dict;
  gc_target_descriptor : option json_dict;
  gc_status : GatewayCommandStatus;
  gc_result : option json_dict;
  gc_error : option string;
  gc_enqueued_by_sub : string;
  gc_enqueued_at : datetime;
  gc_delivered_at : option datetime;
  gc_completed_at : option datetime;
  gc_params_hash : string;
  gc_expires_at : datetime;
  gc_consumed_at : option datetime;
  gc_mint_audit_id : option uuid;
  gc_signature : option string;
  gc_safety_level : string;
  gc_unreported_alarm_at : option datetime;
}.

(** The audit row of an accepted result. *)
Record GatewayAudit := {
  ga_operator_sub : string;
  ga_tenant_id : uuid;
  ga_command_id : uuid;
  ga_op_id : string;
  ga_runner_id : string;
  ga_outcome : GatewayCommandStatus;
  ga_parent_audit_id : option uuid;
}.

Record GatewayDb := {
  gw_commands : list GatewayCommand;
  gw_audit : list GatewayAudit;
}.

Inductive GatewayError :=
| GatewayCommandNotFoundError
| GatewayCommandNotDeliveredError (status : GatewayCommandStatus)
| GatewayCommandAlreadyConsumedError
| GatewayOutcomeError
| GatewayIntegrityError.

(** * The tier ladder *)

Inductive SatelliteMintTier := TIER_SAFE | TIER_REMOTE_WRITE | TIER_EXCLUDED.
#[export] Instance SatelliteMintTier_eq_dec : EqDecision SatelliteMintTier.
Proof. solve_decision. Defined.

Definition REMOTE_WRITE_SAFETY_LEVELS : list string := ["caution"].

(** [is_safe_write] is the registry of operations a connector declared as safe
    writes ([op_classes.py]). *)
Definition classify_satellite_tier (is_safe_write : string -> bool) (safety_level op_id : string)
  : SatelliteMintTier :=
  if bool_decide (safety_level = "safe")
  then if is_safe_write op_id then TIER_EXCLUDED else TIER_SAFE
  else if bool_decide (safety_level = "caution") then TIER_REMOTE_WRITE
  else TIER_EXCLUDED.

Record RemoteWriteAllowEntry := { ae_op_pattern : string; ae_target_scope : string }.
#[export] Instance RemoteWriteAllowEntry_eq_dec : EqDecision RemoteWriteAllowEntry.
Proof. solve_decision. Defined.

Definition parse_allow_token (token : string) : option RemoteWriteAllowEntry :=
  let spec := py_strip token in
  if bool_decide (spec = "") then None
  else
    let '(op, scope) := partition_on "@" spec in
    let op_pattern := py_strip op in
    if bool_decide (op_pattern = "") then None
    else
      let scope := match scope with Some s => py_strip s | None => "*" end in
      Some {| ae_op_pattern := op_pattern;
              ae_target_scope := if bool_decide (scope = "") then "*" else scope |}.

Definition parse_runner_allowlist (raw : string) : list RemoteWriteAllowEntry :=
  omap parse_allow_token (split_on "," raw).

Definition entry_admits (op_id target_scope : string) (e : RemoteWriteAllowEntry) : bool :=
  fnmatch op_id (ae_op_pattern e) && fnmatch target_scope (ae_target_scope e).

Inductive RemoteWriteGateDecision := gate_permitted | gate_unprovisioned | gate_off_allowlist.

(** The refusal texts are kept as the two cases they distinguish. *)
Definition evaluate_remote_write_gate (op_id : string) (allowlist : list RemoteWriteAllowEntry)
  (target_scope : string) : RemoteWriteGateDecision :=
  if existsb (entry_admits op_id target_scope) allowlist then gate_permitted
  else match allowlist with [] => gate_unprovisioned | _ => gate_off_allowlist end.

(** * The queue *)

(** Five minutes, in microseconds. *)
Definition GATEWAY_COMMAND_DEFAULT_TTL : Z := 300000000.
Definition GATEWAY_LONGPOLL_MAX_WAIT_SECONDS : Z := 30.

Definition bound_capability_expiry (requested : option datetime) (now : datetime) : datetime :=
  let ceiling := (now + GATEWAY_COMMAND_DEFAULT_TTL)%Z in
  match requested with None => ceiling | Some r => Z.min r ceiling end.

Definition clamp_longpoll_wait (requested : Z) : Z :=
  Z.min (Z.max requested 0) GATEWAY_LONGPOLL_MAX_WAIT_SECONDS.

Section Queue.
(** [params_digest] of [runner/work_item_signing.py]: SHA-256 over the canonical
    JSON of the params. *)
Context (params_digest : json_dict -> string).

Record EnqueueRequest := {
  en_tenant_id : uuid;
  en_runner_id : string;
  en_op_id : string;
  en_params : json_dict;
  en_enqueued_by_sub : string;
  en_target_descriptor : option json_dict;
  en_params_hash : option string;
  en_expires_at : option datetime;
  en_mint_audit_id : option uuid;
  en_safety_level : string;
}.

(** [id] is the value of [uuid.uuid4()]; [now] and [now'] are the two readings of
    the clock. *)
Definition new_command (rq : EnqueueRequest) (id : uuid) (now now' : datetime) : GatewayCommand := {|
  gc_id := id; gc_tenant_id := en_tenant_id rq; gc_runner_id := en_runner_id rq;
  gc_op_id := en_op_id rq; gc_params := en_params rq; gc_target_descriptor := en_target_descriptor rq;
  gc_status := gw_pending; gc_result := None; gc_error := None;
  gc_enqueued_by_sub := en_enqueued_by_sub rq; gc_enqueued_at := now; gc_delivered_at := None;
  gc_completed_at := None;
  gc_params_hash := match en_params_hash rq with Some h => h | None => params_digest (en_params rq) end;
  gc_expires_at := bound_capability_expiry (en_expires_at rq) now';
  gc_consumed_at := None; gc_mint_audit_id := en_mint_audit_id rq; gc_signature := None;
  gc_safety_level := en_safety_level rq; gc_unreported_alarm_at := None |}.

Definition set_commands (f : list GatewayCommand -> list GatewayCommand) (db : GatewayDb) : GatewayDb :=
  {| gw_commands := f (gw_commands db); gw_audit := gw_audit db |}.

Definition enqueue_command (rq : EnqueueRequest) (id : uuid) (now now' : datetime)
  : txn GatewayDb GatewayError GatewayCommand :=
  _ ← read_db (fun db => guard_or GatewayIntegrityError (bool_decide (id ∉ gc_id <$> gw_commands db)));
  _ ← commit (set_commands (fun l => l ++ [new_command rq id now now']));
  mret (new_command rq id now now').

(** The candidates of [_pending_claim_stmt]. *)
Definition claimable (tenant_id : uuid) (runner_id : string) (now : datetime) (runner_revoked : bool)
  (c : GatewayCommand) : bool :=
  bool_decide (gc_tenant_id c = tenant_id) && bool_decide (gc_runner_id c = runner_id) &&
  bool_decide (gc_status c = gw_pending) && (now <? gc_expires_at c)%Z &&
  bool_decide (gc_consumed_at c = None) &&
  (negb runner_revoked || negb (bool_decide (gc_safety_level c ∈ REMOTE_WRITE_SAFETY_LEVELS))).

Definition enqueued_le (a b : GatewayCommand) : Prop := (gc_enqueued_at a <= gc_enqueued_at b)%Z.
#[export] Instance enqueued_le_dec a b : Decision (enqueued_le a b) := Z_le_dec _ _.

Definition pending_claim (tenant_id : uuid) (runner_id : string) (now : datetime) (runner_revoked : bool)
  (db : GatewayDb) : option GatewayCommand :=
  head (merge_sort enqueued_le
          (select_where (claimable tenant_id runner_id now runner_revoked) (gw_commands db))).

Definition params_hash_intact (c : GatewayCommand) : bool :=
  bool_decide (params_digest (gc_params c) = gc_params_hash c).

(** The read half of a claim. *)
Definition claim_select (tenant_id : uuid) (runner_id : string) (now : datetime) (runner_revoked : bool)
  (db : GatewayDb) : option GatewayCommand :=
  row ← pending_claim tenant_id runner_id now runner_revoked db;
  if params_hash_intact row then Some row else None.

Definition deliver (now : datetime) (c : GatewayCommand) : GatewayCommand := {|
  gc_id := gc_id c; gc_tenant_id := gc_tenant_id c; gc_runner_id := gc_runner_id c;
  gc_op_id := gc_op_id c; gc_params := gc_params c; gc_target_descriptor := gc_target_descriptor c;
  gc_status := gw_delivered; gc_result := gc_result c; gc_error := gc_error c;
  gc_enqueued_by_sub := gc_enqueued_by_sub c; gc_enqueued_at := gc_enqueued_at c;
  gc_delivered_at := Some now; gc_completed_at := gc_completed_at c;
  gc_params_hash := gc_params_hash c; gc_expires_at := gc_expires_at c;
  gc_consumed_at := gc_consumed_at c; gc_mint_audit_id := gc_mint_audit_id c; gc_signature := gc_signature c;
  gc_safety_level := gc_safety_level c; gc_unreported_alarm_at := gc_unreported_alarm_at c |}.

(** A conditional [UPDATE]: the new table, and whether a row matched. *)
Definition conditional_update (p : GatewayCommand -> bool) (f : GatewayCommand -> GatewayCommand)
  (db : GatewayDb) : GatewayDb * bool :=
  (set_commands (update_where p f) db, existsb p (gw_commands db)).

(** The write half of a claim: [None] when the row was no longer pending. *)
Definition claim_flip (row : GatewayCommand) (now : datetime) (db : GatewayDb)
  : GatewayDb * option GatewayCommand :=
  let '(db', won) := conditional_update (fun c => bool_decide (gc_id c = gc_id row) &&
                                                  bool_decide (gc_status c = gw_pending))
                       (deliver now) db in
  (db', if won then Some (deliver now row) else None).

Definition claim_next_command (tenant_id : uuid) (runner_id : string) (runner_revoked : bool)
  (now : datetime) (db : GatewayDb) : GatewayDb * option GatewayCommand :=
  match claim_select tenant_id runner_id now runner_revoked db with
  | None => (db, None)
  | Some row => claim_flip row now db
  end.

(** ** Results *)

Definition get_command (db : GatewayDb) (id : uuid) : option GatewayCommand :=
  List.find (fun c => bool_decide (gc_id c = id)) (gw_commands db).

Definition load_own (tenant_id : uuid) (runner_id : string) (command_id : uuid) (db : GatewayDb)
  : res GatewayError GatewayCommand :=
  row ← ok_or GatewayCommandNotFoundError (get_command db command_id);
  _ ← guard_or GatewayCommandNotFoundError
        (bool_decide (gc_tenant_id row = tenant_id) && bool_decide (gc_runner_id row = runner_id));
  Ok row.

Definition complete (outcome : GatewayCommandStatus) (result : option json_dict) (error : option string)
  (now : datetime) (c : GatewayCommand) : GatewayCommand := {|
  gc_id := gc_id c; gc_tenant_id := gc_tenant_id c; gc_runner_id := gc_runner_id c;
  gc_op_id := gc_op_id c; gc_params := gc_params c; gc_target_descriptor := gc_target_descriptor c;
  gc_status := outcome; gc_result := result; gc_error := error;
  gc_enqueued_by_sub := gc_enqueued_by_sub c; gc_enqueued_at := gc_enqueued_at c;
  gc_delivered_at := gc_delivered_at c; gc_completed_at := Some now;
  gc_params_hash := gc_params_hash c; gc_expires_at := gc_expires_at c;
  gc_consumed_at := gc_consumed_at c; gc_mint_audit_id := gc_mint_audit_id c; gc_signature := gc_signature c;
  gc_safety_level := gc_safety_level c; gc_unreported_alarm_at := gc_unreported_alarm_at c |}.

(** The caller owns the transaction: an exception rolls it back. *)
Definition record_result (tenant_id : uuid) (runner_id : string) (command_id : uuid)
  (outcome : GatewayCommandStatus) (result : option json_dict) (error : option string) (now : datetime)
  (db : GatewayDb) : res GatewayError (GatewayDb * GatewayCommand) :=
  _ ← guard_or GatewayOutcomeError (bool_decide (outcome = gw_succeeded) || bool_decide (outcome = gw_failed));
  row ← load_own tenant_id runner_id command_id db;
  _ ← guard_or (GatewayCommandNotDeliveredError (gc_status row)) (bool_decide (gc_status row = gw_delivered));
  let '(db', won) := conditional_update (fun c => bool_decide (gc_id c = command_id) &&
                                                  bool_decide (gc_status c = gw_delivered))
                       (complete outcome result error now) db in
  if won then Ok (db', complete outcome result error now row)
  else Raise (GatewayCommandNotDeliveredError (gc_status row)).

Definition set_consumed (now : datetime) (c : GatewayCommand) : GatewayCommand := {|
  gc_id := gc_id c; gc_tenant_id := gc_tenant_id c; gc_runner_id := gc_runner_id c;
  gc_op_id := gc_op_id c; gc_params := gc_params c; gc_target_descriptor := gc_target_descriptor c;
  gc_status := gc_status c; gc_result := gc_result c; gc_error := gc_error c;
  gc_enqueued_by_sub := gc_enqueued_by_sub c; gc_enqueued_at := gc_enqueued_at c;
  gc_delivered_at := gc_delivered_at c; gc_completed_at := gc_completed_at c;
  gc_params_hash := gc_params_hash c; gc_expires_at := gc_expires_at c;
  gc_consumed_at := Some now; gc_mint_audit_id := gc_mint_audit_id c; gc_signature := gc_signature c;
  gc_safety_level := gc_safety_level c; gc_unreported_alarm_at := gc_unreported_alarm_at c |}.

(** Losing the latch reloads the row to tell a replay from a row never delivered. *)
Definition consume_command (tenant_id : uuid) (runner_id : string) (command_id : uuid) (now : datetime)
  (db : GatewayDb) : res GatewayError (GatewayDb * GatewayCommand) :=
  row ← load_own tenant_id runner_id command_id db;
  let '(db', won) := conditional_update (fun c => bool_decide (gc_id c = command_id) &&
                                                  bool_decide (gc_consumed_at c = None) &&
                                                  bool_decide (gc_status c = gw_delivered))
                       (set_consumed now) db in
  if won then Ok (db', set_consumed now row)
  else Raise (if bool_decide (gc_consumed_at row = None)
              then GatewayCommandNotDeliveredError (gc_status row)
              else GatewayCommandAlreadyConsumedError).

Definition add_gateway_audit (a : GatewayAudit) (db : GatewayDb) : GatewayDb :=
  {| gw_commands := gw_commands db; gw_audit := gw_audit db ++ [a] |}.

Definition accept_command_result (operator_sub : string) (tenant_id : uuid) (runner_id : string)
  (command_id : uuid) (outcome : GatewayCommandStatus) (result : option json_dict)
  (error : option string) (now now' : datetime) : txn GatewayDb GatewayError GatewayCommand := fun db =>
  match (c1 ← consume_command tenant_id runner_id command_id now db;
         record_result tenant_id runner_id command_id outcome result error now' (fst c1)) with
  | Raise e => (db, Raise e)
  | Ok (db', row) =>
      (add_gateway_audit {| ga_operator_sub := operator_sub; ga_tenant_id := tenant_id;
         ga_command_id := command_id; ga_op_id := gc_op_id row; ga_runner_id := runner_id; ga_outcome := outcome;
         ga_parent_audit_id := gc_mint_audit_id row |} db', Ok row)
  end.

(** ** The sweep for unreported remote writes *)

Definition set_alarmed (now : datetime) (c : GatewayCommand) : GatewayCommand := {|
  gc_id := gc_id c; gc_tenant_id := gc_tenant_id c; gc_runner_id := gc_runner_id c;
  gc_op_id := gc_op_id c; gc_params := gc_params c; gc_target_descriptor := gc_target_descriptor c;
  gc_status := gc_status c; gc_result := gc_result c; gc_error := gc_error c;
  gc_enqueued_by_sub := gc_enqueued_by_sub c; gc_enqueued_at := gc_enqueued_at c;
  gc_delivered_at := gc_delivered_at c; gc_completed_at := gc_completed_at c;
  gc_params_hash := gc_params_hash c; gc_expires_at := gc_expires_at c;
  gc_consumed_at := gc_consumed_at c; gc_mint_audit_id := gc_mint_audit_id c; gc_signature := gc_signature c;
  gc_safety_level := gc_safety_level c; gc_unreported_alarm_at := Some now |}.

Definition unreported (now : datetime) (c : GatewayCommand) : bool :=
  bool_decide (gc_safety_level c ∈ REMOTE_WRITE_SAFETY_LEVELS) && bool_decide (gc_consumed_at c = None) &&
  (gc_expires_at c <? now)%Z && bool_decide (gc_unreported_alarm_at c = None).

Definition expires_le (a b : GatewayCommand) : Prop := (gc_expires_at a <= gc_expires_at b)%Z.
#[export] Instance expires_le_dec a b : Decision (expires_le a b) := Z_le_dec _ _.

(** The ids alarmed by one tick, and the table after it. *)
Definition alarm_one (now : datetime) (acc : GatewayDb * list uuid) (c : GatewayCommand)
  : GatewayDb * list uuid :=
  let '(db', won) := conditional_update (fun x => bool_decide (gc_id x = gc_id c) &&
                                                  bool_decide (gc_unreported_alarm_at x = None))
                       (set_alarmed now) (fst acc) in
  (db', if won then snd acc ++ [gc_id c] else snd acc).

Definition unreported_tick (now : datetime) (db : GatewayDb) : GatewayDb * list uuid :=
  foldl (alarm_one now) (db, []) (merge_sort expires_le (select_where (unreported now) (gw_commands db))).
End Queue.

(** * The claim *)

Lemma enqueued_le_total : Total enqueued_le.
Proof. intros a b. unfold enqueued_le. lia. Qed.
Lemma enqueued_le_trans : Transitive enqueued_le.
Proof. intros a b c. unfold enqueued_le. lia. Qed.

Lemma pending_claim_spec t r now revoked db c :
  pending_claim t r now revoked db = Some c ->
  c ∈ gw_commands db /\ claimable t r now revoked c = true /\
  forall x, x ∈ gw_commands db -> claimable t r now revoked x = true -> (gc_enqueued_at c <= gc_enqueued_at x)%Z.
Proof.
  unfold pending_claim. set (sel := select_where _ _).
  assert (merge_sort enqueued_le sel ≡ₚ sel) as Hp by apply merge_sort_Permutation.
  assert (StronglySorted enqueued_le (merge_sort enqueued_le sel)) as Hs
    by (apply StronglySorted_merge_sort; [apply enqueued_le_trans|apply enqueued_le_total]).
  destruct (merge_sort enqueued_le sel) as [|c0 l] eqn:Hm; [done|]. intros [= ->].
  assert (c ∈ sel) as Hc by (rewrite <- Hp; left). apply elem_of_select in Hc as [Hc Hcl].
  split_and!; [done..|]. intros x Hx Hxc.
  assert (x ∈ sel) as Hxs by (by apply elem_of_select). rewrite <- Hp in Hxs.
  apply elem_of_cons in Hxs as [->|Hxs]; [done|]. apply StronglySorted_inv in Hs as [_ Hall].
  rewrite Forall_forall in Hall. by apply Hall.
Qed.

Lemma claim_flip_won row now db db' c :
  claim_flip row now db = (db', Some c) ->
  c = deliver now row /\ db' = set_commands (update_where (fun c => bool_decide (gc_id c = gc_id row) &&
    bool_decide (gc_status c = gw_pending)) (deliver now)) db /\
  exists x, x ∈ gw_commands db /\ gc_id x = gc_id row /\ gc_status x = gw_pending.
Proof.
  unfold claim_flip, conditional_update. destruct (existsb _ _) eqn:He; [|done]. intros [= <- <-].
  split_and!; [done..|]. apply existsb_exists in He as (x & Hx & Hp). rewrite <- list_elem_of_In in Hx.
  to_prop. eauto.
Qed.

Lemma claim_flip_lost row now db db' :
  claim_flip row now db = (db', None) -> gw_commands db' = gw_commands db /\ gw_audit db' = gw_audit db.
Proof.
  unfold claim_flip, conditional_update. destruct (existsb _ _) eqn:He; [done|]. intros [= <-]. split; [|done].
  apply update_where_none. intros r Hr. apply not_true_iff_false. intros Hp.
  apply not_true_iff_false in He as []. apply existsb_exists. exists r. by rewrite <- list_elem_of_In.
Qed.

(** What a runner gets from a claim is its own: the command was queued for
    this tenant and runner, it is pending, not expired and not consumed, its
    parameters still have the digest they were minted with, it is no remote write
    when the runner is revoked, and no claimable command was queued before it.
    Afterwards its stored row is delivered. *)
Theorem claim_is_authorised digest t r revoked now db db' c :
  NoDup (gc_id <$> gw_commands db) ->
  claim_next_command digest t r revoked now db = (db', Some c) ->
  exists x, x ∈ gw_commands db /\ c = deliver now x /\ c ∈ gw_commands db' /\
    gc_tenant_id x = t /\ gc_runner_id x = r /\ gc_status x = gw_pending /\
    (now < gc_expires_at x)%Z /\ gc_consumed_at x = None /\
    digest (gc_params x) = gc_params_hash x /\
    (forall is_safe_write, revoked = true ->
       classify_satellite_tier is_safe_write (gc_safety_level x) (gc_op_id x) <> TIER_REMOTE_WRITE) /\
    forall y, y ∈ gw_commands db -> claimable t r now revoked y = true ->
      (gc_enqueued_at x <= gc_enqueued_at y)%Z.
Proof.
  intros Hnd H. unfold claim_next_command, claim_select in H.
  destruct (pending_claim t r now revoked db) as [x|] eqn:Hp; [|done]. simpl in H.
  destruct (params_hash_intact digest x) eqn:Hh; [|done].
  apply pending_claim_spec in Hp as (Hx & Hcl & Hfifo). apply claim_flip_won in H as (-> & -> & _).
  unfold claimable, params_hash_intact in *. apply bool_decide_eq_true in Hh.
  apply andb_true_iff in Hcl as [Hcl Hrev]. to_prop.
  exists x. split_and!; try done.
  - simpl. apply elem_of_update. exists x. split; [done|]. by rewrite !bool_decide_true.
  - intros isw ->. simpl in Hrev. to_prop. unfold classify_satellite_tier. intros Htier. apply Hrev.
    repeat case_bool_decide; try done; [by destruct (isw _)|].
    match goal with E : gc_safety_level x = _ |- _ => rewrite E end. left.
Qed.

(** * Deliveries and results over time *)

Inductive gw_event := ev_delivered (id : uuid) | ev_accepted (id : uuid).
Definition ev_id (e : gw_event) : uuid := match e with ev_delivered i | ev_accepted i => i end.

(** One step of the queue.  A flip takes any row some earlier read returned. *)
Inductive gw_step (digest : json_dict -> string) : GatewayDb -> list gw_event -> GatewayDb -> Prop :=
| gs_enqueue rq id now now' db db' c :
    enqueue_command digest rq id now now' db = (db', Ok c) -> gw_step digest db [] db'
| gs_flip row now db db' c :
    claim_flip row now db = (db', Some c) -> gw_step digest db [ev_delivered (gc_id c)] db'
| gs_flip_lost row now db db' : claim_flip row now db = (db', None) -> gw_step digest db [] db'
| gs_accept sub t r id outcome result error now now' db db' c :
    accept_command_result sub t r id outcome result error now now' db = (db', Ok c) ->
    gw_step digest db [ev_accepted id] db'
| gs_refused sub t r id outcome result error now now' db db' e :
    accept_command_result sub t r id outcome result error now now' db = (db', Raise e) ->
    gw_step digest db [] db'
| gs_tick now db : gw_step digest db [] (fst (unreported_tick now db)).

Inductive gw_run (digest : json_dict -> string) : list gw_event -> GatewayDb -> Prop :=
| gr_start : gw_run digest [] {| gw_commands := []; gw_audit := [] |}
| gr_step evs db evs' db' :
    gw_run digest evs db -> gw_step digest db evs' db' -> gw_run digest (evs ++ evs') db'.

Definition finished (s : GatewayCommandStatus) : Prop := s = gw_succeeded \/ s = gw_failed.

(** What a row says of the past. *)
Record row_ok (evs : list gw_event) (c : GatewayCommand) : Prop := {
  rw_delivered : ev_delivered (gc_id c) ∈ evs <-> gc_status c <> gw_pending;
  rw_accepted : ev_accepted (gc_id c) ∈ evs <-> gc_consumed_at c <> None;
  rw_consumed : gc_consumed_at c <> None <-> finished (gc_status c);
}.

Definition accepted_ids (evs : list gw_event) : list uuid :=
  omap (fun e => match e with ev_accepted i => Some i | _ => None end) evs.

Record gw_inv (evs : list gw_event) (db : GatewayDb) : Prop := {
  gi_ids : NoDup (gc_id <$> gw_commands db);
  gi_rows : forall c, c ∈ gw_commands db -> row_ok evs c;
  gi_events : forall e, e ∈ evs -> ev_id e ∈ gc_id <$> gw_commands db;
  gi_once : NoDup evs;
  gi_audit : ga_command_id <$> gw_audit db = accepted_ids evs;
}.

(** An update of rows that records one event. *)
Lemma gw_inv_update evs evs' db db' p f :
  gw_inv evs db -> (forall c, gc_id (f c) = gc_id c) ->
  gw_commands db' = update_where p f (gw_commands db) ->
  (forall c, c ∈ gw_commands db -> row_ok (evs ++ evs') (if p c then f c else c)) ->
  (forall e, e ∈ evs' -> ev_id e ∈ gc_id <$> gw_commands db) ->
  NoDup (evs ++ evs') ->
  ga_command_id <$> gw_audit db' = accepted_ids (evs ++ evs') ->
  gw_inv (evs ++ evs') db'.
Proof.
  intros Hinv Hf Hc Hrows Hev Hnd Ha.
  assert (gc_id <$> gw_commands db' = gc_id <$> gw_commands db) as Hids
    by (rewrite Hc; by apply update_where_keys).
  constructor; rewrite ?Hids; try done.
  - apply Hinv.
  - intros c. rewrite Hc, elem_of_update. intros (c0 & Hc0 & ->). by apply Hrows.
  - intros e [He|He]%elem_of_app; [by apply (gi_events _ _ Hinv)|by apply Hev].
Qed.

(** Another command's event says nothing about the row. *)
Lemma row_ok_other evs e c : row_ok evs c -> ev_id e <> gc_id c -> row_ok (evs ++ [e]) c.
Proof.
  intros [Hd Ha Hc] Hne. constructor; [rewrite <- Hd|rewrite <- Ha|done];
    rewrite elem_of_app, list_elem_of_singleton; split; auto; intros [?|<-]; done.
Qed.

Lemma accepted_snoc evs e :
  accepted_ids (evs ++ [e]) = accepted_ids evs ++ match e with ev_accepted i => [i] | _ => [] end.
Proof. unfold accepted_ids. rewrite omap_app. by destruct e. Qed.

Lemma flip_inv evs row now db db' c :
  gw_inv evs db -> claim_flip row now db = (db', Some c) -> gw_inv (evs ++ [ev_delivered (gc_id c)]) db'.
Proof.
  intros Hinv (-> & -> & x & Hx & Hid & Hst)%claim_flip_won. simpl.
  assert (forall y, y ∈ gw_commands db -> gc_id y = gc_id row -> y = x) as Huniq.
  { intros y Hy Hyid. eapply (key_inj gc_id); [apply Hinv|done|done|congruence]. }
  destruct (gi_rows _ _ Hinv x Hx) as [Hd Ha Hc].
  assert (ev_delivered (gc_id row) ∉ evs) as Hnew by (rewrite <- Hid, Hd; tauto).
  eapply (gw_inv_update evs); [done| |reflexivity|..]; [by intros []|..].
  - intros y Hy. cbv beta. case_bool_decide as Hyid; [|by apply row_ok_other; [apply (gi_rows _ _ Hinv)|]].
    rewrite (Huniq y Hy Hyid), Hst, bool_decide_true by done. simpl. rewrite <- Hid.
    constructor; simpl; rewrite ?elem_of_app, ?list_elem_of_singleton.
    + split; [done|]. by right.
    + rewrite <- Ha. split; [intros [?|?]; done|by left].
    + rewrite Hc, Hst. unfold finished. split; intros []; done.
  - intros e ->%list_elem_of_singleton. simpl. rewrite <- Hid. by apply list_elem_of_fmap_2.
  - apply NoDup_snoc; [apply Hinv|done].
  - rewrite accepted_snoc, app_nil_r. apply Hinv.
Qed.


(** On a unique key, a conditional update whose condition the row meets is an
    update by key. *)
Lemma latch_key p g f id x rows :
  NoDup (gc_id <$> rows) -> x ∈ rows -> gc_id x = id -> g x = true ->
  (forall c, p c = bool_decide (gc_id c = id) && g c) ->
  update_where p f rows = update_where (fun c => bool_decide (gc_id c = id)) f rows.
Proof.
  intros Hnd Hx Hid Hg Hp. apply update_where_ext. intros r Hr. rewrite Hp.
  case_bool_decide as Hk; [|done]. assert (r = x) as -> by (eapply (key_inj gc_id); eauto; congruence). done.
Qed.

Lemma load_own_Ok t r id db c :
  load_own t r id db = Ok c ->
  c ∈ gw_commands db /\ gc_id c = id /\ gc_tenant_id c = t /\ gc_runner_id c = r.
Proof.
  unfold load_own, get_command. intros H. invert_ok.
  match goal with F : List.find _ _ = Some _ |- _ => apply find_Some_iff in F as [? ?] end.
  to_prop. auto.
Qed.

Lemma consume_Ok t r id now db db' c :
  NoDup (gc_id <$> gw_commands db) -> consume_command t r id now db = Ok (db', c) ->
  exists x, x ∈ gw_commands db /\ gc_id x = id /\ gc_tenant_id x = t /\ gc_runner_id x = r /\
    gc_status x = gw_delivered /\ gc_consumed_at x = None /\ c = set_consumed now x /\
    db' = set_commands (update_where (fun c => bool_decide (gc_id c = id)) (set_consumed now)) db.
Proof.
  intros Hnd H. unfold consume_command in H. apply bind_Ok in H as (x & Hl & H).
  apply load_own_Ok in Hl as (Hx & Hid & Ht & Hr). unfold conditional_update in H.
  destruct (existsb _ _) eqn:He; [|done]. injection H as <- <-.
  apply existsb_exists in He as (y & Hy & Hp). rewrite <- list_elem_of_In in Hy. to_prop.
  assert (y = x) as -> by (eapply (key_inj gc_id); eauto; congruence).
  exists x. split_and!; try done. unfold set_commands. f_equal.
  apply (latch_key _ (fun c => bool_decide (gc_consumed_at c = None) && bool_decide (gc_status c = gw_delivered))
           _ id x); try done; [by rewrite !bool_decide_true|]. intros c. by rewrite andb_assoc.
Qed.

Lemma record_Ok t r id o result error now db db' c :
  NoDup (gc_id <$> gw_commands db) -> record_result t r id o result error now db = Ok (db', c) ->
  finished o /\ exists x, x ∈ gw_commands db /\ gc_id x = id /\ c = complete o result error now x /\
    db' = set_commands (update_where (fun c => bool_decide (gc_id c = id)) (complete o result error now)) db.
Proof.
  intros Hnd H. unfold record_result in H. apply bind_Ok in H as ([] & Ho%guard_or_Ok & H).
  apply bind_Ok in H as (x & Hl & H). apply load_own_Ok in Hl as (Hx & Hid & _ & _).
  apply bind_Ok in H as ([] & Hs%guard_or_Ok & H). unfold conditional_update in H.
  destruct (existsb _ _) eqn:He; [|done]. injection H as <- <-. split.
  - apply orb_true_iff in Ho as [Ho|Ho]; apply bool_decide_eq_true in Ho; [by left|by right].
  - exists x. split_and!; try done. unfold set_commands. f_equal.
    by apply (latch_key _ (fun c => bool_decide (gc_status c = gw_delivered)) _ id x).
Qed.

Definition accept_row o result error now now' (c : GatewayCommand) : GatewayCommand :=
  complete o result error now' (set_consumed now c).

(** Accepting a result writes the command's own row, once, and one audit row. *)
Lemma accept_effect sub t r id o result error now now' db db' c :
  NoDup (gc_id <$> gw_commands db) ->
  accept_command_result sub t r id o result error now now' db = (db', Ok c) ->
  finished o /\ exists x, x ∈ gw_commands db /\ gc_id x = id /\ gc_tenant_id x = t /\ gc_runner_id x = r /\
    gc_status x = gw_delivered /\ gc_consumed_at x = None /\ c = accept_row o result error now now' x /\
    gw_commands db' = update_where (fun c => bool_decide (gc_id c = id))
                        (accept_row o result error now now') (gw_commands db) /\
    gw_audit db' = gw_audit db ++ [{| ga_operator_sub := sub; ga_tenant_id := t; ga_command_id := id;
      ga_op_id := gc_op_id x; ga_runner_id := r; ga_outcome := o;
      ga_parent_audit_id := gc_mint_audit_id x |}].
Proof.
  intros Hnd H. unfold accept_command_result in H.
  destruct (_ ≫= _) as [[db2 c2]|] eqn:Hb; [|done]. injection H as <- <-.
  apply bind_Ok in Hb as ([db1 c1] & Hc & Hr). simpl in Hr.
  apply consume_Ok in Hc as (x & Hx & Hid & Ht & Hrn & Hs & Hn & -> & ->); [|done].
  apply record_Ok in Hr as (Hf & y & Hy & Hyid & -> & ->).
  2:{ simpl. rewrite update_where_keys; [done|by intros []]. }
  simpl in Hy. apply elem_of_update in Hy as (z & Hz & ->).
  assert (z = x) as ->.
  { eapply (key_inj gc_id); eauto. rewrite Hid. by case_bool_decide. }
  rewrite bool_decide_true by done. split; [done|]. exists x. split_and!; try done.
  simpl. by rewrite update_where_twice.
Qed.

Lemma accept_inv evs sub t r id o result error now now' db db' c :
  gw_inv evs db -> accept_command_result sub t r id o result error now now' db = (db', Ok c) ->
  gw_inv (evs ++ [ev_accepted id]) db'.
Proof.
  intros Hinv H. apply accept_effect in H as (Hf & x & Hx & Hid & _ & _ & Hst & Hn & _ & Hc & Ha); [|apply Hinv].
  destruct (gi_rows _ _ Hinv x Hx) as [Rd Ra _].
  assert (ev_accepted id ∉ evs) as Hnew by (rewrite <- Hid, Ra; tauto).
  eapply (gw_inv_update evs); [done| |exact Hc|..]; [by intros []|..].
  - intros y Hy. cbv beta. case_bool_decide as Hyid; [|by apply row_ok_other; [apply (gi_rows _ _ Hinv)|]].
    assert (y = x) as -> by (eapply (key_inj gc_id); [apply Hinv|..]; eauto; congruence).
    constructor; simpl; rewrite ?elem_of_app, ?list_elem_of_singleton.
    + rewrite Rd, Hst. split; [|by left]. intros _ ->. by destruct Hf.
    + split; [done|]. rewrite Hid. by right.
    + by split.
  - intros e ->%list_elem_of_singleton. simpl. rewrite <- Hid. by apply list_elem_of_fmap_2.
  - apply NoDup_snoc; [apply Hinv|done].
  - by rewrite Ha, fmap_app, accepted_snoc, (gi_audit _ _ Hinv).
Qed.

Lemma enqueue_inv digest evs rq id now now' db db' c :
  gw_inv evs db -> enqueue_command digest rq id now now' db = (db', Ok c) -> gw_inv evs db'.
Proof.
  intros Hinv H. unfold enqueue_command in H. rewrite read_bind in H.
  destruct (guard_or _ _) eqn:Hg; [|done]. apply guard_or_Ok in Hg. to_prop.
  rewrite commit_bind in H. injection H as <- <-.
  assert (forall e, e ∈ evs -> ev_id e <> id) as Hfresh.
  { intros e He <-. by apply Hg, (gi_events _ _ Hinv). }
  constructor; simpl; rewrite ?fmap_app; try apply Hinv.
  - apply NoDup_snoc; [apply Hinv|done].
  - intros y [Hy| ->%list_elem_of_singleton]%elem_of_app; [by apply Hinv|].
    constructor; simpl; (split; [intros He; try by apply Hfresh in He|]); try done. by intros [].
  - intros e He. apply elem_of_app. left. by apply Hinv.
Qed.

(** The sweep only marks rows: their history reads the same. *)
Lemma alarm_inv evs now acc c :
  gw_inv evs (fst acc) -> gw_inv evs (fst (alarm_one now acc c)).
Proof.
  intros Hinv. rewrite <- (app_nil_r evs). unfold alarm_one, conditional_update. simpl.
  eapply (gw_inv_update evs); [done| |reflexivity|..]; [by intros []|..]; rewrite ?app_nil_r; try apply Hinv.
  - intros y Hy. destruct (gi_rows _ _ Hinv y Hy). cbv beta. by destruct (_ && _).
  - by intros e ?%not_elem_of_nil.
Qed.

Lemma tick_inv evs now db : gw_inv evs db -> gw_inv evs (fst (unreported_tick now db)).
Proof.
  unfold unreported_tick. generalize (merge_sort expires_le (select_where (unreported now) (gw_commands db))).
  change (gw_inv evs db) with (gw_inv evs (fst (db, @nil uuid))). generalize (db, @nil uuid). intros acc l.
  revert acc. induction l as [|c l IH]; intros acc Hinv; simpl; [done|]. apply IH. by apply alarm_inv.
Qed.

Lemma gw_inv_same evs db db' :
  gw_inv evs db -> gw_commands db' = gw_commands db -> gw_audit db' = gw_audit db -> gw_inv evs db'.
Proof. destruct db, db'; simpl. by intros ? -> ->. Qed.

Lemma accept_refused sub t r id o result error now now' db db' e :
  accept_command_result sub t r id o result error now now' db = (db', Raise e) -> db' = db.
Proof. unfold accept_command_result. destruct (_ ≫= _) as [[]|]; [done|]. by intros [= ->]. Qed.

Lemma gw_run_inv digest evs db : gw_run digest evs db -> gw_inv evs db.
Proof.
  induction 1 as [|evs db evs' db' _ IH Hs].
  - constructor; simpl; try done; [by apply NoDup_nil|..|by apply NoDup_nil];
      by intros ? ?%not_elem_of_nil.
  - destruct Hs as [rq id now now' db db' c H|row now db db' c H|row now db db' H
      |sub t r id o result error now now' db db' c H|sub t r id o result error now now' db db' e H|now db];
      rewrite ?app_nil_r.
    + by eapply enqueue_inv.
    + by eapply flip_inv.
    + apply claim_flip_lost in H as [? ?]. by eapply gw_inv_same.
    + by eapply accept_inv.
    + apply accept_refused in H. by subst.
    + by apply tick_inv.
Qed.

(** C23. At most once, whatever the interleaving of claimers, reporters and sweeps:
    a flip may use a row read at any earlier time, and still no command is
    delivered twice and no command's result is accepted twice; a result is only
    accepted for a command that was delivered, a command carries an outcome
    exactly when its result was accepted, and the audit trail lists the accepted
    results in order, each once. *)
Theorem at_most_once digest evs db :
  gw_run digest evs db ->
  NoDup evs /\
  (forall id, ev_accepted id ∈ evs -> ev_delivered id ∈ evs) /\
  (forall c, c ∈ gw_commands db -> (finished (gc_status c) <-> ev_accepted (gc_id c) ∈ evs)) /\
  ga_command_id <$> gw_audit db = accepted_ids evs /\ NoDup (ga_command_id <$> gw_audit db).
Proof.
  intros Hrun%gw_run_inv. pose proof Hrun as [_ Hrows Hev Hnd Ha].
  split_and!; [done| | |done|].
  - intros id Hid. pose proof (Hev _ Hid) as (c & Hcid & Hc)%list_elem_of_fmap. simpl in Hcid. subst id.
    destruct (Hrows c Hc) as [Rd Ra Rc]. apply Rd. apply Ra, Rc in Hid. by destruct Hid as [-> | ->].
  - intros c Hc. destruct (Hrows c Hc) as [Rd Ra Rc]. by rewrite Ra, Rc.
  - rewrite Ha. unfold accepted_ids. clear -Hnd. induction evs as [|e evs IH]; simpl; [by apply NoDup_nil|].
    apply NoDup_cons in Hnd as [He Hnd]. destruct e as [i|i]; simpl; [by apply IH|].
    apply NoDup_cons. split; [|by apply IH]. rewrite list_elem_of_omap. by intros ([] & Hy & [= ->]).
Qed.

Definition w_digest (p : json_dict) : string := "h".
Definition w_request : EnqueueRequest := {|
  en_tenant_id := "t"; en_runner_id := "edge"; en_op_id := "k8s.label"; en_params := [];
  en_enqueued_by_sub := "ann"; en_target_descriptor := None; en_params_hash := None;
  en_expires_at := None; en_mint_audit_id := Some "m"; en_safety_level := "caution" |}.
Definition w_empty : GatewayDb := {| gw_commands := []; gw_audit := [] |}.
Definition w_queued : GatewayDb := fst (enqueue_command w_digest w_request "c1" 0 0 w_empty).
Definition w_claimed : GatewayDb := fst (claim_next_command w_digest "t" "edge" false 5 w_queued).
Definition w_row : GatewayCommand := new_command w_digest w_request "c1" 0 0.
Definition w_done : GatewayDb :=
  fst (accept_command_result "runner" "t" "edge" "c1" gw_succeeded None None 6 7 w_claimed).

Lemma claim_is_authorised_witness :
  exists x, x ∈ gw_commands w_queued /\ gc_runner_id x = "edge" /\ gc_status x = gw_pending.
Proof.
  destruct (claim_is_authorised w_digest "t" "edge" false 5 w_queued w_claimed (deliver 5 w_row))
    as (x & Hx & _ & _ & _ & Hr & Hs & _).
  - apply NoDup_singleton.
  - vm_compute. reflexivity.
  - exists x. auto.
Defined.

(** Two claimers read the same row; the second flip loses, and the result is
    accepted once. *)
Lemma at_most_once_witness :
  gw_run w_digest [ev_delivered "c1"; ev_accepted "c1"] w_done /\
  NoDup [ev_delivered "c1"; ev_accepted "c1"] /\ (ga_command_id <$> gw_audit w_done) = ["c1"].
Proof.
  assert (gw_run w_digest [ev_delivered "c1"; ev_accepted "c1"] w_done) as Hrun.
  { apply (gr_step _ [ev_delivered "c1"] w_claimed [ev_accepted "c1"]).
    - apply (gr_step _ [ev_delivered "c1"] w_claimed []).
      + apply (gr_step _ [] w_queued [ev_delivered "c1"]).
        * apply (gr_step _ [] w_empty []); [constructor|]. by eapply (gs_enqueue _ w_request "c1" 0 0).
        * by apply (gs_flip w_digest w_row 5 w_queued w_claimed (deliver 5 w_row)).
      + by apply (gs_flip_lost w_digest w_row 6 w_claimed w_claimed).
    - by eapply (gs_accept w_digest "runner" "t" "edge" "c1" gw_succeeded None None 6 7 w_claimed). }
  split; [done|]. destruct (at_most_once _ _ _ Hrun) as (Hnd & _ & _ & Ha & _). split; [done|]. by rewrite Ha.
Defined.

(** * From enqueue to result *)

Lemma NoDup_find_id db c :
  NoDup (gc_id <$> gw_commands db) -> c ∈ gw_commands db -> get_command db (gc_id c) = Some c.
Proof.
  intros Hnd Hc. unfold get_command. apply (find_unique gc_id); [done| |done|by rewrite bool_decide_true].
  intros r ?. by to_prop.
Qed.

Lemma load_own_intro db c :
  NoDup (gc_id <$> gw_commands db) -> c ∈ gw_commands db ->
  load_own (gc_tenant_id c) (gc_runner_id c) (gc_id c) db = Ok c.
Proof. intros Hnd Hc. unfold load_own. rewrite NoDup_find_id by done. simpl. by rewrite !bool_decide_true. Qed.

Lemma update_keys_id p f db :
  (forall c, gc_id (f c) = gc_id c) ->
  NoDup (gc_id <$> gw_commands db) -> NoDup (gc_id <$> gw_commands (set_commands (update_where p f) db)).
Proof. intros Hf Hnd. simpl. by rewrite update_where_keys. Qed.

(** A delivered command takes one result; the next report is a replay. *)
Lemma accept_delivered db c sub o result error now now' :
  NoDup (gc_id <$> gw_commands db) -> c ∈ gw_commands db -> gc_status c = gw_delivered ->
  gc_consumed_at c = None -> finished o ->
  exists db', accept_command_result sub (gc_tenant_id c) (gc_runner_id c) (gc_id c) o result error now now' db
    = (db', Ok (accept_row o result error now now' c)).
Proof.
  intros Hnd Hc Hs Hn Ho. unfold accept_command_result, consume_command. rewrite load_own_intro by done.
  unfold conditional_update. simpl. erewrite existsb_intro; [|exact Hc|]; [|by rewrite !bool_decide_true].
  simpl. set (db1 := set_commands _ db). set (c1 := set_consumed now c).
  assert (c1 ∈ gw_commands db1) as Hc1.
  { apply elem_of_update. exists c. split; [done|]. by rewrite !bool_decide_true. }
  assert (NoDup (gc_id <$> gw_commands db1)) as Hnd1 by (by apply update_keys_id; [intros []|]).
  unfold record_result. change (gc_id c) with (gc_id c1). change (gc_tenant_id c) with (gc_tenant_id c1).
  change (gc_runner_id c) with (gc_runner_id c1). rewrite load_own_intro by done.
  assert (bool_decide (o = gw_succeeded) || bool_decide (o = gw_failed) = true) as -> by (by destruct Ho as [-> | ->]).
  simpl. rewrite Hs. simpl. unfold conditional_update.
  erewrite existsb_intro; [|exact Hc1|]; [|simpl; by rewrite !bool_decide_true]. simpl. by eexists.
Qed.

Lemma replay_refused sub t r id o result error now now' db c :
  NoDup (gc_id <$> gw_commands db) -> c ∈ gw_commands db -> gc_consumed_at c <> None ->
  gc_id c = id -> gc_tenant_id c = t -> gc_runner_id c = r ->
  accept_command_result sub t r id o result error now now' db = (db, Raise GatewayCommandAlreadyConsumedError).
Proof.
  intros Hnd Hc Hn <- <- <-. unfold accept_command_result, consume_command. rewrite load_own_intro by done.
  unfold conditional_update. simpl. destruct (existsb _ _) eqn:He.
  - apply existsb_exists in He as (y & Hy & Hp). rewrite <- list_elem_of_In in Hy. to_prop.
    assert (y = c) as -> by (by eapply (key_inj gc_id)). done.
  - simpl. by rewrite bool_decide_false.
Qed.

Lemma claim_only t r revoked now db c :
  c ∈ gw_commands db -> claimable t r now revoked c = true ->
  (forall x, x ∈ gw_commands db -> claimable t r now revoked x = true -> x = c) ->
  pending_claim t r now revoked db = Some c.
Proof.
  intros Hc Hcl Hu. destruct (pending_claim t r now revoked db) as [x|] eqn:Hp.
  - apply pending_claim_spec in Hp as (Hx & Hxc & _). f_equal. by apply Hu.
  - unfold pending_claim in Hp. assert (c ∈ merge_sort enqueued_le (select_where (claimable t r now revoked) (gw_commands db))) as Hin.
    { rewrite merge_sort_Permutation. by apply elem_of_select. }
    destruct (merge_sort _ _); [by apply not_elem_of_nil in Hin|done].
Qed.

(** The life of a command: enqueueing a fresh command succeeds and bounds its
    expiry by five minutes from now; when the runner has nothing else to claim, the
    command is unexpired, its digest is the one of its parameters and the runner is
    not revoked or the command is no remote write, the next claim delivers it; the
    delivered command takes a final outcome, and every later report is refused as a
    replay that leaves the database as it was. *)
Theorem command_lifecycle digest rq id now now' now1 now2 now3 revoked db sub o result error :
  let row := new_command digest rq id now now' in
  let t := en_tenant_id rq in let r := en_runner_id rq in
  NoDup (gc_id <$> gw_commands db) -> id ∉ gc_id <$> gw_commands db ->
  (forall x, x ∈ gw_commands db -> claimable t r now1 revoked x = false) ->
  (en_params_hash rq = None \/ en_params_hash rq = Some (digest (en_params rq))) ->
  (now1 < gc_expires_at row)%Z ->
  (revoked = true -> en_safety_level rq ∉ REMOTE_WRITE_SAFETY_LEVELS) -> finished o ->
  (gc_expires_at row <= now' + GATEWAY_COMMAND_DEFAULT_TTL)%Z /\
  exists db1 db2 db3,
    enqueue_command digest rq id now now' db = (db1, Ok row) /\
    claim_next_command digest t r revoked now1 db1 = (db2, Some (deliver now1 row)) /\
    accept_command_result sub t r id o result error now2 now3 db2
      = (db3, Ok (accept_row o result error now2 now3 (deliver now1 row))) /\
    forall sub' o' result' error' n n',
      accept_command_result sub' t r id o' result' error' n n' db3
        = (db3, Raise GatewayCommandAlreadyConsumedError).
Proof.
  intros row t r Hnd Hfresh Hidle Hhash Hexp Hrev Ho. split.
  { simpl. unfold bound_capability_expiry. destruct (en_expires_at rq); lia. }
  set (db1 := set_commands (fun l => l ++ [row]) db). set (row1 := deliver now1 row).
  assert (NoDup (gc_id <$> gw_commands db1)) as Hnd1 by (simpl; rewrite fmap_app; by apply NoDup_snoc).
  assert (row ∈ gw_commands db1) as Hrow by (apply elem_of_app; right; left).
  assert (claimable t r now1 revoked row = true) as Hcl.
  { unfold claimable. rewrite !bool_decide_true by done. apply Z.ltb_lt in Hexp. rewrite Hexp. simpl.
    destruct revoked; [|done]. simpl. by rewrite bool_decide_false by auto. }
  assert (claim_select digest t r now1 revoked db1 = Some row) as Hsel.
  { unfold claim_select. rewrite (claim_only t r revoked now1 db1 row); [|done|done|].
    - simpl. unfold params_hash_intact. rewrite bool_decide_true; [done|].
      simpl. by destruct Hhash as [-> | ->].
    - intros x [Hx| ->%list_elem_of_singleton]%elem_of_app Hxc; [|done]. by rewrite Hidle in Hxc. }
  set (db2 := fst (claim_flip row now1 db1)).
  assert (claim_flip row now1 db1 = (db2, Some row1)) as Hflip.
  { unfold db2, claim_flip, conditional_update. erewrite existsb_intro; [done|exact Hrow|].
    by rewrite !bool_decide_true. }
  assert (NoDup (gc_id <$> gw_commands db2)) as Hnd2 by (apply update_keys_id; [by intros []|done]).
  assert (row1 ∈ gw_commands db2) as Hrow1.
  { apply elem_of_update. exists row. split; [done|]. by rewrite !bool_decide_true. }
  destruct (accept_delivered db2 row1 sub o result error now2 now3) as [db3 Hacc]; try done.
  exists db1, db2, db3. split_and!.
  - unfold enqueue_command. rewrite read_bind, bool_decide_true by done. done.
  - unfold claim_next_command. by rewrite Hsel.
  - exact Hacc.
  - apply accept_effect in Hacc as (_ & x & Hx & Hid & _ & _ & _ & _ & _ & Hc3 & _); [|done].
    assert (x = row1) as -> by (eapply (key_inj gc_id); eauto). intros.
    eapply (replay_refused _ _ _ _ _ _ _ _ _ _ (accept_row o result error now2 now3 row1)); try done.
    + rewrite Hc3, update_where_keys; [done|by intros []].
    + rewrite Hc3. apply elem_of_update. exists row1. split; [done|]. by rewrite bool_decide_true.
Qed.

Lemma command_lifecycle_witness :
  exists db1, enqueue_command w_digest w_request "c1" 0 0 w_empty = (db1, Ok w_row) /\
    snd (claim_next_command w_digest "t" "edge" false 5 db1) = Some (deliver 5 w_row).
Proof.
  destruct (command_lifecycle w_digest w_request "c1" 0 0 5 6 7 false w_empty "runner" gw_failed None (Some "boom"))
    as (_ & db1 & db2 & db3 & He & Hc & _); try done.
  - by apply NoDup_nil.
  - by apply not_elem_of_nil.
  - by intros x ?%not_elem_of_nil.
  - by left.
  - by right.
  - exists db1. split; [exact He|]. change (en_tenant_id w_request) with "t" in Hc. simpl in Hc. by rewrite Hc.
Defined.

(** * The allowlist of an edge runner *)

Definition render_entry (e : RemoteWriteAllowEntry) : string :=
  ae_op_pattern e +:+ "@" +:+ ae_target_scope e.

Definition trimmed (s : string) : Prop := s <> "" /\ py_strip s = s.

Record entry_ok (e : RemoteWriteAllowEntry) : Prop := {
  eo_op : trimmed (ae_op_pattern e);
  eo_scope : trimmed (ae_target_scope e);
  eo_at : has_char "@" (ae_op_pattern e) = false;
  eo_comma : has_char "," (render_entry e) = false;
}.

Lemma strip_left_length w s : String.length (strip_left w s) <= String.length s.
Proof. induction s as [|c s IH]; simpl; [done|]. destruct (w c); simpl; lia. Qed.

Lemma strip_right_length w s : String.length (strip_right w s) <= String.length s.
Proof. induction s as [|c s IH]; simpl; [done|]. destruct (strip_right w s); [destruct (w c)|]; simpl in *; lia. Qed.

Lemma trimmed_left s : py_strip s = s -> strip_left py_space s = s.
Proof.
  unfold py_strip, strip_white. destruct s as [|c s]; [done|]. simpl. destruct (py_space c); [|done]. intros H.
  apply (f_equal String.length) in H. pose proof (strip_right_length py_space (strip_left py_space s)).
  pose proof (strip_left_length py_space s). simpl in *. lia.
Qed.

Lemma trimmed_right s : py_strip s = s -> strip_right py_space s = s.
Proof. intros H. rewrite <- (trimmed_left s H) at 1. exact H. Qed.

Lemma strip_left_app w a b : a <> "" -> strip_left w a = a -> strip_left w (a +:+ b) = a +:+ b.
Proof.
  destruct a as [|c a]; [done|]. intros _. rewrite string_app_cons. simpl. destruct (w c); [|done]. intros H.
  apply (f_equal String.length) in H. pose proof (strip_left_length w a). simpl in *. lia.
Qed.

Lemma strip_right_app w a b : b <> "" -> strip_right w b = b -> strip_right w (a +:+ b) = a +:+ b.
Proof.
  intros Hb H. induction a as [|c a IH]; [done|]. rewrite string_app_cons. simpl. rewrite IH.
  destruct (a +:+ b) eqn:E; [|done]. apply (f_equal String.length) in E. rewrite string_app_length in E.
  destruct b; [done|]. simpl in E. lia.
Qed.

Lemma strip_token a b : trimmed a -> trimmed b -> py_strip (a +:+ "@" +:+ b) = a +:+ "@" +:+ b.
Proof.
  intros [Ha Hsa] [Hb Hsb]. unfold py_strip at 1, strip_white.
  rewrite strip_left_app by auto using trimmed_left. rewrite <- string_app_assoc.
  by apply strip_right_app; [|apply trimmed_right].
Qed.

Lemma parse_render e : entry_ok e -> parse_allow_token (render_entry e) = Some e.
Proof.
  intros [Hop Hsc Hat _]. unfold parse_allow_token, render_entry. rewrite strip_token by done.
  rewrite bool_decide_false by (by destruct Hop, (ae_op_pattern e)).
  change ("@" +:+ ae_target_scope e) with (String "@" (ae_target_scope e)).
  rewrite partition_on_app by done. destruct Hop as [Hop ->], Hsc as [Hsc ->].
  rewrite !bool_decide_false by done. by destruct e.
Qed.

Lemma parse_rendered entries :
  Forall entry_ok entries -> parse_runner_allowlist (join "," (render_entry <$> entries)) = entries.
Proof.
  intros Hok. unfold parse_runner_allowlist. destruct entries as [|e l]; [done|].
  rewrite split_on_join; [|done|].
  - generalize dependent (e :: l). clear. induction 1 as [|e l He _ IH]; [done|]. simpl.
    rewrite parse_render by done. f_equal. exact IH.
  - apply Forall_fmap. eapply Forall_impl; [exact Hok|]. intros x Hx. apply Hx.
Qed.

(** The edge runner and the backplane take the same decision: the allowlist
    text written as comma-separated "pattern@scope" tokens parses back to the
    entries the backplane holds, and the gate permits a remote write exactly when
    one entry's patterns match both the operation and the target; without entries
    it always refuses. *)
Theorem edge_allowlist_agrees entries op_id scope :
  Forall entry_ok entries ->
  parse_runner_allowlist (join "," (render_entry <$> entries)) = entries /\
  (evaluate_remote_write_gate op_id (parse_runner_allowlist (join "," (render_entry <$> entries))) scope
     = gate_permitted <->
   exists e, e ∈ entries /\ Matches (compile (ae_op_pattern e)) op_id /\
             Matches (compile (ae_target_scope e)) scope) /\
  evaluate_remote_write_gate op_id [] scope = gate_unprovisioned.
Proof.
  intros Hok. pose proof (parse_rendered _ Hok) as Hp.
  split_and!; [done| |done]. rewrite Hp. unfold evaluate_remote_write_gate. split.
  - destruct (existsb _ _) eqn:He; [intros _|by destruct entries].
    apply existsb_exists in He as (e & Hin & Hm). rewrite <- list_elem_of_In in Hin.
    unfold entry_admits, fnmatch in Hm. to_prop. exists e. by rewrite <- !gmatch_spec.
  - intros (e & Hin & H1 & H2). erewrite existsb_intro; [done|exact Hin|]. unfold entry_admits, fnmatch.
    rewrite <- gmatch_spec in H1, H2. by rewrite H1, H2.
Qed.

Lemma edge_allowlist_agrees_witness :
  parse_runner_allowlist "k8s.label@*,net.*@t1" =
  [{| ae_op_pattern := "k8s.label"; ae_target_scope := "*" |}; {| ae_op_pattern := "net.*"; ae_target_scope := "t1" |}].
Proof.
  apply (edge_allowlist_agrees
    [{| ae_op_pattern := "k8s.label"; ae_target_scope := "*" |};
     {| ae_op_pattern := "net.*"; ae_target_scope := "t1" |}] "k8s.label" "t9").
  repeat constructor; done.
Defined.
