(* ===== verification/SecretNames.v ===== *)
(** Secret-named values ([broadcast/events.py]): which parameter names are names of
    secrets, and the walk that replaces the values under them. *)

From S2P Require Import Prelude Json.

(** * The name rule *)

Definition TOKENS_ANYWHERE : list string :=
  ["password"; "passwords"; "passwd"; "pwd"; "passphrase"; "passphrases"; "apikey"; "kubeconfig"].

Definition TOKENS_FINAL : list string := ["secret"; "secrets"; "token"; "credential"; "credentials"; "psk"].

Definition TOKEN_PAIRS : list (string * string) :=
  [("api", "key"); ("access", "key"); ("private", "key"); ("encryption", "key");
   ("license", "key"); ("licence", "key"); ("license", "keys"); ("licence", "keys"); ("product", "key");
   ("secret", "id"); ("secret", "value"); ("secret", "data")].

Definition FINAL_TOKEN_PAIRS : list (string * string) :=
  [("secret", "key"); ("shared", "key"); ("preshared", "key"); ("connection", "string");
   ("connection", "strings")].

Definition lower_char (c : ascii) : ascii :=
  if (65 <=? nat_of_ascii c) && (nat_of_ascii c <=? 90) then ascii_of_nat (nat_of_ascii c + 32) else c.

(** [str.lower]; the capitals above 127 stay as they are, which changes no token. *)
Fixpoint lower (s : string) : string :=
  match s with "" => "" | String c s' => String (lower_char c) (lower s') end.

(** [name.replace("-", "_").replace(".", "_")]. *)
Fixpoint flatten_name (s : string) : string :=
  match s with
  | "" => ""
  | String c s' => String (if Ascii.eqb c "-" || Ascii.eqb c "." then "_"%char else c) (flatten_name s')
  end.

Definition is_lower_or_digit (c : ascii) : bool :=
  ((97 <=? nat_of_ascii c) && (nat_of_ascii c <=? 122)) || ((48 <=? nat_of_ascii c) && (nat_of_ascii c <=? 57)).
Definition is_upper_letter (c : ascii) : bool := (65 <=? nat_of_ascii c) && (nat_of_ascii c <=? 90).

(** [_CAMEL_BOUNDARY.sub("_", s)]: an underscore before each capital that follows a
    small letter or a digit. *)
Fixpoint camel_split (s : string) : string :=
  match s with
  | String c (String d _ as s') =>
      if is_lower_or_digit c && is_upper_letter d then String c (String "_" (camel_split s'))
      else String c (camel_split s')
  | _ => s
  end.

Definition pairwise {A} (l : list A) : list (A * A) := zip l (tail l).

Definition last_two {A} (l : list A) : option (A * A) := last (pairwise l).

Definition tokens_are_secret (normalised : string) : bool :=
  let tokens := List.filter (fun t => negb (bool_decide (t = ""))) (split_on "_" normalised) in
  match last tokens with
  | None => false
  | Some final =>
      existsb (fun t => bool_decide (t ∈ TOKENS_ANYWHERE)) tokens ||
      bool_decide (final ∈ TOKENS_FINAL) ||
      match last_two tokens with Some p => bool_decide (p ∈ FINAL_TOKEN_PAIRS) | None => false end ||
      existsb (fun p => bool_decide (p ∈ TOKEN_PAIRS)) (pairwise tokens)
  end.

Definition is_secret_param_name (name : string) : bool :=
  let flat := flatten_name name in
  tokens_are_secret (lower (camel_split flat)) || tokens_are_secret (lower flat).

(** * The walk *)

Definition REDACTED_PARAM : string := "[REDACTED:param_name]".

Section Scrub.
(** [plain_names]: the fields the operation declared as plain. *)
Context (hide_numbers : bool) (plain_names : list string).

Definition is_secret_name_value_pair (node : list (string * json)) : bool :=
  match dict_get "value" node, dict_get "name" node with
  | Some _, Some (JStr name) => bool_decide (name ∉ plain_names) && is_secret_param_name name
  | _, _ => false
  end.

Definition is_secret_value (value : json) : bool :=
  match value with
  | JStr _ | JDict _ | JList _ => true
  | JInt _ | JFloat _ _ _ => hide_numbers
  | JNull | JBool _ => false
  end.

Definition secret_named (hide_pair_value : bool) (name : string) : bool :=
  is_secret_param_name name || (hide_pair_value && bool_decide (name = "value")).

(** The scrubbed node, and whether anything was replaced.  Keys are strings, and
    assigning to [scrubbed] key by key keeps the order of the items. *)
Fixpoint scrub_secret_named_keys (node : json) : json * bool :=
  match node with
  | JDict d =>
      let hide_pair_value := is_secret_name_value_pair d in
      let items := List.map (fun kv =>
        let '(name, value) := kv in
        if bool_decide (name ∈ plain_names) then (name, (value, false))
        else if secret_named hide_pair_value name && is_secret_value value
        then (name, (JStr REDACTED_PARAM, true))
        else (name, scrub_secret_named_keys value)) d in
      (JDict (List.map (fun i => (fst i, fst (snd i))) items), existsb (fun i => snd (snd i)) items)
  | JList l =>
      let items := List.map scrub_secret_named_keys l in
      (JList (List.map fst items), existsb snd items)
  | _ => (node, false)
  end.
End Scrub.

Definition scrub_secret_named_values := scrub_secret_named_keys.

(** Whether a value in the node is the marker. *)
Fixpoint holds_hidden_param_values (node : json) : bool :=
  match node with
  | JStr s => bool_decide (s = REDACTED_PARAM)
  | JDict d => existsb (fun kv => holds_hidden_param_values (snd kv)) d
  | JList l => existsb holds_hidden_param_values l
  | _ => false
  end.

(** * What the walk guarantees *)

Lemma existsb_false_map {A B} (f : A -> B) (p : B -> bool) l :
  existsb p (List.map f l) = false -> forall x, In x l -> p (f x) = false.
Proof.
  intros H x Hx. apply not_true_iff_false. intros Hp. apply not_true_iff_false in H as []. apply existsb_exists.
  exists (f x). split; [by apply List.in_map|done].
Qed.

Section ScrubFacts.
Context (hn : bool) (plain : list string).
Abbreviation scrub := (scrub_secret_named_keys hn plain).
Abbreviation pair := (is_secret_name_value_pair plain).

(** No value under a secret name, at any depth and outside the plain fields, is
    anything but the marker. *)
Fixpoint no_secret_left (node : json) : bool :=
  match node with
  | JDict d =>
      forallb (fun kv =>
        let '(name, value) := kv in
        bool_decide (name ∈ plain) ||
        (if secret_named (pair d) name && is_secret_value hn value
         then match value with JStr s => bool_decide (s = REDACTED_PARAM) | _ => false end
         else no_secret_left value)) d
  | JList l => forallb no_secret_left l
  | _ => true
  end.

(** A place in a value: a key of a dict or an index of a list. *)
Inductive place := at_key (k : string) | at_index (i : nat).

Fixpoint value_at (path : list place) (node : json) : option json :=
  match path with
  | [] => Some node
  | at_key k :: path' => match node with JDict d => dict_get k d ≫= value_at path' | _ => None end
  | at_index i :: path' => match node with JList l => l !! i ≫= value_at path' | _ => None end
  end.

Definition is_scalar (node : json) : bool := match node with JDict _ | JList _ => false | _ => true end.

(** The path meets no secret-named key, or it stops at a plain field before. *)
Fixpoint visible_path (path : list place) (node : json) : bool :=
  match path, node with
  | at_key k :: path', JDict d =>
      bool_decide (k ∈ plain) ||
      (negb (secret_named (pair d) k) &&
       match dict_get k d with Some x => visible_path path' x | None => true end)
  | at_index i :: path', JList l => match l !! i with Some x => visible_path path' x | None => true end
  | _, _ => true
  end.

(** The item an item becomes. *)
Definition scrub_item (hide_pair : bool) (kv : string * json) : string * json :=
  (kv.1, if bool_decide (kv.1 ∈ plain) then kv.2
         else if secret_named hide_pair kv.1 && is_secret_value hn kv.2 then JStr REDACTED_PARAM
         else fst (scrub kv.2)).

Lemma scrub_dict d : fst (scrub (JDict d)) = JDict (List.map (scrub_item (pair d)) d).
Proof.
  simpl. f_equal. rewrite List.map_map. apply List.map_ext. intros [k x]. unfold scrub_item. simpl.
  by repeat case_match.
Qed.

Lemma scrub_list l : fst (scrub (JList l)) = JList (List.map (fun x => fst (scrub x)) l).
Proof. simpl. f_equal. by rewrite List.map_map. Qed.

Lemma dict_get_scrub b k d : dict_get k (List.map (scrub_item b) d) =
  (fun x => (scrub_item b (k, x)).2) <$> dict_get k d.
Proof.
  induction d as [|[k' x] d IH]; simpl; [done|]. case_bool_decide as Hk; [by subst|done].
Qed.

Lemma name_is_not_secret b : secret_named b "name" = false.
Proof. by destruct b; vm_compute. Qed.

(** Whether a mapping is a secret name/value pair does not change. *)
Lemma pair_scrub d : pair (List.map (scrub_item (pair d)) d) = pair d.
Proof.
  unfold is_secret_name_value_pair at 1 3. rewrite !dict_get_scrub.
  destruct (dict_get "value" d) as [v|]; simpl; [|done].
  destruct (dict_get "name" d) as [n|]; simpl; [|done]. rewrite name_is_not_secret. simpl.
  case_bool_decide; [done|]. by destruct n.
Qed.

Lemma scrub_hides v : no_secret_left (fst (scrub v)) = true.
Proof.
  induction v as [| | | | |l IH|d IH] using json_nested_ind; try done.
  - rewrite scrub_list. simpl. apply forallb_forall. intros y Hy. apply List.in_map_iff in Hy as (x & <- & Hx).
    rewrite Forall_forall in IH. apply IH. by apply list_elem_of_In.
  - rewrite scrub_dict. cbn [no_secret_left]. rewrite pair_scrub. apply forallb_forall. intros y Hy.
    apply List.in_map_iff in Hy as ([k x] & <- & Hx). rewrite Forall_forall in IH.
    apply list_elem_of_In in Hx. specialize (IH _ Hx). unfold scrub_item. simpl in *.
    case_bool_decide as Hp; [done|]. simpl.
    destruct (secret_named _ k) eqn:Hs; simpl; [|done].
    destruct (is_secret_value hn x) eqn:Hv; simpl; [done|].
    by destruct x; simpl in *; rewrite ?Hv.
Qed.

Lemma scrub_unchanged v : snd (scrub v) = false -> fst (scrub v) = v.
Proof.
  induction v as [| | | | |l IH|d IH] using json_nested_ind; try done; intros H.
  - rewrite scrub_list. f_equal. simpl in H. pose proof (existsb_false_map _ _ _ H) as H'; clear H; rename H' into H.
    etrans; [|apply List.map_id]. apply List.map_ext_in. intros x Hx. rewrite Forall_forall in IH.
    apply IH; [by apply list_elem_of_In|]. by apply H.
  - rewrite scrub_dict. f_equal. simpl in H. pose proof (existsb_false_map _ _ _ H) as H'; clear H; rename H' into H.
    etrans; [|apply List.map_id]. apply List.map_ext_in. intros [k x] Hx. specialize (H _ Hx).
    rewrite Forall_forall in IH. apply list_elem_of_In in Hx. specialize (IH _ Hx).
    unfold scrub_item. simpl in *. case_bool_decide; [done|].
    destruct (secret_named _ k && _) eqn:?; [done|]. by rewrite IH.
Qed.

Lemma scrub_fixes v : no_secret_left v = true -> fst (scrub v) = v.
Proof.
  induction v as [| | | | |l IH|d IH] using json_nested_ind; try done; intros H.
  - rewrite scrub_list. f_equal. simpl in H. rewrite forallb_forall in H. etrans; [|apply List.map_id].
    apply List.map_ext_in. intros x Hx. rewrite Forall_forall in IH. apply IH; [by apply list_elem_of_In|].
    by apply H.
  - rewrite scrub_dict. f_equal. simpl in H. rewrite forallb_forall in H. etrans; [|apply List.map_id].
    apply List.map_ext_in. intros [k x] Hx. specialize (H _ Hx). rewrite Forall_forall in IH.
    apply list_elem_of_In in Hx. specialize (IH _ Hx). unfold scrub_item. simpl in *.
    case_bool_decide; [done|]. simpl in H. destruct (secret_named _ k && _) eqn:?; [|by rewrite IH].
    destruct x; try done. to_prop. by subst.
Qed.

Lemma scrub_keeps path v x :
  value_at path v = Some x -> is_scalar x = true -> visible_path path v = true ->
  value_at path (fst (scrub v)) = Some x.
Proof.
  revert v. induction path as [|[k|i] path IH]; intros v Hat Hsc Hvis.
  - injection Hat as ->. by destruct x.
  - destruct v as [| | | | | |d]; try done. rewrite scrub_dict. simpl in *. rewrite dict_get_scrub.
    destruct (dict_get k d) as [y|]; simpl in *; [|done]. case_bool_decide; [done|]. simpl in Hvis.
    apply andb_true_iff in Hvis as [Hs Hvis]. apply negb_true_iff in Hs. rewrite Hs. simpl. by apply IH.
  - destruct v as [| | | | |l|]; try done. rewrite scrub_list. simpl in *.
    rewrite list_lookup_fmap. destruct (l !! i) as [y|]; simpl in *; [|done]. by apply IH.
Qed.
End ScrubFacts.

(** Hiding the secret-named values of a payload leaves none of them at any
    depth, under a secret key or in a name/value pair, while every scalar on a path
    that meets no secret name keeps its value.  Hiding twice is hiding once, and a
    payload in which nothing was found is returned as it was. *)
Theorem scrub_is_exact hn plain v :
  let '(w, found) := scrub_secret_named_values hn plain v in
  no_secret_left hn plain w = true /\
  fst (scrub_secret_named_values hn plain w) = w /\
  (found = false -> w = v) /\
  (forall path x, value_at path v = Some x -> is_scalar x = true -> visible_path plain path v = true ->
     value_at path w = Some x).
Proof.
  unfold scrub_secret_named_values. destruct (scrub_secret_named_keys hn plain v) as [w found] eqn:E.
  assert (w = fst (scrub_secret_named_keys hn plain v)) as -> by by rewrite E.
  assert (found = snd (scrub_secret_named_keys hn plain v)) as -> by by rewrite E.
  split_and!.
  - apply scrub_hides.
  - apply scrub_fixes, scrub_hides.
  - apply scrub_unchanged.
  - intros path x. apply scrub_keeps.
Qed.

(** The names the comments of the rule give as examples, on both sides. *)
Example secret_name_examples :
  forallb is_secret_param_name
    ["password"; "user_password"; "sessionToken"; "client_secret"; "licenseKeys"; "secret_id"; "pre-shared-key";
     "primaryConnectionString"; "ipsec_psk"] = true /\
  existsb is_secret_param_name
    ["token_ttl"; "secret_path"; "secret_key_ref"; "ssh_public_key"; "psk_length"; "connection_string_ref"; "name"] = false.
Proof. by vm_compute. Qed.
