(* ===== verification/Delegation.v ===== *)
(** The trailers of a decision's reason ([operations/approval_queue.py]): who told
    the approver to decide.  Characters are code points below 256, so the second pair
    of quotes the code strips (U+201C and U+201D) does not occur. *)

From S2P Require Import Prelude Json SecretNames.

Record Delegation := { dl_instructed_by : string; dl_instruction : string; dl_refs : list string }.

Inductive DelegatedReasonInvalid :=
| reason_repeated_key (key : string)
| reason_no_block
| reason_missing (fields : list string).

Definition is_blank (c : ascii) : bool := Ascii.eqb c " " || Ascii.eqb c "009".

Definition LF : ascii := "010".
Definition CR : ascii := "013".

(** [str.splitlines]: its line breaks below 256, CR LF being one. *)
Definition is_line_break (c : ascii) : bool :=
  let n := nat_of_ascii c in ((10 <=? n) && (n <=? 13)) || ((28 <=? n) && (n <=? 30)) || (n =? 133).

Fixpoint lines_from (line : string) (s : string) : list string :=
  match s with
  | "" => if bool_decide (line = "") then [] else [line]
  | String c s' =>
      if Ascii.eqb c CR
      then match s' with
           | String d s'' => if Ascii.eqb d LF then line :: lines_from "" s'' else line :: lines_from "" s'
           | "" => [line]
           end
      else if is_line_break c then line :: lines_from "" s'
      else lines_from (line +:+ String c "") s'
  end.

Definition splitlines (s : string) : list string := lines_from "" s.

(** [_INSTRUCTED_BY_LINE.search]: a line that starts with the key. *)
Definition strip_key (key line : string) : option string :=
  let line := strip_left is_blank line in
  if starts_with key (lower line) then Some (String.substring (String.length key) (String.length line) line) else None.

Definition is_instructed_by_line (line : string) : bool :=
  match strip_key "instructed-by" line with
  | Some rest => starts_with ":" (strip_left is_blank rest)
  | None => false
  end.

Definition has_instructed_by (reason : string) : bool := existsb is_instructed_by_line (split_on LF reason).

Definition is_letter (c : ascii) : bool :=
  let n := nat_of_ascii (lower_char c) in (97 <=? n) && (n <=? 122).
Definition is_trailer_char (c : ascii) : bool :=
  is_letter c || ((48 <=? nat_of_ascii c) && (nat_of_ascii c <=? 57)) || Ascii.eqb c "-".

(** The longest prefix of key characters, and the rest. *)
Fixpoint take_key (s : string) : string * string :=
  match s with
  | String c s' => if is_trailer_char c then let '(k, rest) := take_key s' in (String c k, rest) else ("", s)
  | "" => ("", "")
  end.

(** [_TRAILER_LINE.match]: the key and the value. *)
Definition match_trailer (line : string) : option (string * string) :=
  let '(key, rest) := take_key line in
  match key, strip_left is_blank rest with
  | String c _, String d value =>
      if is_letter c && Ascii.eqb d ":" then Some (key, strip_left is_blank value) else None
  | _, _ => None
  end.

(** The lines of the last paragraph. *)
Definition nonblank (line : string) : bool := negb (bool_decide (py_strip line = "")).

Fixpoint take_while {A} (p : A -> bool) (l : list A) : list A :=
  match l with [] => [] | x :: l' => if p x then x :: take_while p l' else [] end.

Definition last_paragraph (reason : string) : list string :=
  List.map py_strip (List.rev (take_while nonblank (List.rev (splitlines (py_strip reason))))).

(** The items of the dict, in order; [None] when a line is not a trailer. *)
Fixpoint read_trailers (lines : list string) (trailers : list (string * string))
  : res DelegatedReasonInvalid (option (list (string * string))) :=
  match lines with
  | [] => Ok (Some trailers)
  | line :: lines' =>
      match match_trailer line with
      | None => Ok None
      | Some (name, value) =>
          if bool_decide (lower name ∈ trailers.*1) then Raise (reason_repeated_key name)
          else read_trailers lines' (trailers ++ [(lower name, py_strip value)])
      end
  end.

Definition trailer_block (reason : string) : res DelegatedReasonInvalid (option (list (string * string))) :=
  read_trailers (last_paragraph reason) [].

Definition quote : string := String dquote "".

(** The text between the two quotes, when they enclose the value. *)
Definition unquote_pair (opening closing value : string) : option string :=
  let n := String.length value in
  let o := String.length opening in
  let c := String.length closing in
  if (o + c <=? n) && starts_with opening value && bool_decide (String.substring (n - c) c value = closing)
  then Some (py_strip (String.substring o (n - o - c) value)) else None.

Definition unquote (value : string) : string :=
  default value (unquote_pair quote quote value).

Definition parse_delegation (reason : string) : res DelegatedReasonInvalid (option Delegation) :=
  if negb (has_instructed_by reason) then Ok None
  else
    trailers ← trailer_block reason;
    match trailers with
    | None => Raise reason_no_block
    | Some t =>
        match dict_get "instructed-by" t with
        | None => Raise reason_no_block
        | Some instructed_by =>
            let instruction := unquote (default "" (dict_get "instruction" t)) in
            let refs := List.filter (fun r => negb (bool_decide (r = "")))
                          (List.map py_strip (split_on "," (default "" (dict_get "refs" t)))) in
            let missing := List.map fst (List.filter (fun f => snd f)
                  [("Instructed-by", bool_decide (instructed_by = ""));
                   ("Instruction", bool_decide (instruction = ""));
                   ("Refs", bool_decide (refs = []))]) in
            match missing with
            | [] => Ok (Some {| dl_instructed_by := instructed_by; dl_instruction := instruction; dl_refs := refs |})
            | _ => Raise (reason_missing missing)
            end
        end
    end.
