(* ===== verification/ApprovalSignIn.v ===== *)
(** Proof that a person is present when they approve ([auth/approval_sign_in.py],
    [auth/fresh_sign_in.py]).  The clock is in microseconds, [auth_time] and the
    limits are in seconds. *)

From stdpp Require Import pretty.
From S2P Require Import Prelude Json Identity.

Definition second : Z := 1000000.
Definition CLOCK_SKEW_SECONDS : Z := 60.

Record SignInSettings := {
  keycloak_cli_approve_client_id : string;
  fresh_sign_in_max_age_seconds : Z;
  per_action_sign_in_max_age_seconds : Z;
  approval_one_time_code_acr_values : list string;
}.

Inductive ApprovalChannel := channel_rest | channel_web.
Inductive ApprovalMethod := method_fresh_sign_in | method_one_time_code.

Record ApprovalAuth := {
  au_channel : ApprovalChannel;
  au_method : ApprovalMethod;
  au_auth_time : Z;
  au_sid : option string;
  au_acr : option string;
}.

Inductive SignInError := fresh_sign_in_required.

Section SignIn.
(** [hashlib.sha256(...).hexdigest()]. *)
Context (sha256 : string -> string).
Context (st : SignInSettings).

Definition sign_in_key (a : ApprovalAuth) (sub : string) : string :=
  String.substring 0 32 (sha256 (sub +:+ String "010" "" +:+ default "" (au_sid a) +:+ String "010" "" +:+
                                 pretty (au_auth_time a))).

Definition has_fresh_sign_in (operator : Operator) (now : datetime) (max_age_seconds : Z) : bool :=
  match op_auth_time operator with
  | Some auth_time =>
      is_human_principal operator &&
      (- CLOCK_SKEW_SECONDS * second <=? now - auth_time * second)%Z &&
      (now - auth_time * second <=? max_age_seconds * second)%Z
  | None => false
  end.

(** An empty client setting means no token is one. *)
Definition is_approval_sign_in (operator : Operator) : bool :=
  negb (bool_decide (keycloak_cli_approve_client_id st = "")) && is_human_principal operator &&
  bool_decide (op_azp operator = Some (keycloak_cli_approve_client_id st)).

Definition asked_for_credentials (operator : Operator) : bool :=
  match op_acr operator with Some acr => negb (bool_decide (acr = "0")) | None => false end.

Definition approval_sign_in_max_age (destructive : bool) : Z :=
  if destructive then per_action_sign_in_max_age_seconds st else fresh_sign_in_max_age_seconds st.

Definition longest_sign_in_max_age : Z :=
  Z.max (approval_sign_in_max_age false) (approval_sign_in_max_age true).

Definition approval_auth (operator : Operator) (channel : ApprovalChannel) (auth_time : Z) : ApprovalAuth := {|
  au_channel := channel;
  au_method := match op_acr operator with
               | Some acr => if bool_decide (acr ∈ approval_one_time_code_acr_values st)
                             then method_one_time_code else method_fresh_sign_in
               | None => method_fresh_sign_in
               end;
  au_auth_time := auth_time; au_sid := op_sid operator; au_acr := op_acr operator |}.

Definition check_fresh_approval_sign_in (operator : Operator) (now : datetime) : res SignInError ApprovalAuth :=
  match op_auth_time operator with
  | Some auth_time =>
      if is_approval_sign_in operator && asked_for_credentials operator &&
         has_fresh_sign_in operator now longest_sign_in_max_age
      then Ok (approval_auth operator channel_rest auth_time) else Raise fresh_sign_in_required
  | None => Raise fresh_sign_in_required
  end.

Definition has_fresh_web_approval_sign_in (operator : Operator) (now : datetime) : bool :=
  asked_for_credentials operator && has_fresh_sign_in operator now longest_sign_in_max_age.

Definition check_fresh_web_approval_sign_in (operator : Operator) (now : datetime) : res SignInError ApprovalAuth :=
  match op_auth_time operator with
  | Some auth_time =>
      if has_fresh_web_approval_sign_in operator now
      then Ok (approval_auth operator channel_web auth_time) else Raise fresh_sign_in_required
  | None => Raise fresh_sign_in_required
  end.

Definition check_sign_in (channel : ApprovalChannel) : Operator -> datetime -> res SignInError ApprovalAuth :=
  match channel with
  | channel_rest => check_fresh_approval_sign_in
  | channel_web => check_fresh_web_approval_sign_in
  end.

(** * Lemmas *)

(** A proof names the token's own sign-in, of a person, recent and with
    credentials; on REST it comes from the approval client. *)
Record presence_proved (channel : ApprovalChannel) (o : Operator) (now : datetime) (a : ApprovalAuth) : Prop := {
  pp_time : op_auth_time o = Some (au_auth_time a);
  pp_sid : au_sid a = op_sid o;
  pp_human : is_human_principal o = true;
  pp_credentials : exists acr, op_acr o = Some acr /\ acr <> "0";
  pp_not_ahead : (au_auth_time a * second <= now + CLOCK_SKEW_SECONDS * second)%Z;
  pp_recent : (now - au_auth_time a * second <= longest_sign_in_max_age * second)%Z;
  pp_client : channel = channel_rest -> exists c, op_azp o = Some c /\ c = keycloak_cli_approve_client_id st /\ c <> "";
}.

Lemma has_fresh_spec o now m t :
  op_auth_time o = Some t -> has_fresh_sign_in o now m = true ->
  is_human_principal o = true /\ (t * second <= now + CLOCK_SKEW_SECONDS * second)%Z /\
  (now - t * second <= m * second)%Z.
Proof. intros Ht. unfold has_fresh_sign_in. rewrite Ht. intros H. to_prop. split_and!; [done|lia..]. Qed.

Lemma asked_spec o : asked_for_credentials o = true -> exists acr, op_acr o = Some acr /\ acr <> "0".
Proof. unfold asked_for_credentials. destruct (op_acr o); [|done]. intros H. to_prop. eauto. Qed.

Lemma check_sign_in_spec channel o now a :
  check_sign_in channel o now = Ok a -> presence_proved channel o now a.
Proof.
  intros H.
  assert (exists t, op_auth_time o = Some t /\ a = approval_auth o channel t /\ asked_for_credentials o = true /\
    has_fresh_sign_in o now longest_sign_in_max_age = true /\
    (channel = channel_rest -> is_approval_sign_in o = true)) as (t & Ht & -> & Hc & Hf & Hr).
  { destruct channel; cbn [check_sign_in] in H;
      unfold check_fresh_approval_sign_in, check_fresh_web_approval_sign_in in H;
      destruct (op_auth_time o) as [t|]; try discriminate.
    - destruct (is_approval_sign_in o && _ && _) eqn:E; [|discriminate]. injection H as <-.
      apply andb_true_iff in E as [E ?]. apply andb_true_iff in E as [? ?]. by exists t.
    - destruct (has_fresh_web_approval_sign_in o now) eqn:E; [|discriminate]. injection H as <-.
      apply andb_true_iff in E as [? ?]. by exists t. }
  destruct (has_fresh_spec _ _ _ _ Ht Hf) as (Hh & Ha & Hm). split; simpl; try done.
  - by apply asked_spec.
  - intros Hch. specialize (Hr Hch). unfold is_approval_sign_in in Hr. to_prop. eauto.
Qed.
End SignIn.
