(* ===== verification/Approvals.v ===== *)
(** The approval queue ([operations/approval_queue.py]): requests parked for a
    person's decision, who may approve them, how they expire or are withdrawn, and
    the claim that lets an approved call run once.

    A decision locks its row, so each decision is one step.  The retry path of a park
    reads the key and inserts later; those are two steps, between which other
    transactions may commit.  An exception rolls the transaction back. *)

From stdpp Require Import pretty.
From S2P Require Import Prelude Json Identity SecretNames Delegation ApprovalSignIn.

(** * Rows *)

Inductive ApprovalRequestStatus := aq_pending | aq_approved | aq_rejected | aq_expired | aq_withdrawn.
#[export] Instance ApprovalRequestStatus_eq_dec : EqDecision ApprovalRequestStatus.
Proof. solve_decision. Defined.

(** The columns of [ApprovalRequest] that only the insert writes. *)
Record ParkedCall := {
  pk_id : uuid;
  pk_tenant_id : uuid;
  pk_run_id : option uuid;
  pk_principal_sub : string;
  pk_principal_act : option string;
  pk_principal_name : option string;
  pk_op_id : string;
  pk_connector_id : string;
  pk_target_id : option uuid;
  pk_params_hash : string;
  pk_preview_hash : option string;
  pk_proposed_effect : json_dict;
  pk_created_at : datetime;
  pk_work_ref : option string;
  pk_agent_session_id : option uuid;
  pk_request_audit_id : option uuid;
  pk_resume_parent : option json_dict;
  pk_idempotency_key : option string;
  pk_release_id : option string;
  pk_target_hash : option string;
  pk_reveal_secret : bool;
}.

(** The other columns. *)
Record ApprovalRequest := {
  ar_call : ParkedCall;
  ar_params : option json_dict;
  ar_execution_handle : option uuid;
  ar_status : ApprovalRequestStatus;
  ar_reviewed_by : option string;
  ar_reviewed_by_name : option string;
  ar_decided_at : option datetime;
  ar_withdrawn_at : option datetime;
  ar_withdraw_reason : option string;
  ar_expires_at : option datetime;
  ar_resumed_at : option datetime;
  ar_resume_result : option json_dict;
  ar_rerun_count : Z;
}.

Definition ar_id (r : ApprovalRequest) : uuid := pk_id (ar_call r).
Definition ar_tenant_id (r : ApprovalRequest) : uuid := pk_tenant_id (ar_call r).

(** A custody row ([approval_handoff.py]): the encrypted inputs of a credential
    write.  The ciphertext is kept as what it decrypts to. *)
Record ExecutionPayload := {
  ep_handle : uuid;
  ep_request_id : uuid;
  ep_tenant_id : uuid;
  ep_params : json_dict;
  ep_resume_parent : option json_dict;
}.

Inductive ApprovalRule :=
| SA_OPERATOR_SELF_APPROVAL
| BREAK_GLASS_SELF_APPROVAL
| SA_OPERATOR_OR_ADMIN
| REVIEWER
| TOKEN_CALL_SELF_APPROVAL.
#[export] Instance ApprovalRule_eq_dec : EqDecision ApprovalRule.
Proof. solve_decision. Defined.

Inductive AuditEventClass := POLICY_DECISION | APPROVAL_DECISION.

(** The [approval_auth] block of a decision's payload. *)
Record AuthBlock := { ab_auth : ApprovalAuth; ab_sign_in_key : string; ab_single_use : bool }.

(** What each row adds to the payload. *)
Inductive AuditDetail :=
| detail_request
| detail_approved (self_approved : bool) (rule : ApprovalRule) (reason : string)
    (auth : option AuthBlock) (delegation : option Delegation)
| detail_rejected (reason : string) (delegation : option Delegation)
| detail_withdrawn (reason : string)
| detail_expired (expires_at : option datetime) (releases : option (option string * string)).

Record ApprovalAudit := {
  aa_id : uuid;
  aa_event_class : AuditEventClass;
  aa_occurred_at : datetime;
  aa_operator_sub : string;
  aa_tenant_id : uuid;
  aa_target_id : option uuid;
  aa_parent_audit_id : option uuid;
  aa_agent_session_id : option uuid;
  aa_path : string;
  aa_status_code : Z;
  aa_request_id : uuid;
  aa_op_id : string;
  aa_connector_id : string;
  aa_principal_sub : string;
  aa_work_ref : option string;
  aa_detail : AuditDetail;
}.

Record ApprovalDb := {
  aq_requests : list ApprovalRequest;
  aq_audit : list ApprovalAudit;
  aq_payloads : list ExecutionPayload;
}.

Inductive ApprovalError :=
| ApprovalNotFoundError
| ApprovalRequestAlreadyDecidedError (status : ApprovalRequestStatus)
| ApprovalRequestExpiredError
| ParamsMismatchError
| IdempotencyKeyConflictError (existing : uuid)
| PreviewBindingMissingError
| ApprovalSignInReusedError
| ApprovalSignInTooOldError (max_age_seconds : Z)
| SelfApprovalForbiddenError (high_risk web_click_allowed : bool)
| UnauthorizedApprovalError
| ApprovalGroupForbiddenError (safety_level : string)
| NonHumanApprovalError
| ApprovalRoleFloorError (denial : string)
| WithdrawForbiddenError
| DelegatedReasonInvalidError (why : DelegatedReasonInvalid)
| DelegatedDecisionForbiddenError (instructed_by : string)
| ApprovalHandoffKeyError
| ApprovalHandoffMissingError
| ApprovalIntegrityError
| ApprovalMissingKey
| ApprovalSignInError (e : SignInError).

(** [aq_default_ttl] in microseconds; [running_release_id] as [version.py] gives it. *)
Record ApprovalSettings := {
  aq_sign_in : SignInSettings;
  approval_allow_self_approval : bool;
  approval_allow_delegated_decision : bool;
  aq_default_ttl : Z;
  params_hash_key : string;
  database_url : string;
  handoff_key_ok : bool;
  running_release_id : option string;
}.

(** * Params hashes *)

Section Hashes.
(** [json.dumps] of the canonical form, SHA-256 and HMAC-SHA256 in hex, and the
    derivation of a key from its source. *)
Context (canonical_params : json_dict -> string) (sha256 : string -> string).
Context (hmac_sha256 : string -> string -> string) (derive_key : string -> string).
Context (st : ApprovalSettings).

Definition server_key : string :=
  derive_key (if bool_decide (params_hash_key st = "") then database_url st else params_hash_key st).

Definition compute_params_hash (params : json_dict) : string := hmac_sha256 server_key (canonical_params params).

Definition params_hash_candidates (params : json_dict) : list string :=
  [compute_params_hash params] ++
  (if bool_decide (params_hash_key st = "") then []
   else [hmac_sha256 (derive_key (database_url st)) (canonical_params params)]) ++
  [sha256 (canonical_params params)].

Definition params_hash_matches (params : json_dict) (stored : string) : bool :=
  existsb (fun candidate => bool_decide (stored = candidate)) (params_hash_candidates params).
End Hashes.

(** * Who may decide *)

Definition TOKEN_CALL_WAIT : string := "token_call".
Definition HIGH_RISK_TIERS : list string := ["dangerous"; "destructive"].

Definition effect_get (key : string) (r : ApprovalRequest) : option json :=
  dict_get key (pk_proposed_effect (ar_call r)).

Definition request_safety_level (r : ApprovalRequest) : option string :=
  match effect_get "safety_level" r with Some (JStr level) => Some level | _ => None end.

Definition is_destructive (r : ApprovalRequest) : bool :=
  bool_decide (request_safety_level r = Some "destructive").

Definition high_risk (r : ApprovalRequest) : bool :=
  match request_safety_level r with Some level => bool_decide (level ∈ HIGH_RISK_TIERS) | None => false end.

Definition request_waits_only_for_token_call (r : ApprovalRequest) : bool :=
  match effect_get "waits_because" r with Some (JStr w) => bool_decide (w = TOKEN_CALL_WAIT) | _ => false end &&
  bool_decide (request_safety_level r = Some "caution").

Definition check_reviewer_role (operator : Operator) : res ApprovalError unit :=
  _ ← guard_or NonHumanApprovalError (is_human_principal operator);
  guard_or UnauthorizedApprovalError
    (negb (bool_decide (op_tenant_role operator = READ_ONLY)) || op_approver operator).

(** [None] when the change is another person's. *)
Definition check_self_approval (st : ApprovalSettings) (operator : Operator) (r : ApprovalRequest)
  : res ApprovalError (option ApprovalRule) :=
  if negb (bool_decide (op_sub operator = pk_principal_sub (ar_call r))) then Ok None
  else if may_self_approve operator then Ok (Some SA_OPERATOR_SELF_APPROVAL)
  else
    let token_wait := request_waits_only_for_token_call r in
    if token_wait && op_web_session operator then Ok (Some TOKEN_CALL_SELF_APPROVAL)
    else if negb (high_risk r) && approval_allow_self_approval st then Ok (Some BREAK_GLASS_SELF_APPROVAL)
    else Raise (SelfApprovalForbiddenError (high_risk r) token_wait).

Definition check_approver_group (st : ApprovalSettings) (operator : Operator) (r : ApprovalRequest)
  : res ApprovalError ApprovalRule :=
  self_rule ← check_self_approval st operator r;
  match self_rule with
  | Some rule => Ok rule
  | None =>
      match request_safety_level r with
      | Some level =>
          if negb (bool_decide (level ∈ HIGH_RISK_TIERS)) then Ok REVIEWER
          else if may_self_approve operator || bool_decide (op_tenant_role operator = TENANT_ADMIN)
          then Ok SA_OPERATOR_OR_ADMIN
          else Raise (ApprovalGroupForbiddenError level)
      | None => Ok REVIEWER
      end
  end.

Definition check_approver_role_floor (floors : gmap string TenantRole) (operator : Operator) (r : ApprovalRequest)
  : res ApprovalError unit :=
  match role_floor_denial floors (pk_op_id (ar_call r)) (op_tenant_role operator) with
  | Some denial => Raise (ApprovalRoleFloorError denial)
  | None => Ok tt
  end.

(** [not request.preview_hash]: none, or the empty text. *)
Definition check_destructive_preview_binding (r : ApprovalRequest) : res ApprovalError unit :=
  guard_or PreviewBindingMissingError
    (negb (is_destructive r && bool_decide (default "" (pk_preview_hash (ar_call r)) = ""))).

Definition check_delegated_allowed (st : ApprovalSettings) (delegation : option Delegation)
  : res ApprovalError unit :=
  match delegation with
  | None => Ok tt
  | Some d => guard_or (DelegatedDecisionForbiddenError (dl_instructed_by d)) (approval_allow_delegated_decision st)
  end.

Definition read_delegation (reason : string) : res ApprovalError (option Delegation) :=
  match parse_delegation reason with
  | Ok d => Ok d
  | Raise why => Raise (DelegatedReasonInvalidError why)
  end.

(** * Deadlines *)

Definition bounded_expires_at (created_at : datetime) (requested : option datetime) (default_ttl : Z) : datetime :=
  let ceiling := (created_at + default_ttl)%Z in
  match requested with None => ceiling | Some r => Z.min r ceiling end.

Definition deadline_has_passed (r : ApprovalRequest) (cutoff : datetime) (default_ttl : option Z) : bool :=
  match ar_expires_at r with
  | Some e => (e <=? cutoff)%Z
  | None => match default_ttl with
            | Some ttl => (pk_created_at (ar_call r) <=? cutoff - ttl)%Z
            | None => false
            end
  end.

(** The WHERE clause of the sweep. *)
Definition deadline_passed_clause (cutoff : datetime) (default_ttl : option Z) (r : ApprovalRequest) : bool :=
  let concrete := match ar_expires_at r with Some e => (e <=? cutoff)%Z | None => false end in
  match default_ttl with
  | None => concrete
  | Some ttl => concrete || (bool_decide (ar_expires_at r = None) && (pk_created_at (ar_call r) <=? cutoff - ttl)%Z)
  end.

(** * The table *)

Definition get_row (db : ApprovalDb) (id : uuid) : option ApprovalRequest :=
  List.find (fun r => bool_decide (ar_id r = id)) (aq_requests db).

Definition on_requests (f : list ApprovalRequest -> list ApprovalRequest) (db : ApprovalDb) : ApprovalDb :=
  {| aq_requests := f (aq_requests db); aq_audit := aq_audit db; aq_payloads := aq_payloads db |}.

(** Flushing the loaded row. *)
Definition put_row (r : ApprovalRequest) : ApprovalDb -> ApprovalDb :=
  on_requests (update_where (fun x => bool_decide (ar_id x = ar_id r)) (fun _ => r)).

Definition discard_payload (request_id tenant_id : uuid) (db : ApprovalDb) : ApprovalDb := {|
  aq_requests := aq_requests db; aq_audit := aq_audit db;
  aq_payloads := delete_where (fun p => bool_decide (ep_request_id p = request_id) &&
                                        bool_decide (ep_tenant_id p = tenant_id)) (aq_payloads db) |}.

Definition load_for_tenant (request_id tenant_id : uuid) (db : ApprovalDb) : res ApprovalError ApprovalRequest :=
  r ← ok_or ApprovalNotFoundError (get_row db request_id);
  _ ← guard_or ApprovalNotFoundError (bool_decide (ar_tenant_id r = tenant_id));
  Ok r.

(** The fresh id and the clock of an audit row, and [parent_audit_id_var]. *)
Record AuditCtx := { ac_id : uuid; ac_now : datetime; ac_parent : option uuid }.

Definition write_audit_row (cx : AuditCtx) (event_class : AuditEventClass) (operator : Operator)
  (r : ApprovalRequest) (path : string) (status_code : Z) (detail : AuditDetail) (db : ApprovalDb) : ApprovalDb := {|
  aq_requests := aq_requests db; aq_payloads := aq_payloads db;
  aq_audit := aq_audit db ++ [{|
    aa_id := ac_id cx; aa_event_class := event_class; aa_occurred_at := ac_now cx;
    aa_operator_sub := op_sub operator; aa_tenant_id := op_tenant_id operator;
    aa_target_id := pk_target_id (ar_call r);
    aa_parent_audit_id := match pk_request_audit_id (ar_call r) with
                          | Some stored => if bool_decide (stored = ac_id cx) then ac_parent cx else Some stored
                          | None => ac_parent cx
                          end;
    aa_agent_session_id := pk_agent_session_id (ar_call r); aa_path := path; aa_status_code := status_code;
    aa_request_id := ar_id r; aa_op_id := pk_op_id (ar_call r); aa_connector_id := pk_connector_id (ar_call r);
    aa_principal_sub := pk_principal_sub (ar_call r); aa_work_ref := pk_work_ref (ar_call r);
    aa_detail := detail |}] |}.

(** ** Edits of the loaded row *)

Definition set_params (params : option json_dict) (r : ApprovalRequest) : ApprovalRequest := {|
  ar_call := ar_call r; ar_params := params; ar_execution_handle := ar_execution_handle r;
  ar_status := ar_status r; ar_reviewed_by := ar_reviewed_by r; ar_reviewed_by_name := ar_reviewed_by_name r;
  ar_decided_at := ar_decided_at r; ar_withdrawn_at := ar_withdrawn_at r; ar_withdraw_reason := ar_withdraw_reason r;
  ar_expires_at := ar_expires_at r; ar_resumed_at := ar_resumed_at r; ar_resume_result := ar_resume_result r;
  ar_rerun_count := ar_rerun_count r |}.

Definition set_decided (status : ApprovalRequestStatus) (operator : Operator) (now : datetime) (r : ApprovalRequest)
  : ApprovalRequest := {|
  ar_call := ar_call r; ar_params := ar_params r; ar_execution_handle := ar_execution_handle r;
  ar_status := status; ar_reviewed_by := Some (op_sub operator); ar_reviewed_by_name := op_name operator;
  ar_decided_at := Some now; ar_withdrawn_at := ar_withdrawn_at r; ar_withdraw_reason := ar_withdraw_reason r;
  ar_expires_at := ar_expires_at r; ar_resumed_at := ar_resumed_at r; ar_resume_result := ar_resume_result r;
  ar_rerun_count := ar_rerun_count r |}.

Definition set_withdrawn (now : datetime) (reason : string) (r : ApprovalRequest) : ApprovalRequest := {|
  ar_call := ar_call r; ar_params := ar_params r; ar_execution_handle := ar_execution_handle r;
  ar_status := aq_withdrawn; ar_reviewed_by := ar_reviewed_by r; ar_reviewed_by_name := ar_reviewed_by_name r;
  ar_decided_at := ar_decided_at r; ar_withdrawn_at := Some now;
  ar_withdraw_reason := if bool_decide (reason = "") then None else Some reason;
  ar_expires_at := ar_expires_at r; ar_resumed_at := ar_resumed_at r; ar_resume_result := ar_resume_result r;
  ar_rerun_count := ar_rerun_count r |}.

(** A deadline that was never stored is filled in. *)
Definition set_expired (cutoff : datetime) (default_ttl : option Z) (r : ApprovalRequest) : ApprovalRequest := {|
  ar_call := ar_call r; ar_params := ar_params r; ar_execution_handle := ar_execution_handle r;
  ar_status := aq_expired; ar_reviewed_by := ar_reviewed_by r; ar_reviewed_by_name := ar_reviewed_by_name r;
  ar_decided_at := Some cutoff; ar_withdrawn_at := ar_withdrawn_at r; ar_withdraw_reason := ar_withdraw_reason r;
  ar_expires_at := match ar_expires_at r, default_ttl with
                   | None, Some ttl => Some (pk_created_at (ar_call r) + ttl)%Z
                   | e, _ => e
                   end;
  ar_resumed_at := ar_resumed_at r; ar_resume_result := ar_resume_result r;
  ar_rerun_count := ar_rerun_count r |}.

Definition set_resumed (now : datetime) (r : ApprovalRequest) : ApprovalRequest := {|
  ar_call := ar_call r; ar_params := ar_params r; ar_execution_handle := ar_execution_handle r;
  ar_status := ar_status r; ar_reviewed_by := ar_reviewed_by r; ar_reviewed_by_name := ar_reviewed_by_name r;
  ar_decided_at := ar_decided_at r; ar_withdrawn_at := ar_withdrawn_at r; ar_withdraw_reason := ar_withdraw_reason r;
  ar_expires_at := ar_expires_at r; ar_resumed_at := Some now; ar_resume_result := ar_resume_result r;
  ar_rerun_count := ar_rerun_count r |}.

Definition set_resume_result (result : option json_dict) (reruns : Z) (r : ApprovalRequest) : ApprovalRequest := {|
  ar_call := ar_call r; ar_params := ar_params r; ar_execution_handle := ar_execution_handle r;
  ar_status := ar_status r; ar_reviewed_by := ar_reviewed_by r; ar_reviewed_by_name := ar_reviewed_by_name r;
  ar_decided_at := ar_decided_at r; ar_withdrawn_at := ar_withdrawn_at r; ar_withdraw_reason := ar_withdraw_reason r;
  ar_expires_at := ar_expires_at r; ar_resumed_at := ar_resumed_at r; ar_resume_result := result;
  ar_rerun_count := reruns |}.

(** ** Ending a request without a run *)

(** [None]: nothing to hide, the row is not rewritten. *)
Definition params_with_secret_fields_hidden (params : option json_dict) : option json_dict :=
  match params with
  | None => None
  | Some p => match scrub_secret_named_values true [] (JDict p) with
              | (JDict hidden, true) => Some hidden
              | _ => None
              end
  end.

Definition hide_params (r : ApprovalRequest) : ApprovalRequest :=
  match params_with_secret_fields_hidden (ar_params r) with
  | Some hidden => set_params (Some hidden) r
  | None => r
  end.

(** The custody row goes; the row is returned with its params hidden. *)
Definition end_run_input (r : ApprovalRequest) (db : ApprovalDb) : ApprovalDb * ApprovalRequest :=
  (discard_payload (ar_id r) (ar_tenant_id r) db, hide_params r).

Section Queue.
Context (canonical_params : json_dict -> string) (sha256 : string -> string).
Context (hmac_sha256 : string -> string -> string) (derive_key : string -> string).
Context (st : ApprovalSettings) (floors : gmap string TenantRole).
(** [classify_op(op_id) == "credential_write"]. *)
Context (is_credential_write : string -> bool).

Abbreviation hash_matches := (params_hash_matches canonical_params sha256 hmac_sha256 derive_key st).

(** * Decisions *)

Definition load_pending_for_approval (request_id : uuid) (operator : Operator) (params : option json_dict)
  (now : datetime) (db : ApprovalDb) : res ApprovalError (ApprovalRequest * ApprovalRule) :=
  _ ← check_reviewer_role operator;
  request ← load_for_tenant request_id (op_tenant_id operator) db;
  _ ← guard_or (ApprovalRequestAlreadyDecidedError (ar_status request)) (bool_decide (ar_status request = aq_pending));
  _ ← guard_or ApprovalRequestExpiredError (negb (deadline_has_passed request now (Some (aq_default_ttl st))));
  rule ← check_approver_group st operator request;
  _ ← check_approver_role_floor floors operator request;
  _ ← guard_or ParamsMismatchError
        (match params with Some p => hash_matches p (pk_params_hash (ar_call request)) | None => true end);
  _ ← check_destructive_preview_binding request;
  Ok (request, rule).

(** The earlier decisions of the sign-in: the person's own decision rows, written
    since shortly before it, with the same key. *)
Definition earlier_use (key sub : string) (since : datetime) (a : ApprovalAudit) : option AuthBlock :=
  if bool_decide (aa_operator_sub a = sub) && bool_decide (aa_path a = "approval.decision") &&
     (since <=? aa_occurred_at a)%Z
  then match aa_detail a with
       | detail_approved _ _ _ (Some block) _ => if bool_decide (ab_sign_in_key block = key) then Some block else None
       | _ => None
       end
  else None.

Definition check_sign_in_use (request : ApprovalRequest) (operator : Operator) (auth : ApprovalAuth)
  (now : datetime) (db : ApprovalDb) : res ApprovalError bool :=
  let key := sign_in_key sha256 auth (op_sub operator) in
  let destructive := is_destructive request in
  let max_age := approval_sign_in_max_age (aq_sign_in st) destructive in
  _ ← guard_or (ApprovalSignInTooOldError max_age) (now - au_auth_time auth * second <=? max_age * second)%Z;
  let since := ((au_auth_time auth - CLOCK_SKEW_SECONDS - 1) * second)%Z in
  let earlier := omap (earlier_use key (op_sub operator) since) (aq_audit db) in
  _ ← guard_or ApprovalSignInReusedError (negb (existsb (fun block => destructive || ab_single_use block) earlier));
  Ok destructive.

(** The readings of the clock: the deadline, the sign-in's age, the decision. *)
Record ApproveClock := { t_deadline : datetime; t_sign_in : datetime; t_decided : datetime }.

Definition approve_request (request_id : uuid) (operator : Operator) (params : option json_dict) (reason : string)
  (auth : option ApprovalAuth) (t : ApproveClock) (cx : AuditCtx) (db : ApprovalDb)
  : res ApprovalError (ApprovalDb * ApprovalRequest) :=
  '(request, rule) ← load_pending_for_approval request_id operator params (t_deadline t) db;
  delegation ← read_delegation reason;
  _ ← check_delegated_allowed st delegation;
  single_use ← match auth with
               | Some a => check_sign_in_use request operator a (t_sign_in t) db
               | None => Ok false
               end;
  let decided := set_decided aq_approved operator (t_decided t) request in
  let self_approved := bool_decide (op_sub operator = pk_principal_sub (ar_call request)) in
  let block := (fun a => {| ab_auth := a; ab_sign_in_key := sign_in_key sha256 a (op_sub operator);
                            ab_single_use := single_use |}) <$> auth in
  Ok (write_audit_row cx APPROVAL_DECISION operator decided "approval.decision" 200
        (detail_approved self_approved rule reason block delegation) (put_row decided db), decided).

(** An approve as the surfaces make it: the proof of presence first. *)
Definition approve_surface (channel : ApprovalChannel) (request_id : uuid) (operator : Operator)
  (params : option json_dict) (reason : string) (now : datetime) (t : ApproveClock) (cx : AuditCtx)
  (db : ApprovalDb) : res ApprovalError (ApprovalDb * ApprovalRequest) :=
  match check_sign_in (aq_sign_in st) channel operator now with
  | Raise e => Raise (ApprovalSignInError e)
  | Ok auth => approve_request request_id operator params reason (Some auth) t cx db
  end.

Definition reject_request (request_id : uuid) (operator : Operator) (reason : string) (now : datetime)
  (cx : AuditCtx) (db : ApprovalDb) : res ApprovalError (ApprovalDb * ApprovalRequest) :=
  _ ← check_reviewer_role operator;
  request ← load_for_tenant request_id (op_tenant_id operator) db;
  _ ← guard_or (ApprovalRequestAlreadyDecidedError (ar_status request)) (bool_decide (ar_status request = aq_pending));
  delegation ← read_delegation reason;
  _ ← check_delegated_allowed st delegation;
  let '(db1, ended) := end_run_input (set_decided aq_rejected operator now request) db in
  Ok (write_audit_row cx APPROVAL_DECISION operator ended "approval.decision" 403
        (detail_rejected reason delegation) (put_row ended db1), ended).

Definition withdraw_request (request_id : uuid) (operator : Operator) (reason : string) (now : datetime)
  (cx : AuditCtx) (db : ApprovalDb) : res ApprovalError (ApprovalDb * ApprovalRequest) :=
  request ← load_for_tenant request_id (op_tenant_id operator) db;
  _ ← guard_or WithdrawForbiddenError (bool_decide (op_sub operator = pk_principal_sub (ar_call request)));
  _ ← guard_or (ApprovalRequestAlreadyDecidedError (ar_status request)) (bool_decide (ar_status request = aq_pending));
  let '(db1, ended) := end_run_input (set_withdrawn now reason request) db in
  Ok (write_audit_row cx APPROVAL_DECISION operator ended "approval.withdraw" 200
        (detail_withdrawn reason) (put_row ended db1), ended).

(** * Expiry *)

Definition EXPIRY_OPERATOR_SUB : string := "system:approval-expiry".

Definition expiry_operator (tenant_id : uuid) : Operator := {|
  op_sub := EXPIRY_OPERATOR_SUB; op_tenant_id := tenant_id; op_tenant_role := OPERATOR;
  op_principal_kind := USER; op_client_id := None; op_platform_admin := false; op_web_session := false;
  op_name := None; op_approver := false; op_self_approver := false; op_tenant_chosen := true;
  op_auth_time := None; op_sid := None; op_acr := None; op_azp := None |}.

Definition expire_request (operator : Operator) (cutoff : datetime) (default_ttl : option Z)
  (releases : option (option string * string)) (cx : AuditCtx) (r : ApprovalRequest) (db : ApprovalDb)
  : ApprovalDb :=
  let '(db1, ended) := end_run_input (set_expired cutoff default_ttl r) db in
  write_audit_row cx APPROVAL_DECISION operator ended "approval.decision" 410
    (detail_expired (ar_expires_at ended) releases) (put_row ended db1).

(** [SKIP LOCKED] leaves out the rows another transaction holds; [cx] gives the
    audit context of each row. *)
Fixpoint expire_rows (operator : Operator) (cutoff : datetime) (default_ttl : option Z)
  (releases : ApprovalRequest -> option (option string * string)) (cx : ApprovalRequest -> AuditCtx)
  (rows : list ApprovalRequest) (db : ApprovalDb) : ApprovalDb :=
  match rows with
  | [] => db
  | r :: rows' => expire_rows operator cutoff default_ttl releases cx rows'
                    (expire_request operator cutoff default_ttl (releases r) (cx r) r db)
  end.

Definition sweep_selects (operator : Operator) (cutoff : datetime) (default_ttl : option Z)
  (locked : uuid -> bool) (r : ApprovalRequest) : bool :=
  bool_decide (ar_status r = aq_pending) && deadline_passed_clause cutoff default_ttl r &&
  bool_decide (ar_tenant_id r = op_tenant_id operator) && negb (locked (ar_id r)).

Definition expire_stale_requests (operator : Operator) (cutoff : datetime) (default_ttl : option Z)
  (locked : uuid -> bool) (cx : ApprovalRequest -> AuditCtx) (db : ApprovalDb)
  : res ApprovalError (ApprovalDb * list ApprovalRequest) :=
  _ ← check_reviewer_role operator;
  let rows := select_where (sweep_selects operator cutoff default_ttl locked) (aq_requests db) in
  Ok (expire_rows operator cutoff default_ttl (fun _ => None) cx rows db, rows).

Definition older_release (release_id : string) (r : ApprovalRequest) : bool :=
  match pk_release_id (ar_call r) with None => true | Some own => negb (bool_decide (own = release_id)) end.

Definition expire_older_release_requests (operator : Operator) (release_id : string) (cutoff : datetime)
  (locked : uuid -> bool) (cx : ApprovalRequest -> AuditCtx) (db : ApprovalDb)
  : res ApprovalError (ApprovalDb * list ApprovalRequest) :=
  _ ← check_reviewer_role operator;
  let ttl := Some (aq_default_ttl st) in
  let rows := select_where (fun r => bool_decide (ar_status r = aq_pending) &&
                bool_decide (ar_tenant_id r = op_tenant_id operator) && older_release release_id r &&
                negb (locked (ar_id r))) (aq_requests db) in
  let releases r := if deadline_has_passed r cutoff ttl then None
                    else Some (pk_release_id (ar_call r), release_id) in
  Ok (expire_rows operator cutoff ttl releases cx rows db, rows).

(** * Running an approved call *)

(** [claim_resume]: the row's params are hidden in the transaction that wins. *)
Definition claim_resume (request_id : uuid) (now : datetime) (db : ApprovalDb) : ApprovalDb * bool :=
  let p r := bool_decide (ar_id r = request_id) && bool_decide (ar_resumed_at r = None) &&
             bool_decide (ar_status r = aq_approved) in
  (on_requests (update_where p (fun r => hide_params (set_resumed now r))) db, existsb p (aq_requests db)).

(** [persist_resume_result]. *)
Definition persist_resume_result (request_id : uuid) (result : json_dict) (db : ApprovalDb) : ApprovalDb :=
  on_requests (update_where (fun r => bool_decide (ar_id r = request_id))
                            (fun r => set_resume_result (Some result) (ar_rerun_count r) r)) db.

Definition approval_release_changed (r : ApprovalRequest) : bool :=
  match running_release_id st with
  | None => false
  | Some running => negb (bool_decide (pk_release_id (ar_call r) = Some running))
  end.

Definition decided_ge (a b : ApprovalRequest) : Prop :=
  (default 0 (ar_decided_at b) <= default 0 (ar_decided_at a))%Z.
#[export] Instance decided_ge_dec a b : Decision (decided_ge a b) := Z_le_dec _ _.

(** The approved, unused request for exactly this call, the newest decision first. *)
Definition binds_call (tenant_id : uuid) (op_id : string) (target_id : option uuid) (params : json_dict)
  (r : ApprovalRequest) : bool :=
  bool_decide (ar_tenant_id r = tenant_id) && bool_decide (pk_op_id (ar_call r) = op_id) &&
  bool_decide (pk_params_hash (ar_call r) ∈
    params_hash_candidates canonical_params sha256 hmac_sha256 derive_key st params) &&
  bool_decide (ar_status r = aq_approved) && bool_decide (ar_resumed_at r = None) &&
  bool_decide (pk_target_id (ar_call r) = target_id).

Definition find_remote_write_approval (tenant_id : uuid) (op_id : string) (target_id : option uuid)
  (params : json_dict) (db : ApprovalDb) : option ApprovalRequest :=
  head (merge_sort decided_ge (select_where (binds_call tenant_id op_id target_id params) (aq_requests db))).

(** The claim of a mint, in the mint's own transaction. *)
Definition consume_remote_write_approval (request : ApprovalRequest) (now : datetime) (db : ApprovalDb)
  : ApprovalDb * bool :=
  let p r := bool_decide (ar_id r = ar_id request) && bool_decide (ar_resumed_at r = None) in
  (on_requests (update_where p (set_resumed now)) db, existsb p (aq_requests db)).

(** Both effects of a won claim, as the mint makes them.  The flush writes the
    columns the session changed: the params, when something was hidden. *)
Definition bind_approval (request : ApprovalRequest) (now : datetime) (db : ApprovalDb) : option ApprovalDb :=
  let '(db1, won) := consume_remote_write_approval request now db in
  if won then
    let db2 := discard_payload (ar_id request) (ar_tenant_id request) db1 in
    Some (match params_with_secret_fields_hidden (ar_params request) with
          | Some hidden => on_requests (update_where (fun r => bool_decide (ar_id r = ar_id request))
                                                     (set_params (Some hidden))) db2
          | None => db2
          end)
  else None.

(** [consume] of [approval_handoff.py]: the one read of the custody row. *)
Definition consume_payload (handle request_id tenant_id : uuid) (db : ApprovalDb)
  : res ApprovalError (ApprovalDb * ExecutionPayload) :=
  let p e := bool_decide (ep_handle e = handle) && bool_decide (ep_request_id e = request_id) &&
             bool_decide (ep_tenant_id e = tenant_id) in
  match scalar_one_or_none (select_where p (aq_payloads db)) with
  | Some (Some payload) =>
      Ok ({| aq_requests := aq_requests db; aq_audit := aq_audit db;
             aq_payloads := delete_where (fun e => bool_decide (ep_handle e = handle)) (aq_payloads db) |}, payload)
  | _ => Raise ApprovalHandoffMissingError
  end.

(** The claim of a re-run ([approval_rerun.py]): the failed result is cleared.  The
    audit row of a re-run is not kept. *)
Definition result_failed (result : option json_dict) : bool :=
  match result with
  | None => false
  | Some d => match dict_get "status" d with Some (JStr s) => negb (bool_decide (s = "ok")) | _ => true end
  end.

Definition claim_rerun (request : ApprovalRequest) (db : ApprovalDb) : ApprovalDb * bool :=
  let p r := bool_decide (ar_id r = ar_id request) && bool_decide (ar_status r = aq_approved) &&
             bool_decide (ar_rerun_count r = ar_rerun_count request) && result_failed (ar_resume_result r) in
  (on_requests (update_where p (fun r => set_resume_result None (ar_rerun_count r + 1) r)) db,
   existsb p (aq_requests db)).

(** * Parking *)

Record ResumeRequester := { rr_sub : string; rr_act : option string; rr_name : option string }.

(** The arguments of [create_pending_request], then what it reads from the context
    (the acting agent, the change ticket, the session, the hash of the target). *)
Record ParkArgs := {
  pa_operator : Operator;
  pa_connector_id : string;
  pa_op_id : string;
  pa_target_id : option uuid;
  pa_params : json_dict;
  pa_params_hash : string;
  pa_run_id : option uuid;
  pa_proposed_effect : option json_dict;
  pa_expires_at : option datetime;
  pa_preview_hash : option string;
  pa_resume_parent : option json_dict;
  pa_idempotency_key : option string;
  pa_requester : option ResumeRequester;
  pa_reveal_secret : bool;
  pa_actor_sub : option string;
  pa_work_ref : option string;
  pa_agent_session_id : option uuid;
  pa_target_hash : option string;
}.

(** The fresh ids of a park: the request, its audit row, the custody row. *)
Record ParkIds := { pi_request : uuid; pi_audit : uuid; pi_handle : uuid }.

Definition IDEMPOTENT_LIVE_STATUSES : list ApprovalRequestStatus := [aq_pending; aq_approved].

Definition holds_key (tenant_id : uuid) (sub key : string) (r : ApprovalRequest) : bool :=
  bool_decide (ar_tenant_id r = tenant_id) && bool_decide (pk_principal_sub (ar_call r) = sub) &&
  bool_decide (pk_idempotency_key (ar_call r) = Some key) && bool_decide (ar_status r ∈ IDEMPOTENT_LIVE_STATUSES).

Definition find_idempotent_request (tenant_id : uuid) (sub key : string) (db : ApprovalDb)
  : option ApprovalRequest := List.find (holds_key tenant_id sub key) (aq_requests db).

Definition is_overdue_pending (r : ApprovalRequest) (now : datetime) : bool :=
  bool_decide (ar_status r = aq_pending) && deadline_has_passed r now (Some (aq_default_ttl st)).

(** What the key holds now: a request to reuse, or nothing once an overdue one was
    expired.  The row found is the row locked, so the loop makes one turn. *)
Definition resolve_idempotent_request (tenant_id : uuid) (sub key : string) (now cutoff : datetime)
  (cx : AuditCtx) (db : ApprovalDb) : ApprovalDb * option ApprovalRequest :=
  match find_idempotent_request tenant_id sub key db with
  | None => (db, None)
  | Some existing =>
      if is_overdue_pending existing now
      then (expire_request (expiry_operator (ar_tenant_id existing)) cutoff (Some (aq_default_ttl st)) None cx
              existing db, None)
      else (db, Some existing)
  end.

Definition reuse_idempotent_request (a : ParkArgs) (existing : ApprovalRequest) : res ApprovalError ApprovalRequest :=
  let c := ar_call existing in
  _ ← guard_or (IdempotencyKeyConflictError (ar_id existing))
        (bool_decide (pk_op_id c = pa_op_id a) && bool_decide (pk_connector_id c = pa_connector_id a) &&
         bool_decide (pk_target_id c = pa_target_id a) && hash_matches (pa_params a) (pk_params_hash c) &&
         bool_decide (pk_preview_hash c = pa_preview_hash a) && bool_decide (pk_work_ref c = pa_work_ref a));
  Ok existing.

Definition default_effect (a : ParkArgs) : json_dict :=
  [("op_id", JStr (pa_op_id a)); ("connector_id", JStr (pa_connector_id a))] ++
  match pa_target_id a with Some t => [("target_id", JStr t)] | None => [] end.

(** Of a credential write the row keeps no input but the id of the parent. *)
Definition stored_resume_parent (a : ParkArgs) : res ApprovalError (option json_dict) :=
  match pa_resume_parent a with
  | Some parent =>
      if is_credential_write (pa_op_id a)
      then op_id ← ok_or ApprovalMissingKey (dict_get "op_id" parent); Ok (Some [("op_id", op_id)])
      else Ok (Some parent)
  | None => Ok None
  end.

Definition new_request (a : ParkArgs) (ids : ParkIds) (created_at : datetime) (parent : option json_dict)
  : ApprovalRequest :=
  let credential := is_credential_write (pa_op_id a) in
  let o := pa_operator a in
  {| ar_call := {|
       pk_id := pi_request ids; pk_tenant_id := op_tenant_id o; pk_run_id := pa_run_id a;
       pk_principal_sub := match pa_requester a with Some r => rr_sub r | None => op_sub o end;
       pk_principal_act := match pa_requester a with Some r => rr_act r | None => pa_actor_sub a end;
       pk_principal_name := match pa_requester a with Some r => rr_name r | None => op_name o end;
       pk_op_id := pa_op_id a; pk_connector_id := pa_connector_id a; pk_target_id := pa_target_id a;
       pk_params_hash := pa_params_hash a; pk_preview_hash := pa_preview_hash a;
       pk_proposed_effect := default (default_effect a) (pa_proposed_effect a); pk_created_at := created_at;
       pk_work_ref := pa_work_ref a; pk_agent_session_id := pa_agent_session_id a;
       pk_request_audit_id := Some (pi_audit ids); pk_resume_parent := parent;
       pk_idempotency_key := pa_idempotency_key a; pk_release_id := running_release_id st;
       pk_target_hash := pa_target_hash a; pk_reveal_secret := pa_reveal_secret a |};
     ar_params := if credential then None else Some (pa_params a);
     ar_execution_handle := if credential then Some (pi_handle ids) else None;
     ar_status := aq_pending; ar_reviewed_by := None; ar_reviewed_by_name := None; ar_decided_at := None;
     ar_withdrawn_at := None; ar_withdraw_reason := None;
     ar_expires_at := Some (bounded_expires_at created_at (pa_expires_at a) (aq_default_ttl st));
     ar_resumed_at := None; ar_resume_result := None; ar_rerun_count := 0 |}.

Definition add_request (r : ApprovalRequest) : ApprovalDb -> ApprovalDb := on_requests (fun l => l ++ [r]).

(** The insert and what follows it.  The unique index on the live key refuses a
    second holder, which is then the one to reuse. *)
Definition insert_request (a : ParkArgs) (ids : ParkIds) (created_at : datetime) (cx : AuditCtx) (db : ApprovalDb)
  : res ApprovalError (ApprovalDb * ApprovalRequest) :=
  parent ← stored_resume_parent a;
  let row := new_request a ids created_at parent in
  let winner := key ← pa_idempotency_key a;
                find_idempotent_request (ar_tenant_id row) (pk_principal_sub (ar_call row)) key db in
  match winner with
  | Some existing => r ← reuse_idempotent_request a existing; Ok (db, r)
  | None =>
      _ ← guard_or ApprovalIntegrityError (bool_decide (pi_request ids ∉ ar_id <$> aq_requests db));
      _ ← guard_or ApprovalHandoffKeyError (negb (is_credential_write (pa_op_id a)) || handoff_key_ok st);
      let payload := {| ep_handle := pi_handle ids; ep_request_id := pi_request ids;
                        ep_tenant_id := op_tenant_id (pa_operator a); ep_params := pa_params a;
                        ep_resume_parent := pa_resume_parent a |} in
      let db1 := add_request row db in
      let db2 := {| aq_requests := aq_requests db1; aq_audit := aq_audit db1;
                    aq_payloads := aq_payloads db1 ++ (if is_credential_write (pa_op_id a) then [payload] else []) |} in
      Ok (write_audit_row cx POLICY_DECISION (pa_operator a) row "approval.request" 202 detail_request db2, row)
  end.

Definition create_pending_request (a : ParkArgs) (ids : ParkIds) (now cutoff created_at : datetime)
  (cx_expiry cx : AuditCtx) (db : ApprovalDb) : res ApprovalError (ApprovalDb * ApprovalRequest) :=
  match pa_idempotency_key a with
  | None => insert_request a ids created_at cx db
  | Some key =>
      match resolve_idempotent_request (op_tenant_id (pa_operator a)) (op_sub (pa_operator a)) key now cutoff
              cx_expiry db with
      | (_, Some live) => r ← reuse_idempotent_request a live; Ok (db, r)
      | (db1, None) => insert_request a ids created_at cx db1
      end
  end.
End Queue.
