(* ===== verification/ApprovalProofs.v ===== *)
(** What the approval queue guarantees: who approved, that a decision is final, that
    an approved call is claimed once, that a sign-in for a destructive change is used
    once, and that a request that ended keeps no secret. *)

From S2P Require Import Prelude Json Identity SecretNames Delegation ApprovalSignIn Approvals.

Section Facts.
Context (canonical : json_dict -> string) (sha256 : string -> string).
Context (hmac : string -> string -> string) (derive_key : string -> string).
Context (st : ApprovalSettings) (floors : gmap string TenantRole).

Abbreviation candidates := (params_hash_candidates canonical sha256 hmac derive_key st).
Abbreviation approve := (approve_request canonical sha256 hmac derive_key st floors).

(** * Approving *)

(** The reviewer is another person, of the right group when the change is risky; or
    the requester, under one of the three self-approval rules. *)
Definition right_person (o : Operator) (r : ApprovalRequest) : Prop :=
  (op_sub o <> pk_principal_sub (ar_call r) /\
   (high_risk r = true -> may_self_approve o = true \/ op_tenant_role o = TENANT_ADMIN)) \/
  (op_sub o = pk_principal_sub (ar_call r) /\
   (may_self_approve o = true \/
    (request_waits_only_for_token_call r = true /\ op_web_session o = true) \/
    (high_risk r = false /\ approval_allow_self_approval st = true))).

Record may_approve (o : Operator) (r : ApprovalRequest) (params : option json_dict) (now : datetime) : Prop := {
  ma_human : op_principal_kind o = USER;
  ma_role : op_tenant_role o <> READ_ONLY \/ op_approver o = true;
  ma_tenant : ar_tenant_id r = op_tenant_id o;
  ma_pending : ar_status r = aq_pending;
  ma_in_time : deadline_has_passed r now (Some (aq_default_ttl st)) = false;
  ma_person : right_person o r;
  ma_floor : forall floor, floors !! pk_op_id (ar_call r) = Some floor -> role_rank floor <= role_rank (op_tenant_role o);
  ma_params : forall p, params = Some p -> pk_params_hash (ar_call r) ∈ candidates p;
  ma_preview : is_destructive r = true -> exists h, pk_preview_hash (ar_call r) = Some h /\ h <> "";
}.

Lemma check_reviewer_role_Ok o :
  check_reviewer_role o = Ok tt <-> op_principal_kind o = USER /\ (op_tenant_role o <> READ_ONLY \/ op_approver o = true).
Proof.
  unfold check_reviewer_role. rewrite <- is_human_iff. split.
  - intros H. apply bind_Ok in H as ([] & Hh & Hr). apply guard_or_Ok in Hh, Hr. split; [done|].
    apply orb_true_iff in Hr as [Hr|Hr]; [left|by right]. by to_prop.
  - intros [-> Hr]. simpl. apply guard_or_Ok, orb_true_iff. destruct Hr; [left|by right]. by case_bool_decide.
Qed.

Lemma load_for_tenant_Ok id t db r :
  load_for_tenant id t db = Ok r <-> get_row db id = Some r /\ ar_tenant_id r = t.
Proof.
  unfold load_for_tenant. split.
  - intros H. apply bind_Ok in H as (r' & Hr & H). apply bind_Ok in H as ([] & Ht & H). injection H as ->.
    apply ok_or_Ok in Hr. apply guard_or_Ok in Ht. by to_prop.
  - intros [-> Ht]. simpl. by rewrite (bool_decide_true _ Ht).
Qed.

Lemma params_hash_matches_iff p h :
  params_hash_matches canonical sha256 hmac derive_key st p h = true <-> h ∈ candidates p.
Proof.
  unfold params_hash_matches. rewrite existsb_exists. split.
  - intros (c & Hc & E). to_prop. subst. by apply list_elem_of_In.
  - intros Hc. exists h. rewrite bool_decide_eq_true, <- list_elem_of_In. done.
Qed.

Lemma check_approver_group_Ok o r rule : check_approver_group st o r = Ok rule -> right_person o r.
Proof.
  unfold check_approver_group, check_self_approval, right_person, high_risk.
  destruct (decide (op_sub o = pk_principal_sub (ar_call r))) as [He|He].
  - rewrite (bool_decide_true _ He). simpl. intros H. right. split; [done|].
    destruct (may_self_approve o); [by left|]. right.
    destruct (request_waits_only_for_token_call r && op_web_session o) eqn:E1; [left; by apply andb_true_iff|]. right.
    destruct (approval_allow_self_approval st); [|by rewrite andb_false_r in H]. split; [|done].
    rewrite andb_true_r in H. destruct (request_safety_level r) as [level|]; [|done]. by case_bool_decide.
  - rewrite (bool_decide_false _ He). simpl. intros H. left. split; [done|].
    destruct (request_safety_level r) as [level|]; [|done]. intros Hr. rewrite Hr in H. simpl in H.
    clear Hr. destruct (may_self_approve o); [by left|]. simpl in H. case_bool_decide; [by right|done].
Qed.

Lemma load_pending_Ok id o params now db r rule :
  load_pending_for_approval canonical sha256 hmac derive_key st floors id o params now db = Ok (r, rule) ->
  get_row db id = Some r /\ check_approver_group st o r = Ok rule /\ may_approve o r params now.
Proof.
  unfold load_pending_for_approval. intros H.
  apply bind_Ok in H as ([] & Hrole & H). apply bind_Ok in H as (r' & Hload & H).
  apply bind_Ok in H as ([] & Hpend & H). apply bind_Ok in H as ([] & Htime & H).
  apply bind_Ok in H as (rule' & Hgroup & H). apply bind_Ok in H as ([] & Hfloor & H).
  apply bind_Ok in H as ([] & Hparams & H). apply bind_Ok in H as ([] & Hprev & H). injection H as -> ->.
  apply check_reviewer_role_Ok in Hrole as [? ?]. apply load_for_tenant_Ok in Hload as [? ?].
  apply guard_or_Ok in Hpend, Htime, Hparams, Hprev. to_prop. split_and!; [done..|]. split; try done.
  - by eapply check_approver_group_Ok.
  - apply role_floor_denial_None. unfold check_approver_role_floor in Hfloor. by case_match.
  - intros p ->. by apply params_hash_matches_iff.
  - intros Hd. rewrite Hd in Hprev. simpl in Hprev. destruct (pk_preview_hash (ar_call r)) as [h|]; [|done].
    exists h. split; [done|]. intros ->. done.
Qed.

Definition sign_in_fits (r : ApprovalRequest) (a : ApprovalAuth) (now : datetime) : Prop :=
  (now - au_auth_time a * second <= approval_sign_in_max_age (aq_sign_in st) (is_destructive r) * second)%Z.

(** The blocks of a sign-in's earlier decisions. *)
Definition earlier_blocks (a : ApprovalAuth) (o : Operator) (db : ApprovalDb) : list AuthBlock :=
  omap (earlier_use (sign_in_key sha256 a (op_sub o)) (op_sub o)
          ((au_auth_time a - CLOCK_SKEW_SECONDS - 1) * second)%Z) (aq_audit db).

Lemma check_sign_in_use_Ok r o a now db b :
  check_sign_in_use sha256 st r o a now db = Ok b ->
  b = is_destructive r /\ sign_in_fits r a now /\
  forall block, block ∈ earlier_blocks a o db -> is_destructive r = false /\ ab_single_use block = false.
Proof.
  unfold check_sign_in_use. intros H. apply bind_Ok in H as ([] & Hage & H). apply bind_Ok in H as ([] & Huse & H).
  injection H as <-. apply guard_or_Ok in Hage, Huse. split_and!; [done|unfold sign_in_fits; by apply Z.leb_le|].
  intros block Hb. apply negb_true_iff in Huse. apply orb_false_iff.
  apply not_true_iff_false. intros Ht. apply not_true_iff_false in Huse as []. eapply existsb_intro; [exact Hb|done].
Qed.

Lemma approve_Ok id o params reason auth t cx db db' r' :
  approve id o params reason auth t cx db = Ok (db', r') ->
  exists r rule delegation,
    get_row db id = Some r /\ r' = set_decided aq_approved o (t_decided t) r /\
    check_approver_group st o r = Ok rule /\ may_approve o r params (t_deadline t) /\
    parse_delegation reason = Ok delegation /\ (delegation <> None -> approval_allow_delegated_decision st = true) /\
    (forall a, auth = Some a -> sign_in_fits r a (t_sign_in t) /\
       forall block, block ∈ earlier_blocks a o db -> is_destructive r = false /\ ab_single_use block = false) /\
    db' = write_audit_row cx APPROVAL_DECISION o r' "approval.decision" 200
            (detail_approved (bool_decide (op_sub o = pk_principal_sub (ar_call r))) rule reason
               ((fun a => {| ab_auth := a; ab_sign_in_key := sign_in_key sha256 a (op_sub o);
                             ab_single_use := is_destructive r |}) <$> auth) delegation) (put_row r' db).
Proof.
  unfold approve_request. intros H. apply bind_Ok in H as ([r rule] & Hload & H).
  apply load_pending_Ok in Hload as (Hrow & Hgroup & Hmay).
  apply bind_Ok in H as (delegation & Hdel & H). apply bind_Ok in H as ([] & Hlab & H).
  apply bind_Ok in H as (single & Hsign & H). injection H as <- <-.
  exists r, rule, delegation. split_and!; try done.
  - unfold read_delegation in Hdel. destruct (parse_delegation reason); [by injection Hdel as ->|done].
  - destruct delegation as [d|]; [|done]. intros _. simpl in Hlab. by apply guard_or_Ok in Hlab.
  - intros a ->. apply check_sign_in_use_Ok in Hsign. tauto.
  - destruct auth as [a|]; [|done]. apply check_sign_in_use_Ok in Hsign as [-> _]. done.
Qed.

(** * Hidden params *)

(** What may stay on a row: no secret-named value. *)
Definition params_hidden (params : option json_dict) : Prop :=
  match params with Some p => no_secret_left true [] (JDict p) = true | None => True end.

Lemma hide_params_spec r : params_hidden (ar_params (hide_params r)).
Proof.
  unfold hide_params, params_with_secret_fields_hidden, scrub_secret_named_values.
  destruct (ar_params r) as [p|] eqn:Hp; [|simpl; by rewrite Hp].
  pose proof (scrub_hides true [] (JDict p)) as Hh. pose proof (scrub_unchanged true [] (JDict p)) as Hu.
  destruct (scrub_secret_named_keys true [] (JDict p)) as [w []] eqn:E.
  - by destruct w.
  - simpl in *. specialize (Hu eq_refl). subst w. simpl. by rewrite Hp.
Qed.

Lemma hide_params_eq r : exists p, hide_params r = set_params p r.
Proof.
  unfold hide_params. case_match; [by eexists|]. exists (ar_params r). by destruct r.
Qed.

(** * Steps of one row *)

Definition ended (r : ApprovalRequest) : bool :=
  bool_decide (ar_status r ∈ [aq_rejected; aq_expired; aq_withdrawn]).

Inductive row_step : ApprovalRequest -> ApprovalRequest -> Prop :=
| row_approved o now r : ar_status r = aq_pending -> row_step r (set_decided aq_approved o now r)
| row_rejected o now r : ar_status r = aq_pending -> row_step r (hide_params (set_decided aq_rejected o now r))
| row_withdrawn now reason r : ar_status r = aq_pending -> row_step r (hide_params (set_withdrawn now reason r))
| row_expired now ttl r : ar_status r = aq_pending -> row_step r (hide_params (set_expired now ttl r))
| row_claimed now r : ar_status r = aq_approved -> ar_resumed_at r = None ->
    row_step r (hide_params (set_resumed now r))
| row_result result n r : row_step r (set_resume_result result n r).

(** The columns each status fills, the latch of an approved call, and what stays of
    the params. *)
Record row_ok (r : ApprovalRequest) : Prop := {
  ro_reviewed : is_Some (ar_reviewed_by r) <-> ar_status r = aq_approved \/ ar_status r = aq_rejected;
  ro_decided : is_Some (ar_decided_at r) <->
    ar_status r = aq_approved \/ ar_status r = aq_rejected \/ ar_status r = aq_expired;
  ro_withdrawn : is_Some (ar_withdrawn_at r) <-> ar_status r = aq_withdrawn;
  ro_resumed : is_Some (ar_resumed_at r) -> ar_status r = aq_approved;
  ro_hidden : ended r = true \/ is_Some (ar_resumed_at r) -> params_hidden (ar_params r);
}.

(** How one row may differ from a later one. *)
Record row_later (r r' : ApprovalRequest) : Prop := {
  rl_call : ar_call r' = ar_call r;
  rl_final : ar_status r <> aq_pending ->
    ar_status r' = ar_status r /\ ar_reviewed_by r' = ar_reviewed_by r /\
    ar_reviewed_by_name r' = ar_reviewed_by_name r /\ ar_decided_at r' = ar_decided_at r /\
    ar_withdrawn_at r' = ar_withdrawn_at r /\ ar_expires_at r' = ar_expires_at r;
  rl_latch : is_Some (ar_resumed_at r) -> ar_resumed_at r' = ar_resumed_at r;
  rl_params : ar_resumed_at r' = None -> ended r' = false -> ar_params r' = ar_params r;
}.

Lemma row_later_refl r : row_later r r.
Proof. by split. Qed.

Lemma row_later_trans r1 r2 r3 : row_later r1 r2 -> row_later r2 r3 -> row_later r1 r3.
Proof.
  intros [Hc1 Hf1 Hl1 Hp1] [Hc2 Hf2 Hl2 Hp2]. split.
  - congruence.
  - intros H. specialize (Hf1 H) as (E & ? & ? & ? & ? & ?). rewrite E in Hf2. specialize (Hf2 H) as (? & ? & ? & ? & ? & ?).
    split_and!; congruence.
  - intros H. specialize (Hl1 H). rewrite Hl1 in Hl2. rewrite Hl2; [done|congruence].
  - intros Hn He. rewrite Hp2 by done. apply Hp1.
    + destruct (ar_resumed_at r2) eqn:E; [|done]. rewrite Hl2 in Hn by eauto. congruence.
    + destruct (ended r2) eqn:E; [|done]. unfold ended in *. apply bool_decide_eq_true in E.
      assert (ar_status r2 <> aq_pending) as Hs by (intros Hs; rewrite Hs in E; set_solver).
      specialize (Hf2 Hs) as [Hs' _]. rewrite <- Hs' in E. by rewrite bool_decide_true in He.
Qed.

Lemma row_step_id r r' : row_step r r' -> ar_id r' = ar_id r /\ ar_call r' = ar_call r.
Proof.
  intros [| | | | |]; try done;
    match goal with |- context [hide_params ?x] => destruct (hide_params_eq x) as [p ->] end; done.
Qed.

Ltac open_hidden :=
  match goal with
  | |- context [hide_params ?x] =>
      let p := fresh "p" in let E := fresh "E" in
      pose proof (hide_params_spec x); destruct (hide_params_eq x) as [p E]; rewrite E in *; clear E
  | _ => idtac
  end.

Lemma not_Some_None {A} (x : option A) : ~ is_Some x -> x = None.
Proof. by destruct x as [a|]; [intros []; exists a|]. Qed.

(** A pending row has no decision on it. *)
Lemma pending_clean r : row_ok r -> ar_status r = aq_pending ->
  ar_reviewed_by r = None /\ ar_decided_at r = None /\ ar_withdrawn_at r = None /\ ar_resumed_at r = None.
Proof.
  intros [H1 H2 H3 H4 _] Hs. rewrite Hs in *.
  split_and!; apply not_Some_None; intros H.
  - apply H1 in H as [?|?]; done.
  - apply H2 in H as [?|[?|?]]; done.
  - by apply H3 in H.
  - by apply H4 in H.
Qed.

Ltac status_cases :=
  repeat match goal with
    | |- _ /\ _ => split
    | |- _ <-> _ => split
    | |- _ -> _ => intros ?
    | H : _ \/ _ |- _ => destruct H
    | H : is_Some None |- _ => destruct H; discriminate
    end; simpl in *; try discriminate; try congruence; eauto.

Lemma row_step_ok r r' : row_ok r -> row_step r r' -> row_ok r' /\ row_later r r'.
Proof.
  intros Hok Hst. pose proof Hok as [H1 H2 H3 H4 H5].
  destruct Hst as [o now r Hs|o now r Hs|now reason r Hs|now ttl r Hs|now r Hs Hn|result n r].
  1-4: destruct (pending_clean _ Hok Hs) as (E1 & E2 & E3 & E4).
  - split; split; simpl; rewrite ?Hs, ?E1, ?E2, ?E3, ?E4; status_cases.
  - open_hidden. split; split; simpl; rewrite ?Hs, ?E1, ?E2, ?E3, ?E4; status_cases.
  - open_hidden. split; split; simpl; rewrite ?Hs, ?E1, ?E2, ?E3, ?E4; status_cases.
  - open_hidden. split; split; simpl; rewrite ?Hs, ?E1, ?E2, ?E3, ?E4; status_cases.
  - open_hidden. rewrite Hs in *. split; split; simpl; rewrite ?Hs, ?Hn; try done; status_cases.
  - split; split; simpl; try done.
Qed.

(** * Steps of the table *)

Definition replace_row (r r' : ApprovalRequest) (rows : list ApprovalRequest) : list ApprovalRequest :=
  update_where (fun x => bool_decide (ar_id x = ar_id r)) (fun _ => r') rows.

Definition live (r : ApprovalRequest) : bool := bool_decide (ar_status r ∈ IDEMPOTENT_LIVE_STATUSES).

(** The two rows would hold the same key. *)
Definition same_key (r r' : ApprovalRequest) : Prop :=
  is_Some (pk_idempotency_key (ar_call r)) /\
  pk_idempotency_key (ar_call r) = pk_idempotency_key (ar_call r') /\
  ar_tenant_id r = ar_tenant_id r' /\ pk_principal_sub (ar_call r) = pk_principal_sub (ar_call r').

Definition payload_of (r : ApprovalRequest) (e : ExecutionPayload) : Prop :=
  ep_request_id e = ar_id r /\ ep_tenant_id e = ar_tenant_id r.

(** The audit row that closes a request says what became of it. *)
Definition closes (a : ApprovalAudit) (r : ApprovalRequest) : Prop :=
  aa_request_id a = ar_id r /\
  match aa_detail a with
  | detail_request => False
  | detail_approved _ _ _ _ _ => ar_status r = aq_approved /\ ar_reviewed_by r = Some (aa_operator_sub a)
  | detail_rejected _ _ => ar_status r = aq_rejected /\ ar_reviewed_by r = Some (aa_operator_sub a)
  | detail_withdrawn _ => ar_status r = aq_withdrawn /\ aa_operator_sub a = pk_principal_sub (ar_call r)
  | detail_expired expires_at _ => ar_status r = aq_expired /\ ar_expires_at r = expires_at
  end.

Definition sign_in_block (a : ApprovalAudit) : option AuthBlock :=
  match aa_detail a with detail_approved _ _ _ block _ => block | _ => None end.

Definition scan_start (a : ApprovalAuth) : datetime := ((au_auth_time a - CLOCK_SKEW_SECONDS - 1) * second)%Z.

(** The block of an approve names its sign-in, was written after the sign-in's scan
    begins, and respects the decisions the sign-in made before. *)
Definition block_ok (log : list ApprovalAudit) (a : ApprovalAudit) (r : ApprovalRequest) : Prop :=
  forall b, sign_in_block a = Some b ->
    aa_path a = "approval.decision" /\ ab_sign_in_key b = sign_in_key sha256 (ab_auth b) (aa_operator_sub a) /\
    (scan_start (ab_auth b) <= aa_occurred_at a)%Z /\ ab_single_use b = is_destructive r /\
    forall b', b' ∈ omap (earlier_use (ab_sign_in_key b) (aa_operator_sub a) (scan_start (ab_auth b))) log ->
      ab_single_use b = false /\ ab_single_use b' = false.

(** Leaving the pending state writes one audit row; other edits write none. *)
Definition logged (db db' : ApprovalDb) (r r' : ApprovalRequest) : Prop :=
  (ar_status r' = ar_status r /\ aq_audit db' = aq_audit db) \/
  (ar_status r = aq_pending /\ exists a, aq_audit db' = aq_audit db ++ [a] /\ closes a r' /\ block_ok (aq_audit db) a r').

Inductive db_step (db db' : ApprovalDb) : Prop :=
| ds_edit r r' :
    r ∈ aq_requests db -> row_step r r' -> aq_requests db' = replace_row r r' (aq_requests db) ->
    (forall e, e ∈ aq_payloads db' -> e ∈ aq_payloads db /\ (ended r' = true -> ~ payload_of r e)) ->
    logged db db' r r' -> db_step db db'
| ds_new r :
    ar_id r ∉ ar_id <$> aq_requests db -> ar_status r = aq_pending -> row_ok r ->
    (forall x, x ∈ aq_requests db -> live x = true -> ~ same_key r x) ->
    aq_requests db' = aq_requests db ++ [r] ->
    (forall e, e ∈ aq_payloads db' -> e ∈ aq_payloads db \/ payload_of r e) ->
    (exists a, aq_audit db' = aq_audit db ++ [a] /\ aa_detail a = detail_request) -> db_step db db'
| ds_payloads :
    aq_requests db' = aq_requests db -> (forall e, e ∈ aq_payloads db' -> e ∈ aq_payloads db) ->
    aq_audit db' = aq_audit db -> db_step db db'.

Record aq_ok (db : ApprovalDb) : Prop := {
  ao_ids : NoDup (ar_id <$> aq_requests db);
  ao_rows : forall r, r ∈ aq_requests db -> row_ok r;
  ao_keys : forall r r', r ∈ aq_requests db -> r' ∈ aq_requests db -> live r = true -> live r' = true ->
    same_key r r' -> r = r';
  ao_payloads : forall e, e ∈ aq_payloads db -> exists r, r ∈ aq_requests db /\ payload_of r e /\ ended r = false;
}.

Definition db_later (db db' : ApprovalDb) : Prop :=
  forall r, r ∈ aq_requests db -> exists r', r' ∈ aq_requests db' /\ row_later r r'.

Lemma live_ended r : live r = negb (ended r).
Proof. unfold live, ended, IDEMPOTENT_LIVE_STATUSES. by destruct (ar_status r). Qed.

Lemma row_later_live r r' : row_later r r' -> live r' = true -> live r = true.
Proof.
  intros Hl Hr'. destruct (live r) eqn:E; [done|]. unfold live in *. apply bool_decide_eq_false in E.
  destruct (rl_final _ _ Hl) as [Hs _]; [intros Hs; rewrite Hs in E; apply E; left|].
  apply bool_decide_eq_true in Hr'. by rewrite Hs in Hr'.
Qed.

Lemma elem_of_replace r r' rows x :
  NoDup (ar_id <$> rows) -> r ∈ rows -> x ∈ replace_row r r' rows <-> x = r' \/ (x ∈ rows /\ ar_id x <> ar_id r).
Proof. intros Hnd Hr. by apply (elem_of_update_key ar_id (fun _ => r')). Qed.

Lemma replace_row_ids r r' rows : ar_id r' = ar_id r -> ar_id <$> replace_row r r' rows = ar_id <$> rows.
Proof.
  intros Hid. unfold replace_row, update_where. rewrite <- list_fmap_compose. apply list_fmap_ext.
  intros i x _. simpl. case_bool_decide; congruence.
Qed.

Lemma db_step_later db db' : aq_ok db -> db_step db db' -> db_later db db'.
Proof.
  intros Hok [r r' Hr Hst Heq _ _|r Hid _ _ _ Heq _ _|Heq _ _] x Hx.
  - destruct (row_step_id _ _ Hst) as [Hid _]. rewrite Heq. setoid_rewrite elem_of_replace; [|apply Hok|done].
    destruct (decide (ar_id x = ar_id r)) as [E|E].
    + assert (x = r) as -> by (eapply key_inj; [apply Hok|..]; done).
      exists r'. split; [by left|]. by apply row_step_ok; [apply Hok|].
    + exists x. split; [by right|]. apply row_later_refl.
  - exists x. rewrite Heq. split; [set_solver|apply row_later_refl].
  - exists x. rewrite Heq. split; [done|apply row_later_refl].
Qed.

Lemma same_key_call r r' x : ar_call r = ar_call r' -> same_key r x -> same_key r' x.
Proof. unfold same_key, ar_tenant_id. by intros ->. Qed.

Lemma same_key_sym r r' : same_key r r' -> same_key r' r.
Proof. intros (? & E & ? & ?). split_and!; [by rewrite <- E|done..]. Qed.

Lemma edit_ok db db' r r' :
  aq_ok db -> r ∈ aq_requests db -> row_step r r' -> aq_requests db' = replace_row r r' (aq_requests db) ->
  (forall e, e ∈ aq_payloads db' -> e ∈ aq_payloads db /\ (ended r' = true -> ~ payload_of r e)) -> aq_ok db'.
Proof.
  intros [Hnd Hrows Hkeys Hpay] Hr Hst Heq Hp. destruct (row_step_id _ _ Hst) as [Hid Hcall].
  destruct (row_step_ok _ _ (Hrows _ Hr) Hst) as [Hok' Hlater].
  assert (forall x, x ∈ aq_requests db' -> exists y, y ∈ aq_requests db /\ ar_call x = ar_call y /\
            (live x = true -> live y = true) /\ (x = r' /\ y = r \/ x = y /\ ar_id x <> ar_id r)) as Hback.
  { intros x. rewrite Heq, elem_of_replace by done. intros [->|[Hx Hne]]; [exists r|exists x]; split_and!; auto.
    by apply row_later_live. }
  split.
  - by rewrite Heq, replace_row_ids.
  - intros x. rewrite Heq, elem_of_replace by done. intros [->|[Hx _]]; [done|by apply Hrows].
  - intros x y Hx Hy Lx Ly Hk. destruct (Hback _ Hx) as (x0 & Hx0 & Cx & Vx & Ex).
    destruct (Hback _ Hy) as (y0 & Hy0 & Cy & Vy & Ey).
    assert (x0 = y0) as E.
    { apply Hkeys; auto. apply (same_key_call x); [done|]. apply same_key_sym, (same_key_call y); [done|].
      by apply same_key_sym. }
    destruct Ex as [[-> ->]|[-> Hne]], Ey as [[-> ->]|[-> Hne']]; congruence.
  - intros e He. apply Hp in He as [He Hend]. destruct (Hpay _ He) as (x & Hx & Hpe & Hx').
    destruct (decide (ar_id x = ar_id r)) as [E|E].
    + assert (x = r) as -> by (by eapply key_inj). exists r'. rewrite Heq, elem_of_replace by done.
      split_and!; [by left| |]; [unfold payload_of, ar_id, ar_tenant_id in *; by rewrite Hcall|].
      destruct (ended r'); [|done]. by destruct Hend.
    + exists x. rewrite Heq, elem_of_replace by done. split_and!; [by right|done..].
Qed.

Lemma new_ok db db' r :
  aq_ok db -> ar_id r ∉ ar_id <$> aq_requests db -> ar_status r = aq_pending -> row_ok r ->
  (forall x, x ∈ aq_requests db -> live x = true -> ~ same_key r x) ->
  aq_requests db' = aq_requests db ++ [r] ->
  (forall e, e ∈ aq_payloads db' -> e ∈ aq_payloads db \/ payload_of r e) -> aq_ok db'.
Proof.
  intros [Hnd Hrows Hkeys Hpay] Hid Hs Hok Hfree Heq Hp. split.
  - rewrite Heq, fmap_app. by apply NoDup_snoc.
  - intros x. rewrite Heq, elem_of_app, list_elem_of_singleton. intros [?| ->]; auto.
  - intros x y. rewrite Heq, !elem_of_app, !list_elem_of_singleton. intros [Hx| ->] [Hy| ->] Lx Ly Hk; auto.
    + by destruct (Hfree x Hx Lx (same_key_sym _ _ Hk)).
    + by destruct (Hfree y Hy Ly Hk).
  - intros e He. apply Hp in He as [He|He].
    + destruct (Hpay _ He) as (x & ? & ? & ?). exists x. rewrite Heq. set_solver.
    + exists r. rewrite Heq. split_and!; [set_solver|done|]. unfold ended. by rewrite Hs.
Qed.

Lemma db_step_ok db db' : aq_ok db -> db_step db db' -> aq_ok db'.
Proof.
  intros Hok [r r' Hr Hst Heq Hp _|r Hid Hs Hr Hf Heq Hp _|Heq Hp _].
  - by eapply edit_ok.
  - by eapply new_ok.
  - destruct Hok as [? ? ? Hpay]. split; rewrite ?Heq; auto.
Qed.

(** A chain of steps keeps the tables well-formed and the rows later. *)
Lemma db_steps_ok db db' : aq_ok db -> rtc db_step db db' -> aq_ok db' /\ db_later db db'.
Proof.
  intros Hok. induction 1 as [db|db db1 db2 Hst _ IH].
  - split; [done|]. intros r Hr. exists r. split; [done|apply row_later_refl].
  - pose proof (db_step_later _ _ Hok Hst) as H1. destruct (IH (db_step_ok _ _ Hok Hst)) as [? H2]. split; [done|].
    intros r Hr. destruct (H1 r Hr) as (r1 & Hr1 & L1). destruct (H2 r1 Hr1) as (r2 & ? & L2).
    exists r2. split; [done|]. by eapply row_later_trans.
Qed.

(** * The operations are steps *)

Lemma get_row_Some db id r : get_row db id = Some r -> r ∈ aq_requests db /\ ar_id r = id.
Proof.
  unfold get_row. intros H. apply List.find_some in H as [Hin H]. to_prop. by apply list_elem_of_In in Hin.
Qed.

(** A conditional update of one row replaces it. *)
Lemma update_one rows (q : ApprovalRequest -> bool) f r :
  NoDup (ar_id <$> rows) -> r ∈ rows -> q r = true ->
  (forall x, q x = true -> ar_id x = ar_id r) -> update_where q f rows = replace_row r (f r) rows.
Proof.
  intros Hnd Hr Hq Hid. unfold replace_row, update_where. apply list_fmap_ext. intros i x Hi.
  apply list_elem_of_lookup_2 in Hi. case_bool_decide as E.
  - assert (x = r) as -> by (by eapply key_inj). by rewrite Hq.
  - destruct (q x) eqn:Hx; [|done]. by destruct E; apply Hid.
Qed.

Abbreviation surface := (approve_surface canonical sha256 hmac derive_key st floors).

Lemma surface_Ok channel id o params reason now t cx db db' r' :
  surface channel id o params reason now t cx db = Ok (db', r') ->
  exists auth, presence_proved (aq_sign_in st) channel o now auth /\
    approve id o params reason (Some auth) t cx db = Ok (db', r').
Proof.
  unfold approve_surface. destruct (check_sign_in _ _ _ _) as [auth|] eqn:E; [|done].
  apply check_sign_in_spec in E. by exists auth.
Qed.

Lemma surface_step channel id o params reason now t cx db db' r' :
  (now <= ac_now cx)%Z -> surface channel id o params reason now t cx db = Ok (db', r') -> db_step db db'.
Proof.
  intros Hnow H. apply surface_Ok in H as (auth & Hp & H).
  apply approve_Ok in H as (r & rule & d & Hrow & -> & _ & Hmay & _ & _ & Huse & ->).
  apply get_row_Some in Hrow as [Hr _].
  eapply (ds_edit _ _ r); [done|apply row_approved; apply Hmay|done| |].
  - simpl. intros e He. by split.
  - right. split; [apply Hmay|]. eexists. split_and!; [done|done..|]. intros b [= <-]. simpl.
    destruct (Huse _ eq_refl) as [_ Hearlier]. split_and!; try done.
    pose proof (pp_not_ahead _ _ _ _ _ Hp). unfold scan_start, second in *. lia.
Qed.

(** Ending a row: it is replaced and its custody row goes. *)
Lemma end_step cx o path code detail r e db :
  r ∈ aq_requests db -> row_step r (hide_params e) -> ar_call e = ar_call r -> ar_status r = aq_pending ->
  (forall db0, exists a, aq_audit (write_audit_row cx APPROVAL_DECISION o (hide_params e) path code detail db0) =
     aq_audit db0 ++ [a] /\ closes a (hide_params e) /\ sign_in_block a = None) ->
  db_step db (write_audit_row cx APPROVAL_DECISION o (hide_params e) path code detail
                (put_row (hide_params e) (discard_payload (ar_id e) (ar_tenant_id e) db))).
Proof.
  intros Hr Hst Hc Hs Hlog. destruct (row_step_id _ _ Hst) as [Hid Hcall].
  eapply (ds_edit _ _ r (hide_params e)); [done|done| | |].
  3: { right. split; [done|]. destruct (Hlog (put_row (hide_params e) (discard_payload (ar_id e) (ar_tenant_id e) db)))
         as (a & E & Hcl & Hb). exists a. split_and!; [exact E|done|]. intros b. by rewrite Hb. }
  - simpl. unfold put_row, replace_row. simpl. by rewrite Hid.
  - simpl. intros p Hp. apply elem_of_delete in Hp as [Hp Hne]. split; [done|]. intros _ [E1 E2].
    apply andb_false_iff in Hne. unfold ar_id, ar_tenant_id in *. rewrite Hc in Hne.
    destruct Hne as [Hne|Hne]; apply bool_decide_eq_false in Hne; done.
Qed.

Ltac end_log :=
  intros ?; eexists; split_and!; [reflexivity| |reflexivity];
  match goal with |- context [hide_params ?x] => destruct (hide_params_eq x) as [? ->] end; done.

Lemma reject_step id o reason now cx db db' r' :
  reject_request st id o reason now cx db = Ok (db', r') ->
  db_step db db' /\ op_principal_kind o = USER /\ exists r, r ∈ aq_requests db /\ ar_id r = id /\
    ar_status r = aq_pending /\ ar_tenant_id r = op_tenant_id o.
Proof.
  unfold reject_request. intros H. apply bind_Ok in H as ([] & Hrole & H). apply bind_Ok in H as (r & Hload & H).
  apply bind_Ok in H as ([] & Hpend & H). apply bind_Ok in H as (d & _ & H). apply bind_Ok in H as ([] & _ & H).
  simpl in H. injection H as <- <-. apply guard_or_Ok in Hpend. to_prop.
  apply check_reviewer_role_Ok in Hrole as [? _]. apply load_for_tenant_Ok in Hload as [Hload ?].
  apply get_row_Some in Hload as [Hr ?]. split_and!; [|done|by exists r].
  apply (end_step cx o _ _ _ r); [done|by apply row_rejected|done|done|]. end_log.
Qed.

Lemma withdraw_step id o reason now cx db db' r' :
  withdraw_request id o reason now cx db = Ok (db', r') ->
  db_step db db' /\ exists r, r ∈ aq_requests db /\ ar_id r = id /\
    ar_status r = aq_pending /\ ar_tenant_id r = op_tenant_id o /\ pk_principal_sub (ar_call r) = op_sub o.
Proof.
  unfold withdraw_request. intros H. apply bind_Ok in H as (r & Hload & H).
  apply bind_Ok in H as ([] & Hown & H). apply bind_Ok in H as ([] & Hpend & H).
  simpl in H. injection H as <- <-. apply guard_or_Ok in Hpend, Hown. to_prop.
  apply load_for_tenant_Ok in Hload as [Hload ?].
  apply get_row_Some in Hload as [Hr ?]. split; [|by exists r].
  apply (end_step cx o _ _ _ r); [done|by apply row_withdrawn|done|done|]. end_log.
Qed.

Lemma expire_step o cutoff ttl rel cx r db :
  r ∈ aq_requests db -> ar_status r = aq_pending -> db_step db (expire_request o cutoff ttl rel cx r db).
Proof. intros Hr Hs. apply (end_step cx o _ _ _ r); [done|by apply row_expired|done|done|]. end_log. Qed.

Lemma expire_request_rows o cutoff ttl rel cx r db :
  aq_requests (expire_request o cutoff ttl rel cx r db) =
  replace_row r (hide_params (set_expired cutoff ttl r)) (aq_requests db).
Proof.
  unfold expire_request, end_run_input. simpl. unfold put_row, replace_row. simpl.
  destruct (hide_params_eq (set_expired cutoff ttl r)) as [p ->]. done.
Qed.

(** Expiring several pending rows is a chain. *)
Lemma expire_rows_steps o cutoff ttl rel cx rows db :
  aq_ok db -> NoDup (ar_id <$> rows) ->
  (forall r, r ∈ rows -> r ∈ aq_requests db /\ ar_status r = aq_pending) ->
  rtc db_step db (expire_rows o cutoff ttl rel cx rows db).
Proof.
  revert db. induction rows as [|r rows IH]; intros db Hok Hnd Hrows; simpl; [done|].
  destruct (Hrows r) as [Hr Hs]; [by left|].
  pose proof (expire_step o cutoff ttl (rel r) (cx r) r db Hr Hs) as Hst.
  eapply rtc_l; [exact Hst|]. inversion_clear Hnd as [|? ? Hnin Hnd']. apply IH; [by eapply db_step_ok|done|].
  intros x Hx. destruct (Hrows x) as [Hxd Hxs]; [by right|]. split; [|done].
  rewrite expire_request_rows. apply elem_of_replace; [apply Hok|done|]. right. split; [done|].
  intros E. apply Hnin. rewrite <- E. by apply (list_elem_of_fmap_2 ar_id).
Qed.

Lemma expire_stale_steps o cutoff ttl locked cx db db' rows :
  aq_ok db -> expire_stale_requests o cutoff ttl locked cx db = Ok (db', rows) -> rtc db_step db db'.
Proof.
  intros Hok H. unfold expire_stale_requests in H. apply bind_Ok in H as ([] & _ & H). injection H as <- <-.
  apply expire_rows_steps; [done|apply NoDup_select_where, Hok|].
  intros r Hr. apply elem_of_select in Hr as [Hr Hp]. unfold sweep_selects in Hp. to_prop. done.
Qed.

Lemma expire_release_steps o rel cutoff locked cx db db' rows :
  aq_ok db -> expire_older_release_requests st o rel cutoff locked cx db = Ok (db', rows) -> rtc db_step db db'.
Proof.
  intros Hok H. unfold expire_older_release_requests in H. apply bind_Ok in H as ([] & _ & H). injection H as <- <-.
  apply expire_rows_steps; [done|apply NoDup_select_where, Hok|].
  intros r Hr. apply elem_of_select in Hr as [Hr Hp]. to_prop. done.
Qed.

(** ** Claims and results *)

Lemma claim_lost id now db db' : claim_resume id now db = (db', false) -> db' = db.
Proof.
  unfold claim_resume. intros [= <- He]. unfold on_requests. destruct db as [rows audit pay]. simpl in *. f_equal.
  apply update_where_none. intros r Hr. apply not_true_iff_false. intros Hp. apply not_true_iff_false in He as [].
  by eapply existsb_intro.
Qed.

(** A won claim latches one approved row that was not latched. *)
Lemma claim_won id now db db' :
  aq_ok db -> claim_resume id now db = (db', true) ->
  exists r, r ∈ aq_requests db /\ ar_id r = id /\ ar_status r = aq_approved /\ ar_resumed_at r = None /\
    aq_requests db' = replace_row r (hide_params (set_resumed now r)) (aq_requests db) /\
    aq_payloads db' = aq_payloads db /\ aq_audit db' = aq_audit db.
Proof.
  unfold claim_resume. intros Hok [= <- He]. apply existsb_exists in He as (r & Hr & Hp).
  apply list_elem_of_In in Hr. exists r. to_prop. split_and!; try done.
  simpl. apply (update_one _ _ (fun r => hide_params (set_resumed now r))); [apply Hok|done|by rewrite !bool_decide_true|].
  intros x Hx. to_prop. congruence.
Qed.

Lemma claim_step id now db db' : aq_ok db -> claim_resume id now db = (db', true) -> db_step db db'.
Proof.
  intros Hok H. destruct (claim_won _ _ _ _ Hok H) as (r & Hr & _ & Hs & Hn & Heq & Hp & Ha).
  eapply (ds_edit _ _ r); [done|by apply row_claimed|done| |];
    destruct (hide_params_eq (set_resumed now r)) as [p ->]; [|by left].
  rewrite Hp. intros e He. split; [done|]. unfold ended. simpl. by rewrite Hs.
Qed.

Lemma result_step id result db : aq_ok db -> rtc db_step db (persist_resume_result id result db).
Proof.
  intros Hok. unfold persist_resume_result.
  destruct (decide (id ∈ ar_id <$> aq_requests db)) as [Hin|Hin].
  - apply list_elem_of_fmap in Hin as (r & -> & Hr). apply rtc_once.
    eapply (ds_edit _ _ r); [done|apply (row_result (Some result) (ar_rerun_count r))| | |by left].
    + simpl. apply (update_one _ _ (fun r => set_resume_result (Some result) (ar_rerun_count r) r));
        [apply Hok|done|by apply bool_decide_true|]. intros x Hx. by to_prop.
    + simpl. intros e He. split; [done|]. intros Hend Hpe. destruct (ao_payloads _ Hok _ He) as (x & Hx & [E _] & Hxe).
      destruct Hpe as [E' _]. assert (x = r) as -> by (eapply key_inj; [apply Hok|done|done|congruence]).
      unfold ended in *. simpl in Hend. congruence.
  - apply rtc_once. apply ds_payloads; [|done|done]. simpl. apply update_where_none. intros r Hr. apply bool_decide_false.
    intros <-. apply Hin. by apply (list_elem_of_fmap_2 ar_id).
Qed.

Lemma rerun_step r0 db db' won : aq_ok db -> claim_rerun r0 db = (db', won) -> rtc db_step db db'.
Proof.
  unfold claim_rerun. set (p := fun r => _). intros Hok [= <- He]. apply rtc_once.
  destruct won.
  - apply existsb_exists in He as (r & Hr & Hp). apply list_elem_of_In in Hr.
    eapply (ds_edit _ _ r); [done|apply (row_result None (ar_rerun_count r + 1))| | |by left].
    + simpl. apply (update_one _ _ (fun r => set_resume_result None (ar_rerun_count r + 1) r)); [apply Hok|done|done|].
      intros x Hx. unfold p in *. to_prop. congruence.
    + simpl. intros e He. split; [done|]. unfold p in Hp. to_prop. unfold ended. simpl.
      match goal with E : ar_status r = _ |- _ => by rewrite E end.
  - apply ds_payloads; [|done|done]. simpl. apply update_where_none. intros r Hr. apply not_true_iff_false. intros Hp.
    apply not_true_iff_false in He as []. by eapply existsb_intro.
Qed.

Lemma consume_step h i t db db' e : consume_payload h i t db = Ok (db', e) -> db_step db db'.
Proof.
  unfold consume_payload. case_match eqn:E; [|done]. destruct o; [|done]. intros [= <- _]. apply ds_payloads; [done| |done].
  simpl. intros e' He. by apply elem_of_delete in He as [? _].
Qed.

(** ** The claim of a mint *)

(** A row a mint has read: the same call, still approved, and unchanged while it is
    not latched. *)
Definition found_ok (db : ApprovalDb) (q : ApprovalRequest) : Prop :=
  exists r, r ∈ aq_requests db /\ ar_call r = ar_call q /\ ar_status r = aq_approved /\
    (ar_resumed_at r = None -> ar_params r = ar_params q).

Lemma found_later db db' q : db_later db db' -> found_ok db q -> found_ok db' q.
Proof.
  intros Hl (r & Hr & Hc & Hs & Hp). destruct (Hl r Hr) as (r' & Hr' & [Lc Lf Ll Lp]). exists r'.
  destruct Lf as [Hs' _]; [by rewrite Hs|]. split_and!; [done|congruence|congruence|].
  intros Hn. rewrite Lp; [|done|unfold ended; by rewrite Hs', Hs]. apply Hp.
  destruct (ar_resumed_at r) eqn:E; [|done]. rewrite Ll in Hn by eauto. congruence.
Qed.

Lemma update_replaced r r1 g rows :
  ar_id r1 = ar_id r ->
  update_where (fun x => bool_decide (ar_id x = ar_id r)) g (replace_row r r1 rows) = replace_row r (g r1) rows.
Proof.
  intros Hid. unfold replace_row, update_where. rewrite <- list_fmap_compose. apply list_fmap_ext. intros i x _. simpl.
  repeat case_bool_decide; congruence.
Qed.

Lemma bind_won q now db db' :
  aq_ok db -> found_ok db q -> bind_approval q now db = Some db' ->
  exists r, r ∈ aq_requests db /\ ar_id r = ar_id q /\ ar_status r = aq_approved /\ ar_resumed_at r = None /\
    aq_requests db' = replace_row r (hide_params (set_resumed now r)) (aq_requests db) /\
    aq_audit db' = aq_audit db /\ (forall e, e ∈ aq_payloads db' <-> e ∈ aq_payloads db /\ ~ payload_of q e).
Proof.
  intros Hok (r & Hr & Hc & Hs & Hp) H. unfold bind_approval, consume_remote_write_approval in H.
  destruct (existsb _ _) eqn:He; [|done]. injection H as <-. apply existsb_exists in He as (x & Hx & Hxp).
  apply list_elem_of_In in Hx. to_prop.
  assert (ar_id r = ar_id q) as Hid by (unfold ar_id; by rewrite Hc).
  assert (x = r) as -> by (eapply key_inj; [apply Hok|done|done|congruence]).
  assert (update_where (fun r => bool_decide (ar_id r = ar_id q) && bool_decide (ar_resumed_at r = None))
            (set_resumed now) (aq_requests db) = replace_row r (set_resumed now r) (aq_requests db)) as E1.
  { apply (update_one _ _ (set_resumed now)); [apply Hok|done| |].
    - by rewrite !bool_decide_true.
    - intros y Hy. to_prop. congruence. }
  assert (forall e, e ∈ aq_payloads (discard_payload (ar_id q) (ar_tenant_id q) (on_requests
     (update_where (fun r => bool_decide (ar_id r = ar_id q) && bool_decide (ar_resumed_at r = None))
            (set_resumed now)) db)) <-> e ∈ aq_payloads db /\ ~ payload_of q e) as E2.
  { intros e. simpl. rewrite elem_of_delete, andb_false_iff, !bool_decide_eq_false. unfold payload_of.
    destruct (decide (ep_request_id e = ar_id q)), (decide (ep_tenant_id e = ar_tenant_id q)); tauto. }
  exists r. unfold hide_params. simpl. rewrite Hp by done.
  destruct (params_with_secret_fields_hidden (ar_params q)) as [h|]; split_and!; try done; simpl; rewrite E1.
  rewrite <- Hid. by apply update_replaced.
Qed.

Lemma bind_step q now db db' : aq_ok db -> found_ok db q -> bind_approval q now db = Some db' -> db_step db db'.
Proof.
  intros Hok Hf H. destruct (bind_won _ _ _ _ Hok Hf H) as (r & Hr & _ & Hs & Hn & Heq & Ha & Hp).
  eapply (ds_edit _ _ r); [done|by apply row_claimed|done| |];
    destruct (hide_params_eq (set_resumed now r)) as [p ->]; [|by left].
  intros e He. apply Hp in He as [He _]. split; [done|]. unfold ended. simpl. by rewrite Hs.
Qed.

Abbreviation find_approval := (find_remote_write_approval canonical sha256 hmac derive_key st).

Lemma find_approval_spec t op target params db q :
  find_approval t op target params db = Some q ->
  q ∈ aq_requests db /\ ar_tenant_id q = t /\ pk_op_id (ar_call q) = op /\ pk_target_id (ar_call q) = target /\
  pk_params_hash (ar_call q) ∈ candidates params /\ ar_status q = aq_approved /\ ar_resumed_at q = None.
Proof.
  unfold find_remote_write_approval. intros H. apply head_Some_elem_of in H. rewrite merge_sort_Permutation in H.
  apply elem_of_select in H as [Hq H]. unfold binds_call in H. to_prop. done.
Qed.

Lemma find_approval_ok t op target params db q : find_approval t op target params db = Some q -> found_ok db q.
Proof. intros H. apply find_approval_spec in H as (? & _ & _ & _ & _ & ? & ?). by exists q. Qed.

(** ** Parking *)

Context (is_cred : string -> bool).

Abbreviation insert := (insert_request canonical sha256 hmac derive_key st is_cred).
Abbreviation park := (create_pending_request canonical sha256 hmac derive_key st is_cred).

Lemma new_request_ok a ids created parent : row_ok (new_request st is_cred a ids created parent).
Proof. by split; simpl; status_cases. Qed.

Lemma holds_key_spec t sub k r :
  holds_key t sub k r = true <->
  ar_tenant_id r = t /\ pk_principal_sub (ar_call r) = sub /\ pk_idempotency_key (ar_call r) = Some k /\ live r = true.
Proof.
  unfold holds_key, live. rewrite !andb_true_iff, !bool_decide_eq_true.
  split; [by intros [[[? ?] ?] ?]|by intros (? & ? & ? & ?)].
Qed.

(** The call of a retry is the call of the request it gets back. *)
Record same_call (a : ParkArgs) (r : ApprovalRequest) : Prop := {
  sc_op : pk_op_id (ar_call r) = pa_op_id a;
  sc_connector : pk_connector_id (ar_call r) = pa_connector_id a;
  sc_target : pk_target_id (ar_call r) = pa_target_id a;
  sc_params : pk_params_hash (ar_call r) ∈ candidates (pa_params a);
  sc_preview : pk_preview_hash (ar_call r) = pa_preview_hash a;
  sc_ticket : pk_work_ref (ar_call r) = pa_work_ref a;
}.

Lemma reuse_Ok a r r' : reuse_idempotent_request canonical sha256 hmac derive_key st a r = Ok r' -> r' = r /\ same_call a r.
Proof.
  unfold reuse_idempotent_request. intros H. apply bind_Ok in H as ([] & Hg & H). injection H as <-. split; [done|].
  apply guard_or_Ok in Hg. rewrite !andb_true_iff, !bool_decide_eq_true, params_hash_matches_iff in Hg.
  split; tauto.
Qed.

(** The request holds the key under which the caller parks. *)
Definition holds_own_key (a : ParkArgs) (r : ApprovalRequest) : Prop :=
  pa_requester a = None -> forall k, pa_idempotency_key a = Some k ->
  holds_key (op_tenant_id (pa_operator a)) (op_sub (pa_operator a)) k r = true.

(** An insert reuses a live request of the key, for the same call, or adds a row. *)
Lemma insert_cases a ids created cx db db' r :
  insert a ids created cx db = Ok (db', r) ->
  (db' = db /\ r ∈ aq_requests db /\ live r = true /\ same_call a r /\ holds_own_key a r) \/
  (exists parent, r = new_request st is_cred a ids created parent /\ db_step db db' /\
     aq_requests db' = aq_requests db ++ [r] /\
     aq_audit db' = aq_audit (write_audit_row cx POLICY_DECISION (pa_operator a) r "approval.request" 202 detail_request db)).
Proof.
  unfold insert_request. intros H. apply bind_Ok in H as (parent & _ & H). cbv zeta in H.
  set (row := new_request st is_cred a ids created parent) in *.
  destruct (key ← pa_idempotency_key a; _) as [x|] eqn:Hw.
  - left. apply bind_Ok in H as (r' & Hre & H). injection H as <- <-. apply reuse_Ok in Hre as [-> ?].
    destruct (pa_idempotency_key a) as [k|] eqn:Ek; [|done]. simpl in Hw. apply find_Some_iff in Hw as [? Hk].
    pose proof Hk as Hk'. apply holds_key_spec in Hk'. split_and!; try tauto.
    intros Hreq k' Ek'. assert (k' = k) as -> by congruence. rewrite Hreq in Hk. exact Hk.
  - right. apply bind_Ok in H as ([] & Hid & H). apply bind_Ok in H as ([] & _ & H). injection H as <- <-.
    apply guard_or_Ok in Hid. to_prop. exists parent. split_and!; [done| |done|done].
    apply (ds_new _ _ row); [done|done|apply new_request_ok| |done| |by eexists].
    + intros x Hx Lx ((k & Hk) & Hk' & Ht & Hs). unfold row, new_request in Hk. simpl in Hk. rewrite Hk in Hw. simpl in Hw.
      unfold find_idempotent_request in Hw. rewrite find_None_iff in Hw. specialize (Hw x Hx).
      apply not_true_iff_false in Hw as []. apply holds_key_spec. split_and!; [by rewrite <- Ht|by rewrite <- Hs| |done].
      rewrite <- Hk'. unfold row, new_request. simpl. done.
    + simpl. intros e He. apply elem_of_app in He as [?|He]; [by left|right].
      destruct (is_cred (pa_op_id a)); [|by apply elem_of_nil in He]. by apply list_elem_of_singleton in He as ->.
Qed.

Lemma insert_steps a ids created cx db db' r : insert a ids created cx db = Ok (db', r) -> rtc db_step db db'.
Proof. intros H. apply insert_cases in H as [(-> & _)|(? & _ & ? & _)]; [done|by apply rtc_once]. Qed.

Lemma park_cases a ids now cutoff created cxe cx db db' r :
  park a ids now cutoff created cxe cx db = Ok (db', r) ->
  (db' = db /\ r ∈ aq_requests db /\ live r = true /\ same_call a r /\ holds_own_key a r) \/
  (exists db1, rtc db_step db db1 /\ insert a ids created cx db1 = Ok (db', r)).
Proof.
  unfold create_pending_request. intros H. destruct (pa_idempotency_key a) as [k|] eqn:Ek; [|right; by exists db].
  unfold resolve_idempotent_request in H.
  destruct (find_idempotent_request _ _ _ db) as [x|] eqn:Hx; [|right; by exists db].
  apply find_Some_iff in Hx as [Hx Hk]. pose proof Hk as Hk'. apply holds_key_spec in Hk' as (_ & _ & _ & Lx).
  destruct (is_overdue_pending st x now) eqn:Ho.
  - right. eexists. split; [|exact H]. apply rtc_once, expire_step; [done|]. unfold is_overdue_pending in Ho. by to_prop.
  - left. apply bind_Ok in H as (r' & Hre & H). injection H as <- <-. apply reuse_Ok in Hre as [-> ?].
    split_and!; try done. intros _ k' E. assert (k' = k) as -> by congruence. exact Hk.
Qed.

Lemma park_steps a ids now cutoff created cxe cx db db' r :
  park a ids now cutoff created cxe cx db = Ok (db', r) -> rtc db_step db db'.
Proof.
  intros H. apply park_cases in H as [(-> & _)|(db1 & H1 & H2)]; [done|].
  etrans; [exact H1|by eapply insert_steps].
Qed.

(** * The audit log *)

Definition closing (a : ApprovalAudit) : bool := match aa_detail a with detail_request => false | _ => true end.

Definition closing_ids (log : list ApprovalAudit) : list uuid :=
  omap (fun a => if closing a then Some (aa_request_id a) else None) log.

Record log_ok (db : ApprovalDb) : Prop := {
  lo_once : NoDup (closing_ids (aq_audit db));
  lo_rows : forall r, r ∈ aq_requests db -> ar_status r <> aq_pending -> exists a, a ∈ aq_audit db /\ closes a r;
  lo_closing : forall i a, aq_audit db !! i = Some a -> closing a = true ->
    exists r, r ∈ aq_requests db /\ closes a r /\ block_ok (take i (aq_audit db)) a r;
}.

Lemma closes_closing a r : closes a r -> closing a = true /\ ar_status r <> aq_pending.
Proof. unfold closes, closing. intros [_ H]. destruct (aa_detail a); [done|..]; destruct H as [-> _]; done. Qed.

Lemma closes_later a r r' : closes a r -> row_later r r' -> closes a r'.
Proof.
  intros Hc Hl. destruct (closes_closing _ _ Hc) as [_ Hs]. pose proof (rl_call _ _ Hl) as Hcall.
  destruct (rl_final _ _ Hl Hs) as (E1 & E2 & _ & _ & _ & E3). unfold closes, ar_id in *. rewrite Hcall.
  destruct Hc as [? Hc]. split; [done|]. by destruct (aa_detail a); rewrite ?E1, ?E2, ?E3.
Qed.

Lemma block_ok_later log a r r' : block_ok log a r -> row_later r r' -> block_ok log a r'.
Proof.
  intros Hb Hl b E. destruct (Hb b E) as (? & ? & ? & E' & ?). split_and!; try done.
  rewrite E'. unfold is_destructive, request_safety_level, effect_get. by rewrite (rl_call _ _ Hl).
Qed.

Lemma elem_of_closing_ids log id : id ∈ closing_ids log <-> exists a, a ∈ log /\ closing a = true /\ aa_request_id a = id.
Proof.
  unfold closing_ids. rewrite list_elem_of_omap. split.
  - intros (a & Ha & H). exists a. destruct (closing a); [|done]. by injection H as <-.
  - intros (a & Ha & Hc & <-). exists a. by rewrite Hc.
Qed.

Lemma closing_ids_app log a :
  closing_ids (log ++ [a]) = closing_ids log ++ (if closing a then [aa_request_id a] else []).
Proof. unfold closing_ids. rewrite omap_app. simpl. by destruct (closing a). Qed.

(** The rows of the log keep their place and their meaning. *)
Lemma log_prefix db db' log' :
  log_ok db -> db_later db db' -> aq_audit db' = aq_audit db ++ log' ->
  forall i a, aq_audit db !! i = Some a -> closing a = true ->
    exists r, r ∈ aq_requests db' /\ closes a r /\ block_ok (take i (aq_audit db')) a r.
Proof.
  intros Hlog Hl Heq i a Ha Hc. destruct (lo_closing _ Hlog i a Ha Hc) as (r & Hr & Hcl & Hb).
  destruct (Hl r Hr) as (r' & Hr' & Hlr). exists r'. split_and!; [done|by eapply closes_later|].
  rewrite Heq, take_app_le by (apply lookup_lt_Some in Ha; lia). by eapply block_ok_later.
Qed.

Lemma same_log_ok db db' :
  log_ok db -> db_later db db' -> aq_audit db' = aq_audit db ->
  (forall r', r' ∈ aq_requests db' -> ar_status r' <> aq_pending ->
     exists r, r ∈ aq_requests db /\ ar_status r = ar_status r' /\ row_later r r') -> log_ok db'.
Proof.
  intros Hlog Hl Heq Hback. split.
  - rewrite Heq. apply Hlog.
  - intros r' Hr' Hs. destruct (Hback r' Hr' Hs) as (r & Hr & E & Hlr).
    destruct (lo_rows _ Hlog r Hr) as (a & Ha & Hc); [congruence|]. exists a. rewrite Heq. split; [done|].
    by eapply closes_later.
  - intros i a Ha. apply (log_prefix db db' []); [done|done|by rewrite app_nil_r|by rewrite <- Heq].
Qed.

Lemma edit_back db db' r r' x :
  aq_ok db -> r ∈ aq_requests db -> row_step r r' -> aq_requests db' = replace_row r r' (aq_requests db) ->
  x ∈ aq_requests db' -> x = r' \/ (x ∈ aq_requests db /\ ar_id x <> ar_id r).
Proof. intros Hok Hr Hst Heq. rewrite Heq, elem_of_replace; [done|apply Hok|done]. Qed.

Lemma db_step_log db db' : aq_ok db -> log_ok db -> db_step db db' -> log_ok db'.
Proof.
  intros Hok Hlog Hst. pose proof (db_step_later _ _ Hok Hst) as Hl.
  destruct Hst as [r r' Hr Hrs Heq _ [[Es Ea]|(Hpend & a & Ea & Hcl & Hb)]|r Hid Hs _ _ Heq _ (a & Ea & Hd)|Heq _ Ea].
  - apply (same_log_ok db); [done..|]. intros x Hx _. destruct (edit_back _ _ _ _ _ Hok Hr Hrs Heq Hx) as [->|[Hx' _]].
    + exists r. split_and!; [done..|]. by apply row_step_ok; [apply Hok|].
    + exists x. split_and!; [done..|]. apply row_later_refl.
  - destruct (closes_closing _ _ Hcl) as [Hca _]. destruct (row_step_id _ _ Hrs) as [Hid _]. split.
    + rewrite Ea, closing_ids_app, Hca. apply NoDup_snoc; [apply Hlog|]. intros Hin.
      apply elem_of_closing_ids in Hin as (b & Hbin & Hbc & Hbid). apply list_elem_of_lookup in Hbin as [i Hi].
      destruct (lo_closing _ Hlog i b Hi Hbc) as (x & Hx & Hbx & _). destruct (closes_closing _ _ Hbx) as [_ Hxs].
      assert (x = r) as ->; [|done]. eapply key_inj; [apply Hok|done|done|].
      destruct Hbx as [E _], Hcl as [E' _]. congruence.
    + intros x Hx Hxs. destruct (edit_back _ _ _ _ _ Hok Hr Hrs Heq Hx) as [->|[Hx' _]].
      * exists a. rewrite Ea. split; [set_solver|done].
      * destruct (lo_rows _ Hlog x Hx' Hxs) as (b & ? & ?). exists b. rewrite Ea. split; [set_solver|done].
    + intros i b Hi Hbc. rewrite Ea in Hi. apply lookup_app_Some in Hi as [Hi|[Hle Hi]]; [by eapply log_prefix|].
      apply list_lookup_singleton_Some in Hi as [Hi <-]. exists r'. rewrite Heq, elem_of_replace; [|apply Hok|done].
      split_and!; [by left|done|]. rewrite Ea, take_app_le, take_ge by lia. done.
  - split.
    + rewrite Ea, closing_ids_app. unfold closing. rewrite Hd, app_nil_r. apply Hlog.
    + intros x Hx Hxs. rewrite Heq in Hx. apply elem_of_app in Hx as [Hx|Hx%list_elem_of_singleton]; [|congruence].
      destruct (lo_rows _ Hlog x Hx Hxs) as (b & ? & ?). exists b. rewrite Ea. split; [set_solver|done].
    + intros i b Hi Hbc. rewrite Ea in Hi. apply lookup_app_Some in Hi as [Hi|[_ Hi]]; [by eapply log_prefix|].
      apply list_lookup_singleton_Some in Hi as [_ <-]. unfold closing in Hbc. by rewrite Hd in Hbc.
  - apply (same_log_ok db); [done..|]. intros x Hx _. exists x. rewrite <- Heq. split_and!; [done..|apply row_later_refl].
Qed.

Lemma db_steps_log db db' : aq_ok db -> log_ok db -> rtc db_step db db' -> log_ok db'.
Proof.
  intros Hok Hlog. induction 1 as [|db db1 db2 Hst _ IH]; [done|].
  apply IH; [by eapply db_step_ok|by eapply db_step_log].
Qed.

(** * Runs *)

(** The tables, and the rows the mints in flight have read. *)
Record aq_state := { qs_db : ApprovalDb; qs_found : list ApprovalRequest }.

(** One step of any surface; the ids are the requests whose call it may now run. *)
Inductive aq_step : aq_state -> list uuid -> aq_state -> Prop :=
| as_park a ids now cutoff created cxe cx db db' r f :
    park a ids now cutoff created cxe cx db = Ok (db', r) ->
    aq_step {| qs_db := db; qs_found := f |} [] {| qs_db := db'; qs_found := f |}
| as_insert a ids created cx db db' r f :
    insert a ids created cx db = Ok (db', r) ->
    aq_step {| qs_db := db; qs_found := f |} [] {| qs_db := db'; qs_found := f |}
| as_approve channel id o params reason now t cx db db' r f :
    (now <= ac_now cx)%Z -> surface channel id o params reason now t cx db = Ok (db', r) ->
    aq_step {| qs_db := db; qs_found := f |} [] {| qs_db := db'; qs_found := f |}
| as_reject id o reason now cx db db' r f :
    reject_request st id o reason now cx db = Ok (db', r) ->
    aq_step {| qs_db := db; qs_found := f |} [] {| qs_db := db'; qs_found := f |}
| as_withdraw id o reason now cx db db' r f :
    withdraw_request id o reason now cx db = Ok (db', r) ->
    aq_step {| qs_db := db; qs_found := f |} [] {| qs_db := db'; qs_found := f |}
| as_expire o cutoff ttl locked cx db db' rows f :
    expire_stale_requests o cutoff ttl locked cx db = Ok (db', rows) ->
    aq_step {| qs_db := db; qs_found := f |} [] {| qs_db := db'; qs_found := f |}
| as_release o rel cutoff locked cx db db' rows f :
    expire_older_release_requests st o rel cutoff locked cx db = Ok (db', rows) ->
    aq_step {| qs_db := db; qs_found := f |} [] {| qs_db := db'; qs_found := f |}
| as_claim id now db db' f :
    claim_resume id now db = (db', true) ->
    aq_step {| qs_db := db; qs_found := f |} [id] {| qs_db := db'; qs_found := f |}
| as_find t op target params db q f :
    find_approval t op target params db = Some q ->
    aq_step {| qs_db := db; qs_found := f |} [] {| qs_db := db; qs_found := q :: f |}
| as_bind q now db db' f :
    q ∈ f -> bind_approval q now db = Some db' ->
    aq_step {| qs_db := db; qs_found := f |} [ar_id q] {| qs_db := db'; qs_found := f |}
| as_result id result db f :
    aq_step {| qs_db := db; qs_found := f |} [] {| qs_db := persist_resume_result id result db; qs_found := f |}
| as_rerun q db db' won f :
    claim_rerun q db = (db', won) ->
    aq_step {| qs_db := db; qs_found := f |} [] {| qs_db := db'; qs_found := f |}
| as_consume h id t db db' e f :
    consume_payload h id t db = Ok (db', e) ->
    aq_step {| qs_db := db; qs_found := f |} [] {| qs_db := db'; qs_found := f |}.

Inductive aq_run (s0 : aq_state) : list uuid -> aq_state -> Prop :=
| ar_start : aq_run s0 [] s0
| ar_next ids s ids' s' : aq_run s0 ids s -> aq_step s ids' s' -> aq_run s0 (ids ++ ids') s'.

Definition empty_queue : aq_state :=
  {| qs_db := {| aq_requests := []; aq_audit := []; aq_payloads := [] |}; qs_found := [] |}.

Record queue_ok (s : aq_state) : Prop := {
  qo_db : aq_ok (qs_db s);
  qo_log : log_ok (qs_db s);
  qo_found : forall q, q ∈ qs_found s -> found_ok (qs_db s) q;
}.

Lemma empty_queue_ok : queue_ok empty_queue.
Proof. split; [split|split|]; simpl; try (intros; set_solver); constructor. Qed.

(** Every step is a chain of row steps, and finds only approved rows. *)
Lemma aq_step_steps s ids s' :
  queue_ok s -> aq_step s ids s' ->
  rtc db_step (qs_db s) (qs_db s') /\
  (forall q, q ∈ qs_found s' -> q ∈ qs_found s \/ found_ok (qs_db s') q).
Proof.
  intros [Hok _ Hf] Hst. destruct Hst; simpl in *; (split; [|try by auto]).
  - by eapply park_steps.
  - by eapply insert_steps.
  - by eapply rtc_once, surface_step.
  - eapply rtc_once. by eapply reject_step.
  - eapply rtc_once. by eapply withdraw_step.
  - by eapply expire_stale_steps.
  - by eapply expire_release_steps.
  - by eapply rtc_once, claim_step.
  - done.
  - intros x Hx. apply elem_of_cons in Hx as [->|Hx]; [right; by eapply find_approval_ok|by left].
  - eapply rtc_once, bind_step; [done| |done]. by apply Hf.
  - by apply result_step.
  - by eapply rerun_step.
  - by eapply rtc_once, consume_step.
Qed.

Lemma aq_step_ok s ids s' : queue_ok s -> aq_step s ids s' -> queue_ok s' /\ db_later (qs_db s) (qs_db s').
Proof.
  intros Hok Hst. pose proof Hok as [Hdb Hlog Hf]. destruct (aq_step_steps _ _ _ Hok Hst) as [Hsteps Hfound].
  destruct (db_steps_ok _ _ Hdb Hsteps) as [Hdb' Hl]. split; [|done]. split; [done|exact (db_steps_log _ _ Hdb Hlog Hsteps)|].
  intros q Hq. destruct (Hfound q Hq) as [Hq'|]; [|done]. eapply found_later; [done|by apply Hf].
Qed.

Lemma aq_run_ok s0 ids s : queue_ok s0 -> aq_run s0 ids s -> queue_ok s /\ db_later (qs_db s0) (qs_db s).
Proof.
  intros Hok. induction 1 as [|ids s ids' s' _ [Hs Hl] Hst].
  - split; [done|]. intros r Hr. exists r. split; [done|apply row_later_refl].
  - destruct (aq_step_ok _ _ _ Hs Hst) as [Hs' Hl']. split; [done|]. intros r Hr.
    destruct (Hl r Hr) as (r1 & Hr1 & L1). destruct (Hl' r1 Hr1) as (r2 & ? & L2). exists r2. split; [done|].
    by eapply row_later_trans.
Qed.
End Facts.
