(* ===== verification/ApprovalTheorems.v ===== *)
(** The theorems about the approval queue, for any run from an empty queue. *)

From S2P Require Import Prelude Json Identity SecretNames Delegation ApprovalSignIn Approvals ApprovalProofs.

Section Theorems.
Context (canonical : json_dict -> string) (sha256 : string -> string).
Context (hmac : string -> string -> string) (derive_key : string -> string).
Context (st : ApprovalSettings) (floors : gmap string TenantRole) (is_cred : string -> bool).

Abbreviation candidates := (params_hash_candidates canonical sha256 hmac derive_key st).
Abbreviation run := (aq_run canonical sha256 hmac derive_key st floors is_cred).
Abbreviation surface := (approve_surface canonical sha256 hmac derive_key st floors).
Abbreviation park := (create_pending_request canonical sha256 hmac derive_key st is_cred).
Abbreviation step_ok := (aq_step_ok canonical sha256 hmac derive_key st floors is_cred).

Lemma run_ok ids s : run empty_queue ids s -> queue_ok sha256 s.
Proof. intros H. eapply aq_run_ok; [apply empty_queue_ok|done]. Qed.

(** C4. Whoever approves, on any surface, was allowed to: a person of the request's
    tenant, present by a recent sign-in that asked for credentials and is young
    enough for the risk of the change, with a reviewer's role and the role the
    operation itself needs, before the deadline.  It is another person than the
    requester, a self-approver or an admin when the change is dangerous or
    destructive; the requester alone only as a self-approver, by a click on a caution
    change that waited for a token, or under break-glass below the high-risk tiers.
    Params that came along are the parked ones and a destructive request has its
    preview.  The row is the parked one with the decision on it, audited under the
    approver's name. *)
Theorem approve_is_authorised channel id o params reason now t cx db db' r' :
  surface channel id o params reason now t cx db = Ok (db', r') ->
  exists r auth, r ∈ aq_requests db /\ ar_id r = id /\
    may_approve canonical sha256 hmac derive_key st floors o r params (t_deadline t) /\
    presence_proved (aq_sign_in st) channel o now auth /\ sign_in_fits st r auth (t_sign_in t) /\
    (forall d, parse_delegation reason = Ok (Some d) -> approval_allow_delegated_decision st = true) /\
    r' = set_decided aq_approved o (t_decided t) r /\ aq_requests db' = replace_row r r' (aq_requests db) /\
    exists a, aq_audit db' = aq_audit db ++ [a] /\ closes a r' /\ aa_operator_sub a = op_sub o.
Proof.
  intros H. apply surface_Ok in H as (auth & Hp & H).
  apply approve_Ok in H as (r & rule & d & Hrow & -> & _ & Hmay & Hd & Hlab & Huse & ->).
  apply get_row_Some in Hrow as [Hr Hid]. destruct (Huse _ eq_refl) as [Hfit _].
  exists r, auth. do 5 (split; [done|]). split; [|do 2 (split; [done|]); by eexists].
  intros d' Hd'. apply Hlab. rewrite Hd in Hd'. by injection Hd' as ->.
Qed.

(** C5. A request is decided once.  In any run, whatever the surfaces do and however
    mints and resumers interleave, a request keeps the call it was parked with; from
    the moment it is approved, rejected, withdrawn or expired its status, its
    reviewer, its times and its deadline never change again, and a claimed run stays
    claimed.  Every request carries exactly the marks of its status, and only an
    approved one is ever claimed. *)
Theorem decisions_are_final ids s ids' s' r :
  run empty_queue ids s -> run s ids' s' -> r ∈ aq_requests (qs_db s) ->
  row_ok r /\ exists r', r' ∈ aq_requests (qs_db s') /\ row_later r r' /\ row_ok r'.
Proof.
  intros H H' Hr. apply run_ok in H. split; [by apply H|].
  destruct (aq_run_ok _ _ _ _ _ _ _ _ _ _ H H') as [Hs' Hl]. destruct (Hl r Hr) as (r' & Hr' & L).
  exists r'. split_and!; [done|done|]. by apply Hs'.
Qed.

(** What a step claims was approved and unclaimed before, and is claimed after. *)
Lemma step_claims s ids s' :
  queue_ok sha256 s -> aq_step canonical sha256 hmac derive_key st floors is_cred s ids s' ->
  ids = [] \/ exists id r r', ids = [id] /\ r ∈ aq_requests (qs_db s) /\ ar_id r = id /\ ar_resumed_at r = None /\
    r' ∈ aq_requests (qs_db s') /\ ar_id r' = id /\ is_Some (ar_resumed_at r').
Proof.
  intros [Hok _ Hf] Hst. destruct Hst; try (by left); right; simpl in *.
  - destruct (claim_won _ _ _ _ Hok ltac:(eassumption)) as (r & Hr & Hid & Hs & Hn & Heq & _).
    exists id, r, (hide_params (set_resumed now r)). rewrite Heq, elem_of_replace; [|apply Hok|done].
    destruct (hide_params_eq (set_resumed now r)) as [p ->]. split_and!; try done; by left.
  - destruct (bind_won _ _ _ _ Hok (Hf _ ltac:(eassumption)) ltac:(eassumption)) as (r & Hr & Hid & Hs & Hn & Heq & _).
    exists (ar_id q), r, (hide_params (set_resumed now r)). rewrite Heq, elem_of_replace; [|apply Hok|done].
    destruct (hide_params_eq (set_resumed now r)) as [p ->]. split_and!; try done; by left.
Qed.

Lemma run_claims ids s :
  run empty_queue ids s -> NoDup ids /\ forall id, id ∈ ids -> exists r, r ∈ aq_requests (qs_db s) /\ ar_id r = id /\
    is_Some (ar_resumed_at r).
Proof.
  intros H. pose proof H as H0. revert H0. induction H as [|ids s ids' s' Hrun IH Hst]; intros H0.
  - split; [constructor|set_solver].
  - destruct (IH Hrun) as [Hnd Hc]. pose proof (run_ok _ _ Hrun) as Hok.
    destruct (step_ok _ _ _ Hok Hst) as [Hok' Hl].
    assert (forall id, id ∈ ids -> exists r, r ∈ aq_requests (qs_db s') /\ ar_id r = id /\ is_Some (ar_resumed_at r)) as Hc'.
    { intros id Hid. destruct (Hc id Hid) as (r & Hr & E & Hs). destruct (Hl r Hr) as (r' & Hr' & L). exists r'.
      split_and!; [done|unfold ar_id in *; by rewrite (rl_call _ _ L)|by rewrite (rl_latch _ _ L)]. }
    destruct (step_claims _ _ _ Hok Hst) as [->|(id & r & r' & -> & Hr & E & Hn & Hr' & E' & Hs')].
    + by rewrite app_nil_r.
    + split; [|intros x Hx; apply elem_of_app in Hx as [Hx|Hx%list_elem_of_singleton]; [auto|subst; by exists r']].
      apply NoDup_snoc; [done|]. intros Hin. destruct (Hc _ Hin) as (x & Hx & Ex & Hxs).
      assert (x = r) as -> by (eapply key_inj; [apply Hok|done|done|congruence]). rewrite Hn in Hxs. by destruct Hxs.
Qed.

(** C9. An approved call runs at most once.  In any run the requests claimed for
    execution, by a resume or by the mint of a remote write whose read of the
    approval may be stale, are all different; each of them was approved by a named
    reviewer, and the audit log has the decision. *)
Theorem approved_calls_run_once ids s :
  run empty_queue ids s ->
  NoDup ids /\ forall id, id ∈ ids -> exists r a, r ∈ aq_requests (qs_db s) /\ ar_id r = id /\
    ar_status r = aq_approved /\ is_Some (ar_reviewed_by r) /\ a ∈ aq_audit (qs_db s) /\ closes a r.
Proof.
  intros H. destruct (run_claims _ _ H) as [Hnd Hc]. split; [done|]. intros id Hid.
  destruct (Hc id Hid) as (r & Hr & E & Hs). pose proof (run_ok _ _ H) as [Hok Hlog _].
  pose proof (ao_rows _ Hok r Hr) as Hrow. pose proof (ro_resumed _ Hrow Hs) as Happ.
  destruct (lo_rows _ _ Hlog r Hr) as (a & Ha & Hcl); [rewrite Happ; discriminate|].
  exists r, a. split_and!; try done. apply Hrow. by left.
Qed.

(** Every request that left the pending state has exactly one closing audit row,
    and it says what became of it: who approved or rejected it, that its sender
    withdrew it, or which deadline it expired under.  No closing row is about a
    request that is still pending. *)
Theorem every_decision_is_audited ids s :
  run empty_queue ids s ->
  NoDup (closing_ids (aq_audit (qs_db s))) /\
  (forall r, r ∈ aq_requests (qs_db s) -> ar_status r <> aq_pending <-> exists a, a ∈ aq_audit (qs_db s) /\ closes a r).
Proof.
  intros H. pose proof (run_ok _ _ H) as [Hok Hlog _]. split; [apply Hlog|]. intros r Hr. split.
  - apply (lo_rows _ _ Hlog r Hr).
  - intros (a & _ & Hc). apply (closes_closing _ _ Hc).
Qed.

(** A sign-in that approved a destructive change approved nothing else.  Two
    approve rows of one person made with one sign-in (the same session and sign-in
    time) are both about changes that are not destructive, however many requests and
    surfaces were involved. *)
Theorem destructive_sign_in_is_exclusive ids s i j a a' b b' :
  run empty_queue ids s ->
  i < j -> aq_audit (qs_db s) !! i = Some a -> aq_audit (qs_db s) !! j = Some a' ->
  sign_in_block a = Some b -> sign_in_block a' = Some b' -> aa_operator_sub a = aa_operator_sub a' ->
  au_sid (ab_auth b) = au_sid (ab_auth b') -> au_auth_time (ab_auth b) = au_auth_time (ab_auth b') ->
  exists r r', r ∈ aq_requests (qs_db s) /\ closes a r /\ is_destructive r = false /\
    r' ∈ aq_requests (qs_db s) /\ closes a' r' /\ is_destructive r' = false.
Proof.
  intros H Hij Ha Ha' Hb Hb' Hsub Hsid Htime. pose proof (run_ok _ _ H) as [_ Hlog _].
  assert (forall x y, sign_in_block x = Some y -> closing x = true) as Hcl.
  { unfold sign_in_block, closing. intros x y. by destruct (aa_detail x). }
  destruct (lo_closing _ _ Hlog _ _ Ha (Hcl _ _ Hb)) as (r & Hr & Hc & Hok).
  destruct (lo_closing _ _ Hlog _ _ Ha' (Hcl _ _ Hb')) as (r' & Hr' & Hc' & Hok').
  destruct (Hok b Hb) as (Hpath & Hkey & Hscan & Hsingle & _).
  destruct (Hok' b' Hb') as (_ & Hkey' & _ & Hsingle' & Huse).
  assert (b ∈ omap (earlier_use (ab_sign_in_key b') (aa_operator_sub a') (scan_start (ab_auth b')))
                (take j (aq_audit (qs_db s)))) as Hin.
  { apply list_elem_of_omap. exists a. split.
    - apply (list_elem_of_lookup_2 _ i). by rewrite lookup_take_lt.
    - unfold sign_in_block in Hb. unfold earlier_use. destruct (aa_detail a) as [|? ? ? block ?| | |]; try done. subst block.
      assert (ab_sign_in_key b = ab_sign_in_key b') as Ek.
      { rewrite Hkey, Hkey'. unfold sign_in_key. by rewrite Hsub, Hsid, Htime. }
      unfold scan_start in *. rewrite <- Htime.
      rewrite (bool_decide_true _ Hsub), (bool_decide_true _ Hpath), (bool_decide_true _ Ek).
      by rewrite (proj2 (Z.leb_le _ _) Hscan). }
  destruct (Huse b Hin) as [E1 E2]. exists r, r'. split_and!; try done; congruence.
Qed.

(** A request that ended keeps nothing to run it with.  Once it is rejected,
    withdrawn or expired no encrypted input of it is in custody; and once it ended or
    its run was claimed, its stored params hold no secret-named value at any depth.
    Encrypted inputs in custody always belong to a request of their tenant that may
    still run. *)
Theorem ended_requests_keep_no_secrets ids s :
  run empty_queue ids s ->
  (forall r, r ∈ aq_requests (qs_db s) -> ended r = true \/ is_Some (ar_resumed_at r) ->
     params_hidden (ar_params r) /\
     (ended r = true -> forall e, e ∈ aq_payloads (qs_db s) -> ep_request_id e <> ar_id r)) /\
  (forall e, e ∈ aq_payloads (qs_db s) -> exists r, r ∈ aq_requests (qs_db s) /\ ar_id r = ep_request_id e /\
     ar_tenant_id r = ep_tenant_id e /\ (ar_status r = aq_pending \/ ar_status r = aq_approved)).
Proof.
  intros H. pose proof (run_ok _ _ H) as [Hok _ _]. split.
  - intros r Hr He. split; [by apply Hok|]. intros Hend e Hin E.
    destruct (ao_payloads _ Hok e Hin) as (x & Hx & [Ex _] & Hxe).
    assert (x = r) as -> by (eapply key_inj; [apply Hok|done|done|congruence]). congruence.
  - intros e Hin. destruct (ao_payloads _ Hok e Hin) as (x & Hx & [Ex Et] & Hxe). exists x. split_and!; [done..|].
    unfold ended in Hxe. apply bool_decide_eq_false in Hxe. destruct (ar_status x); set_solver.
Qed.

(** Parking with an idempotency key is idempotent.  After a park under a key the
    request it returned is the only live one of that tenant, sender and key; it is
    for the same call (operation, connector, target, params, preview, ticket); and
    the same park again, at any time before the request is overdue, returns it and
    changes nothing. *)
Theorem park_is_idempotent qids s a ids now cutoff created cxe cx db' r k :
  run empty_queue qids s -> pa_requester a = None -> pa_idempotency_key a = Some k ->
  pa_params_hash a ∈ candidates (pa_params a) ->
  park a ids now cutoff created cxe cx (qs_db s) = Ok (db', r) ->
  same_call canonical sha256 hmac derive_key st a r /\
  (forall x, x ∈ aq_requests db' ->
     holds_key (op_tenant_id (pa_operator a)) (op_sub (pa_operator a)) k x = true <-> x = r) /\
  (forall ids2 now2 cutoff2 created2 cxe2 cx2, is_overdue_pending st r now2 = false ->
     park a ids2 now2 cutoff2 created2 cxe2 cx2 db' = Ok (db', r)).
Proof.
  intros H Hreq Hk Hhash Hp. pose proof (run_ok _ _ H) as [Hok _ _].
  destruct (db_steps_ok _ _ _ Hok ltac:(eapply park_steps; exact Hp)) as [Hok' _].
  assert (r ∈ aq_requests db' /\ same_call canonical sha256 hmac derive_key st a r /\
          holds_key (op_tenant_id (pa_operator a)) (op_sub (pa_operator a)) k r = true) as (Hr & Hsame & Hown).
  { assert (forall d1, insert_request canonical sha256 hmac derive_key st is_cred a ids created cx d1 = Ok (db', r) ->
      r ∈ aq_requests db' /\ same_call canonical sha256 hmac derive_key st a r /\
      holds_key (op_tenant_id (pa_operator a)) (op_sub (pa_operator a)) k r = true) as Hins.
    { intros d1 Hi. apply insert_cases in Hi as [(-> & ? & _ & ? & Ho)|(parent & -> & _ & Heq & _)]; [by auto|].
      split_and!; [rewrite Heq; set_solver|by split|]. apply (proj2 (holds_key_spec _ _ _ _)).
      split_and!; [done| |done|done]. simpl. by rewrite Hreq. }
    apply park_cases in Hp as [(-> & ? & _ & ? & Ho)|(d1 & _ & Hi)]; [by auto|by apply (Hins d1)]. }
  assert (forall x, x ∈ aq_requests db' ->
     holds_key (op_tenant_id (pa_operator a)) (op_sub (pa_operator a)) k x = true -> x = r) as Hunique.
  { intros x Hx Hxk. apply holds_key_spec in Hxk as (E1 & E2 & E3 & Lx), Hown as (F1 & F2 & F3 & Lr).
    apply (ao_keys _ Hok'); try done. split_and!; [by eexists|congruence..]. }
  split_and!; [done|intros x Hx; split; [by apply Hunique|by intros ->]|].
  intros ids2 now2 cutoff2 created2 cxe2 cx2 Hover. unfold create_pending_request. rewrite Hk.
  unfold resolve_idempotent_request, find_idempotent_request.
  assert (List.find (holds_key (op_tenant_id (pa_operator a)) (op_sub (pa_operator a)) k) (aq_requests db') = Some r) as ->.
  { destruct (List.find _ _) as [x|] eqn:Hf.
    - apply find_Some_iff in Hf as [Hx Hxk]. f_equal. by apply Hunique.
    - rewrite find_None_iff in Hf. by rewrite (Hf r Hr) in Hown. }
  rewrite Hover. unfold reuse_idempotent_request. destruct Hsame as [S1 S2 S3 S4 S5 S6].
  apply params_hash_matches_iff in S4. rewrite S4. by rewrite !bool_decide_true.
Qed.

Lemma expire_rows_effect o cutoff ttl rel cx rows db x :
  aq_ok db -> NoDup (ar_id <$> rows) ->
  (forall r, r ∈ rows -> r ∈ aq_requests db /\ ar_status r = aq_pending) -> x ∈ aq_requests db ->
  (x ∈ rows -> hide_params (set_expired cutoff ttl x) ∈ aq_requests (expire_rows o cutoff ttl rel cx rows db)) /\
  (x ∉ rows -> x ∈ aq_requests (expire_rows o cutoff ttl rel cx rows db)).
Proof.
  revert db x. induction rows as [|r rows IH]; intros db x Hok Hnd Hrows Hx; simpl; [split; [set_solver|done]|].
  destruct (Hrows r) as [Hr Hs]; [by left|]. inversion_clear Hnd as [|? ? Hnin Hnd'].
  set (db1 := expire_request _ _ _ _ _ _ _).
  assert (aq_ok db1) as Hok1 by (eapply (db_step_ok sha256); [done|by apply expire_step]).
  assert (forall y, y ∈ aq_requests db1 <-> y = hide_params (set_expired cutoff ttl r) \/ (y ∈ aq_requests db /\ ar_id y <> ar_id r)) as H1.
  { intros y. unfold db1. rewrite expire_request_rows. apply elem_of_replace; [apply Hok|done]. }
  assert (forall y, y ∈ rows -> ar_id y <> ar_id r) as Hne.
  { intros y Hy E. apply Hnin. rewrite <- E. by apply (list_elem_of_fmap_2 ar_id). }
  assert (forall y, y ∈ rows -> y ∈ aq_requests db1 /\ ar_status y = aq_pending) as Hrows1.
  { intros y Hy. destruct (Hrows y) as [? ?]; [by right|]. split; [|done]. apply H1. right. split; [done|by apply Hne]. }
  set (e := hide_params (set_expired cutoff ttl r)).
  assert (e ∉ rows) as He.
  { intros Hin. apply (Hne e Hin). unfold e. by destruct (hide_params_eq (set_expired cutoff ttl r)) as [p ->]. }
  destruct (decide (ar_id x = ar_id r)) as [E|E].
  - assert (x = r) as -> by (eapply key_inj; [apply Hok|done|done|done]). split; [|set_solver].
    intros _. apply (IH db1 e Hok1 Hnd' Hrows1); [|done]. apply H1. by left.
  - assert (x ∈ aq_requests db1) as Hx1.
    { apply H1. by right. }
    destruct (IH db1 x Hok1 Hnd' Hrows1 Hx1) as [I1 I2]. split; [|set_solver].
    intros [->|Hin]%elem_of_cons; [done|by apply I1].
Qed.

(** The sweep and the approve path agree on what is overdue.  A sweep of a tenant
    at some time expires exactly those pending requests that an approve at that time
    would refuse as expired: with the configured lifetime for a request that never
    stored a deadline, and leaving rows another decision holds.  It touches no other
    row, and whom it expires can no longer be approved. *)
Theorem sweep_agrees_with_approve qids s o cutoff locked cx db' rows r :
  run empty_queue qids s ->
  expire_stale_requests o cutoff (Some (aq_default_ttl st)) locked cx (qs_db s) = Ok (db', rows) ->
  r ∈ aq_requests (qs_db s) ->
  if bool_decide (ar_status r = aq_pending) && bool_decide (ar_tenant_id r = op_tenant_id o) &&
     deadline_has_passed r cutoff (Some (aq_default_ttl st)) && negb (locked (ar_id r))
  then exists r', r' ∈ aq_requests db' /\ row_later r r' /\ ar_status r' = aq_expired /\ ar_decided_at r' = Some cutoff /\
         is_Some (ar_expires_at r')
  else r ∈ aq_requests db'.
Proof.
  intros H Hsweep Hr. pose proof (run_ok _ _ H) as [Hok _ _]. unfold expire_stale_requests in Hsweep.
  apply bind_Ok in Hsweep as ([] & _ & Hsweep). injection Hsweep as <- <-.
  assert (forall c ttl x, deadline_passed_clause c ttl x = deadline_has_passed x c ttl) as Hclause.
  { intros c ttl x. unfold deadline_passed_clause, deadline_has_passed.
    destruct (ar_expires_at x), ttl; simpl; rewrite ?orb_false_r; done. }
  set (q := sweep_selects o cutoff (Some (aq_default_ttl st)) locked). destruct (expire_rows_effect o cutoff (Some (aq_default_ttl st)) (fun _ => None) cx
    (select_where q (aq_requests (qs_db s))) (qs_db s) r Hok) as [H1 H2]; [apply NoDup_select_where, Hok| |done|].
  { intros x Hx. apply elem_of_select in Hx as [Hx Hq]. unfold q, sweep_selects in Hq. to_prop. done. }
  assert (q r = bool_decide (ar_status r = aq_pending) && bool_decide (ar_tenant_id r = op_tenant_id o) &&
     deadline_has_passed r cutoff (Some (aq_default_ttl st)) && negb (locked (ar_id r))) as <-.
  { unfold q, sweep_selects. rewrite Hclause. by destruct (bool_decide (ar_status r = _)), (bool_decide (ar_tenant_id r = _)),
      (deadline_has_passed _ _ _), (locked _). }
  destruct (q r) eqn:Eq.
  - assert (ar_status r = aq_pending) as Hs by (unfold q, sweep_selects in Eq; to_prop; done).
    eexists. split; [apply H1; by apply elem_of_select|].
    split; [by apply row_step_ok; [apply Hok|apply row_expired]|].
    destruct (hide_params_eq (set_expired cutoff (Some (aq_default_ttl st)) r)) as [p ->]. simpl.
    split_and!; [done..|]. destruct (ar_expires_at r); by eexists.
  - apply H2. intros Hin. apply elem_of_select in Hin as [_ Hq]. congruence.
Qed.
End Theorems.

(** * A queue at work *)

Section Scene.
Definition w_settings : ApprovalSettings := {|
  aq_sign_in := {| keycloak_cli_approve_client_id := "meho-cli-approve"; fresh_sign_in_max_age_seconds := 900;
    per_action_sign_in_max_age_seconds := 300; approval_one_time_code_acr_values := [] |};
  approval_allow_self_approval := false; approval_allow_delegated_decision := false;
  aq_default_ttl := 86400000000; params_hash_key := "k"; database_url := "db"; handoff_key_ok := true;
  running_release_id := Some "rel-1" |}.

(** Toy hashes: any functions do. *)
Definition w_canonical (p : json_dict) : string := json_repr (JDict p).
Definition w_hash (s : string) : string := s.
Definition w_hmac (key s : string) : string := key +:+ s.
Definition w_is_cred (op : string) : bool := bool_decide (op = "vault.kv.put").

Definition w_person (sub : string) : Operator := {|
  op_sub := sub; op_tenant_id := "t1"; op_tenant_role := OPERATOR; op_principal_kind := USER;
  op_client_id := None; op_platform_admin := false; op_web_session := false; op_name := Some sub;
  op_approver := false; op_self_approver := false; op_tenant_chosen := true; op_auth_time := Some 1000%Z;
  op_sid := Some "sid"; op_acr := Some "1"; op_azp := Some "meho-cli-approve" |}.

Definition w_args (op key : string) : ParkArgs := {|
  pa_operator := w_person "ann"; pa_connector_id := "vault-1.x"; pa_op_id := op; pa_target_id := None;
  pa_params := [("path", JStr "kv/app"); ("password", JStr "hunter2")];
  pa_params_hash := "k{'path': 'kv/app', 'password': 'hunter2'}"; pa_run_id := None;
  pa_proposed_effect := Some [("safety_level", JStr "caution")]; pa_expires_at := None; pa_preview_hash := None;
  pa_resume_parent := None; pa_idempotency_key := Some key; pa_requester := None; pa_reveal_secret := false;
  pa_actor_sub := None; pa_work_ref := None; pa_agent_session_id := None; pa_target_hash := None |}.

Definition w_cx (id : uuid) (now : datetime) : AuditCtx := {| ac_id := id; ac_now := now; ac_parent := None |}.
Definition w_ids (n : string) : ParkIds :=
  {| pi_request := "req-" +:+ n; pi_audit := "audit-" +:+ n; pi_handle := "handle-" +:+ n |}.
Definition w_clock (now : datetime) : ApproveClock := {| t_deadline := now; t_sign_in := now; t_decided := now |}.

Definition w_park := create_pending_request w_canonical w_hash w_hmac w_hash w_settings w_is_cred.
Definition w_approve := approve_surface w_canonical w_hash w_hmac w_hash w_settings ∅ channel_rest.
Definition w_run := aq_run w_canonical w_hash w_hmac w_hash w_settings ∅ w_is_cred.

Definition db_of {A} (x : res ApprovalError (ApprovalDb * A)) : ApprovalDb :=
  match x with Ok (db, _) => db | Raise _ => qs_db empty_queue end.
Definition is_ok {E A} (x : res E A) : bool := match x with Ok _ => true | Raise _ => false end.

Lemma db_of_Ok {A} (x : res ApprovalError (ApprovalDb * A)) : is_ok x = true -> exists r, x = Ok (db_of x, r).
Proof. destruct x as [[db r]|e]; [by exists r|done]. Qed.

(** Ann parks three calls; Bob approves the first two with one sign-in and rejects
    the third; the first one is run. *)
Definition w_t0 : datetime := 1100000000.
Definition w_db1 := db_of (w_park (w_args "vault.kv.put" "key-1") (w_ids "1") w_t0 w_t0 w_t0 (w_cx "x" w_t0) (w_cx "a1" w_t0) (qs_db empty_queue)).
Definition w_db2 := db_of (w_park (w_args "vault.kv.list" "key-2") (w_ids "2") w_t0 w_t0 w_t0 (w_cx "x" w_t0) (w_cx "a2" w_t0) w_db1).
Definition w_db3 := db_of (w_park (w_args "vault.kv.put" "key-3") (w_ids "3") w_t0 w_t0 w_t0 (w_cx "x" w_t0) (w_cx "a3" w_t0) w_db2).
Definition w_db4 := db_of (w_approve "req-1" (w_person "bob") None "" w_t0 (w_clock w_t0) (w_cx "a4" w_t0) w_db3).
Definition w_db5 := db_of (w_approve "req-2" (w_person "bob") None "" w_t0 (w_clock w_t0) (w_cx "a5" w_t0) w_db4).
Definition w_db6 := db_of (reject_request w_settings "req-3" (w_person "bob") "no" w_t0 (w_cx "a6" w_t0) w_db5).
Definition w_db7 := fst (claim_resume "req-1" w_t0 w_db6).
Definition w_state (db : ApprovalDb) : aq_state := {| qs_db := db; qs_found := [] |}.

Lemma run_quiet s0 ids s s' :
  w_run s0 ids s -> aq_step w_canonical w_hash w_hmac w_hash w_settings ∅ w_is_cred s [] s' -> w_run s0 ids s'.
Proof. intros H Hst. rewrite <- (app_nil_r ids). by eapply ar_next. Qed.

Ltac scene_step :=
  match goal with
  | |- context [db_of ?x] =>
      let r := fresh "r" in let E := fresh "E" in
      destruct (db_of_Ok x ltac:(vm_compute; reflexivity)) as [r E];
      first [eapply as_park; exact E | (eapply as_approve; [|exact E]; vm_compute; discriminate) | eapply as_reject; exact E]
  end.

Lemma w_runs3 : w_run empty_queue [] (w_state w_db3).
Proof.
  apply (run_quiet _ _ (w_state w_db2)); [apply (run_quiet _ _ (w_state w_db1)); [apply (run_quiet _ _ empty_queue); [apply ar_start|]|]|].
  - unfold w_db1. scene_step.
  - unfold w_db2. scene_step.
  - unfold w_db3. scene_step.
Qed.

Lemma w_runs6 : w_run (w_state w_db3) [] (w_state w_db6).
Proof.
  apply (run_quiet _ _ (w_state w_db5)); [apply (run_quiet _ _ (w_state w_db4)); [apply (run_quiet _ _ (w_state w_db3)); [apply ar_start|]|]|].
  - unfold w_db4. scene_step.
  - unfold w_db5. scene_step.
  - unfold w_db6. scene_step.
Qed.

Lemma w_runs7 : w_run empty_queue ["req-1"] (w_state w_db7).
Proof.
  apply (ar_next _ _ _ _ _ _ _ _ [] (w_state w_db6) ["req-1"]).
  - apply (run_quiet _ _ (w_state w_db5)); [apply (run_quiet _ _ (w_state w_db4));
      [apply (run_quiet _ _ (w_state w_db3)); [apply w_runs3|]|]|].
    + unfold w_db4. scene_step.
    + unfold w_db5. scene_step.
    + unfold w_db6. scene_step.
  - unfold w_state. apply as_claim with (now := w_t0). by vm_compute.
Qed.

Lemma approve_is_authorised_witness :
  exists r auth, r ∈ aq_requests w_db3 /\ ar_id r = "req-1" /\
    sign_in_fits w_settings r auth w_t0 /\ right_person w_settings (w_person "bob") r.
Proof.
  destruct (db_of_Ok (w_approve "req-1" (w_person "bob") None "" w_t0 (w_clock w_t0) (w_cx "a4" w_t0) w_db3)
    ltac:(vm_compute; reflexivity)) as [r' E].
  destruct (approve_is_authorised _ _ _ _ _ _ _ _ _ _ _ _ _ _ _ _ _ E) as (r & auth & Hr & Hid & Hm & _ & Hfit & _).
  exists r, auth. split; [exact Hr|]. split; [exact Hid|]. split; [exact Hfit|]. apply Hm.
Defined.

Lemma decisions_are_final_witness : exists r, get_row w_db3 "req-3" = Some r /\
  exists r', r' ∈ aq_requests w_db6 /\ row_later r r'.
Proof.
  destruct (get_row w_db3 "req-3") as [r|] eqn:E; [|by vm_compute in E]. exists r. split; [done|].
  destruct (decisions_are_final _ _ _ _ _ _ _ [] (w_state w_db3) [] (w_state w_db6) r w_runs3 w_runs6
    (proj1 (get_row_Some _ _ _ E))) as [_ (r' & Hr' & L & _)]. by exists r'.
Defined.

Lemma approved_calls_run_once_witness : NoDup ["req-1"].
Proof. apply (approved_calls_run_once _ _ _ _ _ _ _ _ _ w_runs7). Defined.

Lemma every_decision_is_audited_witness : NoDup (closing_ids (aq_audit w_db7)).
Proof. apply (every_decision_is_audited _ _ _ _ _ _ _ _ _ w_runs7). Defined.

Lemma ended_requests_keep_no_secrets_witness :
  exists r, get_row w_db7 "req-3" = Some r /\ ar_status r = aq_rejected /\ params_hidden (ar_params r).
Proof.
  destruct (get_row w_db7 "req-3") as [r|] eqn:E; [|by vm_compute in E]. exists r. split; [done|].
  assert (ar_status r = aq_rejected) as Hs by (vm_compute in E; by injection E as <-). split; [done|].
  apply (proj1 (ended_requests_keep_no_secrets _ _ _ _ _ _ _ _ _ w_runs7) r (proj1 (get_row_Some _ _ _ E))).
  left. unfold ended. by rewrite Hs.
Defined.

Lemma destructive_sign_in_is_exclusive_witness : exists a a' r r',
  aq_audit w_db7 !! 3 = Some a /\ aq_audit w_db7 !! 4 = Some a' /\
  closes a r /\ is_destructive r = false /\ closes a' r' /\ is_destructive r' = false.
Proof.
  destruct (aq_audit w_db7 !! 3) as [a|] eqn:Ea; [|by vm_compute in Ea].
  destruct (aq_audit w_db7 !! 4) as [a'|] eqn:Ea'; [|by vm_compute in Ea'].
  destruct (sign_in_block a) as [b|] eqn:Eb; [|vm_compute in Ea; injection Ea as <-; done].
  destruct (sign_in_block a') as [b'|] eqn:Eb'; [|vm_compute in Ea'; injection Ea' as <-; done].
  destruct (destructive_sign_in_is_exclusive _ _ _ _ _ _ _ _ _ 3 4 a a' b b' w_runs7) as (r & r' & _ & ? & ? & _ & ? & ?);
    try done; try lia;
    vm_compute in Ea, Ea'; injection Ea as <-; injection Ea' as <-; injection Eb as <-; injection Eb' as <-; try reflexivity.
  eexists _, _, r, r'. split_and!; done.
Defined.

Definition w_retry db := w_park (w_args "vault.kv.list" "key-9") (w_ids "9") w_t0 w_t0 w_t0 (w_cx "x" w_t0) (w_cx "a9" w_t0) db.

Lemma park_is_idempotent_witness : exists r, w_retry w_db7 = Ok (db_of (w_retry w_db7), r) /\
  w_retry (db_of (w_retry w_db7)) = Ok (db_of (w_retry w_db7), r).
Proof.
  destruct (db_of_Ok (w_retry w_db7) ltac:(vm_compute; reflexivity)) as [r E]. exists r. split; [exact E|].
  assert (pa_params_hash (w_args "vault.kv.list" "key-9") ∈ params_hash_candidates w_canonical w_hash w_hmac w_hash
            w_settings (pa_params (w_args "vault.kv.list" "key-9"))) as Hhash by (apply elem_of_cons; left; vm_compute; reflexivity).
  destruct (park_is_idempotent _ _ _ _ _ _ _ _ _ (w_args "vault.kv.list" "key-9") (w_ids "9") w_t0 w_t0 w_t0
    (w_cx "x" w_t0) (w_cx "a9" w_t0) _ r "key-9" w_runs7 eq_refl eq_refl Hhash E) as (_ & _ & Hagain). apply Hagain.
  assert (match w_retry w_db7 with Ok (_, r) => is_overdue_pending w_settings r w_t0 | _ => true end = false) as H
    by (vm_compute; reflexivity). rewrite E in H. exact H.
Defined.

Definition w_sweep := expire_stale_requests (expiry_operator "t1") (w_t0 + 86400000000)
  (Some (aq_default_ttl w_settings)) (fun _ => false) (fun _ => w_cx "e" w_t0) w_db3.

Lemma sweep_agrees_with_approve_witness : exists r', r' ∈ aq_requests (db_of w_sweep) /\ ar_status r' = aq_expired.
Proof.
  destruct (get_row w_db3 "req-2") as [r|] eqn:E; [|by vm_compute in E]. destruct (db_of_Ok w_sweep ltac:(vm_compute; reflexivity)) as [rows Es].
  pose proof (sweep_agrees_with_approve _ _ _ _ _ _ _ _ _ _ _ _ _ _ _ r w_runs3 Es (proj1 (get_row_Some _ _ _ E))) as H.
  assert (match get_row w_db3 "req-2" with
    | Some r => bool_decide (ar_status r = aq_pending) && bool_decide (ar_tenant_id r = op_tenant_id (expiry_operator "t1")) &&
       deadline_has_passed r (w_t0 + 86400000000) (Some (aq_default_ttl w_settings)) && true
    | None => false end = true) as Hb by (vm_compute; reflexivity).
  rewrite E in Hb. change (negb ((fun _ => false) (ar_id r))) with true in H. rewrite Hb in H.
  destruct H as (r' & Hr' & _ & Hs & _). by exists r'.
Defined.
End Scene.
