(* ===== verification/WireText.v ===== *)
(** Texts that are hashed and signed: JSON as [json.dumps] writes it with sorted keys
    and no spaces, [datetime.isoformat] in UTC, and base64
    ([runner/work_item_signing.py], [runner/effect_audit.py]).  The lemmas say that
    each text stands for one value. *)

From stdpp Require Import pretty.
From S2P Require Import Prelude Json.

(** * JSON text *)

(** One character of a JSON string, with [ensure_ascii]. *)
Definition json_char (c : ascii) : string :=
  let n := nat_of_ascii c in
  if Ascii.eqb c dquote || Ascii.eqb c "\" then String "\" (String c "")
  else if Ascii.eqb c "010" then "\n"
  else if Ascii.eqb c "013" then "\r"
  else if Ascii.eqb c "009" then "\t"
  else if Ascii.eqb c "012" then "\f"
  else if Ascii.eqb c "008" then "\b"
  else if (n <? 32) || (127 <=? n)
       then "\u00" +:+ String (hex_digit (n / 16)) (String (hex_digit (n mod 16)) "")
       else String c "".

Fixpoint json_chars (s : string) : string :=
  match s with
  | EmptyString => ""
  | String c s' => json_char c +:+ json_chars s'
  end.

Definition json_string (s : string) : string := String dquote (json_chars s +:+ String dquote "").

(** [sorted] on the items of a dict, whose keys are distinct. *)
Section SortItems.
Context {A : Type}.

Fixpoint insert_item (kv : string * A) (d : list (string * A)) : list (string * A) :=
  match d with
  | [] => [kv]
  | kv' :: d' => if String.leb kv.1 kv'.1 then kv :: d else kv' :: insert_item kv d'
  end.

Definition sort_items (d : list (string * A)) : list (string * A) := foldr insert_item [] d.
End SortItems.

Definition json_item (kv : string * string) : string := json_string kv.1 +:+ String ":" kv.2.

(** [json.dumps(v, sort_keys=True, separators=(",", ":"))]. *)
Fixpoint json_dumps (v : json) : string :=
  match v with
  | JNull => "null"
  | JBool b => if b then "true" else "false"
  | JInt z => pretty z
  | JFloat _ _ text => text
  | JStr s => json_string s
  | JList l => String "[" (join "," ((fix go l := match l with [] => [] | x :: l' => json_dumps x :: go l' end) l)
                           +:+ "]")
  | JDict d =>
      let items := (fix go d := match d with [] => [] | (k, x) :: d' => (k, json_dumps x) :: go d' end) d in
      String "{" (join "," (json_item <$> sort_items items) +:+ "}")
  end.

(** What the text keeps of a value: not the order of the keys, and of a float its
    decimal text. *)
Fixpoint json_sorted (v : json) : json :=
  match v with
  | JFloat _ _ text => JFloat 0 0 text
  | JList l => JList ((fix go l := match l with [] => [] | x :: l' => json_sorted x :: go l' end) l)
  | JDict d => JDict (sort_items
      ((fix go d := match d with [] => [] | (k, x) :: d' => (k, json_sorted x) :: go d' end) d))
  | _ => v
  end.

(** The characters of a number, and the float texts [repr] writes for finite
    values. *)
Definition num_char (c : ascii) : bool :=
  let n := nat_of_ascii c in
  ((48 <=? n) && (n <=? 57)) || Ascii.eqb c "-" || Ascii.eqb c "+" || Ascii.eqb c "." || Ascii.eqb c "e".

Definition float_text (t : string) : bool :=
  negb (bool_decide (t = "")) && all_chars num_char t && (has_char "." t || has_char "e" t).

Fixpoint floats_finite (v : json) : bool :=
  match v with
  | JFloat _ _ t => float_text t
  | JList l => (fix go l := match l with [] => true | x :: l' => floats_finite x && go l' end) l
  | JDict d => (fix go d := match d with [] => true | (_, x) :: d' => floats_finite x && go d' end) d
  | _ => true
  end.

(** * ISO dates

    The calendar as [datetime] computes it: days since 0001-01-01, counted in cycles
    of 400, 100, 4 and 1 years.  A [datetime] counts microseconds from 1970. *)

Definition is_leap (y : Z) : bool :=
  (y mod 4 =? 0)%Z && (negb (y mod 100 =? 0)%Z || (y mod 400 =? 0)%Z).

Definition DAYS_BEFORE_MONTH : list Z := [0; 31; 59; 90; 120; 151; 181; 212; 243; 273; 304; 334]%Z.

(** Days of the year before month [m] of 1 to 12. *)
Definition days_before_month (leap : bool) (m : nat) : Z :=
  (nth (m - 1) DAYS_BEFORE_MONTH 0 + (if leap && (2 <? m)%nat then 1 else 0))%Z.

(** The month is guessed from the day of the year and corrected by one. *)
Definition month_of (leap : bool) (n : Z) : nat * Z :=
  let m := Z.to_nat (Z.shiftr (n + 50) 5) in
  let m := if (n <? days_before_month leap m)%Z then (m - 1)%nat else m in
  (m, n - days_before_month leap m)%Z.

(** [_ord2ymd], from the day number counted from 0. *)
Definition ord2ymd (n : Z) : Z * nat * Z :=
  let n400 := (n / 146097)%Z in let n := (n mod 146097)%Z in
  let n100 := (n / 36524)%Z in let n := (n mod 36524)%Z in
  let n4 := (n / 1461)%Z in let n := (n mod 1461)%Z in
  let n1 := (n / 365)%Z in let n := (n mod 365)%Z in
  let year := (n400 * 400 + 1 + n100 * 100 + n4 * 4 + n1)%Z in
  if ((n1 =? 4) || (n100 =? 4))%Z then ((year - 1)%Z, 12%nat, 31%Z)
  else
    let leap := ((n1 =? 3) && (negb (n4 =? 24) || (n100 =? 3)))%Z in
    let '(m, d) := month_of leap n in (year, m, (d + 1)%Z).

Definition digit_char (z : Z) : ascii := ascii_of_nat (48 + Z.to_nat z).

(** [z] in [w] decimal digits. *)
Fixpoint digits (w : nat) (z : Z) : string :=
  match w with
  | 0%nat => ""
  | S w' => digits w' (z / 10) +:+ String (digit_char (z mod 10)) ""
  end.

Definition UNIX_EPOCH_DAY : Z := 719162.
Definition MICROS_PER_DAY : Z := 86400000000.

(** [t.astimezone(UTC).isoformat()]. *)
Definition isoformat (t : datetime) : string :=
  let day := (t / MICROS_PER_DAY)%Z in
  let us := (t mod MICROS_PER_DAY)%Z in
  let '(y, m, d) := ord2ymd (day + UNIX_EPOCH_DAY) in
  let s := (us / 1000000)%Z in
  let frac := (us mod 1000000)%Z in
  digits 4 y +:+ "-" +:+ digits 2 (Z.of_nat m) +:+ "-" +:+ digits 2 d +:+ "T" +:+
  digits 2 (s / 3600) +:+ ":" +:+ digits 2 ((s mod 3600) / 60) +:+ ":" +:+ digits 2 (s mod 60) +:+
  (if (frac =? 0)%Z then "" else "." +:+ digits 6 frac) +:+ "+00:00".

(** From year 1 to year 9999. *)
Definition datetime_ok (t : datetime) : Prop :=
  (-62135596800000000 <= t < 253402300800000000)%Z.

Example isoformat_1 : isoformat 0 = "1970-01-01T00:00:00+00:00". Proof. reflexivity. Qed.
Example isoformat_2 : isoformat 1709208000000001 = "2024-02-29T12:00:00.000001+00:00". Proof. reflexivity. Qed.
Example isoformat_3 : isoformat 253402300799999999 = "9999-12-31T23:59:59.999999+00:00". Proof. reflexivity. Qed.
Example isoformat_4 : isoformat (-62135596800000000) = "0001-01-01T00:00:00+00:00". Proof. reflexivity. Qed.
Example isoformat_5 : isoformat 951782400000000 = "2000-02-29T00:00:00+00:00". Proof. reflexivity. Qed.
Example isoformat_6 : isoformat 978220800000000 = "2000-12-31T00:00:00+00:00". Proof. reflexivity. Qed.

Example dumps_1 : json_dumps (JDict [("b", JList [JInt (-5); JNull; JBool true]); ("a", JStr "x\")]) =
  String "{" (json_string "a" +:+ String ":" (String dquote "x\\") +:+ String dquote "," +:+ json_string "b" +:+
              ":[-5,null,true]}").
Proof. reflexivity. Qed.

(** * Base64 *)

Definition B64_ALPHABET : string :=
  "ABCDEFGHIJKLMNOPQRSTUVWXYZabcdefghijklmnopqrstuvwxyz0123456789+/".

Definition b64_char (n : N) : ascii := default "A"%char (String.get (N.to_nat n) B64_ALPHABET).

Fixpoint index_of (c : ascii) (s : string) : option N :=
  match s with
  | EmptyString => None
  | String d s' => if Ascii.eqb c d then Some 0%N else N.succ <$> index_of c s'
  end.

(** A group of 24 bits, as four characters. *)
Definition b64_group (n : N) : string :=
  String (b64_char (n / 262144)) (String (b64_char (n / 4096 mod 64))
    (String (b64_char (n / 64 mod 64)) (String (b64_char (n mod 64)) ""))).

Fixpoint b64encode (s : string) : string :=
  match s with
  | EmptyString => ""
  | String a EmptyString =>
      let n := (N_of_ascii a * 65536)%N in
      String (b64_char (n / 262144)) (String (b64_char (n / 4096 mod 64)) "==")
  | String a (String b EmptyString) =>
      let n := (N_of_ascii a * 65536 + N_of_ascii b * 256)%N in
      String (b64_char (n / 262144)) (String (b64_char (n / 4096 mod 64))
        (String (b64_char (n / 64 mod 64)) "="))
  | String a (String b (String c s')) =>
      b64_group (N_of_ascii a * 65536 + N_of_ascii b * 256 + N_of_ascii c)%N +:+ b64encode s'
  end.

(** [b64decode(s, validate=True)]; [None] when it raises. *)
Fixpoint b64decode (s : string) : option string :=
  match s with
  | EmptyString => Some ""
  | String a (String b (String c (String d s'))) =>
      x ← index_of a B64_ALPHABET;
      y ← index_of b B64_ALPHABET;
      let byte1 := ascii_of_N (x * 4 + y / 16) in
      if Ascii.eqb d "=" then
        if bool_decide (s' = "") then
          if Ascii.eqb c "=" then Some (String byte1 "")
          else z ← index_of c B64_ALPHABET;
               Some (String byte1 (String (ascii_of_N (y mod 16 * 16 + z / 4)) ""))
        else None
      else
        z ← index_of c B64_ALPHABET;
        w ← index_of d B64_ALPHABET;
        rest ← b64decode s';
        Some (String byte1 (String (ascii_of_N (y mod 16 * 16 + z / 4)) (String (ascii_of_N (z mod 4 * 64 + w)) rest)))
  | _ => None
  end.

Example b64_1 : b64encode "light work." = "bGlnaHQgd29yay4=". Proof. reflexivity. Qed.
Example b64_2 : b64decode "bGlnaHQgd28=" = Some "light wo". Proof. reflexivity. Qed.

(** * Base64 round trip *)

(** [lia] with the equations of quotients and remainders. *)
Ltac div_lia := zify; Z.to_euclidean_division_equations; lia.

Lemma b64_index_ind (P : N -> Prop) : Forall P (N.of_nat <$> seq 0 64) -> forall n, (n < 64)%N -> P n.
Proof.
  rewrite Forall_forall. intros Hall n Hn. apply Hall. apply list_elem_of_fmap.
  exists (N.to_nat n). split; [lia|]. apply elem_of_seq. lia.
Qed.

Lemma b64_index_char n : (n < 64)%N -> index_of (b64_char n) B64_ALPHABET = Some n.
Proof.
  revert n. apply b64_index_ind. vm_compute. repeat constructor.
Qed.

Lemma b64_char_no_pad n : (n < 64)%N -> Ascii.eqb (b64_char n) "=" = false.
Proof.
  revert n. apply b64_index_ind. vm_compute. repeat constructor.
Qed.

Lemma byte_bound c : (N_of_ascii c < 256)%N.
Proof. destruct c as [[] [] [] [] [] [] [] []]; vm_compute; done. Qed.

Lemma byte_eq n c : n = N_of_ascii c -> ascii_of_N n = c.
Proof. intros ->. apply ascii_N_embedding. Qed.

Lemma b64_roundtrip s : b64decode (b64encode s) = Some s.
Proof.
  revert s. fix IH 1. intros [|a [|b [|c s]]]; [done|..].
  - pose proof (byte_bound a). simpl b64encode. unfold b64decode.
    rewrite !b64_index_char by div_lia. simpl. f_equal. f_equal. apply byte_eq. div_lia.
  - pose proof (byte_bound a). pose proof (byte_bound b). simpl b64encode. unfold b64decode.
    rewrite !b64_index_char by div_lia. cbn [mbind option_bind].
    rewrite b64_char_no_pad by div_lia. simpl.
    f_equal. f_equal; [apply byte_eq; div_lia|]. f_equal. apply byte_eq. div_lia.
  - pose proof (byte_bound a). pose proof (byte_bound b). pose proof (byte_bound c).
    change (b64encode (String a (String b (String c s)))) with
      (b64_group (N_of_ascii a * 65536 + N_of_ascii b * 256 + N_of_ascii c)%N +:+ b64encode s).
    unfold b64_group. rewrite !string_app_cons. cbn [b64decode].
    rewrite !b64_index_char by div_lia. cbn [mbind option_bind].
    rewrite b64_char_no_pad by div_lia. change ("" +:+ b64encode s) with (b64encode s). rewrite IH. simpl.
    repeat (f_equal; try (apply byte_eq; div_lia)).
Qed.

(** * ISO dates are unambiguous *)

Lemma string_app_inj a b c d :
  String.length a = String.length c -> a +:+ b = c +:+ d -> a = c /\ b = d.
Proof.
  revert c. induction a as [|x a IH]; intros [|y c] Hl; try done.
  rewrite !string_app_cons. intros [= -> H]. simpl in Hl. apply IH in H as [-> ->]; [done|lia].
Qed.

Lemma digits_length w z : String.length (digits w z) = w.
Proof. revert z. induction w as [|w IH]; intros z; [done|]. simpl. rewrite string_app_length, IH. simpl. lia. Qed.

Lemma digit_char_inj a b : (0 <= a < 10)%Z -> (0 <= b < 10)%Z -> digit_char a = digit_char b -> a = b.
Proof.
  intros Ha Hb H. unfold digit_char in H. apply (f_equal nat_of_ascii) in H.
  rewrite !nat_ascii_embedding in H by lia. lia.
Qed.

Lemma digits_inj w z z' :
  (0 <= z < 10 ^ Z.of_nat w)%Z -> (0 <= z' < 10 ^ Z.of_nat w)%Z -> digits w z = digits w z' -> z = z'.
Proof.
  revert z z'. induction w as [|w IH]; intros z z' Hz Hz'; [simpl in *; lia|].
  rewrite Nat2Z.inj_succ, Z.pow_succ_r in Hz, Hz' by lia. simpl. intros H.
  apply string_app_inj in H as [H1 H2]; [|by rewrite !digits_length]. injection H2 as H2.
  apply IH in H1; [|div_lia..]. apply digit_char_inj in H2; div_lia.
Qed.

Definition days_before_year (y : Z) : Z :=
  let k := (y - 1)%Z in (k * 365 + k / 4 - k / 100 + k / 400)%Z.

Definition ymd2ord (y : Z) (m : nat) (d : Z) : Z :=
  (days_before_year y + days_before_month (is_leap y) m + d - 1)%Z.

Definition month_ok (leap : bool) (n : Z) : bool :=
  let '(m, d) := month_of leap n in
  (1 <=? m) && (m <=? 12) && (0 <=? d)%Z && (d <? 31)%Z.

Lemma month_of_ok (leap : bool) n : (0 <= n < 365 + (if leap then 1 else 0))%Z -> month_ok leap n = true.
Proof.
  intros Hn.
  assert (forallb (fun i => month_ok leap (Z.of_nat i)) (seq 0 (365 + (if leap then 1 else 0))) = true) as H
    by (destruct leap; vm_compute; done).
  rewrite forallb_forall in H. specialize (H (Z.to_nat n)). rewrite Z2Nat.id in H by lia. apply H.
  apply in_seq. destruct leap; lia.
Qed.

Lemma leap_of_cycle a b c e : (0 <= b <= 3)%Z -> (0 <= c <= 24)%Z -> (0 <= e <= 3)%Z ->
  is_leap (a * 400 + 1 + b * 100 + c * 4 + e) =
  ((e =? 3)%Z && (negb (c =? 24)%Z || (b =? 3)%Z)).
Proof.
  intros Hb Hc He. unfold is_leap. remember (a * 400 + 1 + b * 100 + c * 4 + e)%Z as y eqn:Hy.
  assert ((y mod 4 =? 0) = (e =? 3))%Z as -> by (apply eq_true_iff_eq; rewrite !Z.eqb_eq; split; intros; div_lia).
  destruct (e =? 3)%Z eqn:E3; [|done]. apply Z.eqb_eq in E3. simpl.
  assert ((y mod 100 =? 0) = (c =? 24))%Z as -> by (apply eq_true_iff_eq; rewrite !Z.eqb_eq; split; intros; div_lia).
  destruct (c =? 24)%Z eqn:E24; [|done]. apply Z.eqb_eq in E24. simpl.
  apply eq_true_iff_eq; rewrite !Z.eqb_eq; split; intros; div_lia.
Qed.

Lemma ord2ymd_spec n : (0 <= n < 3652059)%Z ->
  match ord2ymd n with
  | (y, m, d) => ymd2ord y m d = n /\ (1 <= y <= 9999)%Z /\ 1 <= m <= 12 /\ (1 <= d <= 31)%Z
  end.
Proof.
  intros Hn. unfold ord2ymd.
  assert (0 <= n mod 146097 < 146097)%Z as Ha by (apply Z.mod_pos_bound; lia).
  assert (n = 146097 * (n / 146097) + n mod 146097)%Z as Ea by (apply Z.div_mod; lia).
  generalize dependent (n mod 146097)%Z. generalize (n / 146097)%Z. intros a r1 Ha Ea.
  assert (0 <= r1 mod 36524 < 36524)%Z as Hb by (apply Z.mod_pos_bound; lia).
  assert (r1 = 36524 * (r1 / 36524) + r1 mod 36524)%Z as Eb by (apply Z.div_mod; lia).
  generalize dependent (r1 mod 36524)%Z. generalize (r1 / 36524)%Z. intros b r2 Hb Eb.
  assert (0 <= r2 mod 1461 < 1461)%Z as Hc by (apply Z.mod_pos_bound; lia).
  assert (r2 = 1461 * (r2 / 1461) + r2 mod 1461)%Z as Ec by (apply Z.div_mod; lia).
  generalize dependent (r2 mod 1461)%Z. generalize (r2 / 1461)%Z. intros c r3 Hc Ec.
  assert (0 <= r3 mod 365 < 365)%Z as He by (apply Z.mod_pos_bound; lia).
  assert (r3 = 365 * (r3 / 365) + r3 mod 365)%Z as Ee by (apply Z.div_mod; lia).
  generalize dependent (r3 mod 365)%Z. generalize (r3 / 365)%Z. intros e r4 He Ee.
  assert (0 <= b <= 4 /\ 0 <= c <= 24 /\ 0 <= e <= 4)%Z as (Hb4 & Hc24 & He4) by lia.
  destruct ((e =? 4) || (b =? 4))%Z eqn:Hlast.
  - assert ((a * 400 + 1 + b * 100 + c * 4 + e - 1)%Z = 400 * a + 100 * b + 4 * c + e)%Z as Ey by lia.
    rewrite Ey.
    assert ((e = 4 /\ r4 = 0 /\ 0 <= b <= 3 /\ c <= 23) \/ (b = 4 /\ c = 0 /\ e = 0 /\ r4 = 0))%Z as Hcase
      by (apply orb_true_iff in Hlast as [H|H]; apply Z.eqb_eq in H; lia).
    assert (is_leap (400 * a + 100 * b + 4 * c + e) = true) as Hleap.
    { unfold is_leap. apply andb_true_iff. split; [apply Z.eqb_eq; div_lia|]. apply orb_true_iff.
      destruct Hcase as [Hcase|Hcase]; [left; apply negb_true_iff, Z.eqb_neq; div_lia|right; apply Z.eqb_eq; div_lia]. }
    split_and!; try lia. unfold ymd2ord. rewrite Hleap. unfold days_before_year, days_before_month. simpl. div_lia.
  - apply orb_false_iff in Hlast as [He' Hb']. apply Z.eqb_neq in He', Hb'.
    rewrite <- leap_of_cycle with (a := a) by lia.
    remember (a * 400 + 1 + b * 100 + c * 4 + e)%Z as y eqn:Hy.
    assert (is_leap y = ((e =? 3) && (negb (c =? 24) || (b =? 3)))%Z) as Hleap
      by (subst y; apply leap_of_cycle; lia).
    assert (0 <= r4 < 365 + (if is_leap y then 1 else 0))%Z as Hr by (destruct (is_leap y); lia).
    apply month_of_ok in Hr. unfold month_ok in Hr.
    destruct (month_of (is_leap y) r4) as [m d] eqn:Hm.
    assert (days_before_month (is_leap y) m + d = r4)%Z as Hd
      by (unfold month_of in Hm; injection Hm as Hm1 Hm2; rewrite Hm1 in Hm2; lia).
    repeat rewrite andb_true_iff in Hr. destruct Hr as [[[Hm1 Hm2] Hd1] Hd2].
    apply Nat.leb_le in Hm1, Hm2. apply Z.leb_le in Hd1. apply Z.ltb_lt in Hd2.
    split_and!; try lia. unfold ymd2ord, days_before_year. div_lia.
Qed.

(** Peel one field of fixed width off both sides. *)
Ltac peel H := apply string_app_inj in H as [? H]; [|by rewrite ?digits_length].

Lemma micros_split t :
  let us := (t mod MICROS_PER_DAY)%Z in let s := (us / 1000000)%Z in
  t = (t / MICROS_PER_DAY * MICROS_PER_DAY +
       ((s / 3600 * 3600 + s mod 3600 / 60 * 60 + s mod 60) * 1000000 + us mod 1000000))%Z /\
  (0 <= s / 3600 < 24)%Z /\ (0 <= s mod 3600 / 60 < 60)%Z /\ (0 <= s mod 60 < 60)%Z /\
  (0 <= us mod 1000000 < 1000000)%Z.
Proof.
  intros us s. assert (0 <= us < MICROS_PER_DAY)%Z as Hus by (apply Z.mod_pos_bound; done).
  assert (t = MICROS_PER_DAY * (t / MICROS_PER_DAY) + us)%Z as Ht by (apply Z.div_mod; done).
  assert (us = 1000000 * s + us mod 1000000)%Z as Hs by (apply Z.div_mod; done).
  assert (0 <= us mod 1000000 < 1000000)%Z as Hf by (apply Z.mod_pos_bound; lia).
  unfold MICROS_PER_DAY in *. clearbody us. assert (0 <= s < 86400)%Z by lia. clearbody s.
  split_and!; div_lia.
Qed.

Lemma isoformat_inj t t' : datetime_ok t -> datetime_ok t' -> isoformat t = isoformat t' -> t = t'.
Proof.
  unfold datetime_ok, isoformat. intros Ht Ht' H.
  assert (0 <= t / MICROS_PER_DAY + UNIX_EPOCH_DAY < 3652059)%Z as Hd
    by (unfold MICROS_PER_DAY, UNIX_EPOCH_DAY; div_lia).
  assert (0 <= t' / MICROS_PER_DAY + UNIX_EPOCH_DAY < 3652059)%Z as Hd'
    by (unfold MICROS_PER_DAY, UNIX_EPOCH_DAY; div_lia).
  apply ord2ymd_spec in Hd, Hd'.
  destruct (ord2ymd _) as [[y m] d], (ord2ymd _) as [[y' m'] d'].
  destruct Hd as (Hn & Hy & Hm & Hdd), Hd' as (Hn' & Hy' & Hm' & Hdd').
  destruct (micros_split t) as (Es & Hh & Hmi & Hse & Hf).
  destruct (micros_split t') as (Es' & Hh' & Hmi' & Hse' & Hf').
  set (s := (t mod MICROS_PER_DAY / 1000000)%Z) in *. set (f := (t mod MICROS_PER_DAY mod 1000000)%Z) in *.
  set (s' := (t' mod MICROS_PER_DAY / 1000000)%Z) in *. set (f' := (t' mod MICROS_PER_DAY mod 1000000)%Z) in *.
  clearbody s f s' f'.
  do 11 peel H.
  repeat match goal with E : digits _ _ = digits _ _ |- _ => apply digits_inj in E; [|simpl; lia..] end.
  subst y' d'. assert (m' = m) as -> by lia.
  assert (f = f') as ->.
  { destruct (f =? 0)%Z eqn:E0, (f' =? 0)%Z eqn:E0'; try done; [lia|].
    rewrite !string_app_assoc in H. do 2 peel H. apply (digits_inj 6); [simpl; lia..|done]. }
  lia.
Qed.

(** * JSON text is unambiguous *)

(** Reading back one character. *)
Definition unhex (c : ascii) : nat :=
  let n := nat_of_ascii c in if n <? 58 then n - 48 else n - 87.

Definition read_json_char (s : string) : option (ascii * string) :=
  match s with
  | EmptyString => None
  | String c r =>
      if Ascii.eqb c dquote then None
      else if Ascii.eqb c "\" then
        match r with
        | String e r' =>
            if Ascii.eqb e "n" then Some ("010"%char, r')
            else if Ascii.eqb e "r" then Some ("013"%char, r')
            else if Ascii.eqb e "t" then Some ("009"%char, r')
            else if Ascii.eqb e "f" then Some ("012"%char, r')
            else if Ascii.eqb e "b" then Some ("008"%char, r')
            else if Ascii.eqb e "u" then
              match r' with
              | String _ (String _ (String h (String l r''))) => Some (ascii_of_nat (unhex h * 16 + unhex l), r'')
              | _ => None
              end
            else Some (e, r')
        | EmptyString => None
        end
      else Some (c, r)
  end.

Lemma read_json_char_app c r : read_json_char (json_char c +:+ r) = Some (c, r).
Proof. destruct c as [[] [] [] [] [] [] [] []]; reflexivity. Qed.

Lemma json_chars_inj s s' r r' :
  json_chars s +:+ String dquote r = json_chars s' +:+ String dquote r' -> s = s' /\ r = r'.
Proof.
  revert s'. induction s as [|c s IH]; intros [|c' s'] H; simpl in H.
  - by injection H.
  - apply (f_equal read_json_char) in H. by rewrite string_app_assoc, read_json_char_app in H.
  - apply (f_equal read_json_char) in H. by rewrite string_app_assoc, read_json_char_app in H.
  - apply (f_equal read_json_char) in H. rewrite !string_app_assoc, !read_json_char_app in H.
    injection H as -> H. by apply IH in H as [-> ->].
Qed.

Lemma json_string_inj s s' r r' :
  json_string s +:+ r = json_string s' +:+ r' -> s = s' /\ r = r'.
Proof.
  unfold json_string. rewrite !string_app_cons, !string_app_assoc. intros [= H].
  by apply json_chars_inj in H.
Qed.

(** A number ends where the text of the next token begins. *)
Definition delimited (r : string) : bool :=
  match r with
  | EmptyString => true
  | String c _ => Ascii.eqb c "," || Ascii.eqb c "]" || Ascii.eqb c "}"
  end.

Lemma token_inj p a b r r' :
  (forall c, p c = true -> delimited (String c "") = false) ->
  all_chars p a = true -> all_chars p b = true -> delimited r = true -> delimited r' = true ->
  a +:+ r = b +:+ r' -> a = b /\ r = r'.
Proof.
  intros Hp. revert b. induction a as [|x a IH]; intros [|y b] Ha Hb Hr Hr' H; [done|..]; cbn [all_chars] in Ha, Hb.
  - apply andb_true_iff in Hb as [Hy _]. apply Hp in Hy. rewrite string_app_cons in H.
    change ("" +:+ r) with r in H. subst r. simpl in Hr, Hy. congruence.
  - apply andb_true_iff in Ha as [Hx _]. apply Hp in Hx. rewrite string_app_cons in H.
    change ("" +:+ r') with r' in H. subst r'. simpl in Hr', Hx. congruence.
  - apply andb_true_iff in Ha as [_ Ha], Hb as [_ Hb]. rewrite !string_app_cons in H. injection H as -> H.
    by apply IH in H as [-> ->].
Qed.

Definition int_char (c : ascii) : bool :=
  let n := nat_of_ascii c in ((48 <=? n) && (n <=? 57)) || Ascii.eqb c "-".

Lemma num_char_delimited c : num_char c = true -> delimited (String c "") = false.
Proof. destruct c as [[] [] [] [] [] [] [] []]; by intros. Qed.
Lemma int_char_num c : int_char c = true -> num_char c = true.
Proof. destruct c as [[] [] [] [] [] [] [] []]; by intros. Qed.
Lemma int_char_point c : int_char c = true -> Ascii.eqb "." c = false /\ Ascii.eqb "e" c = false.
Proof. destruct c as [[] [] [] [] [] [] [] []]; by intros. Qed.

Lemma pretty_N_go_int n s : all_chars int_char s = true -> all_chars int_char (pretty_N_go n s) = true.
Proof.
  revert s. induction (N.lt_wf_0 n) as [n _ IH]; intros s Hs.
  assert (n = 0 \/ 0 < n)%N as [->|Hn] by lia; [by rewrite pretty_N_go_0|].
  rewrite pretty_N_go_step by done. apply IH; [by apply N.div_lt|]. simpl. rewrite Hs.
  unfold pretty_N_char. by repeat case_match.
Qed.

Lemma pretty_N_go_nonempty n s : s <> "" -> pretty_N_go n s <> "".
Proof.
  revert s. induction (N.lt_wf_0 n) as [n _ IH]; intros s Hs.
  assert (n = 0 \/ 0 < n)%N as [->|Hn] by lia; [by rewrite pretty_N_go_0|].
  rewrite pretty_N_go_step by done. apply IH; [by apply N.div_lt|done].
Qed.

Lemma pretty_N_int (n : N) : all_chars int_char (pretty n) = true /\ pretty n <> "".
Proof.
  unfold pretty, pretty_N. case_decide; [done|]. split; [by apply pretty_N_go_int|].
  rewrite pretty_N_go_step by lia. by apply pretty_N_go_nonempty.
Qed.

Lemma pretty_Z_int (z : Z) : all_chars int_char (pretty z) = true /\ pretty z <> "".
Proof.
  destruct z as [|p|p]; [done| |].
  - apply (pretty_N_int (N.pos p)).
  - change (pretty (Z.neg p)) with ("-" +:+ pretty (N.pos p)). split; [|done].
    change (true && all_chars int_char (pretty (N.pos p)) = true). simpl. apply (pretty_N_int (N.pos p)).
Qed.

Lemma all_chars_impl (p q : ascii -> bool) s :
  (forall c, p c = true -> q c = true) -> all_chars p s = true -> all_chars q s = true.
Proof. intros Hpq. induction s as [|c s IH]; [done|]. simpl. intros [Hc Hs]%andb_true_iff. rewrite Hpq, IH; done. Qed.

Lemma int_no_point s : all_chars int_char s = true -> has_char "." s = false /\ has_char "e" s = false.
Proof.
  induction s as [|c s IH]; [done|]. simpl. intros [Hc Hs]%andb_true_iff.
  apply int_char_point in Hc as [-> ->]. by apply IH.
Qed.

Section ItemLemmas.
Context {A B : Type} (f : A -> B).

Lemma insert_item_fmap kv d :
  insert_item (prod_map id f kv) (prod_map id f <$> d) = prod_map id f <$> insert_item kv d.
Proof.
  induction d as [|kv' d IH]; [done|]. simpl. destruct (String.leb _ _); [done|]. simpl. f_equal. exact IH.
Qed.

Lemma sort_items_fmap d : sort_items (prod_map id f <$> d) = prod_map id f <$> sort_items d.
Proof. induction d as [|kv d IH]; [done|]. simpl. rewrite <- insert_item_fmap. f_equal. exact IH. Qed.

Lemma insert_item_perm (kv : string * A) d : insert_item kv d ≡ₚ kv :: d.
Proof.
  induction d as [|kv' d IH]; [done|]. simpl. destruct (String.leb _ _); [done|].
  rewrite IH. apply Permutation_swap.
Qed.

Lemma sort_items_perm (d : list (string * A)) : sort_items d ≡ₚ d.
Proof. induction d as [|kv d IH]; [done|]. simpl. by rewrite insert_item_perm, IH. Qed.
End ItemLemmas.

(** The two recursions on sorted items. *)
Lemma json_dumps_dict d :
  json_dumps (JDict d) =
  String "{" (join "," ((fun kv => json_string kv.1 +:+ String ":" (json_dumps kv.2)) <$> sort_items d) +:+ "}").
Proof.
  simpl. do 3 f_equal.
  assert ((fix go (d : list (string * json)) : list (string * string) :=
    match d with [] => [] | (k, x) :: d' => (k, json_dumps x) :: go d' end) d = prod_map id json_dumps <$> d) as ->.
  { induction d as [|[k v] d IH]; [done|]. simpl. by rewrite IH. }
  rewrite sort_items_fmap. by rewrite <- list_fmap_compose.
Qed.

Lemma json_dumps_list l : json_dumps (JList l) = String "[" (join "," (json_dumps <$> l) +:+ "]").
Proof. done. Qed.

Lemma json_sorted_dict d : json_sorted (JDict d) = JDict (prod_map id json_sorted <$> sort_items d).
Proof.
  simpl. f_equal. rewrite <- sort_items_fmap. f_equal. induction d as [|[k v] d IH]; [done|]. simpl. by rewrite IH.
Qed.

Lemma json_sorted_list l : json_sorted (JList l) = JList (json_sorted <$> l).
Proof. done. Qed.

Lemma floats_finite_list l : floats_finite (JList l) = true <-> Forall (fun v => floats_finite v = true) l.
Proof.
  simpl. induction l as [|v l IH]; [by split|]. rewrite andb_true_iff, Forall_cons. by rewrite <- IH.
Qed.

Lemma floats_finite_dict d :
  floats_finite (JDict d) = true <-> Forall (fun kv => floats_finite kv.2 = true) (sort_items d).
Proof.
  rewrite sort_items_perm. simpl. induction d as [|[k v] d IH]; [by split|].
  rewrite andb_true_iff, Forall_cons. by rewrite <- IH.
Qed.

(** ** Lists of texts *)

Definition head_char (s : string) : ascii := match s with String c _ => c | EmptyString => "000" end.

Section SeqInj.
Context {A B : Type} (pr : A -> string) (nf : A -> B) (ok : A -> Prop) (close : ascii).
Hypothesis Hclose : delimited (String close "") = true /\ Ascii.eqb "," close = false.
Hypothesis Hhead : forall x, ok x -> pr x <> "" /\ delimited (pr x) = false.

Definition printed_once (x : A) : Prop := forall x' r r', ok x' -> delimited r = true -> delimited r' = true ->
  pr x +:+ r = pr x' +:+ r' -> nf x = nf x' /\ r = r'.

Fixpoint join_tail (l : list A) : string := match l with [] => "" | x :: l' => "," +:+ pr x +:+ join_tail l' end.

Lemma join_head x l : join "," (pr <$> x :: l) = pr x +:+ join_tail l.
Proof.
  revert x. induction l as [|y l IH]; intros x; [by rewrite string_app_nil|].
  change (pr x +:+ "," +:+ join "," (pr <$> y :: l) = pr x +:+ join_tail (y :: l)). by rewrite IH.
Qed.

Lemma join_tail_delimited l r : delimited (join_tail l +:+ String close r) = true.
Proof. destruct l; [|done]. destruct Hclose as [H _]. exact H. Qed.

Lemma join_tail_inj l l' r r' : Forall printed_once l -> Forall ok l' ->
  join_tail l +:+ String close r = join_tail l' +:+ String close r' -> nf <$> l = nf <$> l' /\ r = r'.
Proof.
  destruct Hclose as [_ Hcomma]. apply Ascii.eqb_neq in Hcomma. intros Hl. revert l'.
  induction Hl as [|x l Hx _ IH]; intros [|x' l'] Hl' H; simpl in H.
  - by injection H as ->.
  - injection H as Heq _. congruence.
  - injection H as Heq _. congruence.
  - apply Forall_cons in Hl' as [Hx' Hl']. injection H as H. rewrite !string_app_assoc in H.
    apply Hx in H as [Hn H]; [|done|apply join_tail_delimited..]. apply IH in H as [Hm ->]; [|done].
    by rewrite !fmap_cons, Hn, Hm.
Qed.

Lemma join_inj l l' r r' : Forall printed_once l -> Forall ok l -> Forall ok l' ->
  join "," (pr <$> l) +:+ String close r = join "," (pr <$> l') +:+ String close r' ->
  nf <$> l = nf <$> l' /\ r = r'.
Proof.
  destruct Hclose as [Hdel _].
  assert (forall x t r, ok x -> String close t <> pr x +:+ r) as Hne.
  { intros x t r0 Hx Ht. destruct (Hhead x Hx) as [Hnil Hd]. destruct (pr x) as [|c s]; [done|].
    rewrite string_app_cons in Ht. injection Ht as -> _. simpl in Hd, Hdel. congruence. }
  intros Hl Hok Hok'. destruct l as [|x l], l' as [|x' l'].
  - by intros [= ->].
  - rewrite join_head, string_app_assoc. intros H. apply Forall_cons in Hok' as [Hx' _]. by apply Hne in H.
  - rewrite join_head, string_app_assoc. intros H. apply Forall_cons in Hok as [Hx _]. symmetry in H. by apply Hne in H.
  - rewrite !join_head, !string_app_assoc. apply Forall_cons in Hl as [Hx Hl], Hok' as [Hx' Hok'].
    intros H. apply Hx in H as [Hn H]; [|done|apply join_tail_delimited..].
    apply join_tail_inj in H as [Hm ->]; [|done..]. by rewrite !fmap_cons, Hn, Hm.
Qed.
End SeqInj.

(** ** Values *)

Lemma number_text_head t : all_chars num_char t = true -> t <> "" ->
  num_char (head_char t) = true /\ delimited t = false.
Proof.
  destruct t as [|c t]; [done|]. simpl. intros [Hc _]%andb_true_iff _. split; [done|].
  by apply num_char_delimited in Hc.
Qed.

(** The first character tells the kind of a value. *)
Definition kind_char (v : json) (c : ascii) : Prop :=
  match v with
  | JNull => c = "n"%char
  | JBool b => c = (if b then "t" else "f")%char
  | JInt _ | JFloat _ _ _ => num_char c = true
  | JStr _ => c = dquote
  | JList _ => c = "["%char
  | JDict _ => c = "{"%char
  end.

Lemma json_dumps_head v : floats_finite v = true ->
  json_dumps v <> "" /\ kind_char v (head_char (json_dumps v)) /\ delimited (json_dumps v) = false.
Proof.
  destruct v as [|[]|z|m e t|s|l|d]; intros Hf; try done.
  - destruct (pretty_Z_int z) as [H1 H2]. split_and!; [done|..];
      apply number_text_head; try done; by apply (all_chars_impl int_char), H1; apply int_char_num.
  - simpl in *. unfold float_text in Hf. to_prop. split_and!; [done|..]; by apply number_text_head.
Qed.

Definition json_unique (v : json) : Prop := forall v' r r',
  floats_finite v = true -> floats_finite v' = true -> delimited r = true -> delimited r' = true ->
  json_dumps v +:+ r = json_dumps v' +:+ r' -> json_sorted v = json_sorted v' /\ r = r'.

Definition kind_of (v : json) : nat :=
  match v with
  | JNull => 0 | JBool false => 1 | JBool true => 2 | JInt _ | JFloat _ _ _ => 3
  | JStr _ => 4 | JList _ => 5 | JDict _ => 6
  end.

Lemma kind_char_of v v' c : kind_char v c -> kind_char v' c -> kind_of v = kind_of v'.
Proof. destruct v as [|[]| | | | |], v' as [|[]| | | | |]; simpl; intros H1 H2; subst; done. Qed.

Lemma head_char_app a b : a <> "" -> head_char (a +:+ b) = head_char a.
Proof. by destruct a. Qed.

Lemma same_kind v v' r r' : floats_finite v = true -> floats_finite v' = true ->
  json_dumps v +:+ r = json_dumps v' +:+ r' -> kind_of v = kind_of v'.
Proof.
  intros Hv Hv' H. apply json_dumps_head in Hv as (Hn & Hk & _), Hv' as (Hn' & Hk' & _).
  apply (f_equal head_char) in H. rewrite !head_char_app in H by done. rewrite H in Hk.
  by eapply kind_char_of.
Qed.

Lemma number_text v : floats_finite v = true -> kind_of v = 3 ->
  all_chars num_char (json_dumps v) = true /\
  (has_char "." (json_dumps v) || has_char "e" (json_dumps v)) = match v with JInt _ => false | _ => true end.
Proof.
  destruct v as [|[]|z|m e t|s|l|d]; intros Hf Hk; try done; simpl in *.
  - destruct (pretty_Z_int z) as [H _]. split; [by apply (all_chars_impl int_char), H; apply int_char_num|].
    by apply int_no_point in H as [-> ->].
  - unfold float_text in Hf. by to_prop.
Qed.

Lemma number_unique v : kind_of v = 3 -> json_unique v.
Proof.
  intros Hk v' r r' Hv Hv' Hr Hr' H. assert (kind_of v' = 3) as Hk' by (by rewrite <- (same_kind v v' r r')).
  destruct (number_text v Hv Hk) as [Hc Hp], (number_text v' Hv' Hk') as [Hc' Hp'].
  apply (token_inj num_char) in H as [H ->]; try done; [|apply num_char_delimited]. split; [|done].
  rewrite H in Hp. rewrite Hp in Hp'.
  destruct v as [|[]|z|m e t|s|l|d], v' as [|[]|z'|m' e' t'|s'|l'|d']; try done; simpl in *.
  - apply (inj pretty) in H. by subst.
  - by subst.
Qed.

Lemma json_dumps_unique v : json_unique v.
Proof.
  induction v as [|b|z|m e t|s|l IH|d IH] using json_nested_ind; try by apply number_unique.
  all: intros v' r r' Hv Hv' Hr Hr' H; pose proof (same_kind _ _ _ _ Hv Hv' H) as Hk.
  - destruct v' as [|[]| | | | |]; try done. simpl in H. rewrite !string_app_cons in H. by simplify_eq.
  - destruct b, v' as [|[]| | | | |]; try done; simpl in H; rewrite !string_app_cons in H; by simplify_eq.
  - destruct v' as [|[]| | | | |]; try done. by apply json_string_inj in H as [-> ->].
  - destruct v' as [|[]| | | |l'|]; try done. rewrite !json_dumps_list, !string_app_cons, !string_app_assoc in H.
    injection H as H. rewrite !json_sorted_list. rewrite floats_finite_list in Hv, Hv'.
    apply (join_inj json_dumps json_sorted (fun v => floats_finite v = true) "]") in H as [-> ->]; try done.
    + intros x Hx. by apply json_dumps_head in Hx as (? & _ & ?).
    + apply Forall_forall. intros x Hx v' r0 r0'. rewrite Forall_forall in IH, Hv. by apply IH; [|apply Hv].
  - destruct v' as [|[]| | | | |d']; try done. rewrite !json_dumps_dict, !string_app_cons, !string_app_assoc in H.
    injection H as H. rewrite !json_sorted_dict. rewrite floats_finite_dict in Hv, Hv'.
    apply (join_inj (fun kv : string * json => json_string kv.1 +:+ String ":" (json_dumps kv.2))
      (prod_map id json_sorted) (fun kv => floats_finite kv.2 = true) "}") in H as [-> ->]; try done.
    apply Forall_forall. intros [k x] Hx [k' x'] r0 r0' Hx' Hr0 Hr0' H0. simpl in Hx', H0.
    rewrite !string_app_assoc in H0. apply json_string_inj in H0 as [-> H0].
    rewrite !string_app_cons in H0. injection H0 as H0.
    assert (json_unique x /\ floats_finite x = true) as [Hu Hf].
    { rewrite Forall_forall in Hv. specialize (Hv _ Hx). rewrite sort_items_perm in Hx.
      rewrite Forall_forall in IH. split; [by apply (IH _ Hx)|done]. }
    apply Hu in H0 as [Hs ->]; [|done..]. unfold prod_map. simpl. by rewrite Hs.
Qed.

