(* ===== verification/WorkItemSigning.v ===== *)
(** Signed remote-write work items ([runner/work_item_signing.py]): the digest of the
    params, the bytes a signature covers, the keys, and the two ends of the scheme.

    SHA-256 and Ed25519 are parameters.  [SignatureScheme] is the interface of the
    [cryptography] package; [signature_ok] is what it documents, that a signature
    made with a key verifies under its public key, and the sizes of both. *)

From S2P Require Import Prelude Json WireText.

Definition TARGETLESS_SCOPE : string := "".

Inductive SigningKeyUnavailableError := key_not_provisioned | key_not_base64 | key_not_32_bytes.

(** Keys, messages and signatures are byte strings. *)
Class SignatureScheme := {
  ed_public : string -> string;
  ed_sign : string -> string -> string;
  ed_verify : string -> string -> string -> bool;
}.

Class SignatureLaws `{SignatureScheme} : Prop := {
  signature_ok key message : ed_verify (ed_public key) (ed_sign key message) message = true;
  public_length key : String.length (ed_public key) = 32;
  signature_length key message : String.length (ed_sign key message) = 64;
}.

Definition decode_key (raw_b64 : string) : res SigningKeyUnavailableError string :=
  if bool_decide (raw_b64 = "") then Raise key_not_provisioned
  else match b64decode raw_b64 with Some key => Ok key | None => Raise key_not_base64 end.

Definition load_key (raw_b64 : string) : res SigningKeyUnavailableError string :=
  key ← decode_key raw_b64;
  _ ← guard_or key_not_32_bytes (bool_decide (String.length key = 32));
  Ok key.

Definition load_signing_key : string -> res SigningKeyUnavailableError string := load_key.
Definition load_verify_key : string -> res SigningKeyUnavailableError string := load_key.

(** The four fields a signature binds, in the order of the sorted keys. *)
Definition signing_payload (op_id params_hash target_scope : string) (expires_at : datetime) : json :=
  JDict [("v", JInt 1); ("op_id", JStr op_id); ("params_hash", JStr params_hash);
         ("target_scope", JStr target_scope); ("expires_at", JStr (isoformat expires_at))].

Definition remote_write_signing_bytes (op_id params_hash target_scope : string) (expires_at : datetime) : string :=
  json_dumps (signing_payload op_id params_hash target_scope expires_at).

Section Signing.
Context (sha256 : string -> string) `{SignatureScheme}.

Definition params_digest (params : json_dict) : string := sha256 (json_dumps (JDict params)).

Definition sign_remote_write_item (signing_key op_id params_hash target_scope : string) (expires_at : datetime)
  : string :=
  b64encode (ed_sign signing_key (remote_write_signing_bytes op_id params_hash target_scope expires_at)).

Definition verify_remote_write_item (verify_key signature_b64 op_id params_hash target_scope : string)
  (expires_at : datetime) : bool :=
  match b64decode signature_b64 with
  | None => false
  | Some signature => ed_verify verify_key signature
                        (remote_write_signing_bytes op_id params_hash target_scope expires_at)
  end.
End Signing.

(** * Lemmas *)

Lemma load_key_Ok raw key : load_key raw = Ok key -> b64decode raw = Some key /\ String.length key = 32.
Proof. unfold load_key, decode_key. intros H. invert_ok. split_matches. by to_prop. Qed.

Lemma load_key_encoded key : String.length key = 32 -> load_key (b64encode key) = Ok key.
Proof.
  intros Hl. unfold load_key, decode_key. rewrite bool_decide_false.
  - rewrite b64_roundtrip. simpl. by rewrite bool_decide_true.
  - intros He. pose proof (b64_roundtrip key) as Hr. rewrite He in Hr. injection Hr as <-. done.
Qed.

(** Whatever the centre signs, the edge verifies. *)
Lemma verify_signed `{SignatureLaws} key op_id h scope t :
  verify_remote_write_item (ed_public key) (sign_remote_write_item key op_id h scope t) op_id h scope t = true.
Proof. unfold verify_remote_write_item, sign_remote_write_item. rewrite b64_roundtrip. apply signature_ok. Qed.

(** The signed bytes determine the four fields. *)
Lemma signing_bytes_inj op op' h h' scope scope' t t' :
  datetime_ok t -> datetime_ok t' ->
  remote_write_signing_bytes op h scope t = remote_write_signing_bytes op' h' scope' t' ->
  op = op' /\ h = h' /\ scope = scope' /\ t = t'.
Proof.
  intros Ht Ht' Heq.
  destruct (json_dumps_unique (signing_payload op h scope t) (signing_payload op' h' scope' t') "" "")
    as [Hs _]; try done; [by rewrite !string_app_nil|].
  simpl in Hs. injection Hs as Hi Ho Hh Hsc. split_and!; try done. by apply isoformat_inj.
Qed.

Lemma params_digest_inj sha256 p p' :
  (forall a b, sha256 a = sha256 b -> a = b) ->
  floats_finite (JDict p) = true -> floats_finite (JDict p') = true ->
  params_digest sha256 p = params_digest sha256 p' -> json_sorted (JDict p) = json_sorted (JDict p').
Proof.
  intros Hinj Hp Hp' H. apply Hinj in H.
  destruct (json_dumps_unique (JDict p) (JDict p') "" "") as [Hs _]; try done. by rewrite !string_app_nil.
Qed.
