(* ===== verification/RunnerPrincipals.v ===== *)
(** Runner identities: registration and revocation ([auth/runner_principals.py]), the
    guard of the runner routes ([auth/runner_guard.py]), the allowlist of remote
    writes ([auth/runner_write_allowlist.py]) and the dead-man switch
    ([gateway/deadman.py]).

    Keycloak is outside the program.  Its clients are part of the state, and the
    answer of each call to it (and to Vault) is an argument. *)

From S2P Require Import Prelude Identity GatewayQueue.

(** * Rows *)

Record RunnerPrincipal := {
  rp_id : uuid;
  rp_tenant_id : uuid;
  rp_name : string;
  rp_keycloak_client_id : string;
  rp_keycloak_internal_id : string;
  rp_owner_sub : string;
  rp_revoked : bool;
  rp_created_by_sub : string;
  rp_created_at : datetime;
  rp_updated_at : datetime;
  rp_last_seen_at : datetime;
  rp_wire_version : option string;
  rp_package_set_digest : option string;
}.

Record RunnerWriteAllowlistEntry := {
  wa_id : uuid;
  wa_tenant_id : uuid;
  wa_runner_principal_id : uuid;
  wa_op_pattern : string;
  wa_target_scope : string;
  wa_created_by_sub : string;
  wa_created_at : datetime;
}.

(** The dead-man columns of [runner_assignments]; the document is in
    [RunnerAssignments]. *)
Record AssignmentMark := {
  am_id : uuid;
  am_tenant_id : uuid;
  am_runner_name : string;
  am_stale_at : option datetime;
}.

(** A Keycloak client: only an enabled one gets new tokens. *)
Record KcClient := {
  kc_internal_id : string;
  kc_client_id : string;
  kc_enabled : bool;
  kc_runner_id : uuid;
}.

Record RunnerAudit := {
  ra_operator_sub : string;
  ra_tenant_id : uuid;
  ra_path : string;
  ra_runner : string;
}.

Record RunnerDb := {
  rd_runners : list RunnerPrincipal;
  rd_allowlist : list RunnerWriteAllowlistEntry;
  rd_marks : list AssignmentMark;
  rd_clients : list KcClient;
  rd_audit : list RunnerAudit;
}.

Inductive RunnerError :=
| RunnerNameError
| RunnerPrincipalExistsError
| RunnerPrincipalNotFoundError
| KeycloakAdminError
| SchedulerVaultBrokerError
| RunnerScopeViolation
| RunnerHeaderInvalid
| RunnerWireVersionMismatch
| RunnerIntegrityError.

Definition set_runners (f : list RunnerPrincipal -> list RunnerPrincipal) (db : RunnerDb) : RunnerDb := {|
  rd_runners := f (rd_runners db); rd_allowlist := rd_allowlist db; rd_marks := rd_marks db;
  rd_clients := rd_clients db; rd_audit := rd_audit db |}.
Definition set_allowlist (f : list RunnerWriteAllowlistEntry -> list RunnerWriteAllowlistEntry) (db : RunnerDb)
  : RunnerDb := {|
  rd_runners := rd_runners db; rd_allowlist := f (rd_allowlist db); rd_marks := rd_marks db;
  rd_clients := rd_clients db; rd_audit := rd_audit db |}.
Definition set_marks (f : list AssignmentMark -> list AssignmentMark) (db : RunnerDb) : RunnerDb := {|
  rd_runners := rd_runners db; rd_allowlist := rd_allowlist db; rd_marks := f (rd_marks db);
  rd_clients := rd_clients db; rd_audit := rd_audit db |}.
Definition set_clients (f : list KcClient -> list KcClient) (db : RunnerDb) : RunnerDb := {|
  rd_runners := rd_runners db; rd_allowlist := rd_allowlist db; rd_marks := rd_marks db;
  rd_clients := f (rd_clients db); rd_audit := rd_audit db |}.
Definition add_runner_audit (a : RunnerAudit) (db : RunnerDb) : RunnerDb := {|
  rd_runners := rd_runners db; rd_allowlist := rd_allowlist db; rd_marks := rd_marks db;
  rd_clients := rd_clients db; rd_audit := rd_audit db ++ [a] |}.

Definition named (tenant_id : uuid) (name : string) (r : RunnerPrincipal) : bool :=
  bool_decide (rp_tenant_id r = tenant_id) && bool_decide (rp_name r = name).

Definition get_runner (db : RunnerDb) (tenant_id : uuid) (name : string) : option RunnerPrincipal :=
  List.find (named tenant_id name) (rd_runners db).

Definition live_runner (db : RunnerDb) (tenant_id : uuid) (name : string) : option RunnerPrincipal :=
  List.find (fun r => named tenant_id name r && negb (rp_revoked r)) (rd_runners db).

(** * Registration *)

(** [_NAME_PATTERN]: letters, digits, hyphen, underscore and dot. *)
Definition name_char (c : ascii) : bool :=
  let n := nat_of_ascii c in
  ((48 <=? n) && (n <=? 57)) || ((65 <=? n) && (n <=? 90)) || ((97 <=? n) && (n <=? 122)) ||
  Ascii.eqb c "_" || Ascii.eqb c "-" || Ascii.eqb c ".".

Definition name_ok (name : string) : bool := negb (bool_decide (name = "")) && all_chars name_char name.

Definition NAME_MAX_LENGTH : nat := 128.

(** [RunnerPrincipalCreate]. *)
Record RunnerPrincipalCreate := { rc_name : string; rc_owner_sub : option string }.

Definition payload_ok (p : RunnerPrincipalCreate) : bool :=
  (String.length (rc_name p) <=? NAME_MAX_LENGTH)%nat.

Definition keycloak_client_id (name : string) : string := "runner:" +:+ name.

(** What Keycloak and Vault answer: the internal id of the client created, whether
    its secret could be read, whether Vault took the secret, and whether the
    cleanup worked. *)
Inductive KcCreate := kc_created (internal_id : string) | kc_conflict | kc_create_failed.
Inductive VaultWrite := vault_written | vault_not_configured | vault_failed.

Record RegisterEnv := {
  re_runner_id : uuid;
  re_create : KcCreate;
  re_secret_read : bool;
  re_vault : VaultWrite;
  re_cleanup : bool;
  re_now : datetime;
}.

(** [owner_sub or created_by_sub]. *)
Definition owner_of (created_by_sub : string) (p : RunnerPrincipalCreate) : string :=
  match rc_owner_sub p with
  | Some o => if bool_decide (o = "") then created_by_sub else o
  | None => created_by_sub
  end.

(** [_rollback_orphan_client]: a failed cleanup is logged and leaves the client. *)
Definition rollback_orphan_client (env : RegisterEnv) (internal_id : string) : RunnerDb -> RunnerDb :=
  set_clients (fun l => if re_cleanup env
                        then delete_where (fun c => bool_decide (kc_internal_id c = internal_id)) l else l).

Definition new_runner (tenant_id : uuid) (created_by_sub : string) (p : RunnerPrincipalCreate) (env : RegisterEnv)
  (internal_id : string) : RunnerPrincipal := {|
  rp_id := re_runner_id env; rp_tenant_id := tenant_id; rp_name := rc_name p;
  rp_keycloak_client_id := keycloak_client_id (rc_name p); rp_keycloak_internal_id := internal_id;
  rp_owner_sub := owner_of created_by_sub p; rp_revoked := false; rp_created_by_sub := created_by_sub;
  rp_created_at := re_now env; rp_updated_at := re_now env; rp_last_seen_at := re_now env;
  rp_wire_version := None; rp_package_set_digest := None |}.

(** The unique indexes: the id, the name in its tenant, and the client id. *)
Definition insert_conflicts (r : RunnerPrincipal) (rows : list RunnerPrincipal) : bool :=
  existsb (fun x => bool_decide (rp_id x = rp_id r) || named (rp_tenant_id r) (rp_name r) x ||
                    bool_decide (rp_keycloak_client_id x = rp_keycloak_client_id r)) rows.

Definition register (tenant_id : uuid) (created_by_sub : string) (p : RunnerPrincipalCreate) (env : RegisterEnv)
  : txn RunnerDb RunnerError RunnerPrincipal := fun db =>
  if negb (name_ok (rc_name p)) then (db, Raise RunnerNameError)
  else match re_create env with
  | kc_conflict => (db, Raise RunnerPrincipalExistsError)
  | kc_create_failed => (db, Raise KeycloakAdminError)
  | kc_created internal_id =>
      let db1 := set_clients (fun l => l ++ [{| kc_internal_id := internal_id;
                   kc_client_id := keycloak_client_id (rc_name p); kc_enabled := true;
                   kc_runner_id := re_runner_id env |}]) db in
      let rolled_back := rollback_orphan_client env internal_id db1 in
      if negb (re_secret_read env) then (rolled_back, Raise KeycloakAdminError)
      else match re_vault env with
      | vault_failed => (rolled_back, Raise SchedulerVaultBrokerError)
      | _ =>
          let row := new_runner tenant_id created_by_sub p env internal_id in
          if insert_conflicts row (rd_runners db1) then (rolled_back, Raise RunnerPrincipalExistsError)
          else (set_runners (fun l => l ++ [row]) db1, Ok row)
      end
  end.

(** * Revocation *)

Inductive KcDisable := kc_disabled | kc_disable_not_found | kc_disable_failed.

(** Phase 1: the live row names the client. *)
Definition revoke_lookup (tenant_id : uuid) (name : string) (db : RunnerDb) : res RunnerError string :=
  row ← ok_or RunnerPrincipalNotFoundError (live_runner db tenant_id name);
  Ok (rp_keycloak_internal_id row).

(** Phase 2.  Keycloak answers not-found only for a client that is gone. *)
Definition disable_keycloak_client (internal_id : string) (answer : KcDisable)
  : txn RunnerDb RunnerError unit := fun db =>
  match answer with
  | kc_disabled =>
      (set_clients (update_where (fun c => bool_decide (kc_internal_id c = internal_id))
         (fun c => {| kc_internal_id := kc_internal_id c; kc_client_id := kc_client_id c; kc_enabled := false;
                      kc_runner_id := kc_runner_id c |})) db, Ok tt)
  | kc_disable_not_found => (db, Ok tt)
  | kc_disable_failed => (db, Raise KeycloakAdminError)
  end.

Definition set_revoked (now : datetime) (r : RunnerPrincipal) : RunnerPrincipal := {|
  rp_id := rp_id r; rp_tenant_id := rp_tenant_id r; rp_name := rp_name r;
  rp_keycloak_client_id := rp_keycloak_client_id r; rp_keycloak_internal_id := rp_keycloak_internal_id r;
  rp_owner_sub := rp_owner_sub r; rp_revoked := true; rp_created_by_sub := rp_created_by_sub r;
  rp_created_at := rp_created_at r; rp_updated_at := now; rp_last_seen_at := rp_last_seen_at r;
  rp_wire_version := rp_wire_version r; rp_package_set_digest := rp_package_set_digest r |}.

(** Phase 3. *)
Definition mark_revoked (tenant_id : uuid) (name : string) (now : datetime)
  : txn RunnerDb RunnerError RunnerPrincipal := fun db =>
  match get_runner db tenant_id name with
  | None => (db, Raise RunnerPrincipalNotFoundError)
  | Some row =>
      if rp_revoked row then (db, Ok row)
      else (set_runners (update_where (fun r => bool_decide (rp_id r = rp_id row)) (set_revoked now)) db,
            Ok (set_revoked now row))
  end.

Definition REVOKE_AUDIT_PATH : string := "runner.principal.revoked".

(** The revocation as one call makes it; other calls may come between its phases
    (see [runner_step]). *)
Definition revoke (tenant_id : uuid) (name operator_sub : string) (answer : KcDisable) (now : datetime)
  : txn RunnerDb RunnerError RunnerPrincipal :=
  internal_id ← read_db (revoke_lookup tenant_id name);
  _ ← disable_keycloak_client internal_id answer;
  row ← mark_revoked tenant_id name now;
  _ ← commit (add_runner_audit {| ra_operator_sub := operator_sub; ra_tenant_id := tenant_id;
                                  ra_path := REVOKE_AUDIT_PATH; ra_runner := name |});
  mret row.

(** * Reading *)

Definition name_le (a b : RunnerPrincipal) : Prop := str_le (rp_name a) (rp_name b).
#[export] Instance name_le_dec a b : Decision (name_le a b).
Proof. unfold name_le, str_le. apply _. Defined.

Definition list_runners (tenant_id : uuid) (include_revoked : bool) (limit offset : nat) (db : RunnerDb)
  : list RunnerPrincipal :=
  take limit (drop offset (merge_sort name_le (select_where (fun r =>
    bool_decide (rp_tenant_id r = tenant_id) && (include_revoked || negb (rp_revoked r))) (rd_runners db)))).

(** * The guard of the runner routes *)

Definition SCHEMA_VERSION : string := "1".
Definition WIRE_VERSION_WHEN_MISSING : string := "1".

Definition decimal_char (c : ascii) : bool := let n := nat_of_ascii c in (48 <=? n) && (n <=? 57).
Definition hex_lower_char (c : ascii) : bool :=
  let n := nat_of_ascii c in decimal_char c || ((97 <=? n) && (n <=? 102)).

Definition wire_version_pattern (s : string) : bool :=
  negb (bool_decide (s = "")) && (String.length s <=? 6)%nat && all_chars decimal_char s.

(** [require_runner]; [runner_id] is the claim of the token. *)
Definition require_runner (operator : Operator) (runner_id : option uuid) : res RunnerError uuid :=
  _ ← guard_or RunnerScopeViolation (bool_decide (op_principal_kind operator = RUNNER));
  ok_or RunnerScopeViolation runner_id.

Definition set_wire_version (v : string) (r : RunnerPrincipal) : RunnerPrincipal := {|
  rp_id := rp_id r; rp_tenant_id := rp_tenant_id r; rp_name := rp_name r;
  rp_keycloak_client_id := rp_keycloak_client_id r; rp_keycloak_internal_id := rp_keycloak_internal_id r;
  rp_owner_sub := rp_owner_sub r; rp_revoked := rp_revoked r; rp_created_by_sub := rp_created_by_sub r;
  rp_created_at := rp_created_at r; rp_updated_at := rp_updated_at r; rp_last_seen_at := rp_last_seen_at r;
  rp_wire_version := Some v; rp_package_set_digest := rp_package_set_digest r |}.

(** A refused version is stored on the token's own row, without a heartbeat. *)
Definition runner_wire_version (operator : Operator) (runner_id : uuid) (header : option string)
  : txn RunnerDb RunnerError string := fun db =>
  let checked v :=
    if bool_decide (v = SCHEMA_VERSION) then (db, Ok v)
    else (set_runners (update_where (fun r => bool_decide (rp_id r = runner_id) &&
                                              bool_decide (rp_tenant_id r = op_tenant_id operator))
                                    (set_wire_version v)) db, Raise RunnerWireVersionMismatch) in
  match header with
  | None => checked WIRE_VERSION_WHEN_MISSING
  | Some v => if wire_version_pattern v then checked v else (db, Raise RunnerHeaderInvalid)
  end.

Definition package_set_pattern (s : string) : bool :=
  match partition_on ":" s with
  | (prefix, Some rest) =>
      bool_decide (prefix = "sha256") && (String.length rest =? 64)%nat && all_chars hex_lower_char rest
  | (_, None) => false
  end.

Definition runner_package_set (empty_digest : string) (header : option string) : res RunnerError string :=
  match header with
  | None => Ok empty_digest
  | Some v => _ ← guard_or RunnerHeaderInvalid (package_set_pattern v); Ok v
  end.

Definition set_seen (wire_version package_set : string) (now : datetime) (r : RunnerPrincipal) : RunnerPrincipal := {|
  rp_id := rp_id r; rp_tenant_id := rp_tenant_id r; rp_name := rp_name r;
  rp_keycloak_client_id := rp_keycloak_client_id r; rp_keycloak_internal_id := rp_keycloak_internal_id r;
  rp_owner_sub := rp_owner_sub r; rp_revoked := rp_revoked r; rp_created_by_sub := rp_created_by_sub r;
  rp_created_at := rp_created_at r; rp_updated_at := rp_updated_at r; rp_last_seen_at := now;
  rp_wire_version := Some wire_version; rp_package_set_digest := Some package_set |}.

(** The scope gate, with its heartbeat, committed at once.  An unknown name and
    another runner's name are refused alike. *)
Definition assert_runner_scope (operator : Operator) (runner_id : uuid) (runner_name wire_version package_set : string)
  (now : datetime) : txn RunnerDb RunnerError RunnerPrincipal := fun db =>
  match get_runner db (op_tenant_id operator) runner_name with
  | None => (db, Raise RunnerScopeViolation)
  | Some row =>
      if bool_decide (rp_id row = runner_id)
      then (set_runners (update_where (fun r => bool_decide (rp_id r = rp_id row))
                           (set_seen wire_version package_set now)) db,
            Ok (set_seen wire_version package_set now row))
      else (db, Raise RunnerScopeViolation)
  end.

(** * The allowlist *)

Record RemoteWriteCapabilityGrant := { cg_op_pattern : string; cg_target_scope : string }.

Definition FIELD_MAX_LENGTH : nat := 512.
Definition capability_ok (p : RemoteWriteCapabilityGrant) : bool :=
  (1 <=? String.length (cg_op_pattern p))%nat && (String.length (cg_op_pattern p) <=? FIELD_MAX_LENGTH)%nat &&
  (1 <=? String.length (cg_target_scope p))%nat && (String.length (cg_target_scope p) <=? FIELD_MAX_LENGTH)%nat.

Definition resolve_runner_id (tenant_id : uuid) (runner_name : string) (db : RunnerDb) : res RunnerError uuid :=
  row ← ok_or RunnerPrincipalNotFoundError (live_runner db tenant_id runner_name);
  Ok (rp_id row).

Definition same_capability (runner_id : uuid) (p : RemoteWriteCapabilityGrant) (w : RunnerWriteAllowlistEntry) : bool :=
  bool_decide (wa_runner_principal_id w = runner_id) && bool_decide (wa_op_pattern w = cg_op_pattern p) &&
  bool_decide (wa_target_scope w = cg_target_scope p).

(** The unique index absorbs a second grant of the same capability. *)
Definition grant_capability (tenant_id : uuid) (runner_name created_by_sub : string) (p : RemoteWriteCapabilityGrant)
  (id : uuid) (now : datetime) : txn RunnerDb RunnerError RunnerWriteAllowlistEntry :=
  runner_id ← read_db (resolve_runner_id tenant_id runner_name);
  let row := {| wa_id := id; wa_tenant_id := tenant_id; wa_runner_principal_id := runner_id;
                wa_op_pattern := cg_op_pattern p; wa_target_scope := cg_target_scope p;
                wa_created_by_sub := created_by_sub; wa_created_at := now |} in
  existing ← read_db (fun db => Ok (List.find (same_capability runner_id p) (rd_allowlist db)));
  match existing with
  | Some w => mret w
  | None =>
      _ ← read_db (fun db => guard_or RunnerIntegrityError (bool_decide (id ∉ wa_id <$> rd_allowlist db)));
      _ ← commit (set_allowlist (fun l => l ++ [row]));
      mret row
  end.

Definition capability_le (a b : RunnerWriteAllowlistEntry) : Prop :=
  if bool_decide (wa_op_pattern a = wa_op_pattern b) then str_le (wa_target_scope a) (wa_target_scope b)
  else str_le (wa_op_pattern a) (wa_op_pattern b).
#[export] Instance capability_le_dec a b : Decision (capability_le a b).
Proof. unfold capability_le, str_le. destruct (bool_decide _); apply _. Defined.

Definition list_capabilities (tenant_id : uuid) (runner_name : string) (db : RunnerDb)
  : res RunnerError (list RunnerWriteAllowlistEntry) :=
  runner_id ← resolve_runner_id tenant_id runner_name db;
  Ok (merge_sort capability_le (select_where (fun w => bool_decide (wa_runner_principal_id w = runner_id))
                                  (rd_allowlist db))).

(** The join of the mint: revoked runners are not left out. *)
Definition load_runner_allowlist (tenant_id : uuid) (runner_name : string) (db : RunnerDb)
  : list RemoteWriteAllowEntry :=
  w ← select_where (fun w => bool_decide (wa_tenant_id w = tenant_id)) (rd_allowlist db);
  r ← select_where (fun r => bool_decide (rp_id r = wa_runner_principal_id w) && named tenant_id runner_name r)
        (rd_runners db);
  [{| ae_op_pattern := wa_op_pattern w; ae_target_scope := wa_target_scope w |}].

(** [_runner_is_revoked] of [operations/gateway_commands.py]. *)
Definition runner_is_revoked (tenant_id : uuid) (runner_name : string) (db : RunnerDb) : bool :=
  match get_runner db tenant_id runner_name with Some r => rp_revoked r | None => false end.

(** * The dead-man switch *)

Definition GATEWAY_RUNNER_STALE_PATH : string := "gateway.runner.stale".

(** In microseconds. *)
Definition threshold (stale_after_multiplier : Z) : Z :=
  (stale_after_multiplier * GATEWAY_LONGPOLL_MAX_WAIT_SECONDS * 1000000)%Z.

Definition set_stale (v : option datetime) (m : AssignmentMark) : AssignmentMark := {|
  am_id := am_id m; am_tenant_id := am_tenant_id m; am_runner_name := am_runner_name m; am_stale_at := v |}.

(** The candidates: fresh rows of runners last seen before the cutoff. *)
Definition lapsed_pairs (cutoff : datetime) (db : RunnerDb) : list (AssignmentMark * datetime) :=
  m ← select_where (fun m => bool_decide (am_stale_at m = None)) (rd_marks db);
  r ← select_where (fun r => named (am_tenant_id m) (am_runner_name m) r && (rp_last_seen_at r <? cutoff)%Z)
        (rd_runners db);
  [(m, rp_last_seen_at r)].

Definition seen_le (a b : AssignmentMark * datetime) : Prop := (a.2 <= b.2)%Z.
#[export] Instance seen_le_dec a b : Decision (seen_le a b) := Z_le_dec _ _.

(** One conditional flip; the audit row is written when it won. *)
Definition flip_one (now : datetime) (acc : RunnerDb * list AssignmentMark) (c : AssignmentMark * datetime)
  : RunnerDb * list AssignmentMark :=
  let p m := bool_decide (am_id m = am_id c.1) && bool_decide (am_stale_at m = None) in
  (set_marks (update_where p (set_stale (Some now))) acc.1,
   if existsb p (rd_marks acc.1) then acc.2 ++ [c.1] else acc.2).

Definition deadman_tick (stale_after_multiplier : Z) (now : datetime) (db : RunnerDb) : RunnerDb :=
  let cutoff := (now - threshold stale_after_multiplier)%Z in
  let '(db', flipped) := foldl (flip_one now) (db, []) (merge_sort seen_le (lapsed_pairs cutoff db)) in
  foldl (fun db m => add_runner_audit {| ra_operator_sub := "system"; ra_tenant_id := am_tenant_id m;
           ra_path := GATEWAY_RUNNER_STALE_PATH; ra_runner := am_runner_name m |} db) db' flipped.

Definition clear_runner_stale (tenant_id : uuid) (runner_name : string) : RunnerDb -> RunnerDb :=
  set_marks (update_where (fun m => bool_decide (am_tenant_id m = tenant_id) &&
                                    bool_decide (am_runner_name m = runner_name) &&
                                    negb (bool_decide (am_stale_at m = None))) (set_stale None)).

(** * Registration *)

Lemma delete_added {A} (p : A -> bool) l x :
  (forall y, y ∈ l -> p y = false) -> p x = true -> delete_where p (l ++ [x]) = l.
Proof.
  intros Hl Hx. unfold delete_where. rewrite List.filter_app. simpl. rewrite Hx, app_nil_r.
  induction l as [|y l IH]; [done|]. simpl. rewrite Hl by left. simpl. f_equal. apply IH. intros z Hz. apply Hl. by right.
Qed.

Definition new_client (p : RunnerPrincipalCreate) (env : RegisterEnv) (internal_id : string) : KcClient := {|
  kc_internal_id := internal_id; kc_client_id := keycloak_client_id (rc_name p); kc_enabled := true;
  kc_runner_id := re_runner_id env |}.

Lemma register_cases tenant_id sub p env db db' r :
  register tenant_id sub p env db = (db', r) ->
  (exists e, r = Raise e /\ (db' = db \/ exists iid, re_create env = kc_created iid /\
     db' = rollback_orphan_client env iid (set_clients (fun l => l ++ [new_client p env iid]) db))) \/
  (exists iid, re_create env = kc_created iid /\ name_ok (rc_name p) = true /\
     r = Ok (new_runner tenant_id sub p env iid) /\
     insert_conflicts (new_runner tenant_id sub p env iid) (rd_runners db) = false /\
     db' = set_runners (fun l => l ++ [new_runner tenant_id sub p env iid])
             (set_clients (fun l => l ++ [new_client p env iid]) db)).
Proof.
  unfold register. destruct (name_ok (rc_name p)) eqn:Hn; simpl; [|intros [= <- <-]; left; eauto].
  destruct (re_create env) as [iid| |] eqn:Hc; [|intros [= <- <-]; left; by eauto..].
  destruct (re_secret_read env); simpl; [|intros [= <- <-]; left; eexists; split; [done|]; right; by exists iid].
  destruct (re_vault env); simpl;
    try (destruct (insert_conflicts _ _) eqn:Hi; intros [= <- <-]; [left|right; exists iid; by split_and!];
         eexists; split; [done|]; right; by exists iid).
  intros [= <- <-]. left. eexists. split; [done|]. right. by exists iid.
Qed.

(** Registering a runner is all or nothing, and gives no write capability.  A
    failure leaves the runners as they were, and Keycloak too once the cleanup went
    through.  A success adds one live row whose id is the claim in the tokens of its
    one new, enabled client, under a name made of safe characters that is the
    first of its tenant; no row of the allowlist names the runner, so no remote
    write can be minted for it. *)
Theorem register_all_or_nothing tenant_id sub p env db db' r :
  (forall w, w ∈ rd_allowlist db -> wa_runner_principal_id w <> re_runner_id env) ->
  (forall c, c ∈ rd_clients db -> re_create env <> kc_created (kc_internal_id c)) ->
  register tenant_id sub p env db = (db', r) ->
  match r with
  | Raise _ => rd_runners db' = rd_runners db /\ (re_cleanup env = true -> rd_clients db' = rd_clients db)
  | Ok row =>
      rd_runners db' = rd_runners db ++ [row] /\ rp_id row = re_runner_id env /\ rp_revoked row = false /\
      name_ok (rp_name row) = true /\ get_runner db tenant_id (rp_name row) = None /\
      rd_clients db' = rd_clients db ++ [{| kc_internal_id := rp_keycloak_internal_id row;
        kc_client_id := rp_keycloak_client_id row; kc_enabled := true; kc_runner_id := rp_id row |}] /\
      load_runner_allowlist tenant_id (rp_name row) db' = []
  end.
Proof.
  intros Hfresh Hclient [(e & -> & [->|(iid & Hc & ->)])|(iid & Hc & Hn & -> & Hi & ->)]%register_cases; [done|..].
  - split; [done|]. intros Hcl. simpl. rewrite Hcl. apply delete_added; [|by apply bool_decide_eq_true].
    intros c Hin. apply bool_decide_eq_false. intros <-. by apply (Hclient c Hin).
  - assert (get_runner db tenant_id (rc_name p) = None) as Hnone.
    { apply find_None_iff. intros x Hx. apply not_true_iff_false. intros Hnm.
      apply not_true_iff_false in Hi as []. apply (existsb_intro _ _ x); [done|]. simpl. by rewrite Hnm, orb_true_r. }
    split_and!; try done. apply elem_of_nil_inv. intros x Hx. unfold load_runner_allowlist in Hx. simpl in Hx.
    apply list_elem_of_bind in Hx as (w & Hx & Hw). apply elem_of_select in Hw as [Hw _].
    apply list_elem_of_bind in Hx as (y & _ & Hy). apply elem_of_select in Hy as [Hy Hp].
    apply elem_of_app in Hy as [Hy|Hy%list_elem_of_singleton].
    + to_prop. assert (named tenant_id (rc_name p) y = false) by (eapply find_None_iff; [exact Hnone|done]).
      simpl in *. congruence.
    + subst y. simpl in Hp. to_prop. by apply (Hfresh w Hw).
Qed.

(** * The kill switch

    A revocation reads the row, disables the Keycloak client and marks the row, in
    three transactions; any other call may come between them. *)

Inductive revocation := rv_found (tenant_id : uuid) (name internal_id : string) | rv_disabled (tenant_id : uuid) (name : string).

Inductive runner_step : RunnerDb * list revocation -> RunnerDb * list revocation -> Prop :=
| rs_register tenant_id sub p env db db' r l :
    (forall iid, re_create env = kc_created iid ->
       iid ∉ rp_keycloak_internal_id <$> rd_runners db /\ iid ∉ kc_internal_id <$> rd_clients db) ->
    register tenant_id sub p env db = (db', r) -> runner_step (db, l) (db', l)
| rs_lookup tenant_id name iid db l :
    revoke_lookup tenant_id name db = Ok iid -> runner_step (db, l) (db, rv_found tenant_id name iid :: l)
| rs_disable tenant_id name iid answer db db' l :
    rv_found tenant_id name iid ∈ l ->
    (answer = kc_disable_not_found -> iid ∉ kc_internal_id <$> rd_clients db) ->
    disable_keycloak_client iid answer db = (db', Ok tt) -> runner_step (db, l) (db', rv_disabled tenant_id name :: l)
| rs_mark tenant_id name now db db' r l :
    rv_disabled tenant_id name ∈ l -> mark_revoked tenant_id name now db = (db', r) -> runner_step (db, l) (db', l)
| rs_seen o rid name wv ps now db db' r l :
    assert_runner_scope o rid name wv ps now db = (db', r) -> runner_step (db, l) (db', l)
| rs_version o rid header db db' r l :
    runner_wire_version o rid header db = (db', r) -> runner_step (db, l) (db', l)
| rs_grant tenant_id name sub p id now db db' r l :
    grant_capability tenant_id name sub p id now db = (db', r) -> runner_step (db, l) (db', l)
| rs_tick m now db l : runner_step (db, l) (deadman_tick m now db, l)
| rs_clear tenant_id name db l : runner_step (db, l) (clear_runner_stale tenant_id name db, l)
| rs_gone p db l : runner_step (db, l) (set_clients (delete_where p) db, l).

Definition no_runners : RunnerDb :=
  {| rd_runners := []; rd_allowlist := []; rd_marks := []; rd_clients := []; rd_audit := [] |}.

(** What the invariant reads of a row. *)
Definition rp_core (r : RunnerPrincipal) := (rp_id r, (rp_tenant_id r, rp_name r), rp_keycloak_internal_id r, rp_revoked r).

Definition client_off (db : RunnerDb) (iid : string) : Prop :=
  forall c, c ∈ rd_clients db -> kc_internal_id c = iid -> kc_enabled c = false.

Definition revocation_ok (db : RunnerDb) (v : revocation) : Prop :=
  match v with
  | rv_found t n iid => exists r, r ∈ rd_runners db /\ rp_tenant_id r = t /\ rp_name r = n /\ rp_keycloak_internal_id r = iid
  | rv_disabled t n => exists r, r ∈ rd_runners db /\ rp_tenant_id r = t /\ rp_name r = n /\
      client_off db (rp_keycloak_internal_id r)
  end.

Record kill_inv (s : RunnerDb * list revocation) : Prop := {
  ki_ids : NoDup (rp_id <$> rd_runners s.1);
  ki_names : NoDup ((fun r => (rp_tenant_id r, rp_name r)) <$> rd_runners s.1);
  ki_revoked : forall r, r ∈ rd_runners s.1 -> rp_revoked r = true -> client_off s.1 (rp_keycloak_internal_id r);
  ki_pending : forall v, v ∈ s.2 -> revocation_ok s.1 v;
}.

(** A step that keeps the cores of the rows and enables nothing keeps the invariant. *)
Lemma kill_inv_core db db' l :
  kill_inv (db, l) -> rp_core <$> rd_runners db' = rp_core <$> rd_runners db ->
  (forall r, r ∈ rd_runners db -> client_off db (rp_keycloak_internal_id r) -> client_off db' (rp_keycloak_internal_id r)) ->
  kill_inv (db', l).
Proof.
  intros [H1 H2 H3 H4] Hc Hoff. simpl in *.
  assert (forall {A} (g : _ -> A), (g ∘ rp_core) <$> rd_runners db' = (g ∘ rp_core) <$> rd_runners db) as Hg
    by (intros A g; by rewrite !list_fmap_compose, Hc).
  assert (forall r, r ∈ rd_runners db' -> exists r0, r0 ∈ rd_runners db /\ rp_core r0 = rp_core r) as Hback.
  { intros r Hr. apply (list_elem_of_fmap_2 rp_core) in Hr. rewrite Hc in Hr. apply list_elem_of_fmap in Hr as (r0 & ? & ?). eauto. }
  assert (forall r, r ∈ rd_runners db -> exists r1, r1 ∈ rd_runners db' /\ rp_core r1 = rp_core r) as Hfwd.
  { intros r Hr. apply (list_elem_of_fmap_2 rp_core) in Hr. rewrite <- Hc in Hr. apply list_elem_of_fmap in Hr as (r0 & ? & ?). eauto. }
  constructor; simpl.
  - pose proof (Hg _ (fun k => k.1.1.1)) as E. change (rp_id <$> rd_runners db' = rp_id <$> rd_runners db) in E.
    by rewrite E.
  - pose proof (Hg _ (fun k => k.1.1.2)) as E.
    change ((fun r => (rp_tenant_id r, rp_name r)) <$> rd_runners db' =
            (fun r => (rp_tenant_id r, rp_name r)) <$> rd_runners db) in E. by rewrite E.
  - intros r Hr Hrev. destruct (Hback r Hr) as (r0 & Hr0 & E). unfold rp_core in E. injection E as E1 E2 E3 E4 E5.
    rewrite <- E4. apply Hoff; [done|]. apply (H3 r0 Hr0). congruence.
  - intros v Hv. specialize (H4 v Hv). destruct v as [t n iid|t n].
    + destruct H4 as (r & Hr & ? & ? & ?). destruct (Hfwd r Hr) as (r1 & ? & E). unfold rp_core in E.
      injection E as E1 E2 E3 E4 E5. exists r1. by rewrite E2, E3, E4.
    + destruct H4 as (r & Hr & ? & ? & ?). destruct (Hfwd r Hr) as (r1 & ? & E). unfold rp_core in E.
      injection E as E1 E2 E3 E4 E5. exists r1. rewrite E2, E3, E4. split_and!; auto.
Qed.

Lemma update_core p f l : (forall r, rp_core (f r) = rp_core r) -> rp_core <$> update_where p f l = rp_core <$> l.
Proof.
  intros Hf. unfold update_where. rewrite <- list_fmap_compose. apply list_fmap_ext. intros i r _. simpl.
  destruct (p r); [apply Hf|done].
Qed.

Lemma flips_keep now l acc :
  rd_runners (foldl (flip_one now) acc l).1 = rd_runners acc.1 /\
  rd_clients (foldl (flip_one now) acc l).1 = rd_clients acc.1.
Proof. revert acc. induction l as [|x l IH]; intros acc; [done|]. simpl. by destruct (IH (flip_one now acc x)) as [-> ->]. Qed.

Lemma audits_keep (f : AssignmentMark -> RunnerAudit) l db :
  let db' := foldl (fun db m => add_runner_audit (f m) db) db l in
  rd_runners db' = rd_runners db /\ rd_clients db' = rd_clients db /\ rd_marks db' = rd_marks db /\
  rd_audit db' = rd_audit db ++ (f <$> l).
Proof.
  revert db. induction l as [|x l IH]; intros db; [by rewrite app_nil_r|]. simpl.
  destruct (IH (add_runner_audit (f x) db)) as (-> & -> & -> & ->). simpl. by rewrite <- app_assoc.
Qed.

Lemma tick_keeps m now db : rd_runners (deadman_tick m now db) = rd_runners db /\ rd_clients (deadman_tick m now db) = rd_clients db.
Proof.
  unfold deadman_tick. destruct (foldl (flip_one now) _ _) as [db' fl] eqn:E.
  pose proof (flips_keep now (merge_sort seen_le (lapsed_pairs (now - threshold m) db)) (db, [])) as [H1 H2].
  rewrite E in H1, H2. simpl in *.
  match goal with |- context [foldl (fun db m => add_runner_audit (@?f m) db) _ _] =>
    destruct (audits_keep f fl db') as (-> & -> & _ & _) end. done.
Qed.

Lemma named_true t n r : named t n r = true <-> rp_tenant_id r = t /\ rp_name r = n.
Proof. unfold named. by rewrite andb_true_iff, !bool_decide_eq_true. Qed.

Lemma get_runner_Some db t n r : get_runner db t n = Some r -> r ∈ rd_runners db /\ rp_tenant_id r = t /\ rp_name r = n.
Proof. intros H. apply find_Some_iff in H as [? H%named_true]. done. Qed.

Lemma grant_keeps t n sub p id now db db' r :
  grant_capability t n sub p id now db = (db', r) -> rd_runners db' = rd_runners db /\ rd_clients db' = rd_clients db.
Proof.
  unfold grant_capability. rewrite read_bind. destruct (resolve_runner_id t n db) as [rid|]; [|by intros [= <- <-]].
  rewrite read_bind. simpl. destruct (List.find _ _); [by intros [= <- <-]|]. rewrite read_bind.
  destruct (guard_or _ _); [|by intros [= <- <-]]. rewrite commit_bind. by intros [= <- <-].
Qed.

Lemma existsb_false {A} (p : A -> bool) l : existsb p l = false -> forall x, x ∈ l -> p x = false.
Proof. intros He x Hx. apply not_true_iff_false. intros Hp. by rewrite (existsb_intro p l x) in He. Qed.

Lemma client_off_added db p env iid r :
  iid ∉ rp_keycloak_internal_id <$> rd_runners db -> r ∈ rd_runners db ->
  client_off db (rp_keycloak_internal_id r) ->
  client_off (set_clients (fun l => l ++ [new_client p env iid]) db) (rp_keycloak_internal_id r).
Proof.
  intros Hf Hr Hoff c Hc E. simpl in Hc. apply elem_of_app in Hc as [Hc|Hc%list_elem_of_singleton]; [by apply Hoff|].
  subst c. simpl in E. exfalso. apply Hf. rewrite E. by apply list_elem_of_fmap_2.
Qed.

Lemma kill_register t sub p env db db' r l :
  kill_inv (db, l) ->
  (forall iid, re_create env = kc_created iid ->
     iid ∉ rp_keycloak_internal_id <$> rd_runners db /\ iid ∉ kc_internal_id <$> rd_clients db) ->
  register t sub p env db = (db', r) -> kill_inv (db', l).
Proof.
  intros Hinv Hfresh [(e & _ & [->|(iid & Hc & ->)])|(iid & Hc & _ & _ & Hi & ->)]%register_cases; [done|..];
    destruct (Hfresh _ Hc) as [Hf Hf2].
  - apply (kill_inv_core db); [done|done|]. intros r0 Hr0 Hoff c Hin E.
    apply (client_off_added db p env iid r0 Hf Hr0 Hoff); [|done]. simpl in *.
    destruct (re_cleanup env); [by apply elem_of_delete in Hin as [Hin _]|done].
  - destruct Hinv as [H1 H2 H3 H4]. simpl in *.
    assert (forall x, x ∈ rd_runners db -> rp_id x <> re_runner_id env /\ named t (rc_name p) x = false) as Hnew.
    { intros x Hx. pose proof (existsb_false _ _ Hi x Hx) as Hp. simpl in Hp. apply orb_false_iff in Hp as [Hp _].
      apply orb_false_iff in Hp as [Hp1 Hp2]. by apply bool_decide_eq_false in Hp1. }
    constructor; simpl; rewrite ?fmap_app; simpl.
    + apply NoDup_snoc; [done|]. intros (x & E & Hx)%list_elem_of_fmap. by destruct (Hnew x Hx) as [[] _].
    + apply NoDup_snoc; [done|]. intros (x & E & Hx)%list_elem_of_fmap. injection E as E1 E2.
      destruct (Hnew x Hx) as [_ Hn]. assert (named t (rc_name p) x = true) by (by apply named_true). congruence.
    + intros x Hx Hrev. apply elem_of_app in Hx as [Hx|Hx%list_elem_of_singleton]; [|by subst x].
      by apply (client_off_added db p env iid x Hf Hx), H3.
    + intros v Hv. specialize (H4 v Hv). destruct v as [t' n iid'|t' n]; destruct H4 as (x & Hx & Hr).
      * exists x. split; [|done]. simpl. apply elem_of_app. by left.
      * exists x. destruct Hr as (? & ? & Hoff). split_and!; try done; [simpl; apply elem_of_app; by left|].
        by apply (client_off_added db p env iid x Hf Hx).
Qed.

Lemma kill_mark t n now db db' r l :
  kill_inv (db, l) -> rv_disabled t n ∈ l -> mark_revoked t n now db = (db', r) -> kill_inv (db', l).
Proof.
  intros Hinv Hv H. unfold mark_revoked in H. destruct (get_runner db t n) as [row|] eqn:Hg; [|by injection H as <- _].
  destruct (rp_revoked row); injection H as <- _; [done|]. apply get_runner_Some in Hg as (Hrow & Ht & Hn).
  destruct Hinv as [H1 H2 H3 H4]. simpl in *.
  assert (client_off db (rp_keycloak_internal_id row)) as Hoff.
  { destruct (H4 _ Hv) as (x & Hx & Hxt & Hxn & Hoff).
    assert (x = row) as -> by (eapply (key_inj (fun r => (rp_tenant_id r, rp_name r))); [exact H2|done|done|congruence]). done. }
  assert (forall q, q ∈ update_where (fun r => bool_decide (rp_id r = rp_id row)) (set_revoked now) (rd_runners db) ->
    exists q0, q0 ∈ rd_runners db /\ rp_keycloak_internal_id q = rp_keycloak_internal_id q0 /\
      (q = q0 \/ q0 = row)) as Hback.
  { intros q Hq. apply elem_of_update in Hq as (q0 & Hq0 & ->). exists q0. split; [done|].
    case_bool_decide as E; [|by split; [|left]]. split; [done|right]. eapply (key_inj rp_id); [exact H1|exact Hq0|exact Hrow|exact E]. }
  constructor; simpl; rewrite ?update_where_keys by done; try done.
  - intros q Hq Hrev. apply Hback in Hq as (q0 & Hq0 & E & [->| ->]); [by apply (H3 q0)|]. by rewrite E.
  - intros v Hv'. specialize (H4 v Hv'). destruct v as [t' n' iid|t' n']; destruct H4 as (x & Hx & Hr).
    + exists (if bool_decide (rp_id x = rp_id row) then set_revoked now x else x). split; [apply elem_of_update; by exists x|].
      by case_bool_decide.
    + exists (if bool_decide (rp_id x = rp_id row) then set_revoked now x else x). split; [apply elem_of_update; by exists x|].
      by case_bool_decide.
Qed.

Lemma kill_step s s' : kill_inv s -> runner_step s s' -> kill_inv s'.
Proof.
  intros Hinv Hst. destruct Hst as [t sub p env db db' r l Hf H|t n iid db l H|t n iid answer db db' l Hv Hnf H|
    t n now db db' r l Hv H|o rid n wv ps now db db' r l H|o rid h db db' r l H|t n sub p id now db db' r l H|
    m now db l|t n db l|p db l].
  - by eapply kill_register.
  - destruct Hinv as [H1 H2 H3 H4]. constructor; try done. intros v [->|Hv]%elem_of_cons; [|by apply H4].
    unfold revoke_lookup in H. invert_ok. match goal with E : live_runner _ _ _ = Some _ |- _ => apply find_Some_iff in E as [Hr Hp] end.
    apply andb_true_iff in Hp as [Hp _]. apply named_true in Hp as [? ?]. simpl. eauto.
  - destruct answer; simpl in H; [| |done]; injection H as <-.
    + assert (kill_inv (set_clients (update_where (fun c => bool_decide (kc_internal_id c = iid))
         (fun c => {| kc_internal_id := kc_internal_id c; kc_client_id := kc_client_id c; kc_enabled := false;
                      kc_runner_id := kc_runner_id c |})) db, l)) as [K1 K2 K3 K4].
      { apply (kill_inv_core db); [done|done|]. intros r _ Hoff c Hc E. simpl in Hc. apply elem_of_update in Hc as (c0 & Hc0 & ->).
        destruct (bool_decide _); [done|]. by apply Hoff. }
      constructor; try done. intros v [->|Hv']%elem_of_cons; [|by apply K4].
      destruct (K4 _ Hv) as (r & Hr & ? & ? & Hi). exists r. split_and!; try done. intros c Hc E. simpl in Hc.
      apply elem_of_update in Hc as (c0 & Hc0 & ->). case_bool_decide as Hd; [done|]. congruence.
    + destruct Hinv as [K1 K2 K3 K4]. constructor; try done. intros v [->|Hv']%elem_of_cons; [|by apply K4].
      destruct (K4 _ Hv) as (r & Hr & ? & ? & Hi). exists r. split_and!; try done. intros c Hc E. exfalso.
      apply (Hnf eq_refl). rewrite <- Hi, <- E. by apply list_elem_of_fmap_2.
  - by eapply kill_mark.
  - unfold assert_runner_scope in H. destruct (get_runner _ _ _) as [row|]; [|by injection H as <- _].
    case_bool_decide; injection H as <- _; [|done]. apply (kill_inv_core db); [done|by apply update_core|done].
  - unfold runner_wire_version in H. destruct h as [v|]; simpl in H.
    + destruct (wire_version_pattern v); [|by injection H as <- _]. case_bool_decide; injection H as <- _; [done|].
      apply (kill_inv_core db); [done|by apply update_core|done].
    + by injection H as <- _.
  - apply grant_keeps in H as [E1 E2]. apply (kill_inv_core db); [done|by rewrite E1|]. intros q _. unfold client_off. by rewrite E2.
  - destruct (tick_keeps m now db) as [E1 E2]. apply (kill_inv_core db); [done|by rewrite E1|]. intros q _. unfold client_off. by rewrite E2.
  - by apply (kill_inv_core db).
  - apply (kill_inv_core db); [done|done|]. intros r _ Hoff c Hc. simpl in Hc. apply elem_of_delete in Hc as [Hc _]. by apply Hoff.
Qed.

(** The kill switch is thrown before a runner counts as revoked.  However
    registrations, revocations, heartbeats and grants interleave, the Keycloak
    client of every runner marked revoked is disabled or gone, so it gets no new
    token. *)
Theorem revoked_runners_get_no_tokens s r c :
  rtc runner_step (no_runners, []) s ->
  r ∈ rd_runners s.1 -> rp_revoked r = true ->
  c ∈ rd_clients s.1 -> kc_internal_id c = rp_keycloak_internal_id r -> kc_enabled c = false.
Proof.
  intros Hs Hr Hrev Hc E. assert (kill_inv s) as Hinv.
  { assert (kill_inv (no_runners, [])) as H0 by (constructor; simpl; [constructor..|set_solver|set_solver]).
    revert H0. clear -Hs. induction Hs as [|x y z Hxy _ IH]; [done|]. intros Hx. apply IH. by eapply kill_step. }
  by apply (ki_revoked _ Hinv r Hr Hrev c Hc).
Qed.

(** * The dead-man switch *)

Definition lapsed (cutoff : datetime) (db : RunnerDb) (m : AssignmentMark) : bool :=
  bool_decide (am_stale_at m = None) &&
  existsb (fun r => named (am_tenant_id m) (am_runner_name m) r && (rp_last_seen_at r <? cutoff)%Z) (rd_runners db).

Definition stale_audit (m : AssignmentMark) : RunnerAudit := {|
  ra_operator_sub := "system"; ra_tenant_id := am_tenant_id m; ra_path := GATEWAY_RUNNER_STALE_PATH;
  ra_runner := am_runner_name m |}.

Lemma lapsed_pairs_elem cutoff db m t :
  (m, t) ∈ lapsed_pairs cutoff db <-> m ∈ rd_marks db /\ am_stale_at m = None /\
    exists r, r ∈ rd_runners db /\ named (am_tenant_id m) (am_runner_name m) r = true /\
      (rp_last_seen_at r < cutoff)%Z /\ t = rp_last_seen_at r.
Proof.
  unfold lapsed_pairs. rewrite list_elem_of_bind. split.
  - intros (m0 & Hb & Hm0). apply elem_of_select in Hm0 as [Hm0 Hs]. apply list_elem_of_bind in Hb as (r & Hb & Hr).
    apply elem_of_select in Hr as [Hr Hp]. apply list_elem_of_singleton in Hb as [= -> ->]. to_prop. split_and!; try done.
    exists r. by split_and!.
  - intros (Hm & Hs & r & Hr & Hn & Hl & ->). exists m. split.
    + apply list_elem_of_bind. exists r. split; [by apply list_elem_of_singleton|]. apply elem_of_select. split; [done|].
      rewrite Hn. simpl. by apply Z.ltb_lt.
    + apply elem_of_select. split; [done|]. by apply bool_decide_eq_true.
Qed.

Lemma lapsed_iff cutoff db m : m ∈ rd_marks db -> lapsed cutoff db m = true <-> exists t, (m, t) ∈ lapsed_pairs cutoff db.
Proof.
  intros Hm. unfold lapsed. rewrite andb_true_iff, bool_decide_eq_true, existsb_exists. split.
  - intros [Hs (r & Hr & Hp)]. rewrite <- list_elem_of_In in Hr. to_prop. exists (rp_last_seen_at r). apply lapsed_pairs_elem.
    split_and!; try done. by exists r.
  - intros [t Ht]. apply lapsed_pairs_elem in Ht as (_ & Hs & r & Hr & Hn & Hl & _). split; [done|]. exists r.
    rewrite <- list_elem_of_In, Hn. split; [done|]. simpl. by apply Z.ltb_lt.
Qed.

(** With unique names a row lapses for one runner only. *)
Lemma lapsed_pairs_ids cutoff db :
  NoDup (am_id <$> rd_marks db) -> NoDup ((fun r => (rp_tenant_id r, rp_name r)) <$> rd_runners db) ->
  NoDup ((am_id ∘ fst) <$> lapsed_pairs cutoff db).
Proof.
  intros Hm Hn. unfold lapsed_pairs.
  assert (forall m, exists k, (select_where (fun r => named (am_tenant_id m) (am_runner_name m) r && (rp_last_seen_at r <? cutoff)%Z)
     (rd_runners db) ≫= fun r => [(m, rp_last_seen_at r)]) = k /\ (k = [] \/ exists t, k = [(m, t)])) as Hone.
  { intros m. eexists. split; [done|]. destruct (select_where _ _) as [|r [|r' rest]] eqn:Es; [by left|by right; eexists|].
    exfalso. pose proof (NoDup_select_where (fun r => (rp_tenant_id r, rp_name r)) (fun r => named (am_tenant_id m) (am_runner_name m) r &&
      (rp_last_seen_at r <? cutoff)%Z) (rd_runners db) Hn) as Hnd. rewrite Es in Hnd.
    assert (forall x, x ∈ r :: r' :: rest -> (rp_tenant_id x, rp_name x) = (am_tenant_id m, am_runner_name m)) as Hk.
    { intros x Hx. rewrite <- Es in Hx. apply elem_of_select in Hx as [_ Hx]. apply andb_true_iff in Hx as [Hx _].
      apply named_true in Hx as [-> ->]. done. }
    simpl in Hnd. apply NoDup_cons in Hnd as [Hnd _]. apply Hnd.
    rewrite (Hk r) by left. rewrite (Hk r') by (right; left). left. }
  induction (rd_marks db) as [|m l IH]; [constructor|]. simpl in Hm. apply NoDup_cons in Hm as [Hin Hm].
  unfold select_where in *. simpl. case_bool_decide as Hs; [|by apply IH].
  rewrite bind_cons, fmap_app. destruct (Hone m) as (k & -> & [->|(t & ->)]); [by apply IH|]. simpl.
  apply NoDup_cons. split; [|by apply IH]. intros (x & E & Hx)%list_elem_of_fmap. apply list_elem_of_bind in Hx as (m' & Hb & Hm').
  apply list_elem_of_bind in Hb as (r & Hb & _). apply list_elem_of_singleton in Hb as ->. simpl in E.
  apply Hin. rewrite E. apply list_elem_of_fmap_2. by apply elem_of_select in Hm' as [? _].
Qed.

Definition in_ids (l : list (AssignmentMark * datetime)) (m : AssignmentMark) : bool :=
  bool_decide (am_id m ∈ (am_id ∘ fst) <$> l).

Lemma flips_exact now l db acc :
  NoDup (am_id <$> rd_marks db) -> NoDup ((am_id ∘ fst) <$> l) ->
  (forall c, c ∈ l -> c.1 ∈ rd_marks db /\ am_stale_at c.1 = None) ->
  rd_marks (foldl (flip_one now) (db, acc) l).1 = update_where (in_ids l) (set_stale (Some now)) (rd_marks db) /\
  (foldl (flip_one now) (db, acc) l).2 = acc ++ (fst <$> l) /\
  rd_audit (foldl (flip_one now) (db, acc) l).1 = rd_audit db.
Proof.
  revert db acc. induction l as [|c l IH]; intros db acc Hm Hl Hin.
  - rewrite app_nil_r. split_and!; try done. symmetry. by apply update_where_none.
  - simpl in Hl. apply NoDup_cons in Hl as [Hc Hl]. destruct (Hin c) as [Hcm Hcs]; [left|]. cbn [foldl].
    set (p := fun m => bool_decide (am_id m = am_id c.1) && bool_decide (am_stale_at m = None)).
    assert (existsb p (rd_marks db) = true) as Hex
      by (apply (existsb_intro p _ c.1 Hcm); unfold p; by rewrite !bool_decide_true).
    assert (update_where p (set_stale (Some now)) (rd_marks db) =
            update_where (fun m => bool_decide (am_id m = am_id c.1)) (set_stale (Some now)) (rd_marks db)) as Hup.
    { apply update_where_ext. intros m Hmm. unfold p. case_bool_decide as E; [|done]. simpl.
      assert (m = c.1) as -> by (by eapply (key_inj am_id)). by apply bool_decide_eq_true. }
    assert (flip_one now (db, acc) c = (set_marks (update_where p (set_stale (Some now))) db, acc ++ [c.1])) as ->
      by (unfold flip_one; cbv zeta; fold p; change (rd_marks (db, acc).1) with (rd_marks db); by rewrite Hex).
    destruct (IH (set_marks (update_where p (set_stale (Some now))) db) (acc ++ [c.1])) as (E1 & E2 & E3).
    + simpl. by rewrite update_where_keys.
    + done.
    + intros x Hx. destruct (Hin x) as [Hxm Hxs]; [by right|]. split; [|done]. simpl. rewrite Hup.
      apply elem_of_update. exists x.1. split; [done|]. case_bool_decide as E; [|done]. exfalso. apply Hc.
      rewrite <- E. apply list_elem_of_fmap. by exists x.
    + rewrite E1, E2, E3. simpl. split_and!; [|by rewrite <- app_assoc|done]. rewrite Hup.
      unfold update_where. rewrite <- list_fmap_compose. apply list_fmap_ext. intros i m _. simpl. unfold in_ids. simpl.
      destruct (decide (am_id m = am_id c.1)) as [Ea|Ea].
      * rewrite (bool_decide_true (am_id m = am_id c.1)) by done.
        rewrite (bool_decide_true (am_id m ∈ _ :: _)) by (rewrite Ea; left).
        rewrite (bool_decide_false (am_id (set_stale _ m) ∈ _)); [done|]. simpl. by rewrite Ea.
      * rewrite (bool_decide_false (am_id m = am_id c.1)) by done.
        rewrite (bool_decide_ext (am_id m ∈ _ :: _) (am_id m ∈ (am_id ∘ fst) <$> l)); [done|].
        rewrite elem_of_cons. split; [intros [?|?]; done|by right].
Qed.

(** The dead-man switch is exact.  A tick marks precisely the fresh assignments
    whose runner was last seen before the threshold, leaves every other row as it
    was, and writes one audit row per mark; a runner that called within the
    threshold keeps its assignments, and a marked row is not marked again. *)
Theorem deadman_is_exact mult now db :
  NoDup (am_id <$> rd_marks db) -> NoDup ((fun r => (rp_tenant_id r, rp_name r)) <$> rd_runners db) ->
  let lapses := lapsed (now - threshold mult) db in
  rd_marks (deadman_tick mult now db) = update_where lapses (set_stale (Some now)) (rd_marks db) /\
  rd_audit (deadman_tick mult now db) ≡ₚ rd_audit db ++ (stale_audit <$> select_where lapses (rd_marks db)) /\
  (forall r m, r ∈ rd_runners db -> (now - threshold mult <= rp_last_seen_at r)%Z ->
     named (am_tenant_id m) (am_runner_name m) r = true -> lapses m = false).
Proof.
  intros Hm Hn lapses. set (cutoff := (now - threshold mult)%Z) in *.
  pose proof (merge_sort_Permutation seen_le (lapsed_pairs cutoff db)) as Hp.
  set (L := merge_sort seen_le (lapsed_pairs cutoff db)) in *.
  assert (NoDup ((am_id ∘ fst) <$> L)) as HL by (rewrite Hp; by apply lapsed_pairs_ids).
  assert (forall c, c ∈ L -> c.1 ∈ rd_marks db /\ am_stale_at c.1 = None) as Hin.
  { intros [m t] Hc. rewrite Hp in Hc. by apply lapsed_pairs_elem in Hc as (? & ? & _). }
  destruct (flips_exact now L db [] Hm HL Hin) as (E1 & E2 & E3).
  assert (forall m, m ∈ rd_marks db -> in_ids L m = lapses m) as Hids.
  { intros m Hmm. apply eq_true_iff_eq. unfold lapses. rewrite (lapsed_iff _ _ _ Hmm). unfold in_ids.
    rewrite bool_decide_eq_true, list_elem_of_fmap. setoid_rewrite Hp. split.
    - intros ([m' t] & E & Hc). simpl in E. exists t. apply lapsed_pairs_elem in Hc as Hc'. destruct Hc' as [Hm' _].
      by assert (m' = m) as <- by (by eapply (key_inj am_id)).
    - intros [t Ht]. by exists (m, t). }
  unfold deadman_tick. fold cutoff. fold L. destruct (foldl (flip_one now) (db, []) L) as [db1 fl].
  change (foldl _ db1 fl) with (foldl (fun db m => add_runner_audit (stale_audit m) db) db1 fl).
  destruct (audits_keep stale_audit fl db1) as (_ & _ & -> & ->). simpl in E1, E2, E3. rewrite E1, E2, E3. split_and!.
  - by apply update_where_ext.
  - apply Permutation_app_head. apply fmap_Permutation. apply NoDup_Permutation.
    + apply (NoDup_fmap_1 am_id). by rewrite <- list_fmap_compose.
    + apply (NoDup_fmap_1 am_id). by apply NoDup_select_where.
    + intros m. rewrite elem_of_select, list_elem_of_fmap. split.
      * intros ([m' t] & -> & Hc). simpl. rewrite Hp in Hc. apply lapsed_pairs_elem in Hc as Hc'. destruct Hc' as [Hm' _].
        split; [done|]. apply lapsed_iff; [done|]. by exists t.
      * intros [Hmm Hl]. apply lapsed_iff in Hl as [t Ht]; [|done]. exists (m, t). by rewrite Hp.
  - intros r m Hr Hseen Hnm. unfold lapses, lapsed. apply andb_false_iff. right. apply not_true_iff_false.
    rewrite existsb_exists. intros (x & Hx & Hpx). rewrite <- list_elem_of_In in Hx. apply andb_true_iff in Hpx as [Hxn Hxl].
    apply named_true in Hxn as [? ?], Hnm as [? ?]. apply Z.ltb_lt in Hxl.
    assert (x = r) as -> by (eapply (key_inj (fun r => (rp_tenant_id r, rp_name r))); [exact Hn|done|done|congruence]). lia.
Qed.

(** An accepted result clears the runner's own mark and no other. *)
Lemma clear_runner_stale_spec tenant_id name db m :
  m ∈ rd_marks (clear_runner_stale tenant_id name db) ->
  (am_tenant_id m = tenant_id /\ am_runner_name m = name -> am_stale_at m = None) /\
  (~ (am_tenant_id m = tenant_id /\ am_runner_name m = name) -> m ∈ rd_marks db).
Proof.
  simpl. rewrite elem_of_update. intros (m0 & Hm0 & ->). case_match eqn:E; simpl.
  - to_prop. split; [done|]. intros []. by split.
  - split; [|done]. intros [E1 E2]. rewrite E1, E2, !bool_decide_true in E by done. simpl in E. by to_prop.
Qed.

(** * A concrete runner *)

Section RunnerScene.
Definition w_env (create : KcCreate) : RegisterEnv := {|
  re_runner_id := "rid-1"; re_create := create; re_secret_read := true; re_vault := vault_written;
  re_cleanup := true; re_now := 5 |}.
Definition w_payload : RunnerPrincipalCreate := {| rc_name := "edge-1"; rc_owner_sub := None |}.
Definition w_registered : RunnerDb := (register "t1" "ann" w_payload (w_env (kc_created "kc-1")) no_runners).1.

Lemma register_all_or_nothing_witness : exists row,
  rd_runners w_registered = [row] /\ rp_name row = "edge-1" /\ load_runner_allowlist "t1" "edge-1" w_registered = [].
Proof.
  destruct (register "t1" "ann" w_payload (w_env (kc_created "kc-1")) no_runners) as [db r] eqn:E.
  pose proof (register_all_or_nothing "t1" "ann" w_payload (w_env (kc_created "kc-1")) no_runners db r) as H.
  destruct r as [row|e]; [|vm_compute in E; discriminate E].
  destruct H as (Hr & _ & _ & _ & _ & _ & Hl); [intros w Hw; by apply elem_of_nil in Hw|intros c Hc; by apply elem_of_nil in Hc|exact E|].
  assert (rp_name row = "edge-1") as Hn by (vm_compute in E; by injection E as _ <-). rewrite Hn in Hl.
  exists row. unfold w_registered. rewrite E. split; [exact Hr|]. split; [exact Hn|exact Hl].
Defined.

Definition w_disabled : RunnerDb := (disable_keycloak_client "kc-1" kc_disabled w_registered).1.
Definition w_revoked : RunnerDb := (mark_revoked "t1" "edge-1" 9 w_disabled).1.

Lemma revoked_runners_get_no_tokens_witness : exists r c,
  rd_runners w_revoked = [r] /\ rp_revoked r = true /\ rd_clients w_revoked = [c] /\ kc_enabled c = false.
Proof.
  assert (rtc runner_step (no_runners, []) (w_revoked, [rv_disabled "t1" "edge-1"; rv_found "t1" "edge-1" "kc-1"])) as Hs.
  { eapply rtc_l; [eapply (rs_register "t1" "ann" w_payload (w_env (kc_created "kc-1")) _ w_registered);
      [intros iid _; split; apply not_elem_of_nil|reflexivity]|].
    eapply rtc_l; [eapply (rs_lookup "t1" "edge-1" "kc-1"); reflexivity|].
    eapply rtc_l; [eapply (rs_disable "t1" "edge-1" "kc-1" kc_disabled _ w_disabled); [left|discriminate|reflexivity]|].
    eapply rtc_once. eapply (rs_mark "t1" "edge-1" 9 _ w_revoked); [left|reflexivity]. }
  eexists _, _. split; [reflexivity|]. split; [reflexivity|]. split; [reflexivity|].
  eapply (revoked_runners_get_no_tokens _ _ _ Hs); [left|reflexivity|left|reflexivity].
Defined.

Definition w_marked (seen : datetime) : RunnerDb := {|
  rd_runners := (fun r => set_seen "1" "sha256:x" seen r) <$> rd_runners w_registered;
  rd_allowlist := []; rd_clients := []; rd_audit := [];
  rd_marks := [{| am_id := "as-1"; am_tenant_id := "t1"; am_runner_name := "edge-1"; am_stale_at := None |}] |}.

Lemma deadman_is_exact_witness :
  (am_stale_at <$> rd_marks (deadman_tick 3 90000001 (w_marked 0))) = [Some 90000001%Z] /\
  (am_stale_at <$> rd_marks (deadman_tick 3 90000001 (w_marked 1))) = [None].
Proof.
  split.
  - destruct (deadman_is_exact 3 90000001 (w_marked 0)) as (-> & _ & _); [apply NoDup_singleton..|]. reflexivity.
  - destruct (deadman_is_exact 3 90000001 (w_marked 1)) as (-> & _ & _); [apply NoDup_singleton..|]. reflexivity.
Defined.
End RunnerScene.
