(* ===== verification/GatewayMint.v ===== *)
(** The mint of gateway commands ([operations/gateway_commands.py]): the ladder a call
    passes before a command for a runner exists, and the signature of a remote write.

    The ladder reads the catalogue, the approvals, the runners and the policy gate,
    and writes the approvals and the queue; [MintDb] holds the tables of all of
    them.  It is one transaction of its caller, who commits: an exception rolls it
    back, a refusal leaves what it found. *)

From S2P Require Import Prelude Json Identity Permissions Catalog OpPolicy Lookup ServiceGrants PolicyGate GatewayQueue SecretNames Approvals RunnerPrincipals WireText WorkItemSigning.

Inductive MintRefusalCode :=
| DESCRIPTOR_UNKNOWN
| INVALID_PARAMS
| INVALID_OP_SCHEMA
| OP_NOT_SAFE
| REMOTE_WRITE_GATE_UNSATISFIED
| REMOTE_WRITE_NOT_ALLOWLISTED
| REMOTE_WRITE_SIGNING_UNAVAILABLE
| RUNNER_REVOKED
| MINT_POLICY_DENIED
| MINT_NEEDS_APPROVAL.
#[export] Instance MintRefusalCode_eq_dec : EqDecision MintRefusalCode.
Proof. solve_decision. Defined.

(** [MintResult]: exactly one of the command and the refusal code is set. *)
Inductive MintResult :=
| minted (command : GatewayCommand) (mint_audit_id : uuid)
| refused (code : MintRefusalCode).

(** The mint audit row ([_write_gateway_audit_row]). *)
Record MintAudit := {
  ma_id : uuid;
  ma_operator_sub : string;
  ma_tenant_id : uuid;
  ma_target_id : option uuid;
  ma_command_id : uuid;
  ma_op_id : string;
  ma_connector_id : string;
  ma_runner_id : string;
  ma_params_hash : string;
  ma_approval_request_id : option uuid;
  ma_signed : bool;
}.

Record MintDb := {
  md_catalog : CatalogDb;
  md_permissions : list AgentPermission;
  md_scopes : list ServicePrincipalReadScope;
  md_grants : GrantsDb;
  md_approvals : ApprovalDb;
  md_runners : RunnerDb;
  md_gateway : GatewayDb;
  md_audit : list MintAudit;
}.

Inductive MintError := mint_lookup_error | mint_enqueue_error (e : GatewayError).

(** The tables a mint writes. *)
Definition set_mint (approvals : ApprovalDb) (gateway : GatewayDb) (audit : list MintAudit) (db : MintDb) : MintDb := {|
  md_catalog := md_catalog db; md_permissions := md_permissions db; md_scopes := md_scopes db;
  md_grants := md_grants db; md_approvals := approvals; md_runners := md_runners db; md_gateway := gateway;
  md_audit := audit |}.

Record MintArgs := {
  mn_operator : Operator;
  mn_connector_id : string;
  mn_op_id : string;
  mn_target : option Target;
  mn_params : json_dict;
  mn_runner_id : string;
  mn_target_descriptor : option json_dict;
  mn_expires_at : option datetime;
}.

(** The fresh ids of a mint, the readings of its clock and the actor bound to the
    context. *)
Record MintEnv := {
  me_command_id : uuid;
  me_audit_id : uuid;
  me_now : datetime;
  me_now' : datetime;
  me_actor : option string;
}.

Definition raw_target_id (target : option Target) : option uuid := target ≫= tg_id.

(** [_target_scope]. *)
Definition target_scope_of (target : option Target) : string := default TARGETLESS_SCOPE (raw_target_id target).

(** ** Validation *)

Inductive SchemaVerdict := schema_ok | schema_violations | schema_unresolvable_ref.

Section Mint.
(** Libraries and other parts of the process: the packages installed, whether a
    connector's code is present, the JSON Schema validator, the registry of safe
    writes, and the evidence of delete grants. *)
Context (installed : list string) (row_code_missing : option uuid -> EndpointDescriptor -> bool).
Context (iter_errors : json -> json_dict -> SchemaVerdict).
Context (is_safe_write : string -> bool).
Context (gst : GrantSettings).
Context (binding : Operator -> EndpointDescriptor -> option Target -> string -> string -> json_dict ->
           option json_dict).
Context (effect : Operator -> EndpointDescriptor -> option Target -> string -> json_dict -> json).
(** Hashes, keys and signatures. *)
Context (canonical_params : json_dict -> string) (sha256 : string -> string).
Context (hmac_sha256 : string -> string -> string) (derive_key : string -> string) `{SignatureScheme}.
Context (st : ApprovalSettings) (floors : gmap string TenantRole).
Context (satellite_write_signing_key : string).
(** [compute_audit_params_hash], over the masked params. *)
Context (audit_params_hash : json_dict -> string).

(** [validate_params]: an empty schema takes everything. *)
Definition validate_params (parameter_schema : json) (params : json_dict) : SchemaVerdict :=
  match parameter_schema with
  | JDict [] => schema_ok
  | _ => iter_errors parameter_schema params
  end.

Definition refuse_unvalidatable_params (d : EndpointDescriptor) (params : json_dict) : option MintRefusalCode :=
  match validate_params (ed_parameter_schema d) params with
  | schema_ok => None
  | schema_violations => Some INVALID_PARAMS
  | schema_unresolvable_ref => Some INVALID_OP_SCHEMA
  end.

(** ** The tail of both tiers *)

Definition mint_audit_row (a : MintArgs) (env : MintEnv) (command : GatewayCommand)
  (approval_request_id : option uuid) (signed : bool) : MintAudit := {|
  ma_id := me_audit_id env; ma_operator_sub := op_sub (mn_operator a);
  ma_tenant_id := op_tenant_id (mn_operator a); ma_target_id := raw_target_id (mn_target a);
  ma_command_id := gc_id command; ma_op_id := mn_op_id a; ma_connector_id := mn_connector_id a;
  ma_runner_id := mn_runner_id a; ma_params_hash := audit_params_hash (mn_params a);
  ma_approval_request_id := approval_request_id; ma_signed := signed |}.

Definition enqueue_request (a : MintArgs) (env : MintEnv) (safety_level : string) : EnqueueRequest := {|
  en_tenant_id := op_tenant_id (mn_operator a); en_runner_id := mn_runner_id a; en_op_id := mn_op_id a;
  en_params := mn_params a; en_enqueued_by_sub := op_sub (mn_operator a);
  en_target_descriptor := mn_target_descriptor a;
  en_params_hash := Some (params_digest sha256 (mn_params a)); en_expires_at := mn_expires_at a;
  en_mint_audit_id := Some (me_audit_id env); en_safety_level := safety_level |}.

Definition set_signature (s : string) (c : GatewayCommand) : GatewayCommand := {|
  gc_id := gc_id c; gc_tenant_id := gc_tenant_id c; gc_runner_id := gc_runner_id c;
  gc_op_id := gc_op_id c; gc_params := gc_params c; gc_target_descriptor := gc_target_descriptor c;
  gc_status := gc_status c; gc_result := gc_result c; gc_error := gc_error c;
  gc_enqueued_by_sub := gc_enqueued_by_sub c; gc_enqueued_at := gc_enqueued_at c;
  gc_delivered_at := gc_delivered_at c; gc_completed_at := gc_completed_at c;
  gc_params_hash := gc_params_hash c; gc_expires_at := gc_expires_at c;
  gc_consumed_at := gc_consumed_at c; gc_mint_audit_id := gc_mint_audit_id c; gc_signature := Some s;
  gc_safety_level := gc_safety_level c; gc_unreported_alarm_at := gc_unreported_alarm_at c |}.

Definition finalize_mint (a : MintArgs) (env : MintEnv) (safety_level : string) (signing_key : option string)
  (approval_request_id : option uuid) (approvals : ApprovalDb) (db : MintDb) : res MintError (MintDb * MintResult) :=
  match enqueue_command (params_digest sha256) (enqueue_request a env safety_level) (me_command_id env)
          (me_now env) (me_now' env) (md_gateway db) with
  | (_, Raise e) => Raise (mint_enqueue_error e)
  | (gw, Ok command) =>
      let '(gw', command') :=
        match signing_key with
        | None => (gw, command)
        | Some key =>
            let signature := sign_remote_write_item key (mn_op_id a) (params_digest sha256 (mn_params a))
                               (target_scope_of (mn_target a)) (gc_expires_at command) in
            (set_commands (update_where (fun c => bool_decide (gc_id c = gc_id command)) (set_signature signature)) gw,
             set_signature signature command)
        end in
      let row := mint_audit_row a env command' approval_request_id (bool_decide (is_Some signing_key)) in
      Ok (set_mint approvals gw' (md_audit db ++ [row]) db, minted command' (me_audit_id env))
  end.

(** ** The remote-write tier *)

(** [_approval_refusal_reason] is [None] for the approval returned here. *)
Definition screen_remote_write (a : MintArgs) (db : MintDb) : MintRefusalCode + (ApprovalRequest * string) :=
  match find_remote_write_approval canonical_params sha256 hmac_sha256 derive_key st
          (op_tenant_id (mn_operator a)) (mn_op_id a) (raw_target_id (mn_target a)) (mn_params a)
          (md_approvals db) with
  | None => inl REMOTE_WRITE_GATE_UNSATISFIED
  | Some approval =>
      if approval_release_changed st approval then inl REMOTE_WRITE_GATE_UNSATISFIED
      else match load_signing_key satellite_write_signing_key with
      | Raise _ => inl REMOTE_WRITE_SIGNING_UNAVAILABLE
      | Ok key =>
          let allowlist := load_runner_allowlist (op_tenant_id (mn_operator a)) (mn_runner_id a) (md_runners db) in
          match evaluate_remote_write_gate (mn_op_id a) allowlist (target_scope_of (mn_target a)) with
          | gate_permitted => inr (approval, key)
          | _ => inl REMOTE_WRITE_NOT_ALLOWLISTED
          end
      end
  end.

(** ** The ladder *)

Definition op_key (connector_id op_id : string) : OpKey :=
  let '(product, version, impl_id) := parse_connector_id connector_id in
  {| k_product := product; k_version := version; k_impl_id := impl_id; k_op_id := op_id |}.

(** The gate is asked without a connector id, so no standing grant is consulted. *)
Definition mint_gate_call (a : MintArgs) (env : MintEnv) (d : EndpointDescriptor) : GateCall := {|
  gk_operator := mn_operator a; gk_descriptor := d; gk_target := mn_target a; gk_connector_id := None;
  gk_preview_hash := None; gk_params := None; gk_decide_only := false; gk_actor := me_actor env;
  gk_now := me_now env |}.

Definition mint_policy (a : MintArgs) (env : MintEnv) (d : EndpointDescriptor) (db : MintDb)
  : GrantsDb * (PermissionVerdict * option string) :=
  policy_gate_db gst binding effect (md_permissions db) (md_scopes db) floors (mint_gate_call a env d) (md_grants db).

(** What the reads of the ladder decide.  Between them and the writes other
    transactions may commit. *)
Inductive MintPlan :=
| plan_refuse (code : MintRefusalCode)
| plan_safe (safety_level : string)
| plan_write (safety_level : string) (approval : ApprovalRequest) (signing_key : string).

Definition mint_decide (a : MintArgs) (env : MintEnv) (db : MintDb) : res MintError MintPlan :=
  match lookup_descriptor installed row_code_missing (md_catalog db) (Some (op_tenant_id (mn_operator a)))
          (op_key (mn_connector_id a) (mn_op_id a)) with
  | Raise _ => Raise mint_lookup_error
  | Ok None => Ok (plan_refuse DESCRIPTOR_UNKNOWN)
  | Ok (Some d) =>
      match refuse_unvalidatable_params d (mn_params a) with
      | Some code => Ok (plan_refuse code)
      | None =>
          match classify_satellite_tier is_safe_write (ed_safety_level d) (mn_op_id a) with
          | TIER_EXCLUDED => Ok (plan_refuse OP_NOT_SAFE)
          | TIER_REMOTE_WRITE =>
              if runner_is_revoked (op_tenant_id (mn_operator a)) (mn_runner_id a) (md_runners db)
              then Ok (plan_refuse RUNNER_REVOKED)
              else match screen_remote_write a db with
                   | inl code => Ok (plan_refuse code)
                   | inr (approval, key) => Ok (plan_write (ed_safety_level d) approval key)
                   end
          | TIER_SAFE =>
              match (mint_policy a env d db).2.1 with
              | AUTO_EXECUTE => Ok (plan_safe (ed_safety_level d))
              | NEEDS_APPROVAL => Ok (plan_refuse MINT_NEEDS_APPROVAL)
              | DENY => Ok (plan_refuse MINT_POLICY_DENIED)
              end
          end
      end
  end.

(** The writes.  A claim of the approval that another mint won first refuses. *)
Definition mint_apply (a : MintArgs) (env : MintEnv) (plan : MintPlan) (db : MintDb)
  : res MintError (MintDb * MintResult) :=
  match plan with
  | plan_refuse code => Ok (db, refused code)
  | plan_safe level => finalize_mint a env level None None (md_approvals db) db
  | plan_write level approval key =>
      match bind_approval approval (me_now env) (md_approvals db) with
      | None => Ok (db, refused REMOTE_WRITE_GATE_UNSATISFIED)
      | Some approvals => finalize_mint a env level (Some key) (Some (ar_id approval)) approvals db
      end
  end.

Definition mint_gateway_command (a : MintArgs) (env : MintEnv) (db : MintDb) : res MintError (MintDb * MintResult) :=
  plan ← mint_decide a env db;
  mint_apply a env plan db.
End Mint.
