(* ===== verification/GatewayMintProofs.v ===== *)
(** Theorems about the mint of gateway commands ([GatewayMint]): what every minted
    command had behind it, and that over every interleaving of mints with the rest
    of the approval queue each remote write has an approval of its own. *)

From S2P Require Import Prelude Json Identity Permissions Catalog OpPolicy Lookup ServiceGrants PolicyGate GatewayQueue SecretNames Approvals ApprovalProofs ApprovalTheorems RunnerPrincipals WireText WorkItemSigning GatewayMint.



Section MintFacts.
Context (installed : list string) (row_code_missing : option uuid -> EndpointDescriptor -> bool).
Context (iter_errors : json -> json_dict -> SchemaVerdict).
Context (is_safe_write : string -> bool).
Context (gst : GrantSettings).
Context (binding : Operator -> EndpointDescriptor -> option Target -> string -> string -> json_dict ->
           option json_dict).
Context (effect : Operator -> EndpointDescriptor -> option Target -> string -> json_dict -> json).
Context (canonical_params : json_dict -> string) (sha256 : string -> string).
Context (hmac_sha256 : string -> string -> string) (derive_key : string -> string) `{SignatureScheme}.
Context (st : ApprovalSettings) (floors : gmap string TenantRole).
Context (satellite_write_signing_key : string).
Context (audit_params_hash : json_dict -> string).

Abbreviation decide_mint := (mint_decide installed row_code_missing iter_errors is_safe_write gst binding effect
  canonical_params sha256 hmac_sha256 derive_key st floors satellite_write_signing_key).
Abbreviation apply_mint := (mint_apply sha256 audit_params_hash).
Abbreviation mint := (mint_gateway_command installed row_code_missing iter_errors is_safe_write gst binding effect
  canonical_params sha256 hmac_sha256 derive_key st floors satellite_write_signing_key audit_params_hash).
Abbreviation candidates := (params_hash_candidates canonical_params sha256 hmac_sha256 derive_key st).

(** The command a mint adds. *)
Definition mint_signature (a : MintArgs) (key : string) (expires_at : datetime) : string :=
  sign_remote_write_item key (mn_op_id a) (params_digest sha256 (mn_params a)) (target_scope_of (mn_target a)) expires_at.

Definition minted_command (a : MintArgs) (env : MintEnv) (level : string) (key : option string) : GatewayCommand :=
  let c := new_command (params_digest sha256) (enqueue_request sha256 a env level) (me_command_id env)
             (me_now env) (me_now' env) in
  match key with Some k => set_signature (mint_signature a k (gc_expires_at c)) c | None => c end.

Lemma finalize_Ok a env level key approval_id approvals db db' r :
  finalize_mint sha256 audit_params_hash a env level key approval_id approvals db = Ok (db', r) ->
  let c := minted_command a env level key in
  r = minted c (me_audit_id env) /\
  me_command_id env ∉ gc_id <$> gw_commands (md_gateway db) /\
  db' = set_mint approvals (set_commands (fun l => l ++ [c]) (md_gateway db))
          (md_audit db ++ [mint_audit_row audit_params_hash a env c approval_id (bool_decide (is_Some key))]) db.
Proof.
  unfold finalize_mint, enqueue_command. rewrite read_bind. unfold guard_or.
  case_bool_decide as Hid; [|done]. simpl. destruct key as [k|]; intros [= <- <-]; split_and!; try done.
  unfold set_mint, set_commands. simpl. do 2 f_equal. unfold update_where. rewrite fmap_app. f_equal.
  - change (update_where (fun c => bool_decide (gc_id c = me_command_id env))
      (set_signature (mint_signature a k (bound_capability_expiry (mn_expires_at a) (me_now' env))))
      (gw_commands (md_gateway db)) = gw_commands (md_gateway db)).
    apply update_where_none. intros x Hx. apply bool_decide_eq_false. intros He. apply Hid.
    apply list_elem_of_fmap. by exists x.
  - simpl. by rewrite bool_decide_true.
Qed.

(** What the reads found out, per tier.  The policy gate, asked about this mint on
    the tables of its transaction, lets it run at once; so the permissions of an
    agent that asks, and of the agent a run acts through, permit the operation, and
    any other caller needs no approval and no grant. *)
Record safe_mint (a : MintArgs) (env : MintEnv) (d : EndpointDescriptor) (db : MintDb) : Prop := {
  sm_level : ed_safety_level d = "safe";
  sm_read : is_safe_write (mn_op_id a) = false;
  sm_gate : exists k reason, gk_operator k = mn_operator a /\ gk_descriptor k = d /\ gk_target k = mn_target a /\
    gk_connector_id k = None /\ gk_actor k = me_actor env /\ gk_now k = me_now env /\
    policy_gate_db gst binding effect (md_permissions db) (md_scopes db) floors k (md_grants db) =
      (md_grants db, (AUTO_EXECUTE, reason)) /\
    (op_principal_kind (mn_operator a) = AGENT -> agent_entitled (md_permissions db) (mn_operator a) k) /\
    (forall actor, me_actor env = Some actor -> agent_entitled (md_permissions db) (acting_agent actor (mn_operator a)) k) /\
    (op_principal_kind (mn_operator a) <> AGENT -> entitled (md_scopes db) floors k);
}.

Record write_mint (a : MintArgs) (d : EndpointDescriptor) (q : ApprovalRequest) (key : string) (db : MintDb) : Prop := {
  wm_level : ed_safety_level d = "caution";
  wm_live : runner_is_revoked (op_tenant_id (mn_operator a)) (mn_runner_id a) (md_runners db) = false;
  wm_found : find_remote_write_approval canonical_params sha256 hmac_sha256 derive_key st
    (op_tenant_id (mn_operator a)) (mn_op_id a) (raw_target_id (mn_target a)) (mn_params a) (md_approvals db) = Some q;
  wm_release : approval_release_changed st q = false;
  wm_key : load_signing_key satellite_write_signing_key = Ok key;
  wm_allowed : exists e, e ∈ load_runner_allowlist (op_tenant_id (mn_operator a)) (mn_runner_id a) (md_runners db) /\
    entry_admits (mn_op_id a) (target_scope_of (mn_target a)) e = true;
}.

Lemma gate_permitted_iff op l scope :
  evaluate_remote_write_gate op l scope = gate_permitted <-> exists e, e ∈ l /\ entry_admits op scope e = true.
Proof.
  unfold evaluate_remote_write_gate. destruct (existsb _ l) eqn:He.
  - split; [|done]. intros _. apply existsb_exists in He as (e & He & Ha). exists e. by rewrite list_elem_of_In.
  - split; [by destruct l|]. intros (e & He0 & Ha). by rewrite (existsb_intro _ l e) in He.
Qed.

Lemma classify_tier level op :
  match classify_satellite_tier is_safe_write level op with
  | TIER_SAFE => level = "safe" /\ is_safe_write op = false
  | TIER_REMOTE_WRITE => level = "caution"
  | TIER_EXCLUDED => (level = "safe" /\ is_safe_write op = true) \/ (level <> "safe" /\ level <> "caution")
  end.
Proof.
  unfold classify_satellite_tier. case_bool_decide as H1.
  - destruct (is_safe_write op) eqn:E; auto.
  - case_bool_decide as H2; auto.
Qed.

Lemma screen_Ok a db q key :
  screen_remote_write canonical_params sha256 hmac_sha256 derive_key st satellite_write_signing_key a db = inr (q, key) ->
  find_remote_write_approval canonical_params sha256 hmac_sha256 derive_key st
    (op_tenant_id (mn_operator a)) (mn_op_id a) (raw_target_id (mn_target a)) (mn_params a) (md_approvals db) = Some q /\
  approval_release_changed st q = false /\ load_signing_key satellite_write_signing_key = Ok key /\
  exists e, e ∈ load_runner_allowlist (op_tenant_id (mn_operator a)) (mn_runner_id a) (md_runners db) /\
    entry_admits (mn_op_id a) (target_scope_of (mn_target a)) e = true.
Proof.
  unfold screen_remote_write. destruct (find_remote_write_approval _ _ _ _ _ _ _ _ _ _) as [x|]; [|done].
  destruct (approval_release_changed st x) eqn:Hr; [done|].
  destruct (load_signing_key _) as [k|]; [|done].
  destruct (evaluate_remote_write_gate _ _ _) eqn:Hg; [|done..]. intros [= <- <-].
  apply gate_permitted_iff in Hg. by split_and!.
Qed.

Lemma gate_of_mint a env d db :
  (mint_policy gst binding effect floors a env d db).2.1 = AUTO_EXECUTE ->
  ed_safety_level d = "safe" -> is_safe_write (mn_op_id a) = false -> safe_mint a env d db.
Proof.
  unfold mint_policy, policy_gate_db. intros Hv Hl Hw.
  destruct (policy_gate _ _ _ _ _) as [s' [v r]] eqn:Hg. simpl in Hv. subst v.
  pose proof Hg as (H1 & H2 & H3)%auto_execute_spec.
  assert (s' = md_grants db /\ (op_principal_kind (mn_operator a) <> AGENT -> entitled (md_scopes db) floors (mint_gate_call a env d)))
    as [-> He].
  { destruct (decide (op_principal_kind (mn_operator a) = AGENT)) as [Hk|Hk].
    - by destruct (H1 Hk) as [-> _].
    - destruct (H3 Hk) as [[-> ?%runs_entitled]|(_ & _ & conn & _ & Hc & _)]; done. }
  constructor; [done|done|]. exists (mint_gate_call a env d), r. split_and!; try done. intros Hk. by apply H1.
Qed.

(** A plan to mint has a visible, enabled descriptor whose schema takes the params,
    and what its tier asks for. *)
Lemma decide_Ok a env db plan :
  decide_mint a env db = Ok plan ->
  match plan with
  | plan_refuse _ => True
  | plan_safe level => exists d, lookup_descriptor installed row_code_missing (md_catalog db)
        (Some (op_tenant_id (mn_operator a))) (op_key (mn_connector_id a) (mn_op_id a)) = Ok (Some d) /\
      validate_params iter_errors (ed_parameter_schema d) (mn_params a) = schema_ok /\
      level = ed_safety_level d /\ safe_mint a env d db
  | plan_write level q key => exists d, lookup_descriptor installed row_code_missing (md_catalog db)
        (Some (op_tenant_id (mn_operator a))) (op_key (mn_connector_id a) (mn_op_id a)) = Ok (Some d) /\
      validate_params iter_errors (ed_parameter_schema d) (mn_params a) = schema_ok /\
      level = ed_safety_level d /\ write_mint a d q key db
  end.
Proof.
  unfold mint_decide. destruct (lookup_descriptor _ _ _ _ _) as [[d|]|]; [|by intros [= <-]|done].
  unfold refuse_unvalidatable_params. destruct (validate_params _ _ _) eqn:Hvp; [|by intros [= <-]..].
  pose proof (classify_tier (ed_safety_level d) (mn_op_id a)) as Htier.
  destruct (classify_satellite_tier _ _ _).
  - destruct Htier as [Hl Hw]. destruct (mint_policy _ _ _ _ _ _ _ _).2.1 eqn:Hv; intros [= <-]; [|done..].
    exists d. split_and!; try done. by apply gate_of_mint.
  - destruct (runner_is_revoked _ _ _) eqn:Hrev; [by intros [= <-]|].
    destruct (screen_remote_write _ _ _ _ _ _ _ _) as [c|[q key]] eqn:Hs; intros [= <-]; [done|].
    apply screen_Ok in Hs as (? & ? & ? & ?). exists d. by split_and!.
  - by intros [= <-].
Qed.


Lemma omap_inj {A B} (f : A -> option B) l x y b :
  NoDup (omap f l) -> x ∈ l -> y ∈ l -> f x = Some b -> f y = Some b -> x = y.
Proof.
  intros Hnd Hx Hy Ex Ey. induction l as [|z l IH]; [by apply elem_of_nil in Hx|]. simpl in Hnd.
  apply elem_of_cons in Hx as [->|Hx], Hy as [->|Hy]; [done|..].
  - exfalso. rewrite Ex in Hnd. apply NoDup_cons in Hnd as [Hn _]. apply Hn, list_elem_of_omap. by exists y.
  - exfalso. rewrite Ey in Hnd. apply NoDup_cons in Hnd as [Hn _]. apply Hn, list_elem_of_omap. by exists x.
  - apply IH; [|done..]. destruct (f z); [by apply NoDup_cons in Hnd as [_ ?]|done].
Qed.

(** * One mint *)


(** * Every interleaving

    Mints read and write in two steps; between them the approval queue, other mints,
    the runners' claims and reports and the sweep go on, and the tables a mint only
    reads may change at will. *)

Context (is_credential_write : string -> bool).
Abbreviation queue_step := (aq_step canonical_params sha256 hmac_sha256 derive_key st floors is_credential_write).

Record mint_state := { ms_db : MintDb; ms_found : list ApprovalRequest; ms_plans : list (MintArgs * MintEnv * MintPlan) }.

Definition ms_queue (s : mint_state) : aq_state := {| qs_db := md_approvals (ms_db s); qs_found := ms_found s |}.

Definition found_by (plan : MintPlan) : list ApprovalRequest := match plan with plan_write _ q _ => [q] | _ => [] end.

Definition with_approvals (ap : ApprovalDb) (db : MintDb) : MintDb := set_mint ap (md_gateway db) (md_audit db) db.
Definition with_gateway (gw : GatewayDb) (db : MintDb) : MintDb := set_mint (md_approvals db) gw (md_audit db) db.

Inductive mint_step : mint_state -> mint_state -> Prop :=
| mst_queue db f plans ids q' :
    queue_step {| qs_db := md_approvals db; qs_found := f |} ids q' ->
    mint_step {| ms_db := db; ms_found := f; ms_plans := plans |}
              {| ms_db := with_approvals (qs_db q') db; ms_found := qs_found q'; ms_plans := plans |}
| mst_decide db f plans a env plan :
    decide_mint a env db = Ok plan ->
    mint_step {| ms_db := db; ms_found := f; ms_plans := plans |}
              {| ms_db := db; ms_found := found_by plan ++ f; ms_plans := (a, env, plan) :: plans |}
| mst_apply db f plans a env plan db' r :
    (a, env, plan) ∈ plans -> apply_mint a env plan db = Ok (db', r) ->
    mint_step {| ms_db := db; ms_found := f; ms_plans := plans |}
              {| ms_db := db'; ms_found := f; ms_plans := plans |}
| mst_gateway db f plans evs gw' :
    gw_step (params_digest sha256) (md_gateway db) evs gw' ->
    gc_id <$> gw_commands gw' = gc_id <$> gw_commands (md_gateway db) ->
    mint_step {| ms_db := db; ms_found := f; ms_plans := plans |}
              {| ms_db := with_gateway gw' db; ms_found := f; ms_plans := plans |}
| mst_other db f plans db' :
    md_approvals db' = md_approvals db -> md_gateway db' = md_gateway db -> md_audit db' = md_audit db ->
    mint_step {| ms_db := db; ms_found := f; ms_plans := plans |}
              {| ms_db := db'; ms_found := f; ms_plans := plans |}.

Definition mint_start (db : MintDb) : Prop :=
  md_approvals db = qs_db empty_queue /\ gw_commands (md_gateway db) = [] /\ md_audit db = [].

Definition mint_reachable (s : mint_state) : Prop :=
  exists db, mint_start db /\ rtc mint_step {| ms_db := db; ms_found := []; ms_plans := [] |} s.

(** The parts of a command that no later step changes. *)
Definition capability (c : GatewayCommand) :=
  (gc_id c, gc_tenant_id c, gc_runner_id c, gc_op_id c, (gc_params c, gc_params_hash c),
   (gc_expires_at c, gc_signature c, gc_safety_level c), (gc_mint_audit_id c, gc_target_descriptor c)).

Lemma update_capability p f l : (forall c, capability (f c) = capability c) ->
  capability <$> update_where p f l = capability <$> l.
Proof.
  intros Hf. unfold update_where. rewrite <- list_fmap_compose. apply list_fmap_ext. intros i c _. simpl.
  destruct (p c); [apply Hf|done].
Qed.

Lemma alarm_capability now acc c :
  capability <$> gw_commands (fst (alarm_one now acc c)) = capability <$> gw_commands (fst acc).
Proof. unfold alarm_one, conditional_update. simpl. by apply update_capability. Qed.

Lemma tick_capability now db :
  capability <$> gw_commands (fst (unreported_tick now db)) = capability <$> gw_commands db.
Proof.
  unfold unreported_tick. generalize (merge_sort expires_le (select_where (unreported now) (gw_commands db))).
  intros l. change (capability <$> gw_commands db) with (capability <$> gw_commands (fst (db, @nil uuid))).
  generalize (db, @nil uuid). induction l as [|c l IH]; intros acc; [done|]. simpl. by rewrite IH, alarm_capability.
Qed.

Lemma accept_capability sub t r id outcome result error now now' db db' x :
  accept_command_result sub t r id outcome result error now now' db = (db', x) ->
  capability <$> gw_commands db' = capability <$> gw_commands db.
Proof.
  unfold accept_command_result. destruct (_ ≫= _) as [[db2 row]|e] eqn:E; intros [= <- <-]; [|done].
  apply bind_Ok in E as ([db1 c1] & H1 & H2). unfold consume_command in H1. unfold record_result in H2. invert_ok.
  unfold conditional_update in *. split_matches; simplify_eq/=. by rewrite !update_capability.
Qed.

Lemma gw_step_capability db evs db' :
  gw_step (params_digest sha256) db evs db' -> gc_id <$> gw_commands db' = gc_id <$> gw_commands db ->
  capability <$> gw_commands db' = capability <$> gw_commands db.
Proof.
  intros Hst Hids. destruct Hst as [rq id now now' db db' c He| | | | |].
  - exfalso. apply (f_equal length) in Hids. unfold enqueue_command in He. rewrite read_bind in He.
    destruct (guard_or _ _); [|done]. rewrite commit_bind in He. injection He as <- _.
    simpl in Hids. rewrite fmap_app, length_app in Hids. simpl in Hids. lia.
  - unfold claim_flip, conditional_update in *. simplify_eq/=. by apply update_capability.
  - by destruct (claim_flip_lost _ _ _ _ H0) as [-> _].
  - by eapply accept_capability.
  - by eapply accept_capability.
  - apply tick_capability.
Qed.

(** ** The invariant *)

Definition authorised_by (c : GatewayCommand) (r : ApprovalRequest) : Prop :=
  ar_status r = aq_approved /\ is_Some (ar_resumed_at r) /\ ar_tenant_id r = gc_tenant_id c /\
  pk_op_id (ar_call r) = gc_op_id c /\ pk_params_hash (ar_call r) ∈ candidates (gc_params c) /\
  gc_params_hash c = params_digest sha256 (gc_params c) /\
  exists key, load_signing_key satellite_write_signing_key = Ok key /\
    gc_signature c = Some (sign_remote_write_item key (gc_op_id c) (gc_params_hash c)
                             (default TARGETLESS_SCOPE (pk_target_id (ar_call r))) (gc_expires_at c)).

Definition used_for (db : MintDb) (r : ApprovalRequest) (c : GatewayCommand) : Prop :=
  exists row, row ∈ md_audit db /\ ma_command_id row = gc_id c /\ ma_approval_request_id row = Some (ar_id r).

Definition plan_ok (a : MintArgs) (plan : MintPlan) (found : list ApprovalRequest) : Prop :=
  match plan with
  | plan_refuse _ => True
  | plan_safe level => level ∉ REMOTE_WRITE_SAFETY_LEVELS
  | plan_write level q key => q ∈ found /\ ar_tenant_id q = op_tenant_id (mn_operator a) /\
      pk_op_id (ar_call q) = mn_op_id a /\ pk_target_id (ar_call q) = raw_target_id (mn_target a) /\
      pk_params_hash (ar_call q) ∈ candidates (mn_params a) /\
      load_signing_key satellite_write_signing_key = Ok key
  end.

Record mint_inv (s : mint_state) : Prop := {
  mi_queue : queue_ok sha256 (ms_queue s);
  mi_plans : forall a env plan, (a, env, plan) ∈ ms_plans s -> plan_ok a plan (ms_found s);
  mi_ids : NoDup (gc_id <$> gw_commands (md_gateway (ms_db s)));
  mi_rows : NoDup (ma_command_id <$> md_audit (ms_db s));
  mi_commands : forall row, row ∈ md_audit (ms_db s) ->
    ma_command_id row ∈ gc_id <$> gw_commands (md_gateway (ms_db s));
  mi_used : forall row id, row ∈ md_audit (ms_db s) -> ma_approval_request_id row = Some id ->
    exists r, r ∈ aq_requests (md_approvals (ms_db s)) /\ ar_id r = id /\ is_Some (ar_resumed_at r);
  mi_once : NoDup (omap ma_approval_request_id (md_audit (ms_db s)));
  mi_writes : forall c, c ∈ gw_commands (md_gateway (ms_db s)) -> gc_safety_level c ∈ REMOTE_WRITE_SAFETY_LEVELS ->
    exists r, r ∈ aq_requests (md_approvals (ms_db s)) /\ authorised_by c r /\ used_for (ms_db s) r c;
}.

Lemma authorised_later c r r' : authorised_by c r -> row_later r r' -> authorised_by c r'.
Proof.
  intros (Hs & Hr & Ht & Ho & Hh & Hd & Hk) [Lc Lf Ll _]. unfold authorised_by, ar_tenant_id in *. rewrite Lc, Ll by done.
  destruct Lf as [-> _]; [by rewrite Hs|]. by split_and!.
Qed.

Lemma used_same_id db r r' c : ar_id r' = ar_id r -> used_for db r c -> used_for db r' c.
Proof. intros E (row & ? & ? & ?). exists row. by rewrite E. Qed.

Lemma row_later_id r r' : row_later r r' -> ar_id r' = ar_id r.
Proof. intros [Hc _ _ _]. unfold ar_id. by rewrite Hc. Qed.

(** The queue moves on: what the invariant says of requests stays. *)
Lemma mint_inv_queue db f f' plans ap :
  mint_inv {| ms_db := db; ms_found := f; ms_plans := plans |} ->
  queue_ok sha256 {| qs_db := ap; qs_found := f' |} -> db_later (md_approvals db) ap -> f ⊆ f' ->
  mint_inv {| ms_db := with_approvals ap db; ms_found := f'; ms_plans := plans |}.
Proof.
  intros Hinv Hq Hl Hf. constructor; simpl; try apply Hinv; [done|..].
  - intros a env plan Hp. pose proof (mi_plans _ Hinv a env plan Hp) as Hok. destruct plan; try done.
    destruct Hok as (? & ?). split; [by apply Hf|done].
  - intros row id Hr Hid. destruct (mi_used _ Hinv row id Hr Hid) as (r & Hr0 & <- & Hs).
    destruct (Hl r Hr0) as (r' & Hr' & L). exists r'. rewrite (row_later_id _ _ L), (rl_latch _ _ L) by done. by split_and!.
  - intros c Hc Hlev. destruct (mi_writes _ Hinv c Hc Hlev) as (r & Hr & Ha & Hu). destruct (Hl r Hr) as (r' & Hr' & L).
    exists r'. split_and!; [done|by eapply authorised_later|]. eapply used_same_id; [by apply row_later_id|done].
Qed.

Lemma found_mono s ids s' : queue_step s ids s' -> qs_found s ⊆ qs_found s'.
Proof. intros H'. destruct H'; simpl; set_solver. Qed.

Lemma mint_inv_decide db f plans a env plan :
  mint_inv {| ms_db := db; ms_found := f; ms_plans := plans |} -> decide_mint a env db = Ok plan ->
  mint_inv {| ms_db := db; ms_found := found_by plan ++ f; ms_plans := (a, env, plan) :: plans |}.
Proof.
  intros Hinv Hd. apply decide_Ok in Hd. pose proof (mi_queue _ Hinv) as [Hq1 Hq2 Hq3].
  constructor; simpl; try apply Hinv.
  - split; [done..|]. simpl in *. intros q Hq. apply elem_of_app in Hq as [Hq|Hq]; [|by apply Hq3].
    destruct plan as [|level|level q0 key]; try (by apply elem_of_nil in Hq).
    apply list_elem_of_singleton in Hq as ->. destruct Hd as (d & _ & _ & _ & Hw). by eapply find_approval_ok, wm_found.
  - intros a' env' plan' Hp. apply elem_of_cons in Hp as [[= -> -> ->]|Hp].
    + destruct plan as [|level|level q0 key]; [done|..]; simpl.
      * destruct Hd as (d & _ & _ & -> & Hs). rewrite (sm_level _ _ _ _ Hs). set_solver.
      * destruct Hd as (d & _ & _ & _ & Hw). pose proof (wm_found _ _ _ _ _ Hw) as Hfd.
        apply find_approval_spec in Hfd as (_ & ? & ? & ? & ? & _). split_and!; try done; [left|by eapply wm_key].
    + pose proof (mi_plans _ Hinv a' env' plan' Hp) as Hok. destruct plan'; try done. destruct Hok as (? & ?).
      split; [apply elem_of_app; by right|done].
Qed.

Lemma mint_inv_gateway db f plans evs gw' :
  mint_inv {| ms_db := db; ms_found := f; ms_plans := plans |} ->
  gw_step (params_digest sha256) (md_gateway db) evs gw' ->
  gc_id <$> gw_commands gw' = gc_id <$> gw_commands (md_gateway db) ->
  mint_inv {| ms_db := with_gateway gw' db; ms_found := f; ms_plans := plans |}.
Proof.
  intros Hinv Hst Hids. pose proof (gw_step_capability _ _ _ Hst Hids) as Hcap.
  constructor; simpl; rewrite ?Hids; try apply Hinv. intros c Hc Hlev.
  assert (capability c ∈ capability <$> gw_commands (md_gateway db)) as Hin by (rewrite <- Hcap; by apply list_elem_of_fmap_2).
  apply list_elem_of_fmap in Hin as (c0 & E & Hc0). unfold capability in E. injection E as Eid Et _ Eo Ep Eh Ee Es El _ _.
  destruct (mi_writes _ Hinv c0 Hc0) as (r & Hr & Ha & row & Hrow & Hci & Hai); [by rewrite <- El|].
  exists r. split_and!; [done| |exists row; by rewrite Eid].
  unfold authorised_by in *. by rewrite Et, Eo, Ep, Eh, Ee, Es.
Qed.

(** A command and its audit row are added. *)
Lemma mint_inv_add db f plans c row :
  mint_inv {| ms_db := db; ms_found := f; ms_plans := plans |} ->
  gc_id c ∉ gc_id <$> gw_commands (md_gateway db) -> ma_command_id row = gc_id c ->
  (forall id, ma_approval_request_id row = Some id -> id ∉ omap ma_approval_request_id (md_audit db) /\
     exists r, r ∈ aq_requests (md_approvals db) /\ ar_id r = id /\ is_Some (ar_resumed_at r)) ->
  (gc_safety_level c ∈ REMOTE_WRITE_SAFETY_LEVELS -> exists r, r ∈ aq_requests (md_approvals db) /\ authorised_by c r /\
     ma_approval_request_id row = Some (ar_id r)) ->
  mint_inv {| ms_db := set_mint (md_approvals db) (set_commands (fun l => l ++ [c]) (md_gateway db))
                         (md_audit db ++ [row]) db; ms_found := f; ms_plans := plans |}.
Proof.
  intros Hinv Hc Hrow Hid Hw. constructor; simpl; rewrite ?fmap_app, ?omap_app; try apply Hinv.
  - apply NoDup_snoc; [apply Hinv|done].
  - simpl. rewrite Hrow. apply NoDup_snoc; [apply Hinv|]. intros Hin. apply list_elem_of_fmap in Hin as (r0 & E & Hr0).
    apply Hc. rewrite E. by apply (mi_commands _ Hinv).
  - intros r0 Hr0. apply elem_of_app. apply elem_of_app in Hr0 as [Hr0|Hr0%list_elem_of_singleton].
    + left. by apply (mi_commands _ Hinv).
    + right. subst r0. rewrite Hrow. left.
  - intros r0 id Hr0 Hi. apply elem_of_app in Hr0 as [Hr0|Hr0%list_elem_of_singleton]; [by apply (mi_used _ Hinv r0)|].
    subst r0. by apply Hid.
  - simpl. destruct (ma_approval_request_id row) as [id|] eqn:E; [|rewrite app_nil_r; apply Hinv].
    apply NoDup_snoc; [apply Hinv|]. by apply Hid.
  - intros c0 Hc0 Hl. apply elem_of_app in Hc0 as [Hc0|Hc0%list_elem_of_singleton].
    + destruct (mi_writes _ Hinv c0 Hc0 Hl) as (r & Hr & Ha & r0 & Hr0 & ?). exists r. split_and!; try done.
      exists r0. split; [|done]. simpl. apply elem_of_app. by left.
    + subst c0. destruct (Hw Hl) as (r & Hr & Ha & E). exists r. split_and!; try done. exists row.
      split; [|done]. simpl. apply elem_of_app. right. left.
Qed.

Lemma minted_fields a env level key :
  let c := minted_command a env level key in
  gc_id c = me_command_id env /\ gc_tenant_id c = op_tenant_id (mn_operator a) /\ gc_op_id c = mn_op_id a /\
  gc_params c = mn_params a /\ gc_params_hash c = params_digest sha256 (mn_params a) /\ gc_safety_level c = level /\
  gc_signature c = (fun k => mint_signature a k (gc_expires_at c)) <$> key.
Proof. by destruct key. Qed.

Lemma mint_inv_apply db f plans a env plan db' r :
  mint_inv {| ms_db := db; ms_found := f; ms_plans := plans |} ->
  (a, env, plan) ∈ plans -> apply_mint a env plan db = Ok (db', r) ->
  mint_inv {| ms_db := db'; ms_found := f; ms_plans := plans |}.
Proof.
  intros Hinv Hp Hap. pose proof (mi_plans _ Hinv _ _ _ Hp) as Hok. destruct plan as [code|level|level q key]; simpl in Hap, Hok.
  - by injection Hap as <- _.
  - apply finalize_Ok in Hap as (_ & Hid & ->). pose proof (minted_fields a env level None) as (E1 & _ & _ & _ & _ & E6 & _).
    apply mint_inv_add; [done|by rewrite E1|done|by intros|]. intros Hl. by rewrite E6 in Hl.
  - destruct (bind_approval q _ _) as [ap|] eqn:Hb; [|by injection Hap as <- _].
    destruct Hok as (Hq & Ht & Ho & Htg & Hh & Hk). pose proof (mi_queue _ Hinv) as Hqo.
    destruct (aq_step_ok canonical_params sha256 hmac_sha256 derive_key st floors is_credential_write _ [ar_id q]
                {| qs_db := ap; qs_found := f |} Hqo) as [Hqo' Hl]; [by eapply as_bind|].
    destruct (bind_won q _ _ _ (qo_db _ _ Hqo) (qo_found _ _ Hqo q Hq) Hb) as (x & Hx & Hxid & Hxs & Hxr & Hrows & _ & _).
    pose proof (mint_inv_queue _ f f plans ap Hinv Hqo' Hl (reflexivity f)) as Hinv'.
    set (y := hide_params (set_resumed (me_now env) x)) in *.
    assert (y ∈ aq_requests ap) as Hy
      by (rewrite Hrows; apply elem_of_update; exists x; split; [done|]; by rewrite bool_decide_true).
    assert (ar_call y = ar_call x /\ ar_status y = ar_status x /\ ar_resumed_at y = Some (me_now env)) as (Yc & Ys & Yr)
      by (unfold y; destruct (hide_params_eq (set_resumed (me_now env) x)) as [p ->]; done).
    destruct (Hl x Hx) as (x' & Hx' & Lx). pose proof (qo_found _ _ Hqo q Hq) as (z & Hz & Hzc & _).
    assert (z = x) as -> by (eapply key_inj; [apply (qo_db _ _ Hqo)|done|done|]; unfold ar_id in *; by rewrite Hzc).
    apply finalize_Ok in Hap as (_ & Hid & ->).
    pose proof (minted_fields a env level (Some key)) as (E1 & E2 & E3 & E4 & E5 & E6 & E7).
    pose proof (mint_inv_add (with_approvals ap db) f plans (minted_command a env level (Some key))
      (mint_audit_row audit_params_hash a env (minted_command a env level (Some key)) (Some (ar_id q)) true) Hinv') as Hadd.
    apply Hadd; [by rewrite E1|done|..]; clear Hadd.
    + intros id Hai. simpl in Hai. injection Hai as <-. split.
      * intros Hin. apply list_elem_of_omap in Hin as (row & Hrow & Hra). simpl in Hrow.
        destruct (mi_used _ Hinv row (ar_id q) Hrow Hra) as (w & Hw & Ew & Hws).
        assert (w = x) as -> by (eapply key_inj; [apply (qo_db _ _ Hqo)|done|done|congruence]). rewrite Hxr in Hws. by destruct Hws.
      * exists y. split_and!; [done| |by rewrite Yr]. unfold ar_id. by rewrite Yc, Hzc.
    + intros _. exists y. split; [done|]. split; [|simpl; f_equal; unfold ar_id; by rewrite Yc, Hzc].
      unfold authorised_by. rewrite Ys, Yr, E2, E3, E4, E5, E7. unfold ar_tenant_id. rewrite Yc, Hzc. split_and!; try done.
      exists key. split; [done|]. simpl. by rewrite Htg.
Qed.

Lemma mint_step_inv s s' : mint_inv s -> mint_step s s' -> mint_inv s'.
Proof.
  intros Hinv Hst. destruct Hst as [db f plans ids q' Hq|db f plans a env plan Hd|db f plans a env plan db' r Hp Ha|
    db f plans evs gw' Hg Hids|db f plans db' H1 H2 H3].
  - destruct q' as [ap f']. destruct (aq_step_ok _ _ _ _ _ _ _ _ _ _ (mi_queue _ Hinv) Hq) as [Hqo Hl].
    by apply (mint_inv_queue db f); [..|apply (found_mono _ _ _ Hq)].
  - by apply mint_inv_decide.
  - by eapply mint_inv_apply.
  - by eapply mint_inv_gateway.
  - destruct Hinv as [I1 I2 I3 I4 I5 I6 I7 I8].
    constructor; simpl in *; unfold ms_queue, used_for in *; simpl in *; by rewrite ?H1, ?H2, ?H3.
Qed.

Lemma mint_reachable_inv s : mint_reachable s -> mint_inv s.
Proof.
  intros (db & (Ha & Hg & Hm) & Hr).
  assert (mint_inv {| ms_db := db; ms_found := []; ms_plans := [] |}) as H0.
  { constructor; simpl; rewrite ?Hg, ?Hm; try (by constructor); try (intros; set_solver).
    unfold ms_queue. simpl. rewrite Ha. apply empty_queue_ok. }
  revert H0. induction Hr as [|x y z Hxy _ IH]; [done|]. intros Hx. apply IH. by eapply mint_step_inv.
Qed.

(** Every remote write has an approval of its own.  However mints, approvals,
    claims, reports and sweeps interleave, every caution command in the queue was
    authorised by a request that a person approved for its tenant, operation and
    params; the request is used up, and no other command was minted from it.  The
    command carries the centre's signature over its operation, the digest of its
    own params, the approved target and its expiry. *)
Theorem remote_writes_have_their_own_approval s :
  mint_reachable s ->
  (forall c, c ∈ gw_commands (md_gateway (ms_db s)) -> gc_safety_level c ∈ REMOTE_WRITE_SAFETY_LEVELS ->
     exists r, r ∈ aq_requests (md_approvals (ms_db s)) /\ authorised_by c r /\ used_for (ms_db s) r c) /\
  (forall r c c', c ∈ gw_commands (md_gateway (ms_db s)) -> c' ∈ gw_commands (md_gateway (ms_db s)) ->
     used_for (ms_db s) r c -> used_for (ms_db s) r c' -> c = c').
Proof.
  intros Hr. apply mint_reachable_inv in Hr as Hinv. split; [apply Hinv|].
  intros r c c' Hc Hc' (row & Hrow & E & Ea) (row' & Hrow' & E' & Ea').
  assert (row = row') as <- by (eapply omap_inj; [apply (mi_once _ Hinv)|done..]).
  eapply key_inj; [apply (mi_ids _ Hinv)|done|done|congruence].
Qed.

(** The approval queue runs inside. *)
Lemma queue_run_reaches db ids q :
  aq_run canonical_params sha256 hmac_sha256 derive_key st floors is_credential_write empty_queue ids q ->
  rtc mint_step {| ms_db := with_approvals (qs_db empty_queue) db; ms_found := []; ms_plans := [] |}
                {| ms_db := with_approvals (qs_db q) db; ms_found := qs_found q; ms_plans := [] |}.
Proof.
  induction 1 as [|ids s ids' s' _ IH Hst]; [apply rtc_refl|]. eapply rtc_r; [exact IH|]. destruct s as [ap f].
  apply (mst_queue (with_approvals ap db) f [] ids' s' Hst).
Qed.
End MintFacts.

(** * A remote write, minted *)

Section MintScene.
(** A toy signature: the key, then the message. *)
#[local] Instance w_scheme : SignatureScheme := {|
  ed_public k := k; ed_sign k m := k +:+ m; ed_verify k s m := bool_decide (s = k +:+ m) |}.

Definition w_key : string := "0123456789abcdef0123456789abcdef".

Definition w_mint_row (op level : string) : EndpointDescriptor := {|
  ed_tenant_id := None; ed_key := op_key "vault-1.x" op; ed_is_enabled := true; ed_owner_package := None;
  ed_method := None; ed_tags := []; ed_safety_level := level; ed_requires_approval := false;
  ed_parameter_schema := JDict [] |}.

Definition w_runner : RunnerPrincipal := {|
  rp_id := "rid-1"; rp_tenant_id := "t1"; rp_name := "edge-1"; rp_keycloak_client_id := "runner:edge-1";
  rp_keycloak_internal_id := "kc-1"; rp_owner_sub := "ann"; rp_revoked := false; rp_created_by_sub := "ann";
  rp_created_at := 0; rp_updated_at := 0; rp_last_seen_at := 0; rp_wire_version := None;
  rp_package_set_digest := None |}.

Definition w_runners : RunnerDb := {|
  rd_runners := [w_runner];
  rd_allowlist := [{| wa_id := "wa-1"; wa_tenant_id := "t1"; wa_runner_principal_id := "rid-1";
    wa_op_pattern := "vault.kv.*"; wa_target_scope := "*"; wa_created_by_sub := "ann"; wa_created_at := 0 |}];
  rd_marks := []; rd_clients := []; rd_audit := [] |}.

Definition w_mint_db (ap : ApprovalDb) : MintDb := {|
  md_catalog := {| cd_descriptors := [w_mint_row "vault.kv.list" "caution"; w_mint_row "vault.kv.get" "safe"];
                   cd_settings := []; cd_overrides := [] |};
  md_permissions := []; md_scopes := []; md_grants := w_grants; md_approvals := ap; md_runners := w_runners;
  md_gateway := {| gw_commands := []; gw_audit := [] |}; md_audit := [] |}.

Definition w_mint_args : MintArgs := {|
  mn_operator := w_person "carl"; mn_connector_id := "vault-1.x"; mn_op_id := "vault.kv.list"; mn_target := None;
  mn_params := pa_params (w_args "vault.kv.list" "key-2"); mn_runner_id := "edge-1"; mn_target_descriptor := None;
  mn_expires_at := None |}.

Definition w_mint_env : MintEnv := {|
  me_command_id := "cmd-1"; me_audit_id := "mint-1"; me_now := w_t0; me_now' := w_t0; me_actor := None |}.

Definition w_decide := mint_decide [] (fun _ _ => false) (fun _ _ => schema_ok) (fun _ => false) ServiceGrants.w_settings
  w_binding w_effect w_canonical w_hash w_hmac w_hash w_settings ∅ (b64encode w_key).




Lemma w_run_trans s0 ids s ids' s' : w_run s0 ids s -> w_run s ids' s' -> w_run s0 (ids ++ ids') s'.
Proof.
  intros H0. induction 1 as [|ids1 s1 ids2 s2 _ IH Hst]; [by rewrite app_nil_r|]. rewrite app_assoc. by eapply ar_next.
Qed.

Abbreviation w_steps := (rtc (mint_step [] (fun _ _ => false) (fun _ _ => schema_ok) (fun _ => false)
  ServiceGrants.w_settings w_binding w_effect w_canonical w_hash w_hmac w_hash w_settings ∅ (b64encode w_key)
  (fun _ => "audit-hash") w_is_cred)).

Abbreviation w_reachable := (mint_reachable [] (fun _ _ => false) (fun _ _ => schema_ok) (fun _ => false)
  ServiceGrants.w_settings w_binding w_effect w_canonical w_hash w_hmac w_hash w_settings ∅ (b64encode w_key)
  (fun _ => "audit-hash") w_is_cred).

(** The plan of the mint, and the state after it. *)
Lemma w_reaches : exists q db' r,
  w_decide w_mint_args w_mint_env (w_mint_db w_db6) = Ok (plan_write "caution" q w_key) /\
  mint_apply w_hash (fun _ => "audit-hash") w_mint_args w_mint_env (plan_write "caution" q w_key) (w_mint_db w_db6) =
    Ok (db', r) /\ length (gw_commands (md_gateway db')) = 1 /\
  w_steps {| ms_db := w_mint_db (qs_db empty_queue); ms_found := []; ms_plans := [] |}
          {| ms_db := db'; ms_found := [q]; ms_plans := [(w_mint_args, w_mint_env, plan_write "caution" q w_key)] |}.
Proof.
  destruct (w_decide w_mint_args w_mint_env (w_mint_db w_db6)) as [[c|l|l q k]|] eqn:Ed; [vm_compute in Ed; discriminate Ed..| |vm_compute in Ed; discriminate Ed].
  assert (l = "caution" /\ k = w_key) as [-> ->] by (vm_compute in Ed; by injection Ed as <- _ <-).
  destruct (mint_apply w_hash (fun _ => "audit-hash") w_mint_args w_mint_env (plan_write "caution" q w_key)
              (w_mint_db w_db6)) as [[db' r]|] eqn:Ea;
    [|vm_compute in Ed; injection Ed as <-; vm_compute in Ea; discriminate Ea].
  exists q, db', r. split; [done|]. split; [done|]. split.
  - vm_compute in Ed. injection Ed as <-. vm_compute in Ea. by injection Ea as <- _.
  - assert (exists ids, w_run empty_queue ids (w_state w_db6)) as [ids Hrun].
    { exists ([] ++ []). eapply w_run_trans; [exact w_runs3|exact w_runs6]. }
    etrans; [exact (queue_run_reaches _ _ _ _ _ _ _ _ _ _ _ _ _ _ _ _ (w_mint_db (qs_db empty_queue)) _ _ Hrun)|].
    eapply rtc_l; [exact (mst_decide _ _ _ _ _ _ _ _ _ _ _ _ _ _ _ _ (w_mint_db w_db6) [] [] _ _ _ Ed)|].
    eapply rtc_once, mst_apply; [left|exact Ea].
Qed.

Lemma remote_writes_have_their_own_approval_witness : exists s c r,
  c ∈ gw_commands (md_gateway (ms_db s)) /\ r ∈ aq_requests (md_approvals (ms_db s)) /\
  gc_op_id c = "vault.kv.list" /\ pk_op_id (ar_call r) = "vault.kv.list" /\ used_for (ms_db s) r c.
Proof.
  destruct w_reaches as (q & db' & r & Ed & Ea & Hl & Hs).
  set (s := {| ms_db := db'; ms_found := [q]; ms_plans := [(w_mint_args, w_mint_env, plan_write "caution" q w_key)] |}) in Hs.
  assert (w_reachable s) as Hreach by (exists (w_mint_db (qs_db empty_queue)); split; [by split_and!|exact Hs]).
  destruct (remote_writes_have_their_own_approval _ _ _ _ _ _ _ _ _ _ _ _ _ _ _ _ s Hreach) as [Hall _].
  destruct (gw_commands (md_gateway db')) as [|c rest] eqn:Ec; [discriminate Hl|].
  assert (gc_op_id c = "vault.kv.list" /\ gc_safety_level c = "caution") as [Ho Hlev].
  { vm_compute in Ed. injection Ed as <-. vm_compute in Ea. injection Ea as <- _. simpl in Ec. by injection Ec as <- _. }
  destruct (Hall c) as (x & Hx & Hax & Hu); [simpl; rewrite Ec; left|rewrite Hlev; left|].
  exists s, c, x. split; [simpl; rewrite Ec; left|]. split; [exact Hx|]. split; [exact Ho|]. split; [|exact Hu].
  destruct Hax as (_ & _ & _ & E & _). by rewrite E.
Defined.
End MintScene.
