(* ===== verification/EffectChain.v ===== *)
(** The audit of remote-write effects: the hash chain a runner keeps on disk
    ([runner/effect_audit.py]) and its verification at the centre
    ([gateway/effect_ingest.py]).

    A directory holds the head of the chain and one file per record that was not
    forwarded.  An append writes the record and then the head; a crash may come
    between the two. *)

From S2P Require Import Prelude Json GatewayQueue WireText.

Definition GENESIS_PREV_HASH : string :=
  "0000000000000000000000000000000000000000000000000000000000000000".

Inductive EffectPhase := INTENT | OUTCOME.
#[export] Instance EffectPhase_eq_dec : EqDecision EffectPhase.
Proof. solve_decision. Defined.

Definition phase_value (p : EffectPhase) : string := match p with INTENT => "intent" | OUTCOME => "outcome" end.

Record EffectAuditRecord := {
  er_runner_id : string;
  er_seq : Z;
  er_phase : EffectPhase;
  er_command_id : string;
  er_op_id : string;
  er_params_hash : string;
  er_signature : option string;
  er_target_scope : string;
  er_outcome : option string;
  er_recorded_at : string;
  er_prev_hash : string;
  er_record_hash : string;
}.
#[export] Instance EffectAuditRecord_eq_dec : EqDecision EffectAuditRecord.
Proof. solve_decision. Defined.

Definition opt_str (o : option string) : json := match o with Some s => JStr s | None => JNull end.

Definition record_body (r : EffectAuditRecord) : json :=
  JDict [("runner_id", JStr (er_runner_id r)); ("seq", JInt (er_seq r)); ("phase", JStr (phase_value (er_phase r)));
         ("command_id", JStr (er_command_id r)); ("op_id", JStr (er_op_id r));
         ("params_hash", JStr (er_params_hash r)); ("signature", opt_str (er_signature r));
         ("target_scope", JStr (er_target_scope r)); ("outcome", opt_str (er_outcome r));
         ("recorded_at", JStr (er_recorded_at r))].

(** [canonical_record_body]: every field but the two hashes. *)
Definition canonical_record_body (r : EffectAuditRecord) : string := json_dumps (record_body r).

(** ** The runner's directory *)

(** [head.json]: missing, readable, or corrupt. *)
Inductive HeadFile := head_missing | head_at (last_seq : Z) (last_hash : string) | head_corrupt.

Inductive EffectChainStateError := corrupt_head.

(** The record files in the order of their names, which is that of their numbers
    while these have at most twelve digits. *)
Record ChainDir := { ch_head : HeadFile; ch_files : list EffectAuditRecord }.

Definition empty_chain : ChainDir := {| ch_head := head_missing; ch_files := [] |}.

Definition read_head (d : ChainDir) : res EffectChainStateError (Z * string) :=
  match ch_head d with
  | head_missing => Ok ((-1)%Z, GENESIS_PREV_HASH)
  | head_at n h => Ok (n, h)
  | head_corrupt => Raise corrupt_head
  end.

(** [os.replace] puts the file in its place, over one of the same number. *)
Fixpoint put_file (r : EffectAuditRecord) (files : list EffectAuditRecord) : list EffectAuditRecord :=
  match files with
  | [] => [r]
  | x :: rest =>
      if (er_seq r <? er_seq x)%Z then r :: files
      else if (er_seq r =? er_seq x)%Z then r :: rest
      else x :: put_file r rest
  end.

Definition write_record (r : EffectAuditRecord) (d : ChainDir) : ChainDir :=
  {| ch_head := ch_head d; ch_files := put_file r (ch_files d) |}.

Definition write_head (last_seq : Z) (last_hash : string) (d : ChainDir) : ChainDir :=
  {| ch_head := head_at last_seq last_hash; ch_files := ch_files d |}.

(** What a record says of an effect. *)
Record Effect := {
  ef_phase : EffectPhase;
  ef_command_id : string;
  ef_op_id : string;
  ef_params_hash : string;
  ef_signature : option string;
  ef_target_scope : string;
  ef_outcome : option string;
}.

Section Chain.
Context (sha256 : string -> string).

Definition compute_record_hash (prev_hash canonical_body : string) : string := sha256 (prev_hash +:+ canonical_body).

Definition sealed (r : EffectAuditRecord) : EffectAuditRecord := {|
  er_runner_id := er_runner_id r; er_seq := er_seq r; er_phase := er_phase r; er_command_id := er_command_id r;
  er_op_id := er_op_id r; er_params_hash := er_params_hash r; er_signature := er_signature r;
  er_target_scope := er_target_scope r; er_outcome := er_outcome r; er_recorded_at := er_recorded_at r;
  er_prev_hash := er_prev_hash r;
  er_record_hash := compute_record_hash (er_prev_hash r) (canonical_record_body r) |}.

Definition next_record (runner_id : string) (last_seq : Z) (last_hash : string) (e : Effect) (now : datetime)
  : EffectAuditRecord := sealed {|
  er_runner_id := runner_id; er_seq := last_seq + 1; er_phase := ef_phase e; er_command_id := ef_command_id e;
  er_op_id := ef_op_id e; er_params_hash := ef_params_hash e; er_signature := ef_signature e;
  er_target_scope := ef_target_scope e; er_outcome := ef_outcome e; er_recorded_at := isoformat now;
  er_prev_hash := last_hash; er_record_hash := "" |}.

(** The first half of [_append]; a crash after it leaves the head behind. *)
Definition append_record (runner_id : string) (e : Effect) (now : datetime) (d : ChainDir)
  : res EffectChainStateError (ChainDir * EffectAuditRecord) :=
  '(last_seq, last_hash) ← read_head d;
  let r := next_record runner_id last_seq last_hash e now in
  Ok (write_record r d, r).

Definition append (runner_id : string) (e : Effect) (now : datetime) (d : ChainDir)
  : res EffectChainStateError (ChainDir * EffectAuditRecord) :=
  '(d1, r) ← append_record runner_id e now d;
  Ok (write_head (er_seq r) (er_record_hash r) d1, r).

Definition record_intent (runner_id command_id op_id params_hash : string) (signature : option string)
  (target_scope : string) : datetime -> ChainDir -> res EffectChainStateError (ChainDir * EffectAuditRecord) :=
  append runner_id {| ef_phase := INTENT; ef_command_id := command_id; ef_op_id := op_id; ef_params_hash := params_hash;
    ef_signature := signature; ef_target_scope := target_scope; ef_outcome := None |}.

Definition record_outcome (runner_id command_id op_id params_hash : string) (signature : option string)
  (target_scope outcome : string) : datetime -> ChainDir -> res EffectChainStateError (ChainDir * EffectAuditRecord) :=
  append runner_id {| ef_phase := OUTCOME; ef_command_id := command_id; ef_op_id := op_id; ef_params_hash := params_hash;
    ef_signature := signature; ef_target_scope := target_scope; ef_outcome := Some outcome |}.

Definition unforwarded (d : ChainDir) : list EffectAuditRecord := ch_files d.

(** The head stays. *)
Definition mark_forwarded (up_to_seq : Z) (d : ChainDir) : ChainDir :=
  {| ch_head := ch_head d; ch_files := delete_where (fun r => er_seq r <=? up_to_seq)%Z (ch_files d) |}.

(** ** Ingest at the centre *)

Record RunnerEffectChain := {
  rx_tenant_id : uuid;
  rx_runner_id : string;
  rx_last_seq : Z;
  rx_last_hash : string;
  rx_updated_at : datetime;
}.

(** The audit row of a verified record; the keyed hashes it stores are left out. *)
Record EffectRow := {
  xr_operator_sub : string;
  xr_tenant_id : uuid;
  xr_parent_audit_id : option uuid;
  xr_record : EffectAuditRecord;
  xr_linked : bool;
}.

(** The row of a quarantined forward. *)
Record QuarantineRow := { xq_tenant_id : uuid; xq_runner : string; xq_seq : Z }.

Record EffectDb := {
  xd_heads : list RunnerEffectChain;
  xd_audit : list EffectRow;
  xd_quarantine : list QuarantineRow;
}.

Inductive EffectChainTamperError :=
| foreign_runner (seq : Z)
| chain_gap (seq : Z)
| broken_link (seq : Z)
| tampered_body (seq : Z).

Definition tamper_seq (e : EffectChainTamperError) : Z :=
  match e with foreign_runner n | chain_gap n | broken_link n | tampered_body n => n end.

Definition own_head (tenant_id : uuid) (runner_id : string) (h : RunnerEffectChain) : bool :=
  bool_decide (rx_tenant_id h = tenant_id) && bool_decide (rx_runner_id h = runner_id).

Definition load_head (tenant_id : uuid) (runner_id : string) (db : EffectDb) : option RunnerEffectChain :=
  List.find (own_head tenant_id runner_id) (xd_heads db).

Definition verify_link (r : EffectAuditRecord) (runner_id : string) (last_seq : Z) (last_hash : string)
  : res EffectChainTamperError unit :=
  _ ← guard_or (foreign_runner (er_seq r)) (bool_decide (er_runner_id r = runner_id));
  _ ← guard_or (chain_gap (er_seq r)) (er_seq r =? last_seq + 1)%Z;
  _ ← guard_or (broken_link (er_seq r)) (bool_decide (er_prev_hash r = last_hash));
  guard_or (tampered_body (er_seq r))
    (bool_decide (compute_record_hash (er_prev_hash r) (canonical_record_body r) = er_record_hash r)).

(** [_resolve_mint_link]: the command of the runner's own queue, if there is one. *)
Definition resolve_mint_link (tenant_id : uuid) (runner_id : string) (gw : GatewayDb) (r : EffectAuditRecord)
  : option GatewayCommand :=
  List.find (fun c => bool_decide (gc_id c = er_command_id r) && bool_decide (gc_tenant_id c = tenant_id) &&
                      bool_decide (gc_runner_id c = runner_id)) (gw_commands gw).

Definition effect_row (operator_sub tenant_id : string) (gw : GatewayDb) (r : EffectAuditRecord) : EffectRow :=
  let link := resolve_mint_link tenant_id (er_runner_id r) gw r in
  {| xr_operator_sub := operator_sub; xr_tenant_id := tenant_id;
     xr_parent_audit_id := link ≫= gc_mint_audit_id; xr_record := r; xr_linked := bool_decide (is_Some link) |}.

Fixpoint verify_records (runner_id : string) (records : list EffectAuditRecord) (last_seq : Z) (last_hash : string)
  : res EffectChainTamperError (Z * string) :=
  match records with
  | [] => Ok (last_seq, last_hash)
  | r :: rest =>
      _ ← verify_link r runner_id last_seq last_hash;
      verify_records runner_id rest (er_seq r) (er_record_hash r)
  end.

Definition persist_head (tenant_id : uuid) (runner_id : string) (last_seq : Z) (last_hash : string) (now : datetime)
  (heads : list RunnerEffectChain) : list RunnerEffectChain :=
  let h := {| rx_tenant_id := tenant_id; rx_runner_id := runner_id; rx_last_seq := last_seq;
              rx_last_hash := last_hash; rx_updated_at := now |} in
  if existsb (own_head tenant_id runner_id) heads
  then update_where (own_head tenant_id runner_id) (fun _ => h) heads else heads ++ [h].

(** A row is written per record as it is verified; a refusal rolls all of them
    back, so that the rows are those of a batch that was accepted whole. *)
Definition ingest_effect_records (operator_sub : string) (tenant_id : uuid) (runner_id : string)
  (records : list EffectAuditRecord) (gw : GatewayDb) (now : datetime) (db : EffectDb)
  : res EffectChainTamperError EffectDb :=
  match records with
  | [] => Ok db
  | _ =>
      let '(last_seq, last_hash) := match load_head tenant_id runner_id db with
                                    | Some h => (rx_last_seq h, rx_last_hash h)
                                    | None => ((-1)%Z, GENESIS_PREV_HASH)
                                    end in
      '(n, h) ← verify_records runner_id records last_seq last_hash;
      Ok {| xd_heads := persist_head tenant_id runner_id n h now (xd_heads db);
            xd_audit := xd_audit db ++ (effect_row operator_sub tenant_id gw <$> records);
            xd_quarantine := xd_quarantine db |}
  end.

(** The route: a broken chain is refused, rolled back and recorded. *)
Definition ingest_effect_or_quarantine (operator_sub : string) (tenant_id : uuid) (runner_id : string)
  (records : list EffectAuditRecord) (gw : GatewayDb) (now : datetime)
  : txn EffectDb EffectChainTamperError unit := fun db =>
  match ingest_effect_records operator_sub tenant_id runner_id records gw now db with
  | Ok db' => (db', Ok tt)
  | Raise e => ({| xd_heads := xd_heads db; xd_audit := xd_audit db;
                   xd_quarantine := xd_quarantine db ++
                     [{| xq_tenant_id := tenant_id; xq_runner := runner_id; xq_seq := tamper_seq e |}] |}, Raise e)
  end.
End Chain.

(** * Verified chains *)

Section ChainFacts.
Context (sha256 : string -> string).

Lemma verify_link_Ok r runner n h u :
  verify_link sha256 r runner n h = Ok u <->
  er_runner_id r = runner /\ er_seq r = (n + 1)%Z /\ er_prev_hash r = h /\ sealed sha256 r = r.
Proof.
  unfold verify_link. destruct u. split.
  - intros H. invert_ok. to_prop. rewrite Z.eqb_eq in *. split_and!; try done. unfold sealed.
    destruct r; simpl in *. congruence.
  - intros (-> & -> & H3 & H4). apply (f_equal er_record_hash) in H4. simpl in H4. rewrite Z.eqb_refl, H4.
    by rewrite !bool_decide_eq_true_2.
Qed.

Lemma verify_app runner rs rs' n h :
  verify_records sha256 runner (rs ++ rs') n h =
  ('(n1, h1) ← verify_records sha256 runner rs n h; verify_records sha256 runner rs' n1 h1).
Proof.
  revert n h. induction rs as [|r rs IH]; intros n h; [done|]. simpl.
  destruct (verify_link sha256 r runner n h); [|done]. simpl. apply IH.
Qed.

Lemma verify_snoc runner rs r n h n' h' :
  verify_records sha256 runner (rs ++ [r]) n h = Ok (n', h') <->
  exists n1 h1, verify_records sha256 runner rs n h = Ok (n1, h1) /\
    verify_link sha256 r runner n1 h1 = Ok tt /\ n' = er_seq r /\ h' = er_record_hash r.
Proof.
  rewrite verify_app. split.
  - intros H. apply bind_Ok in H as ([n1 h1] & H1 & H2). simpl in H2. exists n1, h1. split; [done|].
    destruct (verify_link sha256 r runner n1 h1) as [[]|]; [|done]. by injection H2 as <- <-.
  - intros (n1 & h1 & -> & H2 & -> & ->). simpl. by rewrite H2.
Qed.

Lemma verify_Raise runner rs n h e :
  verify_records sha256 runner rs n h = Raise e -> exists r, r ∈ rs /\ er_seq r = tamper_seq e.
Proof.
  revert n h. induction rs as [|r rs IH]; intros n h H; [done|]. simpl in H.
  destruct (verify_link sha256 r runner n h) as [u|e'] eqn:El; simpl in H.
  - apply IH in H as (x & Hx & Hs). exists x. split; [by right|done].
  - injection H as ->. exists r. split; [by left|]. unfold verify_link, guard_or in El.
    repeat (match type of El with context [if ?b then _ else _] => destruct b; simpl in El end; try done);
      by injection El as <-.
Qed.

(** The numbers of a verified chain have no gap. *)
Lemma verify_seqs runner rs n h n' h' :
  verify_records sha256 runner rs n h = Ok (n', h') ->
  n' = (n + Z.of_nat (length rs))%Z /\ forall i r, rs !! i = Some r -> er_seq r = (n + 1 + Z.of_nat i)%Z /\ er_runner_id r = runner.
Proof.
  revert n h. induction rs as [|r rs IH]; intros n h H; simpl in H; [injection H as <- <-; split; [simpl; lia|done]|].
  destruct (verify_link sha256 r runner n h) as [u|] eqn:E; [|done]. apply verify_link_Ok in E as (E1 & E2 & _).
  apply IH in H as [-> Hi]. split; [simpl; lia|]. intros [|i] x Hx.
  - injection Hx as <-. split; [lia|done].
  - apply Hi in Hx as [-> ?]. split; [lia|done].
Qed.

Section TamperEvidence.
Hypothesis sha256_inj : forall a b, sha256 a = sha256 b -> a = b.
Hypothesis sha256_hex : forall a, has_char "{" (sha256 a) = false.

Lemma verify_hash_hex runner rs n h n' h' :
  has_char "{" h = false -> verify_records sha256 runner rs n h = Ok (n', h') -> has_char "{" h' = false.
Proof.
  intros Hh. induction rs as [|r rs _] using rev_ind; [by intros [= <- <-]|].
  rewrite verify_snoc. intros (n1 & h1 & _ & Hl & _ & ->). apply verify_link_Ok in Hl as (_ & _ & _ & Hs).
  rewrite <- Hs. apply sha256_hex.
Qed.

Lemma sorted_opt_str o : json_sorted (opt_str o) = opt_str o.
Proof. by destruct o. Qed.

(** The body with its keys in order. *)
Lemma sorted_body runner seq phase cmd op ph sig scope out at_ :
  json_sorted (JDict [("runner_id", runner); ("seq", seq); ("phase", phase); ("command_id", cmd); ("op_id", op);
    ("params_hash", ph); ("signature", sig); ("target_scope", scope); ("outcome", out); ("recorded_at", at_)]) =
  JDict [("command_id", json_sorted cmd); ("op_id", json_sorted op); ("outcome", json_sorted out);
    ("params_hash", json_sorted ph); ("phase", json_sorted phase); ("recorded_at", json_sorted at_);
    ("runner_id", json_sorted runner); ("seq", json_sorted seq); ("signature", json_sorted sig);
    ("target_scope", json_sorted scope)].
Proof. reflexivity. Qed.

Lemma record_body_inj r r' :
  canonical_record_body r = canonical_record_body r' -> record_body r = record_body r'.
Proof.
  intros H. destruct (json_dumps_unique (record_body r) (record_body r') "" "") as [Hs _]; try done.
  - unfold record_body. simpl. by destruct (er_signature r), (er_outcome r).
  - unfold record_body. simpl. by destruct (er_signature r'), (er_outcome r').
  - unfold canonical_record_body in H. by rewrite H.
  - unfold record_body in *. rewrite !sorted_body, !sorted_opt_str in Hs. cbn [json_sorted] in Hs. congruence.
Qed.

Lemma opt_str_inj o o' : opt_str o = opt_str o' -> o = o'.
Proof. destruct o, o'; simpl; congruence. Qed.

Lemma phase_value_inj p p' : phase_value p = phase_value p' -> p = p'.
Proof. by destruct p, p'. Qed.

(** Two sealed records of one hash are one record. *)
Lemma sealed_inj r r' :
  sealed sha256 r = r -> sealed sha256 r' = r' ->
  has_char "{" (er_prev_hash r) = false -> has_char "{" (er_prev_hash r') = false ->
  er_record_hash r = er_record_hash r' -> r = r'.
Proof.
  intros Hr Hr' Hp Hp' Heq. pose proof Heq as Hh. rewrite <- Hr, <- Hr' in Hh. apply sha256_inj in Hh.
  assert (exists b b', canonical_record_body r = String "{" b /\ canonical_record_body r' = String "{" b')
    as (b & b' & Eb & Eb') by (unfold canonical_record_body, record_body; rewrite !json_dumps_dict; eauto).
  pose proof Hh as Hs. rewrite Eb, Eb' in Hs. apply (f_equal (partition_on "{")) in Hs.
  rewrite !partition_on_app in Hs by done. injection Hs as Hp1 Hb. subst b'. rewrite <- Eb' in Eb.
  apply record_body_inj in Eb. unfold record_body in Eb. destruct r, r'; simpl in *.
  injection Eb as -> -> Eph -> -> -> Esig -> Eout ->.
  apply phase_value_inj in Eph. apply opt_str_inj in Esig, Eout. congruence.
Qed.

(** The head of a chain is reached by one list of records only. *)
Lemma verify_head_unique runner n h :
  has_char "{" h = false -> forall rs rs' n' h',
  verify_records sha256 runner rs n h = Ok (n', h') -> verify_records sha256 runner rs' n h = Ok (n', h') -> rs = rs'.
Proof.
  intros Hh rs. induction rs as [|r rs IH] using rev_ind; intros rs' n' h' H H'.
  - apply verify_seqs in H as [-> _]. apply verify_seqs in H' as [Hl _]. destruct rs'; [done|simpl in Hl; lia].
  - destruct rs' as [|r' rs' _] using rev_ind.
    { apply verify_seqs in H as [Hl _]. apply verify_seqs in H' as [-> _]. rewrite length_app in Hl. simpl in Hl. lia. }
    apply verify_snoc in H as (n1 & h1 & H & Hl & -> & ->). apply verify_snoc in H' as (n2 & h2 & H' & Hl' & Hn & Hr).
    apply verify_link_Ok in Hl as (_ & Hs & Hp & Hz), Hl' as (_ & Hs' & Hp' & Hz').
    pose proof (verify_hash_hex _ _ _ _ _ _ Hh H) as Hh1. pose proof (verify_hash_hex _ _ _ _ _ _ Hh H') as Hh2.
    assert (r = r') as <- by (apply sealed_inj; congruence). f_equal. apply (IH _ n1 h1); [done|].
    by assert (n1 = n2 /\ h1 = h2) as [-> ->] by (split; [lia|congruence]).
Qed.
End TamperEvidence.

(** * What the centre holds *)

Definition head_of (tenant_id : uuid) (runner_id : string) (db : EffectDb) : Z * string :=
  match load_head tenant_id runner_id db with
  | Some h => (rx_last_seq h, rx_last_hash h)
  | None => ((-1)%Z, GENESIS_PREV_HASH)
  end.

Definition row_of (tenant_id : uuid) (runner_id : string) (x : EffectRow) : bool :=
  bool_decide (xr_tenant_id x = tenant_id) && bool_decide (er_runner_id (xr_record x) = runner_id).

(** The records of a runner that were accepted, in the order of their rows. *)
Definition accepted (tenant_id : uuid) (runner_id : string) (db : EffectDb) : list EffectAuditRecord :=
  xr_record <$> List.filter (row_of tenant_id runner_id) (xd_audit db).

Definition empty_effects : EffectDb := {| xd_heads := []; xd_audit := []; xd_quarantine := [] |}.

(** Any runner forwards any list of records. *)
Inductive ingest_step : EffectDb -> EffectDb -> Prop :=
| ingest_any db operator_sub tenant_id runner_id records gw now :
    ingest_step db (ingest_effect_or_quarantine sha256 operator_sub tenant_id runner_id records gw now db).1.

Lemma own_head_iff t r x : own_head t r x = true <-> (rx_tenant_id x, rx_runner_id x) = (t, r).
Proof. unfold own_head. rewrite andb_true_iff, !bool_decide_eq_true. split; [by intros [-> ->]|by intros [= -> ->]]. Qed.

(** An upsert answers the query of its own key, and of no other. *)
Lemma find_upsert_same {A} (q : A -> bool) new rows :
  q new = true ->
  List.find q (if existsb q rows then update_where q (fun _ => new) rows else rows ++ [new]) = Some new.
Proof.
  intros Hq. induction rows as [|x rows IH]; simpl; [by rewrite Hq|]. destruct (q x) eqn:E; simpl.
  - by rewrite Hq.
  - destruct (existsb q rows); simpl; by rewrite E.
Qed.

Lemma find_upsert_other {A} (p q : A -> bool) new rows :
  p new = false -> (forall x, q x = true -> p x = false) ->
  List.find p (if existsb q rows then update_where q (fun _ => new) rows else rows ++ [new]) = List.find p rows.
Proof.
  intros Hn Hp. induction rows as [|x rows IH]; simpl; [by rewrite Hn|]. destruct (q x) eqn:E; simpl.
  - rewrite Hn, (Hp _ E). destruct (existsb q rows) eqn:Ex; simpl in IH; [done|].
    rewrite update_where_none; [done|]. intros y Hy. destruct (q y) eqn:Ey; [|done].
    by rewrite (existsb_intro _ _ _ Hy Ey) in Ex.
  - destruct (existsb q rows); simpl; by rewrite IH.
Qed.

Lemma head_of_persist t r t' r' n h now db audit quarantine :
  head_of t' r' {| xd_heads := persist_head t r n h now (xd_heads db); xd_audit := audit;
                   xd_quarantine := quarantine |} =
  if bool_decide ((t', r') = (t, r)) then (n, h) else head_of t' r' db.
Proof.
  unfold head_of, load_head, persist_head. simpl. case_bool_decide as E.
  - injection E as -> ->. rewrite find_upsert_same; [done|]. by apply own_head_iff.
  - rewrite find_upsert_other; [done|..].
    + apply not_true_iff_false. rewrite own_head_iff. simpl. congruence.
    + intros x Hx. apply own_head_iff in Hx. apply not_true_iff_false. rewrite own_head_iff. congruence.
Qed.

Lemma accepted_app t r heads audit rows quarantine :
  accepted t r {| xd_heads := heads; xd_audit := audit ++ rows; xd_quarantine := quarantine |} =
  accepted t r {| xd_heads := heads; xd_audit := audit; xd_quarantine := quarantine |} ++
  (xr_record <$> List.filter (row_of t r) rows).
Proof. unfold accepted. simpl. by rewrite List.filter_app, fmap_app. Qed.

(** The rows of a verified batch are its runner's. *)
Lemma accepted_batch sub t r t' r' gw rs n h n' h' :
  verify_records sha256 r rs n h = Ok (n', h') ->
  xr_record <$> List.filter (row_of t' r') (effect_row sub t gw <$> rs) =
  if bool_decide ((t', r') = (t, r)) then rs else [].
Proof.
  intros H. apply verify_seqs in H as [_ Hi].
  assert (Forall (fun x => er_runner_id x = r) rs) as Hr.
  { apply Forall_lookup. intros i x Hx. by apply Hi in Hx as [_ ?]. }
  clear Hi.
  assert (forall x, row_of t' r' (effect_row sub t gw x) = bool_decide (t = t') && bool_decide (er_runner_id x = r'))
    as Hrow by done.
  destruct (decide ((t', r') = (t, r))) as [E|E].
  - rewrite bool_decide_true by done. injection E as -> ->. induction Hr as [|x rs Hx Hr IH]; [done|]. csimpl.
    rewrite Hrow, Hx, !bool_decide_eq_true_2 by done. csimpl. by rewrite IH.
  - rewrite bool_decide_false by done. induction Hr as [|x rs Hx Hr IH]; [done|]. csimpl. rewrite Hrow, Hx.
    destruct (bool_decide (t = t')) eqn:Et, (bool_decide (r = r')) eqn:Er; try done. to_prop. congruence.
Qed.

(** The head of every runner is the end of the chain of its accepted records. *)
Definition chain_inv (db : EffectDb) : Prop :=
  forall t r, verify_records sha256 r (accepted t r db) (-1) GENESIS_PREV_HASH = Ok (head_of t r db).

Lemma ingest_Ok sub t r rs gw now db db' :
  ingest_effect_records sha256 sub t r rs gw now db = Ok db' ->
  rs = [] /\ db' = db \/
  exists n h, verify_records sha256 r rs (head_of t r db).1 (head_of t r db).2 = Ok (n, h) /\
    db' = {| xd_heads := persist_head t r n h now (xd_heads db);
             xd_audit := xd_audit db ++ (effect_row sub t gw <$> rs); xd_quarantine := xd_quarantine db |}.
Proof.
  unfold ingest_effect_records, head_of. intros H. destruct rs as [|x rs]; [left; by injection H as <-|right].
  destruct (load_head t r db) as [hd|]; apply bind_Ok in H as ([n h] & Hv & [= <-]); eauto.
Qed.

Lemma ingest_Raise sub t r rs gw now db e :
  ingest_effect_records sha256 sub t r rs gw now db = Raise e -> exists x, x ∈ rs /\ er_seq x = tamper_seq e.
Proof.
  unfold ingest_effect_records. intros H. destruct rs as [|x rs]; [done|].
  destruct (load_head t r db) as [hd|]; apply bind_Raise in H as [H|([n h] & _ & H)]; [by apply verify_Raise in H|done|by apply verify_Raise in H|done].
Qed.

Lemma ingest_chain_inv sub t r rs gw now db db' :
  chain_inv db -> ingest_effect_records sha256 sub t r rs gw now db = Ok db' -> chain_inv db'.
Proof.
  intros Hinv H. apply ingest_Ok in H as [[_ ->]|(n & h & Hv & ->)]; [done|]. intros t' r'.
  rewrite head_of_persist, accepted_app, (accepted_batch _ _ _ _ _ _ _ _ _ _ _ Hv), verify_app.
  change (accepted t' r' _) with (accepted t' r' db). rewrite Hinv. case_bool_decide as E.
  - injection E as -> ->. by destruct (head_of t r db).
  - by destruct (head_of t' r' db).
Qed.

Lemma step_chain_inv db db' : ingest_step db db' -> chain_inv db -> chain_inv db'.
Proof.
  intros Hstep Hinv. destruct Hstep as [db sub t r rs gw now]. unfold ingest_effect_or_quarantine.
  destruct (ingest_effect_records _ _ _ _ _ _ _ _) as [db'|] eqn:E; [by apply ingest_chain_inv in E|exact Hinv].
Qed.

Lemma reachable_chain_inv db : rtc ingest_step empty_effects db -> chain_inv db.
Proof.
  assert (forall x y, rtc ingest_step x y -> chain_inv x -> chain_inv y) as H.
  { induction 1 as [|x y z Hs _ IH]; [done|]. intros Hx. by apply IH, (step_chain_inv x). }
  intros Hr. by apply (H _ _ Hr).
Qed.

(** C27. The effect log at the centre is tamper-evident.  However runners forward
    records, in any order and number, the records accepted of one runner are
    numbered from zero without a gap, each names the hash of the one before, and
    the stored head is the end of that chain; and no other list of records,
    altered, cut, extended or reordered anywhere, verifies up to the same head. *)
Theorem effect_chain_is_tamper_evident (db : EffectDb) (tenant_id : uuid) (runner_id : string) :
  (forall a b, sha256 a = sha256 b -> a = b) -> (forall a, has_char "{" (sha256 a) = false) ->
  rtc ingest_step empty_effects db ->
  verify_records sha256 runner_id (accepted tenant_id runner_id db) (-1) GENESIS_PREV_HASH =
    Ok (head_of tenant_id runner_id db) /\
  (forall i r, accepted tenant_id runner_id db !! i = Some r -> er_seq r = Z.of_nat i /\ er_runner_id r = runner_id) /\
  (forall rs, verify_records sha256 runner_id rs (-1) GENESIS_PREV_HASH = Ok (head_of tenant_id runner_id db) ->
     rs = accepted tenant_id runner_id db).
Proof.
  intros Hinj Hhex Hr. pose proof (reachable_chain_inv _ Hr tenant_id runner_id) as Hv.
  destruct (head_of tenant_id runner_id db) as [n h]. split; [done|]. split.
  - apply verify_seqs in Hv as [_ Hi]. intros i r Hir. apply Hi in Hir as [-> ?]. split; [lia|done].
  - intros rs Hrs. by apply (verify_head_unique Hinj Hhex runner_id (-1)%Z GENESIS_PREV_HASH eq_refl rs _ n h).
Qed.

(** A forward that breaks the chain leaves the chains and the accepted records
    of every runner as they are: it writes one quarantine row, of the record that
    broke it. *)
Theorem refused_forward_is_quarantined operator_sub (tenant_id : uuid) (runner_id : string) records gw now (db : EffectDb) e :
  (ingest_effect_or_quarantine sha256 operator_sub tenant_id runner_id records gw now db).2 = Raise e ->
  let db' := (ingest_effect_or_quarantine sha256 operator_sub tenant_id runner_id records gw now db).1 in
  xd_heads db' = xd_heads db /\ xd_audit db' = xd_audit db /\
  xd_quarantine db' = xd_quarantine db ++
    [{| xq_tenant_id := tenant_id; xq_runner := runner_id; xq_seq := tamper_seq e |}] /\
  exists r, r ∈ records /\ er_seq r = tamper_seq e.
Proof.
  unfold ingest_effect_or_quarantine. destruct (ingest_effect_records _ _ _ _ _ _ _ _) as [db'|e'] eqn:E; [done|].
  simpl. intros [= ->]. split_and!; try done. by apply ingest_Raise in E.
Qed.

(** * An honest runner *)

(** A directory without a record that its head does not cover. *)
Definition settled (d : ChainDir) : Prop :=
  exists n h, read_head d = Ok (n, h) /\ Forall (fun r => er_seq r <= n)%Z (unforwarded d).

(** The last number of the files. *)
Definition last_file (d : ChainDir) : Z := match last (unforwarded d) with Some r => er_seq r | None => (-1)%Z end.

(** One runner of a tenant and the centre: an append, an append that stops after
    its record, and a forward with its drain. *)
Inductive honest_step (tenant_id : uuid) (runner_id : string) : ChainDir * EffectDb -> ChainDir * EffectDb -> Prop :=
| hs_append d db e now d' r :
    append sha256 runner_id e now d = Ok (d', r) -> honest_step tenant_id runner_id (d, db) (d', db)
| hs_crash d db e now d' r :
    append_record sha256 runner_id e now d = Ok (d', r) -> honest_step tenant_id runner_id (d, db) (d', db)
| hs_forward d db sub gw now db' :
    settled d -> ingest_effect_records sha256 sub tenant_id runner_id (unforwarded d) gw now db = Ok db' ->
    honest_step tenant_id runner_id (d, db) (mark_forwarded (last_file d) d, db').

(** The files carry the chain from the head at the centre to the head of the
    directory, and at most one record beyond it. *)
Definition honest_inv (tenant_id : uuid) (runner_id : string) (w : ChainDir * EffectDb) : Prop :=
  exists pend orphan n h,
    ch_files w.1 = pend ++ orphan /\ read_head w.1 = Ok (n, h) /\
    verify_records sha256 runner_id pend (head_of tenant_id runner_id w.2).1 (head_of tenant_id runner_id w.2).2 = Ok (n, h) /\
    (orphan = [] \/ exists x, orphan = [x] /\ er_seq x = (n + 1)%Z).

Lemma put_file_last r rs orphan :
  Forall (fun x => er_seq x < er_seq r)%Z rs -> (orphan = [] \/ exists x, orphan = [x] /\ er_seq x = er_seq r) ->
  put_file r (rs ++ orphan) = rs ++ [r].
Proof.
  intros Hlt Ho. induction Hlt as [|x rs Hx Hlt IH]; simpl.
  - destruct Ho as [->|(x & -> & Hx)]; [done|]. simpl. by rewrite Hx, Z.ltb_irrefl, Z.eqb_refl.
  - destruct (Z.ltb_spec (er_seq r) (er_seq x)); [lia|]. destruct (Z.eqb_spec (er_seq r) (er_seq x)); [lia|]. by rewrite IH.
Qed.

Lemma verify_bound runner rs n h n' h' :
  verify_records sha256 runner rs n h = Ok (n', h') -> Forall (fun x => n < er_seq x <= n')%Z rs.
Proof.
  intros H. apply verify_seqs in H as [-> Hi]. apply Forall_lookup. intros i x Hx.
  pose proof (lookup_lt_Some _ _ _ Hx). apply Hi in Hx as [-> _]. lia.
Qed.

Lemma next_record_link runner n h e now :
  verify_link sha256 (next_record sha256 runner n h e now) runner n h = Ok tt.
Proof. by apply verify_link_Ok. Qed.

Lemma append_record_Ok runner e now d d' r :
  append_record sha256 runner e now d = Ok (d', r) ->
  exists n h, read_head d = Ok (n, h) /\ r = next_record sha256 runner n h e now /\ d' = write_record r d.
Proof. unfold append_record. intros H. apply bind_Ok in H as ([n h] & Hh & [= <- <-]). eauto. Qed.

Lemma honest_inv_record t r d db e now d' x :
  honest_inv t r (d, db) -> append_record sha256 r e now d = Ok (d', x) ->
  exists pend n h, ch_files d' = pend ++ [x] /\ read_head d' = Ok (n, h) /\ er_seq x = (n + 1)%Z /\
    verify_records sha256 r pend (head_of t r db).1 (head_of t r db).2 = Ok (n, h) /\
    verify_records sha256 r (pend ++ [x]) (head_of t r db).1 (head_of t r db).2 = Ok (er_seq x, er_record_hash x).
Proof.
  intros (pend & orphan & n & h & Hf & Hh & Hv & Ho) H. apply append_record_Ok in H as (n1 & h1 & Hh1 & -> & ->).
  simpl in *. rewrite Hh in Hh1. injection Hh1 as <- <-. exists pend, n, h. split_and!; try done.
  - simpl. rewrite Hf. apply put_file_last; [|exact Ho]. apply verify_bound in Hv. eapply Forall_impl; [exact Hv|].
    simpl. lia.
  - apply verify_snoc. exists n, h. by rewrite next_record_link.
Qed.

Lemma settled_files t r d db :
  honest_inv t r (d, db) -> settled d -> exists n h, read_head d = Ok (n, h) /\
    verify_records sha256 r (unforwarded d) (head_of t r db).1 (head_of t r db).2 = Ok (n, h).
Proof.
  intros (pend & orphan & n & h & Hf & Hh & Hv & Ho) (n' & h' & Hh' & Hall). simpl in *. rewrite Hh in Hh'.
  injection Hh' as <- <-. exists n, h. split; [done|]. unfold unforwarded in *. rewrite Hf in *.
  destruct Ho as [->|(x & -> & Hx)]; [by rewrite app_nil_r|]. apply Forall_app in Hall as [_ Hall].
  apply Forall_cons in Hall as [Hall _]. lia.
Qed.
Lemma head_of_ingest sub t r rs gw now db db' :
  ingest_effect_records sha256 sub t r rs gw now db = Ok db' ->
  verify_records sha256 r rs (head_of t r db).1 (head_of t r db).2 = Ok (head_of t r db') /\
  accepted t r db' = accepted t r db ++ rs.
Proof.
  intros [[-> ->]|(n & h & Hv & ->)]%ingest_Ok; [rewrite app_nil_r; by destruct (head_of t r db)|].
  rewrite head_of_persist, bool_decide_true by done. split; [done|].
  by rewrite accepted_app, (accepted_batch _ _ _ _ _ _ _ _ _ _ _ Hv), bool_decide_true.
Qed.

Lemma ingest_verified sub t r rs gw now db nh :
  verify_records sha256 r rs (head_of t r db).1 (head_of t r db).2 = Ok nh ->
  exists db', ingest_effect_records sha256 sub t r rs gw now db = Ok db'.
Proof.
  unfold ingest_effect_records, head_of. intros H. destruct rs as [|x rs]; [eauto|].
  destruct nh as [n h], (load_head t r db); cbn [fst snd] in H; rewrite H; simpl; eauto.
Qed.

Lemma ingest_gap sub t r x gw now db :
  er_runner_id x = r -> er_seq x <> ((head_of t r db).1 + 1)%Z ->
  ingest_effect_records sha256 sub t r [x] gw now db = Raise (chain_gap (er_seq x)).
Proof.
  unfold ingest_effect_records, head_of. intros Hr Hs.
  destruct (load_head t r db); cbn [fst snd] in Hs; simpl; unfold verify_link;
    rewrite (bool_decide_true (er_runner_id x = r)) by done; apply Z.eqb_neq in Hs; simpl in *; by rewrite Hs.
Qed.

(** The drain after an accepted forward takes every file. *)
Lemma drain_all runner d n h n' h' :
  verify_records sha256 runner (ch_files d) n h = Ok (n', h') -> ch_files (mark_forwarded (last_file d) d) = [].
Proof.
  unfold last_file, unforwarded, mark_forwarded. simpl. intros H.
  assert (forall x, x ∈ ch_files d -> (er_seq x <= match last (ch_files d) with Some y => er_seq y | None => -1 end)%Z) as Hle.
  { destruct (ch_files d) as [|y rs _] using rev_ind; [by intros x ?%elem_of_nil|]. rewrite last_snoc.
    intros x Hx. apply verify_snoc in H as Hs. destruct Hs as (n1 & h1 & _ & _ & -> & _).
    apply verify_bound in H. rewrite Forall_forall in H. by apply H in Hx as [_ ?]. }
  destruct (delete_where _ _) as [|x rs] eqn:E; [done|].
  assert (x ∈ delete_where (fun r => er_seq r <=? match last (ch_files d) with Some y => er_seq y | None => -1 end)%Z (ch_files d))
    as Hx by (rewrite E; by left).
  apply elem_of_delete in Hx as [Hx Hlt]. apply Hle in Hx. apply Z.leb_gt in Hlt. lia.
Qed.

Lemma honest_inv_step t r w w' : honest_step t r w w' -> honest_inv t r w -> honest_inv t r w'.
Proof.
  intros Hstep Hinv. destruct Hstep as [d db e now d' x Ha|d db e now d' x Ha|d db sub gw now db' Hs Hi].
  - unfold append in Ha. apply bind_Ok in Ha as ([d1 x1] & Ha & [= <- <-]).
    eapply honest_inv_record in Ha as (pend & n & h & Hf & Hh & Hx & _ & Hv); [|exact Hinv].
    exists (pend ++ [x1]), [], (er_seq x1), (er_record_hash x1). simpl. rewrite Hf, app_nil_r. auto.
  - eapply honest_inv_record in Ha as (pend & n & h & Hf & Hh & Hx & Hv & _); [|exact Hinv].
    exists pend, [x], n, h. eauto 10.
  - destruct (settled_files _ _ _ _ Hinv Hs) as (n & h & Hh & Hv). pose proof (drain_all _ _ _ _ _ _ Hv) as Hd.
    apply head_of_ingest in Hi as [Hv' _]. rewrite Hv in Hv'. injection Hv' as Hv'.
    exists [], [], n, h. cbn [fst snd]. rewrite <- Hv'. rewrite Hd. auto.
Qed.

Lemma honest_inv_reachable t r db0 w :
  head_of t r db0 = ((-1)%Z, GENESIS_PREV_HASH) -> rtc (honest_step t r) (empty_chain, db0) w -> honest_inv t r w.
Proof.
  intros H0. assert (honest_inv t r (empty_chain, db0)) as Hi.
  { exists [], [], (-1)%Z, GENESIS_PREV_HASH. simpl. rewrite H0. auto. }
  intros H. induction H as [|x y z Hs _ IH]; [done|]. by eapply IH, honest_inv_step.
Qed.

(** The centre accepts an honest runner.  However appends, stops between a
    record and its head, and forwards alternate, a directory whose head covers its
    records is accepted as it is, the records join the accepted ones in order, and
    the centre's head becomes the directory's. *)
Theorem honest_chain_is_accepted (tenant_id : uuid) (runner_id : string) db0 d db operator_sub gw now :
  head_of tenant_id runner_id db0 = ((-1)%Z, GENESIS_PREV_HASH) ->
  rtc (honest_step tenant_id runner_id) (empty_chain, db0) (d, db) -> settled d ->
  exists db', ingest_effect_records sha256 operator_sub tenant_id runner_id (unforwarded d) gw now db = Ok db' /\
    accepted tenant_id runner_id db' = accepted tenant_id runner_id db ++ unforwarded d /\
    read_head d = Ok (head_of tenant_id runner_id db').
Proof.
  intros H0 Hr Hs. destruct (settled_files _ _ _ _ (honest_inv_reachable _ _ _ _ H0 Hr) Hs) as (n & h & Hh & Hv).
  destruct (ingest_verified operator_sub _ _ _ gw now _ _ Hv) as [db' Hi]. exists db'. split; [done|].
  apply head_of_ingest in Hi as [Hv' ->]. rewrite Hv in Hv'. injection Hv' as <-. done.
Qed.

(** A record that a stop left beyond the head breaks the chain once it is
    forwarded: the centre accepts it, the next append uses its number again, and
    what the runner forwards then is refused as tampering. *)
Theorem orphan_forward_breaks_chain (tenant_id : uuid) (runner_id : string) db0 d db operator_sub gw now e t1 d1 x :
  head_of tenant_id runner_id db0 = ((-1)%Z, GENESIS_PREV_HASH) ->
  rtc (honest_step tenant_id runner_id) (empty_chain, db0) (d, db) ->
  append_record sha256 runner_id e t1 d = Ok (d1, x) ->
  exists db1, ingest_effect_records sha256 operator_sub tenant_id runner_id (unforwarded d1) gw now db = Ok db1 /\
  forall e2 t2 d2 y, append sha256 runner_id e2 t2 (mark_forwarded (last_file d1) d1) = Ok (d2, y) ->
    er_seq y = er_seq x /\
    ingest_effect_records sha256 operator_sub tenant_id runner_id (unforwarded d2) gw now db1 = Raise (chain_gap (er_seq y)).
Proof.
  intros H0 Hr Ha. pose proof (honest_inv_reachable _ _ _ _ H0 Hr) as Hinv.
  eapply honest_inv_record in Ha as (pend & n & h & Hf & Hh & Hx & _ & Hv); [|exact Hinv]. rewrite <- Hf in Hv.
  destruct (ingest_verified operator_sub _ _ _ gw now _ _ Hv) as [db1 Hi]. exists db1. split; [done|].
  apply head_of_ingest in Hi as [Hv' _]. unfold unforwarded in Hv'. rewrite Hv in Hv'. injection Hv' as Hv'.
  intros e2 t2 d2 y Hy. unfold append in Hy. apply bind_Ok in Hy as ([d2' y'] & Hy & [= <- <-]).
  apply append_record_Ok in Hy as (n' & h' & Hh' & -> & ->). change (read_head _) with (read_head d1) in Hh'.
  rewrite Hh in Hh'. injection Hh' as <- <-. unfold unforwarded. cbn [ch_files write_head write_record].
  rewrite (drain_all _ _ _ _ _ _ Hv). split; [by rewrite Hx|]. unfold ingest_effect_records. cbn [put_file].
  pose proof (ingest_gap operator_sub tenant_id runner_id (next_record sha256 runner_id n h e2 t2) gw now db1) as Hg.
  apply Hg; [done|]. rewrite <- Hv'. simpl. simpl in Hx. lia.
Qed.
End ChainFacts.

(** * Witnesses *)

(** A stand-in for the digest that is injective and writes no brace. *)
Fixpoint hex_of (s : string) : string :=
  match s with
  | "" => ""
  | String c s' => if Ascii.eqb c "{" then String "(" (String "1" (hex_of s')) else String c (String "0" (hex_of s'))
  end.

Lemma hex_of_inj a b : hex_of a = hex_of b -> a = b.
Proof.
  revert b. induction a as [|c a IH]; intros [|d b] H; simpl in H; try done;
    repeat case_match; try done; injection H; intros; subst; f_equal; try (by apply IH);
    repeat match goal with E : Ascii.eqb _ _ = true |- _ => apply Ascii.eqb_eq in E as -> end; try done.
Qed.

Lemma hex_of_brace a : has_char "{" (hex_of a) = false.
Proof.
  induction a as [|c a IH]; [done|]. cbn [hex_of]. destruct (Ascii.eqb c "{") eqn:E; cbn [has_char]; rewrite IH.
  - done.
  - rewrite Ascii.eqb_sym, E. done.
Qed.

Definition demo_effect : Effect := {|
  ef_phase := INTENT; ef_command_id := "c1"; ef_op_id := "vm.restart"; ef_params_hash := "p"; ef_signature := Some "s";
  ef_target_scope := "t1"; ef_outcome := None |}.

Definition demo_gateway : GatewayDb := {| gw_commands := []; gw_audit := [] |}.

Definition demo_record : EffectAuditRecord := next_record hex_of "r1" (-1) GENESIS_PREV_HASH demo_effect 5.

Lemma effect_chain_is_tamper_evident_witness :
  exists db, accepted "t1" "r1" db = [demo_record] /\ rtc (ingest_step hex_of) empty_effects db /\
    forall rs, verify_records hex_of "r1" rs (-1) GENESIS_PREV_HASH = Ok (head_of "t1" "r1" db) -> rs = [demo_record].
Proof.
  set (db := (ingest_effect_or_quarantine hex_of "a" "t1" "r1" [demo_record] demo_gateway 6 empty_effects).1).
  assert (rtc (ingest_step hex_of) empty_effects db) as Hr by (apply rtc_once; constructor).
  assert (accepted "t1" "r1" db = [demo_record]) as Ha by (by vm_compute).
  exists db. split; [done|]. split; [done|]. rewrite <- Ha.
  apply (effect_chain_is_tamper_evident hex_of db "t1" "r1" hex_of_inj hex_of_brace Hr).
Defined.

Lemma refused_forward_is_quarantined_witness :
  exists e, let r := ingest_effect_or_quarantine hex_of "a" "t1" "r2" [demo_record] demo_gateway 6 empty_effects in
    r.2 = Raise e /\ xd_audit r.1 = [] /\ length (xd_quarantine r.1) = 1.
Proof.
  exists (foreign_runner 0). pose proof (refused_forward_is_quarantined hex_of "a" "t1" "r2" [demo_record] demo_gateway 6
    empty_effects (foreign_runner 0)) as H. specialize (H ltac:(by vm_compute)).
  destruct H as (_ & Ha & Hq & _). split; [by vm_compute|]. by rewrite Ha, Hq.
Defined.

Lemma honest_chain_is_accepted_witness :
  exists d db', unforwarded d = [demo_record] /\
    ingest_effect_records hex_of "a" "t1" "r1" (unforwarded d) demo_gateway 6 empty_effects = Ok db' /\
    read_head d = Ok (head_of "t1" "r1" db').
Proof.
  set (d := write_head 0 (er_record_hash demo_record) (write_record demo_record empty_chain)).
  destruct (honest_chain_is_accepted hex_of "t1" "r1" empty_effects d empty_effects "a" demo_gateway 6) as (db' & Hi & _ & Hh).
  - done.
  - apply rtc_once. apply (hs_append _ _ _ _ _ demo_effect 5 _ demo_record). by vm_compute.
  - exists 0%Z, (er_record_hash demo_record). split; [done|]. by repeat constructor.
  - exists d, db'. split_and!; done.
Defined.

Lemma orphan_forward_breaks_chain_witness :
  exists d1 db1, append_record hex_of "r1" demo_effect 5 empty_chain = Ok (d1, demo_record) /\
    ingest_effect_records hex_of "a" "t1" "r1" (unforwarded d1) demo_gateway 6 empty_effects = Ok db1 /\
    exists d2 y, append hex_of "r1" demo_effect 7 (mark_forwarded (last_file d1) d1) = Ok (d2, y) /\
      ingest_effect_records hex_of "a" "t1" "r1" (unforwarded d2) demo_gateway 6 db1 = Raise (chain_gap (er_seq y)).
Proof.
  set (d1 := write_record demo_record empty_chain).
  assert (append_record hex_of "r1" demo_effect 5 empty_chain = Ok (d1, demo_record)) as Ha by (by vm_compute).
  destruct (orphan_forward_breaks_chain hex_of "t1" "r1" empty_effects empty_chain empty_effects "a" demo_gateway 6
    demo_effect 5 d1 demo_record eq_refl (rtc_refl _ _) Ha) as (db1 & Hi & H).
  exists d1, db1. split; [done|]. split; [done|].
  set (y := next_record hex_of "r1" (-1) GENESIS_PREV_HASH demo_effect 7).
  exists (write_head 0 (er_record_hash y) (write_record y empty_chain)), y.
  assert (append hex_of "r1" demo_effect 7 (mark_forwarded (last_file d1) d1) =
          Ok (write_head 0 (er_record_hash y) (write_record y empty_chain), y)) as E by (by vm_compute).
  split; [done|]. by apply H in E as [_ ?].
Defined.
