(* ===== verification/GatewayRoutes.v ===== *)
(** The two routes of the runners' command plane ([api/v1/gateway.py]): the long
    poll, which holds until a command is there or the wait is over, and the report
    of a result, which is one transaction over the queue, the dead-man marker and
    the effect chain.

    The poll reads the event loop's clock.  Time passes in a claim and in a sleep;
    both durations, and what other transactions do meanwhile, are arguments.  A
    sleep lasts at least as long as asked, as [asyncio.sleep] documents; [rounds]
    says by how much more. *)

From S2P Require Import Prelude Json Identity GatewayQueue RunnerPrincipals WireText EffectChain.

(** The tables of the routes. *)
Record RoutesDb := { ro_runners : RunnerDb; ro_gateway : GatewayDb; ro_effects : EffectDb }.

Definition with_runners (r : RunnerDb) (db : RoutesDb) : RoutesDb :=
  {| ro_runners := r; ro_gateway := ro_gateway db; ro_effects := ro_effects db |}.
Definition with_gateway (g : GatewayDb) (db : RoutesDb) : RoutesDb :=
  {| ro_runners := ro_runners db; ro_gateway := g; ro_effects := ro_effects db |}.

(** The headers and the token of a runner's request. *)
Record RunnerRequest := {
  rq_operator : Operator;
  rq_runner_id : option uuid;
  rq_wire_version : option string;
  rq_package_set : option string;
}.

(** The dependencies of a runner route, in order, and the scope gate: each writes
    in a transaction of its own. *)
Definition route_guard (empty_digest : string) (rq : RunnerRequest) (runner : string) (now : datetime)
  : txn RunnerDb RunnerError RunnerPrincipal :=
  runner_id ← lift_res (require_runner (rq_operator rq) (rq_runner_id rq));
  wire_version ← runner_wire_version (rq_operator rq) runner_id (rq_wire_version rq);
  package_set ← lift_res (runner_package_set empty_digest (rq_package_set rq));
  assert_runner_scope (rq_operator rq) runner_id runner wire_version package_set now.

(** * The long poll *)

Record GatewayCommandEnvelope := {
  ge_id : uuid;
  ge_op_id : string;
  ge_params : json_dict;
  ge_target_descriptor : option json_dict;
  ge_signature : option string;
  ge_expires_at : option datetime;
}.

Definition envelope (c : GatewayCommand) : GatewayCommandEnvelope := {|
  ge_id := gc_id c; ge_op_id := gc_op_id c; ge_params := gc_params c; ge_target_descriptor := gc_target_descriptor c;
  ge_signature := gc_signature c; ge_expires_at := Some (gc_expires_at c) |}.

(** In microseconds. *)
Definition CLAIM_POLL_INTERVAL : Z := 1000000.

(** One turn of the loop: the wall clock of the claim, how long the claim took and
    how much longer than asked the sleep was, and what other transactions did to
    the queue before the next turn. *)
Record Round := {
  rn_now : datetime;
  rn_claim : N;
  rn_late : N;
  rn_others : GatewayDb -> GatewayDb;
}.

Inductive PollAnswer := poll_command (e : GatewayCommandEnvelope) | poll_no_content.

Section Poll.
Context (params_digest : json_dict -> string) (tenant_id : uuid) (runner : string) (runner_revoked : bool).
Context (rounds : nat -> Round) (deadline : Z).

(** [k] is the number of the turn and [time] the loop's clock when it begins;
    [None] when the fuel ends first. *)
Fixpoint poll_loop (fuel k : nat) (time : Z) (db : GatewayDb) : option (GatewayDb * PollAnswer * Z) :=
  match fuel with
  | 0 => None
  | S fuel' =>
      let r := rounds k in
      let '(db', claimed) := claim_next_command params_digest tenant_id runner runner_revoked (rn_now r) db in
      let time' := (time + Z.of_N (rn_claim r))%Z in
      match claimed with
      | Some command => Some (db', poll_command (envelope command), time')
      | None =>
          let remaining := (deadline - time')%Z in
          if (remaining <=? 0)%Z then Some (db', poll_no_content, time')
          else poll_loop fuel' (S k) (time' + Z.min CLAIM_POLL_INTERVAL remaining + Z.of_N (rn_late r))%Z (rn_others r db')
      end
  end.
End Poll.

(** The turns a poll may need: one per second of the longest wait, and one. *)
Definition POLL_FUEL : nat := 31.

Definition poll_next_command (params_digest : json_dict -> string) (empty_digest : string) (rounds : nat -> Round)
  (rq : RunnerRequest) (runner : string) (wait : Z) (now : datetime) (time : Z) (db : RoutesDb)
  : RoutesDb * res RunnerError (option (PollAnswer * Z)) :=
  match route_guard empty_digest rq runner now (ro_runners db) with
  | (runners, Raise e) => (with_runners runners db, Raise e)
  | (runners, Ok principal) =>
      let db1 := with_runners runners db in
      let deadline := (time + clamp_longpoll_wait wait * 1000000)%Z in
      match poll_loop params_digest (op_tenant_id (rq_operator rq)) runner (rp_revoked principal) rounds deadline POLL_FUEL 0 time
              (ro_gateway db1) with
      | None => (db1, Ok None)
      | Some (gw, answer, ended) => (with_gateway gw db1, Ok (Some (answer, ended)))
      end
  end.

(** * The report *)

Record GatewayResultBody := {
  gb_command_id : uuid;
  gb_outcome : GatewayCommandStatus;
  gb_result : option json_dict;
  gb_error : option string;
  gb_effect_records : list EffectAuditRecord;
}.

(** The refusals of the route and their status codes. *)
Inductive RouteError :=
| route_guard_error (e : RunnerError)
| command_not_found | command_already_consumed | command_not_delivered (status : GatewayCommandStatus)
| effect_chain_tamper (e : EffectChainTamperError)
| route_server_error.

Definition status_code (e : RouteError) : Z :=
  match e with
  | route_guard_error RunnerHeaderInvalid => 400
  | route_guard_error RunnerWireVersionMismatch => 409
  | route_guard_error _ => 403
  | command_not_found => 404
  | command_already_consumed | command_not_delivered _ | effect_chain_tamper _ => 409
  | route_server_error => 500
  end.

Definition route_error (e : GatewayError) : RouteError :=
  match e with
  | GatewayCommandNotFoundError => command_not_found
  | GatewayCommandAlreadyConsumedError => command_already_consumed
  | GatewayCommandNotDeliveredError s => command_not_delivered s
  | GatewayOutcomeError | GatewayIntegrityError => route_server_error
  end.

Record GatewayResultAck := { gk_command_id : uuid; gk_status : GatewayCommandStatus; gk_completed_at : option datetime }.

(** [now] and [now'] are the clocks of the guard and of the transaction. *)
Definition report_command_result (sha256 : string -> string) (empty_digest : string) (rq : RunnerRequest) (runner : string)
  (body : GatewayResultBody) (now now' : datetime) : txn RoutesDb RouteError GatewayResultAck := fun db =>
  let tenant := op_tenant_id (rq_operator rq) in
  match route_guard empty_digest rq runner now (ro_runners db) with
  | (runners, Raise e) => (with_runners runners db, Raise (route_guard_error e))
  | (runners, Ok _) =>
      let db1 := with_runners runners db in
      match accept_command_result (op_sub (rq_operator rq)) tenant runner (gb_command_id body) (gb_outcome body) (gb_result body)
              (gb_error body) now' now' (ro_gateway db1) with
      | (_, Raise e) => (db1, Raise (route_error e))
      | (gw, Ok command) =>
          let ack := {| gk_command_id := gc_id command; gk_status := gc_status command; gk_completed_at := gc_completed_at command |} in
          match ingest_effect_or_quarantine sha256 (op_sub (rq_operator rq)) tenant runner (gb_effect_records body) gw now'
                  (ro_effects db1) with
          | (effects, Raise e) =>
              ({| ro_runners := runners; ro_gateway := ro_gateway db1; ro_effects := effects |}, Raise (effect_chain_tamper e))
          | (effects, Ok _) =>
              ({| ro_runners := clear_runner_stale tenant runner runners; ro_gateway := gw; ro_effects := effects |}, Ok ack)
          end
      end
  end.

(** * The poll ends *)

Section PollFacts.
Context (params_digest : json_dict -> string) (tenant_id : uuid) (runner : string) (runner_revoked : bool).
Implicit Types (rounds : nat -> Round) (db : GatewayDb).

Abbreviation loop := (poll_loop params_digest tenant_id runner runner_revoked).

(** A full second, or all that remains, is slept between two turns. *)
Lemma poll_loop_total rounds deadline fuel k time db :
  (deadline - time <= Z.of_nat fuel * 1000000)%Z -> is_Some (loop rounds deadline (S fuel) k time db).
Proof.
  revert k time db. induction fuel as [|fuel IH]; intros k time db Hd; cbn [poll_loop];
    destruct (claim_next_command _ _ _ _ _ _) as [db' [c|]]; try (by eexists).
  - destruct (Z.leb_spec (deadline - (time + Z.of_N (rn_claim (rounds k)))) 0); [by eexists|lia].
  - destruct (Z.leb_spec (deadline - (time + Z.of_N (rn_claim (rounds k)))) 0); [by eexists|].
    apply IH. unfold CLAIM_POLL_INTERVAL. lia.
Qed.

(** Only the turns it takes are looked at. *)
Lemma poll_loop_rounds rounds rounds' deadline fuel k time db :
  (forall i, k <= i < k + fuel -> rounds' i = rounds i) ->
  loop rounds' deadline fuel k time db = loop rounds deadline fuel k time db.
Proof.
  revert k time db. induction fuel as [|fuel IH]; intros k time db Hr; [done|]. cbn [poll_loop].
  rewrite (Hr k) by lia. destruct (claim_next_command _ _ _ _ _ _) as [db' [c|]]; [done|].
  destruct (_ <=? 0)%Z; [done|]. apply IH. intros i Hi. apply Hr. lia.
Qed.

Lemma poll_loop_more rounds deadline fuel more k time db r :
  loop rounds deadline fuel k time db = Some r -> loop rounds deadline (fuel + more) k time db = Some r.
Proof.
  revert k time db. induction fuel as [|fuel IH]; intros k time db H; [done|]. cbn [poll_loop Nat.add] in *.
  destruct (claim_next_command _ _ _ _ _ _) as [db' [c|]]; [done|]. destruct (_ <=? 0)%Z; [done|]. by apply IH.
Qed.

(** What an answer says of the turn that gave it. *)
Lemma poll_loop_answer rounds deadline fuel k time db db' answer ended :
  loop rounds deadline fuel k time db = Some (db', answer, ended) ->
  exists i before, k <= i < k + fuel /\ match answer with
  | poll_command e => exists c, e = envelope c /\
      claim_next_command params_digest tenant_id runner runner_revoked (rn_now (rounds i)) before = (db', Some c)
  | poll_no_content => (deadline <= ended)%Z /\
      claim_next_command params_digest tenant_id runner runner_revoked (rn_now (rounds i)) before = (db', None)
  end.
Proof.
  revert k time db. induction fuel as [|fuel IH]; intros k time db H; [done|]. cbn [poll_loop] in H.
  destruct (claim_next_command _ _ _ _ _ _) as [db1 [c|]] eqn:Ec.
  - injection H as <- <- <-. exists k, db. split; [lia|]. by exists c.
  - destruct (Z.leb_spec (deadline - (time + Z.of_N (rn_claim (rounds k)))) 0).
    + injection H as <- <- <-. exists k, db. split; [lia|]. split; [lia|done].
    + apply IH in H as (i & before & Hi & H). exists i, before. split; [lia|done].
Qed.
End PollFacts.

Lemma claimed_was_claimable digest t r revoked now db db' c :
  claim_next_command digest t r revoked now db = (db', Some c) ->
  exists x, x ∈ gw_commands db /\ c = deliver now x /\ claimable t r now revoked x = true /\ params_hash_intact digest x = true.
Proof.
  unfold claim_next_command, claim_select. intros H. destruct (pending_claim t r now revoked db) as [x|] eqn:Ep; [|done]. simpl in H.
  destruct (params_hash_intact digest x) eqn:Eh; [|done]. apply pending_claim_spec in Ep as (Hx & Hc & _).
  apply claim_flip_won in H as (-> & _ & _). by exists x.
Qed.

Lemma clamp_bounds wait : (0 <= clamp_longpoll_wait wait <= 30)%Z.
Proof. unfold clamp_longpoll_wait, GATEWAY_LONGPOLL_MAX_WAIT_SECONDS. lia. Qed.

(** A poll ends.  Whatever the durations of claims and sleeps and whatever other
    transactions do to the queue meanwhile, a poll that passed the guard answers
    after at most one turn per second of its clamped wait, and one, so after at
    most 31.  It answers without a command only when the wait is over and the turn
    found nothing to claim; a command it answers was claimable for this tenant and
    runner, with the revocation read at the start, and is the one it delivered. *)
Theorem polls_terminate digest empty_digest rounds rq runner wait now time db runners principal :
  route_guard empty_digest rq runner now (ro_runners db) = (runners, Ok principal) ->
  exists gw answer ended,
    (forall rounds', (forall k, (Z.of_nat k <= clamp_longpoll_wait wait)%Z -> rounds' k = rounds k) ->
       poll_next_command digest empty_digest rounds' rq runner wait now time db =
       ({| ro_runners := runners; ro_gateway := gw; ro_effects := ro_effects db |}, Ok (Some (answer, ended)))) /\
    match answer with
    | poll_no_content => (time + clamp_longpoll_wait wait * 1000000 <= ended)%Z
    | poll_command e => exists k before x,
        (Z.of_nat k <= clamp_longpoll_wait wait)%Z /\ e = envelope (deliver (rn_now (rounds k)) x) /\ x ∈ gw_commands before /\
        claimable (op_tenant_id (rq_operator rq)) runner (rn_now (rounds k)) (rp_revoked principal) x = true /\
        params_hash_intact digest x = true
    end.
Proof.
  intros Hg. destruct (clamp_bounds wait) as [Hlo Hhi]. set (w := Z.to_nat (clamp_longpoll_wait wait)).
  set (deadline := (time + clamp_longpoll_wait wait * 1000000)%Z).
  destruct (poll_loop_total digest (op_tenant_id (rq_operator rq)) runner (rp_revoked principal) rounds deadline w 0 time
    (ro_gateway db)) as [[[gw answer] ended] Hl]; [unfold w, deadline; lia|].
  pose proof (poll_loop_answer _ _ _ _ _ _ _ _ _ _ _ _ _ Hl) as (i & before & Hi & Ha).
  exists gw, answer, ended. split.
  - intros rounds' Hr. unfold poll_next_command. rewrite Hg. cbn [ro_gateway with_runners]. fold deadline.
    replace POLL_FUEL with (S w + (30 - w)) by (unfold POLL_FUEL, w; lia).
    rewrite (poll_loop_more _ _ _ _ _ _ _ _ _ _ _ (gw, answer, ended)); [done|]. rewrite <- Hl. apply poll_loop_rounds. intros k Hk. apply Hr. unfold w in Hk. lia.
  - destruct answer as [e|]; [|by destruct Ha]. destruct Ha as (c & -> & Hc).
    apply claimed_was_claimable in Hc as (x & Hx & -> & Hcl & Hh). exists i, before, x. split_and!; try done. unfold w in Hi. lia.
Qed.

(** * A report is one transaction *)

Lemma find_seen p n t v ps now rid rows :
  List.find (named t n) rows = Some p ->
  exists p', List.find (named t n) (update_where (fun r => bool_decide (rp_id r = rid)) (set_seen v ps now) rows) = Some p' /\
    rp_id p' = rp_id p.
Proof.
  intros H. induction rows as [|x rows IH]; [done|]. cbn [update_where fmap list_fmap List.find] in *.
  assert (forall y, named t n (set_seen v ps now y) = named t n y) as Hn by done.
  destruct (named t n x) eqn:E.
  - injection H as ->. case_bool_decide; rewrite ?Hn, E; by eexists.
  - assert (named t n (if bool_decide (rp_id x = rid) then set_seen v ps now x else x) = false) as -> by (by case_bool_decide; rewrite ?Hn).
    by apply IH.
Qed.

(** A request that passed the guard passes it again. *)
Lemma guard_again empty_digest rq runner now now2 db runners principal :
  route_guard empty_digest rq runner now db = (runners, Ok principal) ->
  exists runners2 principal2, route_guard empty_digest rq runner now2 runners = (runners2, Ok principal2).
Proof.
  unfold route_guard. rewrite !lift_bind. destruct (require_runner _ _) as [rid|e]; [|done].
  intros H. apply txn_bind_inv in H as [(e & E & _)|(d1 & v & Hv & H)]; [discriminate E|].
  assert (d1 = db /\ forall d, runner_wire_version (rq_operator rq) rid (rq_wire_version rq) d = (d, Ok v)) as [-> Hv'].
  { unfold runner_wire_version in *. destruct (rq_wire_version rq) as [h|].
    - destruct (wire_version_pattern h); [|done]. case_bool_decide; [|done]. injection Hv as <- <-. by split.
    - case_bool_decide; [|done]. injection Hv as <- <-. by split. }
  rewrite lift_bind in H. unfold mbind, txn_bind at 1. rewrite Hv'. change (lift_res ?x) with (fun s : RunnerDb => (s, x)).
  destruct (runner_package_set empty_digest (rq_package_set rq)) as [ps|e]; [|done].
  unfold mbind, txn_bind. unfold assert_runner_scope in *.
  destruct (get_runner db _ _) as [row|] eqn:Eg; [|done]. case_bool_decide as Eid; [|done].
  injection H as <- _. unfold get_runner in *.
  destruct (find_seen row runner (op_tenant_id (rq_operator rq)) v ps now (rp_id row) _ Eg) as (row2 & E1 & E2).
  change (rd_runners (set_runners ?f db)) with (f (rd_runners db)). rewrite E1, bool_decide_true by (by rewrite E2). eauto.
Qed.

(** The rows a request's effect records become. *)
Definition effect_rows (rq : RunnerRequest) (body : GatewayResultBody) (gw : GatewayDb) : list EffectRow :=
  effect_row (op_sub (rq_operator rq)) (op_tenant_id (rq_operator rq)) gw <$> gb_effect_records body.

Definition without_records (b : GatewayResultBody) : GatewayResultBody := {|
  gb_command_id := gb_command_id b; gb_outcome := gb_outcome b; gb_result := gb_result b; gb_error := gb_error b;
  gb_effect_records := [] |}.

Lemma guard_marks empty_digest rq runner now db db' r :
  route_guard empty_digest rq runner now db = (db', r) -> rd_marks db' = rd_marks db.
Proof.
  unfold route_guard. rewrite lift_bind. destruct (require_runner _ _) as [rid|e]; [|by intros [= <- _]].
  intros H. assert (forall d d' x, runner_wire_version (rq_operator rq) rid (rq_wire_version rq) d = (d', x) -> rd_marks d' = rd_marks d) as Hw.
  { intros d d' x Hx. unfold runner_wire_version in Hx. destruct (rq_wire_version rq) as [h|]; [destruct (wire_version_pattern h)|];
      try case_bool_decide; by injection Hx as <- _. }
  apply txn_bind_inv in H as [(e & _ & Hv)|(d1 & v & Hv & H)]; apply Hw in Hv; [done|]. rewrite <- Hv.
  rewrite lift_bind in H. destruct (runner_package_set _ _) as [ps|e]; [|by injection H as <- _].
  unfold assert_runner_scope in H. destruct (get_runner _ _ _) as [row|]; [case_bool_decide|]; by injection H as <- _.
Qed.

Lemma accept_facts sub t r id o result error now db db' c :
  NoDup (gc_id <$> gw_commands db) -> accept_command_result sub t r id o result error now now db = (db', Ok c) ->
  finished o /\ gc_id c = id /\ gc_status c = o /\ c ∈ gw_commands db' /\ gc_consumed_at c = Some now /\
  (exists row, gw_audit db' = gw_audit db ++ [row] /\ ga_command_id row = id) /\
  forall later, exists db2 c2, accept_command_result sub t r id o result error later later db = (db2, Ok c2).
Proof.
  intros Hnd H. apply accept_effect in H as (Ho & x & Hx & Hid & Ht & Hr & Hs & Hn & -> & Hc & Ha); [|done].
  split_and!; try done.
  - rewrite Hc. apply elem_of_update. exists x. split; [done|]. by rewrite bool_decide_true.
  - rewrite Ha. eexists. by split.
  - intros later. subst. destruct (accept_delivered db x sub o result error later later Hnd Hx Hs Hn Ho) as [db2 H]. eauto.
Qed.

Lemma quarantine_cases sha256 sub t r rs gw now db db' x :
  ingest_effect_or_quarantine sha256 sub t r rs gw now db = (db', x) ->
  match x with
  | Ok _ => xd_audit db' = xd_audit db ++ (effect_row sub t gw <$> rs)
  | Raise e => xd_heads db' = xd_heads db /\ xd_audit db' = xd_audit db /\
      xd_quarantine db' = xd_quarantine db ++ [{| xq_tenant_id := t; xq_runner := r; xq_seq := tamper_seq e |}]
  end.
Proof.
  unfold ingest_effect_or_quarantine. destruct (ingest_effect_records _ _ _ _ _ _ _ _) as [d|e] eqn:E; intros [= <- <-]; [|done].
  apply ingest_Ok in E as [[-> ->]|(n & h & _ & ->)]; [by rewrite app_nil_r|done].
Qed.

(** A report is taken whole or not at all.  When it is taken, the command has its
    outcome and its one audit row, every forwarded effect record has its row, and
    the dead-man mark is off.  When it is refused, the queue, the chain heads, the
    effect rows and the marks are as they were; only a broken chain leaves a
    quarantine row.  The command of a report refused for its chain is still open:
    the runner can report it again. *)
Theorem reports_are_atomic sha256 empty_digest rq runner body now now' db db' r :
  NoDup (gc_id <$> gw_commands (ro_gateway db)) ->
  report_command_result sha256 empty_digest rq runner body now now' db = (db', r) ->
  match r with
  | Ok ack =>
      gk_command_id ack = gb_command_id body /\ gk_status ack = gb_outcome body /\
      (exists c, c ∈ gw_commands (ro_gateway db') /\ gc_id c = gk_command_id ack /\ gc_status c = gk_status ack /\
         gc_consumed_at c = Some now') /\
      (exists row, gw_audit (ro_gateway db') = gw_audit (ro_gateway db) ++ [row] /\ ga_command_id row = gb_command_id body) /\
      xd_audit (ro_effects db') = xd_audit (ro_effects db) ++ effect_rows rq body (ro_gateway db') /\
      (forall m, m ∈ rd_marks (ro_runners db') -> am_tenant_id m = op_tenant_id (rq_operator rq) -> am_runner_name m = runner ->
         am_stale_at m = None)
  | Raise e =>
      ro_gateway db' = ro_gateway db /\ xd_heads (ro_effects db') = xd_heads (ro_effects db) /\
      xd_audit (ro_effects db') = xd_audit (ro_effects db) /\ rd_marks (ro_runners db') = rd_marks (ro_runners db) /\
      match e with
      | effect_chain_tamper t =>
          xd_quarantine (ro_effects db') = xd_quarantine (ro_effects db) ++
            [{| xq_tenant_id := op_tenant_id (rq_operator rq); xq_runner := runner; xq_seq := tamper_seq t |}] /\
          forall later later', exists db'' ack,
            report_command_result sha256 empty_digest rq runner (without_records body) later later' db' = (db'', Ok ack)
      | _ => xd_quarantine (ro_effects db') = xd_quarantine (ro_effects db)
      end
  end.
Proof.
  intros Hnd H. unfold report_command_result in H.
  destruct (route_guard _ _ _ _ _) as [runners [principal|e]] eqn:Eg; pose proof (guard_marks _ _ _ _ _ _ _ Eg) as Hm;
    [|by injection H as <- <-].
  destruct (accept_command_result _ _ _ _ _ _ _ _ _ _) as [gw [command|e]] eqn:Ea; cbn [with_runners ro_gateway ro_effects] in *;
    [|injection H as <- <-; by destruct e].
  apply accept_facts in Ea as (Ho & Hid & Hst & Hc & Hcon & Hrow & Hagain); [|done].
  destruct (ingest_effect_or_quarantine _ _ _ _ _ _ _ _) as [effects [u|e]] eqn:Ei; injection H as <- <-;
    apply quarantine_cases in Ei; cbn [ro_gateway ro_effects ro_runners] in *.
  - split_and!; try done; [by exists command|]. intros m Hm' Ht Hn. by apply clear_runner_stale_spec in Hm' as [? _]; auto.
  - destruct Ei as (E1 & E2 & E3). split_and!; try done. intros later later'.
    destruct (guard_again _ _ _ _ later _ _ _ Eg) as (runners2 & principal2 & Eg2). destruct (Hagain later') as (gw2 & c2 & Ea2).
    unfold report_command_result. cbn [ro_runners]. rewrite Eg2. cbn [with_runners ro_gateway ro_effects without_records gb_command_id
      gb_outcome gb_result gb_error gb_effect_records]. rewrite Ea2. cbn. eauto.
Qed.

(** * Witnesses *)

Definition w_runner_token : Operator := {|
  op_sub := "runner:edge-1"; op_tenant_id := "t1"; op_tenant_role := READ_ONLY; op_principal_kind := RUNNER;
  op_client_id := None; op_platform_admin := false; op_web_session := false; op_name := None; op_approver := false;
  op_self_approver := false; op_tenant_chosen := false; op_auth_time := None; op_sid := None; op_acr := None; op_azp := None |}.

Definition w_runner_request : RunnerRequest := {|
  rq_operator := w_runner_token; rq_runner_id := Some "rid-1"; rq_wire_version := None; rq_package_set := None |}.

Definition w_for_edge : EnqueueRequest := {|
  en_tenant_id := "t1"; en_runner_id := "edge-1"; en_op_id := "k8s.label"; en_params := [];
  en_enqueued_by_sub := "ann"; en_target_descriptor := None; en_params_hash := None;
  en_expires_at := None; en_mint_audit_id := Some "m"; en_safety_level := "caution" |}.

Definition w_routes (gw : GatewayDb) : RoutesDb :=
  {| ro_runners := w_registered; ro_gateway := gw; ro_effects := empty_effects |}.

(** The command is enqueued while the poll sleeps for the first time. *)
Definition w_rounds (k : nat) : Round := {| rn_now := 10; rn_claim := 5; rn_late := 3;
  rn_others := fun db => if decide (k = 0) then (enqueue_command w_digest w_for_edge "c1" 7 7 db).1 else db |}.

Lemma polls_terminate_witness : exists gw e ended,
  poll_next_command w_digest "d" w_rounds w_runner_request "edge-1" 25 6 0 (w_routes w_empty) =
    ({| ro_runners := (route_guard "d" w_runner_request "edge-1" 6 w_registered).1; ro_gateway := gw; ro_effects := empty_effects |},
     Ok (Some (poll_command e, ended))) /\ ge_id e = "c1".
Proof.
  destruct (route_guard "d" w_runner_request "edge-1" 6 w_registered) as [runners [p|e]] eqn:E; [|by vm_compute in E].
  destruct (polls_terminate w_digest "d" w_rounds w_runner_request "edge-1" 25 6 0 (w_routes w_empty) runners p E)
    as (gw & answer & ended & H & _).
  specialize (H w_rounds ltac:(done)).
  assert ((poll_next_command w_digest "d" w_rounds w_runner_request "edge-1" 25 6 0 (w_routes w_empty)).2 =
    Ok (Some (poll_command (envelope (deliver 10 (new_command w_digest w_for_edge "c1" 7 7))), 1000013%Z))) as Hc by (by vm_compute).
  rewrite H in Hc. injection Hc as -> ->. eexists _, _, _. split; [exact H|done].
Defined.

Definition w_delivered_to_edge : GatewayDb :=
  (claim_next_command w_digest "t1" "edge-1" false 9 (enqueue_command w_digest w_for_edge "c1" 7 7 w_empty).1).1.

(** A record that says it is another runner's. *)
Definition w_tampered : GatewayResultBody := {|
  gb_command_id := "c1"; gb_outcome := gw_succeeded; gb_result := Some []; gb_error := None; gb_effect_records := [demo_record] |}.

Lemma reports_are_atomic_witness : exists db' db'' ack,
  report_command_result hex_of "d" w_runner_request "edge-1" w_tampered 20 21 (w_routes w_delivered_to_edge) =
    (db', Raise (effect_chain_tamper (foreign_runner 0))) /\
  ro_gateway db' = w_delivered_to_edge /\
  report_command_result hex_of "d" w_runner_request "edge-1" (without_records w_tampered) 30 31 db' = (db'', Ok ack).
Proof.
  destruct (report_command_result hex_of "d" w_runner_request "edge-1" w_tampered 20 21 (w_routes w_delivered_to_edge)) as [db' r] eqn:E.
  pose proof (reports_are_atomic hex_of "d" w_runner_request "edge-1" w_tampered 20 21 (w_routes w_delivered_to_edge) db' r
    (NoDup_singleton _) E) as H.
  assert (r = Raise (effect_chain_tamper (foreign_runner 0))) as -> by (vm_compute in E; by injection E as _ <-).
  destruct H as (Hg & _ & _ & _ & _ & Hagain). destruct (Hagain 30%Z 31%Z) as (db'' & ack & Ha). by exists db', db'', ack.
Defined.
