(* ===== verification/SecretValues.v ===== *)
(** What a caller and the audit table see of an answer that holds secrets
    ([operations/_secret_values.py], [_protect_secret_values] of
    [operations/dispatcher.py]): the default view, the view of a person who asked
    for the values, and the copy with fingerprints.

    [hmac_sha256] and the server key are arguments, as in [Approvals]. *)

From stdpp Require Import pretty.
From S2P Require Import Prelude Json SecretNames WireText.

Definition SECRET_VALUE_PLACEHOLDER : string := "[REDACTED:secret_value]".
Definition FINGERPRINT_PREFIX : string := "[FINGERPRINT:hmac-sha256:".
Definition REVEAL_SECRET_PARAM : string := "reveal_secret".

(** * The flag *)

(** [bool(v)]. *)
Definition truthy (v : json) : bool :=
  match v with
  | JNull => false
  | JBool b => b
  | JInt z => bool_decide (z <> 0%Z)
  | JFloat m _ _ => bool_decide (m <> 0%Z)
  | JStr s => bool_decide (s <> "")
  | JList l => bool_decide (l <> [])
  | JDict d => bool_decide (d <> [])
  end.

Definition without_key {A} (k : string) (d : list (string * A)) : list (string * A) :=
  filter (fun kv => kv.1 <> k) d.

(** [{**d, k: v}]: the key keeps its place, or is last. *)
Fixpoint dict_put {A} (k : string) (v : A) (d : list (string * A)) : list (string * A) :=
  match d with
  | [] => [(k, v)]
  | (k', v') :: d' => if bool_decide (k = k') then (k, v) :: d' else (k', v') :: dict_put k v d'
  end.

Definition split_reveal_secret (params : list (string * json)) : list (string * json) * bool :=
  match dict_get REVEAL_SECRET_PARAM params with
  | None => (params, false)
  | Some v => (without_key REVEAL_SECRET_PARAM params, truthy v)
  end.

Definition with_reveal_secret (params : list (string * json)) : list (string * json) :=
  dict_put REVEAL_SECRET_PARAM (JBool true) params.

(** * The default view *)

Fixpoint hide_all (node : json) : json :=
  match node with
  | JDict d => JDict (List.map (fun kv => (kv.1, hide_all kv.2)) d)
  | JList l => JList (List.map hide_all l)
  | _ => JStr SECRET_VALUE_PLACEHOLDER
  end.

(** The other fields, scrubbed, and [k] with the value made for it. *)
Definition scrub_around (k : string) (made : json) (d : list (string * json)) : json :=
  match fst (scrub_secret_named_values true [] (JDict (without_key k d))) with
  | JDict shown => JDict (dict_put k made shown)
  | other => other
  end.

Definition hide_kv_data (answer raw : json) : json :=
  match answer with
  | JDict d =>
      match dict_get "data" d with
      | Some (JDict data) =>
          scrub_around "data" (JDict (List.map (fun kv => (kv.1, JStr SECRET_VALUE_PLACEHOLDER)) data)) d
      | _ => hide_all answer
      end
  | _ => hide_all answer
  end.

Definition hide_env_value (entry : json) : json :=
  match entry with
  | JStr s =>
      match partition_on "=" s with
      | (name, Some _) => JStr (name +:+ String "=" SECRET_VALUE_PLACEHOLDER)
      | _ => JStr SECRET_VALUE_PLACEHOLDER
      end
  | _ => JStr SECRET_VALUE_PLACEHOLDER
  end.

Definition env_entries (redacted_entries : list json) (raw : json) : list json :=
  match raw with
  | JDict r =>
      match dict_get "variables" r with
      | Some (JList raw_entries) =>
          if bool_decide (length raw_entries = length redacted_entries) then raw_entries else redacted_entries
      | _ => redacted_entries
      end
  | _ => redacted_entries
  end.

Definition hide_env_values (answer raw : json) : json :=
  match answer with
  | JDict d =>
      match dict_get "variables" d with
      | Some (JList entries) => scrub_around "variables" (JList (List.map hide_env_value (env_entries entries raw))) d
      | _ => hide_all answer
      end
  | _ => hide_all answer
  end.

Definition VALUE_HIDING_OPS : list (string * (json -> json -> json)) :=
  [("vault.kv.read", hide_kv_data); ("vmware.composite.vm.guest.env.read", hide_env_values)].

Definition hides_secret_values (op_id : string) : bool :=
  match dict_get op_id VALUE_HIDING_OPS with Some _ => true | None => false end.

(** The registry of plain fields is an argument. *)
Definition plain_fields_of (registered : gmap string (list string)) (op_id : string) : list string :=
  default [] (registered !! op_id).

Definition hide_secret_values (registered : gmap string (list string)) (op_id : string) (answer raw : json) : json :=
  match dict_get op_id VALUE_HIDING_OPS with
  | Some hide => hide answer raw
  | None => fst (scrub_secret_named_values true (plain_fields_of registered op_id) answer)
  end.

(** * Putting values back, and fingerprints *)

(** [type(a) is type(b) and a == b]. *)
Definition same_type (a b : json) : bool :=
  match a, b with
  | JNull, JNull | JBool _, JBool _ | JInt _, JInt _ | JFloat _ _ _, JFloat _ _ _ | JStr _, JStr _
  | JList _, JList _ | JDict _, JDict _ => true
  | _, _ => false
  end.

Definition same_value (a : json) (b : option json) : bool :=
  match b with Some b => same_type a b && py_eq a b | None => false end.

(** [None] is the missing value. *)
Fixpoint reveal_hidden_values (raw : option json) (redacted : json) (shown : option json) : json :=
  let kept := match raw with
              | None => redacted
              | Some r => if same_value redacted shown then redacted else r
              end in
  match redacted, raw, shown with
  | JDict d, Some (JDict r), Some (JDict s) =>
      JDict (List.map (fun kv => (kv.1, reveal_hidden_values (dict_get kv.1 r) kv.2 (dict_get kv.1 s))) d)
  | JList l, Some (JList r), Some (JList s) =>
      if bool_decide (length r = length l) && bool_decide (length l = length s)
      then JList ((fix go l r s := match l, r, s with
                   | x :: l, y :: r, z :: s => reveal_hidden_values (Some y) x (Some z) :: go l r s
                   | _, _, _ => []
                   end) l r s)
      else kept
  | _, _, _ => kept
  end.

Definition DIGEST_HASH_PREFIX : string := "meho-audit-digest-v1" +:+ String "000" "".

Section Fingerprints.
Context (hmac_sha256 : string -> string -> string) (server_key : string).

Definition compute_audit_digest_hash (value : string) : string := hmac_sha256 server_key (DIGEST_HASH_PREFIX +:+ value).

Definition fingerprint_value (value : json) : string :=
  FINGERPRINT_PREFIX +:+ compute_audit_digest_hash (json_dumps value) +:+ "]".

Fixpoint fingerprint_hidden_values (raw : json) (shown : option json) : json :=
  let leaf := if same_value raw shown then raw else JStr (fingerprint_value raw) in
  match raw, shown with
  | JDict r, Some (JDict s) => JDict (List.map (fun kv => (kv.1, fingerprint_hidden_values kv.2 (dict_get kv.1 s))) r)
  | JList r, Some (JList s) =>
      if bool_decide (length r = length s)
      then JList ((fix go r s := match r, s with
                   | x :: r, z :: s => fingerprint_hidden_values x (Some z) :: go r s
                   | _, _ => []
                   end) r s)
      else leaf
  | _, _ => leaf
  end.

(** * The two copies of an answer *)

Record Redaction := { rm_raw : json; rm_redacted : json; rm_policy_id : option string }.

Definition with_copies (raw redacted : json) (r : Redaction) : Redaction :=
  {| rm_raw := raw; rm_redacted := redacted; rm_policy_id := rm_policy_id r |}.

Inductive SecretView := hidden | revealed.

(** [cleanup] is [redact_error_payload], [None] where it raises; without
    [error_cleanup] it is the identity. *)
Definition protect_secret_values (registered : gmap string (list string)) (cleanup : json -> option json)
  (op_id : string) (secret_view : option SecretView) (r : Redaction) : option Redaction :=
  redacted ← cleanup (rm_redacted r);
  shown ← cleanup (hide_secret_values registered op_id (rm_redacted r) (rm_raw r));
  let caller := match secret_view with
                | Some hidden => shown
                | Some revealed => reveal_hidden_values (Some (rm_raw r)) redacted (Some shown)
                | None => redacted
                end in
  Some (with_copies (fingerprint_hidden_values (rm_raw r) (Some shown)) caller r).
End Fingerprints.

(** The paths of the fingerprints, joined with dots; the set, listed. *)
Definition subpath (path name : string) : string := if bool_decide (path = "") then name else path +:+ "." +:+ name.

Fixpoint fingerprinted_paths (node : json) (path : string) : list string :=
  match node with
  | JStr s => if starts_with FINGERPRINT_PREFIX s then [path] else []
  | JDict d => List.concat (List.map (fun kv => fingerprinted_paths kv.2 (subpath path kv.1)) d)
  | JList l =>
      (fix go i l := match l with
        | [] => []
        | x :: l => fingerprinted_paths x (subpath path (pretty (Z.of_nat i))) ++ go (S i) l
        end) 0 l
  | _ => []
  end.

Definition secret_view (makes_new_secret reveal_secret : bool) : option SecretView :=
  if makes_new_secret then None else Some (if reveal_secret then revealed else hidden).

(** * Facts *)

Lemma dict_get_map {A B} (f : string * A -> B) k d :
  dict_get k (List.map (fun kv => (kv.1, f kv)) d) = (fun v => f (k, v)) <$> dict_get k d.
Proof. induction d as [|[k' v] d IH]; simpl; [done|]. by case_bool_decide; [subst|]. Qed.

Lemma dict_get_without {A} k k' (d : list (string * A)) :
  dict_get k (without_key k' d) = if bool_decide (k = k') then None else dict_get k d.
Proof.
  unfold without_key. induction d as [|[j v] d IH]; simpl; [by case_bool_decide|].
  rewrite filter_cons. simpl. destruct (decide (j <> k')) as [Hj|Hj]; simpl; rewrite IH;
    repeat case_bool_decide; naive_solver.
Qed.

Lemma dict_get_put {A} k k' (v : A) d :
  dict_get k (dict_put k' v d) = if bool_decide (k = k') then Some v else dict_get k d.
Proof.
  induction d as [|[j w] d IH]; simpl; [by repeat case_bool_decide|].
  repeat case_bool_decide; simpl; repeat case_bool_decide; rewrite ?IH; repeat case_bool_decide; congruence.
Qed.

Lemma without_put {A} k (v : A) d : k ∉ d.*1 -> without_key k (dict_put k v d) = d.
Proof.
  intros Hk. induction d as [|[j w] d IH]; simpl in *.
  - unfold without_key. rewrite filter_cons_False; [done|]. simpl. tauto.
  - apply not_elem_of_cons in Hk as [Hj Hk]. rewrite bool_decide_false by done. unfold without_key.
    rewrite filter_cons_True by (simpl; congruence). f_equal. by apply IH.
Qed.

(** The elements of the inner walks. *)
Lemma reveal_list l r s : length r = length l -> length l = length s ->
  exists w, reveal_hidden_values (Some (JList r)) (JList l) (Some (JList s)) = JList w /\
    forall i, w !! i = match l !! i, r !! i, s !! i with
                       | Some x, Some y, Some z => Some (reveal_hidden_values (Some y) x (Some z))
                       | _, _, _ => None
                       end.
Proof.
  intros Hr Hs. cbn [reveal_hidden_values]. rewrite !bool_decide_true by done. cbn [andb]. eexists. split; [done|].
  intros i. revert i r s Hr Hs. induction l as [|x l IH]; intros i [|y r] [|z s] Hr Hs; try done.
  destruct i as [|i]; [done|]. simpl in *. apply IH; lia.
Qed.

Section FingerprintFacts.
Context (hmac_sha256 : string -> string -> string) (server_key : string).
Abbreviation fp := (fingerprint_hidden_values hmac_sha256 server_key).

Lemma fingerprint_list r s : length r = length s ->
  exists w, fp (JList r) (Some (JList s)) = JList w /\
    forall i, w !! i = match r !! i, s !! i with Some x, Some z => Some (fp x (Some z)) | _, _ => None end.
Proof.
  intros Hs. cbn [fingerprint_hidden_values]. rewrite !bool_decide_true by done. eexists. split; [done|].
  intros i. revert i s Hs. induction r as [|x r IH]; intros i [|z s] Hs; try done.
  destruct i as [|i]; [done|]. simpl in *. apply IH; lia.
Qed.

Lemma same_list l l' : length l <> length l' -> py_eq (JList l) (JList l') = false.
Proof.
  revert l'. induction l as [|x l IH]; intros [|y l'] H; try done. simpl in *. rewrite andb_comm.
  rewrite IH by lia. done.
Qed.

(** What is kept as it is, is a scalar that is shown too. *)
Lemma fingerprint_cases raw shown :
  (exists r s, raw = JDict r /\ shown = Some (JDict s) /\
     fp raw shown = JDict (List.map (fun kv => (kv.1, fp kv.2 (dict_get kv.1 s))) r)) \/
  (exists r s, raw = JList r /\ shown = Some (JList s) /\ length r = length s) \/
  fp raw shown = JStr (fingerprint_value hmac_sha256 server_key raw) \/
  (fp raw shown = raw /\ is_scalar raw = true /\ same_value raw shown = true).
Proof.
  destruct raw as [| | | | |r|r]; cbn [fingerprint_hidden_values];
    try (destruct (same_value _ shown) eqn:E; [right; right; by right|right; right; by left]).
  - destruct shown as [[| | | | |s|]|]; try (by right; right; left). case_bool_decide as Hl.
    + right. left. by exists r, s.
    + right. right. left. unfold same_value. by rewrite same_list, andb_false_r.
  - destruct shown as [[| | | | | |s]|]; try (by right; right; left). left. by exists r, s.
Qed.

(** A scalar of the stored copy is a fingerprint or is shown too. *)
Lemma fingerprint_at path : forall raw shown v,
  value_at path (fp raw shown) = Some v -> is_scalar v = true ->
  (exists x, value_at path raw = Some x /\ v = JStr (fingerprint_value hmac_sha256 server_key x)) \/
  (value_at path raw = Some v /\ same_value v (shown ≫= value_at path) = true).
Proof.
  induction path as [|pl path IH]; intros raw shown v Hv Hs;
    destruct (fingerprint_cases raw shown) as [(r & s & -> & -> & E)|[(r & s & -> & -> & Hl)|[E|(E & Hr & Hsame)]]];
    try (destruct (fingerprint_list r s Hl) as (w & E & Hw)); rewrite E in Hv.
  - by injection Hv as <-.
  - by injection Hv as <-.
  - injection Hv as <-. left. by exists raw.
  - injection Hv as <-. right. split; [done|]. by destruct shown.
  - destruct pl as [k|i]; [|done]. cbn [value_at] in *. rewrite dict_get_map in Hv. cbn [mbind option_bind value_at].
    destruct (dict_get k r) as [x|]; [|done]. cbn in Hv. by apply IH in Hv.
  - destruct pl as [k|i]; [done|]. cbn [value_at] in *. rewrite Hw in Hv. cbn [mbind option_bind value_at].
    destruct (r !! i) as [x|]; [|done]. destruct (s !! i) as [z|]; [|done]. cbn in *. by apply IH in Hv.
  - by destruct pl.
  - by destruct pl, raw.
Qed.
End FingerprintFacts.

(** ** What a reveal puts back *)

(** The default view differs from the redacted answer at the end of the path. *)
Definition hidden_at (redacted : json) (shown : option json) (path : list place) : bool :=
  match value_at path redacted with
  | Some a => negb (same_value a (shown ≫= value_at path))
  | None => false
  end.

Lemma hidden_at_nil a shown : same_value a shown = false -> hidden_at a shown [] = true.
Proof. unfold hidden_at. cbn [value_at]. intros H. replace (shown ≫= value_at []) with shown by (by destruct shown). by rewrite H. Qed.

Lemma reveal_cases raw redacted shown :
  (exists d r s, redacted = JDict d /\ raw = Some (JDict r) /\ shown = Some (JDict s)) \/
  (exists l r s, redacted = JList l /\ raw = Some (JList r) /\ shown = Some (JList s) /\ length r = length l /\ length l = length s) \/
  reveal_hidden_values raw redacted shown = redacted \/
  (exists r, raw = Some r /\ reveal_hidden_values raw redacted shown = r /\ same_value redacted shown = false).
Proof.
  assert (forall x, (match raw with None => x | Some r => if same_value x shown then x else r end) = x \/
    exists r, raw = Some r /\ (match raw with None => x | Some r => if same_value x shown then x else r end) = r /\
      same_value x shown = false) as Hkept.
  { intros x. destruct raw as [r|]; [|by left]. destruct (same_value x shown) eqn:E; [by left|]. right. by exists r. }
  destruct redacted as [| | | | |l|d]; try (right; right; apply Hkept).
  - specialize (Hkept (JList l)). destruct raw as [[| | | | |r|]|]; try (right; right; apply Hkept).
    destruct shown as [[| | | | |s|]|]; try (right; right; apply Hkept).
    destruct (decide (length r = length l /\ length l = length s)) as [[Hr Hs]|Hn]; [right; left; by exists l, r, s|].
    right. right. cbn [reveal_hidden_values].
    replace (bool_decide (length r = length l) && bool_decide (length l = length s)) with false; [done|].
    symmetry. apply not_true_iff_false. intros Hb. apply Hn. by to_prop.
  - specialize (Hkept (JDict d)). destruct raw as [[| | | | | |r]|]; try (right; right; apply Hkept).
    destruct shown as [[| | | | | |s]|]; try (right; right; apply Hkept). left. by exists d, r, s.
Qed.

Lemma reveal_dict d r s : reveal_hidden_values (Some (JDict r)) (JDict d) (Some (JDict s)) =
  JDict (List.map (fun kv => (kv.1, reveal_hidden_values (dict_get kv.1 r) kv.2 (dict_get kv.1 s))) d).
Proof. done. Qed.

(** A scalar of a revealed answer is the redacted one, or the connector's below a
    place where the default view hides something. *)
Lemma reveal_at path : forall raw redacted shown v,
  value_at path (reveal_hidden_values raw redacted shown) = Some v -> is_scalar v = true ->
  value_at path redacted = Some v \/
  (raw ≫= value_at path = Some v /\ exists p q, path = p ++ q /\ hidden_at redacted shown p = true).
Proof.
  induction path as [|pl path IH]; intros raw redacted shown v Hv Hs;
    destruct (reveal_cases raw redacted shown) as
      [(d & r & s & -> & -> & ->)|[(l & r & s & -> & -> & -> & Hr & Hl)|[E|(r & -> & E & Hd)]]].
  - by injection Hv as <-.
  - destruct (reveal_list l r s Hr Hl) as (w & E & _). rewrite E in Hv. by injection Hv as <-.
  - rewrite E in Hv. by left.
  - rewrite E in Hv. right. split; [done|]. exists [], []. split; [done|]. by apply hidden_at_nil.
  - rewrite reveal_dict in Hv. destruct pl as [k|i]; [|done]. cbn [value_at] in *. rewrite dict_get_map in Hv.
    destruct (dict_get k d) as [x|] eqn:Ed; [|done]. cbn in Hv. apply IH in Hv as [Hv|(Hv & p & q & -> & Hh)]; [by left| |done].
    right. cbn. split; [by destruct (dict_get k r)|]. exists (at_key k :: p), q. split; [done|].
    unfold hidden_at in *. cbn [value_at mbind option_bind]. rewrite Ed. cbn. by destruct (dict_get k s).
  - destruct (reveal_list l r s Hr Hl) as (w & E & Hw). rewrite E in Hv. destruct pl as [k|i]; [done|].
    cbn [value_at] in *. rewrite Hw in Hv. destruct (l !! i) as [x|] eqn:Ex; [|done].
    destruct (r !! i) as [y|] eqn:Ey; [|done]. destruct (s !! i) as [z|] eqn:Ez; [|done].
    cbn in Hv. apply IH in Hv as [Hv|(Hv & p & q & -> & Hh)]; [by left| |done].
    right. cbn. rewrite Ey. split; [done|]. exists (at_index i :: p), q. split; [done|].
    unfold hidden_at in *. cbn [value_at mbind option_bind]. rewrite Ex. cbn. by rewrite Ez.
  - rewrite E in Hv. by left.
  - rewrite E in Hv. right. split; [done|]. exists [], (pl :: path). split; [done|]. by apply hidden_at_nil.
Qed.

(** The three answers have the same containers down the path. *)
Fixpoint aligned (path : list place) (raw redacted shown : json) : bool :=
  match path with
  | [] => true
  | at_key k :: path' =>
      match redacted, raw, shown with
      | JDict d, JDict r, JDict s =>
          match dict_get k d, dict_get k r, dict_get k s with Some x, Some y, Some z => aligned path' y x z | _, _, _ => false end
      | _, _, _ => false
      end
  | at_index i :: path' =>
      match redacted, raw, shown with
      | JList l, JList r, JList s =>
          bool_decide (length r = length l /\ length l = length s) &&
          match l !! i, r !! i, s !! i with Some x, Some y, Some z => aligned path' y x z | _, _, _ => false end
      | _, _, _ => false
      end
  end.

(** What the default view replaced by a scalar comes back as the connector gave it. *)
Lemma reveal_back path : forall raw redacted shown,
  aligned path raw redacted shown = true ->
  match value_at path shown with Some b => is_scalar b | None => false end = true ->
  hidden_at redacted (Some shown) path = true ->
  value_at path (reveal_hidden_values (Some raw) redacted (Some shown)) = value_at path raw.
Proof.
  induction path as [|[k|i] path IH]; intros raw redacted shown Ha Hb Hh.
  - unfold hidden_at in Hh. cbn in *. apply negb_true_iff in Hh. by destruct shown, redacted; cbn in *; try done; rewrite ?Hh; destruct raw.
  - cbn [aligned] in Ha. destruct redacted as [| | | | | |d]; try done. destruct raw as [| | | | | |r]; try done.
    destruct shown as [| | | | | |s]; try done. rewrite reveal_dict. unfold hidden_at in Hh. cbn [value_at mbind option_bind] in *. rewrite dict_get_map.
    destruct (dict_get k d) as [x|]; [|done]. destruct (dict_get k r) as [y|] eqn:Er; [|done]. destruct (dict_get k s) as [z|] eqn:Es; [|done].
    cbn in *. rewrite Er, Es. by apply IH.
  - cbn [aligned] in Ha. destruct redacted as [| | | | |l|]; try done. destruct raw as [| | | | |r|]; try done.
    destruct shown as [| | | | |s|]; try done. apply andb_true_iff in Ha as [Hl Ha]. apply bool_decide_eq_true in Hl as [Hr Hl].
    destruct (reveal_list l r s Hr Hl) as (w & E & Hw). rewrite E. unfold hidden_at in Hh. cbn [value_at mbind option_bind] in *. rewrite Hw.
    destruct (l !! i) as [x|]; [|done]. destruct (r !! i) as [y|]; [|done]. destruct (s !! i) as [z|]; [|done].
    cbn in *. by apply IH.
Qed.

(** ** The default view *)

Lemma hide_all_at path : forall node v,
  value_at path (hide_all node) = Some v -> is_scalar v = true -> v = JStr SECRET_VALUE_PLACEHOLDER.
Proof.
  induction path as [|[k|i] path IH]; intros node v Hv Hs.
  - by destruct node; injection Hv as <-.
  - destruct node as [| | | | | |d]; try done. cbn [hide_all value_at] in Hv.
    rewrite (dict_get_map (fun kv => hide_all kv.2)) in Hv. destruct (dict_get k d); [|done]. by apply IH in Hv.
  - destruct node as [| | | | |l|]; try done. cbn [hide_all value_at] in Hv. rewrite list_lookup_fmap in Hv.
    destruct (l !! i); [|done]. by apply IH in Hv.
Qed.

Lemma dict_get_In {A} k (d : list (string * A)) x : dict_get k d = Some x -> In (k, x) d.
Proof. induction d as [|[j y] d IH]; simpl; [done|]. case_bool_decide; [intros [= ->]; left; by subst|right; auto]. Qed.

Section ViewFacts.
Context (hn : bool) (plain : list string).

(** Where no secret is left, a secret-shaped scalar off the visible paths is the
    marker. *)
Lemma scrubbed_at path : forall node v,
  no_secret_left hn plain node = true -> value_at path node = Some v -> is_scalar v = true -> is_secret_value hn v = true ->
  v = JStr REDACTED_PARAM \/ visible_path plain path node = true.
Proof.
  induction path as [|[k|i] path IH]; intros node v Hn Hv Hs Hsec; [by right| |].
  - destruct node as [| | | | | |d]; try done. cbn [no_secret_left value_at visible_path] in *. rewrite forallb_forall in Hn.
    destruct (dict_get k d) as [x|] eqn:Ex; [|done]. cbn in Hv. specialize (Hn _ (dict_get_In _ _ _ Ex)). cbn in Hn.
    case_bool_decide; [by right|]. cbn [orb] in *. destruct (secret_named _ k); cbn [andb negb] in *; [|by apply IH].
    destruct (is_secret_value hn x) eqn:E.
    + destruct x; try done. to_prop. subst. destruct path as [|[]]; try done. injection Hv as <-. by left.
    + destruct path as [|[] path]; [injection Hv as <-; congruence| |]; by destruct x.
  - destruct node as [| | | | |l|]; try done. cbn [no_secret_left value_at visible_path] in *. rewrite forallb_forall in Hn.
    destruct (l !! i) as [x|] eqn:Ex; [|done]. cbn in Hv. apply (IH x v); try done. apply Hn.
    apply list_elem_of_In. by apply list_elem_of_lookup_2 in Ex.
Qed.
End ViewFacts.

Lemma scrub_around_dict k made d :
  scrub_around k made d =
  JDict (dict_put k made (List.map (scrub_item true [] (is_secret_name_value_pair [] (without_key k d))) (without_key k d))).
Proof. unfold scrub_around, scrub_secret_named_values. by rewrite scrub_dict. Qed.

(** The view of a shaped answer: the made field, and the rest without secrets. *)
Lemma scrub_around_at k made d path v :
  k <> "name" -> k <> "value" ->
  value_at path (scrub_around k made d) = Some v -> is_scalar v = true -> is_secret_value true v = true ->
  (exists p, path = at_key k :: p /\ value_at p made = Some v) \/
  ((v = JStr REDACTED_PARAM \/ visible_path [] path (scrub_around k made d) = true) /\ forall p, path <> at_key k :: p).
Proof.
  intros Hn Hval Hv Hs Hsec. rewrite scrub_around_dict in *. set (items := List.map _ _) in *.
  destruct path as [|[j|i] path]; [by injection Hv as <-| |done]. cbn [value_at] in Hv. rewrite dict_get_put in Hv.
  case_bool_decide as Hj.
  - left. exists path. by subst.
  - right. assert (value_at (at_key j :: path) (JDict items) = Some v) as Hv' by done.
    assert (JDict items = fst (scrub_secret_named_keys true [] (JDict (without_key k d)))) as Ei by (by rewrite scrub_dict).
    split; [|by intros p [= ->]]. apply (scrubbed_at true []) in Hv' as [Hm|Hvis]; try done.
    + by left.
    + right. cbn [visible_path] in *. rewrite dict_get_put, (bool_decide_false (j = k)) by done.
      replace (is_secret_name_value_pair [] (dict_put k made items)) with (is_secret_name_value_pair [] items); [done|].
      unfold is_secret_name_value_pair. by rewrite !dict_get_put, !bool_decide_false by congruence.
    + rewrite Ei. apply scrub_hides.
Qed.

Lemma without_key_not_in {A} k (d : list (string * A)) : k ∉ (without_key k d).*1.
Proof. unfold without_key. intros H. apply list_elem_of_fmap in H as ([j x] & -> & H). by apply list_elem_of_filter in H as [H _]. Qed.

Lemma value_at_container path v : is_scalar v = true -> path <> [] -> value_at path v = None.
Proof. by destruct path as [|[] path], v. Qed.

Lemma hide_env_value_text x : exists t, hide_env_value x = JStr t /\
  (t = SECRET_VALUE_PLACEHOLDER \/ exists name, t = name +:+ String "=" SECRET_VALUE_PLACEHOLDER).
Proof.
  unfold hide_env_value. destruct x as [| | | |s| |];
    try (exists SECRET_VALUE_PLACEHOLDER; split; [reflexivity|by left]).
  destruct (partition_on "=" s) as [name [value|]].
  - exists (name +:+ String "=" SECRET_VALUE_PLACEHOLDER). split; [reflexivity|]. right. by exists name.
  - exists SECRET_VALUE_PLACEHOLDER. split; [reflexivity|by left].
Qed.

(** The default view of an answer shows no secret.  Of a read of secrets the caller
    gets names only: every value under [data], and every text under [variables]
    after the name and the equals sign, is the placeholder.  Of every operation, a
    text, number or container the view still holds under a secret name is the
    marker, outside the fields the operation declared as plain. *)
Theorem default_view_hides registered op_id answer raw path v :
  let view := hide_secret_values registered op_id answer raw in
  value_at path view = Some v -> is_scalar v = true -> is_secret_value true v = true ->
  (v ∈ [JStr SECRET_VALUE_PLACEHOLDER; JStr REDACTED_PARAM] \/
   visible_path (if hides_secret_values op_id then [] else plain_fields_of registered op_id) path view = true \/
   op_id = "vmware.composite.vm.guest.env.read" /\ exists name, v = JStr (name +:+ String "=" SECRET_VALUE_PLACEHOLDER)) /\
  (op_id = "vault.kv.read" -> head path = Some (at_key "data") -> v = JStr SECRET_VALUE_PLACEHOLDER) /\
  (op_id = "vmware.composite.vm.guest.env.read" -> head path = Some (at_key "variables") ->
     v = JStr SECRET_VALUE_PLACEHOLDER \/ exists name, v = JStr (name +:+ String "=" SECRET_VALUE_PLACEHOLDER)).
Proof.
  intros view Hv Hs Hsec. subst view. unfold hide_secret_values, hides_secret_values in *. unfold VALUE_HIDING_OPS in *. cbn [dict_get] in *.
  assert (forall node, value_at path (hide_all node) = Some v -> v = JStr SECRET_VALUE_PLACEHOLDER) as Hall.
  { intros node Hn. by apply hide_all_at in Hn. }
  case_bool_decide as Hkv; [|case_bool_decide as Henv].
  - subst op_id. unfold hide_kv_data in *. destruct answer as [| | | | | |d]; try (apply Hall in Hv as ->; set_solver).
    destruct (dict_get "data" d) as [[| | | | | |data]|]; try (apply Hall in Hv as ->; set_solver).
    apply scrub_around_at in Hv as [(p & -> & Hv)|[Hv Hp]]; try done.
    + assert (v = JStr SECRET_VALUE_PLACEHOLDER) as ->; [|set_solver]. destruct p as [|[k|i] p]; [by injection Hv as <-| |done].
      cbn [value_at] in Hv. rewrite (dict_get_map (fun _ => JStr SECRET_VALUE_PLACEHOLDER)) in Hv. destruct (dict_get k data); [|done].
      cbn in Hv. destruct p as [|[]]; try done. by injection Hv as <-.
    + split_and!; [destruct Hv as [->|Hv]; [set_solver|by right; left]| |done].
      intros _ Hh. destruct path; [done|]. injection Hh as ->. by destruct (Hp path).
  - subst op_id. unfold hide_env_values in *. destruct answer as [| | | | | |d]; try (apply Hall in Hv as ->; set_solver).
    destruct (dict_get "variables" d) as [[| | | | |entries|]|]; try (apply Hall in Hv as ->; set_solver).
    apply scrub_around_at in Hv as [(p & -> & Hv)|[Hv Hp]]; try done.
    + assert (v = JStr SECRET_VALUE_PLACEHOLDER \/ exists name, v = JStr (name +:+ String "=" SECRET_VALUE_PLACEHOLDER)) as Hform;
        [|split_and!; [|done|done]; destruct Hform as [->|Hform]; [set_solver|by right; right]].
      destruct p as [|[k|i] p]; [by injection Hv as <-|done|]. cbn [value_at] in Hv. rewrite list_lookup_fmap in Hv.
      destruct (env_entries entries raw !! i) as [x|]; [|done]. cbn in Hv. destruct (hide_env_value_text x) as (t & Et & Ht). rewrite Et in Hv.
      destruct p as [|[]]; try done. injection Hv as <-. destruct Ht as [->|[name ->]]; [by left|right; by exists name].
    + split_and!; [destruct Hv as [->|Hv]; [set_solver|by right; left]|done|].
      intros _ Hh. destruct path; [done|]. injection Hh as ->. by destruct (Hp path).
  - split_and!; [|done|done]. apply (scrubbed_at true (plain_fields_of registered op_id)) in Hv as [->|Hvis]; try done.
    + set_solver.
    + by right; left.
    + unfold scrub_secret_named_values. apply scrub_hides.
Qed.

(** The two copies made of an answer.  The caller's copy is the default view; or,
    for a person who asked for the values, the redacted answer with exactly what
    the default view hides put back: a value that is not the redacted one is the
    connector's and lies where the view differs, and down a path that the three
    answers share, what the view hid is the connector's value.  The stored copy does
    not depend on what the caller asked for, and every value in it is a fingerprint
    or is in the default view too. *)
Theorem answers_are_split_exactly hmac key registered op_id view r r' :
  protect_secret_values hmac key registered Some op_id view r = Some r' ->
  let shown := hide_secret_values registered op_id (rm_redacted r) (rm_raw r) in
  (view = Some hidden -> rm_redacted r' = shown) /\
  (view = Some revealed ->
     (forall path v, value_at path (rm_redacted r') = Some v -> is_scalar v = true ->
        value_at path (rm_redacted r) = Some v \/
        (value_at path (rm_raw r) = Some v /\
         exists p q, path = p ++ q /\ hidden_at (rm_redacted r) (Some shown) p = true)) /\
     (forall path b, aligned path (rm_raw r) (rm_redacted r) shown = true ->
        value_at path shown = Some b -> is_scalar b = true -> hidden_at (rm_redacted r) (Some shown) path = true ->
        value_at path (rm_redacted r') = value_at path (rm_raw r))) /\
  (forall view', exists r'', protect_secret_values hmac key registered Some op_id view' r = Some r'' /\ rm_raw r'' = rm_raw r') /\
  (forall path v, value_at path (rm_raw r') = Some v -> is_scalar v = true ->
     (exists x, value_at path (rm_raw r) = Some x /\ v = JStr (fingerprint_value hmac key x)) \/
     (value_at path (rm_raw r) = Some v /\ same_value v (value_at path shown) = true)).
Proof.
  unfold protect_secret_values. cbn [mbind option_bind]. intros [= <-]. cbn [with_copies rm_raw rm_redacted]. split_and!.
  - by intros ->.
  - intros ->. split.
    + intros path v Hv Hs. by apply reveal_at in Hv.
    + intros path b Ha Hb Hs Hh. apply reveal_back; [done|by rewrite Hb|done].
  - intros view'. by eexists.
  - intros path v Hv Hs. by apply fingerprint_at in Hv.
Qed.


(** The flag of a call comes back: what [with_reveal_secret] adds, [split_reveal_secret]
    takes off, and leaves the parameters of the operation as they were. *)
Theorem reveal_flag_roundtrip params :
  REVEAL_SECRET_PARAM ∉ params.*1 ->
  split_reveal_secret (with_reveal_secret params) = (params, true) /\ split_reveal_secret params = (params, false).
Proof.
  intros Hp. unfold split_reveal_secret, with_reveal_secret. rewrite dict_get_put, bool_decide_true by done. split.
  - by rewrite without_put.
  - destruct (dict_get REVEAL_SECRET_PARAM params) as [v|] eqn:E; [|done]. destruct Hp.
    apply list_elem_of_fmap. exists (REVEAL_SECRET_PARAM, v). split; [done|]. by apply list_elem_of_In, dict_get_In.
Qed.

(** * Witnesses *)

Definition w_hmac (k m : string) : string := k +:+ ":" +:+ m.

(** A read of a secret, as it came and as the redaction of the connector left it. *)
Definition w_kv : Redaction := {|
  rm_raw := JDict [("data", JDict [("user", JStr "ann"); ("pin", JInt 7)]); ("version", JInt 3); ("note", JStr "mail ann@x.org")];
  rm_redacted := JDict [("data", JDict [("user", JStr "ann"); ("pin", JInt 7)]); ("version", JInt 3); ("note", JStr "mail [EMAIL]")];
  rm_policy_id := None |}.

Definition w_env_answer : json := JDict [("variables", JList [JStr "DB_PASSWORD=x1"; JStr "HOME"])].

Lemma default_view_hides_witness :
  hide_secret_values ∅ "vmware.composite.vm.guest.env.read" w_env_answer JNull =
    JDict [("variables", JList [JStr "DB_PASSWORD=[REDACTED:secret_value]"; JStr "[REDACTED:secret_value]"])] /\
  exists name, JStr "DB_PASSWORD=[REDACTED:secret_value]" = JStr (name +:+ String "=" SECRET_VALUE_PLACEHOLDER).
Proof.
  split; [by vm_compute|].
  destruct (default_view_hides ∅ "vmware.composite.vm.guest.env.read" w_env_answer JNull [at_key "variables"; at_index 0]
    (JStr "DB_PASSWORD=[REDACTED:secret_value]") eq_refl eq_refl eq_refl) as (_ & _ & H).
  destruct (H eq_refl eq_refl) as [H'|H']; [vm_compute in H'; discriminate H'|exact H'].
Defined.

Lemma answers_are_split_exactly_witness : exists r',
  protect_secret_values w_hmac "k" ∅ Some "vault.kv.read" (Some revealed) w_kv = Some r' /\
  rm_redacted r' = JDict [("data", JDict [("user", JStr "ann"); ("pin", JInt 7)]); ("version", JInt 3); ("note", JStr "mail [EMAIL]")] /\
  forall path v, value_at path (rm_raw r') = Some v -> is_scalar v = true ->
    (exists x, value_at path (rm_raw w_kv) = Some x /\ v = JStr (fingerprint_value w_hmac "k" x)) \/
    (value_at path (rm_raw w_kv) = Some v /\
     same_value v (value_at path (hide_secret_values ∅ "vault.kv.read" (rm_redacted w_kv) (rm_raw w_kv))) = true).
Proof.
  destruct (protect_secret_values w_hmac "k" ∅ Some "vault.kv.read" (Some revealed) w_kv) as [r'|] eqn:E; [|by vm_compute in E].
  pose proof (answers_are_split_exactly w_hmac "k" ∅ "vault.kv.read" (Some revealed) w_kv r' E) as (_ & _ & _ & H).
  exists r'. split; [done|]. split; [|exact H]. vm_compute in E. by injection E as <-.
Defined.

Lemma reveal_flag_roundtrip_witness :
  split_reveal_secret (with_reveal_secret [("path", JStr "kv/db")]) = ([("path", JStr "kv/db")], true).
Proof. destruct (reveal_flag_roundtrip [("path", JStr "kv/db")]) as [H _]; [apply (bool_decide_unpack _); reflexivity|exact H]. Defined.
