(* ===== verification/Programs.v ===== *)
(** Programs that call the world outside: a signature of operations, each with the
    type of its answers, and programs that call them, after the free monad.  An
    operation may also raise, as every awaited call of the code may.

    A program is proved against every answer.  What other tasks do between two of
    its calls changes only the answers, so a statement about all runs of a program
    is one about all interleavings. *)

From S2P Require Import Prelude.

Section Programs.
(** The operations, their answers, and the exceptions. *)
Context {Op : Type} {Ans : Op -> Type} {E : Type}.

Inductive prog (A : Type) : Type :=
| Ret (a : A)
| Call (o : Op) (k : res E (Ans o) -> prog A).

(** A call and its answer; the calls of a run, in order. *)
Definition event : Type := { o : Op & res E (Ans o) }.
Definition ev (o : Op) (x : res E (Ans o)) : event := existT o x.
Definition history : Type := list event.
End Programs.

Arguments prog {Op} Ans E A.
Arguments Ret {Op Ans E A} a.
Arguments Call {Op Ans E A} o k.
Arguments event {Op} Ans E.
Arguments history {Op} Ans E.

(** A program that may raise. *)
Definition action {Op} (Ans : Op -> Type) (E A : Type) : Type := prog Ans E (res E A).

Section Combinators.
Context {Op : Type} {Ans : Op -> Type} {E : Type}.

Fixpoint after {A B} (c : prog Ans E A) (f : A -> prog Ans E B) : prog Ans E B :=
  match c with
  | Ret a => f a
  | Call o k => Call o (fun x => after (k x) f)
  end.

#[export] Instance action_ret : MRet (action Ans E) := fun A a => Ret (Ok a).
#[export] Instance action_bind : MBind (action Ans E) := fun A B f c =>
  after c (fun r => match r with Ok a => f a | Raise e => Ret (Raise e) end).

Definition invoke (o : Op) : action Ans E (Ans o) := Call o (fun x => Ret x).
Definition throw {A} (e : E) : action Ans E A := Ret (Raise e).
Definition lift {A} (r : res E A) : action Ans E A := Ret r.

(** [try: c except ...]: [handler e] is [None] for an exception no clause names. *)
Definition try_except {A} (c : action Ans E A) (handler : E -> option (action Ans E A)) : action Ans E A :=
  after c (fun r => match r with
                    | Ok a => Ret (Ok a)
                    | Raise e => default (Ret (Raise e)) (handler e)
                    end).

(** [try: c finally: f]: an exception of [f] replaces the outcome. *)
Definition finally {A} (c : action Ans E A) (f : action Ans E unit) : action Ans E A :=
  after c (fun r => after f (fun u => match u with Ok _ => Ret r | Raise e => Ret (Raise e) end)).

(** * Runs *)

(** [runs c h a]: the program can call [h] and end with [a]. *)
Fixpoint runs {A} (c : prog Ans E A) (h : history Ans E) (a : A) : Prop :=
  match c with
  | Ret b => h = [] /\ a = b
  | Call o k => exists x h', h = ev o x :: h' /\ runs (k x) h' a
  end.

(** One run: a world that answers the calls. *)
Section Interp.
Context {S : Type} (answer : forall o : Op, S -> S * res E (Ans o)).

Fixpoint interp {A} (c : prog Ans E A) (s : S) : S * history Ans E * A :=
  match c with
  | Ret a => (s, [], a)
  | Call o k =>
      let '(s1, x) := answer o s in
      let '(s2, h, a) := interp (k x) s1 in
      (s2, ev o x :: h, a)
  end.

Lemma interp_runs {A} (c : prog Ans E A) s : let '(_, h, a) := interp c s in runs c h a.
Proof.
  revert s. induction c as [a|o k IH]; intros s; [done|]. simpl. destruct (answer o s) as [s1 x].
  specialize (IH x s1). destruct (interp (k x) s1) as [[s2 h] a]. by exists x, h.
Qed.
End Interp.

(** Every program ends, whatever it is answered. *)
Lemma runs_total {A} (c : prog Ans E A) (x : forall o : Op, res E (Ans o)) : exists h a, runs c h a.
Proof.
  induction c as [a|o k IH]; [by exists [], a|]. destruct (IH (x o)) as (h & a & H). by exists (ev o (x o) :: h), a, (x o), h.
Qed.

Lemma runs_after {A B} (c : prog Ans E A) (f : A -> prog Ans E B) h b :
  runs (after c f) h b <-> exists h1 h2 a, h = h1 ++ h2 /\ runs c h1 a /\ runs (f a) h2 b.
Proof.
  revert h. induction c as [a|o k IH]; intros h; simpl.
  - split; [intros H; by exists [], h, a|by intros (h1 & h2 & a' & -> & [-> ->] & H)].
  - split.
    + intros (x & h' & -> & H). apply IH in H as (h1 & h2 & a & -> & H1 & H2).
      exists (ev o x :: h1), h2, a. split; [done|]. split; [by exists x, h1|done].
    + intros (h1 & h2 & a & -> & (x & h' & -> & H1) & H2). exists x, (h' ++ h2). split; [done|]. apply IH.
      by exists h', h2, a.
Qed.

(** * What every run keeps

    [G] is what an observer remembers of the calls so far. *)
Section Always.
Context {G : Type} (note : G -> event Ans E -> G) (may : G -> Op -> Prop).

(** Every call is allowed when it is made, and the end satisfies [Q]. *)
Fixpoint always {A} (c : prog Ans E A) (Q : G -> A -> Prop) (g : G) : Prop :=
  match c with
  | Ret a => Q g a
  | Call o k => may g o /\ forall x, always (k x) Q (note g (ev o x))
  end.

Lemma always_sound {A} (c : prog Ans E A) Q g h a :
  always c Q g -> runs c h a ->
  Q (foldl note g h) a /\
  forall h1 o x h2, h = h1 ++ ev o x :: h2 -> may (foldl note g h1) o.
Proof.
  revert g h. induction c as [b|o k IH]; intros g h Hw Hr; simpl in *.
  - destruct Hr as [-> ->]. split; [done|]. by intros [|? ?] ? ? ? ?.
  - destruct Hw as [Hm Hk], Hr as (x & h' & -> & Hr). destruct (IH x _ _ (Hk x) Hr) as [HQ HM]. split; [done|].
    intros [|e h1] o' x' h2 Heq.
    + injection Heq as Ho _ _. by subst.
    + injection Heq as <- ->. simpl. by eapply HM.
Qed.

Lemma always_after {A B} (c : prog Ans E A) (f : A -> prog Ans E B) Q g :
  always (after c f) Q g <-> always c (fun g a => always (f a) Q g) g.
Proof.
  revert g. induction c as [a|o k IH]; intros g; [done|]. simpl. split; intros [Hm Hk]; (split; [done|]); intros x; by apply IH.
Qed.

Lemma always_mono {A} (c : prog Ans E A) (Q Q' : G -> A -> Prop) g :
  (forall g a, Q g a -> Q' g a) -> always c Q g -> always c Q' g.
Proof.
  intros HQ. revert g. induction c as [a|o k IH]; intros g; [by apply HQ|]. simpl. intros [Hm Hk]. split; [done|]. intros x. by apply IH.
Qed.

Lemma always_bind {A B} (c : action Ans E A) (f : A -> action Ans E B) Q g :
  always (c ≫= f) Q g <->
  always c (fun g r => match r with Ok a => always (f a) Q g | Raise e => Q g (Raise e) end) g.
Proof.
  unfold mbind, action_bind. rewrite always_after. split; apply always_mono; intros g' [a|e]; done.
Qed.

Lemma always_try {A} (c : action Ans E A) handler Q g :
  always (try_except c handler) Q g <->
  always c (fun g r => match r with
                       | Ok a => Q g (Ok a)
                       | Raise e => always (default (Ret (Raise e)) (handler e)) Q g
                       end) g.
Proof. unfold try_except. rewrite always_after. split; apply always_mono; intros g' [a|e]; done. Qed.

Lemma always_finally {A} (c : action Ans E A) f Q g :
  always (finally c f) Q g <->
  always c (fun g r => always f (fun g u => match u with Ok _ => Q g r | Raise e => Q g (Raise e) end) g) g.
Proof.
  unfold finally. rewrite always_after. split; apply always_mono; intros g' r; rewrite always_after;
    apply always_mono; intros g'' [u|e]; done.
Qed.
End Always.
End Combinators.
