(* ===== verification/DispatchLimits.v ===== *)
(** The limits of a caller's dispatches ([operations/dispatch_limits.py]): the fixed
    window of the request rate and the cap on operations in flight, both kept in
    Valkey and shared by every worker.

    A command, and a pipeline in a transaction, is one call; other workers run
    between two calls.  What the commands do is the documented behaviour of Valkey
    ([ValkeyLaws]), which a finite map with expiry times has ([valkey_map]).  Times
    are in seconds. *)

From stdpp Require Import pretty.
From S2P Require Import Prelude WireText Programs.

(** * The settings *)

(** The digits of [int(text, base)], with single underscores between them. *)
Definition digit_in (base : Z) (c : ascii) : option Z :=
  let n := Z.of_nat (nat_of_ascii c) in
  let d := (if (48 <=? n) && (n <=? 57) then n - 48
            else if (97 <=? n) && (n <=? 122) then n - 87
            else if (65 <=? n) && (n <=? 90) then n - 55 else base)%Z in
  if (d <? base)%Z then Some d else None.

Fixpoint digits_value (base acc : Z) (after_digit : bool) (s : string) : option Z :=
  match s with
  | EmptyString => if after_digit then Some acc else None
  | String c s' =>
      if Ascii.eqb c "_" then (if after_digit then digits_value base acc false s' else None)
      else d ← digit_in base c; digits_value base (acc * base + d) true s'
  end.

(** The prefix [0x] of base 16 may be followed by an underscore. *)
Definition unsigned_value (base : Z) (s : string) : option Z :=
  match s with
  | String "0" (String x s') =>
      if bool_decide (base = 16%Z) && (Ascii.eqb x "x" || Ascii.eqb x "X")
      then match s' with String "_" s'' => digits_value base 0 false s'' | _ => digits_value base 0 false s' end
      else digits_value base 0 false s
  | _ => digits_value base 0 false s
  end.

Definition py_int (base : Z) (text : string) : option Z :=
  match py_strip text with
  | String "-" s => Z.opp <$> unsigned_value base s
  | String "+" s => unsigned_value base s
  | s => unsigned_value base s
  end.

(** [s.replace(sub, ...)] with nothing; [skip] characters of a match are left. *)
Fixpoint remove_all (sub : string) (skip : nat) (s : string) : string :=
  match s with
  | EmptyString => ""
  | String c s' =>
      match skip with
      | S k => remove_all sub k s'
      | 0 => if starts_with sub s then remove_all sub (String.length sub - 1) s' else String c (remove_all sub 0 s')
      end
  end.

(** [UUID(text).int]. *)
Definition uuid_int (text : string) : option Z :=
  let hex := remove_all "uuid:" 0 (remove_all "urn:" 0 text) in
  let hex := remove_all "-" 0 (strip_white (fun c => Ascii.eqb c "{" || Ascii.eqb c "}") hex) in
  if bool_decide (String.length hex = 32)
  then n ← py_int 16 hex; if bool_decide (0 <= n < 2 ^ 128)%Z then Some n else None
  else None.

Definition override_entry (raw : string) : option (Z * Z) :=
  match partition_on "=" (py_strip raw) with
  | (key, Some value) => t ← uuid_int (py_strip key); v ← py_int 10 (py_strip value); Some (t, v)
  | _ => None
  end.

Fixpoint first_override (entries : list string) (tenant : Z) : option Z :=
  match entries with
  | [] => None
  | raw :: entries' =>
      match override_entry raw with
      | Some (t, v) => if bool_decide (t = tenant) then Some v else first_override entries' tenant
      | None => first_override entries' tenant
      end
  end.

Definition resolve_int_override (overrides_csv : string) (tenant_id : uuid) (default_value : Z) : Z :=
  match uuid_int tenant_id with
  | Some t => default default_value (first_override (split_on "," overrides_csv) t)
  | None => default_value
  end.

Record LimitSettings := {
  dispatch_rate_limit_per_minute : Z;
  dispatch_rate_limit_per_minute_overrides : string;
  dispatch_max_concurrent_ops : Z;
  dispatch_max_concurrent_ops_overrides : string;
  dispatch_concurrency_slot_ttl_seconds : Z;
}.

Definition resolve_dispatch_rate_limit (st : LimitSettings) (tenant_id : uuid) : Z :=
  resolve_int_override (dispatch_rate_limit_per_minute_overrides st) tenant_id (dispatch_rate_limit_per_minute st).

Definition resolve_dispatch_concurrency_cap (st : LimitSettings) (tenant_id : uuid) : Z :=
  resolve_int_override (dispatch_max_concurrent_ops_overrides st) tenant_id (dispatch_max_concurrent_ops st).

(** * The commands *)

Inductive ValkeyOp :=
| vk_incr_expire (key : string) (ttl : Z)
| vk_decr (key : string)
| vk_delete (key : string).

Definition ValkeyAns (o : ValkeyOp) : Type :=
  match o with vk_incr_expire _ _ | vk_decr _ => Z | vk_delete _ => unit end.

Definition DISPATCH_RATE_LIMIT_WINDOW_SECONDS : Z := 60.
Definition DISPATCH_CONCURRENCY_RETRY_AFTER_SECONDS : Z := 1.

Definition rate_window_key (tenant_id : uuid) (principal_sub : string) (bucket : Z) : string :=
  "meho:ratelimit:dispatch:" +:+ tenant_id +:+ ":" +:+ principal_sub +:+ ":" +:+ pretty bucket.

Definition concurrency_key (tenant_id : uuid) (principal_sub : string) : string :=
  "meho:concurrency:dispatch:" +:+ tenant_id +:+ ":" +:+ principal_sub.

(** The commands are calls of a larger program, into whose operations [emb] puts
    them. *)
Section Limits.
Context {Op : Type} {Ans : Op -> Type} {E : Type}.
Context (incr_expire : string -> Z -> action Ans E Z) (decr : string -> action Ans E Z) (delete : string -> action Ans E unit).

(** [now] is [int(time.time())]. *)
Definition check_dispatch_rate_limit (now : Z) (tenant_id : uuid) (principal_sub : string) (limit : Z)
  : action Ans E (option Z) :=
  if (limit <=? 0)%Z then mret None
  else
    let window := DISPATCH_RATE_LIMIT_WINDOW_SECONDS in
    count ← incr_expire (rate_window_key tenant_id principal_sub (now / window)) window;
    mret (if (limit <? count)%Z then Some (window - now mod window)%Z else None).

Definition decr_and_reap (key : string) : action Ans E unit :=
  remaining ← decr key;
  if (remaining <=? 0)%Z then delete key else mret tt.

Definition acquire_dispatch_slot (tenant_id : uuid) (principal_sub : string) (cap ttl_seconds : Z)
  : action Ans E (option Z * option string) :=
  if (cap <=? 0)%Z then mret (None, None)
  else
    let key := concurrency_key tenant_id principal_sub in
    count ← incr_expire key ttl_seconds;
    if (cap <? count)%Z
    then _ ← decr_and_reap key; mret (Some DISPATCH_CONCURRENCY_RETRY_AFTER_SECONDS, None)
    else mret (None, Some key).

Definition release_dispatch_slot (key : option string) : action Ans E unit :=
  match key with None => mret tt | Some key => decr_and_reap key end.
End Limits.

(** * What Valkey promises

    An entry is a number and the time it expires. *)

Definition Entry : Type := Z * option Z.

Definition alive (t : Z) (e : Entry) : bool := match e.2 with Some x => (t <? x)%Z | None => true end.

Definition count_at (t : Z) (e : option Entry) : Z :=
  match e with Some e => if alive t e then e.1 else 0%Z | None => 0%Z end.

(** [serve t o s]: the command at the server's time [t]. *)
Class Valkey (S : Type) := {
  entry : S -> string -> option Entry;
  serve : Z -> forall o : ValkeyOp, S -> S * ValkeyAns o;
}.

Definition op_key (o : ValkeyOp) : string := match o with vk_incr_expire k _ | vk_decr k | vk_delete k => k end.

Class ValkeyLaws (S : Type) `{Valkey S} : Prop := {
  incr_expire_entry t k ttl s : (0 < ttl)%Z ->
    let '(s', n) := serve t (vk_incr_expire k ttl) s in
    n = (count_at t (entry s k) + 1)%Z /\ entry s' k = Some (n, Some (t + ttl)%Z);
  decr_entry t k s :
    let '(s', n) := serve t (vk_decr k) s in
    n = (count_at t (entry s k) - 1)%Z /\
    entry s' k = Some (n, match entry s k with Some e => if alive t e then e.2 else None | None => None end);
  delete_entry t k s : entry (serve t (vk_delete k) s).1 k = None;
  other_entries t o s k : k <> op_key o -> entry (serve t o s).1 k = entry s k;
}.

#[export] Instance valkey_map : Valkey (gmap string Entry) := {
  entry s k := s !! k;
  serve t o := match o return gmap string Entry -> gmap string Entry * ValkeyAns o with
    | vk_incr_expire k ttl => fun s => let n := (count_at t (s !! k) + 1)%Z in (<[k := (n, Some (t + ttl)%Z)]> s, n)
    | vk_decr k => fun s =>
        let n := (count_at t (s !! k) - 1)%Z in
        (<[k := (n, match s !! k with Some e => if alive t e then e.2 else None | None => None end)]> s, n)
    | vk_delete k => fun s => (delete k s, tt)
    end;
}.

#[export] Instance valkey_map_laws : ValkeyLaws (gmap string Entry).
Proof.
  split.
  - intros t k ttl s _. simpl. by rewrite lookup_insert_eq.
  - intros t k s. simpl. by rewrite lookup_insert_eq.
  - intros t k s. simpl. by rewrite lookup_delete_eq.
  - intros t [k' ttl|k'|k'] s k Hk; simpl in *; [by rewrite lookup_insert_ne|by rewrite lookup_insert_ne|by rewrite lookup_delete_ne].
Qed.

(** * The keys *)

Lemma first_sep_inj c a a' b b' :
  has_char c a = false -> has_char c a' = false -> a +:+ String c b = a' +:+ String c b' -> a = a' /\ b = b'.
Proof.
  intros Ha Ha' H. pose proof (partition_on_app c a b Ha) as E. rewrite H, partition_on_app in E by done.
  by injection E as <- <-.
Qed.

Lemma last_sep_inj c a a' b b' :
  has_char c b = false -> has_char c b' = false -> a +:+ String c b = a' +:+ String c b' -> a = a' /\ b = b'.
Proof.
  revert a'. induction a as [|d a IH]; intros [|d' a'] Hb Hb' H; cbn in H.
  - by injection H as <-.
  - injection H as -> ->. rewrite has_char_app in Hb. simpl in Hb. by rewrite Ascii.eqb_refl, orb_true_r in Hb.
  - injection H as -> <-. rewrite has_char_app in Hb'. simpl in Hb'. by rewrite Ascii.eqb_refl, orb_true_r in Hb'.
  - injection H as -> H. by apply IH in H as [-> ->].
Qed.

Lemma pretty_no_colon (z : Z) : has_char ":" (pretty z) = false.
Proof.
  destruct (pretty_Z_int z) as [H _]. induction (pretty z) as [|c s IH]; [done|]. simpl in *.
  apply andb_true_iff in H as [Hc Hs]. rewrite IH, orb_false_r by done. by destruct c as [[] [] [] [] [] [] [] []].
Qed.

(** A tenant id has no colon, so a key stands for one tenant, caller and window. *)
Lemma rate_window_key_inj t t' sub sub' b b' :
  has_char ":" t = false -> has_char ":" t' = false ->
  rate_window_key t sub b = rate_window_key t' sub' b' -> t = t' /\ sub = sub' /\ b = b'.
Proof.
  unfold rate_window_key. intros Ht Ht' H. apply (inj (String.append "meho:ratelimit:dispatch:")) in H.
  apply first_sep_inj in H as [-> H]; [|done..].
  apply (last_sep_inj ":" sub sub') in H as [-> H]; [|apply pretty_no_colon..]. apply (inj pretty) in H. by subst.
Qed.

(** * The rate *)

Inductive ValkeyError := valkey_unavailable.

Abbreviation valkey_action := (action ValkeyAns ValkeyError).

Definition valkey_check_rate (now : Z) (tenant_id : uuid) (principal_sub : string) (limit : Z) : valkey_action (option Z) :=
  check_dispatch_rate_limit (fun key ttl => invoke (vk_incr_expire key ttl)) now tenant_id principal_sub limit.

(** A request: who makes it, the worker's clock, and the server's. *)
Record Request := { r_tenant_id : uuid; r_sub : string; r_now : Z; r_served : Z }.

Definition window_of (r : Request) : Z := (r_now r / DISPATCH_RATE_LIMIT_WINDOW_SECONDS)%Z.
Definition same_window (r r' : Request) : bool :=
  bool_decide (r_tenant_id r = r_tenant_id r') && bool_decide (r_sub r = r_sub r') && bool_decide (window_of r = window_of r').

Section Rate.
Context {S : Type} `{ValkeyLaws S}.
Context (limit : uuid -> Z).

Definition answer_at (t : Z) (o : ValkeyOp) (s : S) : S * res ValkeyError (ValkeyAns o) :=
  let '(s', x) := serve t o s in (s', Ok x).

Definition serve_request (s : S) (r : Request) : S * res ValkeyError (option Z) :=
  let '(s', _, a) := interp (answer_at (r_served r)) (valkey_check_rate (r_now r) (r_tenant_id r) (r_sub r) (limit (r_tenant_id r))) s in
  (s', a).

(** The requests of everybody, in the order the server took them. *)
Fixpoint serve_requests (rs : list Request) (s : S) : S * list (res ValkeyError (option Z)) :=
  match rs with
  | [] => (s, [])
  | r :: rs' =>
      let '(s1, a) := serve_request s r in
      let '(s2, l) := serve_requests rs' s1 in
      (s2, a :: l)
  end.

Definition request_key (r : Request) : string := rate_window_key (r_tenant_id r) (r_sub r) (window_of r).

(** The requests of the same caller in the same window. *)
Definition earlier (rs : list Request) (r : Request) : nat := length (select_where (same_window r) rs).

Lemma serve_requests_app rs rs' s :
  serve_requests (rs ++ rs') s =
  let '(s1, l) := serve_requests rs s in let '(s2, l') := serve_requests rs' s1 in (s2, l ++ l').
Proof.
  revert s. induction rs as [|r rs IH]; intros s; simpl; [by destruct (serve_requests rs' s)|].
  destruct (serve_request s r) as [s1 a]. rewrite IH. destruct (serve_requests rs s1) as [s2 l].
  by destruct (serve_requests rs' s2).
Qed.

Lemma serve_requests_length rs s : length (serve_requests rs s).2 = length rs.
Proof.
  revert s. induction rs as [|r rs IH]; intros s; [done|]. simpl. destruct (serve_request s r) as [s1 a].
  specialize (IH s1). destruct (serve_requests rs s1). simpl in *. by rewrite IH.
Qed.

(** One request, on a store where its window has [n] requests. *)
Lemma serve_request_spec s r n :
  (0 < limit (r_tenant_id r))%Z -> count_at (r_served r) (entry s (request_key r)) = n ->
  exists s', serve_request s r = (s', Ok (if (n <? limit (r_tenant_id r))%Z then None else Some (60 - r_now r mod 60)%Z)) /\
    entry s' (request_key r) = Some ((n + 1)%Z, Some (r_served r + 60)%Z) /\
    forall k, k <> request_key r -> entry s' k = entry s k.
Proof.
  intros Hl Hn. unfold serve_request, valkey_check_rate, check_dispatch_rate_limit.
  destruct (Z.leb_spec (limit (r_tenant_id r)) 0); [lia|]. cbn [interp invoke mbind action_bind after mret action_ret].
  unfold answer_at. pose proof (incr_expire_entry (r_served r) (request_key r) 60 s ltac:(lia)) as Hi.
  pose proof (fun k => other_entries (r_served r) (vk_incr_expire (request_key r) 60) s k) as Ho.
  change (rate_window_key (r_tenant_id r) (r_sub r) (r_now r / DISPATCH_RATE_LIMIT_WINDOW_SECONDS)) with (request_key r).
  change DISPATCH_RATE_LIMIT_WINDOW_SECONDS with 60%Z.
  destruct (serve (r_served r) (vk_incr_expire (request_key r) 60) s) as [s' m]. destruct Hi as [-> Hi]. cbn in Ho.
  exists s'. rewrite Hn in *. split; [|by split]. cbn. do 2 f_equal.
  destruct (Z.ltb_spec (limit (r_tenant_id r)) (n + 1)), (Z.ltb_spec n (limit (r_tenant_id r))); try done; lia.
Qed.

Lemma serve_request_other s r k : k <> request_key r -> entry (serve_request s r).1 k = entry s k.
Proof.
  intros Hk. unfold serve_request, valkey_check_rate, check_dispatch_rate_limit.
  destruct (Z.leb_spec (limit (r_tenant_id r)) 0); [done|]. cbn [interp invoke mbind action_bind after mret action_ret].
  unfold answer_at. pose proof (other_entries (r_served r) (vk_incr_expire (request_key r) 60) s k Hk) as Ho.
  change (rate_window_key (r_tenant_id r) (r_sub r) (r_now r / DISPATCH_RATE_LIMIT_WINDOW_SECONDS)) with (request_key r).
  change DISPATCH_RATE_LIMIT_WINDOW_SECONDS with 60%Z.
  by destruct (serve (r_served r) (vk_incr_expire (request_key r) 60) s) as [s' m].
Qed.

(** The server counts less than a window between two requests of one window, and
    does not go back. *)
Definition clocks_agree (rs : list Request) : Prop :=
  forall i j r r', i < j -> rs !! i = Some r -> rs !! j = Some r' -> window_of r = window_of r' ->
    (r_served r <= r_served r' < r_served r + 60)%Z.

(** The counter of a window, still alive when its next request comes. *)
Lemma window_count p q s r :
  clocks_agree (p ++ r :: q) ->
  entry s (request_key r) = last (select_where (same_window r) p) ≫= (fun l => Some (Z.of_nat (earlier p r), Some (r_served l + 60)%Z)) ->
  count_at (r_served r) (entry s (request_key r)) = Z.of_nat (earlier p r).
Proof.
  intros Hck ->. destruct (last (select_where _ _)) as [y|] eqn:Ey.
  - cbn. assert (y ∈ select_where (same_window r) p) as Hy by (by apply last_Some_elem_of).
    apply elem_of_select in Hy as [Hin Hy]. apply list_elem_of_lookup in Hin as [j Hj]. unfold same_window in Hy. to_prop.
    pose proof (lookup_lt_Some _ _ _ Hj) as Hjl. unfold alive. cbn.
    destruct (Z.ltb_spec (r_served r) (r_served y + 60)); [done|].
    assert (r_served y <= r_served r < r_served y + 60)%Z; [|lia].
    apply (Hck j (length p)); [done|by apply lookup_app_l_Some| |congruence].
    by rewrite lookup_app_r, Nat.sub_diag by lia.
  - apply last_None in Ey. unfold earlier. by rewrite Ey.
Qed.

(** What the store holds for the window of [r] after the requests [rs]. *)
Lemma window_entry rs s r :
  Forall (fun r => has_char ":" (r_tenant_id r) = false) rs -> has_char ":" (r_tenant_id r) = false ->
  (0 < limit (r_tenant_id r))%Z -> clocks_agree rs -> entry s (request_key r) = None ->
  entry (serve_requests rs s).1 (request_key r) =
  last (select_where (same_window r) rs) ≫= fun l => Some (Z.of_nat (earlier rs r), Some (r_served l + 60)%Z).
Proof.
  intros Hc Hcr Hl Hck Hs. induction rs as [|x rs IH] using rev_ind; [done|].
  apply Forall_app in Hc as [Hc Hx]. apply Forall_cons in Hx as [Hx _].
  assert (clocks_agree rs) as Hck'.
  { intros i j a b Hij Ha Hb. apply Hck with i j; [done|by apply lookup_app_l_Some..]. }
  specialize (IH Hc Hck'). rewrite serve_requests_app. unfold earlier, select_where in *. rewrite List.filter_app.
  destruct (serve_requests rs s) as [s1 l] eqn:E1. cbn [fst] in IH. simpl. destruct (serve_request s1 x) as [s2 a] eqn:E2. cbn [fst].
  cbn [List.filter]. destruct (same_window r x) eqn:Hm.
  - rewrite last_snoc, length_app. cbn. unfold same_window in Hm. to_prop.
    assert (request_key x = request_key r) as Hk by (unfold request_key; congruence).
    assert (same_window x = same_window r) as Hsw.
    { assert (r_tenant_id r = r_tenant_id x /\ r_sub r = r_sub x /\ window_of r = window_of x) as (Et & Es & Ew) by done.
      unfold same_window. by rewrite Et, Es, Ew. }
    assert (count_at (r_served x) (entry s1 (request_key x)) = Z.of_nat (earlier rs x)) as Hn.
    { apply (window_count rs []); [done|]. unfold earlier, select_where. by rewrite Hk, Hsw, IH. }
    unfold earlier, select_where in Hn. rewrite Hsw in Hn.
    destruct (serve_request_spec s1 x _ ltac:(congruence) Hn) as (s2' & E2' & He & _). rewrite E2 in E2'. injection E2' as -> _.
    rewrite <- Hk, He. do 2 f_equal. lia.
  - rewrite app_nil_r, <- IH. pose proof (serve_request_other s1 x (request_key r)) as Ho. rewrite E2 in Ho. apply Ho. intros Hk.
    apply not_true_iff_false in Hm. apply Hm. unfold request_key in Hk. apply rate_window_key_inj in Hk as (Ht & Hsub & Hw); [|exact Hcr|exact Hx].
    unfold same_window. by rewrite !bool_decide_true by congruence.
Qed.

(** C33. The rate limit is exact.  Of all requests, in whatever order the server takes
    those of different callers and workers, the one of a caller that has a limit is
    let through exactly when fewer requests of this caller came before it in its
    window; so no window lets through more than the limit, and no other caller's
    requests count.  A refused caller who waits as long as told is in the next
    window, and is told to wait between 1 and 60 seconds. *)
Theorem rate_limit_is_exact rs s i r :
  Forall (fun r => has_char ":" (r_tenant_id r) = false) rs -> clocks_agree rs ->
  rs !! i = Some r -> (0 < limit (r_tenant_id r))%Z -> entry s (request_key r) = None ->
  exists answer, (serve_requests rs s).2 !! i = Some (Ok answer) /\
    (answer = None <-> (Z.of_nat (earlier (take i rs) r) < limit (r_tenant_id r))%Z) /\
    forall wait, answer = Some wait ->
      (1 <= wait <= 60)%Z /\ ((r_now r + wait) = (window_of r + 1) * 60)%Z.
Proof.
  intros Hc Hck Hi Hl Hs. assert (exists p q, rs = p ++ r :: q /\ length p = i) as (p & q & -> & Hp).
  { exists (take i rs), (drop (Datatypes.S i) rs). rewrite take_drop_middle by done. split; [done|].
    rewrite length_take. apply lookup_lt_Some in Hi. lia. }
  rewrite take_app_length' by done. apply Forall_app in Hc as [Hc Hc']. apply Forall_cons in Hc' as [Hcr _].
  assert (clocks_agree p) as Hck'.
  { intros a b x y Hab Ha Hb. apply Hck with a b; [done|by apply lookup_app_l_Some..]. }
  pose proof (window_entry p s r Hc Hcr Hl Hck' Hs) as He.
  rewrite serve_requests_app. pose proof (serve_requests_length p s) as Hln.
  destruct (serve_requests p s) as [s1 l]. cbn in He, Hln. cbn [serve_requests].
  pose proof (window_count p q s1 r Hck He) as Hn.
  destruct (serve_request_spec s1 r _ Hl Hn) as (s2 & E2 & _). rewrite E2. destruct (serve_requests q s2) as [s3 l'].
  eexists. split; [|split].
  - cbn [snd]. rewrite lookup_app_r, Hln, Hp, Nat.sub_diag by lia. done.
  - destruct (Z.ltb_spec (Z.of_nat (earlier p r)) (limit (r_tenant_id r))); split; try done; lia.
  - intros wait Hw. destruct (_ <? _)%Z; [done|]. injection Hw as <-. unfold window_of.
    pose proof (Z.mod_pos_bound (r_now r) 60 ltac:(lia)). pose proof (Z.div_mod (r_now r) 60 ltac:(lia)).
    change DISPATCH_RATE_LIMIT_WINDOW_SECONDS with 60%Z. lia.
Qed.
End Rate.

(** * The slots

    One caller's dispatches, each a task of some worker: it takes a slot, works, and
    releases the slot in its [finally].  Tasks interleave at their commands; a
    command may also fail, after or before the server ran it. *)

Inductive SlotOp := slot_valkey (o : ValkeyOp) | slot_work.

Definition SlotAns (o : SlotOp) : Type := match o with slot_valkey o => ValkeyAns o | slot_work => unit end.

Abbreviation slot_action := (action SlotAns ValkeyError).

Definition slot_incr (key : string) (ttl : Z) : slot_action Z := invoke (slot_valkey (vk_incr_expire key ttl)).
Definition slot_decr (key : string) : slot_action Z := invoke (slot_valkey (vk_decr key)).
Definition slot_delete (key : string) : slot_action unit := invoke (slot_valkey (vk_delete key)).

Section Slots.
Context {S : Type} `{ValkeyLaws S}.
Context (tenant_id : uuid) (principal_sub : string) (cap ttl_seconds : Z).

Abbreviation key := (concurrency_key tenant_id principal_sub).

Definition slot_task : slot_action unit :=
  '(retry, slot) ← acquire_dispatch_slot slot_incr slot_decr slot_delete tenant_id principal_sub cap ttl_seconds;
  match retry with
  | Some _ => mret tt
  | None => finally (invoke slot_work) (release_dispatch_slot slot_decr slot_delete slot)
  end.

Definition Task : Type := slot_action unit.

Definition is_working (c : Task) : bool := match c with Call slot_work _ => true | _ => false end.
Definition is_deleting (c : Task) : bool := match c with Call (slot_valkey (vk_delete _)) _ => true | _ => false end.
Definition is_incr (o : ValkeyOp) : bool := match o with vk_incr_expire _ _ => true | _ => false end.

Definition working (ts : list Task) : nat := length (select_where is_working ts).

(** A task may take a slot when no other is between its DECR and its DELETE. *)
Definition calm (ts : list Task) : Prop := Forall (fun c => is_deleting c = false) ts.

(** The key's counter has not expired. *)
Definition unexpired (t : Z) (s : S) : Prop := match entry s key with Some e => alive t e = true | None => True end.

(** One step; [undisturbed] asks for [calm], and without [failing] no command fails. *)
Inductive slot_step (undisturbed failing : bool) : S * list Task -> S * list Task -> Prop :=
| step_work s ts (i : nat) (k : res ValkeyError (SlotAns slot_work) -> Task) x : ts !! i = Some (Call slot_work k) ->
    slot_step undisturbed failing (s, ts) (s, <[i := k x]> ts)
| step_serve s ts (i : nat) o (k : res ValkeyError (SlotAns (slot_valkey o)) -> Task) t s' (x : SlotAns (slot_valkey o)) : ts !! i = Some (Call (slot_valkey o) k) -> unexpired t s ->
    (undisturbed = true -> is_incr o = true -> calm ts) -> serve t o s = (s', x) ->
    slot_step undisturbed failing (s, ts) (s', <[i := k (Ok x)]> ts)
| step_fail s ts (i : nat) o (k : res ValkeyError (SlotAns (slot_valkey o)) -> Task) t e s' : failing = true -> ts !! i = Some (Call (slot_valkey o) k) -> unexpired t s ->
    (undisturbed = true -> is_incr o = true -> calm ts) -> (s' = s \/ s' = (serve t o s).1) ->
    slot_step undisturbed failing (s, ts) (s', <[i := k (Raise e)]> ts)
| step_other s s' ts : entry s' key = entry s key -> slot_step undisturbed failing (s, ts) (s', ts).

(** Whether a task is counted: it works, or it is about to take back its count. *)
Definition counted (c : Task) : Z :=
  match c with Call slot_work _ | Call (slot_valkey (vk_decr _)) _ => 1%Z | _ => 0%Z end.

(** A task as it goes on: what it is answered decides whether it is counted. *)
Fixpoint orderly (c : Task) : Prop :=
  match c with
  | Ret _ => True
  | Call slot_work k => forall x, orderly (k x) /\ counted (k x) = 1%Z /\ is_working (k x) = false /\ is_deleting (k x) = false
  | Call (slot_valkey (vk_incr_expire k' ttl)) k => k' = key /\ ttl = ttl_seconds /\ forall x, orderly (k x) /\ is_deleting (k x) = false /\
      match x with
      | Ok n => counted (k (Ok n)) = 1%Z /\ ((cap < n)%Z -> is_working (k (Ok n)) = false)
      | Raise e => counted (k (Raise e)) = 0%Z
      end
  | Call (slot_valkey (vk_decr k')) k => k' = key /\ forall x, orderly (k x) /\ counted (k x) = 0%Z /\
      match x with
      | Ok n => is_deleting (k (Ok n)) = true -> (n <= 0)%Z
      | Raise e => is_deleting (k (Raise e)) = false
      end
  | Call (slot_valkey (vk_delete k')) k => k' = key /\ forall x, orderly (k x) /\ counted (k x) = 0%Z /\ is_deleting (k x) = false
  end.

Lemma slot_task_orderly : (0 < cap)%Z -> orderly slot_task /\ counted slot_task = 0%Z /\ is_working slot_task = false /\ is_deleting slot_task = false.
Proof.
  intros Hcap. unfold slot_task, acquire_dispatch_slot. destruct (Z.leb_spec cap 0); [lia|].
  unfold decr_and_reap, release_dispatch_slot, slot_incr, slot_decr, slot_delete. cbn.
  split_and!; try done. intros [n|e]; cbn; [|done].
  destruct (Z.ltb_spec cap n); cbn.
  - split_and!; try done. intros [m|e]; cbn; [|done]. destruct (Z.leb_spec m 0); cbn; [|done]. split_and!; try done. by intros [[]|e].
  - split_and!; try done; [|lia]. intros x. cbn. destruct x as [[]|e]; cbn; split_and!; try done; intros [m|e']; cbn; try done;
      destruct (Z.leb_spec m 0); cbn; try done; (split_and!; try done; by intros [[]|e'']).
Qed.

(** ** The invariant *)

Definition value (s : S) : Z := match entry s key with Some e => e.1 | None => 0%Z end.

Definition sum_of {A} (f : A -> Z) (l : list A) : Z := foldr (fun x n => (f x + n)%Z) 0%Z l.

Lemma sum_of_insert {A} (f : A -> Z) (l : list A) i x y :
  l !! i = Some x -> sum_of f (<[i := y]> l) = (sum_of f l - f x + f y)%Z.
Proof.
  unfold sum_of. revert i. induction l as [|z l IH]; intros [|i] Hi; try done; simpl in *.
  - injection Hi as ->. lia.
  - rewrite (IH i) by done. lia.
Qed.

Lemma sum_of_le {A} (f g : A -> Z) (l : list A) : (forall x, (f x <= g x)%Z) -> (sum_of f l <= sum_of g l)%Z.
Proof. intros Hfg. unfold sum_of. induction l as [|x l IH]; simpl; [lia|]. specialize (Hfg x). lia. Qed.

Definition total (ts : list Task) : Z := sum_of counted ts.

Lemma working_counted c : is_working c = true -> counted c = 1%Z.
Proof. by destruct c as [|[[]|]]. Qed.

Lemma counted_bounds c : (0 <= counted c <= 1)%Z.
Proof. destruct c as [|[[]|]]; cbn; lia. Qed.

Lemma working_sum ts : Z.of_nat (working ts) = sum_of (fun c => if is_working c then 1 else 0)%Z ts.
Proof.
  unfold working, select_where, sum_of. induction ts as [|c ts IH]; [done|]. simpl. rewrite <- IH.
  destruct (is_working c); simpl; lia.
Qed.

Lemma working_total ts : (Z.of_nat (working ts) <= total ts)%Z.
Proof.
  rewrite working_sum. apply sum_of_le. intros c. destruct (is_working c) eqn:E; [by rewrite (working_counted c)|].
  apply counted_bounds.
Qed.

Record slots_ok (p : S * list Task) : Prop := {
  so_orderly : Forall orderly p.2;
  so_total : (total p.2 <= value p.1)%Z;
  so_working : (Z.of_nat (working p.2) <= cap)%Z;
  so_deleting : calm p.2 \/ (total p.2 <= 0)%Z;
}.

Lemma slots_ok_step s s' ts i c c' :
  slots_ok (s, ts) -> ts !! i = Some c -> orderly c' ->
  (total ts - counted c + counted c' <= value s')%Z ->
  (is_working c' = true -> is_working c = true \/ (value s' <= cap)%Z) ->
  (is_deleting c' = true -> (value s' <= 0)%Z) ->
  ((counted c' <= counted c)%Z \/ (calm ts /\ is_deleting c' = false)) ->
  slots_ok (s', <[i := c']> ts).
Proof.
  intros [Ho Ht Hw Hd] Hi Hc' Htot Hwork Hdel Hcalm. cbn [fst snd] in *.
  assert (total (<[i := c']> ts) = total ts - counted c + counted c')%Z as Et by (by apply sum_of_insert).
  constructor; cbn [fst snd].
  - by apply Forall_insert.
  - lia.
  - destruct (is_working c') eqn:Ew.
    + destruct (Hwork eq_refl) as [Ec|Hv]; [|pose proof (working_total (<[i := c']> ts)); lia].
      rewrite working_sum in *. rewrite (sum_of_insert _ _ _ _ _ Hi), Ew, Ec. lia.
    + rewrite working_sum in *. rewrite (sum_of_insert _ _ _ _ _ Hi), Ew. destruct (is_working c); lia.
  - destruct (is_deleting c') eqn:Ed; [right; specialize (Hdel eq_refl); lia|].
    destruct Hcalm as [Hle|[Hcalm _]]; [|left; by apply Forall_insert].
    destruct Hd as [Hd|Hd]; [left; by apply Forall_insert|right; lia].
Qed.

Lemma value_served (t : Z) (o : ValkeyOp) s :
  (0 < ttl_seconds)%Z -> unexpired t s -> op_key o = key -> (match o with vk_incr_expire _ ttl => ttl = ttl_seconds | _ => True end) ->
  match o return SlotAns (slot_valkey o) -> S -> Prop with
  | vk_incr_expire _ _ => fun n s' => n = (value s + 1)%Z /\ value s' = n
  | vk_decr _ => fun n s' => n = (value s - 1)%Z /\ value s' = n
  | vk_delete _ => fun _ s' => value s' = 0%Z
  end (serve t o s).2 (serve t o s).1.
Proof.
  intros Httl Hun Hk Hop. assert (count_at t (entry s key) = value s) as Hc.
  { unfold count_at, value, unexpired in *. destruct (entry s key) as [e|]; [by rewrite Hun|done]. }
  unfold value in *. destruct o as [k ttl|k|k]; cbn in Hk; subst k.
  - subst ttl. pose proof (incr_expire_entry t key ttl_seconds s Httl) as Hi. destruct (serve t _ s) as [s' n]. cbn.
    destruct Hi as [-> ->]. by rewrite Hc.
  - pose proof (decr_entry t key s) as Hd. destruct (serve t (vk_decr key) s) as [s' n]. cbn. destruct Hd as [-> ->]. by rewrite Hc.
  - by rewrite delete_entry.
Qed.

(** What [orderly] says of a task at a command. *)
Lemma orderly_at ts i o k : Forall orderly ts -> ts !! i = Some (Call (slot_valkey o) k : Task) -> orderly (Call (slot_valkey o) k).
Proof. intros Ho Hi. rewrite Forall_lookup in Ho. by apply (Ho i). Qed.

Lemma deleting_total s ts i k' k : slots_ok (s, ts) -> ts !! i = Some (Call (slot_valkey (vk_delete k')) k : Task) -> (total ts <= 0)%Z.
Proof.
  intros Hok Hi. destruct (so_deleting _ Hok) as [Hc|Hc]; [|exact Hc]. cbn [fst snd] in Hc. unfold calm in Hc.
  rewrite Forall_lookup in Hc. by specialize (Hc _ _ Hi).
Qed.

Lemma uncounted_idle c : counted c = 0%Z -> is_working c = true -> False.
Proof. intros Hz Hw. by rewrite (working_counted _ Hw) in Hz. Qed.

Lemma served_step_ok s ts i o (k : res ValkeyError (SlotAns (slot_valkey o)) -> Task) t :
  (0 < ttl_seconds)%Z -> slots_ok (s, ts) -> ts !! i = Some (Call (slot_valkey o) k) -> unexpired t s ->
  (is_incr o = true -> calm ts) -> slots_ok ((serve t o s).1, <[i := k (Ok (serve t o s).2)]> ts).
Proof.
  intros Httl Hok Hi Hun Hcalm. pose proof (so_total _ Hok) as Ht. cbn [fst snd] in Ht.
  pose proof (orderly_at _ _ _ _ (so_orderly _ Hok) Hi) as Ho. pose proof (value_served t o s Httl Hun) as Hv.
  destruct o as [k' ttl|k'|k']; cbn [orderly] in Ho.
  - destruct Ho as (-> & -> & Ho). destruct (Hv eq_refl eq_refl) as [Hx Hv']. destruct (serve t _ s) as [s' x]. cbn [fst snd] in *.
    destruct (Ho (Ok x)) as (H1 & H2 & H3' & H4').
    assert (counted (k (Ok x)) = 1%Z /\ ((cap < x)%Z -> is_working (k (Ok x)) = false)) as [H3 H4] by exact (conj H3' H4').
    apply (slots_ok_step s s' ts i _ (k (Ok x)) Hok Hi); cbn [counted is_working]; rewrite ?H2, ?H3; try done; [lia| |right; auto].
    intros Hw. right. destruct (Z.le_gt_cases x cap); [lia|]. rewrite H4 in Hw by lia. done.
  - destruct Ho as (-> & Ho). destruct (Hv eq_refl I) as [Hx Hv']. destruct (serve t _ s) as [s' x]. cbn [fst snd] in *.
    destruct (Ho (Ok x)) as (H1 & H2 & H3).
    apply (slots_ok_step s s' ts i _ (k (Ok x)) Hok Hi); cbn [counted is_working]; rewrite ?H2; try done; [lia| | |by left].
    + intros Hw. by destruct (uncounted_idle _ H2).
    + intros Hd. specialize (H3 Hd). lia.
  - destruct Ho as (-> & Ho). specialize (Hv eq_refl I). destruct (serve t _ s) as [s' x]. cbn [fst snd] in *.
    destruct (Ho (Ok x)) as (H1 & H2 & H3). pose proof (deleting_total _ _ _ _ _ Hok Hi).
    apply (slots_ok_step s s' ts i _ (k (Ok x)) Hok Hi); cbn [counted is_working]; rewrite ?H2, ?H3; try done; [lia| |by left].
    intros Hw. by destruct (uncounted_idle _ H2).
Qed.

Lemma failed_step_ok s ts i o (k : res ValkeyError (SlotAns (slot_valkey o)) -> Task) t e s' :
  (0 < ttl_seconds)%Z -> slots_ok (s, ts) -> ts !! i = Some (Call (slot_valkey o) k) -> unexpired t s ->
  s' = s \/ s' = (serve t o s).1 -> slots_ok (s', <[i := k (Raise e)]> ts).
Proof.
  intros Httl Hok Hi Hun Hs. pose proof (so_total _ Hok) as Ht. cbn [fst snd] in Ht.
  pose proof (orderly_at _ _ _ _ (so_orderly _ Hok) Hi) as Ho. pose proof (value_served t o s Httl Hun) as Hv.
  assert (orderly (k (Raise e)) /\ counted (k (Raise e)) = 0%Z /\ is_deleting (k (Raise e)) = false /\
    (total ts - counted (Call (slot_valkey o) k) <= value s')%Z) as (H1 & H2 & H3 & H4).
  { destruct o as [k' ttl|k'|k']; cbn [orderly] in Ho.
    - destruct Ho as (-> & -> & Ho). destruct (Hv eq_refl eq_refl) as [Hx Hv']. destruct (Ho (Raise e)) as (? & ? & ?).
      split_and!; try done. cbn [counted]. destruct Hs as [->| ->]; lia.
    - destruct Ho as (-> & Ho). destruct (Hv eq_refl I) as [Hx Hv']. destruct (Ho (Raise e)) as (? & ? & ?).
      split_and!; try done. cbn [counted]. destruct Hs as [->| ->]; lia.
    - destruct Ho as (-> & Ho). specialize (Hv eq_refl I). cbv beta iota in Hv. destruct (Ho (Raise e)) as (? & ? & ?).
      pose proof (deleting_total _ _ _ _ _ Hok Hi). split_and!; try done. cbn [counted]. destruct Hs as [->| ->]; lia. }
  apply (slots_ok_step s s' ts i _ (k (Raise e)) Hok Hi); rewrite ?H2, ?H3; try done; [lia| |].
  - intros Hw. by destruct (uncounted_idle _ H2).
  - left. apply counted_bounds.
Qed.

Lemma slot_step_ok failing p p' :
  (0 < ttl_seconds)%Z -> slot_step true failing p p' -> slots_ok p -> slots_ok p'.
Proof.
  intros Httl Hstep Hok.
  destruct Hstep as [s ts i k x Hi|s ts i o k t s' x Hi Hun Hcalm Hs|s ts i o k t e s' _ Hi Hun _ Hs|s s' ts Hs].
  - pose proof (so_orderly _ Hok) as Ho. rewrite Forall_lookup in Ho. destruct (Ho _ _ Hi x) as (H1 & H2 & H3 & H4).
    pose proof (so_total _ Hok) as Ht. cbn [fst snd] in Ht.
    apply (slots_ok_step s s ts i _ (k x) Hok Hi); cbn [counted is_working]; rewrite ?H2, ?H3, ?H4; try done; [lia|by left].
  - pose proof (served_step_ok s ts i o k t Httl Hok Hi Hun (Hcalm eq_refl)) as Hn. by rewrite Hs in Hn.
  - by apply (failed_step_ok s ts i o k t e s').
  - destruct Hok. constructor; cbn [fst snd] in *; try done. unfold value. by rewrite Hs.
Qed.

(** The cap holds as long as no task takes a slot between another's DECR and its
    DELETE, and the counter does not expire while it is used.  In every
    interleaving of any number of the caller's tasks with each other and with all
    other users of the server, commands failing at any point, before or after the
    server ran them, at most [cap] tasks work at a time. *)
Theorem slots_bound_work failing n s p :
  (0 < cap)%Z -> (0 < ttl_seconds)%Z -> (0 <= value s)%Z ->
  rtc (slot_step true failing) (s, replicate n slot_task) p -> (Z.of_nat (working p.2) <= cap)%Z.
Proof.
  intros Hcap Httl Hv Hr. destruct (slot_task_orderly Hcap) as (H1 & H2 & H3 & H4).
  assert (slots_ok (s, replicate n slot_task)) as Hok.
  { assert (total (replicate n slot_task) = 0%Z /\ working (replicate n slot_task) = 0) as [Et Ew].
    { clear Hr. split; [unfold total, sum_of|unfold working, select_where];
        (induction n as [|n IH]; [done|]); simpl; rewrite ?H2, ?H3; [by rewrite IH|done]. }
    constructor; cbn [fst snd]; [by apply Forall_replicate|lia|lia|]. left. by apply Forall_replicate. }
  apply so_working. revert Hok. induction Hr as [|p q r Hpq _ IH]; [done|]. intros Hok. apply IH. by eapply slot_step_ok.
Qed.
End Slots.

(** * The race of a release *)

Section Race.
Abbreviation store := (gmap string Entry).
Abbreviation task := (slot_task "t" "ann" 1 3600).

(** Without that condition the cap does not hold, though no command fails and
    nothing expires: with a cap of one, a task that takes its slot between the DECR
    of another's release and the DELETE that follows works uncounted, and the next
    one works beside it. *)
Theorem release_race_exceeds_cap : exists p : store * list Task,
  rtc (slot_step "t" "ann" false false) (∅, replicate 3 task) p /\ working p.2 = 2.
Proof.
  eexists. split.
  - (* the first task takes its slot, works, and counts down *)
    eapply rtc_l; [eapply (step_serve _ _ _ _ _ _ 0 _ _ 0); [reflexivity|by vm_compute|done|reflexivity]|].
    eapply rtc_l; [eapply (step_work _ _ _ _ _ _ 0 _ (Ok tt)); reflexivity|].
    eapply rtc_l; [eapply (step_serve _ _ _ _ _ _ 0 _ _ 1); [reflexivity|by vm_compute|done|reflexivity]|].
    (* the second takes a slot, the first deletes the counter, the third takes a slot *)
    eapply rtc_l; [eapply (step_serve _ _ _ _ _ _ 1 _ _ 2); [reflexivity|by vm_compute|done|reflexivity]|].
    eapply rtc_l; [eapply (step_serve _ _ _ _ _ _ 0 _ _ 3); [reflexivity|by vm_compute|done|reflexivity]|].
    eapply rtc_l; [eapply (step_serve _ _ _ _ _ _ 2 _ _ 4); [reflexivity|by vm_compute|done|reflexivity]|].
    apply rtc_refl.
  - by vm_compute.
Qed.
End Race.

(** * Witnesses *)

Definition w_limit (t : uuid) : Z := if bool_decide (t = "t") then 1%Z else 0%Z.

Definition w_requests : list Request :=
  [{| r_tenant_id := "t"; r_sub := "ann"; r_now := 100; r_served := 7 |};
   {| r_tenant_id := "t"; r_sub := "bob"; r_now := 101; r_served := 8 |};
   {| r_tenant_id := "t"; r_sub := "ann"; r_now := 103; r_served := 9 |}].

(** The second request of [ann] in the window is refused; [bob]'s is not. *)
Lemma rate_limit_is_exact_witness : exists wait,
  (serve_requests w_limit w_requests (∅ : gmap string Entry)).2 !! 2 = Some (Ok (Some wait)) /\ (1 <= wait <= 60)%Z.
Proof.
  destruct (rate_limit_is_exact w_limit w_requests (∅ : gmap string Entry) 2
    {| r_tenant_id := "t"; r_sub := "ann"; r_now := 103; r_served := 9 |}) as (answer & Ha & Hn & Hw).
  - by repeat constructor.
  - intros i j r r' Hij Hi Hj _. destruct i as [|[|[|i]]]; destruct j as [|[|[|j]]]; try lia; cbn in Hi, Hj; try done;
      injection Hi as <-; injection Hj as <-; cbn; lia.
  - done.
  - by vm_compute.
  - done.
  - destruct answer as [wait|]; [exists wait; split; [exact Ha|by apply Hw]|].
    exfalso. destruct Hn as [Hn _]. specialize (Hn eq_refl). vm_compute in Hn. done.
Defined.

(** The second task finds no slot. *)
Lemma slots_bound_work_witness : exists p : gmap string Entry * list Task,
  rtc (slot_step "t" "ann" true true) (∅, replicate 2 (slot_task "t" "ann" 1 3600)) p /\ working p.2 = 1 /\
  (Z.of_nat (working p.2) <= 1)%Z.
Proof.
  eexists. split; [|split].
  - eapply rtc_l; [eapply (step_serve _ _ _ _ _ _ 0 _ _ 0); [reflexivity|by vm_compute|intros; by repeat constructor|reflexivity]|].
    eapply rtc_l; [eapply (step_serve _ _ _ _ _ _ 1 _ _ 2); [reflexivity|by vm_compute|intros; by repeat constructor|reflexivity]|].
    apply rtc_refl.
  - by vm_compute.
  - apply (slots_bound_work "t" "ann" 1 3600 true 2 (∅ : gmap string Entry)); [lia|lia|by vm_compute|].
    eapply rtc_l; [eapply (step_serve _ _ _ _ _ _ 0 _ _ 0); [reflexivity|by vm_compute|intros; by repeat constructor|reflexivity]|].
    eapply rtc_l; [eapply (step_serve _ _ _ _ _ _ 1 _ _ 2); [reflexivity|by vm_compute|intros; by repeat constructor|reflexivity]|].
    apply rtc_refl.
Defined.

Example override_examples :
  resolve_int_override " 7b0e9f86-7a2d-4b41-a5ad-dc1e3f1c0aa1 = 5 ,nonsense, {7B0E9F867A2D4B41A5ADDC1E3F1C0AA1}=9"
    "7b0e9f86-7a2d-4b41-a5ad-dc1e3f1c0aa1" 3 = 5%Z /\
  resolve_int_override "urn:uuid:7b0e9f86-7a2d-4b41-a5ad-dc1e3f1c0aa1=x,{7B0E9F867A2D4B41A5ADDC1E3F1C0AA1}=1_0"
    "7b0e9f86-7a2d-4b41-a5ad-dc1e3f1c0aa1" 3 = 10%Z /\
  resolve_int_override "" "7b0e9f86-7a2d-4b41-a5ad-dc1e3f1c0aa1" 3 = 3%Z.
Proof. by vm_compute. Qed.
