(* ===== verification/DispatchTypes.v ===== *)
(** The data of a dispatch ([operations/dispatcher.py]): the answer a caller gets
    ([connectors/schemas.py], [operations/_errors.py]), the exceptions, the context
    variables, the audit row ([operations/_audit.py]), and everything a dispatch
    calls outside itself, as the operations of a program.

    Durations and the texts of errors are left out.  The extras of an answer keep
    the fields that are not texts for people. *)

From S2P Require Import Prelude Json Identity Permissions Catalog Lookup ServiceGrants PolicyGate SecretValues.
From S2P Require Import GatewayMint Programs DispatchLimits.

(** * Answers *)

Record ResultHandle := { h_handle_id : uuid; h_total_rows : option Z; h_sample_rows : option (list json) }.

Record OperationResult := {
  r_status : string;
  r_op_id : string;
  r_result : option json;
  r_handle : option ResultHandle;
  r_audit_id : option uuid;
  r_delivery : option string;
  r_extras : json_dict;
}.

Definition error_code (r : OperationResult) : option json := dict_get "error_code" (r_extras r).

Definition has_error_code (code : string) (r : OperationResult) : bool :=
  match error_code r with Some (JStr s) => bool_decide (s = code) | _ => false end.

Definition set_audit_id (id : uuid) (r : OperationResult) : OperationResult := {|
  r_status := r_status r; r_op_id := r_op_id r; r_result := r_result r; r_handle := r_handle r;
  r_audit_id := Some id; r_delivery := r_delivery r; r_extras := r_extras r |}.

Definition set_extras (extras : json_dict) (r : OperationResult) : OperationResult := {|
  r_status := r_status r; r_op_id := r_op_id r; r_result := r_result r; r_handle := r_handle r;
  r_audit_id := r_audit_id r; r_delivery := r_delivery r; r_extras := extras |}.

(** An answer without a payload. *)
Definition answer (status op_id : string) (extras : json_dict) : OperationResult := {|
  r_status := status; r_op_id := op_id; r_result := None; r_handle := None; r_audit_id := None;
  r_delivery := None; r_extras := extras |}.

Definition coded (code : string) (more : json_dict) : json_dict := ("error_code", JStr code) :: more.
Definition opt_str (s : option string) : json := match s with Some s => JStr s | None => JNull end.

Definition result_license_read_off (op_id : string) : OperationResult :=
  answer "error" op_id (coded "license_read_off" [("op_id", JStr op_id)]).
Definition result_target_required (op_id : string) : OperationResult :=
  answer "error" op_id (coded "target_required" [("op_id", JStr op_id)]).
Definition result_invalid_op_schema (op_id : string) : OperationResult :=
  answer "error" op_id (coded "invalid_op_schema" []).
Definition result_invalid_params (op_id : string) : OperationResult :=
  answer "error" op_id (coded "invalid_params" []).
Definition result_unqualified_target_version (op_id reason : string) (product version : option string) : OperationResult :=
  answer "error" op_id (coded "unqualified_target_version"
    [("reason", JStr reason); ("target_product", opt_str product); ("target_version", opt_str version)]).
Definition result_no_connector (op_id product : string) (version : option string) : OperationResult :=
  answer "error" op_id (coded "no_connector" [("product", JStr product); ("version", opt_str version)]).
Definition result_ambiguous_connector (op_id product version : string) : OperationResult :=
  answer "error" op_id (coded "ambiguous_connector" [("product", JStr product); ("version", JStr version)]).
Definition INGESTED_OPS_NOT_ACCEPTED : string := "ingested_ops_not_accepted".
Definition result_ingested_ops_not_accepted (op_id : string) : OperationResult :=
  answer "denied" op_id (coded INGESTED_OPS_NOT_ACCEPTED []).

Definition result_denied (op_id reason : string) (reason_code : option string) : OperationResult :=
  answer "denied" op_id
    (coded (if starts_with (READ_SCOPE_DENIED +:+ ":") reason then READ_SCOPE_DENIED else "denied")
       [("reason_code", JStr (default (deny_reason_code reason) reason_code)); ("reason", JStr reason)]).
Definition result_rate_limited (op_id kind : string) (limit retry_after_seconds : Z) : OperationResult :=
  answer "rate_limited" op_id (coded "rate_limited"
    [("kind", JStr kind); ("limit", JInt limit); ("retry_after_seconds", JInt retry_after_seconds)]).
Definition result_audit_commit_failed (op_id : string) (approval_request_id : option json) : OperationResult :=
  answer "error" op_id (coded "audit_commit_failed"
    ([("execution_outcome", JStr "uncertain"); ("retry", JBool false)] ++
     match approval_request_id with Some v => [("approval_request_id", v)] | None => [] end)).
Definition result_announce_required (op_id : string) : OperationResult :=
  answer "denied" op_id (coded "announce_required" []).
Definition result_preview_binding_required (op_id : string) : OperationResult :=
  answer "denied" op_id (coded "preview_binding_required" []).
Definition result_preview_hash_mismatch (op_id : string) : OperationResult :=
  answer "denied" op_id (coded "preview_hash_mismatch" []).
Definition result_blast_radius_required (op_id : string) : OperationResult :=
  answer "denied" op_id (coded "blast_radius_required" []).
Definition result_park_check_refused (op_id : string) : OperationResult :=
  answer "denied" op_id (coded "refused_before_approval" []).
Definition result_write_capability_denied (op_id : string) : OperationResult :=
  answer "denied" op_id (coded "write_capability_denied" []).
Definition result_awaiting_approval (op_id : string) (request_id : uuid) (reused : bool) : OperationResult :=
  answer "awaiting_approval" op_id (coded "awaiting_approval"
    (("approval_request_id", JStr request_id) :: if reused then [("approval_request_reused", JBool true)] else [])).
Definition result_idempotency_key_conflict (op_id : string) (request_id : uuid) : OperationResult :=
  answer "denied" op_id (coded "idempotency_key_conflict" [("approval_request_id", JStr request_id)]).
Definition result_composite_terminal_error (op_id error_code : string) (envelope : option json)
  (handle : option ResultHandle) (delivery : option string) : OperationResult := {|
  r_status := "error"; r_op_id := op_id; r_result := envelope; r_handle := handle; r_audit_id := None;
  r_delivery := delivery; r_extras := coded error_code [] |}.
Definition result_composite_resume_state_missing (op_id : string) : OperationResult :=
  answer "error" op_id (coded "composite_resume_state_missing" [("blocked_op_id", JStr op_id)]).
Definition result_composite_resume_repeats_write (composite_op_id approved_op_id blocked_op_id : string) : OperationResult :=
  answer "error" composite_op_id (coded "composite_resume_repeats_write"
    [("composite_op_id", JStr composite_op_id); ("approved_op_id", JStr approved_op_id); ("blocked_op_id", JStr blocked_op_id)]).
Definition result_composite_resume_multi_gate_unsupported (composite_op_id approved_op_id blocked_op_id : string) : OperationResult :=
  answer "error" composite_op_id (coded "composite_resume_multi_gate_unsupported"
    [("composite_op_id", JStr composite_op_id); ("approved_op_id", JStr approved_op_id); ("blocked_op_id", JStr blocked_op_id)]).
Definition shutting_down_result (op_id : string) : OperationResult :=
  answer "error" op_id (coded "meho_shutting_down" [("execution_outcome", JStr "not_started"); ("retry", JBool true)]).

Definition wrap_ok_result (op_id : string) (payload : json) (handle : option ResultHandle) (extras : json_dict)
  (audit_id : option uuid) : OperationResult := {|
  r_status := "ok"; r_op_id := op_id;
  r_result := match payload with JNull => None | JDict _ | JList _ => Some payload | _ => Some (JDict [("value", payload)]) end;
  r_handle := handle; r_audit_id := audit_id; r_delivery := Some "complete"; r_extras := extras |}.

Definition status_code_for_result (result_status : string) : Z :=
  if bool_decide (result_status ∈ ["ok"; "already_resumed"]) then 200
  else if bool_decide (result_status ∈ ["awaiting_approval"; "pending"]) then 202
  else if bool_decide (result_status = "denied") then 403
  else if bool_decide (result_status = "rate_limited") then 429
  else if bool_decide (result_status = "not_found") then 404 else 500.

(** * Exceptions

    [cancelled] is the only one that [except Exception] does not catch. *)
Inductive Fault :=
| cancelled
| audit_commit_error
| idempotency_key_conflict (request_id : uuid)
| handoff_key_error
| composite_recursion_limit
| import_or_type_error
| not_implemented
| http_status_error (status_code : Z)
| connect_error (tls_verify : bool)
| timeout_exception
| transport_error
| vault_forbidden
| connector_auth_error
| secret_ref_read_error
| resource_not_found
| probe_refused
| other_exception.
#[export] Instance Fault_eq_dec : EqDecision Fault.
Proof. solve_decision. Defined.

(** * What a dispatch reads *)

(** The columns of a descriptor row the dispatcher reads besides those of the gate. *)
Record OpRow := {
  row : EndpointDescriptor;
  source_kind : string;
  row_path : option string;
  handler_ref : option string;
  response_schema : json;
  llm_instructions : json;
}.
Definition row_op_id (r : OpRow) : string := k_op_id (ed_key (row r)).
Definition row_level (r : OpRow) : string := ed_safety_level (row r).

(** A connector class, as far as the dispatcher asks for it: whether it takes
    ingested operations, the statuses its profile names for an expired session,
    whether it can end a session and drop its credentials. *)
Record ConnectorClass := {
  cc_accepts_ingested : bool;
  cc_expiry_statuses : option (list Z);
  cc_invalidate_session : bool;
  cc_invalidate_credentials : bool;
}.

Inductive ResolutionLabel := no_connector | ambiguous_connector | ingested_ops_not_accepted | target_required.

(** The row serves the target, or a sibling row of another version does. *)
Inductive CatalogChoice :=
| catalog_selection (sibling : option (OpRow * string)) (cls : option ConnectorClass)
| catalog_refusal (reason : string) (product version : option string).

(** The arguments of [dispatch]. *)
Record DispatchCall := {
  c_operator : Operator;
  c_connector_id : string;
  c_op_id : string;
  c_target : option Target;
  c_params : json_dict;
  c_approved : bool;
  c_preview_hash : option string;
  c_idempotency_key : option string;
}.

Record CompositeResumeState := { rs_op_id : string; rs_state : json; rs_after_main_effect : bool }.

(** The context variables a dispatch reads and binds.  [composite_resume_var], which
    a sub-operation clears for the rest of the run, is an operation instead. *)
Record Ctx := {
  cx_depth : nat;
  cx_actor : option string;
  cx_approved_requester : option string;
  cx_approved_run : bool;
  cx_parent_audit_id : option uuid;
  cx_policy_decision : option string;
  cx_reveal_secret : option bool;
  cx_composite_dispatch : option (string * json_dict);
  cx_resume_scope : option (string * string);
  cx_resume_state : option CompositeResumeState;
  cx_agent_run_id : option uuid;
  cx_requester : option string;
  cx_handle_owner : option string;
}.

Definition with_decision (d : option string) (cx : Ctx) : Ctx := {|
  cx_depth := cx_depth cx; cx_actor := cx_actor cx; cx_approved_requester := cx_approved_requester cx;
  cx_approved_run := cx_approved_run cx; cx_parent_audit_id := cx_parent_audit_id cx; cx_policy_decision := d;
  cx_reveal_secret := cx_reveal_secret cx; cx_composite_dispatch := cx_composite_dispatch cx;
  cx_resume_scope := cx_resume_scope cx; cx_resume_state := cx_resume_state cx; cx_agent_run_id := cx_agent_run_id cx;
  cx_requester := cx_requester cx; cx_handle_owner := cx_handle_owner cx |}.

(** The variables [_dispatch_now] binds before its [try]. *)
Definition enter_dispatch (reveal : option bool) (approved : bool) (cx : Ctx) : Ctx := {|
  cx_depth := cx_depth cx; cx_actor := cx_actor cx; cx_approved_requester := cx_approved_requester cx;
  cx_approved_run := approved || cx_approved_run cx; cx_parent_audit_id := cx_parent_audit_id cx;
  cx_policy_decision := None; cx_reveal_secret := reveal; cx_composite_dispatch := cx_composite_dispatch cx;
  cx_resume_scope := cx_resume_scope cx; cx_resume_state := cx_resume_state cx; cx_agent_run_id := cx_agent_run_id cx;
  cx_requester := cx_requester cx; cx_handle_owner := cx_handle_owner cx |}.

(** Those of [dispatch_composite], for its handler. *)
Definition enter_composite (audit_id : uuid) (op_id : string) (params : json_dict) (cx : Ctx) : Ctx := {|
  cx_depth := cx_depth cx; cx_actor := cx_actor cx; cx_approved_requester := cx_approved_requester cx;
  cx_approved_run := cx_approved_run cx; cx_parent_audit_id := Some audit_id; cx_policy_decision := cx_policy_decision cx;
  cx_reveal_secret := cx_reveal_secret cx; cx_composite_dispatch := Some (op_id, params);
  cx_resume_scope := cx_resume_scope cx; cx_resume_state := cx_resume_state cx; cx_agent_run_id := cx_agent_run_id cx;
  cx_requester := cx_requester cx; cx_handle_owner := cx_handle_owner cx |}.

(** Those of [_dispatch_child]. *)
Definition enter_child (depth : nat) (parent_audit_id : uuid) (cx : Ctx) : Ctx := {|
  cx_depth := depth; cx_actor := cx_actor cx; cx_approved_requester := cx_approved_requester cx;
  cx_approved_run := cx_approved_run cx; cx_parent_audit_id := Some parent_audit_id;
  cx_policy_decision := cx_policy_decision cx;
  cx_reveal_secret := cx_reveal_secret cx; cx_composite_dispatch := cx_composite_dispatch cx;
  cx_resume_scope := cx_resume_scope cx; cx_resume_state := cx_resume_state cx; cx_agent_run_id := cx_agent_run_id cx;
  cx_requester := cx_requester cx; cx_handle_owner := cx_handle_owner cx |}.

(** * The audit row *)

Inductive AuditEventClass := POLICY_DECISION | OPERATION_EXECUTION.
#[export] Instance AuditEventClass_eq_dec : EqDecision AuditEventClass.
Proof. solve_decision. Defined.

(** The columns and the parts of the payload; keys that a handler binds for its own
    row are left out. *)
Record AuditRow := {
  au_id : uuid;
  au_event_class : AuditEventClass;
  au_operator : Operator;
  au_actor : option string;
  au_row : OpRow;
  au_target_id : option uuid;
  au_params_hash : string;
  au_result_status : string;
  au_status_code : Z;
  au_raw_payload : option json;
  au_redaction_policy_id : option string;
  au_handle_metadata : option json_dict;
  au_error : option json_dict;
  au_parent_audit_id : option uuid;
  au_policy_decision : option string;
  au_reveal_secret : option bool;
}.

(** * The calls of a dispatch *)

(** What reaches a target: the operation with its arguments, under the context
    variables that hold. *)
Record Execution := {
  x_operator : Operator;
  x_row : OpRow;
  x_target : option Target;
  x_params : json_dict;
  x_audit_id : uuid;
  x_cx : Ctx;
}.

(** What a handler returns: a payload, or an answer of its own. *)
Inductive Outcome := payload (v : json) | returned (r : OperationResult).

Record PreviewContext := {
  pv_row : OpRow;
  pv_class : option ConnectorClass;
  pv_operator : Operator;
  pv_target : option Target;
  pv_params : json_dict;
  pv_connector_id : string;
}.

Record ParkArgs := {
  pk_operator : Operator;
  pk_connector_id : string;
  pk_row : OpRow;
  pk_target : option Target;
  pk_params : json_dict;
  pk_params_hash : string;
  pk_run_id : option uuid;
  pk_proposed_effect : option json_dict;
  pk_preview_hash : option string;
  pk_resume_parent : option json_dict;
  pk_idempotency_key : option string;
  pk_requester : option string;
  pk_reveal_secret : bool;
}.

(** The request a park leaves: its id, whether it was there before, and the id of
    the request that expired under the same key. *)
Record Parked := { pd_id : uuid; pd_reused : bool; pd_expired : option uuid }.

(** Why there is no row ([op_miss_result] of [operations/_op_miss.py]). *)
Inductive OpMiss :=
| miss_package (package : string)
| miss_code
| miss_license_read
| miss_connector (did_you_mean : list string)
| miss_op (known_op_count : Z) (connectors_with_op : list string).

Definition strings (l : list string) : json := JList (JStr <$> l).

Definition op_miss_result (connector_id op_id : string) (m : OpMiss) : OperationResult :=
  answer "error" op_id
    match m with
    | miss_package package => coded "connector_package_not_installed" [("connector_id", JStr connector_id); ("package", JStr package)]
    | miss_code => coded "connector_code_not_installed" [("connector_id", JStr connector_id)]
    | miss_license_read => coded "license_read_off" [("op_id", JStr op_id)]
    | miss_connector l => coded "unknown_connector" [("connector_id", JStr connector_id); ("did_you_mean", strings l)]
    | miss_op n l => coded "unknown_op" [("known_op_count", JInt n); ("connectors_with_op", strings l)]
    end.

Inductive DispatchOp :=
| d_is_draining
| d_track (approved_run : bool)
| d_untrack
| d_lookup (tenant_id : uuid) (key : OpKey)
| d_op_miss (tenant_id : uuid) (connector_id op_id : string) (target : option Target)
| d_choose_catalog (operator : Operator) (r : OpRow) (connector_id : string) (target : option Target) (allow_sibling : bool)
| d_time
| d_valkey (o : ValkeyOp)
| d_uuid
| d_gate (k : GateCall)
| d_announce (operator : Operator) (op_class safety_level : string) (target_name : option string)
| d_audit (a : AuditRow)
| d_park_check (p : PreviewContext)
| d_restore_profiles (product : string)
| d_resolve_class (target : option Target)
| d_instance (c : ConnectorClass)
| d_build_effect (p : PreviewContext)
| d_preflight (p : PreviewContext)
| d_preview (operator : Operator) (connector_id op_id : string) (target : option Target) (params : json_dict)
| d_park (a : ParkArgs)
| d_step_event (request_id : uuid) (decision : string)
| d_forget_target (target : Target)
| d_capture_begin (audit_id : uuid)
| d_capture_end (audit_id : uuid)
| d_trace (audit_id : uuid)
| d_run (x : Execution)
| d_vendor (x : Execution) (request : json)
| d_invalidate_session (x : Execution)
| d_evict (x : Execution)
| d_redact (raw : json) (connector_id : string) (tenant_id : uuid) (op_id : string)
| d_reduce (raw schema : json) (context : json_dict)
| d_activity (operator : Operator) (op_class : string) (target_name : option string)
| d_checks (operator : Operator)
| d_reflex (operator : Operator) (op_class : string) (target_name : option string)
| d_resume_get
| d_resume_clear.

Definition DispatchAns (o : DispatchOp) : Type :=
  match o with
  | d_is_draining => bool
  | d_lookup _ _ => option OpRow
  | d_op_miss _ _ _ _ => OpMiss
  | d_choose_catalog _ _ _ _ _ => CatalogChoice
  | d_time => Z
  | d_valkey o => ValkeyAns o
  | d_uuid => uuid
  | d_gate _ => PermissionVerdict * option string
  | d_announce _ _ _ _ => option string
  | d_park_check _ => option string
  | d_resolve_class _ => ConnectorClass + ResolutionLabel
  | d_build_effect _ | d_preflight _ => option json_dict
  | d_preview _ _ _ _ _ => json_dict
  | d_park _ => Parked
  | d_capture_begin _ => option uuid
  | d_trace _ => option json
  | d_run _ => Outcome
  | d_vendor _ _ => json
  | d_redact _ _ _ _ => Redaction
  | d_reduce _ _ _ => json * option ResultHandle
  | d_activity _ _ _ | d_checks _ | d_reflex _ _ _ => json_dict
  | d_resume_get => option (string * string)
  | _ => unit
  end.

Abbreviation dispatch_action := (action DispatchAns Fault).
Definition call (o : DispatchOp) : dispatch_action (DispatchAns o) := invoke o.

(** ** The handlers of composite operations

    A composite's handler calls its target, dispatches children, and asks the gate
    about a sub-operation it runs itself. *)
Record SubopCall := {
  sb_connector_id : string;
  sb_op_id : string;
  sb_safety_level : string;
  sb_requires_approval : bool;
  sb_target : option Target;
  sb_params : json_dict;
  sb_resume_state : option json;
  sb_after_main_effect : bool;
}.

Inductive HandlerOp :=
| h_vendor (request : json)
| h_child (connector_id op_id : string) (params : json_dict) (target : option Target)
| h_gate (b : SubopCall).

Definition HandlerAns (o : HandlerOp) : Type :=
  match o with
  | h_vendor _ => json
  | h_child _ _ _ _ => OperationResult
  | h_gate _ => option OperationResult
  end.

Definition Handler : Type :=
  Operator -> option Target -> json_dict -> option ConnectorClass -> action HandlerAns Fault Outcome.

(** * The rest of the process

    What a dispatch asks of other parts without waiting for them. *)
Class Environment := {
  (** [classify_op], [descriptor_op_class], [_handler_requires_target] *)
  classify_op : string -> string;
  descriptor_op_class : OpRow -> string;
  handler_requires_target : string -> bool;
  (** the JSON Schema validator and the registered checks of params *)
  iter_errors : json -> json_dict -> SchemaVerdict;
  params_check_ok : string -> json_dict -> bool;
  (** the operations with a check before a wait for approval *)
  park_check_registered : string -> bool;
  (** keyed hashes of params, and the comparison with a stored one *)
  compute_audit_params_hash : json_dict -> string;
  compute_params_hash : json_dict -> string;
  params_hash_matches : json_dict -> string -> bool;
  hmac_sha256 : string -> string -> string;
  params_hash_key : string;
  sha256_hex : string -> string;
  (** the declared plain fields of answers, [redact_error_payload] ([None] where it
      raises), [sends_secret] *)
  plain_fields : gmap string (list string);
  redact_error_payload : json -> option json;
  sends_secret : string -> list string -> bool;
  resolve_target_version : Target -> option string;
  role_floors : gmap string TenantRole;
  limit_settings : LimitSettings;
  composite_max_depth : nat;
  VAULT_KV_WRITE_CAPABILITIES : list string;
  (** [import_handler] for composites *)
  import_composite_handler : string -> option Handler;
}.
