(* ===== verification/DispatchPark.v ===== *)
(** The steps the dispatcher and the composites share ([operations/dispatcher.py],
    [operations/_audit.py]): writing an audit row, refusing a call, resolving the
    connector, and what stands between a call that needs approval and its request in
    the queue. *)

From S2P Require Import Prelude Json Identity Permissions Catalog Lookup ServiceGrants PolicyGate SecretNames.
From S2P Require Import SecretValues WireText GatewayMint Programs DispatchLimits DispatchTypes.

Section Park.
Context `{Environment}.

(** [except Exception]. *)
Definition catch_all {A} (c : dispatch_action A) (handler : Fault -> dispatch_action A) : dispatch_action A :=
  try_except c (fun e => if bool_decide (e = cancelled) then None else Some (handler e)).

(** * Audit rows *)

(** The optional arguments of [write_audit_row]. *)
Record AuditDetail := {
  dt_raw_payload : option json;
  dt_policy_id : option string;
  dt_handle : option json_dict;
  dt_error : option json_dict;
}.
Definition no_detail : AuditDetail := {| dt_raw_payload := None; dt_policy_id := None; dt_handle := None; dt_error := None |}.

Definition error_extras_for_audit (r : OperationResult) : option json_dict :=
  match r_extras r with [] => None | extras => Some extras end.

Definition error_detail (r : OperationResult) : AuditDetail := {|
  dt_raw_payload := None; dt_policy_id := None; dt_handle := None; dt_error := error_extras_for_audit r |}.

(** [write_audit_row]: the row it commits. *)
Definition audit_row (cx : Ctx) (audit_id : uuid) (cls : AuditEventClass) (operator : Operator) (r : OpRow)
  (target : option Target) (params_hash result_status : string) (d : AuditDetail) : AuditRow := {|
  au_id := audit_id; au_event_class := cls; au_operator := operator; au_actor := cx_actor cx; au_row := r;
  au_target_id := target ≫= tg_id; au_params_hash := params_hash; au_result_status := result_status;
  au_status_code := status_code_for_result result_status; au_raw_payload := dt_raw_payload d;
  au_redaction_policy_id := dt_policy_id d; au_handle_metadata := dt_handle d; au_error := dt_error d;
  au_parent_audit_id := cx_parent_audit_id cx; au_policy_decision := cx_policy_decision cx;
  au_reveal_secret := cx_reveal_secret cx |}.

Definition audit_safe (a : AuditRow) (require_audit : bool) : dispatch_action (option uuid) :=
  catch_all (_ ← call (d_audit a); mret (Some (au_id a)))
    (fun _ => if require_audit then throw audit_commit_error else mret None).

Definition audit_rejection_safe (cx : Ctx) (operator : Operator) (r : OpRow) (target : option Target)
  (params_hash result_status : string) : dispatch_action (option uuid) :=
  audit_id ← call d_uuid;
  audit_safe (audit_row cx audit_id POLICY_DECISION operator r target params_hash result_status no_detail) false.

Definition with_audit_receipt (r : OperationResult) (receipt : option uuid) : OperationResult :=
  match receipt, r_audit_id r with
  | Some id, None => set_audit_id id r
  | _, _ => r
  end.

Definition audit_denied_and_return (cx : Ctx) (result : OperationResult) (operator : Operator) (r : OpRow)
  (target : option Target) (params_hash : string) : dispatch_action OperationResult :=
  audit_id ← call d_uuid;
  receipt ← audit_safe (audit_row cx audit_id POLICY_DECISION operator r target params_hash "denied" (error_detail result)) false;
  mret (with_audit_receipt result receipt).

(** * The connector *)

Definition is_hand_written (r : OpRow) : bool := bool_decide (source_kind r ∈ ["typed"; "composite"]).

Definition descriptor_requires_target (r : OpRow) : bool :=
  bool_decide (source_kind r = "ingested") ||
  (is_hand_written r && handler_requires_target (default "" (handler_ref r))).

Definition restore_saved_ingest_profiles (target : option Target) : dispatch_action unit :=
  match target ≫= tg_product with
  | None | Some "" => mret tt
  | Some product => call (d_restore_profiles product)
  end.

Definition resolve_connector_instance (r : OpRow) (target : option Target)
  : dispatch_action (option ConnectorClass * option ResolutionLabel) :=
  if bool_decide (source_kind r = "ingested") then
    _ ← restore_saved_ingest_profiles target;
    found ← call (d_resolve_class target);
    match found with
    | inr label => mret (None, Some label)
    | inl cls =>
        if cc_accepts_ingested cls then _ ← call (d_instance cls); mret (Some cls, None)
        else mret (None, Some ingested_ops_not_accepted)
    end
  else if is_hand_written r && bool_decide (target <> None) then
    found ← call (d_resolve_class target);
    match found with
    | inr label => mret (None, Some label)
    | inl cls => _ ← call (d_instance cls); mret (Some cls, None)
    end
  else if is_hand_written r && handler_requires_target (default "" (handler_ref r))
  then mret (None, Some target_required)
  else mret (None, None).

Definition is_ingested_refusal (label : option ResolutionLabel) : bool :=
  match label with Some ingested_ops_not_accepted => true | _ => false end.

Definition ingested_ops_refusal (r : OpRow) (target : option Target) (op_id : string)
  : dispatch_action (option OperationResult) :=
  if negb (bool_decide (source_kind r = "ingested")) || bool_decide (target = None) then mret None
  else
    resolved ← resolve_connector_instance r target;
    mret (if is_ingested_refusal resolved.2 then Some (result_ingested_ops_not_accepted op_id) else None).

(** * What the approver will see *)

Definition SENSITIVE_CLASSES : list string := ["credential_read"; "credential_mint"; "credential_write"].
Definition BLAST_RADIUS_KEY : string := "blast_radius".

Definition has_key {A} (k : string) (d : list (string * A)) : bool := match dict_get k d with Some _ => true | None => false end.
Definition is_text (s : string) (v : option json) : bool := match v with Some (JStr t) => bool_decide (t = s) | _ => false end.
Definition is_true (v : option json) : bool := match v with Some (JBool true) => true | _ => false end.

Definition describe_preview_provenance (preview : option json_dict) (op_id : string) : bool * option string :=
  let p := default [] preview in
  if is_true (dict_get "preview_unavailable" p) then (false, None)
  else if has_key "preview" p || has_key "params_echo" p then (true, None)
  else if bool_decide (classify_op op_id ∈ SENSITIVE_CLASSES) then (false, Some "credential_write_redacted")
  else (false, Some "connector_did_not_populate").

(** [d.setdefault(k, v)]. *)
Definition setdefault (k : string) (v : json) (d : json_dict) : json_dict := if has_key k d then d else dict_put k v d.

Definition identifier_default_effect (op_id connector_id : string) (target : option Target) : json_dict :=
  [("op_id", JStr op_id); ("connector_id", JStr connector_id)] ++
  match target ≫= tg_id with Some id => [("target_id", JStr id)] | None => [] end.

(** A call of the gate; [decide_only] is for previews, and [now] its clock. *)
Definition gate_call (cx : Ctx) (operator : Operator) (d : EndpointDescriptor) (target : option Target)
  (connector_id : string) (preview_hash : option string) (params : json_dict) (now : datetime) : GateCall := {|
  gk_operator := operator; gk_descriptor := d; gk_target := target; gk_connector_id := Some connector_id;
  gk_preview_hash := preview_hash; gk_params := Some params; gk_decide_only := false; gk_actor := cx_actor cx;
  gk_now := now |}.

(** The fields [_build_proposed_effect] adds to what the hooks answered. *)
Definition proposed_effect_of (cx : Ctx) (p : PreviewContext) (op_id : string) (preview preflight : option json_dict) : json_dict :=
  let base := default [] preview in
  let base := match preflight with
              | None => base
              | Some f =>
                  let base := dict_put "permission_preflight" (JDict f) base in
                  if is_true (dict_get "will_be_denied" f)
                  then dict_put "write_capability_warning" (JStr "connector_identity_may_lack_write") base else base
              end in
  let '(populated, reason) := describe_preview_provenance preview op_id in
  let base := dict_put "preview_populated" (JBool populated) base in
  let base := match reason with Some s => dict_put "preview_reason" (JStr s) base | None => base end in
  let base := foldl (fun d kv => setdefault kv.1 kv.2 d) base
                (identifier_default_effect op_id (pv_connector_id p) (pv_target p)) in
  let base := setdefault "op_class" (JStr (classify_op op_id)) base in
  let base := dict_put "safety_level" (JStr (row_level (pv_row p))) base in
  let base := if waits_only_for_token_call
                   (gate_call cx (pv_operator p) (row (pv_row p)) (pv_target p) (pv_connector_id p) None (pv_params p) 0%Z)
              then dict_put "waits_because" (JStr "token_call") base else base in
  match dict_get "preview" base with
  | Some (JDict body) =>
      match dict_get BLAST_RADIUS_KEY body with
      | None | Some JNull => base
      | Some block => setdefault BLAST_RADIUS_KEY block base
      end
  | _ => base
  end.

Definition build_proposed_effect (cx : Ctx) (op_id connector_id : string) (r : OpRow) (operator : Operator)
  (target : option Target) (params : json_dict) : dispatch_action (option json_dict) :=
  catch_all
    (resolved ← resolve_connector_instance r target;
     let p := {| pv_row := r; pv_class := match resolved.2 with None => resolved.1 | Some _ => None end;
                 pv_operator := operator; pv_target := target; pv_params := params; pv_connector_id := connector_id |} in
     preview ← call (d_build_effect p);
     preflight ← call (d_preflight p);
     mret (Some (proposed_effect_of cx p op_id preview preflight)))
    (fun _ => mret None).

(** * What stands before a park *)

Definition park_check_refusal (op_id connector_id : string) (r : OpRow) (operator : Operator) (target : option Target)
  (params : json_dict) : dispatch_action (option OperationResult) :=
  if negb (park_check_registered (row_op_id r)) then mret None
  else
    resolved ← catch_all (resolve_connector_instance r target) (fun _ => mret (None, None));
    reason ← call (d_park_check {|
      pv_row := r; pv_class := match resolved.2 with None => resolved.1 | Some _ => None end;
      pv_operator := operator; pv_target := target; pv_params := params; pv_connector_id := connector_id |});
    mret (match reason with None => None | Some _ => Some (result_park_check_refused op_id) end).

Definition PREVIEW_HASH_KEYS : list string := ["connector_id"; "op_id"; "method"; "resolved_path"; "query"; "redacted_body"].
Definition PARAMS_DIGEST_KEY : string := "params_digest".

Definition preview_hash_source (envelope : json_dict) : json_dict :=
  List.map (fun k => (k, default JNull (dict_get k envelope))) PREVIEW_HASH_KEYS ++
  match dict_get PARAMS_DIGEST_KEY envelope with Some v => [(PARAMS_DIGEST_KEY, v)] | None => [] end.

Definition compute_preview_hash (envelope : json_dict) : string := sha256_hex (json_dumps (JDict (preview_hash_source envelope))).

Definition nonempty_text (v : option json) : option string :=
  match v with Some (JStr s) => if bool_decide (s = "") then None else Some s | _ => None end.

(** [None] for a well-formed statement, or what is missing. *)
Definition blast_radius_missing_reason (proposed_effect : option json_dict) : option string :=
  match proposed_effect with
  | None | Some [] => Some "proposed_effect is empty (no blast-radius statement)"
  | Some effect =>
      match dict_get BLAST_RADIUS_KEY effect with
      | Some (JDict block) =>
          if negb (truthy (default JNull (dict_get "object" block)))
          then Some "blast_radius.object (object identity) is missing"
          else match dict_get "children" block with
               | Some (JList _) =>
                   match nonempty_text (dict_get "irreversibility" block) with
                   | Some _ => None
                   | None => Some "blast_radius.irreversibility (irreversibility class) is missing"
                   end
               | _ => Some "blast_radius.children (enumerated child objects) must be a list"
               end
      | _ =>
          match nonempty_text (dict_get "preview_error" effect) with
          | Some e => Some ("the preview builder failed: " +:+ e)
          | None => Some "proposed_effect.blast_radius block is absent"
          end
      end
  end.

Definition destructive_binding_refusal (op_id connector_id : string) (operator : Operator) (target : option Target)
  (params : json_dict) (preview_hash : option string) (proposed_effect : option json_dict)
  : dispatch_action (option OperationResult) :=
  match preview_hash with
  | None | Some "" => mret (Some (result_preview_binding_required op_id))
  | Some presented =>
      authoritative ← call (d_preview operator connector_id op_id target params);
      if negb (is_text "ok" (dict_get "status" authoritative))
      then mret (Some (result_preview_binding_required op_id))
      else if negb (bool_decide (compute_preview_hash authoritative = presented))
      then mret (Some (result_preview_hash_mismatch op_id))
      else match blast_radius_missing_reason proposed_effect with
           | Some _ => mret (Some (result_blast_radius_required op_id))
           | None => mret None
           end
  end.

Definition preflight_denied_refusal (op_id : string) (proposed_effect : option json_dict) : option OperationResult :=
  match dict_get "permission_preflight" (default [] proposed_effect) with
  | Some (JDict f) => if is_true (dict_get "will_be_denied" f) then Some (result_write_capability_denied op_id) else None
  | _ => None
  end.

(** [a] refuses, or the next does. *)
Definition or_refusal (a b : dispatch_action (option OperationResult)) : dispatch_action (option OperationResult) :=
  x ← a; match x with Some r => mret (Some r) | None => b end.

(** The refusals before a request is stored, and what the approver will see of it;
    [check_ingested] is on for a dispatched call. *)
Definition park_screens (cx : Ctx) (check_ingested : bool) (op_id connector_id : string) (operator : Operator) (r : OpRow)
  (target : option Target) (params : json_dict) (preview_hash : option string)
  : dispatch_action (option OperationResult * option json_dict) :=
  refusal ← or_refusal (park_check_refusal op_id connector_id r operator target params)
              (if check_ingested then ingested_ops_refusal r target op_id else mret None);
  match refusal with
  | Some _ => mret (refusal, None)
  | None =>
      effect ← build_proposed_effect cx op_id connector_id r operator target params;
      binding ← (if bool_decide (row_level r = "destructive")
                 then destructive_binding_refusal op_id connector_id operator target params preview_hash effect
                 else mret None);
      mret (match binding with Some b => Some b | None => preflight_denied_refusal op_id effect end, effect)
  end.
End Park.
