(* ===== verification/TerminalErrors.v ===== *)
(** The inline view of the error of a composite operation
    ([operations/dispatcher.py]): which of its issues stay in the answer when the rest
    of the envelope is behind a result handle, and how long they are. *)

From S2P Require Import Prelude Json WireText SecretValues.

(** [len(json.dumps(value))]; the order of the keys does not change it. *)
Definition json_text_bytes (v : json) : nat := String.length (json_dumps v).

Definition TERMINAL_ERROR_INLINE_KEYS : list string := ["status"; "summary"].
Definition TERMINAL_ERROR_INLINE_ISSUES : nat := 5.
Definition TERMINAL_ERROR_ISSUES_BYTE_BUDGET : nat := 2048.
Definition TERMINAL_ERROR_ISSUE_TEXT_CAP : nat := 256.
Definition TERMINAL_ERROR_TEXT_CUT_MARK : string := "...<truncated>".

Definition is_error_issue (item : json) : bool :=
  match item with JDict d => match dict_get "severity" d with Some (JStr s) => bool_decide (s = "error") | _ => false end | _ => false end.

Definition text_bytes (text : string) : nat := json_text_bytes (JStr text) - 2.

(** The characters kept of a text that is too long; [fuel] is the end of the slice. *)
Fixpoint kept_prefix (fuel budget used : nat) (text : string) : string :=
  match fuel, text with
  | S fuel, String c text =>
      let cost := text_bytes (String c "") in
      if budget <? used + cost then "" else String c (kept_prefix fuel budget (used + cost) text)
  | _, _ => ""
  end.

Definition cut_text_to_bytes (text : string) (cap : nat) : string :=
  if text_bytes text <=? cap then text
  else kept_prefix cap (cap - String.length TERMINAL_ERROR_TEXT_CUT_MARK) 0 text +:+ TERMINAL_ERROR_TEXT_CUT_MARK.

Definition cap_value (v : json) : json :=
  match v with JStr s => JStr (cut_text_to_bytes s TERMINAL_ERROR_ISSUE_TEXT_CAP) | _ => v end.

Definition cap_issue_text (item : json) : json :=
  match item with JDict d => JDict (List.map (fun kv => (kv.1, cap_value kv.2)) d) | _ => item end.

(** The positions of the issues, errors first. *)
Definition positions (p : json -> bool) (issues : list json) : list nat :=
  List.filter (fun i => match issues !! i with Some item => p item | None => false end) (seq 0 (length issues)).

Definition ranked (issues : list json) : list nat :=
  positions is_error_issue issues ++ positions (fun item => negb (is_error_issue item)) issues.

(** The issues kept, by position, in the order they are taken. *)
Fixpoint keep_issues (issues : list json) (used : nat) (kept : list (nat * json)) (order : list nat) : list (nat * json) :=
  match order with
  | [] => kept
  | index :: order' =>
      let capped := cap_issue_text (default JNull (issues !! index)) in
      let cost := json_text_bytes capped + 1 in
      if bool_decide (kept <> []) && (TERMINAL_ERROR_ISSUES_BYTE_BUDGET <? used + cost) then kept
      else keep_issues issues (used + cost) (kept ++ [(index, capped)]) order'
  end.

(** [[kept[index] for index in sorted(kept)]]. *)
Definition in_order (n : nat) (kept : list (nat * json)) : list json :=
  omap (fun i => snd <$> (List.find (fun kv => bool_decide (kv.1 = i)) kept)) (seq 0 n).

Definition inline_issues (issues : list json) : list json :=
  in_order (length issues) (keep_issues issues 2 [] (take TERMINAL_ERROR_INLINE_ISSUES (ranked issues))).

Definition bounded_issues (issues : list json) : list (string * json) :=
  [("issues", JList (inline_issues issues)); ("issues_total", JInt (Z.of_nat (length issues)))].

(** [{**a, **b}]. *)
Definition dict_update (a b : list (string * json)) : list (string * json) := foldl (fun d kv => dict_put kv.1 kv.2 d) a b.

Definition optional_item (k : string) (v : option json) : list (string * json) := match v with Some v => [(k, v)] | None => [] end.

Definition terminal_error_inline_fields (envelope : list (string * json)) : list (string * json) :=
  let inline := List.concat (List.map (fun k => optional_item k (dict_get k envelope)) TERMINAL_ERROR_INLINE_KEYS) in
  match dict_get "issues" envelope with
  | Some (JList issues) => dict_update inline (bounded_issues issues)
  | _ => inline
  end.

(** * The bounds *)

Lemma json_chars_app s t : json_chars (s +:+ t) = json_chars s +:+ json_chars t.
Proof. induction s as [|c s IH]; [done|]. rewrite string_app_cons. cbn [json_chars]. by rewrite IH, string_app_assoc. Qed.

Lemma text_bytes_eq s : text_bytes s = String.length (json_chars s).
Proof. unfold text_bytes, json_text_bytes, json_dumps, json_string. cbn [String.length]. rewrite string_app_length. cbn [String.length]. lia. Qed.

Lemma text_bytes_app s t : text_bytes (s +:+ t) = text_bytes s + text_bytes t.
Proof. by rewrite !text_bytes_eq, json_chars_app, string_app_length. Qed.

Lemma text_bytes_cons c s : text_bytes (String c s) = text_bytes (String c "") + text_bytes s.
Proof. by rewrite <- text_bytes_app. Qed.

Lemma kept_prefix_bytes fuel budget used text :
  used <= budget -> used + text_bytes (kept_prefix fuel budget used text) <= budget.
Proof.
  revert used text. induction fuel as [|fuel IH]; intros used text Hu; cbn [kept_prefix]; [rewrite text_bytes_eq; simpl; lia|].
  destruct text as [|c text]; [rewrite text_bytes_eq; simpl; lia|].
  destruct (Nat.ltb_spec budget (used + text_bytes (String c ""))) as [|Hle]; [rewrite text_bytes_eq; simpl; lia|].
  rewrite text_bytes_cons. specialize (IH _ text Hle). lia.
Qed.

Lemma cut_text_bytes text cap : String.length TERMINAL_ERROR_TEXT_CUT_MARK <= cap -> text_bytes (cut_text_to_bytes text cap) <= cap.
Proof.
  intros Hcap. unfold cut_text_to_bytes. destruct (Nat.leb_spec (text_bytes text) cap); [done|].
  rewrite text_bytes_app. pose proof (kept_prefix_bytes cap (cap - String.length TERMINAL_ERROR_TEXT_CUT_MARK) 0 text ltac:(lia)).
  assert (text_bytes TERMINAL_ERROR_TEXT_CUT_MARK = String.length TERMINAL_ERROR_TEXT_CUT_MARK) as -> by done. lia.
Qed.

Definition cost_of (v : json) : nat := json_text_bytes v + 1.

Lemma join_cons sep x y (l : list string) : join sep (x :: y :: l) = x +:+ sep +:+ join sep (y :: l).
Proof. reflexivity. Qed.

Lemma list_text_bytes (l : list json) : l <> [] -> json_text_bytes (JList l) = 1 + sum_list_with cost_of l.
Proof.
  unfold json_text_bytes. cbn [json_dumps String.length]. rewrite string_app_length. cbn [String.length].
  set (go := fix go l := match l with [] => [] | x :: l' => json_dumps x :: go l' end).
  change (l <> [] -> S (String.length (join "," (go l)) + 1) = 1 + sum_list_with cost_of l).
  induction l as [|x l IH]; [done|]. intros _. destruct l as [|y l]; [simpl; unfold cost_of, json_text_bytes; lia|].
  change (go (x :: y :: l)) with (json_dumps x :: json_dumps y :: go l). rewrite join_cons, !string_app_length.
  change (json_dumps y :: go l) with (go (y :: l)). specialize (IH ltac:(done)). cbn [sum_list_with] in *.
  unfold cost_of at 1, json_text_bytes at 1. cbn [String.length]. lia.
Qed.

(** ** The issues kept *)

Section Kept.
Context (issues : list json).

Definition shown_at (i : nat) : json := cap_issue_text (default JNull (issues !! i)).

Record kept_ok (kept : list (nat * json)) : Prop := {
  ko_distinct : NoDup kept.*1;
  ko_values : Forall (fun kv => kv.1 < length issues /\ kv.2 = shown_at kv.1) kept;
  ko_bytes : length kept <= 1 \/ 2 + sum_list_with cost_of kept.*2 <= TERMINAL_ERROR_ISSUES_BYTE_BUDGET;
}.

Lemma keep_issues_ok used kept order :
  used = 2 + sum_list_with cost_of kept.*2 -> kept_ok kept -> NoDup (kept.*1 ++ order) ->
  Forall (fun i => i < length issues) order ->
  let kept' := keep_issues issues used kept order in
  kept_ok kept' /\ length kept' <= length kept + length order /\ kept.*1 `prefix_of` kept'.*1 /\
  (forall i order', kept = [] -> order = i :: order' -> i ∈ kept'.*1).
Proof.
  revert used kept. induction order as [|i order IH]; intros used kept Hu Hok Hnd Hlt; cbn zeta.
  { split_and!; simpl; [done|lia|done|by intros]. }
  inversion Hlt as [|? ? Hi Hlt']; subst. cbn [keep_issues]. fold (shown_at i). change (json_text_bytes (shown_at i) + 1) with (cost_of (shown_at i)).
  destruct (bool_decide (kept <> []) && _) eqn:Eb.
  { to_prop. split_and!; simpl; [done|lia|done|by intros ? ? ->]. }
  assert (kept = [] \/ 2 + sum_list_with cost_of kept.*2 + cost_of (shown_at i) <= TERMINAL_ERROR_ISSUES_BYTE_BUDGET) as Hfit.
  { destruct kept as [|kv kept]; [by left|]. right. rewrite bool_decide_true in Eb by done. by apply Nat.ltb_ge. }
  assert ((kept ++ [(i, shown_at i)]).*2 = kept.*2 ++ [shown_at i]) as E2 by by rewrite fmap_app.
  assert ((kept ++ [(i, shown_at i)]).*1 = kept.*1 ++ [i]) as E1 by by rewrite fmap_app.
  destruct (IH (2 + sum_list_with cost_of kept.*2 + cost_of (shown_at i)) (kept ++ [(i, shown_at i)])) as (H1 & H2 & H3 & _).
  - rewrite E2, sum_list_with_app. simpl. lia.
  - destruct Hok as [Hd Hv Hb]. constructor.
    + rewrite E1. rewrite (cons_middle i), app_assoc in Hnd. by apply NoDup_app in Hnd as [? _].
    + apply Forall_app. split; [done|]. by repeat constructor.
    + rewrite E2, sum_list_with_app, length_app. simpl. destruct Hfit as [->|?]; [left; simpl; lia|right; lia].
  - by rewrite E1, <- app_assoc.
  - done.
  - rewrite E1 in H3. rewrite length_app in H2. simpl in *. split_and!; [done|lia| |].
    + etrans; [|exact H3]. by eexists.
    + intros i' order' -> [= <- <-]. destruct H3 as [l ->]. set_solver.
Qed.

Lemma find_position (kept : list (nat * json)) i kv : NoDup kept.*1 -> kv ∈ kept -> kv.1 = i ->
  List.find (fun kv => bool_decide (kv.1 = i)) kept = Some kv.
Proof.
  induction kept as [|[j v] kept IH]; intros Hnd Hin Hi; [set_solver|]. simpl in *. apply NoDup_cons in Hnd as [Hj Hnd].
  apply elem_of_cons in Hin as [->|Hin].
  - by rewrite bool_decide_true.
  - rewrite bool_decide_false; [by apply IH|]. intros ->. apply Hj. subst i. by apply (list_elem_of_fmap_2 fst).
Qed.

Lemma in_order_perm n (kept : list (nat * json)) :
  NoDup kept.*1 -> Forall (fun kv => kv.1 < n) kept -> in_order n kept ≡ₚ kept.*2.
Proof.
  unfold in_order. induction kept as [|[i v] kept IH]; intros Hnd Hlt.
  { simpl. clear. induction (seq 0 n) as [|j l IH]; [done|]. simpl. exact IH. }
  simpl in Hnd. apply NoDup_cons in Hnd as [Hi Hnd]. inversion Hlt as [|? ? Hin Hlt']; subst. simpl in Hin.
  specialize (IH Hnd Hlt').
  set (g' := fun j => snd <$> List.find (fun kv : nat * json => bool_decide (kv.1 = j)) kept) in *.
  assert (forall l : list nat, i ∉ l -> omap (fun j => snd <$> List.find (fun kv : nat * json => bool_decide (kv.1 = j)) ((i, v) :: kept)) l = omap g' l) as Hsame.
  { induction l as [|j l IHl]; intros Hj; [done|]. apply not_elem_of_cons in Hj as [Hij Hj]. cbn [omap list_omap].
    rewrite IHl by done. cbn [List.find fst]. by rewrite (bool_decide_false (i = j)) by done. }
  assert (i ∈ seq 0 n) as (a & b & Eab)%list_elem_of_split by (apply elem_of_seq; lia).
  pose proof (NoDup_seq 0 n) as Hs. rewrite Eab in Hs, IH |- *. apply NoDup_app in Hs as (_ & Ha & Hb). apply NoDup_cons in Hb as [Hb _].
  rewrite omap_app in IH |- *. cbn [omap list_omap] in IH |- *. rewrite (Hsame a), (Hsame b); [|done|].
  2:{ intros Hia. apply (Ha i Hia). set_solver. }
  cbn [List.find fst]. rewrite (bool_decide_true (i = i)) by done. cbn [fmap option_fmap option_map snd].
  assert (g' i = None) as Hg.
  { unfold g'. destruct (List.find _ kept) as [kv|] eqn:Ef; [|done]. apply List.find_some in Ef as [Hf He]. to_prop. subst i.
    exfalso. apply Hi. apply list_elem_of_fmap. exists kv. split; [done|]. by apply list_elem_of_In. }
  rewrite Hg in IH. rewrite <- Permutation_middle. simpl. by rewrite IH.
Qed.

Lemma in_order_sublist kept : kept_ok kept -> in_order (length issues) kept `sublist_of` (cap_issue_text <$> issues).
Proof.
  intros [Hd Hv _]. unfold in_order. assert (forall (l : list json) k, (forall i, i < length l -> shown_at (k + i) = cap_issue_text (default JNull (l !! i))) ->
    omap (fun i => snd <$> List.find (fun kv : nat * json => bool_decide (kv.1 = i)) kept) (seq k (length l)) `sublist_of` (cap_issue_text <$> l)) as Hgen.
  { induction l as [|x l IH]; intros k Hk; [done|]. cbn [length seq omap list_omap fmap list_fmap].
    assert (omap (fun i => snd <$> List.find (fun kv : nat * json => bool_decide (kv.1 = i)) kept) (seq (S k) (length l)) `sublist_of` (cap_issue_text <$> l)) as Hl.
    { apply IH. intros i Hi. specialize (Hk (S i) ltac:(simpl; lia)). by rewrite Nat.add_succ_comm, Hk. }
    destruct (List.find _ kept) as [kv|] eqn:Ef; simpl; [|by constructor].
    apply List.find_some in Ef as [Hf He]. to_prop. apply list_elem_of_In in Hf. rewrite Forall_forall in Hv.
    destruct (Hv kv Hf) as [_ ->]. subst k. specialize (Hk 0 ltac:(simpl; lia)). rewrite Nat.add_0_r in Hk. rewrite Hk. by constructor. }
  apply (Hgen issues 0). done.
Qed.
End Kept.

Lemma positions_lt p issues i : i ∈ positions p issues -> i < length issues.
Proof. intros Hi%list_elem_of_In%List.filter_In. destruct Hi as [Hi _]. apply list_elem_of_In, elem_of_seq in Hi. lia. Qed.

Lemma ranked_distinct issues : NoDup (ranked issues).
Proof.
  unfold ranked. apply NoDup_app. split_and!.
  - apply NoDup_ListNoDup, List.NoDup_filter, NoDup_ListNoDup, NoDup_seq.
  - intros i Hi Hi'. apply list_elem_of_In, List.filter_In in Hi as [_ Hi]. apply list_elem_of_In, List.filter_In in Hi' as [_ Hi'].
    destruct (issues !! i); [|done]. by destruct (is_error_issue j).
  - apply NoDup_ListNoDup, List.NoDup_filter, NoDup_ListNoDup, NoDup_seq.
Qed.

(** The issues inline are at most five, in the order of the envelope, each with
    its texts cut to 256 bytes of JSON, the list within 2048 bytes of JSON unless it
    is one issue alone; an issue that says why the composite failed is among them. *)
Theorem inline_issues_are_bounded issues :
  let shown := inline_issues issues in
  length shown <= 5 /\
  shown `sublist_of` (cap_issue_text <$> issues) /\
  (json_text_bytes (JList shown) <= 2048 \/ length shown = 1) /\
  (forall d k s, JDict d ∈ shown -> (k, JStr s) ∈ d -> text_bytes s <= 256) /\
  (existsb is_error_issue issues = true -> exists item, is_error_issue item = true /\ item ∈ issues /\ cap_issue_text item ∈ shown) /\
  (issues <> [] -> shown <> []).
Proof.
  cbn zeta. unfold inline_issues. set (order := take TERMINAL_ERROR_INLINE_ISSUES (ranked issues)).
  assert (Forall (fun i => i < length issues) order) as Hlt.
  { apply Forall_take, Forall_app. split; apply Forall_forall; intros i Hi; by eapply positions_lt. }
  assert (NoDup order) as Hnd by (eapply sublist_NoDup; [apply ranked_distinct|apply sublist_take]).
  destruct (keep_issues_ok issues 2 [] order) as (Hok & Hlen & _ & Hfirst).
  { done. } { constructor; simpl; [constructor|constructor|lia]. } { done. } { done. }
  set (kept := keep_issues issues 2 [] order) in *.
  assert (in_order (length issues) kept ≡ₚ kept.*2) as Hp.
  { apply in_order_perm; [apply Hok|]. eapply Forall_impl; [apply Hok|]. by intros kv [? _]. }
  assert (length (in_order (length issues) kept) = length kept) as El by by rewrite Hp, length_fmap.
  assert (forall i, i ∈ kept.*1 -> i < length issues /\ shown_at issues i ∈ in_order (length issues) kept) as Hin.
  { intros i Hi. apply list_elem_of_fmap in Hi as (kv & -> & Hkv). pose proof (ko_values _ _ Hok) as Hv.
    rewrite Forall_forall in Hv. destruct (Hv kv Hkv) as [Hl He]. split; [done|]. rewrite Hp, <- He. by apply (list_elem_of_fmap_2 snd). }
  pose proof (in_order_sublist issues kept Hok) as Hsub.
  split_and!.
  - rewrite El. etrans; [exact Hlen|]. unfold order. rewrite length_take. apply Nat.le_min_l.
  - done.
  - destruct (decide (in_order (length issues) kept = [])) as [->|Hne]; [left; vm_compute; lia|].
    rewrite list_text_bytes by done. rewrite Hp. destruct (ko_bytes _ _ Hok) as [Hl|Hb].
    + right. rewrite length_fmap. assert (length kept <> 0) by (rewrite <- El; by intros ?%nil_length_inv). lia.
    + left. unfold TERMINAL_ERROR_ISSUES_BYTE_BUDGET in Hb. lia.
  - intros d k s Hd Hks. eapply elem_of_sublist in Hd; [|exact Hsub]. apply list_elem_of_fmap in Hd as (item & Hd & _).
    destruct item as [| | | | | |d']; simplify_eq. cbn [cap_issue_text] in Hd. injection Hd as ->.
    apply list_elem_of_In, List.in_map_iff in Hks as ([k' v] & [= -> Hv] & _). destruct v; simplify_eq. cbn [cap_value] in Hv. injection Hv as <-.
    apply cut_text_bytes. vm_compute. lia.
  - intros (item & Hit & He)%List.existsb_exists. apply list_elem_of_In in Hit. apply list_elem_of_lookup in Hit as [i Hi].
    assert (positions is_error_issue issues <> []) as Hne.
    { intros Hno. assert (i ∈ positions is_error_issue issues) as Hx.
      { apply list_elem_of_In, List.filter_In. rewrite Hi. split; [|done]. apply list_elem_of_In, elem_of_seq. apply lookup_lt_Some in Hi. lia. }
      rewrite Hno in Hx. set_solver. }
    destruct (positions is_error_issue issues) as [|j js] eqn:Ej; [done|].
    assert (j ∈ positions is_error_issue issues) as Hj by (rewrite Ej; set_solver).
    apply list_elem_of_In, List.filter_In in Hj as [_ Hj]. destruct (issues !! j) as [item'|] eqn:Ei; [|done].
    exists item'. split_and!; [done|by eapply list_elem_of_lookup_2|].
    destruct (Hin j) as [_ Hs].
    + apply (Hfirst j (take 4 (js ++ positions (fun item => negb (is_error_issue item)) issues))); [done|].
      unfold order, ranked. by rewrite Ej.
    + unfold shown_at in Hs. by rewrite Ei in Hs.
  - intros Hne Hno. destruct order as [|i order'] eqn:Eo.
    + unfold order, ranked in Eo. destruct issues as [|x issues]; [done|].
      destruct (is_error_issue x) eqn:Ex; unfold positions in Eo; simpl in Eo; rewrite Ex in Eo; simpl in Eo; [done|].
      destruct (List.filter _ (seq 1 _)); simpl in Eo; done.
    + destruct (Hin i) as [_ Hs]; [by eapply Hfirst|]. rewrite Hno in Hs. set_solver.
Qed.

(** Eight warnings before one error: the error is shown, in its place. *)
Definition w_issue (severity message : string) : json := JDict [("severity", JStr severity); ("message", JStr message)].
Definition w_issues : list json := repeat (w_issue "warning" "slow") 8 ++ [w_issue "error" "no space left"].

Lemma inline_issues_are_bounded_witness :
  inline_issues w_issues = repeat (w_issue "warning" "slow") 4 ++ [w_issue "error" "no space left"] /\
  w_issues <> [] /\ inline_issues w_issues <> [].
Proof.
  split_and!; [by vm_compute|done|]. destruct (inline_issues_are_bounded w_issues) as (_ & _ & _ & _ & _ & H). by apply H.
Defined.
