(* ===== verification/Composite.v ===== *)
(** The gate of the steps a composite runs itself ([enforce_subop_policy] of
    [operations/composite.py]), with the resume of a composite after the approval of
    such a step, and the dispatch of children. *)

From S2P Require Import Prelude Json Identity Permissions Catalog Lookup ServiceGrants PolicyGate SecretNames.
From S2P Require Import SecretValues WireText GatewayMint Programs DispatchLimits DispatchTypes DispatchPark.

Section Composite.
Context `{Environment}.

(** * The policy of a step *)

(** The row the gate is asked about: the step has none in the catalogue. *)
Definition subop_row (b : SubopCall) : OpRow :=
  let '(product, version, impl_id) := parse_connector_id (sb_connector_id b) in
  {| row := {| ed_tenant_id := None;
               ed_key := {| k_product := product; k_version := version; k_impl_id := impl_id; k_op_id := sb_op_id b |};
               ed_is_enabled := true; ed_owner_package := None; ed_method := None; ed_tags := [];
               ed_safety_level := sb_safety_level b; ed_requires_approval := sb_requires_approval b;
               ed_parameter_schema := JDict [] |};
     source_kind := "composite"; row_path := None; handler_ref := None; response_schema := JNull;
     llm_instructions := JNull |}.

(** The approval of the step this run resumes for is spent on it. *)
Definition subop_resume_cleared (op_id : string) (params : json_dict) : dispatch_action bool :=
  approved ← call d_resume_get;
  match approved with
  | Some (approved_op, approved_hash) =>
      if bool_decide (approved_op = op_id) && params_hash_matches params approved_hash
      then _ ← call d_resume_clear; mret true
      else mret false
  | None => mret false
  end.

Definition covered_by_approved_run (cx : Ctx) (safety_level : string) (requires_approval : bool) : bool :=
  negb (bool_decide (safety_level = "destructive")) && negb requires_approval &&
  (cx_approved_run cx || bool_decide (cx_resume_scope cx <> None)).

Definition resume_has_not_reached_approved_step (cx : Ctx) : dispatch_action bool :=
  match cx_resume_state cx with
  | Some bound =>
      if rs_after_main_effect bound then approved ← call d_resume_get; mret (bool_decide (approved <> None))
      else mret false
  | None => mret false
  end.

Definition resume_parent_for_current_composite (cx : Ctx) (resume_state : option json) (after_main_effect : bool)
  : option json_dict :=
  match cx_composite_dispatch cx with
  | None => None
  | Some (parent_op_id, parent_params) =>
      Some ([("op_id", JStr parent_op_id); ("params", JDict parent_params)] ++
            match resume_state with Some s => [("state", s)] | None => [] end ++
            if after_main_effect then [("after_main_effect", JBool true)] else [])
  end.

Definition composite_name (cx : Ctx) : string := match cx_composite_dispatch cx with Some (n, _) => n | None => "<unknown>" end.

(** The step waits for approval, unless a screen refuses it. *)
Definition park_subop (cx : Ctx) (operator : Operator) (b : SubopCall) : dispatch_action (option OperationResult) :=
  let r := subop_row b in
  screens ← park_screens cx false (sb_op_id b) (sb_connector_id b) operator r (sb_target b) (sb_params b) None;
  match screens.1 with
  | Some refusal =>
      denied ← audit_denied_and_return cx refusal operator r (sb_target b) (compute_audit_params_hash (sb_params b));
      mret (Some denied)
  | None =>
      request ← call (d_park {|
        pk_operator := operator; pk_connector_id := sb_connector_id b; pk_row := r; pk_target := sb_target b;
        pk_params := sb_params b; pk_params_hash := compute_params_hash (sb_params b); pk_run_id := cx_agent_run_id cx;
        pk_proposed_effect := screens.2; pk_preview_hash := None;
        pk_resume_parent := resume_parent_for_current_composite cx (sb_resume_state b) (sb_after_main_effect b);
        pk_idempotency_key := None; pk_requester := cx_requester cx; pk_reveal_secret := false |});
      _ ← call (d_step_event (pd_id request) "pending");
      mret (Some (result_awaiting_approval (sb_op_id b) (pd_id request) false))
  end.

(** What follows from the verdict: [None] is leave to run the step. *)
Definition subop_verdict (cx : Ctx) (operator : Operator) (b : SubopCall) (verdict : PermissionVerdict)
  (reason : option string) : dispatch_action (option OperationResult) :=
  match verdict with
  | AUTO_EXECUTE => mret None
  | NEEDS_APPROVAL =>
      if covered_by_approved_run cx (sb_safety_level b) (sb_requires_approval b) then mret None
      else
        let cx := with_decision (Some (verdict_value verdict)) cx in
        match cx_resume_scope cx with
        | Some (approved_op_id, _) =>
            if sb_after_main_effect b then park_subop cx operator b
            else mret (Some (result_composite_resume_multi_gate_unsupported (composite_name cx) approved_op_id (sb_op_id b)))
        | None => park_subop cx operator b
        end
  | DENY =>
      denied ← audit_denied_and_return (with_decision (Some (verdict_value verdict)) cx)
                 (result_denied (sb_op_id b) (default "policy denied" reason) None) operator (subop_row b)
                 (sb_target b) (compute_audit_params_hash (sb_params b));
      mret (Some denied)
  end.

Definition judge_subop (cx : Ctx) (operator : Operator) (b : SubopCall) : dispatch_action (option OperationResult) :=
  now ← call d_time;
  judged ← call (d_gate (gate_call cx operator (row (subop_row b)) (sb_target b) (sb_connector_id b) None (sb_params b) now));
  subop_verdict cx operator b judged.1 judged.2.

(** A resumed run that has not yet reached its step would repeat what it did before. *)
Definition refuse_or_judge (cx : Ctx) (operator : Operator) (b : SubopCall) (early : bool)
  : dispatch_action (option OperationResult) :=
  if early then
    approved ← call d_resume_get;
    mret (Some (result_composite_resume_repeats_write (composite_name cx)
                  (match approved with Some (n, _) => n | None => "<unknown>" end) (sb_op_id b)))
  else judge_subop cx operator b.

Definition enforce_subop_policy (cx : Ctx) (operator : Operator) (b : SubopCall) : dispatch_action (option OperationResult) :=
  if sb_after_main_effect b && bool_decide (sb_resume_state b = None)
  then mret (Some (result_composite_resume_state_missing (sb_op_id b)))
  else
    cleared ← subop_resume_cleared (sb_op_id b) (sb_params b);
    if (cleared : bool) then mret None
    else
      early ← (if sb_after_main_effect b then mret false else resume_has_not_reached_approved_step cx);
      refuse_or_judge cx operator b early.

(** * Children *)

Definition check_composite_depth (cx : Ctx) : dispatch_action nat :=
  let attempted_depth := S (cx_depth cx) in
  if bool_decide (composite_max_depth < attempted_depth) then throw composite_recursion_limit else mret attempted_depth.

(** [get_dispatch_child]; [sub] is [dispatch]. *)
Definition dispatch_child (sub : Ctx -> DispatchCall -> dispatch_action OperationResult) (x : Execution)
  (connector_id op_id : string) (params : json_dict) (target : option Target) : dispatch_action OperationResult :=
  attempted_depth ← check_composite_depth (x_cx x);
  sub (enter_child attempted_depth (x_audit_id x) (x_cx x)) {|
    c_operator := x_operator x; c_connector_id := connector_id; c_op_id := op_id;
    c_target := match target with None => x_target x | Some t => Some t end; c_params := params;
    c_approved := false; c_preview_hash := None; c_idempotency_key := None |}.

(** * The handler *)

(** A call of the handler of [x], as calls of the dispatch. *)
Definition answer_handler (sub : Ctx -> DispatchCall -> dispatch_action OperationResult) (x : Execution) (o : HandlerOp)
  : dispatch_action (HandlerAns o) :=
  match o with
  | h_vendor request => call (d_vendor x request)
  | h_child connector_id op_id params target => dispatch_child sub x connector_id op_id params target
  | h_gate b => enforce_subop_policy (x_cx x) (x_operator x) b
  end.

Fixpoint run_handler (sub : Ctx -> DispatchCall -> dispatch_action OperationResult) (x : Execution)
  (c : action HandlerAns Fault Outcome) : dispatch_action Outcome :=
  match c with
  | Ret r => Ret r
  | Call o k => after (answer_handler sub x o) (fun a => run_handler sub x (k a))
  end.
End Composite.
