(* ===== verification/Dispatcher.v ===== *)
(** The dispatch of one operation ([operations/dispatcher.py]): lookup, validation,
    limits, policy, the connector, the execution with its errors, the protection of
    secrets, the audit row and the answer. *)

From S2P Require Import Prelude Json Identity Permissions Catalog Lookup ServiceGrants PolicyGate SecretNames.
From S2P Require Import SecretValues WireText GatewayMint Programs DispatchLimits DispatchTypes DispatchPark TerminalErrors.
From S2P Require Import Composite.

Section Dispatcher.
Context `{Environment}.

(** * The execution *)

(** The keyword arguments the functions of one execution hand down. *)
Record Job := {
  j_op_id : string;
  j_connector_id : string;
  j_row : OpRow;
  j_class : option ConnectorClass;
  j_operator : Operator;
  j_target : option Target;
  j_params : json_dict;
  j_params_hash : string;
  j_audit_id : uuid;
  j_view : option SecretView;
  j_cx : Ctx;
}.

Definition execution_of (j : Job) : Execution := {|
  x_operator := j_operator j; x_row := j_row j; x_target := j_target j; x_params := j_params j;
  x_audit_id := j_audit_id j; x_cx := j_cx j |}.

Definition execution_row (j : Job) (status : string) (d : AuditDetail) : AuditRow :=
  audit_row (j_cx j) (j_audit_id j) OPERATION_EXECUTION (j_operator j) (j_row j) (j_target j) (j_params_hash j) status d.

(** ** Errors *)

Definition VENDOR_TEXT_KEYS : list string := ["upstream_message"; "exception_message"; "raw_message"].
Definition VENDOR_TEXT_WITHHELD : string := "<vendor text withheld: this operation sends a secret>".

Definition withhold_key (d : json_dict) (k : string) : json_dict :=
  match dict_get k d with Some (JStr _) => dict_put k (JStr VENDOR_TEXT_WITHHELD) d | _ => d end.

Definition extras_without_vendor_text (extras : json_dict) : json_dict :=
  let extras := foldl withhold_key extras VENDOR_TEXT_KEYS in
  let extras := match dict_get "upstream_fault" extras with
                | Some (JDict fault) =>
                    match dict_get "faultstring" fault with
                    | None | Some JNull => extras
                    | Some _ => dict_put "upstream_fault" (JDict (dict_put "faultstring" (JStr VENDOR_TEXT_WITHHELD) fault)) extras
                    end
                | _ => extras
                end in
  match dict_get "error_code" extras, dict_get "validation_errors" extras with
  | Some (JStr "connector_http_422"), Some v =>
      if truthy v then dict_put "validation_errors" (JList [JStr VENDOR_TEXT_WITHHELD]) extras else extras
  | _, _ => extras
  end.

Definition withhold_vendor_text (r : OperationResult) (op_id : string) (tags : list string) : OperationResult :=
  if sends_secret op_id tags then set_extras (extras_without_vendor_text (r_extras r)) r else r.

(** What is left of an answer that cannot be cleaned. *)
Definition withheld_result (r : OperationResult) : OperationResult := {|
  r_status := r_status r; r_op_id := r_op_id r; r_result := None; r_handle := None; r_audit_id := r_audit_id r;
  r_delivery := Some "unavailable";
  r_extras := match error_code r with Some c => [("error_code", c)] | None => [] end |}.

(** The cleaned extras are a dict again. *)
Definition redact_error_result (r : OperationResult) : OperationResult :=
  match redact_error_payload (JDict (r_extras r)), redact_error_payload (default JNull (r_result r)) with
  | Some (JDict extras), Some result => {|
      r_status := r_status r; r_op_id := r_op_id r;
      r_result := match r_result r with Some _ => Some result | None => None end;
      r_handle := r_handle r; r_audit_id := r_audit_id r; r_delivery := r_delivery r; r_extras := extras |}
  | _, _ => withheld_result r
  end.

Definition audit_error_and_return (j : Job) (r : OperationResult) (d : AuditDetail) : dispatch_action OperationResult :=
  let r := redact_error_result (withhold_vendor_text r (row_op_id (j_row j)) (ed_tags (row (j_row j)))) in
  receipt ← audit_safe (execution_row j "error" {|
    dt_raw_payload := dt_raw_payload d; dt_policy_id := dt_policy_id d; dt_handle := dt_handle d;
    dt_error := error_extras_for_audit r |}) false;
  mret (with_audit_receipt r receipt).

(** An answer that a handler returned itself; [None] for a payload. *)
Definition audit_returned_result (j : Job) (raw : Outcome) : dispatch_action Outcome :=
  match raw with
  | payload _ => mret raw
  | returned r =>
      if bool_decide (r_status r = "error") then
        r' ← audit_error_and_return j r no_detail; mret (returned r')
      else if negb (bool_decide (r_status r ∈ ["awaiting_approval"; "denied"])) then mret raw
      else
        r' ← try_except
          (receipt ← audit_safe (execution_row j (r_status r) (error_detail r)) true;
           mret (match receipt with Some id => set_audit_id id r | None => r end))
          (fun e => if bool_decide (e = audit_commit_error)
                    then Some (mret (result_audit_commit_failed (row_op_id (j_row j))
                                       (match dict_get "approval_request_id" (r_extras r) with
                                        | Some v => if truthy v then Some v else None
                                        | None => None
                                        end)))
                    else None);
        mret (returned r')
  end.

(** ** Errors of the vendor *)

Definition AUTH_FAILED_STATUSES : list Z := [401; 440]%Z.

Definition is_auth_failed_status (status_code : Z) (expiry_statuses : option (list Z)) : bool :=
  bool_decide (status_code ∈ default AUTH_FAILED_STATUSES expiry_statuses).

Definition profile_expiry_statuses (cls : option ConnectorClass) : option (list Z) := cls ≫= cc_expiry_statuses.

Definition evict_connector_credentials (j : Job) : dispatch_action unit :=
  match j_class j with
  | Some c => if cc_invalidate_credentials c then call (d_evict (execution_of j)) else mret tt
  | None => mret tt
  end.

Definition error_answer (j : Job) (status code : string) : OperationResult := answer status (j_op_id j) (coded code []).

Definition http_status_code_name (j : Job) (status_code : Z) : string :=
  if bool_decide (status_code = 403)%Z then "connector_http_403"
  else if bool_decide (status_code = 422)%Z then "connector_http_422"
  else if is_auth_failed_status status_code (profile_expiry_statuses (j_class j)) then "connector_auth_failed"
  else "connector_error".

Definition classify_http_status_error (j : Job) (status_code : Z) : OperationResult :=
  error_answer j "error" (http_status_code_name j status_code).

(** The answer to each exception of a handler, but for an HTTP status. *)
Definition fault_answer (j : Job) (e : Fault) : OperationResult :=
  match e with
  | import_or_type_error => error_answer j "error" "handler_unreachable"
  | not_implemented => error_answer j "error" "connector_unsupported"
  | connect_error tls_verify => error_answer j "error" (if tls_verify then "connector_tls_verify_failed" else "connector_error")
  | timeout_exception | transport_error => error_answer j "error" "connector_timeout"
  | vault_forbidden =>
      error_answer j "error" (if bool_decide (j_op_id j ∈ VAULT_KV_WRITE_CAPABILITIES)
                              then "vault_write_identity_forbidden" else "connector_vault_forbidden")
  | connector_auth_error => error_answer j "error" "connector_auth_failed"
  | secret_ref_read_error => error_answer j "error" "vault_credentials_read_error"
  | resource_not_found => error_answer j "not_found" "not_found"
  | probe_refused => error_answer j "error" "connector_probe_refused"
  | _ => error_answer j "error" "connector_error"
  end.

(** ** The branch *)

Section Branch.
(** [dispatch], for the children of a composite. *)
Context (sub : Ctx -> DispatchCall -> dispatch_action OperationResult).

Definition dispatch_composite (j : Job) : dispatch_action Outcome :=
  match import_composite_handler (default "" (handler_ref (j_row j))) with
  | None => throw import_or_type_error
  | Some handler =>
      let cx := enter_composite (j_audit_id j) (row_op_id (j_row j)) (j_params j) (j_cx j) in
      run_handler sub {| x_operator := j_operator j; x_row := j_row j; x_target := j_target j; x_params := j_params j;
                         x_audit_id := j_audit_id j; x_cx := cx |}
        (handler (j_operator j) (j_target j) (j_params j) (j_class j))
  end.

Definition run_source_kind_branch (j : Job) : dispatch_action Outcome :=
  if bool_decide (source_kind (j_row j) ∈ ["ingested"; "typed"]) then call (d_run (execution_of j))
  else if bool_decide (source_kind (j_row j) = "composite") then dispatch_composite j
  else throw other_exception.

Definition return_error (j : Job) (r : OperationResult) : dispatch_action Outcome :=
  r' ← audit_error_and_return j r no_detail; mret (returned r').

(** The session is ended once, and the call made once more. *)
Definition retry_after_session_invalidation (j : Job) : dispatch_action Outcome :=
  _ ← call (d_invalidate_session (execution_of j));
  after (run_source_kind_branch j) (fun outcome =>
    match outcome with
    | Ok raw => audit_returned_result j raw
    | Raise cancelled => throw cancelled
    | Raise (http_status_error status_code) => return_error j (classify_http_status_error j status_code)
    | Raise connector_auth_error =>
        _ ← evict_connector_credentials j; return_error j (fault_answer j connector_auth_error)
    | Raise _ => return_error j (error_answer j "error" "connector_error")
    end).

Definition can_end_session (j : Job) : bool := match j_class j with Some c => cc_invalidate_session c | None => false end.

Definition handle_http_status_error (j : Job) (status_code : Z) : dispatch_action Outcome :=
  if is_auth_failed_status status_code (profile_expiry_statuses (j_class j)) && can_end_session j
  then retry_after_session_invalidation j
  else return_error j (classify_http_status_error j status_code).

Definition run_branch_with_error_handling (j : Job) : dispatch_action Outcome :=
  after (run_source_kind_branch j) (fun outcome =>
    match outcome with
    | Ok raw => audit_returned_result j raw
    | Raise cancelled => throw cancelled
    | Raise (http_status_error status_code) => handle_http_status_error j status_code
    | Raise connector_auth_error =>
        _ ← evict_connector_credentials j; return_error j (fault_answer j connector_auth_error)
    | Raise e => return_error j (fault_answer j e)
    end).

(** ** The answer of a composite that failed *)

Definition composite_terminal_error_code (r : OpRow) (envelope : json) : option string :=
  if negb (bool_decide (source_kind r = "composite")) then None
  else match envelope with
       | JDict d =>
           match dict_get "issues" d with
           | Some (JList issues) =>
               if existsb is_error_issue issues
               then Some (default "composite_error" (nonempty_text (dict_get "status" d))) else None
           | _ => None
           end
       | _ => None
       end.

(** ** The reducer *)

(** A field of [llm_instructions] that is a dict. *)
Definition instruction (name : string) (r : OpRow) : option json :=
  match llm_instructions r with
  | JDict d => match dict_get name d with Some (JDict v) => Some (JDict v) | _ => None end
  | _ => None
  end.

Definition pagination_hint_from_descriptor : OpRow -> option json := instruction "pagination_hint".
Definition result_ordering_from_descriptor : OpRow -> option json := instruction "result_ordering".
Definition result_scalars_from_descriptor : OpRow -> option json := instruction "result_scalars".
Definition result_objects_from_descriptor : OpRow -> option json := instruction "result_objects".
Definition result_digest_from_descriptor : OpRow -> option json := instruction "result_digest".
Definition result_document_from_descriptor : OpRow -> option json := instruction "result_document".
Definition result_handle_from_descriptor : OpRow -> option json := instruction "result_handle".

Definition owner_of_handles (j : Job) : string :=
  match cx_handle_owner (j_cx j) with Some s => if bool_decide (s = "") then op_sub (j_operator j) else s | None => op_sub (j_operator j) end.

Definition build_reducer_context (j : Job) : json_dict :=
  [("op_id", JStr (j_op_id j)); ("operator_sub", JStr (owner_of_handles j)); ("audit_id", JStr (j_audit_id j));
   ("source_kind", JStr (source_kind (j_row j))); ("tenant_id", JStr (op_tenant_id (j_operator j)))] ++
  optional_item "target_id" (JStr <$> (j_target j ≫= tg_id)) ++
  optional_item "pagination_hint" (pagination_hint_from_descriptor (j_row j)) ++
  optional_item "result_ordering" (result_ordering_from_descriptor (j_row j)) ++
  optional_item "result_scalars" (result_scalars_from_descriptor (j_row j)) ++
  optional_item "result_objects" (result_objects_from_descriptor (j_row j)) ++
  optional_item "result_digest" (result_digest_from_descriptor (j_row j)) ++
  optional_item "result_document" (result_document_from_descriptor (j_row j)) ++
  optional_item "result_handle" (result_handle_from_descriptor (j_row j)).

Definition reduce (j : Job) (raw : json) : dispatch_action (json * option ResultHandle) :=
  call (d_reduce raw (response_schema (j_row j)) (build_reducer_context j)).

Definition opt_int (z : option Z) : json := match z with Some z => JInt z | None => JNull end.

Definition handle_metadata_for_audit (handle : option ResultHandle) : option json_dict :=
  match handle with
  | None => None
  | Some h => Some [("handle_id", JStr (h_handle_id h)); ("total_rows", opt_int (h_total_rows h));
                    ("sample_rows_returned", JInt (match h_sample_rows h with Some l => Z.of_nat (length l) | None => 0%Z end))]
  end.

Definition detail_of (rm : Redaction) (handle : option ResultHandle) : AuditDetail := {|
  dt_raw_payload := Some (rm_raw rm); dt_policy_id := rm_policy_id rm;
  dt_handle := handle_metadata_for_audit handle; dt_error := None |}.

(** The row of an answer [ok]; without it the answer is an error. *)
Definition commit_ok (j : Job) (d : AuditDetail) (build : option uuid -> dispatch_action OperationResult)
  : dispatch_action OperationResult :=
  after (audit_safe (execution_row j "ok" d) true) (fun x =>
    match x with
    | Ok receipt => build receipt
    | Raise audit_commit_error => Ret (Ok (result_audit_commit_failed (j_op_id j) None))
    | Raise e => throw e
    end).

Definition unavailable_delivery_result (j : Job) (d : AuditDetail) : dispatch_action OperationResult :=
  commit_ok j d (fun receipt => mret {|
    r_status := "ok"; r_op_id := j_op_id j; r_result := None; r_handle := None; r_audit_id := receipt;
    r_delivery := Some "unavailable"; r_extras := [("retry", JBool false)] |}).

Definition target_name (target : option Target) : option string := target ≫= tg_name.

Definition answer_with_advisories (j : Job) (summary : json) (handle : option ResultHandle) (receipt : option uuid)
  : dispatch_action OperationResult :=
  let op_class := descriptor_op_class (j_row j) in
  activity ← call (d_activity (j_operator j) op_class (target_name (j_target j)));
  checks ← call (d_checks (j_operator j));
  reflex ← call (d_reflex (j_operator j) op_class (target_name (j_target j)));
  mret (wrap_ok_result (j_op_id j) summary handle (dict_update (dict_update activity checks) reflex) receipt).

Definition reduce_and_audit_success (j : Job) (rm : Redaction) : dispatch_action OperationResult :=
  after (reduce j (rm_redacted rm)) (fun reduced =>
    match reduced with
    | Raise cancelled => throw cancelled
    | Raise _ => unavailable_delivery_result j (detail_of rm None)
    | Ok (summary, handle) => commit_ok j (detail_of rm handle) (answer_with_advisories j summary handle)
    end).

(** ** The answer of a composite that failed, continued *)

Definition reduce_composite_error_envelope (j : Job) (full_envelope : json)
  : dispatch_action (option json * option ResultHandle * option string) :=
  after (reduce j full_envelope) (fun reduced =>
    match reduced with
    | Raise cancelled => throw cancelled
    | Raise _ => Ret (Ok (None, None, Some "unavailable"))
    | Ok (_, None) => Ret (Ok (Some full_envelope, None, None))
    | Ok (summary, Some handle) =>
        let base := match summary with JDict d => d | v => [("value", v)] end in
        let inline := match full_envelope with JDict d => terminal_error_inline_fields d | _ => [] end in
        Ret (Ok (Some (JDict (dict_update base inline)), Some handle, None))
    end).

Definition reduce_and_audit_composite_error (j : Job) (rm : Redaction) (code : string) : dispatch_action OperationResult :=
  match protect_secret_values hmac_sha256 params_hash_key plain_fields redact_error_payload (j_op_id j) (j_view j) rm with
  | None =>
      audit_error_and_return j (result_composite_terminal_error (j_op_id j) code None None (Some "unavailable"))
        (detail_of {| rm_raw := JStr (fingerprint_value hmac_sha256 params_hash_key (rm_raw rm)); rm_redacted := rm_redacted rm;
                      rm_policy_id := rm_policy_id rm |} None)
  | Some rm =>
      shown ← reduce_composite_error_envelope j (rm_redacted rm);
      let '(envelope, handle, delivery) := shown in
      audit_error_and_return j (result_composite_terminal_error (j_op_id j) code envelope handle delivery)
        (detail_of rm handle)
  end.

(** ** The whole execution *)

(** The connector boundary: redaction, and for an operation that makes a new
    credential the scrubbed copy in the row. *)
Definition apply_redaction_middleware (j : Job) (raw : json) : dispatch_action (Redaction + OperationResult) :=
  catch_all
    (rm ← call (d_redact raw (j_connector_id j) (op_tenant_id (j_operator j)) (j_op_id j));
     mret (inl (if bool_decide (classify_op (j_op_id j) = "credential_mint")
                then with_copies (fst (scrub_secret_named_values false [] (rm_raw rm))) (rm_redacted rm) rm else rm)))
    (fun _ => mret (inr (error_answer j "error" "connector_error"))).

Definition protect_answer (j : Job) (rm : Redaction) : Redaction :=
  default rm (protect_secret_values hmac_sha256 params_hash_key plain_fields Some (j_op_id j) (j_view j) rm).

Definition execute_and_audit_inner (j : Job) : dispatch_action OperationResult :=
  branch ← run_branch_with_error_handling j;
  match branch with
  | returned r => mret r
  | payload raw =>
      redaction ← apply_redaction_middleware j raw;
      match redaction with
      | inr r => audit_error_and_return j r no_detail
      | inl rm =>
          match composite_terminal_error_code (j_row j) (rm_redacted rm) with
          | Some code => reduce_and_audit_composite_error j rm code
          | None => reduce_and_audit_success j (protect_answer j rm)
          end
      end
  end.

Definition AGENT_TRACE_HANDLE_EXTRA_KEY : string := "flight_recorder_trace_handle".

(** The trace of the whole run is attached by the dispatch that owns its scope. *)
Definition attach_agent_trace_handle (r : OperationResult) (audit_id : uuid) : dispatch_action OperationResult :=
  catch_all
    (handle ← call (d_trace audit_id);
     mret (match handle with Some h => set_extras (dict_put AGENT_TRACE_HANDLE_EXTRA_KEY h (r_extras r)) r | None => r end))
    (fun _ => mret r).

Definition execute_and_audit (job : uuid -> Job) : dispatch_action OperationResult :=
  audit_id ← call d_uuid;
  scope ← call (d_capture_begin audit_id);
  result ← finally (execute_and_audit_inner (job audit_id)) (call (d_capture_end audit_id));
  match scope with Some id => attach_agent_trace_handle result id | None => mret result end.

(** * The dispatch *)

(** ** Before the decision *)

Definition LICENSE_PATH_MARK : string := "licen".

Definition is_license_read (method path : option string) : bool :=
  match method, path with
  | Some _, Some p => contains LICENSE_PATH_MARK (lower p)
  | _, _ => false
  end.

Definition LICENSE_READ_OFF : string := "license_read_off".

(** [license_read_stand_in]: the row for the audit of a read that is off; its other
    columns are null. *)
Definition license_read_stand_in (key : OpKey) : OpRow := {|
  row := {| ed_tenant_id := None; ed_key := key; ed_is_enabled := true; ed_owner_package := None; ed_method := None;
            ed_tags := []; ed_safety_level := ""; ed_requires_approval := false; ed_parameter_schema := JDict [] |};
  source_kind := "ingested"; row_path := None; handler_ref := None; response_schema := JNull; llm_instructions := JNull |}.

Definition audit_license_read_off (cx : Ctx) (r : OperationResult) (operator : Operator) (d : OpRow) (target : option Target)
  (params_hash : string) : dispatch_action OperationResult :=
  audit_denied_and_return cx r operator d target params_hash.

Definition ingested_schema_for_validation (parameter_schema : json) : json :=
  match parameter_schema with
  | JDict d => if has_key "properties" d && negb (has_key "additionalProperties" d)
               then JDict (dict_put "additionalProperties" (JBool false) d) else parameter_schema
  | _ => parameter_schema
  end.

Definition params_error (r : OpRow) (op_id : string) (params : json_dict) : option OperationResult :=
  let schema := ed_parameter_schema (row r) in
  let schema := if bool_decide (source_kind r = "ingested") then ingested_schema_for_validation schema else schema in
  match validate_params iter_errors schema params with
  | schema_unresolvable_ref => Some (result_invalid_op_schema op_id)
  | schema_violations => Some (result_invalid_params op_id)
  | schema_ok => if params_check_ok op_id params then None else Some (result_invalid_params op_id)
  end.

(** ** The limits *)

Definition valkey_incr_expire (key : string) (ttl : Z) : dispatch_action Z := call (d_valkey (vk_incr_expire key ttl)).
Definition valkey_decr (key : string) : dispatch_action Z := call (d_valkey (vk_decr key)).
Definition valkey_delete (key : string) : dispatch_action unit := call (d_valkey (vk_delete key)).

Definition refuse_rate_limited (cx : Ctx) (r : OpRow) (c : DispatchCall) (params_hash kind : string) (limit retry_after : Z)
  : dispatch_action OperationResult :=
  receipt ← audit_rejection_safe cx (c_operator c) r (c_target c) params_hash "rate_limited";
  mret (with_audit_receipt (result_rate_limited (c_op_id c) kind limit retry_after) receipt).

(** A refusal, or the slot to give back. *)
Definition take_limits (cx : Ctx) (r : OpRow) (c : DispatchCall) (params_hash : string)
  : dispatch_action (OperationResult + option string) :=
  let tenant_id := op_tenant_id (c_operator c) in
  let sub_ := op_sub (c_operator c) in
  if negb (bool_decide (cx_depth cx = 0)) || c_approved c then mret (inr None)
  else
    let rate_limit := resolve_dispatch_rate_limit limit_settings tenant_id in
    now ← call d_time;
    rate_retry ← check_dispatch_rate_limit valkey_incr_expire now tenant_id sub_ rate_limit;
    match rate_retry with
    | Some retry => answered ← refuse_rate_limited cx r c params_hash "rate" rate_limit retry; mret (inl answered)
    | None =>
        let cap := resolve_dispatch_concurrency_cap limit_settings tenant_id in
        slot ← acquire_dispatch_slot valkey_incr_expire valkey_decr valkey_delete tenant_id sub_ cap
                 (dispatch_concurrency_slot_ttl_seconds limit_settings);
        match slot.1 with
        | Some retry => answered ← refuse_rate_limited cx r c params_hash "concurrency" cap retry; mret (inl answered)
        | None => mret (inr slot.2)
        end
    end.

(** ** The decision *)

Definition agent_acts (cx : Ctx) (operator : Operator) : bool :=
  bool_decide (op_principal_kind operator = AGENT) || bool_decide (cx_actor cx <> None).

Definition reveal_waits_for_approval (operator : Operator) (reveal_secret : bool) : bool :=
  reveal_secret && negb (bool_decide (op_principal_kind operator = USER)).

Definition requester_runs_approved_call (cx : Ctx) (operator : Operator) : bool :=
  agent_acts cx operator || bool_decide (cx_approved_requester cx = Some (op_sub operator)).

Definition AGENT_REVEAL_REFUSED : string := "agent_reveal_refused".

Definition refuse_agent_reveal (cx : Ctx) (r : OpRow) (c : DispatchCall) (params_hash : string) : dispatch_action OperationResult :=
  audit_denied_and_return cx
    (result_denied (c_op_id c)
       "reveal_secret is for people only. Call again without reveal_secret to get the names without the values, or ask a person to read the secret."
       (Some AGENT_REVEAL_REFUSED)) (c_operator c) r (c_target c) params_hash.

(** A new request is shown to those who watch; one that was there already has been. *)
Definition record_request (c : DispatchCall) (request : Parked) : dispatch_action OperationResult :=
  if pd_reused request then mret (result_awaiting_approval (c_op_id c) (pd_id request) true)
  else
    _ ← match pd_expired request with Some id => call (d_step_event id "expired") | None => mret tt end;
    _ ← call (d_step_event (pd_id request) "pending");
    mret (result_awaiting_approval (c_op_id c) (pd_id request) false).

(** The call waits for approval; the answer says so, or why it cannot. *)
Definition store_request (cx : Ctx) (r : OpRow) (connector_id : string) (c : DispatchCall) (params : json_dict)
  (reveal_secret : bool) (effect : option json_dict) : dispatch_action OperationResult :=
  request ← call (d_park {|
    pk_operator := c_operator c; pk_connector_id := connector_id; pk_row := r; pk_target := c_target c;
    pk_params := params; pk_params_hash := compute_params_hash params; pk_run_id := cx_agent_run_id cx;
    pk_proposed_effect := effect; pk_preview_hash := c_preview_hash c; pk_resume_parent := None;
    pk_idempotency_key := c_idempotency_key c; pk_requester := None; pk_reveal_secret := reveal_secret |});
  record_request c request.

Definition handle_needs_approval (cx : Ctx) (r : OpRow) (connector_id : string) (c : DispatchCall) (params : json_dict)
  (params_hash : string) (reveal_secret : bool) : dispatch_action OperationResult :=
  screens ← park_screens cx true (c_op_id c) connector_id (c_operator c) r (c_target c) params (c_preview_hash c);
  match screens.1 with
  | Some refusal => audit_denied_and_return cx refusal (c_operator c) r (c_target c) params_hash
  | None =>
      try_except (store_request cx r connector_id c params reveal_secret screens.2)
        (fun e => match e with
                  | cancelled => None
                  | idempotency_key_conflict request_id =>
                      Some (audit_denied_and_return cx (result_idempotency_key_conflict (c_op_id c) request_id)
                              (c_operator c) r (c_target c) params_hash)
                  | handoff_key_error =>
                      Some (mret (result_denied (c_op_id c)
                        "credential-write approval custody is unavailable; configure a valid APPROVAL_HANDOFF_ENCRYPTION_KEY before parking this operation" None))
                  | _ => Some (mret (result_denied (c_op_id c) "requires_approval is True; approval queue unavailable" None))
                  end)
  end.

(** [reason or text]. *)
Definition reason_or (text : string) (reason : option string) : string :=
  match reason with None | Some "" => text | Some s => s end.

(** The gate's verdict, with the two rules of the dispatcher: a step of an approved
    run needs no approval of its own, unless it is destructive or marked; a reveal
    by a service waits. *)
Definition judged_verdict (cx : Ctx) (r : OpRow) (operator : Operator) (reveal_secret : bool) (verdict : PermissionVerdict)
  : PermissionVerdict :=
  let verdict :=
    if bool_decide (verdict = NEEDS_APPROVAL) && negb (bool_decide (cx_depth cx = 0)) && cx_approved_run cx &&
       negb (bool_decide (row_level r = "destructive")) && negb (ed_requires_approval (row r))
    then AUTO_EXECUTE else verdict in
  if bool_decide (verdict = AUTO_EXECUTE) && reveal_waits_for_approval operator reveal_secret then NEEDS_APPROVAL else verdict.

(** [None] is leave to execute. *)
Definition decide_fresh (cx : Ctx) (r : OpRow) (connector_id : string) (c : DispatchCall) (params : json_dict)
  (params_hash : string) (reveal_secret : bool) : dispatch_action (option OperationResult) :=
  now ← call d_time;
  judged ← call (d_gate (gate_call cx (c_operator c) (row r) (c_target c) connector_id (c_preview_hash c) params now));
  let verdict := judged_verdict cx r (c_operator c) reveal_secret judged.1 in
  let cx := with_decision (Some (verdict_value verdict)) cx in
  match verdict with
  | DENY =>
      denied ← audit_denied_and_return cx (result_denied (c_op_id c) (reason_or "policy denied" judged.2) None)
                 (c_operator c) r (c_target c) params_hash;
      mret (Some denied)
  | NEEDS_APPROVAL =>
      parked ← handle_needs_approval cx r connector_id c params params_hash reveal_secret;
      mret (Some parked)
  | AUTO_EXECUTE =>
      block ← call (d_announce (c_operator c) (descriptor_op_class r) (row_level r) (target_name (c_target c)));
      match block with
      | None => mret None
      | Some _ =>
          audit_id ← call d_uuid;
          receipt ← audit_safe (audit_row cx audit_id POLICY_DECISION (c_operator c) r (c_target c) params_hash "denied" no_detail) false;
          mret (Some (with_audit_receipt (result_announce_required (c_op_id c)) receipt))
      end
  end.

Definition decide_approved (cx : Ctx) (r : OpRow) (c : DispatchCall) (params_hash : string)
  : dispatch_action (option OperationResult) :=
  let cx := with_decision (Some (verdict_value NEEDS_APPROVAL)) cx in
  match (if requester_runs_approved_call cx (c_operator c) then None
         else role_floor_denial role_floors (c_op_id c) (op_tenant_role (c_operator c))) with
  | None => mret None
  | Some role_denial =>
      denied ← audit_denied_and_return cx (result_denied (c_op_id c) role_denial (Some ROLE_INSUFFICIENT))
                 (c_operator c) r (c_target c) params_hash;
      mret (Some denied)
  end.

(** ** The connector and the rest *)

Definition connector_for (r : OpRow) (target : option Target) (pre_resolved : option ConnectorClass)
  : dispatch_action (option ConnectorClass * option ResolutionLabel) :=
  match pre_resolved with
  | None => resolve_connector_instance r target
  | Some cls =>
      if bool_decide (source_kind r = "ingested") && negb (cc_accepts_ingested cls)
      then mret (None, Some ingested_ops_not_accepted)
      else _ ← call (d_instance cls); mret (Some cls, None)
  end.

(** What the caller hears when there is no connector; [product] and [version] are
    those of the call. *)
Definition unresolved_answer (cx : Ctx) (r : OpRow) (c : DispatchCall) (params_hash product version : string)
  (label : ResolutionLabel) : dispatch_action OperationResult :=
  match label with
  | target_required => mret (result_target_required (c_op_id c))
  | ingested_ops_not_accepted =>
      audit_denied_and_return cx (result_ingested_ops_not_accepted (c_op_id c)) (c_operator c) r (c_target c) params_hash
  | no_connector =>
      mret (match c_target c with
            | Some t =>
                match tg_product t with
                | None | Some "" => result_no_connector (c_op_id c) product (Some version)
                | Some p => result_no_connector (c_op_id c) p (resolve_target_version t)
                end
            | None => result_no_connector (c_op_id c) product (Some version)
            end)
  | ambiguous_connector => mret (result_ambiguous_connector (c_op_id c) product version)
  end.

(** What the catalogue settled on before the decision. *)
Record Selected := {
  s_row : OpRow;
  s_connector_id : string;
  s_product : string;
  s_version : string;
  s_class : option ConnectorClass;
}.

(** The [try] of [_dispatch_now]; [cx] has the variables bound before it. *)
Definition dispatch_selected (cx : Ctx) (s : Selected) (c : DispatchCall) (params : json_dict) (params_hash : string)
  (reveal_secret : bool) : dispatch_action OperationResult :=
  let r := s_row s in
  if reveal_secret && agent_acts cx (c_operator c) then refuse_agent_reveal cx r c params_hash
  else
    decision ← (if c_approved c then decide_approved cx r c params_hash
                else decide_fresh cx r (s_connector_id s) c params params_hash reveal_secret);
    match decision with
    | Some answered => mret answered
    | None =>
        let cx := with_decision (Some (verdict_value (if c_approved c then NEEDS_APPROVAL else AUTO_EXECUTE))) cx in
        resolved ← connector_for r (c_target c) (s_class s);
        match resolved.2 with
        | Some label => unresolved_answer cx r c params_hash (s_product s) (s_version s) label
        | None =>
            _ ← match c_target c with Some t => call (d_forget_target t) | None => mret tt end;
            execute_and_audit (fun audit_id => {|
              j_op_id := c_op_id c; j_connector_id := s_connector_id s; j_row := r; j_class := resolved.1;
              j_operator := c_operator c; j_target := c_target c; j_params := params; j_params_hash := params_hash;
              j_audit_id := audit_id;
              j_view := secret_view (bool_decide (classify_op (c_op_id c) = "credential_mint")) reveal_secret;
              j_cx := cx |})
        end
    end.

(** [select_catalog_for_target] and what [_dispatch_now] takes from it. *)
Definition select_catalog (cx : Ctx) (r : OpRow) (c : DispatchCall) (product version params_hash : string)
  : dispatch_action (Selected + OperationResult) :=
  choice ← call (d_choose_catalog (c_operator c) r (c_connector_id c) (c_target c) (negb (c_approved c)));
  match choice with
  | catalog_selection None cls =>
      mret (inl {| s_row := r; s_connector_id := c_connector_id c; s_product := product; s_version := version; s_class := cls |})
  | catalog_selection (Some (sibling, connector_id)) cls =>
      mret (inl {| s_row := sibling; s_connector_id := connector_id; s_product := k_product (ed_key (row sibling));
                   s_version := k_version (ed_key (row sibling)); s_class := cls |})
  | catalog_refusal reason target_product target_version =>
      receipt ← audit_rejection_safe cx (c_operator c) r (c_target c) params_hash "unqualified_target_version";
      mret (inr (with_audit_receipt (result_unqualified_target_version (row_op_id r) reason target_product target_version) receipt))
  end.

(** ** From the limits on *)

Definition release_slot (key : option string) : dispatch_action unit :=
  catch_all (release_dispatch_slot valkey_decr valkey_delete key) (fun _ => mret tt).

Definition dispatch_limited (cx : Ctx) (s : Selected) (c : DispatchCall) (params : json_dict) (params_hash : string)
  (reveal_secret : bool) : dispatch_action OperationResult :=
  limits ← take_limits cx (s_row s) c params_hash;
  match limits with
  | inl answered => mret answered
  | inr slot_key =>
      let secret_read := bool_decide (classify_op (c_op_id c) = "credential_read") || hides_secret_values (c_op_id c) in
      let reveal := if secret_read || reveal_secret then Some reveal_secret else None in
      finally (dispatch_selected (enter_dispatch reveal (c_approved c) cx) s c params params_hash reveal_secret)
              (release_slot slot_key)
  end.

Definition dispatch_now (cx : Ctx) (c : DispatchCall) : dispatch_action OperationResult :=
  let '(params, reveal_secret) := split_reveal_secret (c_params c) in
  let params_hash := compute_audit_params_hash params in
  let tenant_id := op_tenant_id (c_operator c) in
  let '(product, version, impl_id) := parse_connector_id (c_connector_id c) in
  let key := {| k_product := product; k_version := version; k_impl_id := impl_id; k_op_id := c_op_id c |} in
  found ← call (d_lookup tenant_id key);
  match found with
  | None =>
      miss ← call (d_op_miss tenant_id (c_connector_id c) (c_op_id c) (c_target c));
      let miss := op_miss_result (c_connector_id c) (c_op_id c) miss in
      if has_error_code LICENSE_READ_OFF miss
      then audit_license_read_off cx miss (c_operator c) (license_read_stand_in key) (c_target c) params_hash
      else mret miss
  | Some r =>
      if bool_decide (source_kind r = "ingested") && is_license_read (ed_method (row r)) (row_path r)
      then audit_license_read_off cx (result_license_read_off (c_op_id c)) (c_operator c) r (c_target c) params_hash
      else if bool_decide (c_target c = None) && descriptor_requires_target r
      then mret (result_target_required (c_op_id c))
      else
        selection ← select_catalog cx r c product version params_hash;
        match selection with
        | inr answered => mret answered
        | inl s =>
            match params_error (s_row s) (c_op_id c) params with
            | Some invalid => mret invalid
            | None => dispatch_limited cx s c params params_hash reveal_secret
            end
        end
  end.

(** [dispatch]: a top-level call is refused while the process stops, and tracked. *)
Definition dispatch_with (cx : Ctx) (c : DispatchCall) : dispatch_action OperationResult :=
  if negb (bool_decide (cx_depth cx = 0)) then dispatch_now cx c
  else
    draining ← call d_is_draining;
    if draining && negb (c_approved c) then mret (shutting_down_result (c_op_id c))
    else
      _ ← call (d_track (c_approved c));
      finally (dispatch_now cx c) (call d_untrack).
End Branch.

(** A composite may dispatch composites; [fuel] bounds how deep. *)
Fixpoint dispatch_fuel (fuel : nat) (cx : Ctx) (c : DispatchCall) : dispatch_action OperationResult :=
  match fuel with
  | 0 => throw composite_recursion_limit
  | S fuel => dispatch_with (dispatch_fuel fuel) cx c
  end.

(** A call from outside; [dispatch_fuel_enough] shows that the fuel suffices. *)
Definition dispatch : Ctx -> DispatchCall -> dispatch_action OperationResult := dispatch_fuel (S composite_max_depth).
End Dispatcher.
