(* ===== verification/DispatchLemmas.v ===== *)
(** What every run of the dispatcher keeps.  An observer remembers something of the
    calls made; if the calls it does not care about leave an invariant alone, so does
    every function built from them. *)

From S2P Require Import Prelude Json Identity Permissions Catalog Lookup ServiceGrants PolicyGate SecretNames.
From S2P Require Import SecretValues WireText GatewayMint Programs DispatchLimits DispatchTypes DispatchPark TerminalErrors.
From S2P Require Import Composite Dispatcher.

(** The calls no observer below treats in a way of its own. *)
Definition plain (o : DispatchOp) : bool :=
  match o with
  | d_valkey _ | d_park _ | d_run _ | d_vendor _ _ | d_resume_get | d_resume_clear => false
  | _ => true
  end.

Create HintDb keep.

Section Keeps.
Context `{Environment}.
Context {G : Type} (note : G -> event DispatchAns Fault -> G) (may : G -> DispatchOp -> Prop) (J : G -> Prop).

(** A call that is allowed and leaves the invariant. *)
Definition neutral (o : DispatchOp) : Prop :=
  forall g, J g -> may g o /\ forall x, J (note g (ev o x)).

Definition keeps {A} (c : prog DispatchAns Fault A) : Prop :=
  forall g, J g -> always note may c (fun g' _ => J g') g.

Lemma keeps_ret {A} (a : A) : keeps (Ret a).
Proof. by intros g Hg. Qed.

Lemma keeps_call_then {A} o (k : _ -> prog DispatchAns Fault A) : neutral o -> (forall x, keeps (k x)) -> keeps (Call o k).
Proof. intros Ho Hk g Hg. destruct (Ho g Hg) as [Hm Hx]. split; [done|]. intros x. by apply Hk, Hx. Qed.

Lemma keeps_call o : neutral o -> keeps (call o).
Proof. intros Ho. apply keeps_call_then; [done|]. intros x. apply keeps_ret. Qed.

Lemma keeps_after {A B} (c : prog DispatchAns Fault A) (f : A -> prog DispatchAns Fault B) :
  keeps c -> (forall a, keeps (f a)) -> keeps (after c f).
Proof.
  intros Hc Hf g Hg. apply always_after. eapply always_mono; [|by apply Hc]. intros g' a Hg'. by apply Hf.
Qed.

Lemma keeps_bind {A B} (c : dispatch_action A) (f : A -> dispatch_action B) :
  keeps c -> (forall a, keeps (f a)) -> keeps (c ≫= f).
Proof. intros Hc Hf. apply keeps_after; [done|]. intros [a|e]; [done|apply keeps_ret]. Qed.

Lemma keeps_mret {A} (a : A) : keeps (mret a : dispatch_action A).
Proof. apply keeps_ret. Qed.

Lemma keeps_throw {A} e : keeps (throw e : dispatch_action A).
Proof. apply keeps_ret. Qed.

Lemma keeps_try {A} (c : dispatch_action A) handler :
  keeps c -> (forall e c', handler e = Some c' -> keeps c') -> keeps (try_except c handler).
Proof.
  intros Hc Hh. apply keeps_after; [done|]. intros [a|e]; [apply keeps_ret|].
  destruct (handler e) eqn:E; [by eapply Hh|apply keeps_ret].
Qed.

Lemma keeps_catch_all {A} (c : dispatch_action A) handler :
  keeps c -> (forall e, keeps (handler e)) -> keeps (catch_all c handler).
Proof. intros Hc Hh. apply keeps_try; [done|]. intros e c'. by case_bool_decide; intros; simplify_eq. Qed.

Lemma keeps_finally {A} (c : dispatch_action A) f : keeps c -> keeps f -> keeps (finally c f).
Proof. intros Hc Hf. apply keeps_after; [done|]. intros r. apply keeps_after; [done|]. intros [|]; apply keeps_ret. Qed.

Hypothesis Hplain : forall o, plain o = true -> neutral o.

Lemma keeps_plain o : plain o = true -> keeps (call o).
Proof. intros. by apply keeps_call, Hplain. Qed.

#[local] Hint Resolve keeps_ret keeps_mret keeps_throw : keep.
#[local] Hint Extern 1 (keeps (call _)) => apply keeps_plain; reflexivity : keep.

(** One step through a program; a scrutinee is taken apart. *)
Ltac keep_step :=
  match goal with
  | |- forall _, _ => intro
  | |- keeps (_ ≫= _) => apply keeps_bind
  | |- keeps (catch_all _ _) => apply keeps_catch_all
  | |- keeps (finally _ _) => apply keeps_finally
  | |- keeps (after _ _) => apply keeps_after
  | |- keeps _ => solve [auto with keep]
  | |- keeps (match ?x with _ => _ end) => destruct x eqn:?
  | |- keeps (let _ := _ in _) => cbv zeta
  end.
Ltac keep := repeat keep_step.

(** ** Rows, refusals, the connector *)

Lemma audit_safe_keeps a b : keeps (audit_safe a b).
Proof. unfold audit_safe. keep. Qed.
#[local] Hint Resolve audit_safe_keeps : keep.

Lemma audit_rejection_safe_keeps cx o r t ph st : keeps (audit_rejection_safe cx o r t ph st).
Proof. unfold audit_rejection_safe. keep. Qed.
Lemma audit_denied_keeps cx res o r t ph : keeps (audit_denied_and_return cx res o r t ph).
Proof. unfold audit_denied_and_return. keep. Qed.
Lemma resolve_connector_keeps r t : keeps (resolve_connector_instance r t).
Proof. unfold resolve_connector_instance, restore_saved_ingest_profiles. keep. Qed.
#[local] Hint Resolve audit_rejection_safe_keeps audit_denied_keeps resolve_connector_keeps : keep.

Lemma build_effect_keeps cx op conn r o t p : keeps (build_proposed_effect cx op conn r o t p).
Proof. unfold build_proposed_effect. keep. Qed.
Lemma ingested_refusal_keeps r t op : keeps (ingested_ops_refusal r t op).
Proof. unfold ingested_ops_refusal. keep. Qed.
Lemma park_check_keeps op conn r o t p : keeps (park_check_refusal op conn r o t p).
Proof. unfold park_check_refusal. keep. Qed.
Lemma binding_keeps op conn o t p h eff : keeps (destructive_binding_refusal op conn o t p h eff).
Proof. unfold destructive_binding_refusal. keep. Qed.
#[local] Hint Resolve build_effect_keeps ingested_refusal_keeps park_check_keeps binding_keeps : keep.

Lemma park_screens_keeps cx b op conn o r t p h : keeps (park_screens cx b op conn o r t p h).
Proof. unfold park_screens, or_refusal. keep. Qed.
#[local] Hint Resolve park_screens_keeps : keep.

(** ** The execution *)

Lemma audit_error_keeps j r d : keeps (audit_error_and_return j r d).
Proof. unfold audit_error_and_return. keep. Qed.
#[local] Hint Resolve audit_error_keeps : keep.

Lemma return_error_keeps j r : keeps (return_error j r).
Proof. unfold return_error. keep. Qed.
Lemma audit_returned_keeps j raw : keeps (audit_returned_result j raw).
Proof.
  unfold audit_returned_result. keep. apply keeps_try; [keep|]. intros e c'.
  destruct (bool_decide (e = audit_commit_error)); intros; simplify_eq. keep.
Qed.
Lemma evict_keeps j : keeps (evict_connector_credentials j).
Proof. unfold evict_connector_credentials. keep. Qed.
#[local] Hint Resolve return_error_keeps audit_returned_keeps evict_keeps : keep.

Lemma commit_ok_keeps j d build : (forall receipt, keeps (build receipt)) -> keeps (commit_ok j d build).
Proof. intros Hb. unfold commit_ok. keep. Qed.

Lemma advisories_keeps j s h receipt : keeps (answer_with_advisories j s h receipt).
Proof. unfold answer_with_advisories. keep. Qed.

Lemma success_keeps j rm : keeps (reduce_and_audit_success j rm).
Proof.
  unfold reduce_and_audit_success, reduce, unavailable_delivery_result.
  keep; apply commit_ok_keeps; intros; try apply advisories_keeps; keep.
Qed.

Lemma composite_error_keeps j rm code : keeps (reduce_and_audit_composite_error j rm code).
Proof. unfold reduce_and_audit_composite_error, reduce_composite_error_envelope, reduce. keep. Qed.

Lemma redaction_keeps j raw : keeps (apply_redaction_middleware j raw).
Proof. unfold apply_redaction_middleware. keep. Qed.
#[local] Hint Resolve success_keeps composite_error_keeps redaction_keeps : keep.

Section Branch.
Context (sub : Ctx -> DispatchCall -> dispatch_action OperationResult).

Lemma run_branch_keeps j : keeps (run_source_kind_branch sub j) -> keeps (run_branch_with_error_handling sub j).
Proof.
  intros Hb. unfold run_branch_with_error_handling, handle_http_status_error, retry_after_session_invalidation. keep.
Qed.

Lemma execute_inner_keeps j : keeps (run_source_kind_branch sub j) -> keeps (execute_and_audit_inner sub j).
Proof.
  intros Hb. unfold execute_and_audit_inner. apply keeps_bind; [by apply run_branch_keeps|]. keep.
Qed.

Lemma execute_keeps job :
  (forall id, keeps (run_source_kind_branch sub (job id))) -> keeps (execute_and_audit sub job).
Proof.
  intros Hb. unfold execute_and_audit. keep; [|unfold attach_agent_trace_handle; keep]. by apply execute_inner_keeps.
Qed.

(** ** The decision *)

Lemma record_request_keeps c request : keeps (record_request c request).
Proof. unfold record_request. keep. Qed.
#[local] Hint Resolve record_request_keeps : keep.

Lemma store_request_keeps cx r conn c p rv eff :
  (forall a, neutral (d_park a)) -> keeps (store_request cx r conn c p rv eff).
Proof. intros Hp. unfold store_request. apply keeps_bind; [by apply keeps_call|]. keep. Qed.

Lemma handle_needs_approval_keeps cx r conn c p ph rv :
  (forall eff, keeps (store_request cx r conn c p rv eff)) -> keeps (handle_needs_approval cx r conn c p ph rv).
Proof.
  intros Hs. unfold handle_needs_approval. keep. apply keeps_try; [done|]. intros e c' He. destruct e; simplify_eq; keep.
Qed.

Lemma decide_fresh_keeps cx r conn c p ph rv :
  (forall cx, keeps (handle_needs_approval cx r conn c p ph rv)) -> keeps (decide_fresh cx r conn c p ph rv).
Proof. intros Hp. unfold decide_fresh. keep. Qed.

Lemma decide_approved_keeps cx r c ph : keeps (decide_approved cx r c ph).
Proof. unfold decide_approved. keep. Qed.

Lemma connector_for_keeps r t pre : keeps (connector_for r t pre).
Proof. unfold connector_for. keep. Qed.

Lemma unresolved_keeps cx r c ph pr v l : keeps (unresolved_answer cx r c ph pr v l).
Proof. unfold unresolved_answer. keep. Qed.

(** The job of the execution a dispatch makes. *)
Definition job_of (cx : Ctx) (s : Selected) (c : DispatchCall) (params : json_dict) (params_hash : string)
  (reveal_secret : bool) (cls : option ConnectorClass) (audit_id : uuid) : Job := {|
  j_op_id := c_op_id c; j_connector_id := s_connector_id s; j_row := s_row s; j_class := cls;
  j_operator := c_operator c; j_target := c_target c; j_params := params; j_params_hash := params_hash;
  j_audit_id := audit_id;
  j_view := secret_view (bool_decide (classify_op (c_op_id c) = "credential_mint")) reveal_secret;
  j_cx := with_decision (Some (verdict_value (if c_approved c then NEEDS_APPROVAL else AUTO_EXECUTE))) cx |}.

Definition decide_call (cx : Ctx) (s : Selected) (c : DispatchCall) (params : json_dict) (params_hash : string)
  (reveal_secret : bool) : dispatch_action (option OperationResult) :=
  if c_approved c then decide_approved cx (s_row s) c params_hash
  else decide_fresh cx (s_row s) (s_connector_id s) c params params_hash reveal_secret.

(** What follows leave to execute. *)
Definition execute_call (cx : Ctx) (s : Selected) (c : DispatchCall) (params : json_dict) (params_hash : string)
  (reveal_secret : bool) : dispatch_action OperationResult :=
  let cx' := with_decision (Some (verdict_value (if c_approved c then NEEDS_APPROVAL else AUTO_EXECUTE))) cx in
  resolved ← connector_for (s_row s) (c_target c) (s_class s);
  match resolved.2 with
  | Some label => unresolved_answer cx' (s_row s) c params_hash (s_product s) (s_version s) label
  | None =>
      _ ← match c_target c with Some t => call (d_forget_target t) | None => mret tt end;
      execute_and_audit sub (job_of cx s c params params_hash reveal_secret resolved.1)
  end.

Lemma dispatch_selected_eq cx s c p ph rv :
  dispatch_selected sub cx s c p ph rv =
  if rv && agent_acts cx (c_operator c) then refuse_agent_reveal cx (s_row s) c ph
  else decision ← decide_call cx s c p ph rv;
       match decision with Some answered => mret answered | None => execute_call cx s c p ph rv end.
Proof. reflexivity. Qed.

Lemma refuse_agent_reveal_keeps cx r c ph : keeps (refuse_agent_reveal cx r c ph).
Proof. unfold refuse_agent_reveal. keep. Qed.

Lemma execute_call_keeps cx s c p ph rv :
  (forall cls id, keeps (run_source_kind_branch sub (job_of cx s c p ph rv cls id))) -> keeps (execute_call cx s c p ph rv).
Proof.
  intros Hb. unfold execute_call. apply keeps_bind; [apply connector_for_keeps|]. intros [cls [l|]]; [apply unresolved_keeps|].
  apply keeps_bind; [keep|]. intros _. by apply execute_keeps.
Qed.

Lemma dispatch_selected_keeps cx s c p ph rv :
  (c_approved c = false -> forall cx, keeps (handle_needs_approval cx (s_row s) (s_connector_id s) c p ph rv)) ->
  (forall cls id, keeps (run_source_kind_branch sub (job_of cx s c p ph rv cls id))) ->
  keeps (dispatch_selected sub cx s c p ph rv).
Proof.
  intros Hp Hb. rewrite dispatch_selected_eq. destruct (rv && _); [apply refuse_agent_reveal_keeps|].
  apply keeps_bind.
  - unfold decide_call. destruct (c_approved c); [apply decide_approved_keeps|]. apply decide_fresh_keeps. by apply Hp.
  - intros [r|]; [keep|]. by apply execute_call_keeps.
Qed.

(** ** Limits, catalogue, lookup *)

Lemma refuse_rate_limited_keeps cx r c ph k l n : keeps (refuse_rate_limited cx r c ph k l n).
Proof. unfold refuse_rate_limited. keep. Qed.
#[local] Hint Resolve refuse_rate_limited_keeps : keep.

Lemma select_catalog_keeps cx r c pr v ph : keeps (select_catalog cx r c pr v ph).
Proof. unfold select_catalog. keep. Qed.

Lemma take_limits_keeps cx r c ph : (forall o, neutral (d_valkey o)) -> keeps (take_limits cx r c ph).
Proof.
  intros Hv. unfold take_limits. destruct (negb _ || _); [keep|].
  apply keeps_bind; [keep|]. intros now. apply keeps_bind.
  { unfold check_dispatch_rate_limit. destruct (_ <=? 0)%Z; [keep|]. apply keeps_bind; [by apply keeps_call|keep]. }
  intros [n|]; [keep|].
  apply keeps_bind.
  { unfold acquire_dispatch_slot, decr_and_reap. destruct (_ <=? 0)%Z; [keep|].
    apply keeps_bind; [by apply keeps_call|]. intros n. destruct (_ <? n)%Z; [|keep]. apply keeps_bind; [|keep].
    apply keeps_bind; [by apply keeps_call|]. intros m. destruct (_ <=? 0)%Z; [by apply keeps_call|keep]. }
  keep.
Qed.

Lemma release_slot_keeps key : (forall o, neutral (d_valkey o)) -> keeps (release_slot key).
Proof.
  intros Hv. unfold release_slot. apply keeps_catch_all; [|keep]. unfold release_dispatch_slot, decr_and_reap.
  destruct key as [k|]; [|keep]. apply keeps_bind; [by apply keeps_call|]. intros m. destruct (_ <=? 0)%Z; [by apply keeps_call|keep].
Qed.

Lemma dispatch_now_keeps cx c :
  (forall s p ph rv, p = fst (split_reveal_secret (c_params c)) -> rv = snd (split_reveal_secret (c_params c)) ->
     keeps (dispatch_limited sub cx s c p ph rv)) ->
  keeps (dispatch_now sub cx c).
Proof.
  intros Hl. unfold dispatch_now. destruct (split_reveal_secret (c_params c)) as [p rv].
  destruct (parse_connector_id (c_connector_id c)) as [[pr v] im]. apply keeps_bind; [keep|]. intros [r|]; [|unfold audit_license_read_off; keep].
  destruct (_ && is_license_read _ _); [unfold audit_license_read_off; keep|]. destruct (_ && descriptor_requires_target r); [keep|].
  apply keeps_bind; [apply select_catalog_keeps|]. intros [s|]; [|keep]. destruct (params_error _ _ _); [keep|]. by apply Hl.
Qed.

Lemma dispatch_with_keeps cx c : keeps (dispatch_now sub cx c) -> keeps (dispatch_with sub cx c).
Proof. intros Hn. unfold dispatch_with. destruct (negb _); [done|]. keep. Qed.

(** ** Composites *)

Lemma run_handler_keeps x c : (forall o, keeps (answer_handler sub x o)) -> keeps (run_handler sub x c).
Proof.
  intros Ha. induction c as [r|o k IH]; simpl; [apply keeps_ret|]. by apply keeps_after.
Qed.

Definition child_call (x : Execution) (conn op : string) (p : json_dict) (t : option Target) : DispatchCall := {|
  c_operator := x_operator x; c_connector_id := conn; c_op_id := op;
  c_target := match t with None => x_target x | Some t => Some t end; c_params := p;
  c_approved := false; c_preview_hash := None; c_idempotency_key := None |}.

Lemma dispatch_child_keeps x conn op p t :
  (S (cx_depth (x_cx x)) <= composite_max_depth ->
     keeps (sub (enter_child (S (cx_depth (x_cx x))) (x_audit_id x) (x_cx x)) (child_call x conn op p t))) ->
  keeps (dispatch_child sub x conn op p t).
Proof.
  intros Hs. unfold dispatch_child, check_composite_depth.
  destruct (bool_decide (composite_max_depth < S (cx_depth (x_cx x)))) eqn:Hd; [apply keeps_ret|].
  apply bool_decide_eq_false in Hd. apply Hs. lia.
Qed.

(** The execution whose handler runs. *)
Definition composite_execution (j : Job) : Execution := {|
  x_operator := j_operator j; x_row := j_row j; x_target := j_target j; x_params := j_params j;
  x_audit_id := j_audit_id j; x_cx := enter_composite (j_audit_id j) (row_op_id (j_row j)) (j_params j) (j_cx j) |}.

Lemma run_branch_source_keeps j :
  neutral (d_run (execution_of j)) ->
  (forall o, keeps (answer_handler sub (composite_execution j) o)) ->
  keeps (run_source_kind_branch sub j).
Proof.
  intros Hr Ha. unfold run_source_kind_branch, dispatch_composite.
  destruct (bool_decide (_ ∈ _)); [by apply keeps_call|]. destruct (bool_decide _); [|keep].
  destruct (import_composite_handler _) as [h|]; [|keep]. by apply run_handler_keeps.
Qed.

Lemma resume_cleared_keeps op p : neutral d_resume_get -> neutral d_resume_clear -> keeps (subop_resume_cleared op p).
Proof. intros Hg Hc. unfold subop_resume_cleared. keep; by apply keeps_call. Qed.

Lemma enforce_subop_keeps cx o b :
  neutral d_resume_get -> keeps (subop_resume_cleared (sb_op_id b) (sb_params b)) -> (forall cx, keeps (park_subop cx o b)) ->
  keeps (enforce_subop_policy cx o b).
Proof.
  intros Hg Hc Hp. unfold enforce_subop_policy, refuse_or_judge, judge_subop, resume_has_not_reached_approved_step, subop_verdict.
  keep; by apply keeps_call.
Qed.

Lemma park_subop_keeps cx o b : (forall a, neutral (d_park a)) -> keeps (park_subop cx o b).
Proof. intros Hp. unfold park_subop. keep; by apply keeps_call. Qed.

Lemma answer_handler_keeps x o :
  (forall v, neutral (d_vendor x v)) ->
  (forall conn op p t, S (cx_depth (x_cx x)) <= composite_max_depth ->
     keeps (sub (enter_child (S (cx_depth (x_cx x))) (x_audit_id x) (x_cx x)) (child_call x conn op p t))) ->
  (forall b, keeps (enforce_subop_policy (x_cx x) (x_operator x) b)) ->
  keeps (answer_handler sub x o).
Proof. intros Hv Hs Hg. destruct o; simpl; [by apply keeps_call|apply dispatch_child_keeps; auto|done]. Qed.
End Branch.

(** ** Every dispatch, when all calls are neutral but those that park or clear *)

Lemma dispatch_keeps n cx c :
  (forall o, neutral (d_valkey o)) -> (forall x, neutral (d_run x)) -> (forall x v, neutral (d_vendor x v)) ->
  (forall cx r conn c p ph rv, keeps (handle_needs_approval cx r conn c p ph rv)) ->
  (forall cx o b, keeps (enforce_subop_policy cx o b)) ->
  keeps (dispatch_fuel n cx c).
Proof.
  intros Hv Hr Hd Hp Hs. revert cx c. induction n as [|n IH]; intros cx c; simpl; [keep|].
  apply dispatch_with_keeps, dispatch_now_keeps. intros s p ph rv _ _. unfold dispatch_limited.
  apply keeps_bind; [by apply take_limits_keeps|]. intros [r|key]; [keep|].
  apply keeps_finally; [|by apply release_slot_keeps]. apply dispatch_selected_keeps; [done|].
  intros cls id. apply run_branch_source_keeps; [done|]. intros o. by apply answer_handler_keeps.
Qed.
End Keeps.

#[export] Hint Resolve keeps_ret keeps_mret keeps_throw : keep.
