(* ===== verification/DispatchExample.v ===== *)
(** A small world for concrete runs of the dispatcher: three operations, a composite
    that calls one of them, a Valkey server, and the policy gate on empty tables. *)

From stdpp Require Import pretty.
From S2P Require Import Prelude Json Identity Permissions Catalog Lookup ServiceGrants PolicyGate SecretNames.
From S2P Require Import SecretValues WireText GatewayMint Programs DispatchLimits DispatchTypes DispatchPark TerminalErrors.
From S2P Require Import Composite Dispatcher.

Definition ex_row (op_id level kind : string) (approval : bool) : OpRow := {|
  row := {| ed_tenant_id := None;
            ed_key := {| k_product := "k8s"; k_version := "1.x"; k_impl_id := "k8s"; k_op_id := op_id |};
            ed_is_enabled := true; ed_owner_package := None; ed_method := None; ed_tags := [];
            ed_safety_level := level; ed_requires_approval := approval; ed_parameter_schema := JDict [] |};
  source_kind := kind; row_path := None; handler_ref := Some op_id; response_schema := JNull; llm_instructions := JNull |}.

Definition ex_rows : list OpRow :=
  [ex_row "k8s.pod.list" "safe" "typed" false; ex_row "k8s.ns.delete" "destructive" "typed" false;
   ex_row "k8s.secret.get" "safe" "typed" false; ex_row "k8s.node.drain" "safe" "composite" false;
   ex_row "k8s.node.evict" "safe" "composite" false].

(** The composite lists the pods by a child dispatch, then drains the node. *)
Definition ex_drain : Handler := fun _ _ _ _ =>
  Call (h_child "k8s-1.x" "k8s.pod.list" [] None) (fun pods =>
    match pods with
    | Ok _ => Call (h_vendor (JStr "drain")) (fun done => Ret (match done with Ok v => Ok (payload v) | Raise e => Raise e end))
    | Raise e => Ret (Raise e)
    end).

(** The composite that runs a step of its own twice, each time with leave. *)
Definition ex_step : SubopCall := {|
  sb_connector_id := "k8s-1.x"; sb_op_id := "k8s.pod.evict"; sb_safety_level := "caution"; sb_requires_approval := true;
  sb_target := None; sb_params := []; sb_resume_state := None; sb_after_main_effect := false |}.

Definition ex_evict : Handler := fun _ _ _ _ =>
  Call (h_gate ex_step) (fun first =>
    match first with
    | Ok None =>
        Call (h_vendor (JStr "evict")) (fun _ =>
          Call (h_gate ex_step) (fun second =>
            match second with
            | Ok None => Call (h_vendor (JStr "evict")) (fun _ => Ret (Ok (payload JNull)))
            | Ok (Some r) => Ret (Ok (returned r))
            | Raise e => Ret (Raise e)
            end))
    | Ok (Some r) => Ret (Ok (returned r))
    | Raise e => Ret (Raise e)
    end).

#[export] Instance ex_env : Environment := {|
  classify_op := fun op => if bool_decide (op = "k8s.secret.get") then "credential_read" else "other";
  descriptor_op_class := fun r => if bool_decide (row_level r = "safe") then "read" else "write";
  handler_requires_target := fun _ => false;
  iter_errors := fun _ _ => schema_ok;
  params_check_ok := fun _ _ => true;
  park_check_registered := fun _ => false;
  DispatchTypes.compute_audit_params_hash := fun p => json_dumps (JDict p);
  compute_params_hash := fun p => json_dumps (JDict p);
  params_hash_matches := fun p h => bool_decide (json_dumps (JDict p) = h);
  hmac_sha256 := fun k m => k +:+ ":" +:+ m;
  params_hash_key := "key";
  sha256_hex := fun s => s;
  plain_fields := ∅;
  redact_error_payload := Some;
  sends_secret := fun _ _ => false;
  resolve_target_version := fun _ => None;
  role_floors := ∅;
  limit_settings := {| dispatch_rate_limit_per_minute := 0; dispatch_rate_limit_per_minute_overrides := "";
                       dispatch_max_concurrent_ops := 2; dispatch_max_concurrent_ops_overrides := "";
                       dispatch_concurrency_slot_ttl_seconds := 3600 |};
  composite_max_depth := 2;
  VAULT_KV_WRITE_CAPABILITIES := [];
  import_composite_handler := fun ref =>
    if bool_decide (ref = "k8s.node.drain") then Some ex_drain
    else if bool_decide (ref = "k8s.node.evict") then Some ex_evict else None;
|}.

(** The server's counters, a supply of identifiers, and the approval of a step. *)
Record ExWorld := { xw_valkey : gmap string Entry; xw_next : Z; xw_resume : option (string * string) }.

Definition ex_gate (k : GateCall) : PermissionVerdict * option string :=
  snd (policy_gate_db w_settings w_binding w_effect [] [] role_floors k w_grants).

Definition ex_effect : json_dict :=
  [("preview", JDict [("blast_radius", JDict [("object", JStr "ns/a"); ("children", JList []); ("irreversibility", JStr "final")])])].

Definition ex_preview : json_dict := [("status", JStr "ok"); ("op_id", JStr "k8s.ns.delete")].

Definition ex_answer (o : DispatchOp) (w : ExWorld) : ExWorld * res Fault (DispatchAns o) :=
  match o return ExWorld * res Fault (DispatchAns o) with
  | d_is_draining => (w, Ok false)
  | d_lookup _ key => (w, Ok (List.find (fun r => bool_decide (ed_key (row r) = key)) ex_rows))
  | d_op_miss _ _ _ _ => (w, Ok miss_code)
  | d_choose_catalog _ _ _ _ _ => (w, Ok (catalog_selection None None))
  | d_time => (w, Ok 100%Z)
  | d_valkey o => let '(s, a) := serve 100 o (xw_valkey w) in ({| xw_valkey := s; xw_next := xw_next w; xw_resume := xw_resume w |}, Ok a)
  | d_uuid => ({| xw_valkey := xw_valkey w; xw_next := xw_next w + 1; xw_resume := xw_resume w |}, Ok ("id" +:+ pretty (xw_next w)))
  | d_gate k => (w, Ok (ex_gate k))
  | d_announce _ _ _ _ => (w, Ok None)
  | d_park_check _ => (w, Ok None)
  | d_resolve_class _ => (w, Ok (inr no_connector))
  | d_build_effect _ => (w, Ok (Some ex_effect))
  | d_preflight _ => (w, Ok None)
  | d_preview _ _ _ _ _ => (w, Ok ex_preview)
  | d_park _ => (w, Ok {| pd_id := "req1"; pd_reused := false; pd_expired := None |})
  | d_capture_begin _ => (w, Ok None)
  | d_trace _ => (w, Ok None)
  | d_run x => (w, Ok (payload (JDict [("ran", JStr (row_op_id (x_row x)))])))
  | d_vendor _ v => (w, Ok v)
  | d_redact raw _ _ _ => (w, Ok {| rm_raw := raw; rm_redacted := raw; rm_policy_id := None |})
  | d_reduce raw _ _ => (w, Ok (raw, None))
  | d_activity _ _ _ | d_checks _ | d_reflex _ _ _ => (w, Ok [])
  | d_resume_get => (w, Ok (xw_resume w))
  | d_resume_clear => ({| xw_valkey := xw_valkey w; xw_next := xw_next w; xw_resume := None |}, Ok tt)
  | _ => (w, Ok tt)
  end.

Definition ex_person : Operator := {|
  op_sub := "ann"; op_tenant_id := "t1"; op_tenant_role := OPERATOR; op_principal_kind := USER; op_client_id := None;
  op_platform_admin := false; op_web_session := true; op_name := None; op_approver := false; op_self_approver := false;
  op_tenant_chosen := true; op_auth_time := None; op_sid := None; op_acr := None; op_azp := None |}.

Definition ex_cx : Ctx := {|
  cx_depth := 0; cx_actor := None; cx_approved_requester := None; cx_approved_run := false; cx_parent_audit_id := None;
  cx_policy_decision := None; cx_reveal_secret := None; cx_composite_dispatch := None; cx_resume_scope := None;
  cx_resume_state := None; cx_agent_run_id := None; cx_requester := None; cx_handle_owner := None |}.

Definition ex_call (op_id : string) (params : json_dict) (approved : bool) (preview_hash : option string) : DispatchCall := {|
  c_operator := ex_person; c_connector_id := "k8s-1.x"; c_op_id := op_id; c_target := None; c_params := params;
  c_approved := approved; c_preview_hash := preview_hash; c_idempotency_key := None |}.

Definition ex_start : ExWorld := {| xw_valkey := ∅; xw_next := 1; xw_resume := None |}.

Definition ex_run_from (w : ExWorld) (c : DispatchCall) : ExWorld * history DispatchAns Fault * res Fault OperationResult :=
  interp ex_answer (dispatch ex_cx c) w.

Definition ex_run : DispatchCall -> ExWorld * history DispatchAns Fault * res Fault OperationResult := ex_run_from ex_start.

Definition ex_history (c : DispatchCall) : history DispatchAns Fault := (ex_run c).1.2.
Definition ex_result (c : DispatchCall) : res Fault OperationResult := (ex_run c).2.

Lemma ex_runs_from w c : runs (dispatch ex_cx c) (ex_run_from w c).1.2 (ex_run_from w c).2.
Proof. pose proof (interp_runs ex_answer (dispatch ex_cx c) w) as Hr. unfold ex_run_from. by destruct (interp _ _ _) as [[? ?] ?]. Qed.

Lemma ex_runs c : runs (dispatch ex_cx c) (ex_history c) (ex_result c).
Proof. apply (ex_runs_from ex_start). Qed.

Definition ex_drain_call : DispatchCall := ex_call "k8s.node.drain" [] false None.
Definition ex_evict_call : DispatchCall := ex_call "k8s.node.evict" [] false None.
Definition ex_resumed : ExWorld := {| xw_valkey := ∅; xw_next := 1; xw_resume := Some ("k8s.pod.evict", json_dumps (JDict [])) |}.
Definition ex_delete_call : DispatchCall := ex_call "k8s.ns.delete" [] false (Some (compute_preview_hash ex_preview)).
Definition ex_reveal_call : DispatchCall := ex_call "k8s.secret.get" [("reveal_secret", JBool true)] false None.

Definition ex_approved_delete : DispatchCall := ex_call "k8s.ns.delete" [] true None.

(** What a history runs at a target, with the calls before each. *)
Fixpoint executions (seen h : history DispatchAns Fault) : list (history DispatchAns Fault * Execution) :=
  match h with
  | [] => []
  | e :: h' =>
      match e with
      | existT (d_run x) _ => [(seen, x)]
      | existT (d_vendor x _) _ => [(seen, x)]
      | _ => []
      end ++ executions (seen ++ [e]) h'
  end.
