(* ===== verification/DispatchGate.v ===== *)
(** What reaches a target has leave: the theorems about the decision of a dispatch
    and about the requests it parks. *)

From S2P Require Import Prelude Json Identity Permissions Catalog Lookup ServiceGrants PolicyGate SecretNames.
From S2P Require Import SecretValues WireText GatewayMint Programs DispatchLimits DispatchTypes DispatchPark TerminalErrors.
From S2P Require Import Composite Dispatcher DispatchLemmas DispatchExample.

Abbreviation dispatch_history := (history DispatchAns Fault).

(** The observer that remembers every call. *)
Definition remember (g : dispatch_history) (e : event DispatchAns Fault) : dispatch_history := g ++ [e].

Lemma foldl_remember g h : foldl remember g h = g ++ h.
Proof. revert g. induction h as [|e h IH]; intros g; simpl; [by rewrite app_nil_r|]. rewrite IH. unfold remember. by rewrite <- app_assoc. Qed.

Lemma always_extends {A} may (c : prog DispatchAns Fault A) Q g :
  always remember may c Q g -> always remember may c (fun g' a => Q g' a /\ g `prefix_of` g') g.
Proof.
  revert g. induction c as [a|o k IH]; intros g; simpl; [done|]. intros [Hm Hk]. split; [done|]. intros x.
  eapply always_mono; [|by apply IH]. simpl. intros g' a [HQ [l ->]]. split; [done|]. exists ([ev o x] ++ l). unfold remember. by rewrite <- app_assoc.
Qed.

(** An invariant that more calls do not hurt. *)
Definition monotone (J : dispatch_history -> Prop) : Prop := forall g g', g `prefix_of` g' -> J g -> J g'.

Lemma neutral_monotone may J o : monotone J -> (forall g, J g -> may g o) -> neutral remember may J o.
Proof. intros Hm Ho g Hg. split; [by apply Ho|]. intros x. eapply Hm; [|done]. by exists [ev o x]. Qed.

Lemma keeps_monotone {A} may (J : dispatch_history -> Prop) (c : prog DispatchAns Fault A) :
  monotone J -> (forall g, J g -> always remember may c (fun _ _ => True) g) -> keeps remember may J c.
Proof.
  intros Hm Hc g Hg. eapply always_mono; [|apply always_extends, (Hc g Hg)]. intros g' a [_ Hp]. by eapply Hm.
Qed.

Lemma always_call {A} may o (f : DispatchAns o -> dispatch_action A) Q g :
  may g o -> (forall a, always remember may (f a) Q (remember g (ev o (Ok a)))) -> (forall g' e, Q g' (Raise e)) ->
  always remember may (call o ≫= f) Q g.
Proof. intros Hm Hf He. split; [done|]. intros [a|e]; [apply Hf|apply He]. Qed.

Section Leave.
Context `{Environment}.

(** * Leave to execute *)

(** The gate was asked about exactly this call, and let it run, or let it wait where
    the approved run it is a step of covers it; and no announcement was missing. *)
Record gated (g : dispatch_history) (x : Execution) : Prop := {
  gd_asked : exists k v reason,
    ev (d_gate k) (Ok (v, reason)) ∈ g /\
    gk_operator k = x_operator x /\ gk_descriptor k = row (x_row x) /\ gk_target k = x_target x /\
    gk_params k = Some (x_params x) /\ gk_actor k = cx_actor (x_cx x) /\ gk_decide_only k = false /\
    (v = AUTO_EXECUTE \/
     (v = NEEDS_APPROVAL /\ cx_depth (x_cx x) <> 0 /\ cx_approved_run (x_cx x) = true /\
      row_level (x_row x) <> "destructive" /\ ed_requires_approval (row (x_row x)) = false)) /\
    ev (d_announce (x_operator x) (descriptor_op_class (x_row x)) (row_level (x_row x)) (target_name (x_target x))) (Ok None) ∈ g;
}.

Section Call.
(** A call from outside, and the actor it is made for. *)
Context (c0 : DispatchCall) (actor0 : option string).

Record leave (g : dispatch_history) (x : Execution) : Prop := {
  lv_depth : cx_depth (x_cx x) <= composite_max_depth;
  lv_actor : cx_actor (x_cx x) = actor0;
  lv_approved_run : cx_approved_run (x_cx x) = true -> c_approved c0 = true;
  lv_own : cx_depth (x_cx x) = 0 ->
    x_operator x = c_operator c0 /\ x_target x = c_target c0 /\ x_params x = fst (split_reveal_secret (c_params c0));
  lv_gate : (cx_depth (x_cx x) = 0 -> c_approved c0 = false) -> gated g x;
  lv_approved : cx_depth (x_cx x) = 0 -> c_approved c0 = true ->
    requester_runs_approved_call (x_cx x) (x_operator x) = true \/
    role_floor_denial role_floors (c_op_id c0) (op_tenant_role (x_operator x)) = None;
  lv_reveal : cx_reveal_secret (x_cx x) = Some true ->
    op_principal_kind (x_operator x) <> AGENT /\ actor0 = None /\
    (op_principal_kind (x_operator x) = USER \/ (cx_depth (x_cx x) = 0 /\ c_approved c0 = true));
}.

Lemma gated_monotone x : monotone (fun g => gated g x).
Proof.
  intros g g' [l ->] [(k & v & rs & H1 & H2 & H3 & H4 & H5 & H6 & H7 & H8 & H9)]. constructor.
  exists k, v, rs. split_and!; try done; apply elem_of_app; by left.
Qed.

Lemma leave_monotone x : monotone (fun g => leave g x).
Proof. intros g g' Hp []. constructor; try done. intros Hd. eapply gated_monotone; eauto. Qed.

Definition may_run (g : dispatch_history) (o : DispatchOp) : Prop :=
  match o with d_run x | d_vendor x _ => leave g x | _ => True end.

Abbreviation always_leave := (always remember may_run).

(** The context and arguments of each call below the one from outside. *)
Record call_ok (cx : Ctx) (c : DispatchCall) : Prop := {
  ok_actor : cx_actor cx = actor0;
  ok_depth : cx_depth cx <= composite_max_depth;
  ok_run : cx_approved_run cx = true -> c_approved c0 = true;
  ok_top : cx_depth cx = 0 -> c = c0;
  ok_child : cx_depth cx <> 0 -> c_approved c = false;
}.

Lemma ops_free {A} (c : prog DispatchAns Fault A) J : monotone J ->
  keeps remember may_run (fun _ => True) c -> keeps remember may_run J c.
Proof. intros Hm Hc. apply keeps_monotone; [done|]. intros g _. by apply Hc. Qed.

Lemma plain_neutral J : monotone J -> forall o, plain o = true -> neutral remember may_run J o.
Proof. intros Hm o Ho. apply neutral_monotone; [done|]. by destruct o. Qed.

Lemma true_monotone : monotone (fun _ => True).
Proof. by intros ?. Qed.

(** ** The decision *)

Definition decided (cx : Ctx) (s : Selected) (c : DispatchCall) (params : json_dict) (rv : bool) (g : dispatch_history) : Prop :=
  rv && agent_acts cx (c_operator c) = false /\
  if c_approved c
  then requester_runs_approved_call cx (c_operator c) = true \/
       role_floor_denial role_floors (c_op_id c) (op_tenant_role (c_operator c)) = None
  else gated g {| x_operator := c_operator c; x_row := s_row s; x_target := c_target c; x_params := params;
                  x_audit_id := ""; x_cx := cx |} /\
       (rv = true -> op_principal_kind (c_operator c) = USER).

Lemma judged_auto cx r o rv v :
  judged_verdict cx r o rv v = AUTO_EXECUTE ->
  (rv = true -> op_principal_kind o = USER) /\
  (v = AUTO_EXECUTE \/
   (v = NEEDS_APPROVAL /\ cx_depth cx <> 0 /\ cx_approved_run cx = true /\ row_level r <> "destructive" /\
    ed_requires_approval (row r) = false)).
Proof.
  unfold judged_verdict, reveal_waits_for_approval. intros Hj.
  destruct (bool_decide (v = NEEDS_APPROVAL) && _ && _ && _ && _) eqn:Ec.
  - split; [|right; to_prop; split_and!; done]. intros ->. cbn in Hj. by destruct (op_principal_kind o).
  - split; [|left; destruct (_ && _) in Hj; by simplify_eq].
    intros ->. destruct (bool_decide (v = AUTO_EXECUTE) && _) eqn:Er; [done|]. subst v. cbn in Er. by destruct (op_principal_kind o).
Qed.

Lemma handle_needs_approval_runs_nothing cx r conn c p ph rv : keeps remember may_run (fun _ => True) (handle_needs_approval cx r conn c p ph rv).
Proof.
  apply handle_needs_approval_keeps; [apply plain_neutral, true_monotone|]. intros eff. apply store_request_keeps; [apply plain_neutral, true_monotone|].
  done.
Qed.

(** A step that ends in an answer. *)
Lemma always_answered {A} (c : dispatch_action A) (f : A -> OperationResult) Q g :
  keeps remember may_run (fun _ => True) c -> (forall g' r, Q g' (Ok (Some r))) -> (forall g' e, Q g' (Raise e)) ->
  always_leave (a ← c; mret (Some (f a))) Q g.
Proof.
  intros Hc Ha He. apply always_bind. eapply always_mono; [|by apply Hc]. intros g' [a|e] _; [apply Ha|apply He].
Qed.

Lemma decide_leave cx s c params ph rv g :
  rv && agent_acts cx (c_operator c) = false ->
  always_leave (decide_call cx s c params ph rv)
    (fun g' x => match x with Ok None => decided cx s c params rv g' | _ => True end) g.
Proof.
  intros Hrv. pose proof (plain_neutral (fun _ => True) true_monotone) as Hpl. unfold decide_call, decided.
  destruct (c_approved c).
  - unfold decide_approved.
    change (requester_runs_approved_call (with_decision _ cx) (c_operator c)) with (requester_runs_approved_call cx (c_operator c)).
    destruct (requester_runs_approved_call cx (c_operator c)) eqn:Er; [by split; [|left]|].
    destruct (role_floor_denial _ _ _) eqn:Ed; [|by split; [|right]].
    by apply (always_answered _ (fun r => r)); [apply audit_denied_keeps| |].
  - unfold decide_fresh. apply always_call; [done| |done]. intros now. apply always_call; [done| |done]. intros [v reason].
    destruct (judged_verdict cx (s_row s) (c_operator c) rv (v, reason).1) eqn:Ej; cbv zeta.
    + apply judged_auto in Ej as [Hu Hv]. apply always_call; [done| |done]. intros [b|].
      * apply always_call; [done| |done]. intros id. by apply always_answered; [apply audit_safe_keeps| |].
      * split; [done|]. split; [|done]. constructor.
        eexists (gate_call cx (c_operator c) (row (s_row s)) (c_target c) (s_connector_id s) (c_preview_hash c) params now), v, reason.
        split_and!; try done; unfold remember; set_solver.
    + by apply (always_answered _ (fun r => r)); [apply handle_needs_approval_runs_nothing| |].
    + by apply (always_answered _ (fun r => r)); [apply audit_denied_keeps| |].
Qed.

(** ** The execution and its children *)

Definition sub_leave (sub : Ctx -> DispatchCall -> dispatch_action OperationResult) : Prop :=
  forall cx c g, call_ok cx c -> cx_depth cx <> 0 -> always_leave (sub cx c) (fun _ _ => True) g.

Lemma gated_execution g x y :
  gated g x -> x_operator y = x_operator x -> x_row y = x_row x -> x_target y = x_target x -> x_params y = x_params x ->
  cx_actor (x_cx y) = cx_actor (x_cx x) -> cx_depth (x_cx y) = cx_depth (x_cx x) ->
  cx_approved_run (x_cx y) = cx_approved_run (x_cx x) -> gated g y.
Proof.
  intros [(k & v & rs & Hg)] E1 E2 E3 E4 E5 E6 E7. constructor. exists k, v, rs. by rewrite E1, E2, E3, E4, E5, E6, E7.
Qed.

(** The context an execution runs under, from that of its call. *)
Lemma decided_leave cx reveal s c params rv g x :
  call_ok cx c -> params = fst (split_reveal_secret (c_params c)) -> (reveal = Some true -> rv = true) ->
  decided (enter_dispatch reveal (c_approved c) cx) s c params rv g ->
  x_operator x = c_operator c -> x_row x = s_row s -> x_target x = c_target c -> x_params x = params ->
  cx_actor (x_cx x) = cx_actor cx -> cx_depth (x_cx x) = cx_depth cx ->
  cx_approved_run (x_cx x) = c_approved c || cx_approved_run cx -> cx_reveal_secret (x_cx x) = reveal ->
  cx_approved_requester (x_cx x) = cx_approved_requester cx ->
  leave g x.
Proof.
  intros [Ha Hd Hr Ht Hc] Hp Hrev [Hag Hdec] E1 E2 E3 E4 E5 E6 E7 E8 E9. constructor.
  - by rewrite E6.
  - by rewrite E5.
  - rewrite E7. intros [Hap|Hap]%orb_true_iff; [|by apply Hr].
    destruct (decide (cx_depth cx = 0)) as [Hz|Hz]; [by rewrite <- (Ht Hz)|]. by rewrite (Hc Hz) in Hap.
  - rewrite E6, E1, E3, E4. intros Hz. rewrite <- (Ht Hz). by rewrite Hp.
  - rewrite E6. intros Hun. assert (c_approved c = false) as Hap.
    { destruct (decide (cx_depth cx = 0)) as [Hz|Hz]; [rewrite (Ht Hz); auto|auto]. }
    rewrite Hap in Hdec. destruct Hdec as [Hg _]. eapply gated_execution; [exact Hg|done..| |].
    + by rewrite E6.
    + by rewrite E7, Hap.
  - rewrite E6, E1. intros Hz Hap. rewrite <- (Ht Hz) in Hap |- *. rewrite Hap in Hdec.
    unfold requester_runs_approved_call, agent_acts in *. rewrite E5, E9. destruct Hdec as [Hq|Hq]; [by left|by right].
  - rewrite E6, E1, E8. intros Hrv. specialize (Hrev Hrv). subst rv. apply orb_false_iff in Hag as [Hk Hac].
    apply bool_decide_eq_false in Hk, Hac. change (~ (cx_actor cx <> None)) in Hac. rewrite Ha in Hac.
    split; [done|]. split; [destruct actor0; [by destruct Hac|done]|]. destruct (decide (cx_depth cx = 0)) as [Hz|Hz].
    + destruct (c_approved c) eqn:Hap; [right; split; [done|by rewrite <- (Ht Hz)]|]. left. by apply Hdec.
    + rewrite (Hc Hz) in Hdec. left. by apply Hdec.
Qed.

Lemma call_ok_child cx c j conn op p t :
  call_ok cx c -> cx_depth (j_cx j) = cx_depth cx -> cx_actor (j_cx j) = cx_actor cx ->
  (cx_approved_run (j_cx j) = true -> c_approved c0 = true) -> S (cx_depth cx) <= composite_max_depth ->
  let x := composite_execution j in
  call_ok (enter_child (S (cx_depth (x_cx x))) (x_audit_id x) (x_cx x)) (child_call x conn op p t).
Proof.
  intros [Ha Hd Hr Ht Hc] E1 E2 E3 Hs. constructor; cbn; [by rewrite E2|by rewrite E1|done|done|done].
Qed.

Lemma dispatch_selected_leave sub cx reveal s c params ph rv :
  sub_leave sub -> call_ok cx c -> params = fst (split_reveal_secret (c_params c)) -> (reveal = Some true -> rv = true) ->
  keeps remember may_run (fun _ => True) (dispatch_selected sub (enter_dispatch reveal (c_approved c) cx) s c params ph rv).
Proof.
  intros Hsub Hok Hp Hrev g _. rewrite dispatch_selected_eq. pose proof (plain_neutral (fun _ => True) true_monotone) as Hpl.
  destruct (rv && _) eqn:Hag; [by apply refuse_agent_reveal_keeps|].
  apply always_bind. eapply always_mono; [|by apply decide_leave]. intros g' [[r|]|e]; [done| |done]. intros Hdec.
  set (cx1 := enter_dispatch reveal (c_approved c) cx) in *.
  set (J := fun g => forall x, x_operator x = c_operator c -> x_row x = s_row s -> x_target x = c_target c -> x_params x = params ->
    cx_actor (x_cx x) = cx_actor cx -> cx_depth (x_cx x) = cx_depth cx ->
    cx_approved_run (x_cx x) = c_approved c || cx_approved_run cx -> cx_reveal_secret (x_cx x) = reveal ->
    cx_approved_requester (x_cx x) = cx_approved_requester cx -> leave g x).
  assert (monotone J) as HJ by (intros h h' Hh Hj x; intros; eapply leave_monotone; [done|by apply Hj]).
  assert (J g') as Hg by (intros x; intros; by eapply decided_leave).
  eapply always_mono; [|eapply (execute_call_keeps remember may_run J); [by apply plain_neutral| |done]]; [done|].
  intros cls id. apply run_branch_source_keeps.
  - apply neutral_monotone; [done|]. intros h Hh. by apply Hh.
  - intros o. apply answer_handler_keeps.
    + intros v. apply neutral_monotone; [done|]. intros h Hh. by apply Hh.
    + intros conn op p t Hs. apply keeps_monotone; [done|]. intros h Hh. apply Hsub; [|done].
      assert (leave h (composite_execution (job_of cx1 s c params ph rv cls id))) as [] by by apply Hh.
      eapply call_ok_child; done.
    + intros b. apply ops_free; [done|]. apply enforce_subop_keeps; [done|done|by apply resume_cleared_keeps|]. intros cx'. by apply park_subop_keeps.
Qed.

(** Every dispatch, at every depth. *)
Lemma dispatch_leave n : sub_leave (dispatch_fuel n) /\
  forall cx c g, call_ok cx c -> always_leave (dispatch_fuel n cx c) (fun _ _ => True) g.
Proof.
  induction n as [|n [IH _]]; [by split|].
  assert (forall cx c g, call_ok cx c -> always_leave (dispatch_fuel (S n) cx c) (fun _ _ => True) g) as Hall.
  { intros cx c g Hok. pose proof (plain_neutral (fun _ => True) true_monotone) as Hpl.
    apply (dispatch_with_keeps remember may_run (fun _ => True)); [done| |done].
    apply dispatch_now_keeps; [done|]. intros s p ph rv Hp Hrv. unfold dispatch_limited.
    apply keeps_bind; [by apply take_limits_keeps|]. intros [r|key]; [apply keeps_mret|].
    apply keeps_finally; [|by apply release_slot_keeps]. apply dispatch_selected_leave; [done..|].
    destruct (_ || rv); [by intros [= ->]|done]. }
  split; [|done]. intros cx c g Hok _. by apply Hall.
Qed.
End Call.

(** What a dispatch ran at a target, with the calls before it. *)
Definition reaches (h h1 : dispatch_history) (x : Execution) : Prop :=
  exists o y h2, h = h1 ++ ev o y :: h2 /\ match o with d_run x' | d_vendor x' _ => x' = x | _ => False end.

Lemma reached_leave cx c h a h1 x :
  cx_depth cx = 0 -> cx_approved_run cx = false -> runs (dispatch cx c) h a -> reaches h h1 x -> leave c (cx_actor cx) h1 x.
Proof.
  intros Hd Hr Hrun (o & y & h2 & -> & Ho).
  assert (call_ok c (cx_actor cx) cx c) as Hok by (constructor; [done|lia|by rewrite Hr|done|done]).
  destruct (dispatch_leave c (cx_actor cx) (S composite_max_depth)) as [_ Hall].
  destruct (always_sound _ _ _ _ _ _ _ (Hall cx c [] Hok) Hrun) as [_ Hm]. specialize (Hm h1 o y h2 eq_refl).
  rewrite foldl_remember in Hm. destruct o; try done; simpl in *; by subst.
Qed.
End Leave.

(** * With the policy gate

    The gate answers as [policy_gate] does on the tables it finds; they may change
    between two calls. *)



Section Authority.
Context `{Environment}.
Context (st : GrantSettings).
Context (binding : Operator -> EndpointDescriptor -> option Target -> string -> string -> json_dict -> option json_dict).
Context (effect : Operator -> EndpointDescriptor -> option Target -> string -> json_dict -> json).










End Authority.

(** * Reveals and parks *)

Section Requests.
Context `{Environment}.

(** C6. Secrets are shown to people only.  An operation that runs with the reveal
    asked for was called by a principal that is no agent, in a run that acts for
    nobody else; and by a person, or by way of a request that a person approved. *)
Theorem reveals_are_for_people cx c h a h1 x :
  cx_depth cx = 0 -> cx_approved_run cx = false -> runs (dispatch cx c) h a -> reaches h h1 x ->
  cx_reveal_secret (x_cx x) = Some true ->
  op_principal_kind (x_operator x) <> AGENT /\ cx_actor cx = None /\
  (op_principal_kind (x_operator x) = USER \/ (cx_depth (x_cx x) = 0 /\ c_approved c = true)).
Proof. intros Hd Hr Hrun Hx. apply (reached_leave _ _ _ _ _ _ Hd Hr Hrun Hx). Qed.

(** The caller presented the hash of a preview of this very call, and the request
    says what is destroyed. *)
Definition bound (g : dispatch_history) (o : Operator) (conn op : string) (t : option Target) (p : json_dict)
  (preview_hash : option string) (proposed_effect : option json_dict) : Prop :=
  exists presented authoritative, preview_hash = Some presented /\ presented <> "" /\
    ev (d_preview o conn op t p) (Ok authoritative) ∈ g /\
    dict_get "status" authoritative = Some (JStr "ok") /\ compute_preview_hash authoritative = presented /\
    blast_radius_missing_reason proposed_effect = None.

Definition may_park (g : dispatch_history) (o : DispatchOp) : Prop :=
  match o with
  | d_park a => row_level (pk_row a) = "destructive" -> pk_resume_parent a = None /\
      exists op, bound g (pk_operator a) (pk_connector_id a) op (pk_target a) (pk_params a) (pk_preview_hash a) (pk_proposed_effect a)
  | _ => True
  end.

Abbreviation always_bound := (always remember may_park).

Lemma plain_parks_nothing o : plain o = true -> neutral remember may_park (fun _ => True) o.
Proof. intros Ho g _. by destruct o. Qed.

Lemma binding_bound op conn o t p ph eff g :
  always_bound (destructive_binding_refusal op conn o t p ph eff)
    (fun g' x => match x with Ok None => bound g' o conn op t p ph eff | _ => True end) g.
Proof.
  unfold destructive_binding_refusal. destruct ph as [[|ch s]|]; [done| |done].
  apply always_call; [done| |done]. intros auth.
  set (presented := String ch s). destruct (is_text "ok" (dict_get "status" auth)) eqn:Es; [|exact I].
  assert (dict_get "status" auth = Some (JStr "ok")) as Eo.
  { unfold is_text in Es. destruct (dict_get "status" auth) as [[| | | |st| |]|]; try done. apply bool_decide_eq_true in Es. by rewrite Es. }
  destruct (bool_decide (compute_preview_hash auth = presented)) eqn:Eh; [|exact I]. apply bool_decide_eq_true in Eh.
  destruct (blast_radius_missing_reason eff) eqn:Eb; [exact I|]. exists presented, auth. split_and!; try done.
  unfold remember. apply elem_of_app. right. apply list_elem_of_singleton. reflexivity.
Qed.

Lemma bound_monotone o conn op t p ph eff : monotone (fun g => bound g o conn op t p ph eff).
Proof.
  intros g g' [l ->] (pr & au & H1 & H2 & H3 & H4). exists pr, au. split_and!; try done; [|apply H4..]. apply elem_of_app. by left.
Qed.

Lemma park_screens_bound cx b op conn o r t p ph g :
  always_bound (park_screens cx b op conn o r t p ph)
    (fun g' x => match x with
                 | Ok (None, eff) => row_level r = "destructive" -> bound g' o conn op t p ph eff
                 | _ => True
                 end) g.
Proof.
  pose proof plain_parks_nothing as Hpl. unfold park_screens. apply always_bind. eapply always_mono.
  2:{ assert (keeps remember may_park (fun _ => True) (or_refusal (park_check_refusal op conn r o t p)
        (if b then ingested_ops_refusal r t op else mret None))) as Hk; [|by apply Hk].
      unfold or_refusal. apply keeps_bind; [by apply park_check_keeps|]. intros [x|]; [apply keeps_mret|].
      destruct b; [by apply ingested_refusal_keeps|apply keeps_mret]. }
  intros g1 [[x|]|e] _; [done| |done]. apply always_bind. eapply always_mono; [|by apply (build_effect_keeps remember may_park (fun _ => True))].
  intros g2 [eff|e] _; [|done]. apply always_bind. case_bool_decide as Hl.
  - eapply always_mono; [|apply binding_bound]. intros g3 [[x|]|e] Hb; [done| |done]. cbn. by destruct (preflight_denied_refusal _ _).
  - cbn. by destruct (preflight_denied_refusal _ _).
Qed.

Lemma handle_needs_approval_bound cx r conn c p ph rv : keeps remember may_park (fun _ => True) (handle_needs_approval cx r conn c p ph rv).
Proof.
  pose proof plain_parks_nothing as Hpl. intros g _. unfold handle_needs_approval. apply always_bind. eapply always_mono; [|apply park_screens_bound].
  intros g' [[[x|] eff]|e] Hb; [by apply audit_denied_keeps| |done]. cbn [fst snd]. apply always_try.
  eapply (always_mono _ _ _ (fun _ _ => True)).
  2:{ unfold store_request. apply always_bind. split; [intros Hl; split; [done|]; by exists (c_op_id c); apply Hb|].
      intros [pd|e]; [by apply record_request_keeps|exact I]. }
  intros g'' [y|e] _; [done|]. destruct e; try done. by apply audit_denied_keeps.
Qed.

Lemma park_subop_bound cx o b : keeps remember may_park (fun _ => True) (park_subop cx o b).
Proof.
  pose proof plain_parks_nothing as Hpl. intros g _. unfold park_subop. apply always_bind. eapply always_mono; [|apply park_screens_bound].
  intros g' [[[x|] eff]|e] Hb; [| |done]; cbn [fst snd].
  - apply (keeps_bind remember may_park (fun _ => True)); [by apply audit_denied_keeps|intros; apply keeps_mret|done].
  - split.
    + intros Hl. destruct (Hb Hl) as (? & ? & Hn & _). done.
    + intros [pd|e]; [|done]. apply (keeps_bind remember may_park (fun _ => True)); [by apply keeps_plain|intros; apply keeps_mret|done].
Qed.

(** C7. A destructive operation comes before an approver only with the hash of an
    up-to-date preview of exactly this call and a statement of what is destroyed; and
    no step of a composite ever does. *)
Theorem destructive_requests_are_previewed cx c h a h1 p y h2 :
  runs (dispatch cx c) h a -> h = h1 ++ ev (d_park p) y :: h2 -> row_level (pk_row p) = "destructive" ->
  pk_resume_parent p = None /\
  exists op, bound h1 (pk_operator p) (pk_connector_id p) op (pk_target p) (pk_params p) (pk_preview_hash p) (pk_proposed_effect p).
Proof.
  pose proof plain_parks_nothing as Hpl. intros Hrun -> Hl.
  assert (keeps remember may_park (fun _ => True) (dispatch cx c)) as Hk.
  { apply dispatch_keeps; try done; [apply handle_needs_approval_bound|]. intros. apply enforce_subop_keeps; [done|done|by apply resume_cleared_keeps|].
    intros. apply park_subop_bound. }
  destruct (always_sound _ _ _ _ _ _ _ (Hk [] I) Hrun) as [_ Hm]. specialize (Hm h1 _ y h2 eq_refl). rewrite foldl_remember in Hm.
  by apply Hm.
Qed.
End Requests.

(** * Concrete runs *)

Lemma executions_reach h h1 x seen :
  (h1, x) ∈ executions seen h -> reaches (seen ++ h) h1 x.
Proof.
  revert seen. induction h as [|e h IH]; intros seen Hin; cbn [executions] in Hin; [set_solver|].
  assert ((h1, x) ∈ executions (seen ++ [e]) h -> reaches (seen ++ e :: h) h1 x) as Hrest.
  { intros Hx%IH. by rewrite <- app_assoc in Hx. }
  apply elem_of_app in Hin as [Hin|?]; [|auto]. destruct e as [o y].
  destruct o; try (by apply elem_of_nil in Hin); apply list_elem_of_singleton in Hin as [= -> ->]; by eexists _, y, h.
Qed.



Lemma executed_reaches c i h1 x : executions [] (ex_history c) !! i = Some (h1, x) -> reaches (ex_history c) h1 x.
Proof. intros E. apply (executions_reach (ex_history c) h1 x []). exact (list_elem_of_lookup_2 _ _ _ E). Qed.

Lemma proj_of {A B} (o : option A) (f : A -> B) a b : o = Some a -> f <$> o = Some b -> f a = b.
Proof. intros -> [=]. done. Qed.



Lemma reveals_are_for_people_witness : exists h1 x,
  reaches (ex_history ex_reveal_call) h1 x /\ cx_reveal_secret (x_cx x) = Some true /\ op_principal_kind (x_operator x) <> AGENT.
Proof.
  destruct (executions [] (ex_history ex_reveal_call) !! 0) as [[h1 x]|] eqn:E; [|vm_compute in E; discriminate].
  assert (cx_reveal_secret (x_cx x) = Some true) as Hl.
  { exact (proj_of _ (fun p => cx_reveal_secret (x_cx p.2)) _ (Some true) E ltac:(by vm_compute)). }
  pose proof (executed_reaches ex_reveal_call _ h1 x E) as Hx.
  exists h1, x. split; [done|]. split; [done|].
  by apply (reveals_are_for_people ex_cx ex_reveal_call _ _ h1 x eq_refl eq_refl (ex_runs ex_reveal_call) Hx).
Defined.

(** The delete waits for approval, with its statement. *)
Fixpoint first_park (seen h : dispatch_history) : option (dispatch_history * ParkArgs * res Fault Parked * dispatch_history) :=
  match h with
  | [] => None
  | e :: h' => match e with
               | existT (d_park p) y => Some (seen, p, y, h')
               | _ => first_park (seen ++ [e]) h'
               end
  end.

Lemma first_park_split seen h h1 p y h2 :
  first_park seen h = Some (h1, p, y, h2) -> seen ++ h = h1 ++ ev (d_park p) y :: h2.
Proof.
  revert seen. induction h as [|e h IH]; intros seen; cbn [first_park]; [done|]. destruct e as [o z].
  destruct o; try (intros Hf; apply IH in Hf; by rewrite <- app_assoc in Hf). by intros [= -> -> -> ->].
Qed.

Lemma destructive_requests_are_previewed_witness : exists h1 p,
  row_level (pk_row p) = "destructive" /\ pk_resume_parent p = None /\
  exists op, bound h1 (pk_operator p) (pk_connector_id p) op (pk_target p) (pk_params p) (pk_preview_hash p) (pk_proposed_effect p).
Proof.
  destruct (first_park [] (ex_history ex_delete_call)) as [[[[h1 p] y] h2]|] eqn:E; [|vm_compute in E; discriminate].
  assert (row_level (pk_row p) = "destructive") as Hl.
  { exact (proj_of _ (fun q => row_level (pk_row q.1.1.2)) _ "destructive" E ltac:(by vm_compute)). }
  exists h1, p. split; [done|].
  by apply (destructive_requests_are_previewed ex_cx ex_delete_call (ex_history ex_delete_call) (ex_result ex_delete_call) h1 p y h2 (ex_runs ex_delete_call)); [apply (first_park_split [])|].
Defined.
