(* ===== verification/DispatchRecord.v ===== *)
(** An answer [ok] is on record: the audit row of its execution was committed.  The
    only answer without a row is one that a handler made itself. *)

From S2P Require Import Prelude Json Identity Permissions Catalog Lookup ServiceGrants PolicyGate SecretNames.
From S2P Require Import SecretValues WireText GatewayMint Programs DispatchLimits DispatchTypes DispatchPark TerminalErrors.
From S2P Require Import Composite Dispatcher DispatchLemmas DispatchExample DispatchGate.

Section Record_.
Context `{Environment}.

Definition any_call (_ : dispatch_history) (_ : DispatchOp) : Prop := True.
Abbreviation always_any := (always remember any_call).

Lemma always_trivial {A} (c : prog DispatchAns Fault A) (Q : dispatch_history -> A -> Prop) g :
  (forall g' a, g `prefix_of` g' -> Q g' a) -> always_any c Q g.
Proof.
  revert g. induction c as [a|o k IH]; intros g HQ; [by apply HQ|]. split; [done|]. intros x. apply IH.
  intros g' a Hp. apply HQ. etrans; [|done]. by exists [ev o x].
Qed.

Lemma always_any_call {A} o (f : DispatchAns o -> dispatch_action A) Q g :
  (forall a, always_any (f a) Q (remember g (ev o (Ok a)))) -> (forall g' e, Q g' (Raise e)) -> always_any (call o ≫= f) Q g.
Proof. intros Hf He. by apply always_call. Qed.

(** * Answers that are not [ok] *)

(** What the action returns, if it does, satisfies [P]. *)
Definition ends {A} (c : dispatch_action A) (P : A -> Prop) : Prop :=
  forall g, always_any c (fun _ x => match x with Ok a => P a | Raise _ => True end) g.

Definition not_ok (r : OperationResult) : Prop := r_status r <> "ok".

Section Ends.
Context {A B : Type}.

Lemma ends_ret (a : A) (P : A -> Prop) : P a -> ends (mret a) P.
Proof. by intros Ha g. Qed.

Lemma ends_throw e (P : A -> Prop) : ends (throw e) P.
Proof. by intros g. Qed.

Lemma ends_then (c : dispatch_action A) (f : A -> dispatch_action B) (P1 : A -> Prop) (P : B -> Prop) :
  ends c P1 -> (forall a, P1 a -> ends (f a) P) -> ends (c ≫= f) P.
Proof. intros Hc Hf g. apply always_bind. eapply always_mono; [|apply Hc]. intros g' [a|e] Ha; [by apply Hf|done]. Qed.

Lemma ends_bind (c : dispatch_action A) (f : A -> dispatch_action B) (P : B -> Prop) :
  (forall a, ends (f a) P) -> ends (c ≫= f) P.
Proof. intros Hf. apply (ends_then c f (fun _ => True)); [|by intros; apply Hf]. intros g. apply always_trivial. by intros ? []. Qed.

Lemma ends_try (c : dispatch_action A) handler (P : A -> Prop) :
  ends c P -> (forall e c', handler e = Some c' -> ends c' P) -> ends (try_except c handler) P.
Proof.
  intros Hc Hh g. apply always_try. eapply always_mono; [|apply Hc]. intros g' [a|e] Ha; [done|].
  destruct (handler e) as [c'|] eqn:E; [by eapply Hh|done].
Qed.

Lemma ends_after (c : prog DispatchAns Fault A) (f : A -> dispatch_action B) (P : B -> Prop) :
  (forall a, ends (f a) P) -> ends (after c f) P.
Proof. intros Hf g. apply always_after, always_trivial. intros. apply Hf. Qed.
End Ends.

(** What an answer is made into keeps its status. *)
Lemma receipt_not_ok r receipt : not_ok r -> not_ok (with_audit_receipt r receipt).
Proof. unfold with_audit_receipt, not_ok. by destruct receipt, (r_audit_id r). Qed.

Lemma redact_status r : r_status (redact_error_result r) = r_status r.
Proof. unfold redact_error_result, withheld_result. repeat case_match; done. Qed.

Lemma withhold_status r op tags : r_status (withhold_vendor_text r op tags) = r_status r.
Proof. unfold withhold_vendor_text. by case_match. Qed.

Lemma audit_error_ends j r d : not_ok r -> ends (audit_error_and_return j r d) not_ok.
Proof.
  intros Hr. unfold audit_error_and_return. apply ends_bind. intros x. apply ends_ret, receipt_not_ok.
  unfold not_ok. by rewrite redact_status, withhold_status.
Qed.

Lemma audit_denied_ends cx res o r t ph : not_ok res -> ends (audit_denied_and_return cx res o r t ph) not_ok.
Proof. intros Hr. unfold audit_denied_and_return. do 2 (apply ends_bind; intros). by apply ends_ret, receipt_not_ok. Qed.

Lemma refuse_rate_limited_ends cx r c ph k l n : ends (refuse_rate_limited cx r c ph k l n) not_ok.
Proof. unfold refuse_rate_limited. apply ends_bind. intros x. by apply ends_ret, receipt_not_ok. Qed.

Lemma unresolved_ends cx r c ph p v l : ends (unresolved_answer cx r c ph p v l) not_ok.
Proof. destruct l; simpl; [|by apply ends_ret|by apply audit_denied_ends|by apply ends_ret]. apply ends_ret. by repeat case_match. Qed.

Definition refuses (d : option OperationResult) : Prop := match d with Some r => not_ok r | None => True end.

(** The screens before a request refuse with an answer that is not [ok]. *)
Lemma ingested_refusal_refuses r t op : ends (ingested_ops_refusal r t op) refuses.
Proof. unfold ingested_ops_refusal. destruct (_ || _); [by apply ends_ret|]. apply ends_bind. intros x. apply ends_ret. by destruct (is_ingested_refusal _). Qed.

Lemma park_check_refuses op conn r o t p : ends (park_check_refusal op conn r o t p) refuses.
Proof. unfold park_check_refusal. destruct (negb _); [by apply ends_ret|]. apply ends_bind. intros x. apply ends_bind. intros [reason|]; by apply ends_ret. Qed.

Lemma binding_refuses op conn o t p h eff : ends (destructive_binding_refusal op conn o t p h eff) refuses.
Proof.
  unfold destructive_binding_refusal. assert (forall s, ends
    (authoritative ← call (d_preview o conn op t p);
     if negb (is_text "ok" (dict_get "status" authoritative)) then mret (Some (result_preview_binding_required op))
     else if negb (bool_decide (compute_preview_hash authoritative = s)) then mret (Some (result_preview_hash_mismatch op))
     else match blast_radius_missing_reason eff with
          | Some _ => mret (Some (result_blast_radius_required op)) | None => mret None end) refuses) as Hs.
  { intros s. apply ends_bind. intros e. repeat case_match; by apply ends_ret. }
  destruct h as [[|a s]|]; [by apply ends_ret|apply Hs|by apply ends_ret].
Qed.

Lemma or_refusal_refuses a b : ends a refuses -> ends b refuses -> ends (or_refusal a b) refuses.
Proof. intros Ha Hb. apply (ends_then _ _ _ _ Ha). intros [r|] Hr; [by apply ends_ret|done]. Qed.

Lemma preflight_refuses op eff : refuses (preflight_denied_refusal op eff).
Proof. unfold preflight_denied_refusal. destruct (dict_get _ _) as [[]|]; try done. by destruct (is_true _). Qed.

Lemma park_screens_refuse cx b op conn o r t p h : ends (park_screens cx b op conn o r t p h) (fun x => refuses x.1).
Proof.
  unfold park_screens. eapply ends_then.
  { apply or_refusal_refuses; [apply park_check_refuses|]. destruct b; [apply ingested_refusal_refuses|by apply ends_ret]. }
  intros [r'|] Hr; [by apply ends_ret|]. apply ends_bind. intros eff. eapply (ends_then _ _ refuses).
  { destruct (bool_decide _); [apply binding_refuses|by apply ends_ret]. }
  intros [b'|] Hb; apply ends_ret; [done|]. apply preflight_refuses.
Qed.

(** * The decision *)

Lemma store_request_ends cx r conn c p rv eff : ends (store_request cx r conn c p rv eff) not_ok.
Proof.
  unfold store_request, record_request. apply ends_bind. intros x. destruct (pd_reused x); [by apply ends_ret|].
  do 2 (apply ends_bind; intros). by apply ends_ret.
Qed.

Lemma handle_needs_approval_ends cx r conn c p ph rv : ends (handle_needs_approval cx r conn c p ph rv) not_ok.
Proof.
  unfold handle_needs_approval. eapply ends_then; [apply park_screens_refuse|]. intros [[r'|] eff] Hr; [by apply audit_denied_ends|].
  apply ends_try; [apply store_request_ends|]. intros e c' He. destruct e; simplify_eq; try by apply ends_ret. by apply audit_denied_ends.
Qed.

Lemma decide_call_refuses cx s c p ph rv : ends (decide_call cx s c p ph rv) refuses.
Proof.
  unfold decide_call. destruct (c_approved c).
  - unfold decide_approved. match goal with |- context [match ?x with Some _ => _ | None => _ end] => destruct x as [denial|] end; [|by apply ends_ret].
    eapply ends_then; [by apply audit_denied_ends|]. intros a Ha. by apply ends_ret.
  - unfold decide_fresh. apply ends_bind. intros now. apply ends_bind. intros v. destruct (judged_verdict _ _ _ _ _).
    + apply ends_bind. intros [b|]; [|by apply ends_ret]. do 2 (apply ends_bind; intros). by apply ends_ret, receipt_not_ok.
    + eapply ends_then; [apply handle_needs_approval_ends|]. intros a Ha. by apply ends_ret.
    + eapply ends_then; [by apply audit_denied_ends|]. intros a Ha. by apply ends_ret.
Qed.

Lemma take_limits_refuse cx r c ph : ends (take_limits cx r c ph) (fun x => match x with inl a => not_ok a | inr _ => True end).
Proof.
  unfold take_limits. destruct (negb _ || _); [by apply ends_ret|]. do 2 (apply ends_bind; intros). case_match.
  { eapply ends_then; [apply refuse_rate_limited_ends|]. intros a' Ha. by apply ends_ret. }
  apply ends_bind. intros sl. destruct sl.1; [|by apply ends_ret]. eapply ends_then; [apply refuse_rate_limited_ends|]. intros a' Ha. by apply ends_ret.
Qed.

Lemma select_catalog_refuses cx r c p v ph : ends (select_catalog cx r c p v ph) (fun x => match x with inl _ => True | inr a => not_ok a end).
Proof.
  unfold select_catalog. apply ends_bind. intros ch. repeat case_match; try by apply ends_ret.
  apply ends_bind. intros x. by apply ends_ret, receipt_not_ok.
Qed.

Lemma enforce_subop_refuses cx o b : ends (enforce_subop_policy cx o b) refuses.
Proof.
  unfold enforce_subop_policy. destruct (_ && _); [by apply ends_ret|]. apply ends_bind. intros [|]; [by apply ends_ret|].
  apply ends_bind. intros early. unfold refuse_or_judge, judge_subop.
  destruct early; [apply ends_bind; intros; by apply ends_ret|]. do 2 (apply ends_bind; intros).
  assert (forall cx, ends (park_subop cx o b) refuses) as Hp.
  { intros cx'. unfold park_subop. eapply ends_then; [apply park_screens_refuse|]. intros [[r|] eff] Hr.
    - eapply ends_then; [by apply audit_denied_ends|]. intros r' Hr'. by apply ends_ret.
    - do 2 (apply ends_bind; intros). by apply ends_ret. }
  unfold subop_verdict. destruct (_.1); [by apply ends_ret| |].
  - destruct (covered_by_approved_run _ _ _); [by apply ends_ret|]. cbv zeta. destruct (cx_resume_scope _) as [[]|]; [|apply Hp].
    destruct (sb_after_main_effect b); [apply Hp|by apply ends_ret].
  - eapply ends_then; [by apply audit_denied_ends|]. intros r' Hr'. by apply ends_ret.
Qed.

Lemma ends_runs {A} (c : dispatch_action A) P h a : ends c P -> runs c h (Ok a) -> P a.
Proof. intros Hc Hr. by destruct (always_sound _ _ _ _ _ _ _ (Hc []) Hr). Qed.

(** * The execution *)

(** A handler heard no [ok] from the gate, which answers a refusal or a wait. *)
Definition gates_refuse (hist : history HandlerAns Fault) : Prop := forall b r, ev (h_gate b) (Ok (Some r)) ∈ hist -> not_ok r.

(** The handler of the call made the answer itself, instead of returning a payload:
    the handler of a typed operation, or that of a composite, which has no [ok] from
    the gate of its own steps to hand on. *)
Definition own_answer (o : Operator) (t : option Target) (p : json_dict) (g : dispatch_history) (r : OperationResult) : Prop :=
  (exists x, ev (d_run x) (Ok (returned r)) ∈ g /\ x_operator x = o /\ x_target x = t /\ x_params x = p) \/
  (exists ref hh cls hist, import_composite_handler ref = Some hh /\ gates_refuse hist /\
     runs (hh o t p cls) hist (Ok (returned r))).

Lemma own_answer_later o t p g1 g2 r : g1 `prefix_of` g2 -> own_answer o t p g1 r -> own_answer o t p g2 r.
Proof.
  intros [l ->] [(x & Hin & Hx)|Hc]; [left|by right]. exists x. split; [|done]. apply elem_of_app. by left.
Qed.

Section Execution_.
Lemma always_runs {A} (c : prog DispatchAns Fault A) (P : A -> Prop) g :
  (forall h a, runs c h a -> P a) -> always_any c (fun _ a => P a) g.
Proof.
  revert g. induction c as [a|o k IH]; intros g HP; [by apply (HP [])|]. split; [done|]. intros x. apply IH.
  intros h a Hr. apply (HP (ev o x :: h)). by exists x, h.
Qed.

Definition gate_answer (e : event HandlerAns Fault) : option OperationResult :=
  match e with existT (h_gate _) (Ok r) => r | _ => None end.

Lemma run_handler_outcome sub x c h a : runs (run_handler sub x c) h a -> exists h', gates_refuse h' /\ runs c h' a.
Proof.
  revert h. induction c as [r|o k IH]; intros h; simpl.
  { intros [_ ->]. exists []. split; [|done]. intros b r' Hin. by apply not_elem_of_nil in Hin. }
  intros Hr. apply runs_after in Hr as (h1 & h2 & y & _ & Hy & Hr). destruct (IH y h2 Hr) as (h' & Hg & Hh).
  exists (ev o y :: h'). split; [|by exists y, h']. intros b r' Hin. apply elem_of_cons in Hin as [Heq|Hin]; [|by apply (Hg b)].
  apply (f_equal gate_answer) in Heq. simpl in Heq. destruct o; simplify_eq. destruct y as [y|]; simplify_eq.
  apply (ends_runs _ _ _ _ (enforce_subop_refuses _ _ _) Hy).
Qed.

(** The row of the execution is in the history, and the answer names it; or the
    answer is the handler's own. *)
Definition recorded (j : Job) (g : dispatch_history) (r : OperationResult) : Prop :=
  (exists d, ev (d_audit (execution_row j "ok" d)) (Ok tt) ∈ g /\ r_audit_id r = Some (j_audit_id j)) \/
  own_answer (j_operator j) (j_target j) (j_params j) g r.

Definition backed (R : dispatch_history -> OperationResult -> Prop) (g : dispatch_history) (x : res Fault OperationResult) : Prop :=
  match x with Ok r => r_status r = "ok" -> R g r | Raise _ => True end.

Lemma ends_backed c R g : ends c not_ok -> always_any c (backed R) g.
Proof. intros Hc. eapply always_mono; [|apply Hc]. intros g' [r|e] Hr; [|done]. by intros ?. Qed.

Lemma commit_ok_backed j d build g :
  (forall g', ev (d_audit (execution_row j "ok" d)) (Ok tt) ∈ g' -> always_any (build (Some (j_audit_id j))) (backed (recorded j)) g') ->
  always_any (commit_ok j d build) (backed (recorded j)) g.
Proof.
  intros Hb. unfold commit_ok, audit_safe, catch_all. apply always_after, always_try, always_any_call.
  - intros []. apply Hb. unfold remember. apply elem_of_app. right. by apply list_elem_of_singleton.
  - intros g' e. destruct (bool_decide (e = cancelled)) eqn:He; [|done]. apply bool_decide_eq_true in He as ->. done.
Qed.

Lemma recorded_at j d g r : ev (d_audit (execution_row j "ok" d)) (Ok tt) ∈ g -> r_audit_id r = Some (j_audit_id j) -> backed (recorded j) g (Ok r).
Proof. intros Hin Hid _. left. by exists d. Qed.

Lemma success_backed j rm g : always_any (reduce_and_audit_success j rm) (backed (recorded j)) g.
Proof.
  unfold reduce_and_audit_success. apply always_after, always_trivial. intros g1 x _.
  assert (forall d, always_any (unavailable_delivery_result j d) (backed (recorded j)) g1) as Hu.
  { intros d. apply commit_ok_backed. intros g' Hin. by apply (recorded_at _ d). }
  destruct x as [[summary handle]|e].
  - apply commit_ok_backed. intros g2 Hin. unfold answer_with_advisories.
    do 3 (apply always_any_call; [intros ?|done]). apply (recorded_at _ (detail_of rm handle)); [|done].
    unfold remember. rewrite !elem_of_app. auto.
  - destruct e; try apply (Hu (detail_of rm None)).
Qed.

(** ** The branch *)

Section Branch.
Context (sub : Ctx -> DispatchCall -> dispatch_action OperationResult).

(** An answer that is passed through is not [ok], or the handler's own. *)
Definition passes (j : Job) (g : dispatch_history) (x : res Fault Outcome) : Prop :=
  match x with Ok (returned r) => not_ok r \/ own_answer (j_operator j) (j_target j) (j_params j) g r | _ => True end.

Lemma source_passes j g : always_any (run_source_kind_branch sub j) (passes j) g.
Proof.
  unfold run_source_kind_branch, dispatch_composite. destruct (bool_decide _).
  - split; [done|]. intros [[v|r]|e]; [done| |done]. right. left. exists (execution_of j). split; [|done].
    apply elem_of_app. right. by apply list_elem_of_singleton.
  - destruct (bool_decide _); [|done]. destruct (import_composite_handler _) as [hh|] eqn:Hh; [|done].
    apply (always_mono _ _ _ (fun _ x => forall g, passes j g x)); [by intros g' x Hx|].
    apply (always_runs _ (fun x => forall g, passes j g x)).
    intros h a Hr g'. apply run_handler_outcome in Hr as (h' & Hg & Hr). destruct a as [[v|r]|e]; [done| |done].
    right. right. by exists (default "" (handler_ref (j_row j))), hh, (j_class j), h'.
Qed.

Definition answers_no_ok (c : dispatch_action Outcome) : Prop :=
  ends c (fun o => match o with returned r => not_ok r | payload _ => False end).

Lemma return_error_passes j r : not_ok r -> answers_no_ok (return_error j r).
Proof. intros Hr. unfold return_error. eapply ends_then; [by apply audit_error_ends|]. intros r' Hr'. by apply ends_ret. Qed.

Lemma answers_no_ok_pass j c g : answers_no_ok c -> always_any c (passes j) g.
Proof. intros Hc. eapply always_mono; [|apply Hc]. intros g' [[v|r]|e] Hr; [done| |done]. by left. Qed.

Lemma audit_returned_passes j raw g : passes j g (Ok raw) -> always_any (audit_returned_result j raw) (passes j) g.
Proof.
  intros Hp. unfold audit_returned_result. destruct raw as [v|r]; [done|]. destruct (bool_decide (r_status r = "error")) eqn:He.
  { apply answers_no_ok_pass. apply bool_decide_eq_true in He. eapply ends_then; [apply audit_error_ends; unfold not_ok; by rewrite He|].
    intros r' Hr. by apply ends_ret. }
  destruct (negb _) eqn:Hs; [done|]. apply negb_false_iff, bool_decide_eq_true in Hs.
  assert (not_ok r) as Hr by (intros Ho; rewrite Ho in Hs; set_solver). apply answers_no_ok_pass.
  apply (ends_then _ _ not_ok); [|intros r' Hr'; by apply ends_ret]. apply ends_try.
  - apply ends_bind. intros [id|]; by apply ends_ret.
  - intros e c' He'. destruct (bool_decide (e = audit_commit_error)); simplify_eq. by apply ends_ret.
Qed.

Lemma fault_not_ok j e : not_ok (fault_answer j e).
Proof. by destruct e. Qed.

Lemma branch_passes j g : always_any (run_branch_with_error_handling sub j) (passes j) g.
Proof.
  assert (answers_no_ok (_ ← evict_connector_credentials j; return_error j (fault_answer j connector_auth_error))) as Hev.
  { apply ends_bind. intros u. apply return_error_passes, fault_not_ok. }
  unfold run_branch_with_error_handling. apply always_after. eapply always_mono; [|apply source_passes]. intros g' [raw|e] Hp.
  { by apply audit_returned_passes. }
  assert (forall st, always_any (handle_http_status_error sub j st) (passes j) g') as Hh.
  { intros st. unfold handle_http_status_error. destruct (_ && _); [|by apply answers_no_ok_pass, return_error_passes].
    unfold retry_after_session_invalidation. apply always_any_call; [|done]. intros u.
    apply always_after. eapply always_mono; [|apply source_passes]. intros g2 [raw|e2] Hp2; [by apply audit_returned_passes|].
    destruct e2; try (by apply answers_no_ok_pass, return_error_passes); [done|]. by apply answers_no_ok_pass. }
  destruct e; try (by apply answers_no_ok_pass, return_error_passes, fault_not_ok); [done|apply Hh|]. by apply answers_no_ok_pass.
Qed.

Lemma redaction_refuses j raw g :
  always_any (apply_redaction_middleware j raw) (fun _ x => match x with Ok (inr r) => not_ok r | _ => True end) g.
Proof.
  unfold apply_redaction_middleware. apply always_try, always_any_call; [done|]. intros g' e. simpl.
  by destruct (bool_decide (e = cancelled)).
Qed.

Lemma inner_backed j g : always_any (execute_and_audit_inner sub j) (backed (recorded j)) g.
Proof.
  unfold execute_and_audit_inner. apply always_bind. eapply always_mono; [|apply branch_passes]. intros g1 [[raw|r]|e] Hp; [| |done].
  2:{ intros Hok. right. by destruct Hp. }
  apply always_bind. eapply always_mono; [|apply redaction_refuses]. intros g2 [[rm|r]|e] Hr; [| |done].
  - destruct (composite_terminal_error_code _ _) as [code|]; [|apply success_backed].
    apply ends_backed. unfold reduce_and_audit_composite_error. destruct (protect_secret_values _ _ _ _ _ _ _); [|by apply audit_error_ends].
    apply ends_bind. intros [[env hd] dl]. by apply audit_error_ends.
  - by apply ends_backed, audit_error_ends.
Qed.

Lemma backed_later R g g' x : (forall r, R g r -> R g' r) -> backed R g x -> backed R g' x.
Proof. intros HR Hx. destruct x as [r|e]; [|done]. intros Hok. by apply HR, Hx. Qed.

(** What comes after changes nothing. *)
Lemma finally_backed c f R g :
  (forall g1 g2 r, g1 `prefix_of` g2 -> R g1 r -> R g2 r) -> always_any c (backed R) g -> always_any (finally c f) (backed R) g.
Proof.
  intros HR Hc. apply always_finally. eapply always_mono; [|apply Hc]. intros g1 x Hx. apply always_trivial.
  intros g2 [u|e] Hp; [|done]. eapply backed_later; [|done]. intros r. by apply HR.
Qed.

Lemma recorded_later j g1 g2 r : g1 `prefix_of` g2 -> recorded j g1 r -> recorded j g2 r.
Proof.
  intros Hp [(d & Hin & Hid)|Ho]; [left|right; by eapply own_answer_later]. exists d. split; [|done].
  destruct Hp as [l ->]. apply elem_of_app. by left.
Qed.

(** The answer of a handler, which may get the handle of the trace. *)
Definition handed_on (o : Operator) (t : option Target) (p : json_dict) (g : dispatch_history) (r : OperationResult) : Prop :=
  exists r', own_answer o t p g r' /\ (r = r' \/ exists handle, r = set_extras (dict_put "flight_recorder_trace_handle" handle (r_extras r')) r').

Lemma handed_on_later o t p g1 g2 r : g1 `prefix_of` g2 -> handed_on o t p g1 r -> handed_on o t p g2 r.
Proof. intros Hp (r' & Ho & Hr). exists r'. split; [by eapply own_answer_later|done]. Qed.

Lemma execute_backed job (R : dispatch_history -> OperationResult -> Prop) g :
  (forall id g r d, ev (d_audit (execution_row (job id) "ok" d)) (Ok tt) ∈ g -> r_audit_id r = Some (j_audit_id (job id)) -> R g r) ->
  (forall id g r, handed_on (j_operator (job id)) (j_target (job id)) (j_params (job id)) g r -> R g r) ->
  always_any (execute_and_audit sub job) (backed R) g.
Proof.
  intros HR HW. unfold execute_and_audit. apply always_any_call; [|done]. intros id. apply always_any_call; [|done]. intros scope.
  apply always_bind. eapply always_mono; [|apply finally_backed; [apply recorded_later|apply inner_backed]].
  intros g1 [r|e] Hr; [|done]. cbn [backed] in Hr.
  assert (forall r' g2, r_status r' = r_status r -> r_audit_id r' = r_audit_id r ->
    (r' = r \/ exists handle, r' = set_extras (dict_put "flight_recorder_trace_handle" handle (r_extras r)) r) -> g1 `prefix_of` g2 ->
    backed R g2 (Ok r')) as Hl.
  { intros r' g2 Hs Ha He Hp Hok. rewrite Hs in Hok. destruct (recorded_later _ _ _ _ Hp (Hr Hok)) as [(d & Hin & Hid)|Ho].
    - apply (HR id _ _ d); [done|by rewrite Ha].
    - apply (HW id). by exists r. }
  destruct scope as [sid|]; [|apply Hl; auto]. unfold attach_agent_trace_handle, catch_all. apply always_try, always_bind, always_trivial.
  intros g2 [[hd|]|e] Hp; [apply Hl; [done|done|right; by exists hd|done]|apply Hl; auto|].
  destruct (bool_decide (e = cancelled)); [done|apply Hl; auto].
Qed.

(** ** The dispatch *)

(** The row of the call [c] made under [cx]: who asked, for what, on whose behalf,
    below which row, and what was decided. *)
Definition on_record (cx : Ctx) (c : DispatchCall) (g : dispatch_history) (r : OperationResult) : Prop :=
  exists a, ev (d_audit a) (Ok tt) ∈ g /\ r_audit_id r = Some (au_id a) /\
    au_event_class a = OPERATION_EXECUTION /\ au_result_status a = "ok" /\ au_status_code a = 200%Z /\
    au_operator a = c_operator c /\ au_actor a = cx_actor cx /\ au_target_id a = match c_target c with Some t => tg_id t | None => None end /\
    au_params_hash a = compute_audit_params_hash (fst (split_reveal_secret (c_params c))) /\
    au_parent_audit_id a = cx_parent_audit_id cx /\
    au_policy_decision a = Some (verdict_value (if c_approved c then NEEDS_APPROVAL else AUTO_EXECUTE)).

Lemma on_record_later cx c g1 g2 r : g1 `prefix_of` g2 -> on_record cx c g1 r -> on_record cx c g2 r.
Proof. intros [l ->] (a & Hin & Ha). exists a. split; [|done]. apply elem_of_app. by left. Qed.

(** On record, or the handler's own. *)
Definition answered_for (cx : Ctx) (c : DispatchCall) (g : dispatch_history) (r : OperationResult) : Prop :=
  on_record cx c g r \/ handed_on (c_operator c) (c_target c) (fst (split_reveal_secret (c_params c))) g r.

Lemma answered_for_later cx c g1 g2 r : g1 `prefix_of` g2 -> answered_for cx c g1 r -> answered_for cx c g2 r.
Proof. intros Hp [?|?]; [left; by eapply on_record_later|right; by eapply handed_on_later]. Qed.

Lemma selected_backed cx0 cx s c p ph rv g :
  p = fst (split_reveal_secret (c_params c)) -> ph = compute_audit_params_hash p ->
  cx_actor cx = cx_actor cx0 -> cx_parent_audit_id cx = cx_parent_audit_id cx0 ->
  always_any (dispatch_selected sub cx s c p ph rv) (backed (answered_for cx0 c)) g.
Proof.
  intros -> -> Ha Hp. rewrite dispatch_selected_eq. destruct (rv && _); [by apply ends_backed, audit_denied_ends|].
  apply always_bind. eapply always_mono; [|apply decide_call_refuses]. intros g1 [[r|]|e] Hr; [by intros ?| |done].
  unfold execute_call. apply always_bind, always_trivial. intros g2 [[cls [l|]]|e] _; [|clear Hr|done].
  { apply ends_backed, unresolved_ends. }
  apply always_bind, always_trivial. intros g3 [u|e] _; [|done]. apply execute_backed.
  - intros id g4 r d Hin Hid. left.
    exists (execution_row (job_of cx s c (fst (split_reveal_secret (c_params c))) (compute_audit_params_hash (fst (split_reveal_secret (c_params c)))) rv cls id) "ok" d).
    split_and!; try done.
  - intros id g4 r Ho. by right.
Qed.

Lemma dispatch_with_backed cx c g : always_any (dispatch_with sub cx c) (backed (answered_for cx c)) g.
Proof.
  assert (forall g, always_any (dispatch_now sub cx c) (backed (answered_for cx c)) g) as Hn.
  { clear g. intros g. unfold dispatch_now. destruct (split_reveal_secret (c_params c)) as [p rv] eqn:Hp.
    destruct (parse_connector_id (c_connector_id c)) as [[pr v] im]. apply always_any_call; [|done]. intros [r|].
    2:{ apply ends_backed, ends_bind. intros m. cbv zeta. destruct (has_error_code _ _); [by apply audit_denied_ends|by apply ends_ret]. }
    destruct (_ && is_license_read _ _); [by apply ends_backed, audit_denied_ends|].
    destruct (_ && descriptor_requires_target r); [by intros ?|].
    apply always_bind. eapply always_mono; [|apply select_catalog_refuses]. intros g1 [[s|r']|e] Hs; [|by intros ?|done].
    destruct (params_error _ _ _) as [inv|] eqn:Hi.
    { intros Hok. unfold params_error in Hi. by repeat case_match; simplify_eq. }
    unfold dispatch_limited. apply always_bind. eapply always_mono; [|apply take_limits_refuse].
    intros g2 [[r'|k]|e] Hl; [by intros ?| |done]. apply finally_backed; [apply answered_for_later|]. by apply selected_backed; [rewrite Hp|..]. }
  unfold dispatch_with. destruct (negb _); [done|]. apply always_any_call; [|done]. intros dr. destruct (dr && _); [by intros ?|].
  apply always_any_call; [|done]. intros u. apply finally_backed; [apply answered_for_later|done].
Qed.
End Branch.
End Execution_.

(** C8. An answer [ok] is on record: the audit row of the execution was committed
    before the answer, with the caller, the actor, the target, the hash of the
    params, the parent row and the decision of this very call, and the answer names
    it.  There is one way past the record, which the code leaves open: the handler of
    this very call, instead of a payload, returned an answer of its own with status
    [ok].  That one is passed on as it is, or with the handle of its trace, and for a
    composite it is not an answer of the gate of its own steps. *)
Theorem ok_answers_are_on_record cx c h r :
  runs (dispatch cx c) h (Ok r) -> r_status r = "ok" ->
  on_record cx c h r \/
  (exists r', own_answer (c_operator c) (c_target c) (fst (split_reveal_secret (c_params c))) h r' /\ r_status r' = "ok" /\
     (r = r' \/ exists handle, r = set_extras (dict_put "flight_recorder_trace_handle" handle (r_extras r')) r')).
Proof.
  intros Hrun Hok. destruct (always_sound _ _ _ _ _ _ _ (dispatch_with_backed (dispatch_fuel composite_max_depth) cx c []) Hrun) as [Hb _].
  rewrite foldl_remember in Hb. destruct (Hb Hok) as [?|(r' & Ho & Hr)]; [by left|right]. exists r'. split_and!; [done| |done].
  by destruct Hr as [<-|[handle ->]].
Qed.
End Record_.

(** The drain of a node, a composite with one child: its answer is on record. *)
Lemma ok_answers_are_on_record_witness : exists r,
  ex_result ex_drain_call = Ok r /\ on_record ex_cx ex_drain_call (ex_history ex_drain_call) r.
Proof.
  destruct (ex_result ex_drain_call) as [r|e] eqn:E; [|vm_compute in E; discriminate].
  assert (r_status r = "ok") as Hok.
  { change (match Ok (E := Fault) r with Ok r => r_status r | Raise _ => "" end = "ok"). rewrite <- E. by vm_compute. }
  exists r. split; [done|].
  destruct (ok_answers_are_on_record ex_cx ex_drain_call (ex_history ex_drain_call) r ltac:(rewrite <- E; apply ex_runs) Hok)
    as [?|(r' & [(x & Hin & _)|(ref & hh & cls & hist & Hh & Hg & Hr)] & Hok' & _)]; [done|exfalso..].
  - assert (forall e, e ∈ ex_history ex_drain_call -> match e with existT (d_run _) (Ok (returned _)) => False | _ => True end) as Hall.
    { apply Forall_forall. vm_compute. repeat constructor. }
    by apply (Hall _ Hin).
  - enough (not_ok r') by done. clear E Hok r Hok'. unfold import_composite_handler, ex_env in Hh.
    destruct (bool_decide _); [injection Hh as <-|destruct (bool_decide _); [injection Hh as <-|done]].
    + destruct Hr as ([x|e] & h1 & _ & Hr); [destruct Hr as ([y|e] & h2 & _ & _ & Hr)|destruct Hr as [_ Hr]]; done.
    + destruct Hr as ([[r1|]|e] & h1 & -> & Hr); [| |by destruct Hr].
      { destruct Hr as [-> Hr]. injection Hr as <-. apply (Hg ex_step), list_elem_of_singleton. done. }
      destruct Hr as (y & h2 & -> & ([[r2|]|e] & h3 & -> & Hr)); [| |by destruct Hr].
      { destruct Hr as [-> Hr]. injection Hr as <-. apply (Hg ex_step). rewrite !elem_of_cons. auto. }
      by destruct Hr as (z & h4 & _ & _ & Hr).
Defined.
