(* ===== verification/DispatchFaults.v ===== *)
(** Which exceptions leave a dispatch.  What connectors, handlers of composites, the
    redaction, the reducer, the approval queue and the audit table raise becomes an
    answer; only a cancellation passes, and what the calls around them raise. *)

From S2P Require Import Prelude Json Identity Permissions Catalog Lookup ServiceGrants PolicyGate SecretNames.
From S2P Require Import SecretValues WireText GatewayMint Programs DispatchLimits DispatchTypes DispatchPark TerminalErrors.
From S2P Require Import Composite Dispatcher DispatchLemmas DispatchGate DispatchRecord.

(** The calls whose exceptions a dispatch answers for. *)
Definition contained (o : DispatchOp) : bool :=
  match o with
  | d_run _ | d_vendor _ _ | d_audit _ | d_park _ | d_step_event _ _ | d_redact _ _ _ _ | d_reduce _ _ _ | d_trace _
  | d_resume_get | d_resume_clear => true
  | _ => false
  end.

(** A cancellation, or the exception of a call that is not one of these. *)
Definition raised_outside (g : dispatch_history) (e : Fault) : Prop :=
  e = cancelled \/ exists o, contained o = false /\ ev o (Raise e) ∈ g.

Create HintDb escape.

Section Faults.
Context `{Environment}.

Definition outside {A} (g : dispatch_history) (x : res Fault A) : Prop :=
  match x with Raise e => raised_outside g e | Ok _ => True end.

Definition escapes {A} (c : dispatch_action A) : Prop := forall g, always remember any_call c outside g.

Lemma outside_later {A} g1 g2 (x : res Fault A) : g1 `prefix_of` g2 -> outside g1 x -> outside g2 x.
Proof.
  intros [l ->]. destruct x as [a|e]; [done|]. intros [->|(o & Ho & Hin)]; [by left|right]. exists o. split; [done|].
  apply elem_of_app. by left.
Qed.

Lemma escapes_ret {A} (a : A) : escapes (mret a).
Proof. by intros g. Qed.

Lemma escapes_Ret {A} (a : A) : escapes (Ret (Ok a)).
Proof. by intros g. Qed.

Lemma escapes_cancelled {A} : escapes (throw cancelled : dispatch_action A).
Proof. intros g. by left. Qed.

Lemma escapes_call o : contained o = false -> escapes (call o).
Proof.
  intros Ho g. split; [done|]. intros [a|e]; [done|]. right. exists o. split; [done|].
  apply elem_of_app. right. by apply list_elem_of_singleton.
Qed.

Lemma escapes_bind {A B} (c : dispatch_action A) (f : A -> dispatch_action B) : escapes c -> (forall a, escapes (f a)) -> escapes (c ≫= f).
Proof. intros Hc Hf g. apply always_bind. eapply always_mono; [|apply Hc]. intros g' [a|e] Ha; [by apply Hf|done]. Qed.

(** Whatever the first part ends with, the rest deals with it. *)
Lemma escapes_after {A B} (c : prog DispatchAns Fault A) (f : A -> dispatch_action B) : (forall a, escapes (f a)) -> escapes (after c f).
Proof. intros Hf g. apply always_after, always_trivial. intros. apply Hf. Qed.

Lemma escapes_catch_all {A} (c : dispatch_action A) handler : (forall e, escapes (handler e)) -> escapes (catch_all c handler).
Proof.
  intros Hh. apply escapes_after. intros [a|e]; [apply escapes_ret|]. case_bool_decide as He; cbn; [|apply Hh].
  subst. apply escapes_cancelled.
Qed.

Lemma escapes_try {A} (c : dispatch_action A) handler :
  (forall e, match handler e with Some c' => escapes c' | None => e = cancelled end) -> escapes (try_except c handler).
Proof.
  intros Hh. apply escapes_after. intros [a|e]; [apply escapes_ret|]. specialize (Hh e). destruct (handler e); [done|].
  subst. apply escapes_cancelled.
Qed.

Lemma escapes_finally {A} (c : dispatch_action A) f : escapes c -> escapes f -> escapes (finally c f).
Proof.
  intros Hc Hf g. apply always_after. eapply always_mono; [|apply Hc]. intros g1 x Hx. apply always_after.
  eapply always_mono; [|apply always_extends, Hf]. intros g2 [u|e] [He Hp]; [by eapply outside_later|done].
Qed.

#[local] Hint Resolve escapes_ret escapes_Ret escapes_cancelled : escape.
#[local] Hint Extern 1 (escapes (call _)) => apply escapes_call; reflexivity : escape.

Ltac escape_step :=
  match goal with
  | |- forall _, _ => intro
  | |- escapes _ => solve [auto with escape]
  | |- escapes (_ ≫= _) => apply escapes_bind
  | |- escapes (catch_all _ _) => apply escapes_catch_all
  | |- escapes (finally _ _) => apply escapes_finally
  | |- escapes (after _ _) => apply escapes_after
  | |- escapes (match ?x with _ => _ end) => destruct x eqn:?
  | |- escapes (let _ := _ in _) => cbv zeta
  end.
Ltac escape := repeat escape_step.

(** ** Rows, refusals, the connector *)

Lemma audit_safe_escapes a : escapes (audit_safe a false).
Proof. unfold audit_safe. escape. Qed.
#[local] Hint Resolve audit_safe_escapes : escape.

Lemma audit_rejection_escapes cx o r t ph st : escapes (audit_rejection_safe cx o r t ph st).
Proof. unfold audit_rejection_safe. escape. Qed.
Lemma audit_denied_escapes cx res o r t ph : escapes (audit_denied_and_return cx res o r t ph).
Proof. unfold audit_denied_and_return. escape. Qed.
Lemma resolve_connector_escapes r t : escapes (resolve_connector_instance r t).
Proof. unfold resolve_connector_instance, restore_saved_ingest_profiles. escape. Qed.
#[local] Hint Resolve audit_rejection_escapes audit_denied_escapes resolve_connector_escapes : escape.

Lemma build_effect_escapes cx op conn r o t p : escapes (build_proposed_effect cx op conn r o t p).
Proof. unfold build_proposed_effect. escape. Qed.
Lemma ingested_refusal_escapes r t op : escapes (ingested_ops_refusal r t op).
Proof. unfold ingested_ops_refusal. escape. Qed.
Lemma park_check_escapes op conn r o t p : escapes (park_check_refusal op conn r o t p).
Proof. unfold park_check_refusal. escape. Qed.
Lemma binding_escapes op conn o t p h eff : escapes (destructive_binding_refusal op conn o t p h eff).
Proof. unfold destructive_binding_refusal. escape. Qed.
#[local] Hint Resolve build_effect_escapes ingested_refusal_escapes park_check_escapes binding_escapes : escape.

Lemma park_screens_escapes cx b op conn o r t p h : escapes (park_screens cx b op conn o r t p h).
Proof. unfold park_screens, or_refusal. escape. Qed.
#[local] Hint Resolve park_screens_escapes : escape.

(** ** The execution *)

Lemma audit_error_escapes j r d : escapes (audit_error_and_return j r d).
Proof. unfold audit_error_and_return. escape. Qed.
#[local] Hint Resolve audit_error_escapes : escape.

Lemma return_error_escapes j r : escapes (return_error j r).
Proof. unfold return_error. escape. Qed.
Lemma evict_escapes j : escapes (evict_connector_credentials j).
Proof. unfold evict_connector_credentials. escape. Qed.
#[local] Hint Resolve return_error_escapes evict_escapes : escape.

(** A row that has to be there, and is not, raises the commit error or a cancellation. *)
Lemma required_row_raises a g :
  always remember any_call (audit_safe a true)
    (fun _ x => match x with Raise e => e = cancelled \/ e = audit_commit_error | Ok _ => True end) g.
Proof.
  unfold audit_safe, catch_all. apply always_try, always_bind. split; [done|]. intros [u|e]; [done|]. cbn.
  case_bool_decide; cbn; auto.
Qed.

Lemma audit_returned_escapes j raw : escapes (audit_returned_result j raw).
Proof.
  unfold audit_returned_result. destruct raw as [v|r]; [escape|]. destruct (bool_decide (r_status r = "error")); [escape|].
  destruct (negb _); [escape|]. apply escapes_bind; [|escape]. intros g. apply always_try, always_bind.
  eapply always_mono; [|apply required_row_raises]. intros g' [x|e]; [done|]. intros [->| ->]; cbn; [by left|done].
Qed.
#[local] Hint Resolve audit_returned_escapes : escape.

Lemma commit_ok_escapes j d build : (forall receipt, escapes (build receipt)) -> escapes (commit_ok j d build).
Proof.
  intros Hb g. unfold commit_ok. apply always_after. eapply always_mono; [|apply required_row_raises].
  intros g' [x|e]; [intros _; apply Hb|]. intros [->| ->]; [by left|done].
Qed.

Lemma advisories_escape j s h receipt : escapes (answer_with_advisories j s h receipt).
Proof. unfold answer_with_advisories. escape. Qed.

Lemma success_escapes j rm : escapes (reduce_and_audit_success j rm).
Proof.
  unfold reduce_and_audit_success, reduce, unavailable_delivery_result.
  escape; apply commit_ok_escapes; intros; try apply advisories_escape; escape.
Qed.

Lemma composite_error_escapes j rm code : escapes (reduce_and_audit_composite_error j rm code).
Proof. unfold reduce_and_audit_composite_error, reduce_composite_error_envelope, reduce. escape. Qed.

Lemma redaction_escapes j raw : escapes (apply_redaction_middleware j raw).
Proof. unfold apply_redaction_middleware. escape. Qed.
#[local] Hint Resolve success_escapes composite_error_escapes redaction_escapes : escape.

(** ** The decision *)

Lemma needs_approval_escapes cx r conn c p ph rv : escapes (handle_needs_approval cx r conn c p ph rv).
Proof. unfold handle_needs_approval. escape. apply escapes_try. intros e. destruct e; [reflexivity|escape..]. Qed.
#[local] Hint Resolve needs_approval_escapes : escape.

Lemma decide_call_escapes cx s c p ph rv : escapes (decide_call cx s c p ph rv).
Proof. unfold decide_call, decide_approved, decide_fresh. escape. Qed.

Lemma unresolved_escapes cx r c ph pr v l : escapes (unresolved_answer cx r c ph pr v l).
Proof. unfold unresolved_answer. escape. Qed.

Lemma connector_for_escapes r t pre : escapes (connector_for r t pre).
Proof. unfold connector_for. escape. Qed.

Lemma take_limits_escapes cx r c ph : escapes (take_limits cx r c ph).
Proof.
  unfold take_limits, check_dispatch_rate_limit, acquire_dispatch_slot, decr_and_reap, refuse_rate_limited,
    valkey_incr_expire, valkey_decr, valkey_delete. escape.
Qed.

Lemma select_catalog_escapes cx r c p v ph : escapes (select_catalog cx r c p v ph).
Proof. unfold select_catalog. escape. Qed.
#[local] Hint Resolve decide_call_escapes unresolved_escapes connector_for_escapes take_limits_escapes select_catalog_escapes : escape.

(** ** The dispatch *)

Section Branch.
Context (sub : Ctx -> DispatchCall -> dispatch_action OperationResult).

Lemma run_branch_escapes j : escapes (run_branch_with_error_handling sub j).
Proof. unfold run_branch_with_error_handling, handle_http_status_error, retry_after_session_invalidation. escape. Qed.
#[local] Hint Resolve run_branch_escapes : escape.

Lemma execute_escapes job : escapes (execute_and_audit sub job).
Proof. unfold execute_and_audit, execute_and_audit_inner, attach_agent_trace_handle. escape. Qed.
#[local] Hint Resolve execute_escapes : escape.

Lemma selected_escapes cx s c p ph rv : escapes (dispatch_selected sub cx s c p ph rv).
Proof. rewrite dispatch_selected_eq. unfold refuse_agent_reveal, execute_call. escape. Qed.
#[local] Hint Resolve selected_escapes : escape.

(** Whatever the children of a composite end with, the dispatch above deals with it. *)
Lemma dispatch_escapes cx c : escapes (dispatch_with sub cx c).
Proof. unfold dispatch_with, dispatch_now, audit_license_read_off, dispatch_limited, release_slot. escape. Qed.
End Branch.
End Faults.
