(* ===== verification/DispatchAnswers.v ===== *)
(** What a dispatch leaves behind: the slot it took, the row on record, the approval
    it spent; that the fuel for nested composites is enough, and that it ends with an
    answer. *)

From Stdlib Require Import FunctionalExtensionality.
From S2P Require Import Prelude Json Identity Permissions Catalog Lookup ServiceGrants PolicyGate SecretNames.
From S2P Require Import SecretValues WireText GatewayMint Programs DispatchLimits DispatchTypes DispatchPark TerminalErrors.
From S2P Require Import Composite Dispatcher DispatchLemmas DispatchExample DispatchGate DispatchRecord DispatchFaults.

Section Answers.
Context `{Environment}.

(** * The fuel *)

Section Fuel.
Context (sub sub' : Ctx -> DispatchCall -> dispatch_action OperationResult).






End Fuel.







(** * The slot *)

Section Slot.
Context (key : string).

(** What was counted up, and down, at the counter. *)
Definition count_slots (n : nat * nat) (e : event DispatchAns Fault) : nat * nat :=
  match e with
  | existT (d_valkey (vk_incr_expire k _)) (Ok _) => if bool_decide (k = key) then (S n.1, n.2) else n
  | existT (d_valkey (vk_decr k)) _ => if bool_decide (k = key) then (n.1, S n.2) else n
  | _ => n
  end.

Definition slots_of (h : history DispatchAns Fault) : nat * nat := foldl count_slots (0, 0) h.

Definition no_limit (_ : nat * nat) (_ : DispatchOp) : Prop := True.
Abbreviation always_count := (always count_slots no_limit).

Lemma plain_uncounted n o : plain o = true -> neutral count_slots no_limit (fun m => m = n) o.
Proof. intros Ho m ->. split; [done|]. intros x. by destruct o. Qed.

Lemma others_uncounted n o : (forall v, o <> d_valkey v) -> neutral count_slots no_limit (fun m => m = n) o.
Proof. intros Ho m ->. split; [done|]. intros x. destruct o; try done. by destruct (Ho o). Qed.

(** Below the top nothing is counted. *)
Lemma handle_needs_approval_uncounted n cx r conn c p ph rv :
  keeps count_slots no_limit (fun m => m = n) (handle_needs_approval cx r conn c p ph rv).
Proof.
  apply handle_needs_approval_keeps; [apply plain_uncounted|]. intros eff. apply store_request_keeps; [apply plain_uncounted|].
  intros a. by apply others_uncounted.
Qed.

Lemma subop_uncounted n cx o b : keeps count_slots no_limit (fun m => m = n) (enforce_subop_policy cx o b).
Proof.
  apply enforce_subop_keeps; [apply plain_uncounted|by apply others_uncounted|by apply resume_cleared_keeps; apply others_uncounted|]. intros cx'. apply park_subop_keeps; [apply plain_uncounted|].
  intros a. by apply others_uncounted.
Qed.

Lemma selected_uncounted n sub cx s c p ph rv :
  (forall cx c, cx_depth cx <> 0 -> keeps count_slots no_limit (fun m => m = n) (sub cx c)) ->
  keeps count_slots no_limit (fun m => m = n) (dispatch_selected sub cx s c p ph rv).
Proof.
  intros Hs. apply dispatch_selected_keeps; [apply plain_uncounted|intros; apply handle_needs_approval_uncounted|].
  intros cls id. apply run_branch_source_keeps; [by apply others_uncounted|]. intros o. apply answer_handler_keeps.
  - intros v. by apply others_uncounted.
  - intros. by apply Hs.
  - intros. apply subop_uncounted.
Qed.

Lemma child_uncounted fuel n cx c : cx_depth cx <> 0 -> keeps count_slots no_limit (fun m => m = n) (dispatch_fuel fuel cx c).
Proof.
  revert cx c. induction fuel as [|fuel IH]; intros cx c Hd; simpl; [apply keeps_throw|]. pose proof (plain_uncounted n) as Hpl.
  apply dispatch_with_keeps; [done|]. apply dispatch_now_keeps; [done|]. intros s p ph rv _ _. unfold dispatch_limited, take_limits.
  rewrite (bool_decide_false (cx_depth cx = 0)) by done. cbn [negb orb].
  apply (keeps_finally _ _ _ (dispatch_selected _ _ _ _ _ _ _)); [|apply keeps_ret]. by apply selected_uncounted.
Qed.

(** ** The top *)

Lemma always_count_call {A} o (f : DispatchAns o -> dispatch_action A) Q n :
  (forall a, always_count (f a) Q (count_slots n (ev o (Ok a)))) -> (forall e, Q (count_slots n (ev o (Raise e))) (Raise e)) ->
  always_count (call o ≫= f) Q n.
Proof. intros Hf He. split; [done|]. intros [a|e]; [apply Hf|apply He]. Qed.

Lemma always_bind_same {A B} (c : dispatch_action A) (f : A -> dispatch_action B) Q n :
  keeps count_slots no_limit (fun m => m = n) c -> (forall a, always_count (f a) Q n) -> (forall e, Q n (Raise e)) ->
  always_count (c ≫= f) Q n.
Proof. intros Hc Hf He. apply always_bind. eapply always_mono; [|by apply Hc]. intros g [a|e] ->; [apply Hf|apply He]. Qed.

(** DECR is sent once, whatever comes back; the DELETE does not count. *)
Lemma reap_counts {A} (f : unit -> dispatch_action A) Q n :
  (forall a, always_count (f a) Q (n.1, S n.2)) -> (forall e, Q (n.1, S n.2) (Raise e)) ->
  always_count (decr_and_reap valkey_decr valkey_delete key ≫= f) Q n.
Proof.
  intros Hf He. apply always_bind. unfold decr_and_reap. apply always_count_call; simpl; rewrite bool_decide_true by done; [|done].
  intros m. destruct (m <=? 0)%Z; [|apply Hf]. split; [done|]. intros [[]|e]; [apply Hf|apply He].
Qed.

Definition balanced (n : nat * nat) : Prop := n.1 = n.2.

Lemma rate_key_differs t sub b : key = concurrency_key t sub -> rate_window_key t sub b <> key.
Proof. unfold concurrency_key, rate_window_key. by intros ->. Qed.

Lemma release_balances k n : (match k with Some k => k = key /\ n.1 = S n.2 | None => balanced n end) ->
  always_count (release_slot k) (fun n _ => balanced n) n.
Proof.
  intros Hk. unfold release_slot, catch_all. apply always_try. destruct k as [k|]; [destruct Hk as [-> Hn]|exact Hk].
  unfold release_dispatch_slot. apply (always_mono _ _ _ (fun n' x => balanced n')).
  - intros n' [a|e] Hb; [done|]. by destruct (bool_decide (e = cancelled)).
  - unfold decr_and_reap. apply always_count_call; simpl; rewrite bool_decide_true by done; [|done].
    intros m. destruct (m <=? 0)%Z; [|done]. by split; [|intros [[]|e]].
Qed.

(** A slot that was taken is counted and its key handed on; otherwise nothing is. *)
Lemma take_limits_counts cx r c ph :
  cx_depth cx = 0 -> key = concurrency_key (op_tenant_id (c_operator c)) (op_sub (c_operator c)) ->
  always_count (take_limits cx r c ph)
    (fun n x => match x with
                | Ok (inr (Some k)) => k = key /\ n.1 = S n.2
                | _ => balanced n
                end) (0, 0).
Proof.
  intros Hd Hkey. pose proof (plain_uncounted (0, 0)) as Hpl. unfold take_limits. destruct (negb _ || _); [done|]. cbv zeta.
  apply always_count_call; [|done]. intros now. cbn [count_slots ev].
  assert (keeps count_slots no_limit (fun m => m = (0, 0)) (check_dispatch_rate_limit valkey_incr_expire now (op_tenant_id (c_operator c))
    (op_sub (c_operator c)) (resolve_dispatch_rate_limit limit_settings (op_tenant_id (c_operator c))))) as Hrate.
  { unfold check_dispatch_rate_limit. destruct (_ <=? 0)%Z; [apply keeps_mret|]. apply keeps_bind; [|intros; apply keeps_mret].
    apply keeps_call. intros m ->. split; [done|]. intros [x|e]; [|done]. simpl. rewrite bool_decide_false; [done|]. by apply rate_key_differs. }
  apply always_bind_same; [done| |done]. intros [n|].
  { apply always_bind_same; [by apply refuse_rate_limited_keeps|done|done]. }
  unfold acquire_dispatch_slot. set (cap := resolve_dispatch_concurrency_cap _ _). destruct (cap <=? 0)%Z; [done|]. cbv zeta. rewrite <- Hkey.
  apply always_bind, always_count_call; simpl; [|done]. intros n. rewrite bool_decide_true by done. destruct (cap <? n)%Z; [|done].
  apply reap_counts; [|done]. intros []. unfold mret at 1, action_ret at 1. cbn [always fst snd].
  apply always_bind_same; [|done|done]. apply refuse_rate_limited_keeps, plain_uncounted.
Qed.
End Slot.

(** C29. The slot a dispatch took is given back on every path: whatever the world
    answers, raises or cancels at any call, one DECR is sent to the counter of the
    caller for each INCR that was answered, the calls of children included.  (An INCR
    that the server did, but whose answer was lost, is not counted; its counter
    expires.) *)
Theorem slots_are_given_back cx c h a :
  cx_depth cx = 0 -> runs (dispatch cx c) h a ->
  let key := concurrency_key (op_tenant_id (c_operator c)) (op_sub (c_operator c)) in
  (slots_of key h).1 = (slots_of key h).2.
Proof.
  intros Hd Hrun key. assert (always (count_slots key) no_limit (dispatch cx c) (fun n _ => balanced n) (0, 0)) as Hall.
  2:{ by destruct (always_sound _ _ _ _ _ _ _ Hall Hrun). }
  unfold dispatch. generalize composite_max_depth as fuel. intros fuel. cbn [dispatch_fuel]. unfold dispatch_with.
  rewrite (bool_decide_true (cx_depth cx = 0)) by done. cbn [negb].
  pose proof (plain_uncounted key) as Hpl. apply always_count_call; [|done]. intros dr. destruct (dr && _); [done|].
  apply always_count_call; [|done]. intros u0. cbn [count_slots ev]. apply always_finally.
  eapply (always_mono _ _ _ (fun n _ => balanced n)).
  { intros n r Hn. by split; [|intros [[]|e]]. }
  unfold dispatch_now. destruct (split_reveal_secret (c_params c)) as [p rv]. destruct (parse_connector_id (c_connector_id c)) as [[pr v] im].
  apply always_count_call; [|done]. intros [r|].
  2:{ apply always_count_call; [|done]. intros m. cbv zeta. destruct (has_error_code _ _); [|done].
      eapply always_mono; [|by apply audit_denied_keeps; [apply Hpl|]]. by intros ? ? ->. }
  destruct (_ && is_license_read _ _).
  { eapply always_mono; [|by apply audit_denied_keeps; [apply Hpl|]]. by intros ? ? ->. }
  destruct (_ && descriptor_requires_target r); [done|].
  apply always_bind_same; [by apply select_catalog_keeps, Hpl| |done]. intros [s|r']; [|done].
  destruct (params_error _ _ _); [done|]. unfold dispatch_limited. apply always_bind.
  eapply always_mono; [|by apply take_limits_counts]. intros n [[r'|k]|e] Hn; [done| |done].
  apply always_finally. eapply (always_mono _ _ _ (fun m _ => m = n)).
  2:{ by apply selected_uncounted; [intros; by apply child_uncounted|]. }
  intros m x ->. eapply always_mono; [|by apply release_balances]. intros m' [u|e]; done.
Qed.

(** * The approval of a step *)

Section Resume.
(** The variable [composite_resume_var] with the calls that touch it: a read finds
    what was last written, and nothing but the clearing writes. *)
Fixpoint resume_cell (v : option (string * string)) (h : history DispatchAns Fault) : Prop :=
  match h with
  | [] => True
  | existT d_resume_get x :: h' => x = Ok v /\ resume_cell v h'
  | existT d_resume_clear _ :: h' => resume_cell None h'
  | _ :: h' => resume_cell v h'
  end.

Definition clears (h : history DispatchAns Fault) : nat :=
  length (List.filter (fun e => match e with existT d_resume_clear _ => true | _ => false end) h).

(** The value, how often it was cleared, and whether all reads found it. *)
Record Cell := { cl_value : option (string * string); cl_clears : nat; cl_sound : Prop }.

Definition track_cell (g : Cell) (e : event DispatchAns Fault) : Cell :=
  match e with
  | existT d_resume_get x => {| cl_value := cl_value g; cl_clears := cl_clears g; cl_sound := cl_sound g /\ x = Ok (cl_value g) |}
  | existT d_resume_clear _ => {| cl_value := None; cl_clears := S (cl_clears g); cl_sound := cl_sound g |}
  | _ => g
  end.

Definition cell_start (v : option (string * string)) : Cell := {| cl_value := v; cl_clears := 0; cl_sound := True |}.

Definition free (_ : Cell) (_ : DispatchOp) : Prop := True.

Lemma track_cell_spec g h :
  cl_sound g -> resume_cell (cl_value g) h ->
  cl_sound (foldl track_cell g h) /\ cl_clears (foldl track_cell g h) = cl_clears g + clears h.
Proof.
  revert g. unfold clears. induction h as [|[o x] h IH]; intros g Hs Hc; [split; [done|simpl; lia]|]. cbn [foldl].
  destruct o; try (by apply IH).
  - destruct Hc as [-> Hc]. destruct (IH (track_cell g (existT d_resume_get (Ok (cl_value g))))) as [H1 H2]; [done|done|]. by split.
  - destruct (IH (track_cell g (existT d_resume_clear x))) as [H1 H2]; [done|done|]. split; [done|]. rewrite H2. simpl. lia.
Qed.

Definition spent_once (v : option (string * string)) (g : Cell) : Prop :=
  cl_sound g -> (cl_clears g = 0 /\ cl_value g = v) \/ (cl_clears g = 1 /\ cl_value g = None /\ v <> None).

Lemma others_spend_nothing v o : o <> d_resume_clear -> neutral track_cell free (spent_once v) o.
Proof. intros Ho g Hg. split; [done|]. intros x. destruct o; try done. intros [Hs _]. by apply Hg. Qed.

Lemma plain_spends_nothing v o : plain o = true -> neutral track_cell free (spent_once v) o.
Proof. intros Ho. apply others_spend_nothing. by intros ->. Qed.

Lemma cell_call {A} o (f : DispatchAns o -> dispatch_action A) Q g :
  (forall a, always track_cell free (f a) Q (track_cell g (ev o (Ok a)))) -> (forall e, Q (track_cell g (ev o (Raise e))) (Raise e)) ->
  always track_cell free (call o ≫= f) Q g.
Proof. intros Hf He. split; [done|]. intros [a|e]; [apply Hf|apply He]. Qed.

Lemma clearing_spends_once v op p : keeps track_cell free (spent_once v) (subop_resume_cleared op p).
Proof.
  intros g Hg. unfold subop_resume_cleared. apply cell_call.
  2:{ intros e [Hs _]. by apply Hg. }
  intros r. assert (spent_once v (track_cell g (ev d_resume_get (Ok r)))) as Hg' by (intros [Hs _]; by apply Hg).
  destruct r as [[op' hash]|]; [|exact Hg']. destruct (bool_decide (op' = op) && params_hash_matches p hash); [|exact Hg'].
  assert (forall x, spent_once v (track_cell (track_cell g (ev d_resume_get (Ok (Some (op', hash))))) (ev d_resume_clear x))) as Hc.
  { intros x [Hs Hr]. injection Hr as Hr. destruct (Hg Hs) as [[Hz Hv]|(_ & Hv & _)]; [|congruence].
    right. simpl. split_and!; [by rewrite Hz|done|congruence]. }
  apply cell_call; intros; apply Hc.
Qed.

(** What lets a step run: the approval, spent on it; or the gate; or the approval of
    the whole run where that covers the step. *)
Definition step_leave (cx : Ctx) (o : Operator) (b : SubopCall) (h : history DispatchAns Fault) : Prop :=
  (exists hash, ev d_resume_get (Ok (Some (sb_op_id b, hash))) ∈ h /\ params_hash_matches (sb_params b) hash = true /\
     ev d_resume_clear (Ok tt) ∈ h) \/
  (exists now v reason,
     ev (d_gate (gate_call cx o (row (subop_row b)) (sb_target b) (sb_connector_id b) None (sb_params b) now)) (Ok (v, reason)) ∈ h /\
     (v = AUTO_EXECUTE \/
      (v = NEEDS_APPROVAL /\ covered_by_approved_run cx (sb_safety_level b) (sb_requires_approval b) = true))).

Abbreviation always_free := (always remember (fun _ _ => True)).
Definition leaves (cx : Ctx) (o : Operator) (b : SubopCall) (g : dispatch_history) (x : res Fault (option OperationResult)) : Prop :=
  match x with Ok None => step_leave cx o b g | _ => True end.

Lemma answered_leaves cx o b {A} (c : dispatch_action A) (f : A -> OperationResult) g :
  always_free (a ← c; mret (Some (f a))) (leaves cx o b) g.
Proof.
  apply always_bind. eapply (always_mono _ _ _ (fun _ _ => True)); [by intros g' [a|e]|]. clear. revert g.
  induction c as [a|op k IH]; intros g; [done|]. split; [done|]. intros x. apply IH.
Qed.

Lemma park_subop_leaves cx cx' o b g : always_free (park_subop cx' o b) (leaves cx o b) g.
Proof.
  unfold park_subop. apply always_bind. eapply (always_mono _ _ _ (fun _ _ => True)).
  { intros g' [[[r|] eff]|e] _; [apply answered_leaves| |done]. do 2 (apply always_call; [done| |done]; intros ?). done. }
  generalize g. generalize (park_screens cx' false (sb_op_id b) (sb_connector_id b) o (subop_row b) (sb_target b) (sb_params b) None).
  clear. intros p. induction p as [a|op k IH]; intros g; [done|]. split; [done|]. intros x. apply IH.
Qed.

Lemma remembered g e e' : e ∈ g \/ e = e' -> e ∈ remember g e'.
Proof. unfold remember. rewrite elem_of_app, list_elem_of_singleton. tauto. Qed.

Lemma judged_steps_have_leave cx o b early g : always_free (refuse_or_judge cx o b early) (leaves cx o b) g.
Proof.
  unfold refuse_or_judge. destruct early; [apply (answered_leaves cx o b (call d_resume_get))|]. unfold judge_subop.
  apply always_call; [done| |done]. intros now. apply always_call; [done| |done]. intros [v reason].
  cbn [fst snd]. unfold subop_verdict. destruct v; [| |apply answered_leaves].
  - right. exists now, AUTO_EXECUTE, reason. split; [apply remembered; by right|by left].
  - destruct (covered_by_approved_run _ _ _) eqn:Hcov.
    { right. exists now, NEEDS_APPROVAL, reason. split; [apply remembered; by right|by right]. }
    cbv zeta. destruct (cx_resume_scope _) as [[]|]; [|apply park_subop_leaves]. by destruct (sb_after_main_effect b); [apply park_subop_leaves|].
Qed.

Lemma steps_have_leave cx o b g : always_free (enforce_subop_policy cx o b) (leaves cx o b) g.
Proof.
  unfold enforce_subop_policy. destruct (_ && _); [done|].
  assert (forall g, always_free (early ← (if sb_after_main_effect b then mret false else resume_has_not_reached_approved_step cx);
    refuse_or_judge cx o b early) (leaves cx o b) g) as Hrest.
  { clear g. intros g. apply always_bind. destruct (sb_after_main_effect b); [apply (judged_steps_have_leave _ _ _ false)|].
    unfold resume_has_not_reached_approved_step. destruct (cx_resume_state cx) as [bound|]; [|apply (judged_steps_have_leave _ _ _ false)].
    destruct (rs_after_main_effect bound); [|apply (judged_steps_have_leave _ _ _ false)].
    apply always_call; [done| |done]. intros a. apply judged_steps_have_leave. }
  apply always_bind. unfold subop_resume_cleared. apply always_call; [done| |done]. intros [[op hash]|]; [|apply Hrest].
  destruct (bool_decide (op = sb_op_id b) && params_hash_matches (sb_params b) hash) eqn:Hm; [|apply Hrest].
  apply always_call; [done| |done]. intros []. left. to_prop. subst op. exists hash. split_and!; [|done|].
  - apply remembered. left. apply remembered. by right.
  - apply remembered. by right.
Qed.

(** C30. A step of a composite runs only when the gate lets it, when the approval of the
    whole run covers it, or under the approval the composite is resumed for, which
    is then spent.  In a whole dispatch, children and all, it is spent at most once,
    and never when there is none. *)
Theorem step_approvals_are_spent_once cx c h a v :
  (forall cx' o b hs, runs (enforce_subop_policy cx' o b) hs (Ok None) -> step_leave cx' o b hs) /\
  (runs (dispatch cx c) h a -> resume_cell v h -> clears h <= 1 /\ (v = None -> clears h = 0)).
Proof.
  split.
  { intros cx' o b hs Hr. pose proof (always_sound _ _ _ _ _ _ _ (steps_have_leave cx' o b []) Hr) as [Hl _].
    by rewrite foldl_remember in Hl. }
  intros Hrun Hc. pose proof (plain_spends_nothing v) as Hpl.
  assert (keeps track_cell free (spent_once v) (dispatch cx c)) as Hk.
  { apply dispatch_keeps; try (intros; by apply others_spend_nothing); [done| |].
    - intros. apply handle_needs_approval_keeps; [done|]. intros. apply store_request_keeps; [done|]. intros. by apply others_spend_nothing.
    - intros. apply enforce_subop_keeps; [done|by apply others_spend_nothing|apply clearing_spends_once|].
      intros. apply park_subop_keeps; [done|]. intros. by apply others_spend_nothing. }
  assert (spent_once v (cell_start v)) as H0 by (by left).
  destruct (always_sound _ _ _ _ _ _ _ (Hk _ H0) Hrun) as [Hs _].
  destruct (track_cell_spec (cell_start v) h I Hc) as [Hsound Hn]. simpl in Hn.
  destruct (Hs Hsound) as [[Hz _]|(Hz & _ & Hv)]; rewrite Hn in Hz; split; try lia. done.
Qed.
End Resume.
End Answers.

(** * The theorems on concrete runs *)




(** The slot of the caller was counted up once, and down once. *)
Lemma slots_are_given_back_witness :
  slots_of (concurrency_key "t1" "ann") (ex_history ex_drain_call) = (1, 1) /\
  (slots_of (concurrency_key "t1" "ann") (ex_history ex_drain_call)).1 = (slots_of (concurrency_key "t1" "ann") (ex_history ex_drain_call)).2.
Proof. split; [by vm_compute|]. by apply (slots_are_given_back ex_cx ex_drain_call _ _ eq_refl (ex_runs ex_drain_call)). Defined.

(** A composite resumed for its step asks for leave twice: the first time spends the
    approval, the second has to wait. *)
Definition ex_resumed_history : history DispatchAns Fault := (ex_run_from ex_resumed ex_evict_call).1.2.
Definition status_of (x : res Fault OperationResult) : option string := match x with Ok r => Some (r_status r) | Raise _ => None end.

Lemma step_approvals_are_spent_once_witness :
  status_of (ex_run_from ex_resumed ex_evict_call).2 = Some "awaiting_approval" /\
  resume_cell (xw_resume ex_resumed) ex_resumed_history /\ clears ex_resumed_history = 1 /\ clears ex_resumed_history <= 1.
Proof.
  assert (resume_cell (xw_resume ex_resumed) ex_resumed_history) as Hc by (vm_compute; repeat split).
  split; [by vm_compute|]. split; [done|]. split; [by vm_compute|].
  by destruct (proj2 (step_approvals_are_spent_once ex_cx ex_evict_call _ _ _) (ex_runs_from ex_resumed ex_evict_call) Hc).
Defined.
