(* ===== verification/IngestedRequests.v ===== *)
(** The requests of ingested operations ([operations/_branches.py],
    [operations/_rfc6570.py]): the split of the params, the expansion of the path
    template, the request that is sent or previewed, and the pages of a listing. *)

From S2P Require Import Prelude Json SecretNames SecretValues Programs.

(** * Percent-encoding ([urllib.parse]) *)

Definition is_unreserved (c : ascii) : bool :=
  let n := nat_of_ascii c in
  ((48 <=? n) && (n <=? 57)) || ((65 <=? n) && (n <=? 90)) || ((97 <=? n) && (n <=? 122)) || has_char c "_.-~".

(** The UTF-8 bytes of a code point below 256. *)
Definition utf8 (c : ascii) : string :=
  let n := nat_of_ascii c in
  if n <? 128 then String c ""
  else String (ascii_of_nat (192 + n / 64)) (String (ascii_of_nat (128 + n mod 64)) "").

Definition upper_hex (n : nat) : ascii := ascii_of_nat (if n <? 10 then 48 + n else 55 + n).

Definition percent (b : ascii) : string :=
  let n := nat_of_ascii b in String "%" (String (upper_hex (n / 16)) (String (upper_hex (n mod 16)) "")).

Fixpoint quote_bytes (safe s : string) : string :=
  match s with
  | EmptyString => ""
  | String b s' => (if is_unreserved b || has_char b safe then String b "" else percent b) +:+ quote_bytes safe s'
  end.

Fixpoint encode_utf8 (s : string) : string :=
  match s with EmptyString => "" | String c s' => utf8 c +:+ encode_utf8 s' end.

Definition quote (safe s : string) : string := quote_bytes safe (encode_utf8 s).

Definition hex_value (c : ascii) : option nat :=
  let n := nat_of_ascii c in
  if (48 <=? n) && (n <=? 57) then Some (n - 48)
  else if (65 <=? n) && (n <=? 70) then Some (n - 55)
  else if (97 <=? n) && (n <=? 102) then Some (n - 87)
  else None.

(** [unquote], up to the decoding of the bytes above 127, which stay bytes here: it
    never yields a dot or a slash. *)
Fixpoint unquote (s : string) : string :=
  match s with
  | EmptyString => ""
  | String c s' =>
      match s' with
      | String a (String b s'') =>
          match (if Ascii.eqb c "%" then hex_value a else None), hex_value b with
          | Some x, Some y => String (ascii_of_nat (16 * x + y)) (unquote s'')
          | _, _ => String c (unquote s')
          end
      | _ => String c (unquote s')
      end
  end.

(** * Path templates *)

Definition RFC6570_PATH_OPERATORS : string := "+#./;?&".

Definition split_path_operator (name : string) : option ascii * string :=
  match name with
  | String c (String d s) => if has_char c RFC6570_PATH_OPERATORS then (Some c, String d s) else (None, name)
  | _ => (None, name)
  end.

(** [has_dot_segment]: a segment that is two dots, after one decoding. *)
Definition is_parent (segment : string) : bool := bool_decide (segment = "..").
Definition has_dot_segment (value : string) : bool := existsb is_parent (split_on "/" (unquote value)).

(** [_PATH_VAR_RE]: a non-empty text without braces, in braces. *)
Fixpoint until_close (s : string) : option (string * string) :=
  match s with
  | EmptyString => None
  | String c s' =>
      if Ascii.eqb c "}" then Some ("", s')
      else if Ascii.eqb c "{" then None
      else match until_close s' with Some (body, rest) => Some (String c body, rest) | None => None end
  end.

Definition PATH_VAR_RE (s : string) : option ((option ascii * string) * string) :=
  match s with
  | String "{" s' =>
      match until_close s' with
      | Some (String c body, rest) => Some (split_path_operator (String c body), rest)
      | _ => None
      end
  | _ => None
  end.

Definition RFC6570_RESERVED_SAFE : string := ":/[]@!$&'()*+,;=".

Inductive RequestFault :=
| KeyError (name : string)
| ValueError (name : string)
| RuntimeError
| AttributeError.

Definition is_reserved (operator : option ascii) : bool :=
  match operator with Some c => has_char c "+#" | None => false end.

Definition safe_of (operator : option ascii) : string := if is_reserved operator then RFC6570_RESERVED_SAFE else "".

Definition replace (path_params : list (string * json)) (v : option ascii * string) : res RequestFault string :=
  let '(operator, name) := v in
  match dict_get name path_params with
  | None => Raise (KeyError name)
  | Some x => let value := py_str x in
              if has_dot_segment value then Raise (ValueError name) else Ok (quote (safe_of operator) value)
  end.

Definition substitute_path (path_template : string) (path_params : list (string * json)) : res RequestFault string :=
  re_sub PATH_VAR_RE (replace path_params) path_template.

Example expands : substitute_path "/a/{id}/b/{+rest}" [("id", JStr "x/y z"); ("rest", JStr "p/q?r")] = Ok "/a/x%2Fy%20z/b/p/q%3Fr".
Proof. reflexivity. Qed.
Example traversal_refused : substitute_path "/a/{id}" [("id", JStr "%2e%2E/x")] = Raise (ValueError "id").
Proof. reflexivity. Qed.

(** * The split of the params *)

Definition PARAM_LOC_KEY : string := "x-meho-param-loc".

Record Buckets := {
  path_params : json_dict;
  query_params : json_dict;
  header_params : json_dict;
  body_params : json_dict;
}.
Definition no_params : Buckets := {| path_params := []; query_params := []; header_params := []; body_params := [] |}.

(** [d.get(k)] of a value that is a dict or falsy; a truthy value of another type has
    no [get]. *)
Definition get_or_empty (v : json) : res RequestFault json_dict :=
  match v with
  | JDict d => Ok d
  | _ => if truthy v then Raise AttributeError else Ok []
  end.

Inductive Location := in_path | in_query | in_header | in_body.
#[export] Instance Location_eq_dec : EqDecision Location.
Proof. solve_decision. Defined.

Definition location_of (props : json_dict) (name : string) : res RequestFault Location :=
  prop ← get_or_empty (default JNull (dict_get name props));
  Ok (match dict_get PARAM_LOC_KEY prop with
      | Some (JStr "path") => in_path
      | Some (JStr "header") => in_header
      | Some (JStr "body") => in_body
      | _ => in_query
      end).

Definition add_param (kv : string * json) (l : Location) (b : Buckets) : Buckets :=
  match l with
  | in_path => {| path_params := kv :: path_params b; query_params := query_params b; header_params := header_params b; body_params := body_params b |}
  | in_query => {| path_params := path_params b; query_params := kv :: query_params b; header_params := header_params b; body_params := body_params b |}
  | in_header => {| path_params := path_params b; query_params := query_params b; header_params := kv :: header_params b; body_params := body_params b |}
  | in_body => {| path_params := path_params b; query_params := query_params b; header_params := header_params b; body_params := kv :: body_params b |}
  end.

Fixpoint split_by_location (props : json_dict) (params : json_dict) : res RequestFault Buckets :=
  match params with
  | [] => Ok no_params
  | kv :: rest =>
      l ← location_of props kv.1;
      b ← split_by_location props rest;
      Ok (add_param kv l b)
  end.

Definition split_ingested_params (parameter_schema : json) (params : json_dict) : res RequestFault Buckets :=
  schema ← get_or_empty parameter_schema;
  props ← get_or_empty (default JNull (dict_get "properties" schema));
  split_by_location props params.

(** The value of the one body parameter. *)
Definition unwrap_body (body_params : json_dict) : res RequestFault (option json) :=
  match body_params with
  | [] => Ok None
  | [(_, v)] => Ok (Some v)
  | _ => Raise RuntimeError
  end.

(** * The request *)

Record IngestedRequest := {
  method : string;
  path : string;
  query : option json_dict;
  body : option json;
  headers : option json_dict;
}.

Definition or_none (d : json_dict) : option json_dict := match d with [] => None | _ => Some d end.

(** A connector, as far as an ingested request asks: whether it maps paths, has the
    two transports, and how its listings are paged. *)
Record Pagination := { items_key : string; req_param : string; resp_field : string }.
Record IngestedConnector := {
  has_mount : bool;
  has_request_json : bool;
  has_post_json : bool;
  cursor_pagination : option Pagination;
}.

(** [str.upper] of an ASCII text. *)
Definition upper_letter (c : ascii) : ascii :=
  let n := nat_of_ascii c in if (97 <=? n) && (n <=? 122) then ascii_of_nat (n - 32) else c.
Fixpoint upper (s : string) : string := match s with EmptyString => "" | String c s' => String (upper_letter c) (upper s') end.

Section Resolve.
Context {Op : Type} {Ans : Op -> Type} {E : Type}.
(** How the program raises, and the [mount_op_path] of the connector, where it has
    one. *)
Context (fault : RequestFault -> E) (mount_op_path : option (string -> action Ans E string)).

Definition lift_fault {A} (r : res RequestFault A) : action Ans E A :=
  match r with Ok a => mret a | Raise e => throw (fault e) end.

Definition request_of (method substituted : string) (buckets : Buckets) : action Ans E IngestedRequest :=
  body ← lift_fault (unwrap_body (body_params buckets));
  mret {| method := method; path := substituted; query := or_none (query_params buckets); body := body;
          headers := or_none (header_params buckets) |}.

Definition resolve_ingested_request (descriptor_method descriptor_path : option string) (parameter_schema : json)
  (params : json_dict) : action Ans E IngestedRequest :=
  let method := upper (default "" descriptor_method) in
  let path_template := default "" descriptor_path in
  if bool_decide (method = "") || bool_decide (path_template = "") then throw (fault RuntimeError)
  else
    buckets ← lift_fault (split_ingested_params parameter_schema params);
    substituted ← lift_fault (substitute_path path_template (path_params buckets));
    substituted ← (match mount_op_path with Some mount => mount substituted | None => mret substituted end);
    request_of method substituted buckets.
End Resolve.

(** * Sending it *)

(** What an ingested operation calls: the mount of its connector and the two
    transports. *)
Inductive TransportOp :=
| t_mount (path : string)
| t_request_json (r : IngestedRequest)
| t_post_json (r : IngestedRequest).

Definition TransportAns (o : TransportOp) : Type := match o with t_mount _ => string | _ => json end.

(** A fault of the request, or an exception of the connector. *)
Inductive TransportFault := request_fault (e : RequestFault) | transport_exception.

Abbreviation transport := (action TransportAns TransportFault).

Definition with_query (q : option json_dict) (r : IngestedRequest) : IngestedRequest := {|
  method := method r; path := path r; query := q; body := body r; headers := headers r |}.

Definition get_field (k : string) (payload : json) : json := match payload with JDict d => default JNull (dict_get k d) | _ => JNull end.

Definition rows_of (p : Pagination) (payload : json) : list json :=
  match get_field (items_key p) payload with JList rows => rows | _ => [] end.

(** The token of the next page. *)
Definition next_token (p : Pagination) (payload : json) : option string :=
  let token := get_field (resp_field p) payload in if truthy token then Some (py_str token) else None.

Definition page_query (p : Pagination) (page_token : option string) (r : IngestedRequest) : option json_dict :=
  let query := default [] (query r) in
  or_none (match page_token with
           | None | Some "" => query
           | Some token => dict_put (req_param p) (JStr token) query
           end).

(** The [while True] of [_dispatch_ingested_cursor_token]; [None] when [fuel] pages
    are not enough. *)
Fixpoint cursor_loop (fuel : nat) (p : Pagination) (r : IngestedRequest) (page_token : option string) (rows : list json)
  : transport (option json_dict) :=
  match fuel with
  | 0 => mret None
  | S fuel =>
      payload ← invoke (t_request_json (with_query (page_query p page_token r) r));
      let rows := rows ++ rows_of p payload in
      match next_token p payload with
      | None => mret (Some (dict_put "total" (JInt (Z.of_nat (length rows))) [(items_key p, JList rows)]))
      | Some token => cursor_loop fuel p r (Some token) rows
      end
  end.

Definition is_idempotent (method : string) : bool := bool_decide (method ∈ ["GET"; "HEAD"; "OPTIONS"]).

(** [dispatch_ingested]; [None] only when [fuel] pages are not enough. *)
Definition dispatch_ingested (fuel : nat) (connector : IngestedConnector) (descriptor_method descriptor_path : option string)
  (parameter_schema : json) (params : json_dict) : transport (option json) :=
  let mount := if has_mount connector then Some (fun path => invoke (t_mount path)) else None in
  request ← resolve_ingested_request request_fault mount descriptor_method descriptor_path parameter_schema params;
  if is_idempotent (method request) then
    if negb (has_request_json connector) then throw (request_fault RuntimeError)
    else match cursor_pagination connector with
         | Some p => all ← cursor_loop fuel p request None []; mret (match all with Some d => Some (JDict d) | None => None end)
         | None => payload ← invoke (t_request_json request); mret (Some payload)
         end
  else if negb (has_post_json connector) then throw (request_fault RuntimeError)
  else payload ← invoke (t_post_json request); mret (Some payload).
(** * The path stays in its template *)

Lemma split_on_nonempty c s : split_on c s <> [].
Proof. destruct s as [|d s]; [done|]. unfold split_on. simpl. destruct (Ascii.eqb c d); [done|]. by destruct (split_by _ s). Qed.

(** Text before the separator joins the first part. *)
Definition prefix_first (a : string) (l : list string) : list string := match l with x :: rest => (a +:+ x) :: rest | [] => [a] end.

Lemma split_on_prefix c a s : has_char c a = false -> split_on c (a +:+ s) = prefix_first a (split_on c s).
Proof.
  intros Ha. induction a as [|d a IH].
  { change ("" +:+ s) with s. pose proof (split_on_nonempty c s). destruct (split_on c s); done. }
  apply has_char_cons_false in Ha as [Hd Ha]. rewrite string_app_cons. unfold split_on in *. cbn [split_by].
  rewrite (proj2 (Ascii.eqb_neq c d)) by congruence. rewrite IH by done.
  pose proof (split_on_nonempty c s) as Hn. unfold split_on in Hn. by destruct (split_by (Ascii.eqb c) s).
Qed.

Lemma split_on_sep c a b : split_on c (a +:+ String c b) = split_on c a ++ split_on c b.
Proof.
  induction a as [|d a IH]; [unfold split_on; simpl; by rewrite Ascii.eqb_refl|]. rewrite string_app_cons. unfold split_on in *. cbn [split_by].
  destruct (Ascii.eqb c d); [by rewrite IH|]. rewrite IH. pose proof (split_on_nonempty c a) as Hn. unfold split_on in Hn.
  by destruct (split_by (Ascii.eqb c) a).
Qed.

Lemma split_on_cases c s :
  (has_char c s = false /\ split_on c s = [s]) \/
  exists a b, s = a +:+ String c b /\ has_char c a = false /\ split_on c s = a :: split_on c b.
Proof.
  induction s as [|d s IH]; [by left|]. destruct (Ascii.eqb_spec c d) as [<-|Hd].
  { right. exists "", s. split; [done|]. split; [done|]. unfold split_on. simpl. by rewrite Ascii.eqb_refl. }
  destruct IH as [[Hc Hs]|(a & b & -> & Ha & Hs)].
  - left. assert (has_char c (String d s) = false) as Hcd by (by apply has_char_cons_false). split; [done|]. by apply split_on_none.
  - right. exists (String d a), b. split; [done|]. assert (has_char c (String d a) = false) as Hda by (by apply has_char_cons_false).
    split; [done|]. change (String d (a +:+ String c b)) with (String d a +:+ String c b). by rewrite split_on_app.
Qed.

(** ** Encoding *)

Definition coded (c : ascii) : bool := is_unreserved c || Ascii.eqb c "%".

Lemma percent_coded b : all_chars coded (percent b) = true.
Proof. by destruct b as [[] [] [] [] [] [] [] []]. Qed.

Lemma all_chars_app p a b : all_chars p (a +:+ b) = all_chars p a && all_chars p b.
Proof. induction a as [|c a IH]; [done|]. rewrite string_app_cons. simpl. by rewrite IH, andb_assoc. Qed.

Lemma all_chars_absent p s c : all_chars p s = true -> p c = false -> has_char c s = false.
Proof.
  intros Hs Hc. induction s as [|d s IH]; [done|]. simpl in Hs. apply andb_true_iff in Hs as [Hd Hs].
  apply has_char_cons_false. split; [by intros ->; rewrite Hd in Hc|by apply IH].
Qed.

Lemma all_chars_weaken (p q : ascii -> bool) s : (forall c, p c = true -> q c = true) -> all_chars p s = true -> all_chars q s = true.
Proof.
  intros Hpq. induction s as [|c s IH]; [done|]. simpl. intros [Hc Hs]%andb_true_iff. apply andb_true_iff. auto.
Qed.

Lemma quote_coded safe s : all_chars (fun c => coded c || has_char c safe) (quote safe s) = true.
Proof.
  unfold quote. induction (encode_utf8 s) as [|b t IH]; [done|]. cbn [quote_bytes]. rewrite all_chars_app, IH, andb_true_r.
  destruct (is_unreserved b || has_char b safe) eqn:Hb.
  - simpl. unfold coded. apply orb_true_iff in Hb as [->| ->]; by rewrite ?orb_true_r.
  - eapply all_chars_weaken; [|apply percent_coded]. by intros c ->.
Qed.

Lemma quote_absent safe s c : coded c = false -> has_char c safe = false -> has_char c (quote safe s) = false.
Proof. intros Hc Hs. eapply all_chars_absent; [apply quote_coded|]. simpl. by rewrite Hc, Hs. Qed.

Lemma safe_of_marks op : has_char "?" (safe_of op) = false /\ has_char "#" (safe_of op) = false /\ has_char "%" (safe_of op) = false.
Proof. unfold safe_of. by destruct (is_reserved op). Qed.

(** ** Decoding *)

Lemma unquote_percent b t : unquote (percent b +:+ t) = String b (unquote t).
Proof. by destruct b as [[] [] [] [] [] [] [] []]. Qed.

Lemma unquote_plain c t : c <> "%"%char -> unquote (String c t) = String c (unquote t).
Proof. intros Hc. simpl. rewrite (proj2 (Ascii.eqb_neq c "%")) by done. by destruct t as [|? [|? ?]]. Qed.

Lemma unquote_quote op s t : unquote (quote (safe_of op) s +:+ t) = encode_utf8 s +:+ unquote t.
Proof.
  destruct (safe_of_marks op) as (_ & _ & Hp). unfold quote. induction (encode_utf8 s) as [|b u IH]; [done|]. cbn [quote_bytes].
  destruct (is_unreserved b || has_char b (safe_of op)) eqn:Hb.
  - assert (b <> "%"%char) as Hn by (intros ->; rewrite Hp in Hb; done).
    rewrite !string_app_cons. cbn [String.append]. rewrite unquote_plain by done. by f_equal.
  - rewrite string_app_assoc, unquote_percent, IH. done.
Qed.

Lemma unquote_hex x y h h' s :
  hex_value x = Some h -> hex_value y = Some h' ->
  unquote (String "%" (String x (String y s))) = String (ascii_of_nat (16 * h + h')) (unquote s).
Proof. intros Hx Hy. cbn [unquote]. by rewrite Ascii.eqb_refl, Hx, Hy. Qed.

Lemma unquote_stuck c x y s :
  hex_value x = None \/ hex_value y = None ->
  unquote (String c (String x (String y s))) = String c (unquote (String x (String y s))).
Proof. intros H. cbn [unquote]. destruct (Ascii.eqb c "%"); [|done]. destruct H as [->| ->]; [done|]. by destruct (hex_value x). Qed.

Lemma unquote_slash a b : unquote (a +:+ String "/" b) = unquote a +:+ String "/" (unquote b).
Proof.
  remember (String.length a) as n eqn:Hn. assert (String.length a <= n) as Hle by lia. clear Hn.
  assert (unquote (String "/" b) = String "/" (unquote b)) as Hb by (by apply unquote_plain).
  revert a Hle. induction n as [|n IH]; intros a Hle.
  { destruct a; [done|simpl in Hle; lia]. }
  destruct a as [|c a]; [done|]. simpl in Hle.
  assert (unquote (a +:+ String "/" b) = unquote a +:+ String "/" (unquote b)) as Ha by (apply IH; lia).
  destruct (Ascii.eqb_spec c "%") as [->|Hc].
  2:{ rewrite string_app_cons, !unquote_plain by done. by rewrite Ha. }
  destruct a as [|x a].
  { destruct b as [|y b]; [done|]. change (unquote (String "%" (String "/" (String y b))) = String "%" (String "/" (unquote (String y b)))).
    rewrite unquote_stuck by (by left). by rewrite Hb. }
  destruct a as [|y a].
  { change (unquote (String "%" (String x (String "/" b))) = String "%" (unquote (String x "") +:+ String "/" (unquote b))).
    rewrite unquote_stuck by (by right). by f_equal. }
  rewrite string_app_cons in Ha |- *. rewrite string_app_cons in Ha |- *. rewrite string_app_cons.
  destruct (hex_value x) as [h|] eqn:Hx; [destruct (hex_value y) as [h'|] eqn:Hy|].
  - rewrite !(unquote_hex _ _ _ _ _ Hx Hy). rewrite IH by (simpl in Hle; lia). done.
  - rewrite !unquote_stuck by auto. by rewrite Ha.
  - rewrite !unquote_stuck by auto. by rewrite Ha.
Qed.

(** A parent segment is one after a decoding too. *)
Lemma parent_decoded s : ".." ∈ split_on "/" s -> ".." ∈ split_on "/" (unquote s).
Proof.
  remember (String.length s) as n eqn:Hn. assert (String.length s <= n) as Hle by lia. clear Hn.
  revert s Hle. induction n as [|n IH]; intros s Hle.
  { destruct s; [|simpl in Hle; lia]. done. }
  destruct (split_on_cases "/" s) as [[_ ->]|(a & b & -> & _ & ->)].
  - intros Hs%list_elem_of_singleton. subst s. by apply list_elem_of_singleton.
  - intros [<-|Hb]%elem_of_cons; rewrite unquote_slash, split_on_sep; apply elem_of_app; [left; by apply list_elem_of_singleton|].
    right. apply IH; [|done]. rewrite string_app_length in Hle. simpl in Hle. lia.
Qed.

(** ** Expansion *)

(** A character of the template, or a placeholder. *)
Definition piece : Type := ascii + (option ascii * string).

Definition is_slash (p : piece) : bool := match p with inl c => Ascii.eqb c "/" | inr _ => false end.

(** The segments of a template: the placeholders count as text. *)
Fixpoint segments (l : list piece) : list (list piece) :=
  match l with
  | [] => [[]]
  | p :: l' =>
      if is_slash p then [] :: segments l'
      else match segments l' with [] => [[p]] | x :: rest => (p :: x) :: rest end
  end.

Definition param_text (params : json_dict) (name : string) : string := py_str (default JNull (dict_get name params)).

(** A piece on the wire, and as the server decodes it. *)
Definition expand (params : json_dict) (p : piece) : string :=
  match p with inl c => String c "" | inr (operator, name) => quote (safe_of operator) (param_text params name) end.
Definition meant (params : json_dict) (p : piece) : string :=
  match p with inl c => String c "" | inr (_, name) => encode_utf8 (param_text params name) end.

Fixpoint text_of (f : piece -> string) (l : list piece) : string :=
  match l with [] => "" | p :: l' => f p +:+ text_of f l' end.

Definition template_pieces (path_template : string) : list piece := scan PATH_VAR_RE path_template.

(** The text of the template outside its placeholders. *)
Definition literal_text (l : list piece) : string := text_of (fun p => match p with inl c => String c "" | inr _ => "" end) l.

Definition is_literal (p : piece) : bool := match p with inl _ => true | inr _ => false end.

(** Each placeholder fills its segment. *)
Definition whole_segments (l : list piece) : bool :=
  forallb (fun seg => match seg with [inr _] => true | _ => forallb is_literal seg end) (segments l).

(** The template itself leaves no directory and encodes nothing. *)
Definition plain_literals (l : list piece) : bool :=
  negb (has_char "%" (literal_text l)) && forallb (fun seg => negb (is_parent (literal_text seg))) (segments l).

Definition all_simple (l : list piece) : bool :=
  forallb (fun p => match p with inl _ => true | inr (operator, _) => negb (is_reserved operator) end) l.

Lemma substituted params l p :
  sub_segments (replace params) l = Ok p ->
  p = text_of (expand params) l /\
  Forall (fun q => match q with inl _ => True | inr (_, name) => has_dot_segment (param_text params name) = false end) l.
Proof.
  revert p. induction l as [|[c|[op name]] l IH]; intros p; simpl.
  - by intros [= <-].
  - destruct (sub_segments _ l) as [t|e]; [|done]. intros [= <-]. destruct (IH t eq_refl) as [-> Hl]. split; [done|]. by constructor.
  - destruct (dict_get name params) as [x|] eqn:Hx; [|done]. assert (param_text params name = py_str x) as Ht by (unfold param_text; by rewrite Hx).
    cbn [mbind res_bind]. destruct (has_dot_segment (py_str x)) eqn:Hd; [done|]. cbn. destruct (sub_segments _ l) as [t|e]; [|done].
    intros [= <-]. destruct (IH t eq_refl) as [-> Hl]. rewrite Ht. split; [done|]. constructor; [by rewrite Ht|exact Hl].
Qed.

Lemma expansion_mark params l c :
  coded c = false -> (forall op, has_char c (safe_of op) = false) ->
  has_char c (text_of (expand params) l) = has_char c (literal_text l).
Proof.
  intros Hc Hs. induction l as [|[d|[op name]] l IH]; [done| |]; simpl; rewrite has_char_app, IH; [done|].
  by rewrite quote_absent.
Qed.

Lemma expansion_segments params l :
  all_simple l = true -> split_on "/" (text_of (expand params) l) = text_of (expand params) <$> segments l.
Proof.
  induction l as [|p l IH]; [done|]. cbn [all_simple forallb]. intros [Hp Hl]%andb_true_iff. specialize (IH Hl). cbn [segments text_of].
  destruct (is_slash p) eqn:Hsl.
  - destruct p as [c|]; [|done]. apply Ascii.eqb_eq in Hsl as ->. cbn [expand]. change (String "/" "" +:+ text_of (expand params) l) with (String "/" (text_of (expand params) l)).
    change (String "/" (text_of (expand params) l)) with ("" +:+ String "/" (text_of (expand params) l)). rewrite split_on_app by done. by rewrite IH.
  - assert (has_char "/" (expand params p) = false) as Hx.
    { destruct p as [c|[op name]]; [apply has_char_cons_false; by apply Ascii.eqb_neq in Hsl|].
      apply negb_true_iff in Hp. apply quote_absent; [done|]. unfold safe_of. by rewrite Hp. }
    rewrite split_on_prefix, IH by done. destruct (segments l); [|done]. cbn. by rewrite string_app_nil.
Qed.

Lemma decoded_expansion params l :
  has_char "%" (literal_text l) = false -> unquote (text_of (expand params) l) = text_of (meant params) l.
Proof.
  induction l as [|[c|[op name]] l IH]; intros Hl; [done| |]; cbn [text_of expand meant].
  - unfold literal_text in Hl. cbn [text_of] in Hl. change (String c "" +:+ ?x) with (String c x) in Hl |- *.
    apply has_char_cons_false in Hl as [Hc Hl]. change (String c "" +:+ text_of (expand params) l) with (String c (text_of (expand params) l)).
    rewrite unquote_plain by done. by rewrite IH.
  - by rewrite unquote_quote, IH.
Qed.

(** ** No parent segments *)

Lemma utf8_cases c : utf8 c = String c "" \/ exists b b', utf8 c = String b (String b' "") /\ b <> "."%char.
Proof. destruct c as [[] [] [] [] [] [] [] []]; first [by left | right; eexists _, _; split; [reflexivity|done]]. Qed.

Lemma utf8_slash c : c <> "/"%char -> has_char "/" (utf8 c) = false.
Proof. by destruct c as [[] [] [] [] [] [] [] []]. Qed.

Lemma encode_parent s : encode_utf8 s = ".." -> s = "..".
Proof.
  destruct s as [|c s]; [done|]. cbn [encode_utf8]. destruct (utf8_cases c) as [->|(b & b' & -> & Hb)].
  2:{ rewrite string_app_cons. by intros [= -> _]. }
  rewrite string_app_cons. intros [= -> Hs]. f_equal. change ("" +:+ encode_utf8 s) with (encode_utf8 s) in Hs.
  destruct s as [|d s]; [done|]. cbn [encode_utf8] in Hs. destruct (utf8_cases d) as [Hd|(b & b' & Hd & Hb)]; rewrite Hd, string_app_cons in Hs.
  2:{ by injection Hs as -> _. }
  injection Hs as -> Hs. change ("" +:+ encode_utf8 s) with (encode_utf8 s) in Hs. destruct s as [|e s]; [done|].
  cbn [encode_utf8] in Hs. by destruct (utf8_cases e) as [He|(b & b' & He & _)]; rewrite He in Hs.
Qed.

Lemma split_encoded s : split_on "/" (encode_utf8 s) = encode_utf8 <$> split_on "/" s.
Proof.
  induction s as [|c s IH]; [done|]. cbn [encode_utf8]. destruct (Ascii.eqb_spec c "/") as [->|Hc].
  - change (utf8 "/" +:+ encode_utf8 s) with ("" +:+ String "/" (encode_utf8 s)). change (String "/" s) with ("" +:+ String "/" s).
    rewrite !split_on_app by done. by rewrite IH.
  - rewrite split_on_prefix by (by apply utf8_slash). change (String c s) with (String c "" +:+ s).
    rewrite (split_on_prefix "/" (String c "")) by (by apply has_char_cons_false). rewrite IH.
    destruct (split_on "/" s); [|done]. cbn. by rewrite string_app_nil.
Qed.

Lemma existsb_false_iff {A} (p : A -> bool) l : existsb p l = false <-> forall x, x ∈ l -> p x = false.
Proof.
  induction l as [|a l IH]; cbn [existsb]; [split; [by intros _ x Hx%elem_of_nil|done]|]. rewrite orb_false_iff, IH. split.
  - intros [Ha Hl] x [->|Hx]%elem_of_cons; auto.
  - intros Hx. split; [apply Hx; by left|]. intros x Hin. apply Hx. by right.
Qed.

Lemma value_parents v : has_dot_segment v = false -> ".." ∉ split_on "/" (encode_utf8 v).
Proof.
  intros Hd Hin. rewrite split_encoded in Hin. apply list_elem_of_fmap in Hin as (x & Hx & Hin). symmetry in Hx. apply encode_parent in Hx as ->.
  apply parent_decoded in Hin. unfold has_dot_segment in Hd. rewrite existsb_false_iff in Hd. apply Hd in Hin. done.
Qed.

Lemma segments_join f l :
  f (inl "/"%char) = "/" -> text_of f l = join "/" (text_of f <$> segments l) /\ segments l <> [].
Proof.
  intros Hf. induction l as [|p l [IH Hne]]; [done|]. cbn [text_of segments]. destruct (is_slash p) eqn:Hs.
  - destruct p as [c|]; [|done]. apply Ascii.eqb_eq in Hs as ->. rewrite Hf, IH. split; [|done]. by destruct (segments l).
  - rewrite IH. destruct (segments l) as [|x rest]; [done|]. split; [|done]. cbn [fmap list_fmap text_of].
    destruct rest as [|y rest]; [done|]. cbn [fmap list_fmap join]. by rewrite string_app_assoc.
Qed.

Lemma elem_of_split_join x parts : parts <> [] -> x ∈ split_on "/" (join "/" parts) -> exists part, part ∈ parts /\ x ∈ split_on "/" part.
Proof.
  induction parts as [|p parts IH]; [done|]. intros _. destruct parts as [|q parts].
  { intros Hx. exists p. split; [by left|done]. }
  change (join "/" (p :: q :: parts)) with (p +:+ String "/" (join "/" (q :: parts))). rewrite split_on_sep.
  intros [Hx|Hx]%elem_of_app; [exists p; split; [by left|done]|]. destruct (IH ltac:(done) Hx) as (part & Hin & Hp). exists part. split; [by right|done].
Qed.

Lemma segments_pieces l seg : seg ∈ segments l -> forall p, p ∈ seg -> p ∈ l /\ is_slash p = false.
Proof.
  revert seg. induction l as [|p l IH]; intros seg; cbn [segments].
  { intros ->%list_elem_of_singleton p Hp. by apply elem_of_nil in Hp. }
  destruct (is_slash p) eqn:Hs.
  - intros [->|Hin]%elem_of_cons q Hq; [by apply elem_of_nil in Hq|]. destruct (IH _ Hin q Hq). split; [by right|done].
  - destruct (segments l) as [|x rest] eqn:El.
    + intros ->%list_elem_of_singleton q ->%list_elem_of_singleton. split; [by left|done].
    + intros [->|Hin]%elem_of_cons q Hq.
      * apply elem_of_cons in Hq as [->|Hq]; [split; [by left|done]|]. destruct (IH x ltac:(by left) q Hq). split; [by right|done].
      * destruct (IH seg ltac:(by right) q Hq). split; [by right|done].
Qed.

Lemma literal_segment params seg :
  forallb is_literal seg = true -> (forall p, p ∈ seg -> is_slash p = false) ->
  text_of (meant params) seg = literal_text seg /\ has_char "/" (literal_text seg) = false.
Proof.
  induction seg as [|[c|v] seg IH]; [done| |done]. cbn [forallb is_literal andb]. intros Hl Hp.
  destruct IH as [H1 H2]; [done|intros; apply Hp; by right|]. unfold literal_text in *. cbn [text_of meant]. rewrite H1. split; [done|].
  apply has_char_cons_false. split; [|done]. specialize (Hp (inl c) ltac:(by left)). by apply Ascii.eqb_neq in Hp.
Qed.

Lemma meant_parents params l :
  whole_segments l = true -> plain_literals l = true ->
  Forall (fun q => match q with inl _ => True | inr (_, name) => has_dot_segment (param_text params name) = false end) l ->
  ".." ∉ split_on "/" (text_of (meant params) l).
Proof.
  intros Hw [_ Hl]%andb_true_iff Hv Hin. destruct (segments_join (meant params) l eq_refl) as [Hj Hne]. rewrite Hj in Hin.
  apply elem_of_split_join in Hin as (part & Hpart & Hin); [|by destruct (segments l)].
  apply list_elem_of_fmap in Hpart as (seg & -> & Hseg). unfold whole_segments in Hw. rewrite forallb_forall in Hw, Hl.
  apply list_elem_of_In in Hseg as Hseg'. specialize (Hw _ Hseg'). specialize (Hl _ Hseg').
  assert (forallb is_literal seg = true -> False) as Hlit.
  { intros Hs. destruct (literal_segment params seg Hs) as [Ht Hno]; [intros p Hp; by apply (segments_pieces l seg)|].
    rewrite Ht, split_on_none in Hin by done. apply list_elem_of_singleton in Hin. unfold is_parent in Hl. by rewrite <- Hin in Hl. }
  destruct seg as [|[c|[op name]] [|q seg]]; try (by apply Hlit).
  cbn [text_of meant] in Hin. rewrite string_app_nil in Hin. revert Hin. apply value_parents.
  rewrite Forall_forall in Hv. apply (Hv (inr (op, name))). apply (segments_pieces l [inr (op, name)] Hseg). by left.
Qed.

(** C10. A path is its template with the values filled in, and no more: a value adds no
    query and no fragment; in simple placeholders it adds no segment, so the path has
    the template's segments one for one; and where every placeholder fills its
    segment, the path that the server decodes goes up to no parent directory. *)
Theorem paths_stay_in_their_template path_template params p :
  substitute_path path_template params = Ok p ->
  let l := template_pieces path_template in
  p = text_of (expand params) l /\
  has_char "?" p = has_char "?" (literal_text l) /\ has_char "#" p = has_char "#" (literal_text l) /\
  (all_simple l = true -> split_on "/" p = text_of (expand params) <$> segments l) /\
  (whole_segments l = true -> plain_literals l = true -> has_dot_segment p = false).
Proof.
  intros Hs l. destruct (substituted params l p Hs) as [-> Hv]. split; [done|].
  split; [apply expansion_mark; [done|]; intros op; by apply safe_of_marks|].
  split; [apply expansion_mark; [done|]; intros op; by apply safe_of_marks|].
  split; [apply expansion_segments|]. intros Hw Hp. unfold has_dot_segment. pose proof Hp as [Hpc _]%andb_true_iff. apply negb_true_iff in Hpc.
  rewrite decoded_expansion by done. apply existsb_false_iff. intros seg Hin. unfold is_parent. apply bool_decide_eq_false. intros ->.
  by apply (meant_parents params l).
Qed.

(** Where two placeholders share a segment, their values can make a parent segment
    together, and one dot or nothing at all leaves its segment too. *)
Lemma shared_segments_leave_the_template :
  substitute_path "/compare/{base}..{head}" [("base", JStr ""); ("head", JStr "")] = Ok "/compare/.." /\
  substitute_path "/volumes/{id}" [("id", JStr ".")] = Ok "/volumes/." /\
  substitute_path "/volumes/{id}" [("id", JStr "")] = Ok "/volumes/".
Proof. by vm_compute. Qed.

Lemma paths_stay_in_their_template_witness : exists p,
  substitute_path "/a/{id}/b/{+rest}" [("id", JStr "x/y z"); ("rest", JStr "p/q?r")] = Ok p /\ p = "/a/x%2Fy%20z/b/p/q%3Fr" /\
  has_dot_segment p = false.
Proof.
  eexists. split; [by vm_compute|]. split; [done|].
  apply (paths_stay_in_their_template "/a/{id}/b/{+rest}" [("id", JStr "x/y z"); ("rest", JStr "p/q?r")]); by vm_compute.
Defined.

(** * The split and the request *)

(** [schema["properties"][name]["x-meho-param-loc"]], where there is such a text. *)
Definition field_of (k : string) (v : option json) : option json := match v with Some (JDict d) => dict_get k d | _ => None end.
Definition named_location (schema : json) (name : string) : option string :=
  match field_of "x-meho-param-loc" (field_of name (field_of "properties" (Some schema))) with Some (JStr s) => Some s | _ => None end.

(** The params of a part, in the order of the call. *)
Definition params_in (schema : json) (part : string) (params : json_dict) : json_dict :=
  List.filter (fun kv => bool_decide (named_location schema kv.1 = Some part)) params.
Definition params_elsewhere (schema : json) (parts : list string) (params : json_dict) : json_dict :=
  List.filter (fun kv => match named_location schema kv.1 with Some l => bool_decide (l ∉ parts) | None => true end) params.

(** A part without params is absent. *)
Definition present (d : json_dict) : option json_dict := if bool_decide (length d = 0) then None else Some d.

Lemma present_or_none d : or_none d = present d.
Proof. by destruct d. Qed.

Record well_split (schema : json) (params : json_dict) (b : Buckets) : Prop := {
  ws_path : path_params b = params_in schema "path" params;
  ws_query : query_params b = params_elsewhere schema ["path"; "header"; "body"] params;
  ws_header : header_params b = params_in schema "header" params;
  ws_body : body_params b = params_in schema "body" params;
}.

Lemma get_or_empty_field o d k : get_or_empty (default JNull o) = Ok d -> field_of k o = dict_get k d.
Proof.
  destruct o as [v|]; [|by intros [= <-]]. destruct v; cbn; try (case_match; [done|by intros [= <-]]); by intros [= <-].
Qed.

Lemma location_named schema d props name l :
  get_or_empty schema = Ok d -> get_or_empty (default JNull (dict_get "properties" d)) = Ok props -> location_of props name = Ok l ->
  match l with
  | in_path => named_location schema name = Some "path"
  | in_header => named_location schema name = Some "header"
  | in_body => named_location schema name = Some "body"
  | in_query => forall t, named_location schema name = Some t -> t ∉ ["path"; "header"; "body"]
  end.
Proof.
  intros Hs Hp Hl. unfold location_of in Hl. apply bind_Ok in Hl as (prop & Hn & [= <-]). unfold named_location.
  rewrite (get_or_empty_field (Some schema) _ _ Hs), (get_or_empty_field _ _ _ Hp), (get_or_empty_field _ _ _ Hn).
  unfold PARAM_LOC_KEY. destruct (dict_get "x-meho-param-loc" prop) as [[| | | |t| |]|]; try done.
  destruct (decide (t ∈ ["path"; "header"; "body"])) as [Ht|Ht].
  - repeat (apply elem_of_cons in Ht as [->|Ht]; [done|]). by apply elem_of_nil in Ht.
  - repeat case_match; try (by destruct Ht; set_solver). all: by intros ? [= <-].
Qed.

Lemma part_cons schema part kv params :
  params_in schema part (kv :: params) =
  if bool_decide (named_location schema kv.1 = Some part) then kv :: params_in schema part params else params_in schema part params.
Proof. reflexivity. Qed.

Lemma elsewhere_cons schema parts kv params :
  (forall t, named_location schema kv.1 = Some t -> t ∉ parts) ->
  params_elsewhere schema parts (kv :: params) = kv :: params_elsewhere schema parts params.
Proof.
  intros Hn. unfold params_elsewhere. cbn [List.filter]. destruct (named_location schema kv.1) as [t|]; [|done].
  by rewrite bool_decide_true by auto.
Qed.

Lemma elsewhere_skip schema parts kv params t :
  named_location schema kv.1 = Some t -> t ∈ parts -> params_elsewhere schema parts (kv :: params) = params_elsewhere schema parts params.
Proof. intros Hn Ht. unfold params_elsewhere. cbn [List.filter]. rewrite Hn. by rewrite bool_decide_false by (by intros ?). Qed.

Lemma split_is_well schema d props params b :
  get_or_empty schema = Ok d -> get_or_empty (default JNull (dict_get "properties" d)) = Ok props ->
  split_by_location props params = Ok b -> well_split schema params b.
Proof.
  intros Hs Hp. revert b. induction params as [|kv params IH]; intros b; cbn [split_by_location].
  { intros [= <-]. by constructor. }
  destruct (location_of props kv.1) as [l|e] eqn:El; [|done]. cbn [mbind res_bind]. destruct (split_by_location props params) as [b'|e]; [|done].
  intros [= <-]. destruct (IH b' eq_refl) as [H1 H2 H3 H4]. pose proof (location_named _ _ _ _ _ Hs Hp El) as Hn.
  assert (forall part, l <> in_query -> part <> match l with in_path => "path" | in_header => "header" | _ => "body" end ->
    named_location schema kv.1 <> Some part) as Hne by (intros part Hl Hpart; destruct l; congruence).
  destruct l; constructor; cbn [add_param path_params query_params header_params body_params]; rewrite ?part_cons;
    rewrite ?bool_decide_true by done; rewrite ?bool_decide_false by (first [by apply Hne|intros Hx; apply (Hn _ Hx); set_solver]);
    rewrite ?(elsewhere_cons _ _ _ _ Hn); rewrite ?(elsewhere_skip _ _ _ _ _ Hn) by set_solver; by f_equal.
Qed.

Definition is_lower (c : ascii) : bool := let n := nat_of_ascii c in (97 <=? n) && (n <=? 122).

Lemma upper_has_no_lower s : all_chars (fun c => negb (is_lower c)) (upper s) = true.
Proof.
  induction s as [|c s IH]; [done|]. cbn [upper all_chars]. rewrite IH, andb_true_r. by destruct c as [[] [] [] [] [] [] [] []].
Qed.

Section Request.
Context {Op : Type} {Ans : Op -> Type} {E : Type} (fault : RequestFault -> E) (mount : option (string -> action Ans E string)).

Lemma lift_ok_bind {A B} (a : A) (f : A -> action Ans E B) : (lift_fault fault (Ok a) ≫= f) = f a.
Proof. reflexivity. Qed.

(** C34. What is resolved is a well-formed request.  Its method is the verb of the
    operation in upper case, and not empty.  Every param is in exactly the part that
    the schema names for it under [properties.<name>.x-meho-param-loc]: the params of
    the path fill the template, those of the header are the headers, the one param of
    the body is the body itself, and the rest, with no place or an unknown one, is the
    query; each in the order of the call, and an empty part is absent.  Without a mount
    the path is the expanded template, and with one it is what the mount answers. *)
Theorem resolved_requests_are_well_formed m t schema params h r :
  runs (resolve_ingested_request fault mount m t schema params) h (Ok r) ->
  method r = upper (default "" m) /\ method r <> "" /\ all_chars (fun c => negb (is_lower c)) (method r) = true /\
  query r = present (params_elsewhere schema ["path"; "header"; "body"] params) /\
  headers r = present (params_in schema "header" params) /\
  match body r with
  | Some v => exists name, params_in schema "body" params = [(name, v)]
  | None => params_in schema "body" params = []
  end /\
  exists p, substitute_path (default "" t) (params_in schema "path" params) = Ok p /\
    match mount with
    | None => path r = p /\ h = []
    | Some mnt => runs (mnt p) h (Ok (path r))
    end.
Proof.
  unfold resolve_ingested_request. destruct (bool_decide (upper (default "" m) = "")) eqn:Hm; [by intros [_ ?]|].
  destruct (bool_decide (default "" t = "")); [by intros [_ ?]|]. apply bool_decide_eq_false in Hm. cbn [orb].
  unfold split_ingested_params. destruct (get_or_empty schema) as [sch|e] eqn:Es; [|by intros [_ ?]]. cbn [mbind res_bind].
  destruct (get_or_empty (default _ _)) as [props|e] eqn:Epr; [|by intros [_ ?]]. cbn [mbind res_bind].
  destruct (split_by_location props params) as [b|e] eqn:Eb; [|by intros [_ ?]].
  destruct (split_is_well _ _ _ _ _ Es Epr Eb) as [W1 W2 W3 W4]. rewrite lift_ok_bind, <- W1, <- W2, <- W3, <- W4, <- !present_or_none.
  destruct (substitute_path (default "" t) (path_params b)) as [p|e] eqn:Ep; [|by intros [_ ?]]. rewrite lift_ok_bind.
  intros Hr.
  assert (forall (h : history Ans E) p', runs (request_of (Ans := Ans) fault (upper (default "" m)) p' b) h (Ok r) ->
    h = [] /\ path r = p' /\ method r = upper (default "" m) /\ query r = or_none (query_params b) /\ headers r = or_none (header_params b) /\
    match body r with Some v => exists name, body_params b = [(name, v)] | None => body_params b = [] end) as Hend.
  { intros h' p'. unfold request_of. destruct (body_params b) as [|[name v] [|? ?]]; cbn; [| |by intros [_ ?]]; intros [-> [= ->]]; split_and!; try done. by exists name. }
  destruct mount as [mnt|].
  - apply runs_after in Hr as (h1 & h2 & [p'|e] & -> & H1 & H2); [|by destruct H2]. apply Hend in H2 as (-> & Hp & Hme & H2).
    rewrite Hme, app_nil_r. destruct H2 as (? & ? & ?). split_and!; try done; [apply upper_has_no_lower|]. exists p. by rewrite Hp.
  - apply Hend in Hr as (-> & Hp & Hme & H2 & H3 & H4). rewrite Hme. split_and!; try done; [apply upper_has_no_lower|]. by exists p.
Qed.
End Request.

Definition ex_schema : json := JDict [("properties",
  JDict [("id", JDict [("x-meho-param-loc", JStr "path")]); ("body", JDict [("x-meho-param-loc", JStr "body")])])].

Lemma resolved_requests_are_well_formed_witness : exists r,
  runs (resolve_ingested_request (Op := TransportOp) (Ans := TransportAns) request_fault None (Some "post") (Some "/a/{id}")
    ex_schema [("id", JInt 7); ("dry", JBool true); ("body", JList [])]) [] (Ok r) /\
  method r <> "" /\ query r = Some [("dry", JBool true)] /\ body r = Some (JList []).
Proof.
  eexists. split; [by vm_compute|].
  edestruct (resolved_requests_are_well_formed (Op := TransportOp) (Ans := TransportAns) request_fault None (Some "post") (Some "/a/{id}")
    ex_schema [("id", JInt 7); ("dry", JBool true); ("body", JList [])] []) as (_ & Hm & _ & Hq & _); [by vm_compute|].
  split; [exact Hm|]. split; [exact Hq|done].
Defined.

(** * The pages of a listing *)

(** What the answer of a page says, in the vendor's terms: its rows under the items
    key, and the token under the response field, of the page that follows. *)
Definition holds_rows (p : Pagination) (payload : json) (rows : list json) : Prop :=
  (exists d, payload = JDict d /\ dict_get (items_key p) d = Some (JList rows)) \/
  (rows = [] /\ forall d l, payload = JDict d -> dict_get (items_key p) d <> Some (JList l)).

Definition names_next (p : Pagination) (payload : json) (token : string) : Prop :=
  exists d v, payload = JDict d /\ dict_get (resp_field p) d = Some v /\ truthy v = true /\ token = py_str v.

Definition is_last (p : Pagination) (payload : json) : Prop :=
  forall d v, payload = JDict d -> dict_get (resp_field p) d = Some v -> truthy v = false.

(** The request of a page is the request of the listing, with the token of the page
    under the request param beside the rest of the query. *)
Record asks_page (p : Pagination) (r : IngestedRequest) (token : option string) (asked : IngestedRequest) : Prop := {
  ap_same : method asked = method r /\ path asked = path r /\ body asked = body r /\ headers asked = headers r;
  ap_rest : forall k, k <> req_param p \/ token = None -> dict_get k (default [] (query asked)) = dict_get k (default [] (query r));
  ap_token : forall t, token = Some t -> t <> "" -> dict_get (req_param p) (default [] (query asked)) = Some (JStr t);
}.

(** The calls of a listing from a page on, the answers to them, and the rows. *)
Inductive listing (p : Pagination) (r : IngestedRequest) (token : option string)
  : history TransportAns TransportFault -> list json -> list json -> Prop :=
| listing_last asked x rows :
    asks_page p r token asked -> holds_rows p x rows -> is_last p x ->
    listing p r token [ev (t_request_json asked) (Ok x)] [x] rows
| listing_more asked x rows token' h payloads rows' :
    asks_page p r token asked -> holds_rows p x rows -> names_next p x token' ->
    listing p r (Some token') h payloads rows' ->
    listing p r token (ev (t_request_json asked) (Ok x) :: h) (x :: payloads) (rows ++ rows').

(** Answers of a vendor where every page but the last names a next one. *)
Fixpoint paged (p : Pagination) (payloads : list json) : Prop :=
  match payloads with
  | [] => False
  | [x] => is_last p x
  | x :: rest => (exists token, names_next p x token) /\ paged p rest
  end.

(** The answer to the caller. *)
Definition holds_all (p : Pagination) (rows : list json) (d : json_dict) : Prop :=
  dict_get "total" d = Some (JInt (Z.of_nat (length rows))) /\
  (items_key p <> "total" -> dict_get (items_key p) d = Some (JList rows)).

Lemma rows_held p x : holds_rows p x (rows_of p x).
Proof.
  unfold rows_of, get_field, holds_rows. destruct x as [| | | | | |d]; try (by right).
  destruct (dict_get (items_key p) d) as [v|] eqn:E; cbn [default]; [|right; split; [done|]; intros d' l [= <-]; congruence].
  destruct v; try (right; split; [done|]; intros d' l' [= <-]; rewrite E; done). left. by exists d.
Qed.

Lemma next_token_spec p x : match next_token p x with Some t => names_next p x t | None => is_last p x end.
Proof.
  unfold next_token, get_field, names_next, is_last. destruct x as [| | | | | |d]; try (by intros ? ? [=]).
  destruct (dict_get (resp_field p) d) as [v|] eqn:E; cbn [default].
  - cbn. destruct (truthy v) eqn:Ev; [by exists d, v|]. intros d' v' [= <-]. rewrite E. by intros [= <-].
  - cbn. intros d' v' [= <-]. by rewrite E.
Qed.

Lemma names_next_token p x t : names_next p x t <-> next_token p x = Some t.
Proof.
  pose proof (next_token_spec p x) as Hs. split.
  - intros (d & v & -> & Hv & Ht & ->). unfold next_token, get_field. rewrite Hv. cbn. by rewrite Ht.
  - intros E. by rewrite E in Hs.
Qed.

Lemma or_none_default d : default [] (or_none d) = d.
Proof. by destruct d. Qed.

Lemma page_query_asks p r token : asks_page p r token (with_query (page_query p token r) r).
Proof.
  constructor; cbn [with_query method path body headers query]; [done| |]; unfold page_query; rewrite or_none_default.
  - intros k Hk. destruct token as [[|c t]|]; [done| |done]. destruct Hk as [Hk|]; [|done]. by rewrite dict_get_put, bool_decide_false by done.
  - intros t -> Ht. destruct t as [|c t]; [done|]. by rewrite dict_get_put, bool_decide_true by done.
Qed.

Lemma holds_all_built p rows : holds_all p rows (dict_put "total" (JInt (Z.of_nat (length rows))) [(items_key p, JList rows)]).
Proof.
  split; [by rewrite dict_get_put, bool_decide_true by done|]. intros Hne. rewrite dict_get_put, bool_decide_false by done. cbn. by rewrite bool_decide_true.
Qed.

Lemma listing_runs fuel p r token rows0 payloads :
  paged p payloads -> length payloads <= fuel ->
  exists h rows d, runs (cursor_loop fuel p r token rows0) h (Ok (Some d)) /\ listing p r token h payloads rows /\ holds_all p (rows0 ++ rows) d.
Proof.
  revert token rows0 payloads. induction fuel as [|fuel IH]; intros token rows0 payloads Hp Hf; [by destruct payloads; [|simpl in Hf; lia]|].
  destruct payloads as [|x rest]; [done|]. cbn [cursor_loop]. pose proof (page_query_asks p r token) as Ha. pose proof (rows_held p x) as Hr.
  destruct rest as [|y rest].
  - assert (next_token p x = None) as Hn.
    { destruct (next_token p x) as [t|] eqn:E; [|done]. apply names_next_token in E as (d & v & -> & Hv & Ht & _). by rewrite (Hp d v) in Ht. }
    eexists [_], (rows_of p x), _. split; [exists (Ok x), []; split; [done|]; cbn [after]; rewrite Hn; by split|].
    split; [by apply listing_last|apply holds_all_built].
  - destruct Hp as [[t Ht] Hp]. destruct (IH (Some t) (rows0 ++ rows_of p x) (y :: rest)) as (h & rows & d & Hrun & Hl & Hd); [done|simpl in *; lia|].
    exists (ev (t_request_json (with_query (page_query p token r) r)) (Ok x) :: h), (rows_of p x ++ rows), d.
    split; [exists (Ok x), h; split; [done|]; cbn [after]; by rewrite (proj1 (names_next_token p x t) Ht)|].
    split; [by eapply listing_more|by rewrite app_assoc].
Qed.

Lemma runs_listing fuel p r token rows0 h d :
  runs (cursor_loop fuel p r token rows0) h (Ok (Some d)) ->
  exists payloads rows, listing p r token h payloads rows /\ holds_all p (rows0 ++ rows) d.
Proof.
  revert token rows0 h. induction fuel as [|fuel IH]; intros token rows0 h; [by intros [_ ?]|]. cbn [cursor_loop].
  intros ([x|e] & h' & -> & Hr); [|by destruct Hr]. cbn [after] in Hr.
  pose proof (page_query_asks p r token) as Ha. pose proof (rows_held p x) as Hh. pose proof (next_token_spec p x) as Hn.
  destruct (next_token p x) as [t|].
  - apply IH in Hr as (payloads & rows & Hl & Hd). exists (x :: payloads), (rows_of p x ++ rows).
    split; [by eapply listing_more|by rewrite app_assoc].
  - destruct Hr as [-> Hr]. injection Hr as ->. exists [x], (rows_of p x). split; [by apply listing_last|apply holds_all_built].
Qed.

(** C35. A listing comes back whole.  However a vendor cuts it into pages, a turn of
    the loop for each is enough: there is a run that asks for the pages one by one, the
    first with the query as it is, and each further one with the token, under the
    request param, that the answer before it holds in the response field; and the
    answer has the rows of all pages in order, and their number as the total.  Every
    answer there is has been made this way. *)
Theorem listings_come_back_whole p r fuel :
  (forall payloads, paged p payloads -> length payloads <= fuel ->
     exists h rows d, runs (cursor_loop fuel p r None []) h (Ok (Some d)) /\ listing p r None h payloads rows /\ holds_all p rows d) /\
  (forall h d, runs (cursor_loop fuel p r None []) h (Ok (Some d)) ->
     exists payloads rows, listing p r None h payloads rows /\ holds_all p rows d).
Proof.
  split.
  - intros payloads Hp Hf. by destruct (listing_runs fuel p r None [] payloads Hp Hf) as (h & rows & d & ?); exists h, rows, d.
  - intros h d Hr. by apply runs_listing in Hr.
Qed.

Lemma listings_come_back_whole_witness :
  let p := {| items_key := "items"; req_param := "pageToken"; resp_field := "next" |} in
  let r := {| method := "GET"; path := "/v1/items"; query := None; headers := None; body := None |} in
  let pages := [JDict [("items", JList [JInt 1; JInt 2]); ("next", JStr "b")]; JDict [("items", JList [JInt 3])]] in
  exists h rows d, runs (cursor_loop 2 p r None []) h (Ok (Some d)) /\ listing p r None h pages rows /\ holds_all p rows d.
Proof.
  intros p r pages. apply (proj1 (listings_come_back_whole p r 2) pages); [|by apply Nat.leb_le]. split.
  - exists "b". by eexists _, (JStr "b").
  - intros d v [= <-]. by vm_compute.
Defined.
