(* ===== verification/RunnerEdge.v ===== *)
(** The edge: how a runner executes a work item ([runner/executor.py]), what it
    keeps on disk so that a command runs at most once ([runner/spool.py]), the
    wire records ([runner/wire.py]) and the check of the credential an item carries
    ([connectors/_shared/wrapped_creds.py]).

    A process may stop at any write to its disk.  [edge] is a state monad with a
    budget of writes; when the budget is spent the run stops where it is. *)

From stdpp Require Import gmap strings.
From S2P Require Import Prelude Identity Json Glob GatewayQueue WireText WorkItemSigning EffectChain.

(** * The wire *)

Record ResolvedTargetDescriptor := {
  td_id : uuid;
  td_tenant_id : uuid;
  td_name : string;
  td_aliases : list string;
  td_product : string;
  td_version : option string;
  td_fingerprint : option json_dict;
  td_preferred_impl_id : option string;
  td_host : string;
  td_port : option Z;
  td_fqdn : option string;
  td_secret_ref : option string;
  td_auth_model : string;
  td_verify_tls : bool;
  td_tls_ca_pin : option string;
  td_tls_server_name : option string;
  td_secret_field_map : list (string * string);
  td_extras : json_dict;
  td_updated_at : option datetime;
}.

Record WirePrincipal := {
  wp_sub : string;
  wp_tenant_id : uuid;
  wp_tenant_role : TenantRole;
  wp_principal_kind : PrincipalKind;
}.

Record RunnerWorkItem := {
  wi_check_ref : string;
  wi_op_id : string;
  wi_product : string;
  wi_version : string;
  wi_impl_id : string;
  wi_handler_ref : string;
  wi_params : json_dict;
  wi_safety_level : string;
  wi_principal : WirePrincipal;
  wi_target_descriptor : option ResolvedTargetDescriptor;
  wi_signature : option string;
  wi_expires_at : option datetime;
  wi_package_set : option string;
}.

Inductive RunnerStatus := st_ok | st_refused | st_error.
#[export] Instance RunnerStatus_eq_dec : EqDecision RunnerStatus.
Proof. solve_decision. Defined.

Definition status_value (s : RunnerStatus) : string :=
  match s with st_ok => "ok" | st_refused => "refused" | st_error => "error" end.

(** Why an item was refused or failed; the texts name the same cases. *)
Inductive EdgeError :=
| duplicate_delivery
| package_set_mismatch
| tier_excluded
| unsigned
| no_freshness_bound
| verify_key_unavailable (e : SigningKeyUnavailableError)
| signature_invalid
| capability_expired
| off_allowlist (d : RemoteWriteGateDecision)
| standing_credential
| handler_out_of_tree
| handler_unresolved
| handler_resolved_out_of_tree
| handler_raised (text : string)
| handler_non_dict.

Record RunnerResult := {
  rr_result_uid : string;
  rr_check_ref : string;
  rr_op_id : string;
  rr_status : RunnerStatus;
  rr_result : option json_dict;
  rr_error : option EdgeError;
}.

(** * The credential of an item *)

Definition WRAPPED_CREDENTIAL_SCHEME : string := "wrapped".

Definition is_wrapped_credential_ref (secret_ref : option string) : bool :=
  match secret_ref with
  | None => false
  | Some s =>
      negb (bool_decide (s = "")) &&
      match partition_on ":" s with
      | (kind, Some token) => bool_decide (kind = WRAPPED_CREDENTIAL_SCHEME) && negb (bool_decide (token = ""))
      | (_, None) => false
      end
  end.

Definition screen_remote_write_credential (target_descriptor : option ResolvedTargetDescriptor) : option EdgeError :=
  if is_wrapped_credential_ref (target_descriptor ≫= td_secret_ref) then None else Some standing_credential.

Inductive WrappedCredentialError :=
| capability_not_in_future | requested_ttl_not_positive | wrap_read_failed | no_wrapping_token.

(** Whole seconds of headroom, rounded towards zero. *)
Definition bounded_wrap_ttl (capability_expires_at : datetime) (requested_ttl_seconds : option Z) (now : datetime)
  : res WrappedCredentialError Z :=
  let headroom := Z.quot (capability_expires_at - now) 1000000 in
  _ ← guard_or capability_not_in_future (0 <? headroom)%Z;
  match requested_ttl_seconds with
  | None => Ok headroom
  | Some r => _ ← guard_or requested_ttl_not_positive (0 <? r)%Z; Ok (Z.min r headroom)
  end.

Record WrappedCredential := { wc_unwrap_ref : string; wc_expires_at : datetime; wc_wrap_ttl_seconds : Z }.

(** [secret] is what Vault answers for the target's fields, [wrap_token] its answer
    to [sys/wrapping/wrap] for a payload and a number of seconds. *)
Definition broker_wrapped_credential (secret : option json_dict) (wrap_token : json_dict -> Z -> option string)
  (capability_expires_at : datetime) (requested_ttl_seconds : option Z) (now : datetime)
  : res WrappedCredentialError WrappedCredential :=
  ttl ← bounded_wrap_ttl capability_expires_at requested_ttl_seconds now;
  data ← ok_or wrap_read_failed secret;
  token ← ok_or no_wrapping_token (wrap_token data ttl);
  _ ← guard_or no_wrapping_token (negb (bool_decide (token = "")));
  Ok {| wc_unwrap_ref := WRAPPED_CREDENTIAL_SCHEME +:+ ":" +:+ token;
        wc_expires_at := (now + ttl * 1000000)%Z; wc_wrap_ttl_seconds := ttl |}.

(** * The disk *)

(** One file per command: an empty marker, or the stored result. *)
Record EdgeState := {
  es_executed : gmap string (option RunnerResult);
  es_chain : ChainDir;
  (** The handlers that were called: the command, the item, and the reading of the
      clock its screen was decided at. *)
  es_calls : list (string * (RunnerWorkItem * datetime));
}.

Definition set_executed (f : gmap string (option RunnerResult) -> gmap string (option RunnerResult)) (s : EdgeState)
  : EdgeState := {| es_executed := f (es_executed s); es_chain := es_chain s; es_calls := es_calls s |}.
Definition set_chain (f : ChainDir -> ChainDir) (s : EdgeState) : EdgeState :=
  {| es_executed := es_executed s; es_chain := f (es_chain s); es_calls := es_calls s |}.
Definition add_call (command_id : string) (item : RunnerWorkItem) (now : datetime) (s : EdgeState) : EdgeState :=
  {| es_executed := es_executed s; es_chain := es_chain s; es_calls := es_calls s ++ [(command_id, (item, now))] |}.

(** How a run ends: it stops, an exception leaves it, or it returns with the rest
    of its budget. *)
Inductive ending (A : Type) := stopped | raised (e : EffectChainStateError) | done_with (a : A) (budget : nat).
Arguments stopped {A}.
Arguments raised {A} e.
Arguments done_with {A} a budget.

Definition edge (A : Type) : Type := nat -> EdgeState -> EdgeState * ending A.

#[export] Instance edge_ret : MRet edge := fun A a n s => (s, done_with a n).
#[export] Instance edge_bind : MBind edge := fun A B f m n s =>
  match m n s with
  | (s', done_with a n') => f a n' s'
  | (s', stopped) => (s', stopped)
  | (s', raised e) => (s', raised e)
  end.

Definition look {A} (f : EdgeState -> A) : edge A := fun n s => (s, done_with (f s) n).
Definition fail_with {A} (e : EffectChainStateError) : edge A := fun n s => (s, raised e).

(** One write; the run may stop before it. *)
Definition put (f : EdgeState -> EdgeState) : edge unit := fun n s =>
  match n with O => (s, stopped) | S n' => (f s, done_with tt n') end.

(** ** [ExecutedCommandStore] *)

(** [O_CREAT|O_EXCL]. *)
Definition record_command (command_id : string) : edge bool :=
  present ← look (fun s => bool_decide (is_Some (es_executed s !! command_id)));
  if (present : bool) then mret false
  else _ ← put (set_executed <[command_id := None]>); mret true.

Definition has_command (command_id : string) (s : EdgeState) : bool := bool_decide (is_Some (es_executed s !! command_id)).

Definition store_result (command_id : string) (r : RunnerResult) : edge unit :=
  put (set_executed <[command_id := Some r]>).

Definition load_result (command_id : string) : edge (option RunnerResult) :=
  look (fun s => mjoin (es_executed s !! command_id)).

(** * The screens *)

(** What a runner is provisioned with. *)
Record EdgeSettings := {
  es_satellite_write_allowlist : string;
  es_satellite_write_verify_key : string;
  es_package_set_digest : string;
}.

Definition CONNECTOR_MODULE_PREFIX : string := "meho_backplane.connectors.".

Definition item_target_scope (item : RunnerWorkItem) : string :=
  match wi_target_descriptor item with Some d => td_id d | None => TARGETLESS_SCOPE end.

Definition package_set_refusal (s : EdgeSettings) (item : RunnerWorkItem) : option EdgeError :=
  match wi_package_set item with
  | None => None
  | Some d => if bool_decide (d = es_package_set_digest s) then None else Some package_set_mismatch
  end.

Section Edge.
Context (sha256 : string -> string) `{SignatureScheme} (is_safe_write : string -> bool).

Definition verify_remote_write_signature (s : EdgeSettings) (now : datetime) (item : RunnerWorkItem)
  : option EdgeError :=
  match wi_signature item with
  | None | Some "" => Some unsigned
  | Some signature =>
      match wi_expires_at item with
      | None => Some no_freshness_bound
      | Some expires_at =>
          match load_verify_key (es_satellite_write_verify_key s) with
          | Raise e => Some (verify_key_unavailable e)
          | Ok verify_key =>
              if negb (verify_remote_write_item verify_key signature (wi_op_id item)
                         (params_digest sha256 (wi_params item)) (item_target_scope item) expires_at)
              then Some signature_invalid
              else if (expires_at <=? now)%Z then Some capability_expired
              else None
          end
      end
  end.

Definition edge_gate (s : EdgeSettings) (item : RunnerWorkItem) : RemoteWriteGateDecision :=
  evaluate_remote_write_gate (wi_op_id item) (parse_runner_allowlist (es_satellite_write_allowlist s))
    (item_target_scope item).

Definition item_tier (item : RunnerWorkItem) : SatelliteMintTier :=
  classify_satellite_tier is_safe_write (wi_safety_level item) (wi_op_id item).

(** The three checks of a remote write, in order. *)
Definition screen_remote_item (s : EdgeSettings) (now : datetime) (item : RunnerWorkItem) : option EdgeError :=
  match verify_remote_write_signature s now item with
  | Some e => Some e
  | None =>
      match edge_gate s item with
      | gate_permitted => screen_remote_write_credential (wi_target_descriptor item)
      | d => Some (off_allowlist d)
      end
  end.

Definition screen_item (s : EdgeSettings) (now : datetime) (item : RunnerWorkItem) : option EdgeError :=
  let tier_refusal := match item_tier item with
                      | TIER_EXCLUDED => Some tier_excluded
                      | TIER_REMOTE_WRITE => screen_remote_item s now item
                      | TIER_SAFE => None
                      end in
  match tier_refusal with
  | Some e => Some e
  | None => if starts_with CONNECTOR_MODULE_PREFIX (wi_handler_ref item) then None else Some handler_out_of_tree
  end.

(** ** The chain: its two writes *)

Definition chain_append (runner_id : string) (e : Effect) (now : datetime) : edge unit :=
  d ← look es_chain;
  match append_record sha256 runner_id e now d with
  | Raise err => fail_with err
  | Ok (d1, r) =>
      _ ← put (set_chain (fun _ => d1));
      put (set_chain (write_head (er_seq r) (er_record_hash r)))
  end.

(** * Execution *)

(** What an imported handler answers. *)
Inductive HandlerAnswer := answered (payload : json_dict) | answered_other | answered_error (text : string).

(** One execution: the readings of the clock, the fresh uid, whether a chain is in
    play, what the import of the handler finds (the module it is defined in), and
    what the handler answers. *)
Record EdgeRun := {
  ru_settings : EdgeSettings;
  ru_runner_id : string;
  ru_chained : bool;
  ru_now : datetime;
  ru_now_intent : datetime;
  ru_now_outcome : datetime;
  ru_uid : string;
  ru_import : string -> option string;
  ru_answer : HandlerAnswer;
}.

Definition result_of (run : EdgeRun) (item : RunnerWorkItem) (status : RunnerStatus) (payload : option json_dict)
  (error : option EdgeError) : RunnerResult := {|
  rr_result_uid := ru_uid run; rr_check_ref := wi_check_ref item; rr_op_id := wi_op_id item; rr_status := status;
  rr_result := payload; rr_error := error |}.

(** The operator a handler sees; the runner holds no token. *)
Definition build_operator (item : RunnerWorkItem) : Operator :=
  let p := wi_principal item in
  {| op_sub := wp_sub p; op_tenant_id := wp_tenant_id p; op_tenant_role := wp_tenant_role p;
     op_principal_kind := wp_principal_kind p; op_client_id := None; op_platform_admin := false;
     op_web_session := false; op_name := None; op_approver := false; op_self_approver := false;
     op_tenant_chosen := true; op_auth_time := None; op_sid := None; op_acr := None; op_azp := None |}.

Definition invoke (run : EdgeRun) (command_id : string) (item : RunnerWorkItem) : edge RunnerResult :=
  _ ← put (add_call command_id item (ru_now run));
  mret match ru_answer run with
       | answered payload => result_of run item st_ok (Some payload) None
       | answered_other => result_of run item st_error None (Some handler_non_dict)
       | answered_error text => result_of run item st_error None (Some (handler_raised text))
       end.

Definition remote_write_effect_keys (item : RunnerWorkItem) : string * string :=
  (params_digest sha256 (wi_params item), item_target_scope item).

Definition effect_of (command_id : string) (item : RunnerWorkItem) (phase : EffectPhase) (outcome : option string)
  : Effect := {|
  ef_phase := phase; ef_command_id := command_id; ef_op_id := wi_op_id item;
  ef_params_hash := fst (remote_write_effect_keys item); ef_signature := wi_signature item;
  ef_target_scope := snd (remote_write_effect_keys item); ef_outcome := outcome |}.

Definition invoke_recording_effect (run : EdgeRun) (command_id : string) (item : RunnerWorkItem) : edge RunnerResult :=
  if negb (ru_chained run) || negb (bool_decide (item_tier item = TIER_REMOTE_WRITE))
  then invoke run command_id item
  else
    _ ← chain_append (ru_runner_id run) (effect_of command_id item INTENT None) (ru_now_intent run);
    r ← invoke run command_id item;
    _ ← chain_append (ru_runner_id run) (effect_of command_id item OUTCOME (Some (status_value (rr_status r))))
          (ru_now_outcome run);
    mret r.

(** The screens come before the import, the import before the call. *)
Definition refuse_or_resolve (run : EdgeRun) (item : RunnerWorkItem) : option (RunnerStatus * EdgeError) :=
  match package_set_refusal (ru_settings run) item with
  | Some e => Some (st_refused, e)
  | None =>
      match screen_item (ru_settings run) (ru_now run) item with
      | Some e => Some (st_refused, e)
      | None =>
          match ru_import run (wi_handler_ref item) with
          | None => Some (st_error, handler_unresolved)
          | Some module => if starts_with CONNECTOR_MODULE_PREFIX module then None
                           else Some (st_refused, handler_resolved_out_of_tree)
          end
      end
  end.

Definition execute_work_item (run : EdgeRun) (command_id : string) (item : RunnerWorkItem) : edge RunnerResult :=
  match refuse_or_resolve run item with
  | Some (status, e) => mret (result_of run item status None (Some e))
  | None => invoke_recording_effect run command_id item
  end.

Definition execute_command_once (run : EdgeRun) (command_id : string) (item : RunnerWorkItem) : edge RunnerResult :=
  first ← record_command command_id;
  if (first : bool) then
    r ← execute_work_item run command_id item;
    _ ← store_result command_id r;
    mret r
  else
    prior ← load_result command_id;
    mret match prior with
         | Some r => r
         | None => result_of run item st_refused None (Some duplicate_delivery)
         end.
End Edge.
