(* ===== verification/RunnerEdgeProofs.v ===== *)
(** What the edge guarantees: a command runs at most once whatever stops the
    process, a remote write runs only when the centre signed it, it leaves its
    intent on the chain before it runs, and what the centre mints does run. *)

From stdpp Require Import gmap strings.
From S2P Require Import Prelude Identity Json Glob Catalog OpPolicy Lookup ServiceGrants PolicyGate GatewayQueue Approvals WireText WorkItemSigning RunnerPrincipals GatewayMint GatewayMintProofs EffectChain RunnerEdge.

Section EdgeFacts.
Context (sha256 : string -> string) `{SignatureScheme} (is_safe_write : string -> bool).

(** Only the directory of the chain changed. *)
Definition only_chain (s s' : EdgeState) : Prop :=
  es_executed s' = es_executed s /\ es_calls s' = es_calls s.

(** A record that the head of the directory covers. *)
Definition settled_record (x : EffectAuditRecord) (d : ChainDir) : Prop :=
  x ∈ ch_files d /\ exists n h, read_head d = Ok (n, h) /\ (er_seq x <= n)%Z.

Definition says (e : Effect) (x : EffectAuditRecord) : Prop :=
  er_phase x = ef_phase e /\ er_command_id x = ef_command_id e /\ er_op_id x = ef_op_id e /\
  er_params_hash x = ef_params_hash e /\ er_signature x = ef_signature e /\
  er_target_scope x = ef_target_scope e /\ er_outcome x = ef_outcome e.

Lemma put_file_here r files : r ∈ put_file r files.
Proof.
  induction files as [|x files IH]; simpl; [by left|].
  destruct (_ <? _)%Z; [by left|]. destruct (_ =? _)%Z; [by left|by right].
Qed.

Lemma put_file_keeps r x files : x ∈ files -> er_seq x <> er_seq r -> x ∈ put_file r files.
Proof.
  intros Hx Hs. induction files as [|y files IH]; simpl; [by apply elem_of_nil in Hx|].
  destruct (_ <? _)%Z eqn:E1; [by right|]. destruct (_ =? _)%Z eqn:E2.
  - apply Z.eqb_eq in E2. apply elem_of_cons in Hx as [->|Hx]; [congruence|by right].
  - apply elem_of_cons in Hx as [->|Hx]; [by left|]. right. by apply IH.
Qed.

(** The three ways an append ends. *)
Lemma chain_append_cases runner e now n s s' en :
  chain_append sha256 runner e now n s = (s', en) ->
  only_chain s s' /\
  ((s' = s /\ forall b, en <> done_with tt b) \/
   exists k h, read_head (es_chain s) = Ok (k, h) /\ let r := next_record sha256 runner k h e now in
     (es_chain s' = write_record r (es_chain s) /\ en = stopped \/
      es_chain s' = write_head (er_seq r) (er_record_hash r) (write_record r (es_chain s)) /\
      exists b, n = S (S b) /\ en = done_with tt b)).
Proof.
  unfold chain_append, mbind, edge_bind, look, put. destruct (append_record _ _ _ _ _) as [[d1 r]|err] eqn:Ea.
  - apply append_record_Ok in Ea as (k & h & Hh & -> & ->).
    destruct n as [|[|b]]; intros [= <- <-].
    + split; [done|]. left. split; [done|]. intros b. discriminate.
    + split; [done|]. right. exists k, h. split; [done|]. by left.
    + split; [done|]. right. exists k, h. split; [done|]. right. split; [done|]. by exists b.
  - intros [= <- <-]. split; [done|]. left. split; [done|]. intros b. discriminate.
Qed.

Lemma chain_append_keeps runner e now n s s' en x :
  chain_append sha256 runner e now n s = (s', en) -> settled_record x (es_chain s) -> settled_record x (es_chain s').
Proof.
  intros Ha (Hx & k & h & Hh & Hle).
  apply chain_append_cases in Ha as [_ [[-> _]|(k' & h' & Hh' & [[-> _]|[-> _]])]]; [by split; eauto|..];
    rewrite Hh in Hh'; injection Hh' as <- <-.
  - split; [|by exists k, h]. apply put_file_keeps; [done|]. simpl. lia.
  - split; [|simpl; eexists _, _; split; [done|simpl; lia]]. apply put_file_keeps; [done|]. simpl. lia.
Qed.

Lemma chain_append_writes runner e now n s s' b :
  chain_append sha256 runner e now n s = (s', done_with tt b) ->
  exists x, settled_record x (es_chain s') /\ says e x.
Proof.
  intros Ha. apply chain_append_cases in Ha as [_ [[_ Hb]|(k & h & _ & [[_ Hs]|[-> _]])]]; [by destruct (Hb b)|done|].
  exists (next_record sha256 runner k h e now). split; [|by repeat split]. split; [apply put_file_here|]. simpl. eexists _, _. split; [done|simpl; lia].
Qed.

(** A call is made once at most, after the screens, and on the chain after its intent. *)
Lemma execute_cases run command_id item n s s' en :
  execute_work_item sha256 is_safe_write run command_id item n s = (s', en) ->
  es_executed s' = es_executed s /\
  (forall x, settled_record x (es_chain s) -> settled_record x (es_chain s')) /\
  (es_calls s' = es_calls s \/
   es_calls s' = es_calls s ++ [(command_id, (item, ru_now run))] /\
   refuse_or_resolve sha256 is_safe_write run item = None /\
   (ru_chained run = true -> item_tier is_safe_write item = TIER_REMOTE_WRITE ->
    exists x, settled_record x (es_chain s') /\ says (effect_of sha256 command_id item INTENT None) x)).
Proof.
  unfold execute_work_item. destruct (refuse_or_resolve _ _ _ _) as [[st er]|] eqn:Er; [by intros [= <- <-]; auto|].
  unfold invoke_recording_effect. destruct (negb (ru_chained run) || _) eqn:Ec.
  - unfold invoke, mbind, edge_bind, put. destruct n as [|n]; intros [= <- <-]; [by auto|].
    split_and!; [done|done|]. right. split_and!; [done|done|]. intros Hc Ht. rewrite Hc, bool_decide_true in Ec; done.
  - unfold mbind at 1, edge_bind at 1. destruct (chain_append _ _ _ _ n s) as [s1 e1] eqn:E1.
    pose proof E1 as E1'. apply chain_append_cases in E1' as [[Hx1 Hc1] _].
    pose proof (fun x => chain_append_keeps _ _ _ _ _ _ _ x E1) as Hk1.
    destruct e1 as [|err|[] n1]; [by intros [= <- <-]; auto..|].
    unfold mbind at 1, edge_bind at 1. unfold invoke, mbind at 1, edge_bind at 1, put.
    destruct n1 as [|n1]; [by intros [= <- <-]; auto|]. cbn [mret edge_ret].
    set (r := match ru_answer run with answered _ => _ | _ => _ end). set (s2 := add_call command_id item (ru_now run) s1).
    unfold mbind, edge_bind. destruct (chain_append _ _ _ _ n1 s2) as [s3 e3] eqn:E3.
    pose proof E3 as E3'. apply chain_append_cases in E3' as [[Hx3 Hc3] _].
    pose proof (fun x => chain_append_keeps _ _ _ _ _ _ _ x E3) as Hk3. intros Hend.
    assert (s' = s3) as -> by (destruct e3 as [| |[] ?]; by injection Hend).
    split_and!; [by rewrite Hx3|by eauto|]. right. split_and!; [rewrite Hc3; simpl; by rewrite Hc1|done|].
    intros _ _. apply chain_append_writes in E1 as (x & Hx & Hs). exists x. split; [|done]. by apply Hk3.
Qed.
(** * The runner over time *)

Section Reachable.
Context (settings : EdgeSettings).

(** A delivery with any command, item, clock, handler answer and stop; and a forward
    of the chain with its drain. *)
Inductive edge_step : EdgeState * list EffectAuditRecord -> EdgeState * list EffectAuditRecord -> Prop :=
| es_deliver run command_id item budget s s' en forwarded :
    ru_settings run = settings -> ru_chained run = true ->
    execute_command_once sha256 is_safe_write run command_id item budget s = (s', en) ->
    edge_step (s, forwarded) (s', forwarded)
| es_forward s forwarded :
    edge_step (s, forwarded)
      (set_chain (mark_forwarded (last_file (es_chain s))) s, forwarded ++ unforwarded (es_chain s)).

Definition fresh_edge : EdgeState := {| es_executed := ∅; es_chain := empty_chain; es_calls := [] |}.

Definition edge_reachable (w : EdgeState * list EffectAuditRecord) : Prop := rtc edge_step (fresh_edge, []) w.

(** The intent of a call is on the chain, or was forwarded. *)
Definition on_record (e : Effect) (w : EdgeState * list EffectAuditRecord) : Prop :=
  exists x, says e x /\ (x ∈ w.2 \/ settled_record x (es_chain w.1)).

Definition call_ok (w : EdgeState * list EffectAuditRecord) (c : string * (RunnerWorkItem * datetime)) : Prop :=
  is_Some (es_executed w.1 !! c.1) /\
  (exists run, ru_settings run = settings /\ ru_now run = c.2.2 /\
     refuse_or_resolve sha256 is_safe_write run c.2.1 = None) /\
  (item_tier is_safe_write c.2.1 = TIER_REMOTE_WRITE -> on_record (effect_of sha256 c.1 c.2.1 INTENT None) w).

Definition edge_inv (w : EdgeState * list EffectAuditRecord) : Prop :=
  NoDup (fst <$> es_calls w.1) /\ Forall (call_ok w) (es_calls w.1).

(** What a delivery does to the disk. *)
Lemma once_cases run command_id item n s s' en :
  execute_command_once sha256 is_safe_write run command_id item n s = (s', en) ->
  (s' = s /\ is_Some (es_executed s !! command_id)) \/ s' = s \/
  (es_executed s !! command_id = None /\ exists n1 s1 e1 v,
     execute_work_item sha256 is_safe_write run command_id item n1 (set_executed <[command_id := None]> s) = (s1, e1) /\
     s' = set_executed <[command_id := v]> s1).
Proof.
  unfold execute_command_once, record_command, load_result, store_result, look.
  unfold mbind, edge_bind, put, mret, edge_ret. case_bool_decide as Hp; [intros [= <- <-]; by left|].
  rewrite <- eq_None_not_Some in Hp. destruct n as [|n]; [intros [= <- <-]; right; by left|].
  destruct (execute_work_item _ _ _ _ _ n _) as [s1 e1] eqn:E. intros Hd. right; right. split; [done|].
  assert (es_executed s1 !! command_id = Some None) as Hm.
  { apply execute_cases in E as [-> _]. simpl. by rewrite lookup_insert_eq. }
  assert (s1 = set_executed <[command_id := None]> s1) as Hs1.
  { destruct s1 as [ex ch ca]. unfold set_executed. simpl in *. by rewrite insert_id. }
  exists n, s1, e1. destruct e1 as [|err|r n1]; [injection Hd as <- <-; by exists None..|].
  destruct n1 as [|n1]; injection Hd as <- <-; [by exists None|by exists (Some r)].
Qed.

Lemma call_ok_mono w w' c :
  (is_Some (es_executed w.1 !! c.1) -> is_Some (es_executed w'.1 !! c.1)) ->
  (forall x, x ∈ w.2 \/ settled_record x (es_chain w.1) -> x ∈ w'.2 \/ settled_record x (es_chain w'.1)) ->
  call_ok w c -> call_ok w' c.
Proof.
  intros He Hx (H1 & H2 & H3). split_and!; [by apply He|done|]. intros Ht. apply H3 in Ht as (x & Hs & Hin).
  exists x. split; [done|]. by apply Hx.
Qed.

Lemma edge_inv_step w w' : edge_step w w' -> edge_inv w -> edge_inv w'.
Proof.
  intros Hstep [Hnd Hall]. destruct Hstep as [run id item n s s' en fw Hset Hch Hd|s fw].
  - apply once_cases in Hd as [[-> _]|[->|(Hnone & n1 & s1 & e1 & v & Hd & ->)]]; [by split..|].
    apply execute_cases in Hd as (Hex & Hkeep & Hcalls). simpl in *.
    assert (forall c, call_ok (s, fw) c -> call_ok (set_executed <[id := v]> s1, fw) c) as Hmono.
    { intros c. apply call_ok_mono; simpl.
      - intros Hc. rewrite Hex. destruct (decide (c.1 = id)) as [->|Hne]; [by rewrite lookup_insert_eq|].
        by rewrite !lookup_insert_ne.
      - intros x [Hx|Hx]; [by left|right]. by apply Hkeep. }
    destruct Hcalls as [Hc|(Hc & Hr & Hi)]; unfold edge_inv; cbn [fst es_calls set_executed]; rewrite Hc.
    + split; [done|]. eapply Forall_impl; [exact Hall|]. exact Hmono.
    + rewrite fmap_app. split.
      * apply NoDup_snoc; [done|]. intros Hin. apply list_elem_of_fmap in Hin as ([id' ca] & Hid & Hin). simpl in Hid.
        subst id'. rewrite Forall_forall in Hall. apply Hall in Hin as [[? Hsome] _]. simpl in Hsome. congruence.
      * apply Forall_app. split; [eapply Forall_impl; [exact Hall|]; exact Hmono|]. apply Forall_singleton.
        split_and!; simpl; [by rewrite lookup_insert_eq|by exists run|]. intros Ht.
        destruct (Hi Hch Ht) as (x & Hx & Hs). exists x. split; [done|]. by right.
  - split; [done|]. simpl. eapply Forall_impl; [exact Hall|]. intros c. apply call_ok_mono; [done|].
    intros x [Hx|[Hx _]]; left; simpl; apply elem_of_app; [by left|by right].
Qed.

Lemma edge_reachable_inv w : edge_reachable w -> edge_inv w.
Proof.
  assert (edge_inv (fresh_edge, [])) as H0 by (split; constructor).
  intros Hr. unfold edge_reachable in Hr. induction Hr as [|x y z Hs _ IH]; [done|]. by eapply IH, edge_inv_step.
Qed.
Lemma result_stays w w' id r :
  rtc edge_step w w' -> es_executed w.1 !! id = Some (Some r) -> es_executed w'.1 !! id = Some (Some r).
Proof.
  induction 1 as [|x y z Hs _ IH]; [done|]. intros Hr. apply IH. clear IH.
  destruct Hs as [run id' item n s s' en fw _ _ Hd|s fw]; [|done]. simpl in *.
  apply once_cases in Hd as [[-> _]|[->|(Hnone & n1 & s1 & e1 & v & Hd & ->)]]; [done..|].
  apply execute_cases in Hd as (Hex & _ & _). simpl in *. rewrite Hex.
  destruct (decide (id = id')) as [->|Hne]; [congruence|]. by rewrite !lookup_insert_ne.
Qed.

(** C20. A command runs at most once at the edge, whatever is delivered, redelivered,
    forwarded and stopped at any write: no two calls are for one command, a command
    that has a marker is answered from the disk without touching it, with its
    stored result or a refusal, and a stored result never changes. *)
Theorem commands_run_at_most_once w :
  edge_reachable w ->
  NoDup (fst <$> es_calls w.1) /\
  (forall id call, (id, call) ∈ es_calls w.1 -> has_command id w.1 = true) /\
  (forall id, has_command id w.1 = true -> forall run item n,
     execute_command_once sha256 is_safe_write run id item n w.1 =
     (w.1, done_with (match es_executed w.1 !! id with
                      | Some (Some r) => r
                      | _ => result_of run item st_refused None (Some duplicate_delivery)
                      end) n)) /\
  (forall id r w', es_executed w.1 !! id = Some (Some r) -> rtc edge_step w w' ->
     es_executed w'.1 !! id = Some (Some r)).
Proof.
  intros [Hnd Hall]%edge_reachable_inv. split_and!; [done| | |].
  - intros id item Hin. rewrite Forall_forall in Hall. apply Hall in Hin as [Hs _]. by apply bool_decide_eq_true.
  - intros id Hid run item n. apply bool_decide_eq_true in Hid as [v Hv].
    unfold execute_command_once, record_command, load_result, look, mbind, edge_bind, mret, edge_ret.
    rewrite bool_decide_true by (by rewrite Hv). rewrite Hv. by destruct v.
  - intros id r w' Hr Hw. by eapply result_stays.
Qed.

(** The fields a signature binds, as the centre issued them. *)
Record Issued := { is_op_id : string; is_params : json_dict; is_target_scope : string; is_expires_at : datetime }.

Definition issued_bytes (i : Issued) : string :=
  remote_write_signing_bytes (is_op_id i) (params_digest sha256 (is_params i)) (is_target_scope i) (is_expires_at i).

Lemma refuse_None run item :
  refuse_or_resolve sha256 is_safe_write run item = None -> item_tier is_safe_write item = TIER_REMOTE_WRITE ->
  exists signature expires_at key,
    wi_signature item = Some signature /\ wi_expires_at item = Some expires_at /\
    load_verify_key (es_satellite_write_verify_key (ru_settings run)) = Ok key /\
    verify_remote_write_item key signature (wi_op_id item) (params_digest sha256 (wi_params item))
      (item_target_scope item) expires_at = true /\
    (ru_now run < expires_at)%Z /\ edge_gate (ru_settings run) item = gate_permitted /\
    is_wrapped_credential_ref (wi_target_descriptor item ≫= td_secret_ref) = true.
Proof.
  unfold refuse_or_resolve. intros Hr Ht. destruct (package_set_refusal _ _); [done|]. unfold screen_item in Hr.
  rewrite Ht in Hr. destruct (screen_remote_item _ _ _ _) as [e|] eqn:Es; [done|]. clear Hr.
  unfold screen_remote_item in Es. destruct (verify_remote_write_signature _ _ _ _) as [e|] eqn:Ev; [done|].
  destruct (edge_gate _ _) eqn:Eg; [|done..]. unfold screen_remote_write_credential in Es.
  destruct (is_wrapped_credential_ref _) eqn:Ew; [|done]. unfold verify_remote_write_signature in Ev.
  destruct (wi_signature item) as [sg|] eqn:Esg; [|done]. destruct (decide (sg = "")) as [->|Hne]; [done|].
  assert (Ev' : match wi_expires_at item with
                | None => Some no_freshness_bound
                | Some t => match load_verify_key (es_satellite_write_verify_key (ru_settings run)) with
                    | Raise e => Some (verify_key_unavailable e)
                    | Ok k => if negb (verify_remote_write_item k sg (wi_op_id item)
                         (params_digest sha256 (wi_params item)) (item_target_scope item) t)
                      then Some signature_invalid else if (t <=? ru_now run)%Z then Some capability_expired else None
                    end end = None) by (by destruct sg). clear Ev.
  destruct (wi_expires_at item) as [t|]; [|done]. destruct (load_verify_key _) as [k|] eqn:Ek; [|done].
  destruct (verify_remote_write_item _ _ _ _ _ _) eqn:Ever; [|done]. simpl in Ev'.
  destruct (t <=? ru_now run)%Z eqn:Et; [done|]. to_prop. by exists sg, t, k.
Qed.

(** C19. No remote write runs at the edge unless the centre issued it.  If every
    message that verifies under the provisioned key is one the centre signed, then
    the operation, the parameters, the target and the expiry of every remote write
    that ran are those of one issue, it ran before that expiry, the runner's own
    allowlist admits it, it carried a single-use credential, and its intent is on
    the chain or was forwarded. *)
Theorem remote_writes_are_issued_and_recorded w (issued : list Issued) key id item now :
  (forall a b, sha256 a = sha256 b -> a = b) ->
  load_verify_key (es_satellite_write_verify_key settings) = Ok key ->
  (forall sg m, ed_verify key sg m = true -> exists i, i ∈ issued /\ m = issued_bytes i) ->
  Forall (fun i => datetime_ok (is_expires_at i) /\ floats_finite (JDict (is_params i)) = true) issued ->
  edge_reachable w -> (id, (item, now)) ∈ es_calls w.1 -> item_tier is_safe_write item = TIER_REMOTE_WRITE ->
  floats_finite (JDict (wi_params item)) = true -> (forall t, wi_expires_at item = Some t -> datetime_ok t) ->
  (exists i, i ∈ issued /\ is_op_id i = wi_op_id item /\ is_target_scope i = item_target_scope item /\
     json_sorted (JDict (is_params i)) = json_sorted (JDict (wi_params item)) /\
     wi_expires_at item = Some (is_expires_at i) /\ (now < is_expires_at i)%Z) /\
  edge_gate settings item = gate_permitted /\
  is_wrapped_credential_ref (wi_target_descriptor item ≫= td_secret_ref) = true /\
  on_record (effect_of sha256 id item INTENT None) w.
Proof.
  intros Hinj Hkey Hforge Hissued Hr Hin Ht Hfin Hdt. apply edge_reachable_inv in Hr as [_ Hall].
  rewrite Forall_forall in Hall. apply Hall in Hin as (_ & (run & Hset & Hnow & Hno) & Hrec). simpl in *.
  destruct (refuse_None _ _ Hno Ht) as (sg & t & k & Hs & He & Hk & Hv & Hlt & Hg & Hw). rewrite Hset in *.
  rewrite Hkey in Hk. injection Hk as <-. split_and!; [|done|done|by apply Hrec].
  unfold verify_remote_write_item in Hv. destruct (b64decode sg) as [raw|]; [|done].
  apply Hforge in Hv as (i & Hi & Hm). rewrite Forall_forall in Hissued. destruct (Hissued _ Hi) as [Hti Hfi].
  symmetry in Hm. apply signing_bytes_inj in Hm as (Hop & Hph & Hsc & Hte); [|done|by apply Hdt].
  exists i. split_and!; try done; [by apply (params_digest_inj sha256)|by rewrite Hte|]. by rewrite Hte, <- Hnow.
Qed.
End Reachable.
End EdgeFacts.

(** * From the mint to the edge *)

Section EndToEnd.
Context (sha256 : string -> string) `{Sig : SignatureScheme} `{!SignatureLaws} (is_safe_write : string -> bool).

(** A work item that carries a minted command. *)
Record carries (c : GatewayCommand) (target_id : uuid) (item : RunnerWorkItem) : Prop := {
  ca_op : wi_op_id item = gc_op_id c;
  ca_params : wi_params item = gc_params c;
  ca_level : wi_safety_level item = gc_safety_level c;
  ca_signature : wi_signature item = gc_signature c;
  ca_expires : wi_expires_at item = Some (gc_expires_at c);
  ca_target : exists d, wi_target_descriptor item = Some d /\ td_id d = target_id /\
                is_wrapped_credential_ref (td_secret_ref d) = true;
  ca_handler : starts_with CONNECTOR_MODULE_PREFIX (wi_handler_ref item) = true;
  ca_packages : wi_package_set item = None;
}.

(** A runner that is provisioned as the centre holds it. *)
Record provisioned (key : string) (entries : list RemoteWriteAllowEntry) (s : EdgeSettings) : Prop := {
  pv_allowlist : es_satellite_write_allowlist s = join "," (render_entry <$> entries);
  pv_entries : Forall entry_ok entries;
  pv_key : es_satellite_write_verify_key s = b64encode (ed_public key);
}.

Lemma signature_not_empty key op h scope t : sign_remote_write_item key op h scope t <> "".
Proof.
  unfold sign_remote_write_item. intros He. pose proof (b64_roundtrip (ed_sign key (remote_write_signing_bytes op h scope t))) as Hr.
  rewrite He in Hr. injection Hr as Hr. apply (f_equal String.length) in Hr. by rewrite signature_length in Hr.
Qed.

Lemma wrapped_ref_ok token : token <> "" -> is_wrapped_credential_ref (Some (WRAPPED_CREDENTIAL_SCHEME +:+ ":" +:+ token)) = true.
Proof.
  intros Ht. unfold is_wrapped_credential_ref.
  change (WRAPPED_CREDENTIAL_SCHEME +:+ ":" +:+ token) with (WRAPPED_CREDENTIAL_SCHEME +:+ String ":" token).
  rewrite partition_on_app by done. by rewrite (bool_decide_false (token = "")).
Qed.

Lemma bounded_ttl_Ok expires_at requested now ttl :
  bounded_wrap_ttl expires_at requested now = Ok ttl ->
  (now + ttl * 1000000 <= expires_at)%Z /\ (0 < ttl)%Z /\ (forall r, requested = Some r -> (ttl <= r)%Z).
Proof.
  unfold bounded_wrap_ttl. intros Eb. apply bind_Ok in Eb as ([] & Eh%guard_or_Ok & Eb). to_prop.
  set (hd := Z.quot (expires_at - now) 1000000) in *.
  assert (now + hd * 1000000 <= expires_at)%Z as Hle.
  { pose proof (Z.quot_rem' (expires_at - now) 1000000) as Hq. fold hd in Hq.
    assert (0 <= Z.rem (expires_at - now) 1000000)%Z; [|lia]. apply Z.rem_nonneg; [done|].
    destruct (Z.le_gt_cases 0 (expires_at - now)); [done|]. pose proof (Z.quot_opp_l (now - expires_at) 1000000).
    assert (0 <= Z.quot (now - expires_at) 1000000)%Z by (apply Z.quot_pos; lia).
    replace (- (now - expires_at))%Z with (expires_at - now)%Z in * by lia. fold hd in H. lia. }
  destruct requested as [r|].
  - apply bind_Ok in Eb as ([] & Er%guard_or_Ok & [= <-]). to_prop. split_and!; [nia|lia|]. intros r' [= <-]. lia.
  - injection Eb as <-. split_and!; [done|done|]. by intros r.
Qed.

(** A brokered credential passes the edge's screen and never outlives the
    capability it was brokered for; one that has less than a second left, or a
    requested lifetime that is not positive, is refused. *)
Theorem brokered_credentials_are_bounded secret wrap_token expires_at requested now :
  match broker_wrapped_credential secret wrap_token expires_at requested now with
  | Ok c => is_wrapped_credential_ref (Some (wc_unwrap_ref c)) = true /\
            (now < wc_expires_at c <= expires_at)%Z /\ (0 < wc_wrap_ttl_seconds c)%Z /\
            (forall r, requested = Some r -> (wc_wrap_ttl_seconds c <= r)%Z)
  | Raise capability_not_in_future => (expires_at < now + 1000000)%Z
  | Raise requested_ttl_not_positive => exists r, requested = Some r /\ (r <= 0)%Z
  | Raise wrap_read_failed => secret = None
  | Raise no_wrapping_token => exists data ttl, secret = Some data /\ bounded_wrap_ttl expires_at requested now = Ok ttl /\
                                 default "" (wrap_token data ttl) = ""
  end.
Proof.
  unfold broker_wrapped_credential. destruct (bounded_wrap_ttl expires_at requested now) as [ttl|e] eqn:Eb; simpl.
  - destruct secret as [data|]; simpl; [|done]. destruct (wrap_token data ttl) as [token|] eqn:Et; simpl; [|by exists data, ttl; rewrite Et].
    destruct (decide (token = "")) as [->|Hne]; [rewrite bool_decide_true by done; simpl; exists data, ttl; by rewrite Et|].
    rewrite bool_decide_false by done. cbn [negb guard_or mbind res_bind]. split; [by apply wrapped_ref_ok|].
    cbn [wc_expires_at wc_wrap_ttl_seconds]. apply bounded_ttl_Ok in Eb as (H1 & H2 & H3). split; [lia|]. by split.
  - unfold bounded_wrap_ttl in Eb. apply bind_Raise in Eb as [Eb|([] & _ & Eb)].
    + unfold guard_or in Eb. destruct (0 <? _)%Z eqn:Eh; [done|]. injection Eb as <-. apply Z.ltb_ge in Eh.
      pose proof (Z.quot_rem' (expires_at - now) 1000000). pose proof (Z.rem_bound_abs (expires_at - now) 1000000). lia.
    + destruct requested as [r|]; [|done]. apply bind_Raise in Eb as [Eb|([] & _ & Eb)]; [|done].
      unfold guard_or in Eb. destruct (0 <? r)%Z eqn:Eh; [done|]. injection Eb as <-. apply Z.ltb_ge in Eh. eauto.
Qed.

Lemma screens_pass key entries s now item c target_id a env approval audit level approvals db db' aid :
  provisioned key entries s -> carries c target_id item ->
  finalize_mint sha256 audit a env level (Some key) approval approvals db = Ok (db', minted c aid) ->
  target_scope_of (mn_target a) = target_id -> (now < gc_expires_at c)%Z ->
  evaluate_remote_write_gate (mn_op_id a) entries target_id = gate_permitted ->
  screen_remote_item sha256 s now item = None.
Proof.
  intros [Ha He Hk] [Hop Hp Hl Hs Hx (d & Hd & Hid & Hw) Hh _] Hm Ht Hnow Hg.
  apply finalize_Ok in Hm as (Hc & _ & _). injection Hc as Hc _.
  assert (item_target_scope item = target_id) as Hscope by (unfold item_target_scope; by rewrite Hd).
  unfold screen_remote_item, verify_remote_write_signature, edge_gate. rewrite Hs, Hx, Hscope, Ha, (parse_rendered _ He), Hop, Hp, Hk.
  assert (gc_signature c = Some (mint_signature sha256 a key (gc_expires_at c))) as -> by (by rewrite Hc).
  pose proof (signature_not_empty key (mn_op_id a) (params_digest sha256 (mn_params a)) (target_scope_of (mn_target a)) (gc_expires_at c)) as Hne.
  unfold load_verify_key. rewrite load_key_encoded by apply public_length. unfold mint_signature.
  assert (gc_op_id c = mn_op_id a /\ gc_params c = mn_params a) as [-> ->] by (by rewrite Hc).
  rewrite <- Ht in *. pose proof (verify_signed key (mn_op_id a) (params_digest sha256 (mn_params a)) (target_scope_of (mn_target a)) (gc_expires_at c)) as Hv.
  rewrite Hv. destruct (sign_remote_write_item _ _ _ _ _) as [|ch sg]; [done|]. simpl.
  rewrite (proj2 (Z.leb_gt _ _) Hnow), Hg. unfold screen_remote_write_credential. rewrite Hd. simpl. by rewrite Hw.
Qed.

(** An unbroken bracket: the intent, the call and the outcome. *)
Lemma bracket_runs run command_id item b s k h :
  refuse_or_resolve sha256 is_safe_write run item = None -> item_tier is_safe_write item = TIER_REMOTE_WRITE ->
  ru_chained run = true -> read_head (es_chain s) = Ok (k, h) ->
  exists s' r d1 x y,
    execute_work_item sha256 is_safe_write run command_id item (5 + b) s = (s', done_with r b) /\
    es_executed s' = es_executed s /\ es_calls s' = es_calls s ++ [(command_id, (item, ru_now run))] /\
    append sha256 (ru_runner_id run) (effect_of sha256 command_id item INTENT None) (ru_now_intent run) (es_chain s) = Ok (d1, x) /\
    append sha256 (ru_runner_id run) (effect_of sha256 command_id item OUTCOME (Some (status_value (rr_status r))))
      (ru_now_outcome run) d1 = Ok (es_chain s', y) /\
    r = match ru_answer run with
        | answered payload => result_of run item st_ok (Some payload) None
        | answered_other => result_of run item st_error None (Some handler_non_dict)
        | answered_error text => result_of run item st_error None (Some (handler_raised text))
        end.
Proof.
  intros Hr Ht Hc Hh. unfold execute_work_item. rewrite Hr. unfold invoke_recording_effect.
  rewrite Hc, bool_decide_true by done. cbn [negb orb].
  unfold chain_append, invoke, mbind, edge_bind, look, put, mret, edge_ret, append, append_record. rewrite Hh.
  cbn. do 5 eexists. split_and!; reflexivity.
Qed.

(** C26. What the centre mints runs at the edge.  A remote write that was signed and
    queued, carried to a runner with the matching public key and allowlist, before
    its expiry and with a single-use credential, passes every screen: the handler
    is called once, the bracket of its intent and outcome is appended to the chain,
    and the result is on the disk for the redelivery. *)
Theorem minted_writes_run_at_the_edge audit a env key entries approval approvals db db' c aid settings item run b s k h target_id :
  finalize_mint sha256 audit a env "caution" (Some key) approval approvals db = Ok (db', minted c aid) ->
  target_scope_of (mn_target a) = target_id ->
  evaluate_remote_write_gate (mn_op_id a) entries target_id = gate_permitted ->
  provisioned key entries settings -> carries c target_id item ->
  ru_settings run = settings -> ru_chained run = true -> (ru_now run < gc_expires_at c)%Z ->
  (exists m, ru_import run (wi_handler_ref item) = Some m /\ starts_with CONNECTOR_MODULE_PREFIX m = true) ->
  es_executed s !! gc_id c = None -> read_head (es_chain s) = Ok (k, h) ->
  exists s' r d1 x y,
    execute_command_once sha256 is_safe_write run (gc_id c) item (7 + b) s = (s', done_with r b) /\
    es_calls s' = es_calls s ++ [(gc_id c, (item, ru_now run))] /\
    es_executed s' !! gc_id c = Some (Some r) /\
    append sha256 (ru_runner_id run) (effect_of sha256 (gc_id c) item INTENT None) (ru_now_intent run) (es_chain s) = Ok (d1, x) /\
    append sha256 (ru_runner_id run) (effect_of sha256 (gc_id c) item OUTCOME (Some (status_value (rr_status r))))
      (ru_now_outcome run) d1 = Ok (es_chain s', y) /\
    (forall payload, ru_answer run = answered payload -> rr_status r = st_ok /\ rr_result r = Some payload).
Proof.
  intros Hm Ht Hg Hp Hc Hset Hch Hnow (m & Him & Hmod) Hnew Hh.
  assert (item_tier is_safe_write item = TIER_REMOTE_WRITE) as Htier.
  { unfold item_tier, classify_satellite_tier. rewrite (ca_level _ _ _ Hc).
    apply finalize_Ok in Hm as (Hmc & _). injection Hmc as -> _. done. }
  assert (refuse_or_resolve sha256 is_safe_write run item = None) as Hr.
  { unfold refuse_or_resolve, package_set_refusal. rewrite (ca_packages _ _ _ Hc). unfold screen_item. rewrite Htier, Hset.
    rewrite (screens_pass _ _ _ _ _ _ _ _ _ _ _ _ _ _ _ _ Hp Hc Hm Ht Hnow Hg), (ca_handler _ _ _ Hc), Him. by rewrite Hmod. }
  set (s0 := set_executed <[gc_id c := None]> s).
  destruct (bracket_runs run (gc_id c) item (1 + b) s0 k h Hr Htier Hch Hh) as (s1 & r & d1 & x & y & He & Hex & Hca & H1 & H2 & Hres).
  exists (set_executed <[gc_id c := Some r]> s1), r, d1, x, y. split_and!.
  - unfold execute_command_once, record_command, look, mbind, edge_bind, put, store_result, mret, edge_ret.
    rewrite bool_decide_false by (by rewrite Hnew; intros []). cbn [Nat.add]. fold s0.
    change (S (S (S (S (S (S b)))))) with (5 + (1 + b)). by rewrite He.
  - exact Hca.
  - simpl. by rewrite lookup_insert_eq.
  - exact H1.
  - exact H2.
  - intros payload Ha. by rewrite Hres, Ha.
Qed.
End EndToEnd.

(** * Witnesses *)

Definition w_zeros (n : nat) : string := String.concat "" (repeat "0" n).

(** A scheme under which one message verifies. *)
Definition w_one_message (m0 : string) : SignatureScheme := {|
  ed_public _ := w_zeros 32; ed_sign _ _ := w_zeros 64; ed_verify _ _ m := bool_decide (m = m0) |}.

(** A scheme under which every signed message verifies. *)
Definition w_any_message : SignatureScheme := {|
  ed_public _ := w_zeros 32; ed_sign _ _ := w_zeros 64; ed_verify _ s _ := bool_decide (s = w_zeros 64) |}.

Lemma w_any_laws : @SignatureLaws w_any_message.
Proof. split; intros; vm_compute; done. Qed.

Definition w_descriptor : ResolvedTargetDescriptor := {|
  td_id := "t-1"; td_tenant_id := "t1"; td_name := "vault"; td_aliases := []; td_product := "vault"; td_version := None;
  td_fingerprint := None; td_preferred_impl_id := None; td_host := "vault.local"; td_port := None; td_fqdn := None;
  td_secret_ref := Some "wrapped:s.token"; td_auth_model := "shared_service_account"; td_verify_tls := true;
  td_tls_ca_pin := None; td_tls_server_name := None; td_secret_field_map := []; td_extras := []; td_updated_at := None |}.

Definition w_item (signature : string) (expires_at : datetime) : RunnerWorkItem := {|
  wi_check_ref := "c"; wi_op_id := "vault.kv.list"; wi_product := "vault"; wi_version := "1"; wi_impl_id := "x";
  wi_handler_ref := "meho_backplane.connectors.vault.put"; wi_params := [("path", JStr "a")];
  wi_safety_level := "caution";
  wi_principal := {| wp_sub := "carl"; wp_tenant_id := "t1"; wp_tenant_role := OPERATOR; wp_principal_kind := USER |};
  wi_target_descriptor := Some w_descriptor; wi_signature := Some signature; wi_expires_at := Some expires_at;
  wi_package_set := None |}.

Definition w_edge_settings : EdgeSettings := {|
  es_satellite_write_allowlist := "vault.kv.*@*"; es_satellite_write_verify_key := b64encode (w_zeros 32);
  es_package_set_digest := "sha256:0" |}.

Definition w_run (now : datetime) : EdgeRun := {|
  ru_settings := w_edge_settings; ru_runner_id := "edge-1"; ru_chained := true; ru_now := now; ru_now_intent := now;
  ru_now_outcome := now; ru_uid := "u1"; ru_import := fun r => Some r; ru_answer := answered [] |}.

Definition w_issued : Issued := {|
  is_op_id := "vault.kv.list"; is_params := [("path", JStr "a")]; is_target_scope := "t-1";
  is_expires_at := 1000 |}.

Definition w_message : string := issued_bytes hex_of w_issued.

Definition w_delivered (stop : nat) : EdgeState :=
  (@execute_command_once hex_of (w_one_message w_message) (fun _ => false) (w_run 5) "cmd-1"
     (w_item (b64encode (w_zeros 64)) 1000) stop fresh_edge).1.

Lemma w_delivered_reachable stop :
  @edge_reachable hex_of (w_one_message w_message) (fun _ => false) w_edge_settings (w_delivered stop, []).
Proof.
  apply rtc_once. unfold w_delivered. destruct (execute_command_once _ _ _ _ _ _ _) as [s en] eqn:E.
  by apply (es_deliver _ _ _ (w_run 5) "cmd-1" (w_item (b64encode (w_zeros 64)) 1000) stop _ _ en).
Qed.

Lemma commands_run_at_most_once_witness :
  length (es_calls (w_delivered 7)) = 1 /\ NoDup (fst <$> es_calls (w_delivered 7)) /\
  forall run item n, snd (@execute_command_once hex_of (w_one_message w_message) (fun _ => false) run "cmd-1" item n
    (w_delivered 4)) = done_with (result_of run item st_refused None (Some duplicate_delivery)) n.
Proof.
  split; [by vm_compute|].
  pose proof (commands_run_at_most_once hex_of (fun _ => false) w_edge_settings _ (w_delivered_reachable 7)) as (Hnd & _).
  pose proof (commands_run_at_most_once hex_of (fun _ => false) w_edge_settings _ (w_delivered_reachable 4)) as (_ & _ & H & _).
  split; [exact Hnd|]. intros run item n. specialize (H "cmd-1" ltac:(by vm_compute) run item n). cbn [fst] in H. rewrite H. simpl.
  assert (es_executed (w_delivered 4) !! "cmd-1" = Some None) as -> by (by vm_compute). done.
Defined.

Lemma remote_writes_are_issued_and_recorded_witness :
  exists item now, es_calls (w_delivered 4) = [("cmd-1", (item, now))] /\
    on_record (effect_of hex_of "cmd-1" item INTENT None) (w_delivered 4, []).
Proof.
  exists (w_item (b64encode (w_zeros 64)) 1000), 5%Z. split; [by vm_compute|].
  apply (@remote_writes_are_issued_and_recorded hex_of (w_one_message w_message) (fun _ => false) w_edge_settings (w_delivered 4, []) [w_issued]
    (w_zeros 32) "cmd-1" (w_item (b64encode (w_zeros 64)) 1000) 5%Z hex_of_inj).
  - by vm_compute.
  - intros sg m Hm. apply bool_decide_eq_true in Hm. exists w_issued. split; [by left|done].
  - constructor; [|done]. split; [by vm_compute|done].
  - apply w_delivered_reachable.
  - assert (es_calls (w_delivered 4) = [("cmd-1", (w_item (b64encode (w_zeros 64)) 1000, 5%Z))]) as E by (by vm_compute).
    cbn [fst]. rewrite E. by left.
  - done.
  - by vm_compute.
  - intros t [= <-]. by vm_compute.
Defined.

Lemma brokered_credentials_are_bounded_witness : exists c,
  broker_wrapped_credential (Some []) (fun _ _ => Some "s.t") 9000000 (Some 5%Z) 1000000 = Ok c /\
  (1000000 < wc_expires_at c <= 9000000)%Z.
Proof.
  eexists. pose proof (brokered_credentials_are_bounded (Some []) (fun _ _ => Some "s.t") 9000000 (Some 5%Z) 1000000) as H.
  split; [by vm_compute|]. cbn in H. apply H.
Defined.

Definition w_edge_args : MintArgs := {|
  mn_operator := build_operator (w_item "" 0); mn_connector_id := "vault-1.x"; mn_op_id := "vault.kv.list";
  mn_target := Some {| tg_id := Some "t-1"; tg_product := None; tg_name := None |};
  mn_params := [("path", JStr "a")]; mn_runner_id := "edge-1"; mn_target_descriptor := None; mn_expires_at := None |}.

Definition w_edge_env : MintEnv := {|
  me_command_id := "cmd-1"; me_audit_id := "mint-1"; me_now := 0; me_now' := 0; me_actor := None |}.

Definition w_no_approvals : ApprovalDb := {| aq_requests := []; aq_audit := []; aq_payloads := [] |}.

Definition w_edge_db : MintDb := {|
  md_catalog := {| cd_descriptors := []; cd_settings := []; cd_overrides := [] |}; md_permissions := []; md_scopes := [];
  md_grants := {| gd_grants := []; gd_delete_grants := []; gd_ledger := [] |}; md_approvals := w_no_approvals; md_runners := no_runners;
  md_gateway := demo_gateway; md_audit := [] |}.

Definition w_edge_minted := @finalize_mint hex_of w_any_message (fun _ => "h") w_edge_args w_edge_env "caution" (Some "k")
  (Some "req-1") w_no_approvals w_edge_db.

Lemma minted_writes_run_at_the_edge_witness : exists c s' r,
  @execute_command_once hex_of w_any_message (fun _ => false) (w_run 5) (gc_id c)
    (w_item (@sign_remote_write_item w_any_message "k" "vault.kv.list" (params_digest hex_of [("path", JStr "a")]) "t-1"
              (gc_expires_at c)) (gc_expires_at c)) 7 fresh_edge = (s', done_with r 0) /\ rr_status r = st_ok.
Proof.
  destruct w_edge_minted as [[db' res]|] eqn:E; [|by vm_compute in E].
  destruct res as [c aid|code]; [|unfold w_edge_minted in E; apply finalize_Ok in E as (E & _); discriminate].
  assert (c = @minted_command hex_of w_any_message w_edge_args w_edge_env "caution" (Some "k")) as Hc
    by (unfold w_edge_minted in E; apply finalize_Ok in E as (E & _); by injection E).
  assert (gc_expires_at c = 300000000%Z) as Hexp by (by rewrite Hc; vm_compute).
  destruct (@minted_writes_run_at_the_edge hex_of w_any_message w_any_laws (fun _ => false) (fun _ => "h") w_edge_args w_edge_env "k"
    [{| ae_op_pattern := "vault.kv.*"; ae_target_scope := "*" |}] (Some "req-1") w_no_approvals w_edge_db db' c aid w_edge_settings
    (w_item (@sign_remote_write_item w_any_message "k" "vault.kv.list" (params_digest hex_of [("path", JStr "a")]) "t-1"
              (gc_expires_at c)) (gc_expires_at c)) (w_run 5) 0 fresh_edge (-1) GENESIS_PREV_HASH "t-1")
    as (s' & r & d1 & x & y & He & _ & _ & _ & _ & Ha).
  - exact E.
  - done.
  - by vm_compute.
  - split; [by vm_compute|by repeat constructor|by vm_compute].
  - rewrite Hc. split; try done. by exists w_descriptor.
  - done.
  - done.
  - rewrite Hexp. done.
  - exists "meho_backplane.connectors.vault.put". by split.
  - done.
  - done.
  - exists c, s', r. split; [exact He|]. by destruct (Ha [] eq_refl).
Defined.
