(* ===== verification/Connectors.v ===== *)
(** Connectors: the registry ([connectors/registry.py]) and the choice of an
    implementation for a target ([connectors/resolver.py]).

    The [packaging] library is a parameter: how it reads a version (with its release
    numbers) and a specifier set (its clauses, in the order they are iterated), and
    which versions a set contains.  Spans are computed in binary64 as Python does,
    and compared by value. *)

From Stdlib Require Import ZArith Floats.SpecFloat.
From S2P Require Import Prelude Json Catalog.

Inductive ShimKind := shim_none | shim_profiled | shim_bare.
#[export] Instance ShimKind_eq_dec : EqDecision ShimKind.
Proof. solve_decision. Defined.

(** The class attributes the registry and the resolver read. *)
Record ConnectorCls := {
  cc_name : string;
  cc_product : string;
  cc_version : string;
  cc_impl_id : string;
  cc_supported_version_range : option string;
  cc_priority : Z;
  cc_shim_kind : ShimKind;
}.
#[export] Instance ConnectorCls_eq_dec : EqDecision ConnectorCls.
Proof. solve_decision. Defined.

Definition shim_kind (c : ConnectorCls) : ShimKind := cc_shim_kind c.

(** * The registry *)

Abbreviation triple := (string * string * string)%type.

(** Both tables in the order of registration. *)
Record Registry := {
  rg_v1 : list (string * ConnectorCls);
  rg_v2 : list (triple * ConnectorCls);
}.

Definition empty_registry : Registry := {| rg_v1 := []; rg_v2 := [] |}.

Inductive RegistryError := duplicate_registration | product_does_not_round_trip.

Definition add_v2 (key : triple) (cls : ConnectorCls) (r : Registry) : Registry :=
  {| rg_v1 := rg_v1 r; rg_v2 := rg_v2 r ++ [(key, cls)] |}.

Definition register_connector (product : string) (cls : ConnectorCls) (r : Registry) : res RegistryError Registry :=
  _ ← guard_or duplicate_registration (bool_decide (product ∉ fst <$> rg_v1 r));
  _ ← guard_or duplicate_registration (bool_decide ((product, "", "") ∉ fst <$> rg_v2 r));
  Ok (add_v2 (product, "", "") cls {| rg_v1 := rg_v1 r ++ [(product, cls)]; rg_v2 := rg_v2 r |}).

Definition product_impl_id_round_trips (product version impl_id : string) : bool :=
  if bool_decide (version = "") || bool_decide (impl_id = "") then true
  else let '(derived_product, derived_version, derived_impl_id) := parse_connector_id (impl_id +:+ "-" +:+ version) in
       if negb (bool_decide (derived_version = version)) || negb (bool_decide (derived_impl_id = impl_id)) then true
       else bool_decide (derived_product = product).

Definition register_connector_v2 (key : triple) (cls : ConnectorCls) (r : Registry) : res RegistryError Registry :=
  _ ← guard_or duplicate_registration (bool_decide (key ∉ fst <$> rg_v2 r));
  _ ← guard_or product_does_not_round_trip (product_impl_id_round_trips key.1.1 key.1.2 key.2);
  Ok (add_v2 key cls r).

Definition has_key (key : triple) (e : triple * ConnectorCls) : bool := bool_decide (e.1 = key).

Definition deregister_connector_v2 (key : triple) (r : Registry) : Registry * bool :=
  ({| rg_v1 := rg_v1 r; rg_v2 := delete_where (has_key key) (rg_v2 r) |}, existsb (has_key key) (rg_v2 r)).

Definition get_connector (r : Registry) (product : string) : option ConnectorCls := dict_get product (rg_v1 r).

Definition get_connector_v2 (r : Registry) (key : triple) : option ConnectorCls :=
  snd <$> List.find (has_key key) (rg_v2 r).

(** Triples are compared as Python compares tuples of strings. *)
Definition triple_le (a b : triple) : Prop :=
  if bool_decide (a.1.1 = b.1.1)
  then if bool_decide (a.1.2 = b.1.2) then str_le a.2 b.2 else str_le a.1.2 b.1.2
  else str_le a.1.1 b.1.1.
#[export] Instance triple_le_dec a b : Decision (triple_le a b).
Proof. unfold triple_le, str_le. repeat destruct (bool_decide _); apply _. Defined.

Definition list_connector_impls (r : Registry) : list triple := merge_sort triple_le (fst <$> rg_v2 r).

Definition registered_product_tokens (r : Registry) : list string :=
  remove_dups (List.filter (fun p => negb (bool_decide (p = ""))) ((fun e => e.1.1.1) <$> rg_v2 r)).

(** * The target *)

(** What the resolver reads of a target. *)
Record ResolverTarget := {
  rt_product : string;
  rt_fingerprint : option (list (string * json));
  rt_version : option string;
  rt_preferred_impl_id : option string;
}.

Definition non_empty (s : string) : option string := if bool_decide (s = "") then None else Some s.

(** The probed version, else the one the operator wrote. *)
Definition resolve_target_version (t : ResolverTarget) : option string :=
  let probed := match rt_fingerprint t ≫= dict_get "version" with Some (JStr v) => non_empty v | _ => None end in
  match probed with Some v => Some v | None => rt_version t ≫= non_empty end.

(** * Specificity *)

Record Specifier := { sp_operator : string; sp_version : string }.

(** [float(n)] for an integer of a release; these are below 2^1023. *)
Definition float_of_Z (z : Z) : spec_float := binary_normalize 53 1024 z 0 false.

Definition version_to_float (release : list Z) : spec_float :=
  match release with
  | [] => S754_zero false
  | [a] => float_of_Z a
  | a :: b :: _ => SFadd 53 1024 (float_of_Z a) (SFdiv 53 1024 (float_of_Z b) (float_of_Z 10))
  end.

(** The value of a binary64 number in units of 2^-1074: an exact integer. *)
Definition float_units (f : spec_float) : Z :=
  match f with
  | S754_finite s m e => cond_Zopp s (Z.pos m * 2 ^ (e + 1074))
  | _ => 0
  end%Z.

(** The rank, and the span in those units; less is more specific. *)
Abbreviation score := (Z * Z)%type.

Definition UNBOUNDED : score := (2, 0)%Z.

Definition score_lt (a b : score) : bool := (a.1 <? b.1)%Z || ((a.1 =? b.1)%Z && (a.2 <? b.2)%Z).

Section Resolver.
Context {V : Type} (Version : string -> option V) (release : V -> list Z).
Context (SpecifierSet : string -> option (list Specifier)) (contains : list Specifier -> V -> bool).

(** The first clause with such an operator decides, readable or not. *)
Definition extract_bound (operators : list string) (spec : list Specifier) : option V :=
  List.find (fun s => bool_decide (sp_operator s ∈ operators)) spec ≫= fun s => Version (sp_version s).

Definition extract_lower_bound : list Specifier -> option V := extract_bound [">="; ">"; "=="].
Definition extract_upper_bound : list Specifier -> option V := extract_bound ["<="; "<"].

Definition specificity_score (spec_str : option string) : score :=
  match spec_str ≫= non_empty with
  | None => UNBOUNDED
  | Some s =>
      match SpecifierSet s with
      | None => UNBOUNDED
      | Some spec =>
          match extract_lower_bound spec, extract_upper_bound spec with
          | Some lower, Some upper =>
              (0, float_units (SFsub 53 1024 (version_to_float (release upper)) (version_to_float (release lower))))
          | None, None => UNBOUNDED
          | _, _ => (1, 0)
          end%Z
      end
  end.

(** * Candidates *)

Record Candidate := { cn_key : triple; cn_cls : ConnectorCls; cn_score : score }.
#[export] Instance Candidate_eq_dec : EqDecision Candidate.
Proof. solve_decision. Defined.

Definition is_wildcard (key : triple) : bool := bool_decide (key.1.2 = "") && bool_decide (key.2 = "").

Definition candidate_of (product : string) (target_version : option V) (e : triple * ConnectorCls) : option Candidate :=
  let '(key, cls) := e in
  if negb (bool_decide (key.1.1 = product)) then None
  else if is_wildcard key then Some {| cn_key := key; cn_cls := cls; cn_score := UNBOUNDED |}
  else
    let entry := Some {| cn_key := key; cn_cls := cls;
                         cn_score := specificity_score (cc_supported_version_range cls) |} in
    match cc_supported_version_range cls ≫= non_empty with
    | None => entry
    | Some s =>
        match target_version, SpecifierSet s with
        | Some v, Some spec => if contains spec v then entry else None
        | _, _ => None
        end
    end.

Definition filter_candidates (r : Registry) (product : string) (target_version : option string) : list Candidate :=
  omap (candidate_of product (target_version ≫= Version)) (rg_v2 r).

Definition connector_serves_target (r : Registry) (key : triple) (t : ResolverTarget) : bool :=
  bool_decide (rt_product t = key.1.1) &&
  existsb (fun c => bool_decide (cn_key c = key)) (filter_candidates r key.1.1 (resolve_target_version t)).
End Resolver.

(** * The ladder *)

Definition demote_wildcards (cs : list Candidate) : list Candidate :=
  let non_wildcards := List.filter (fun c => negb (is_wildcard (cn_key c))) cs in
  if negb (bool_decide (non_wildcards = [])) && (length non_wildcards <? length cs)%nat then non_wildcards else cs.

Definition of_tier (k : ShimKind) (c : Candidate) : bool := bool_decide (shim_kind (cn_cls c) = k).

Definition demote_lower_dispatch_tiers (cs : list Candidate) : list Candidate :=
  let keep kept := if negb (bool_decide (kept = [])) && (length kept <? length cs)%nat then kept else cs in
  if existsb (of_tier shim_none) cs then keep (List.filter (of_tier shim_none) cs)
  else if existsb (of_tier shim_profiled) cs then keep (List.filter (of_tier shim_profiled) cs)
  else cs.

Definition prefers (preferred : string) (c : Candidate) : bool :=
  let '(_, version, impl_id) := cn_key c in
  bool_decide (impl_id = preferred) ||
  (negb (bool_decide (impl_id = "")) && negb (bool_decide (version = "")) &&
   bool_decide (impl_id +:+ "-" +:+ version = preferred)).

Definition match_operator_preference (preferred_impl_id : option string) (cs : list Candidate) : list Candidate :=
  match preferred_impl_id ≫= non_empty with
  | None => cs
  | Some p => match List.filter (prefers p) cs with [] => cs | preferred => preferred end
  end.

(** [min] and [max] of a non-empty sequence: the first of the least. *)
Definition least {A} (lt : A -> A -> bool) (x : A) (l : list A) : A := foldl (fun m y => if lt y m then y else m) x l.

Definition keep_best_score (cs : list Candidate) : list Candidate :=
  match cs with
  | [] => []
  | c :: rest => let best := least score_lt (cn_score c) (cn_score <$> rest) in
                 List.filter (fun d => bool_decide (cn_score d = best)) cs
  end.

Definition keep_best_priority (cs : list Candidate) : list Candidate :=
  match cs with
  | [] => []
  | c :: rest => let best := least Z.gtb (cc_priority (cn_cls c)) ((fun d => cc_priority (cn_cls d)) <$> rest) in
                 List.filter (fun d => (cc_priority (cn_cls d) =? best)%Z) cs
  end.

Inductive TieBreak :=
| versioned_over_wildcard | hand_rolled_over_shim | profiled_over_shim | by_specificity | operator_preference | by_priority.

Definition ladder_end : Type := (Candidate * TieBreak) + list Candidate.

(** Steps 2 to 4. *)
Definition ladder_tail (preferred_impl_id : option string) (cs : list Candidate) : ladder_end :=
  match keep_best_score cs with
  | [c] => inl (c, by_specificity)
  | step2 =>
  match match_operator_preference preferred_impl_id step2 with
  | [c] => inl (c, operator_preference)
  | step3 =>
  match keep_best_priority step3 with
  | [c] => inl (c, by_priority)
  | remaining => inr remaining
  end end end.

Definition run_tie_break_ladder (preferred_impl_id : option string) (cs : list Candidate) : ladder_end :=
  let step1 := demote_wildcards cs in
  match (length step1 <? length cs)%nat, step1 with
  | true, [c] => inl (c, versioned_over_wildcard)
  | _, _ =>
  let step1b := demote_lower_dispatch_tiers step1 in
  match (length step1b <? length step1)%nat, step1b with
  | true, [c] => inl (c, if of_tier shim_none c then hand_rolled_over_shim else profiled_over_shim)
  | _, _ => ladder_tail preferred_impl_id step1b
  end end.

Inductive Resolution :=
| resolved (c : Candidate) (reason : TieBreak)
| no_matching_connector
| ambiguous_connector (candidates : list triple).

Section Resolve.
Context {V : Type} (Version : string -> option V) (release : V -> list Z).
Context (SpecifierSet : string -> option (list Specifier)) (contains : list Specifier -> V -> bool).

Definition resolve_connector (r : Registry) (t : ResolverTarget) : Resolution :=
  if bool_decide (rt_product t = "") then no_matching_connector
  else match filter_candidates Version release SpecifierSet contains r (rt_product t) (resolve_target_version t) with
       | [] => no_matching_connector
       | cs => match run_tie_break_ladder (rt_preferred_impl_id t) cs with
               | inl (c, reason) => resolved c reason
               | inr remaining => ambiguous_connector (merge_sort triple_le (cn_key <$> remaining))
               end
       end.

(** The class and the label of [resolve_connector_or_label]. *)
Definition resolve_connector_or_label (r : Registry) (t : ResolverTarget) : option ConnectorCls * option string :=
  match resolve_connector r t with
  | resolved c _ => (Some (cn_cls c), None)
  | no_matching_connector => (None, Some "no_connector")
  | ambiguous_connector _ => (None, Some "ambiguous_connector")
  end.
End Resolve.

(** * Lemmas *)

(** The elements of least value. *)
Definition least_by {A} (f : A -> Z) (l : list A) : list A := List.filter (fun c => forallb (fun d => f c <=? f d)%Z l) l.

Fixpoint lex_leb (a b : list Z) : bool :=
  match a, b with
  | x :: a', y :: b' => (x <? y)%Z || ((x =? y)%Z && lex_leb a' b')
  | _, _ => true
  end.

(** The reference: the candidates that no other precedes lexicographically. *)
Definition lex_least {A} (fs : list (A -> Z)) (l : list A) : list A :=
  List.filter (fun c => forallb (fun d => lex_leb ((fun f => f c) <$> fs) ((fun f => f d) <$> fs)) l) l.

Section Least.
Context {A : Type}.
Implicit Types (f : A -> Z) (fs : list (A -> Z)) (l : list A).

Lemma forallb_elem (p : A -> bool) l : forallb p l = true <-> forall x, x ∈ l -> p x = true.
Proof. rewrite forallb_forall. by setoid_rewrite <- list_elem_of_In. Qed.

Lemma elem_of_lfilter (p : A -> bool) l x : x ∈ List.filter p l <-> x ∈ l /\ p x = true.
Proof. rewrite !list_elem_of_In. apply filter_In. Qed.

Lemma lfilter_ext (p q : A -> bool) l : (forall x, x ∈ l -> p x = q x) -> List.filter p l = List.filter q l.
Proof.
  induction l as [|x l IH]; intros Hx; [done|]. simpl. rewrite Hx by left. rewrite IH; [done|].
  intros y Hy. apply Hx. by right.
Qed.

Lemma lfilter_all (p : A -> bool) l : (forall x, x ∈ l -> p x = true) -> List.filter p l = l.
Proof.
  induction l as [|x l IH]; intros Hx; [done|]. simpl. rewrite Hx by left. f_equal. apply IH. intros y Hy. apply Hx. by right.
Qed.

Lemma lfilter_filter (p q : A -> bool) l : List.filter p (List.filter q l) = List.filter (fun x => q x && p x) l.
Proof. induction l as [|x l IH]; [done|]. simpl. destruct (q x); simpl; [destruct (p x)|]; by rewrite IH. Qed.

(** A filter that drops nothing. *)
Lemma filter_length_all (p : A -> bool) l : length l <= length (List.filter p l) -> List.filter p l = l.
Proof.
  induction l as [|x l IH]; [done|]. simpl. pose proof (List.filter_length_le p l). destruct (p x); simpl.
  - intros Hle. rewrite IH; [done|lia].
  - lia.
Qed.

Lemma elem_of_least f l c : c ∈ least_by f l <-> c ∈ l /\ forall d, d ∈ l -> (f c <= f d)%Z.
Proof. unfold least_by. rewrite elem_of_lfilter, forallb_elem. by setoid_rewrite Z.leb_le. Qed.

Lemma least_exists f l : l <> [] -> exists c, c ∈ least_by f l.
Proof.
  intros Hl. assert (exists c, c ∈ l /\ forall d, d ∈ l -> (f c <= f d)%Z) as (c & Hc); [|exists c; by apply elem_of_least].
  induction l as [|x l IH]; [done|]. destruct l as [|y l'].
  - exists x. split; [by left|]. intros d Hd. apply list_elem_of_singleton in Hd as ->. lia.
  - destruct IH as (c & Hc & Hm); [done|]. destruct (Z.le_ge_cases (f x) (f c)).
    + exists x. split; [by left|]. intros d Hd. apply elem_of_cons in Hd as [->|Hd]; [lia|]. pose proof (Hm _ Hd). lia.
    + exists c. split; [by right|]. intros d Hd. apply elem_of_cons in Hd as [->|Hd]; [lia|]. by apply Hm.
Qed.

Lemma least_nonempty f l : l <> [] -> least_by f l <> [].
Proof. intros Hl He. destruct (least_exists f l Hl) as [c Hc]. rewrite He in Hc. by apply elem_of_nil in Hc. Qed.

Lemma least_singleton f c : least_by f [c] = [c].
Proof. unfold least_by. simpl. by rewrite Z.leb_refl. Qed.

(** Keeping the least by one key after another is keeping the lexicographically least. *)
Lemma least_fold (fs : list (A -> Z)) l : foldl (fun l f => least_by f l) l fs = lex_least fs l.
Proof.
  revert l. induction fs as [|f fs IH]; intros l.
  - symmetry. unfold lex_least. apply lfilter_all. intros x _. apply forallb_elem. by intros.
  - simpl. rewrite IH. unfold lex_least. unfold least_by at 2. rewrite lfilter_filter. apply lfilter_ext.
    intros c Hc. apply eq_true_iff_eq. rewrite andb_true_iff, !forallb_elem. setoid_rewrite Z.leb_le.
    setoid_rewrite fmap_cons. cbn [lex_leb]. setoid_rewrite orb_true_iff. setoid_rewrite andb_true_iff.
    setoid_rewrite Z.ltb_lt. setoid_rewrite Z.eqb_eq. split.
    + intros [Hf Hr] d Hd. pose proof (Hf _ Hd). destruct (Z.lt_ge_cases (f c) (f d)); [by left|right].
      split; [lia|]. apply Hr. apply elem_of_least. split; [done|]. intros e He. pose proof (Hf _ He). lia.
    + intros Hx. split; [intros d Hd; destruct (Hx _ Hd) as [?|[? _]]; lia|].
      intros d Hd. apply elem_of_least in Hd as [Hd Hm]. destruct (Hx _ Hd) as [?|[_ ?]]; [|done].
      pose proof (Hm _ Hc). lia.
Qed.

Lemma lex_least_perm fs l l' : l ≡ₚ l' -> lex_least fs l ≡ₚ lex_least fs l'.
Proof.
  intros Hp. unfold lex_least.
  rewrite (lfilter_ext _ (fun c => forallb (fun d => lex_leb ((fun f => f c) <$> fs) ((fun f => f d) <$> fs)) l') l).
  - apply (select_where_Permutation _ l l' Hp).
  - intros c _. apply eq_true_iff_eq. rewrite !forallb_elem. by setoid_rewrite Hp.
Qed.

Lemma lex_least_nonempty fs l : l <> [] -> lex_least fs l <> [].
Proof.
  rewrite <- least_fold. revert l. induction fs as [|f fs IH]; intros l Hl; [done|]. simpl. by apply IH, least_nonempty.
Qed.

Lemma lex_least_singleton fs c : lex_least fs [c] = [c].
Proof. rewrite <- least_fold. induction fs as [|f fs IH]; [done|]. simpl. by rewrite least_singleton. Qed.

(** The lowest level that is reached. *)
Lemma least_level f (p : A -> bool) l k :
  (forall x, x ∈ l -> (k <= f x)%Z /\ (p x = true <-> f x = k)) -> existsb p l = true -> least_by f l = List.filter p l.
Proof.
  intros Hf Hex. apply existsb_exists in Hex as (x & Hx & Hpx). rewrite <- list_elem_of_In in Hx. unfold least_by.
  apply lfilter_ext. intros c Hc. apply eq_true_iff_eq. rewrite forallb_elem. setoid_rewrite Z.leb_le.
  destruct (Hf _ Hc) as [Hkc ->], (Hf _ Hx) as [_ Hxk]. apply Hxk in Hpx. split.
  - intros Hm. specialize (Hm _ Hx). lia.
  - intros -> d Hd. by apply Hf.
Qed.

(** A rung that keeps a part only if the part is neither empty nor the whole. *)
Lemma keep_part (p : A -> bool) `{EqDecision A} l :
  existsb p l = true ->
  (if negb (bool_decide (List.filter p l = [])) && (length (List.filter p l) <? length l)%nat
   then List.filter p l else l) = List.filter p l.
Proof.
  intros Hex. case_bool_decide as He; simpl.
  - apply existsb_exists in Hex as (x & Hx & Hpx).
    assert (x ∈ List.filter p l) as Hin by (apply elem_of_lfilter; by rewrite list_elem_of_In).
    rewrite He in Hin. by apply elem_of_nil in Hin.
  - destruct (Nat.ltb_spec (length (List.filter p l)) (length l)) as [|Hge]; [done|]. symmetry. by apply filter_length_all.
Qed.

Lemma existsb_none (p : A -> bool) l : existsb p l = false -> List.filter p l = [] /\ forall x, x ∈ l -> p x = false.
Proof.
  intros Hex. assert (forall x, x ∈ l -> p x = false) as Hp.
  { intros x Hx. destruct (p x) eqn:E; [|done]. by rewrite (existsb_intro _ _ _ Hx E) in Hex. }
  split; [|done]. destruct (List.filter p l) as [|x l'] eqn:Ef; [done|].
  assert (x ∈ List.filter p l) as Hx by (rewrite Ef; by left). apply elem_of_lfilter in Hx as [Hx Hpx]. by rewrite Hp in Hpx.
Qed.

Lemma least_constant f l k : (forall x, x ∈ l -> f x = k) -> least_by f l = l.
Proof. intros Hk. apply lfilter_all. intros x Hx. apply forallb_elem. intros y Hy. rewrite !Hk by done. apply Z.leb_refl. Qed.

Lemma least_ext f g l : (forall x, x ∈ l -> f x = g x) -> least_by f l = least_by g l.
Proof.
  intros Hfg. unfold least_by. apply lfilter_ext. intros x Hx. apply eq_true_iff_eq. rewrite !forallb_elem.
  split; intros Hm d Hd; specialize (Hm _ Hd); pose proof (Hfg _ Hx); pose proof (Hfg _ Hd); lia.
Qed.
End Least.

(** ** The rungs *)

Definition tier_rank (c : Candidate) : Z :=
  match shim_kind (cn_cls c) with shim_none => 0 | shim_profiled => 1 | shim_bare => 2 end.

(** What the rungs compare, in order. *)
Definition rungs (preferred_impl_id : option string) : list (Candidate -> Z) :=
  [(fun c => if negb (is_wildcard (cn_key c)) then 0 else 1);
   tier_rank;
   (fun c => (cn_score c).1);
   (fun c => (cn_score c).2);
   (fun c => match preferred_impl_id ≫= non_empty with
             | Some p => if prefers p c then 0 else 1
             | None => 0
             end);
   (fun c => - cc_priority (cn_cls c))]%Z.

Lemma demote_wildcards_least cs :
  demote_wildcards cs = least_by (fun c => if negb (is_wildcard (cn_key c)) then 0 else 1)%Z cs.
Proof.
  unfold demote_wildcards. set (p c := negb (is_wildcard (cn_key c))). destruct (existsb p cs) eqn:Ex.
  - rewrite (keep_part p cs Ex). symmetry. apply least_level with (k := 0%Z); [|done]. intros x _. fold (p x).
    by destruct (p x).
  - apply existsb_none in Ex as [-> Hp]. rewrite least_constant with (k := 1%Z); [done|].
    intros x Hx. fold (p x). by rewrite Hp.
Qed.

Lemma demote_tiers_least cs : demote_lower_dispatch_tiers cs = least_by tier_rank cs.
Proof.
  unfold demote_lower_dispatch_tiers. destruct (existsb (of_tier shim_none) cs) eqn:E0; [|destruct (existsb (of_tier shim_profiled) cs) eqn:E1].
  - rewrite (keep_part _ cs E0). symmetry. apply least_level with (k := 0%Z); [|done]. intros x _. unfold tier_rank, of_tier.
    rewrite bool_decide_eq_true. by destruct (shim_kind (cn_cls x)).
  - apply existsb_none in E0 as [_ E0]. rewrite (keep_part _ cs E1). symmetry. apply least_level with (k := 1%Z); [|done].
    intros x Hx. apply E0 in Hx. unfold tier_rank, of_tier in *. to_prop. rewrite bool_decide_eq_true. by destruct (shim_kind (cn_cls x)).
  - apply existsb_none in E0 as [_ E0], E1 as [_ E1]. symmetry. apply least_constant with (k := 2%Z). intros x Hx.
    pose proof (E0 _ Hx). pose proof (E1 _ Hx). unfold tier_rank, of_tier in *. to_prop. by destruct (shim_kind (cn_cls x)).
Qed.

Lemma match_preference_least preferred cs :
  match_operator_preference preferred cs =
  least_by (fun c => match preferred ≫= non_empty with Some p => if prefers p c then 0 else 1 | None => 0 end)%Z cs.
Proof.
  unfold match_operator_preference. destruct (preferred ≫= non_empty) as [p|].
  - destruct (existsb (prefers p) cs) eqn:Ex.
    + rewrite (least_level _ (prefers p) _ 0%Z); [|intros x _; by destruct (prefers p x)|done].
      destruct (List.filter (prefers p) cs) eqn:Ef; [|done]. apply existsb_exists in Ex as (x & Hx & Hp).
      assert (x ∈ List.filter (prefers p) cs) as Hin by (apply elem_of_lfilter; by rewrite list_elem_of_In).
      rewrite Ef in Hin. by apply elem_of_nil in Hin.
    + apply existsb_none in Ex as [-> Hp]. symmetry. apply least_constant with (k := 1%Z). intros x Hx. by rewrite Hp.
  - symmetry. by apply least_constant with (k := 0%Z).
Qed.

(** [least] is a least element of the sequence, for a strict order. *)
Lemma least_spec {B} (lt : B -> B -> bool) (le : B -> B -> Prop) x l :
  (forall a, le a a) -> (forall a b c, le a b -> le b c -> le a c) ->
  (forall a b, lt a b = true -> le a b) -> (forall a b, lt a b = false -> le b a) ->
  (least lt x l = x \/ least lt x l ∈ l) /\ le (least lt x l) x /\ forall y, y ∈ l -> le (least lt x l) y.
Proof.
  intros Hrefl Htr Hlt Hge. unfold least. revert x. induction l as [|y l IH]; intros x; simpl.
  - split; [by left|]. split; [done|]. intros y Hy. by apply elem_of_nil in Hy.
  - destruct (IH (if lt y x then y else x)) as (Hin & Hx & Hl). destruct (lt y x) eqn:E; split_and!.
    + destruct Hin as [->|Hin]; right; [by left|by right].
    + by eapply Htr, Hlt.
    + intros z Hz. apply elem_of_cons in Hz as [->|Hz]; [done|by apply Hl].
    + destruct Hin as [->|Hin]; [by left|right; by right].
    + done.
    + intros z Hz. apply elem_of_cons in Hz as [->|Hz]; [by eapply Htr, Hge|by apply Hl].
Qed.

Definition score_le (a b : score) : Prop := (a.1 < b.1 \/ (a.1 = b.1 /\ a.2 <= b.2))%Z.

Lemma score_lt_iff a b : score_lt a b = true <-> (a.1 < b.1 \/ (a.1 = b.1 /\ a.2 < b.2))%Z.
Proof. unfold score_lt. rewrite orb_true_iff, andb_true_iff, !Z.ltb_lt, Z.eqb_eq. done. Qed.

Lemma keep_best_score_least cs :
  keep_best_score cs = least_by (fun c => (cn_score c).2) (least_by (fun c => (cn_score c).1) cs).
Proof.
  change (keep_best_score cs = foldl (fun l f => least_by f l) cs [fun c => (cn_score c).1; fun c => (cn_score c).2]).
  rewrite least_fold. destruct cs as [|c rest]; [done|]. unfold keep_best_score.
  destruct (least_spec score_lt score_le (cn_score c) (cn_score <$> rest)) as (Hin & Hc & Hl).
  - intros a. unfold score_le. lia.
  - intros a b d. unfold score_le. lia.
  - intros a b Hab%score_lt_iff. unfold score_le. lia.
  - intros a b Hab. apply not_true_iff_false in Hab. rewrite score_lt_iff in Hab. unfold score_le. lia.
  - set (best := least _ _ _) in *.
    assert (forall d, d ∈ c :: rest -> score_le best (cn_score d)) as Hall.
    { intros d Hd. apply elem_of_cons in Hd as [->|Hd]; [done|]. by apply Hl, list_elem_of_fmap_2. }
    assert (exists d, d ∈ c :: rest /\ cn_score d = best) as (m & Hm & Em).
    { destruct Hin as [->|Hin]; [exists c; split; [by left|done]|]. apply list_elem_of_fmap in Hin as (d & -> & Hd).
      exists d. split; [by right|done]. }
    apply lfilter_ext. intros x Hx. apply eq_true_iff_eq. rewrite bool_decide_eq_true, forallb_elem.
    assert (forall a b : Candidate, lex_leb ((fun f => f a) <$> [fun c => (cn_score c).1; fun c => (cn_score c).2])
      ((fun f => f b) <$> [fun c => (cn_score c).1; fun c => (cn_score c).2]) = true <-> score_le (cn_score a) (cn_score b)) as Hlex.
    { intros a b. simpl. rewrite orb_true_iff, !andb_true_iff, orb_true_iff, andb_true_iff, !Z.ltb_lt, !Z.eqb_eq. unfold score_le. lia. }
    setoid_rewrite Hlex. split.
    + intros -> d Hd. by apply Hall.
    + intros Hd. specialize (Hd _ Hm). rewrite Em in Hd. pose proof (Hall _ Hx). unfold score_le in *.
      destruct (cn_score x), best; simpl in *. f_equal; lia.
Qed.

Lemma keep_best_priority_least cs : keep_best_priority cs = least_by (fun c => - cc_priority (cn_cls c))%Z cs.
Proof.
  destruct cs as [|c rest]; [done|]. unfold keep_best_priority.
  destruct (least_spec Z.gtb Z.ge (cc_priority (cn_cls c)) ((fun d => cc_priority (cn_cls d)) <$> rest)) as (Hin & Hc & Hl).
  - intros a. lia.
  - intros a b d. lia.
  - intros a b Hab. rewrite Z.gtb_ltb in Hab. apply Z.ltb_lt in Hab. lia.
  - intros a b Hab. rewrite Z.gtb_ltb in Hab. apply Z.ltb_ge in Hab. lia.
  - set (best := least _ _ _) in *. symmetry. apply least_level with (k := (- best)%Z).
    + intros x Hx. rewrite Z.eqb_eq. split; [|lia]. apply elem_of_cons in Hx as [->|Hx]; [lia|].
      assert (best >= cc_priority (cn_cls x))%Z; [|lia]. apply Hl. by apply list_elem_of_fmap_2 with (f := fun d => cc_priority (cn_cls d)).
    + destruct Hin as [Hin|Hin].
      * apply (existsb_intro _ _ c); [by left|]. by apply Z.eqb_eq.
      * apply list_elem_of_fmap in Hin as (d & Ed & Hd). apply (existsb_intro _ _ d); [by right|]. by apply Z.eqb_eq.
Qed.

(** The reference choice. *)
Definition best_candidates (preferred_impl_id : option string) (cs : list Candidate) : list Candidate :=
  lex_least (rungs preferred_impl_id) cs.

Lemma best_steps preferred cs :
  best_candidates preferred cs =
  keep_best_priority (match_operator_preference preferred (keep_best_score
    (demote_lower_dispatch_tiers (demote_wildcards cs)))).
Proof.
  unfold best_candidates. rewrite <- least_fold. unfold rungs. cbn [foldl].
  by rewrite keep_best_priority_least, match_preference_least, keep_best_score_least, demote_tiers_least, demote_wildcards_least.
Qed.

Lemma step_singletons preferred c :
  demote_lower_dispatch_tiers [c] = [c] /\ keep_best_score [c] = [c] /\ match_operator_preference preferred [c] = [c] /\
  keep_best_priority [c] = [c].
Proof.
  rewrite demote_tiers_least, keep_best_score_least, match_preference_least, keep_best_priority_least.
  by rewrite !least_singleton.
Qed.

Definition ends_as (best : list Candidate) (r : ladder_end) : Prop :=
  match r with inl (c, _) => best = [c] | inr rest => best = rest /\ length rest <> 1 end.

Lemma tail_is_best preferred cs :
  ends_as (keep_best_priority (match_operator_preference preferred (keep_best_score cs))) (ladder_tail preferred cs).
Proof.
  unfold ladder_tail. destruct (keep_best_score cs) as [|c [|d l]] eqn:E3.
  2: { destruct (step_singletons preferred c) as (_ & _ & -> & ->). done. }
  all: destruct (match_operator_preference preferred _) as [|c4 [|d4 l4]] eqn:E4;
    try (destruct (step_singletons preferred c4) as (_ & _ & _ & ->); done).
  all: destruct (keep_best_priority _) as [|c5 [|d5 l5]] eqn:E5; simpl; done.
Qed.

Lemma ladder_is_best preferred cs : ends_as (best_candidates preferred cs) (run_tie_break_ladder preferred cs).
Proof.
  rewrite best_steps. unfold run_tie_break_ladder.
  assert (ends_as (keep_best_priority (match_operator_preference preferred (keep_best_score
    (demote_lower_dispatch_tiers (demote_wildcards cs)))))
    (match (length (demote_lower_dispatch_tiers (demote_wildcards cs)) <? length (demote_wildcards cs))%nat,
       demote_lower_dispatch_tiers (demote_wildcards cs) with
     | true, [c] => inl (c, if of_tier shim_none c then hand_rolled_over_shim else profiled_over_shim)
     | _, _ => ladder_tail preferred (demote_lower_dispatch_tiers (demote_wildcards cs))
     end)) as H2.
  { destruct (_ <? _)%nat; [|apply tail_is_best].
    destruct (demote_lower_dispatch_tiers (demote_wildcards cs)) as [|c [|d l]]; [apply tail_is_best| |apply tail_is_best].
    destruct (step_singletons preferred c) as (_ & -> & -> & ->). done. }
  destruct (length (demote_wildcards cs) <? length cs)%nat; [|exact H2].
  destruct (demote_wildcards cs) as [|c [|d l]]; [exact H2| |exact H2].
  destruct (step_singletons preferred c) as (-> & -> & -> & ->). done.
Qed.

Section Choice.
Context {V : Type} (Version : string -> option V) (release : V -> list Z).
Context (SpecifierSet : string -> option (list Specifier)) (contains : list Specifier -> V -> bool).

(** An entry of the registry that fits a target. *)
Definition fits (t : ResolverTarget) (e : triple * ConnectorCls) : Prop :=
  e.1.1.1 = rt_product t /\
  (is_wildcard e.1 = true \/ cc_supported_version_range e.2 ≫= non_empty = None \/
   exists s spec v, cc_supported_version_range e.2 ≫= non_empty = Some s /\ SpecifierSet s = Some spec /\
     resolve_target_version t ≫= Version = Some v /\ contains spec v = true).

Definition candidates (r : Registry) (t : ResolverTarget) : list Candidate :=
  filter_candidates Version release SpecifierSet contains r (rt_product t) (resolve_target_version t).

Lemma elem_of_candidates r t c :
  c ∈ candidates r t <-> exists e, e ∈ rg_v2 r /\ fits t e /\ cn_key c = e.1 /\ cn_cls c = e.2 /\
    cn_score c = if is_wildcard e.1 then UNBOUNDED
                 else specificity_score Version release SpecifierSet (cc_supported_version_range e.2).
Proof.
  unfold candidates, filter_candidates. rewrite list_elem_of_omap. split.
  - intros ([key cls] & Hin & Hc). exists (key, cls). split; [done|]. unfold fits, candidate_of in *. simpl.
    destruct (bool_decide (key.1.1 = _)) eqn:Ep; [|done]. to_prop. simpl in Hc.
    destruct (is_wildcard key) eqn:Ew; [injection Hc as <-; auto|].
    destruct (cc_supported_version_range cls ≫= non_empty) as [s|] eqn:Es; [|injection Hc as <-; auto].
    destruct (resolve_target_version t ≫= Version) as [v|] eqn:Ev; [|done]. destruct (SpecifierSet s) as [spec|] eqn:Esp; [|done].
    destruct (contains spec v) eqn:Ec; [|done]. injection Hc as <-. split_and!; try done. right; right. eauto 10.
  - intros ([key cls] & Hin & [Hp Hf] & Hk & Hcl & Hs). exists (key, cls). split; [done|]. unfold candidate_of. simpl in *.
    rewrite bool_decide_true by done. simpl. destruct c as [k0 c0 s0]. simpl in *. subst k0 c0 s0.
    destruct (is_wildcard key); [done|]. destruct Hf as [Hf|[Hf|(s & spec & v & Hs & Hspec & Hv & Hc)]]; [done|by rewrite Hf|].
    by rewrite Hs, Hv, Hspec, Hc.
Qed.

(** C32. The resolver picks the least.  Among the registered entries that fit a
    target it takes the one that comes first when wildcards, dispatch tier, rank
    and span of the range, the operator's preference and the class's priority are
    compared in that order; it answers that none matches exactly when none fits,
    and that the choice is ambiguous, with the sorted tied entries, exactly when at
    least two are tied on all of them. *)
Theorem resolution_is_the_least_fit r t :
  rt_product t <> "" ->
  match resolve_connector Version release SpecifierSet contains r t with
  | resolved c _ => best_candidates (rt_preferred_impl_id t) (candidates r t) = [c] /\
                    exists e, e ∈ rg_v2 r /\ fits t e /\ cn_key c = e.1 /\ cn_cls c = e.2
  | no_matching_connector => forall e, e ∈ rg_v2 r -> ~ fits t e
  | ambiguous_connector keys => 2 <= length keys /\
      keys = merge_sort triple_le (cn_key <$> best_candidates (rt_preferred_impl_id t) (candidates r t))
  end.
Proof.
  intros Hp. unfold resolve_connector. rewrite bool_decide_false by done. fold (candidates r t).
  destruct (candidates r t) as [|c0 cs] eqn:Ecs.
  - intros [key cls] He Hf.
    assert ({| cn_key := key; cn_cls := cls; cn_score := if is_wildcard key then UNBOUNDED
              else specificity_score Version release SpecifierSet (cc_supported_version_range cls) |} ∈ candidates r t) as Hin
      by (apply elem_of_candidates; by exists (key, cls)).
    rewrite Ecs in Hin. by apply elem_of_nil in Hin.
  - rewrite <- Ecs. pose proof (ladder_is_best (rt_preferred_impl_id t) (candidates r t)) as Hl.
    destruct (run_tie_break_ladder _ _) as [[c reason]|rest].
    + split; [done|]. assert (c ∈ best_candidates (rt_preferred_impl_id t) (candidates r t)) as Hc by (rewrite Hl; by left).
      apply elem_of_lfilter in Hc as [Hc _]. apply elem_of_candidates in Hc as (e & ? & ? & ? & ? & _). eauto 10.
    + destruct Hl as [Hb Hlen]. rewrite Hb. split; [|done]. rewrite merge_sort_Permutation, length_fmap.
      assert (rest <> []); [|destruct rest as [|? [|]]; simpl in *; lia || done].
      rewrite <- Hb. apply lex_least_nonempty. by rewrite Ecs.
Qed.
End Choice.

(** ** The order of registration *)

#[export] Instance triple_le_total : Total triple_le.
Proof.
  intros [[a b] c] [[a' b'] c']. unfold triple_le. simpl. repeat case_bool_decide; try congruence; apply (total str_le).
Qed.
#[export] Instance triple_le_antisym : AntiSymm (=) triple_le.
Proof.
  intros [[a b] c] [[a' b'] c']. unfold triple_le. simpl. repeat case_bool_decide; intros Ha Hb; subst; try done;
    pose proof (anti_symm str_le _ _ Ha Hb); congruence.
Qed.
#[export] Instance triple_le_trans : Transitive triple_le.
Proof.
  intros [[a b] c] [[a' b'] c'] [[a2 b2] c2]. unfold triple_le. simpl. repeat case_bool_decide; intros Ha Hb; subst; try done;
    try (by etrans); pose proof (anti_symm str_le _ _ Ha Hb); congruence.
Qed.

Lemma merge_sort_perm (l l' : list triple) : l ≡ₚ l' -> merge_sort triple_le l = merge_sort triple_le l'.
Proof.
  intros Hp. apply (Sorted_unique triple_le); [apply (Sorted_merge_sort _)|apply (Sorted_merge_sort _)|].
  by rewrite !merge_sort_Permutation.
Qed.

Section Order.
Context {V : Type} (Version : string -> option V) (release : V -> list Z).
Context (SpecifierSet : string -> option (list Specifier)) (contains : list Specifier -> V -> bool).

Definition chosen (r : Resolution) : option (option ConnectorCls * list triple) :=
  match r with
  | resolved c _ => Some (Some (cn_cls c), [])
  | no_matching_connector => None
  | ambiguous_connector keys => Some (None, keys)
  end.

(** The order in which connectors register does not matter: two registries with
    the same entries resolve every target to the same class, or fail alike with the
    same tied entries. *)
Theorem registration_order_is_irrelevant r r' t :
  rg_v2 r ≡ₚ rg_v2 r' ->
  chosen (resolve_connector Version release SpecifierSet contains r t) =
  chosen (resolve_connector Version release SpecifierSet contains r' t).
Proof.
  intros Hp. unfold resolve_connector. case_bool_decide; [done|].
  set (f := candidate_of Version release SpecifierSet contains (rt_product t) (resolve_target_version t ≫= Version)).
  unfold filter_candidates. fold f.
  assert (omap f (rg_v2 r) ≡ₚ omap f (rg_v2 r')) as Hc by (by rewrite Hp).
  pose proof (ladder_is_best (rt_preferred_impl_id t) (omap f (rg_v2 r))) as Hl.
  pose proof (ladder_is_best (rt_preferred_impl_id t) (omap f (rg_v2 r'))) as Hl'.
  assert (best_candidates (rt_preferred_impl_id t) (omap f (rg_v2 r)) ≡ₚ best_candidates (rt_preferred_impl_id t) (omap f (rg_v2 r')))
    as Hb by (by apply lex_least_perm).
  destruct (omap f (rg_v2 r)) as [|c0 l0]; destruct (omap f (rg_v2 r')) as [|c1 l1];
    [done|by apply Permutation_nil_l in Hc|by symmetry in Hc; apply Permutation_nil_l in Hc|].
  destruct (run_tie_break_ladder _ (c0 :: l0)) as [[c ?]|rest], (run_tie_break_ladder _ (c1 :: l1)) as [[c' ?]|rest'];
    simpl in Hl, Hl' |- *.
  - rewrite Hl, Hl' in Hb. apply Permutation_singleton_inj in Hb as ->. done.
  - destruct Hl' as [Hl' Hn]. rewrite Hl, Hl' in Hb. by apply Permutation_length in Hb.
  - destruct Hl as [Hl Hn]. rewrite Hl, Hl' in Hb. by apply Permutation_length in Hb.
  - destruct Hl as [Hl _], Hl' as [Hl' _]. rewrite Hl, Hl' in Hb. do 2 f_equal. apply merge_sort_perm. by rewrite Hb.
Qed.

(** An exact pin is not the most specific range.  The clause with "==" counts
    as a lower bound only, so against any range with two readable bounds, however
    wide, a class that pins one exact version is the less specific one. *)
Theorem exact_pin_loses_to_any_range pin v wide lo hi spec :
  pin <> "" -> wide <> "" ->
  SpecifierSet pin = Some [{| sp_operator := "=="; sp_version := v |}] -> Version v <> None ->
  SpecifierSet wide = Some spec ->
  extract_lower_bound Version spec = Some lo -> extract_upper_bound Version spec = Some hi ->
  score_lt (specificity_score Version release SpecifierSet (Some wide))
           (specificity_score Version release SpecifierSet (Some pin)) = true.
Proof.
  intros Hp Hw Hpin Hv Hwide Hlo Hhi. unfold specificity_score. cbn [mbind option_bind]. unfold non_empty.
  rewrite !bool_decide_false by done. rewrite Hpin, Hwide, Hlo, Hhi. unfold extract_lower_bound, extract_upper_bound, extract_bound.
  simpl. destruct (Version v); [|done]. done.
Qed.
End Order.

(** ** The registry over time *)

Inductive registry_step : Registry -> Registry -> Prop :=
| rs_v1 r product cls r' : register_connector product cls r = Ok r' -> registry_step r r'
| rs_v2 r key cls r' : register_connector_v2 key cls r = Ok r' -> registry_step r r'
| rs_drop r key : registry_step r (deregister_connector_v2 key r).1.

Definition registry_ok (r : Registry) : Prop :=
  NoDup (fst <$> rg_v2 r) /\ forall e, e ∈ rg_v2 r -> product_impl_id_round_trips e.1.1.1 e.1.1.2 e.1.2 = true.

Lemma registry_step_ok r r' : registry_step r r' -> registry_ok r -> registry_ok r'.
Proof.
  intros Hs [Hn Ha]. destruct Hs as [x product c y H|x k c y H|x k].
  - unfold register_connector in H. invert_ok. to_prop. unfold registry_ok. simpl. rewrite fmap_app. split; [by apply NoDup_snoc|].
    intros e He. apply elem_of_app in He as [He|He%list_elem_of_singleton]; [by apply Ha|by subst e].
  - unfold register_connector_v2 in H. invert_ok. to_prop. unfold registry_ok. simpl. rewrite fmap_app. split; [by apply NoDup_snoc|].
    intros e He. apply elem_of_app in He as [He|He%list_elem_of_singleton]; [by apply Ha|by subst e].
  - split; [by apply NoDup_delete_where|]. intros e [He _]%elem_of_delete. by apply Ha.
Qed.

Lemma reachable_registry_ok r : rtc registry_step empty_registry r -> registry_ok r.
Proof.
  assert (registry_ok empty_registry) as H0 by (split; [constructor|]; intros e He; by apply elem_of_nil in He).
  induction 1 as [|x y z Hs _ IH]; [done|]. by eapply IH, registry_step_ok.
Qed.

(** A connector id names one class.  In every registry that registrations and
    removals reach, no key is registered twice, so that each entry is found under
    its key; and an entry whose id parses back to its implementation and version
    parses to its product too, so no entry hides behind another product's name. *)
Theorem registered_ids_are_unambiguous r key cls :
  rtc registry_step empty_registry r -> (key, cls) ∈ rg_v2 r ->
  NoDup (fst <$> rg_v2 r) /\ get_connector_v2 r key = Some cls /\
  (key.1.2 <> "" -> key.2 <> "" -> forall product,
     parse_connector_id (key.2 +:+ "-" +:+ key.1.2) = (product, key.1.2, key.2) -> product = key.1.1).
Proof.
  intros Hr Hin.
  destruct (reachable_registry_ok _ Hr) as [Hnd Hrt].
  split; [done|]. split.
  - unfold get_connector_v2. rewrite (find_unique fst _ _ (key, cls)); [done|done| |done|by apply bool_decide_eq_true].
    intros [k c] Hk. by apply bool_decide_eq_true in Hk.
  - intros Hv Hi product Hp. apply Hrt in Hin. simpl in Hin. unfold product_impl_id_round_trips in Hin.
    rewrite !(bool_decide_false (_ = "")) in Hin by done. simpl in Hin. rewrite Hp in Hin.
    rewrite !bool_decide_true in Hin by done. simpl in Hin. by to_prop.
Qed.

(** * Witnesses *)

Definition w_version (s : string) : option (list Z) :=
  dict_get s [("1.0", [1; 0]); ("9.0", [9; 0]); ("9.0.2", [9; 0; 2]); ("10.0", [10; 0]); ("99.0", [99; 0])]%Z.
Definition w_spec (op v : string) : Specifier := {| sp_operator := op; sp_version := v |}.
Definition w_specifiers (s : string) : option (list Specifier) :=
  dict_get s [("==9.0.2", [w_spec "==" "9.0.2"]); (">=9.0,<10.0", [w_spec ">=" "9.0"; w_spec "<" "10.0"]);
              (">=1.0,<99.0", [w_spec ">=" "1.0"; w_spec "<" "99.0"])].
Definition w_contains (_ : list Specifier) (_ : list Z) : bool := true.

Definition w_class (name range : string) (k : ShimKind) : ConnectorCls :=
  {| cc_name := name; cc_product := "vsphere"; cc_version := "9.x"; cc_impl_id := "vsphere-rest"; cc_supported_version_range := Some range; cc_priority := 0; cc_shim_kind := k |}.

Definition w_registry : Registry := {| rg_v1 := []; rg_v2 := [
  (("vsphere", "", ""), w_class "VSphere" ">=9.0,<10.0" shim_none);
  (("vsphere", "9.x", "vsphere-rest"), w_class "VSphere" ">=9.0,<10.0" shim_none);
  (("vsphere", "1.x", "vsphere-old"), w_class "Old" ">=1.0,<99.0" shim_none);
  (("vsphere", "9.0.2", "vsphere-auto"), w_class "AutoShim" "==9.0.2" shim_bare)] |}.

Definition w_target : ResolverTarget :=
  {| rt_product := "vsphere"; rt_fingerprint := Some [("version", JStr "9.0.2")]; rt_version := None; rt_preferred_impl_id := None |}.

Lemma resolution_is_the_least_fit_witness : exists c,
  resolve_connector w_version id w_specifiers w_contains w_registry w_target = resolved c by_specificity /\
  cn_key c = ("vsphere", "9.x", "vsphere-rest") /\
  best_candidates None (candidates w_version id w_specifiers w_contains w_registry w_target) = [c].
Proof.
  pose proof (resolution_is_the_least_fit w_version id w_specifiers w_contains w_registry w_target ltac:(done)) as H.
  destruct (resolve_connector _ _ _ _ _ _) as [c reason| |keys] eqn:E; [|by vm_compute in E..].
  destruct H as [H _]. exists c. vm_compute in E. injection E as <- <-. by split_and!.
Defined.

Lemma registration_order_is_irrelevant_witness :
  chosen (resolve_connector w_version id w_specifiers w_contains {| rg_v1 := []; rg_v2 := reverse (rg_v2 w_registry) |} w_target) =
  Some (Some (w_class "VSphere" ">=9.0,<10.0" shim_none), []).
Proof.
  rewrite <- (registration_order_is_irrelevant w_version id w_specifiers w_contains w_registry).
  - by vm_compute.
  - symmetry. apply reverse_Permutation.
Defined.

Lemma exact_pin_loses_to_any_range_witness :
  score_lt (specificity_score w_version id w_specifiers (Some ">=1.0,<99.0"))
           (specificity_score w_version id w_specifiers (Some "==9.0.2")) = true.
Proof.
  by apply (exact_pin_loses_to_any_range w_version id w_specifiers "==9.0.2" "9.0.2" ">=1.0,<99.0" [1; 0]%Z [99; 0]%Z
    [w_spec ">=" "1.0"; w_spec "<" "99.0"]).
Defined.

Lemma registered_ids_are_unambiguous_witness : exists r cls,
  get_connector_v2 r ("harbor", "2.x", "harbor-rest") = Some cls /\ rtc registry_step empty_registry r.
Proof.
  set (cls := w_class "Harbor" ">=9.0,<10.0" shim_none).
  exists (add_v2 ("harbor", "2.x", "harbor-rest") cls empty_registry), cls.
  assert (rtc registry_step empty_registry (add_v2 ("harbor", "2.x", "harbor-rest") cls empty_registry)) as Hr
    by (by apply rtc_once, (rs_v2 _ ("harbor", "2.x", "harbor-rest") cls)).
  split; [|done].
  by apply (registered_ids_are_unambiguous (add_v2 ("harbor", "2.x", "harbor-rest") cls empty_registry)
    ("harbor", "2.x", "harbor-rest") cls Hr ltac:(by left)).
Defined.
