(* ===== verification/RunnerAssignments.v ===== *)
(** The recurring work of a runner: targets by name ([targets/resolver.py]), the
    assignment document and its materialisation ([gateway/assignment_service.py],
    [gateway/repository.py]), the three routes of [api/v1/checks.py], and the
    runner's tick with its spool ([runner/loop.py], [runner/spool.py]).

    Parameters: the [packaging] library and the code-presence check as in
    [Connectors] and [Lookup], SHA-256, the JSON form of a work item, and the
    [handler_ref] column of a descriptor. *)

From stdpp Require Import gmap strings.
From S2P Require Import Prelude Identity Json Glob Catalog OpPolicy Lookup GatewayQueue WireText WorkItemSigning RunnerPrincipals EffectChain RunnerEdge Connectors.

(** * Targets *)

Record TargetRow := {
  tr_descriptor : ResolvedTargetDescriptor;
  tr_deleted_at : option datetime;
}.

Inductive TargetError := TargetNotFoundError | AmbiguousTargetError.

Definition live_target (tenant_id : uuid) (t : TargetRow) : bool :=
  bool_decide (td_tenant_id (tr_descriptor t) = tenant_id) && bool_decide (tr_deleted_at t = None).

(** [_alias_match]. *)
Definition alias_match (tenant_id : uuid) (query : string) (rows : list TargetRow) : list TargetRow :=
  select_where (fun t => live_target tenant_id t && bool_decide (query ∈ td_aliases (tr_descriptor t))) rows.

(** The name first, then the aliases; the near misses of a 404 are left out. *)
Definition resolve_target (tenant_id : uuid) (query : string) (rows : list TargetRow) : res TargetError TargetRow :=
  match select_where (fun t => live_target tenant_id t && bool_decide (td_name (tr_descriptor t) = query)) rows with
  | [t] => Ok t
  | _ :: _ :: _ => Raise AmbiguousTargetError
  | [] =>
      match alias_match tenant_id query rows with
      | [t] => Ok t
      | _ :: _ :: _ => Raise AmbiguousTargetError
      | [] => Raise TargetNotFoundError
      end
  end.

Definition resolve_target_by_id (tenant_id target_id : uuid) (rows : list TargetRow) : option TargetRow :=
  List.find (fun t => live_target tenant_id t && bool_decide (td_id (tr_descriptor t) = target_id)) rows.

Definition resolver_target (t : TargetRow) : ResolverTarget :=
  let d := tr_descriptor t in
  {| rt_product := td_product d; rt_fingerprint := td_fingerprint d; rt_version := td_version d;
     rt_preferred_impl_id := td_preferred_impl_id d |}.

(** [descriptor_from_target]: the row's own columns. *)
Definition descriptor_from_target (t : TargetRow) : ResolvedTargetDescriptor := tr_descriptor t.

(** * The connector packages of a process *)

Record PackageSet := { ps_digest : string; ps_folders : list (string * string) }.

Definition package_for_handler (p : PackageSet) (handler_ref : string) : option string :=
  match strip_prefix CONNECTOR_MODULE_PREFIX handler_ref with
  | None => None
  | Some rest => dict_get (fst (partition_on "." rest)) (ps_folders p)
  end.

(** * The assignment document *)

Record AuthoredCheckItem := {
  ac_check_ref : string;
  ac_target_name : string;
  ac_op : string;
  ac_params : json_dict;
  ac_cadence_seconds : Z;
}.

Record RunnerAssignmentRow := {
  rw_tenant_id : uuid;
  rw_runner_name : string;
  rw_items : list AuthoredCheckItem;
  rw_created_at : datetime;
  rw_updated_at : datetime;
}.

Record RunnerCheckResult := {
  cr_tenant_id : uuid;
  cr_runner_name : string;
  cr_result : RunnerResult;
  cr_received_at : datetime;
}.

Record AssignmentDb := {
  as_rows : list RunnerAssignmentRow;
  as_results : list RunnerCheckResult;
}.

Inductive AssignmentValidationError :=
| AssignmentTargetUnknownError (check_ref : string)
| AssignmentOpUnknownError (check_ref : string)
| AssignmentOpNotSafeError (check_ref safety_level : string)
| AssignmentLookupError.

Definition own_row (tenant_id : uuid) (runner_name : string) (r : RunnerAssignmentRow) : bool :=
  bool_decide (rw_tenant_id r = tenant_id) && bool_decide (rw_runner_name r = runner_name).

Definition get_assignment_row (tenant_id : uuid) (runner_name : string) (db : AssignmentDb) : option RunnerAssignmentRow :=
  List.find (own_row tenant_id runner_name) (as_rows db).

Definition upsert_assignment_row (tenant_id : uuid) (runner_name : string) (items : list AuthoredCheckItem) (now : datetime)
  (db : AssignmentDb) : AssignmentDb :=
  match get_assignment_row tenant_id runner_name db with
  | None => {| as_rows := as_rows db ++ [{| rw_tenant_id := tenant_id; rw_runner_name := runner_name; rw_items := items;
                                            rw_created_at := now; rw_updated_at := now |}];
               as_results := as_results db |}
  | Some _ => {| as_rows := update_where (own_row tenant_id runner_name) (fun r =>
                   {| rw_tenant_id := rw_tenant_id r; rw_runner_name := rw_runner_name r; rw_items := items;
                      rw_created_at := rw_created_at r; rw_updated_at := now |}) (as_rows db);
                 as_results := as_results db |}
  end.

(** ** Ingest *)

(** The first of each uid, in order. *)
Fixpoint dedupe (seen : list string) (results : list RunnerResult) : list RunnerResult :=
  match results with
  | [] => []
  | r :: rest => if bool_decide (rr_result_uid r ∈ seen) then dedupe seen rest
                 else r :: dedupe (rr_result_uid r :: seen) rest
  end.

Definition own_result (tenant_id : uuid) (runner_name : string) (c : RunnerCheckResult) : bool :=
  bool_decide (cr_tenant_id c = tenant_id) && bool_decide (cr_runner_name c = runner_name).

Definition already_ingested (tenant_id : uuid) (runner_name : string) (db : AssignmentDb) (uid : string) : bool :=
  existsb (fun c => own_result tenant_id runner_name c && bool_decide (rr_result_uid (cr_result c) = uid)) (as_results db).

(** The new database, the accepted and the duplicates. *)
Definition ingest_results (tenant_id : uuid) (runner_name : string) (results : list RunnerResult) (now : datetime)
  (db : AssignmentDb) : AssignmentDb * (nat * nat) :=
  let fresh := List.filter (fun r => negb (already_ingested tenant_id runner_name db (rr_result_uid r))) (dedupe [] results) in
  ({| as_rows := as_rows db;
      as_results := as_results db ++ ((fun r => {| cr_tenant_id := tenant_id; cr_runner_name := runner_name; cr_result := r;
                                                   cr_received_at := now |}) <$> fresh) |},
   (length fresh, length results - length fresh)).

(** ** Authoring and materialising *)

Record RunnerAssignment := { ra_assignment_version : string; ra_items : list RunnerWorkItem }.

Section Assignments.
Context (installed : list string) (row_code_missing : option uuid -> EndpointDescriptor -> bool).
Context (is_safe_write : string -> bool) (handler_ref_of : EndpointDescriptor -> option string).
Context (sha256 : string -> string) (dump_item : RunnerWorkItem -> json).
Context {V : Type} (Version : string -> option V) (release : V -> list Z).
Context (SpecifierSet : string -> option (list Specifier)) (contains : list Specifier -> V -> bool).

(** What a request reads beside the assignment tables. *)
Record AssignmentView := {
  av_targets : list TargetRow;
  av_registry : Registry;
  av_catalog : CatalogDb;
  av_package_set : PackageSet;
}.

Definition is_safe_tier (d : EndpointDescriptor) : bool :=
  bool_decide (classify_satellite_tier is_safe_write (ed_safety_level d) (k_op_id (ed_key d)) = TIER_SAFE).

Definition resolved_connector (v : AssignmentView) (t : TargetRow) : option ConnectorCls :=
  fst (resolve_connector_or_label Version release SpecifierSet contains (av_registry v) (resolver_target t)).

Definition connector_op_key (cls : ConnectorCls) (op : string) : OpKey :=
  {| k_product := cc_product cls; k_version := cc_version cls; k_impl_id := cc_impl_id cls; k_op_id := op |}.

Definition lookup_op (v : AssignmentView) (tenant_id : uuid) (cls : ConnectorCls) (op : string)
  : res LookupError (option EndpointDescriptor) :=
  lookup_descriptor installed row_code_missing (av_catalog v) (Some tenant_id) (connector_op_key cls op).

Definition validate_authored_item (v : AssignmentView) (tenant_id : uuid) (item : AuthoredCheckItem)
  : res AssignmentValidationError unit :=
  match resolve_target tenant_id (ac_target_name item) (av_targets v) with
  | Raise _ => Raise (AssignmentTargetUnknownError (ac_check_ref item))
  | Ok target =>
      match resolved_connector v target with
      | None => Raise (AssignmentOpUnknownError (ac_check_ref item))
      | Some cls =>
          match lookup_op v tenant_id cls (ac_op item) with
          | Raise _ => Raise AssignmentLookupError
          | Ok None => Raise (AssignmentOpUnknownError (ac_check_ref item))
          | Ok (Some d) =>
              if is_safe_tier d then Ok tt
              else Raise (AssignmentOpNotSafeError (ac_check_ref item) (ed_safety_level d))
          end
      end
  end.

(** Every item is checked before anything is written. *)
Fixpoint validate_all (v : AssignmentView) (tenant_id : uuid) (items : list AuthoredCheckItem)
  : res AssignmentValidationError unit :=
  match items with
  | [] => Ok tt
  | item :: rest => _ ← validate_authored_item v tenant_id item; validate_all v tenant_id rest
  end.

Definition store_assignment (v : AssignmentView) (tenant_id : uuid) (runner_name : string) (items : list AuthoredCheckItem)
  (now : datetime) : txn AssignmentDb AssignmentValidationError unit :=
  _ ← lift_res (validate_all v tenant_id items);
  commit (upsert_assignment_row tenant_id runner_name items now).

Definition is_runnable_safe (d : EndpointDescriptor) : option string :=
  if is_safe_tier d then handler_ref_of d ≫= non_empty else None.

Definition materialize_item (v : AssignmentView) (tenant_id : uuid) (principal : WirePrincipal) (authored : AuthoredCheckItem)
  : res LookupError (option RunnerWorkItem) :=
  match resolve_target tenant_id (ac_target_name authored) (av_targets v) with
  | Raise _ => Ok None
  | Ok target =>
      match resolved_connector v target with
      | None => Ok None
      | Some cls =>
          descriptor ← lookup_op v tenant_id cls (ac_op authored);
          match descriptor with
          | None => Ok None
          | Some d =>
              match is_runnable_safe d with
              | None => Ok None
              | Some handler_ref => Ok (Some {|
                  wi_check_ref := ac_check_ref authored; wi_op_id := ac_op authored; wi_product := cc_product cls;
                  wi_version := cc_version cls; wi_impl_id := cc_impl_id cls; wi_handler_ref := handler_ref;
                  wi_params := ac_params authored; wi_safety_level := ed_safety_level d; wi_principal := principal;
                  wi_target_descriptor := Some (descriptor_from_target target); wi_signature := None; wi_expires_at := None;
                  wi_package_set := match package_for_handler (av_package_set v) handler_ref with
                                    | Some _ => Some (ps_digest (av_package_set v))
                                    | None => None
                                    end |})
              end
          end
      end
  end.

Definition package_set_matches (item : RunnerWorkItem) (runner_package_set : string) : bool :=
  match wi_package_set item with None => true | Some d => bool_decide (d = runner_package_set) end.

Fixpoint materialize_items (v : AssignmentView) (tenant_id : uuid) (principal : WirePrincipal) (runner_package_set : string)
  (authored : list AuthoredCheckItem) : res LookupError (list RunnerWorkItem) :=
  match authored with
  | [] => Ok []
  | a :: rest =>
      item ← materialize_item v tenant_id principal a;
      items ← materialize_items v tenant_id principal runner_package_set rest;
      Ok match item with
         | Some w => if package_set_matches w runner_package_set then w :: items else items
         | None => items
         end
  end.

Definition compute_assignment_version (items : list RunnerWorkItem) : string := sha256 (json_dumps (JList (dump_item <$> items))).

Definition materialize_assignment (v : AssignmentView) (tenant_id : uuid) (runner_name : string) (principal : WirePrincipal)
  (runner_package_set : string) (db : AssignmentDb) : res LookupError RunnerAssignment :=
  let authored := match get_assignment_row tenant_id runner_name db with Some row => rw_items row | None => [] end in
  items ← materialize_items v tenant_id principal runner_package_set authored;
  Ok {| ra_assignment_version := compute_assignment_version items; ra_items := items |}.

(** * The routes *)

Definition principal_from_operator (o : Operator) : WirePrincipal := {|
  wp_sub := op_sub o; wp_tenant_id := op_tenant_id o; wp_tenant_role := op_tenant_role o;
  wp_principal_kind := op_principal_kind o |}.

Inductive FetchAnswer := assignment_body (a : RunnerAssignment) | not_modified | fetch_refused (e : RunnerError) | fetch_failed.

(** The tables a runner route touches. *)
Record ChecksDb := { ck_runners : RunnerDb; ck_assignments : AssignmentDb }.

(** [GET /assignment]: the guard's writes stay, whatever the answer. *)
Definition get_assignment (v : AssignmentView) (operator : Operator) (runner_id : uuid) (runner wire_version package_set : string)
  (known_version : option string) (now : datetime) (db : ChecksDb) : ChecksDb * FetchAnswer :=
  let '(runners, scope) := assert_runner_scope operator runner_id runner wire_version package_set now (ck_runners db) in
  let db' := {| ck_runners := runners; ck_assignments := ck_assignments db |} in
  (db', match scope with
        | Raise e => fetch_refused e
        | Ok _ =>
            match materialize_assignment v (op_tenant_id operator) runner (principal_from_operator operator) package_set
                    (ck_assignments db) with
            | Raise _ => fetch_failed
            | Ok a => if bool_decide (known_version = Some (ra_assignment_version a)) then not_modified else assignment_body a
            end
        end).

(** [POST /results]: the scope, the ingest and the dead-man marker. *)
Definition post_results (operator : Operator) (runner_id : uuid) (batch_runner wire_version package_set : string)
  (results : list RunnerResult) (now : datetime) (db : ChecksDb) : ChecksDb * res RunnerError (nat * nat) :=
  let '(runners, scope) := assert_runner_scope operator runner_id batch_runner wire_version package_set now (ck_runners db) in
  match scope with
  | Raise e => ({| ck_runners := runners; ck_assignments := ck_assignments db |}, Raise e)
  | Ok _ =>
      let '(assignments, counts) := ingest_results (op_tenant_id operator) batch_runner results now (ck_assignments db) in
      ({| ck_runners := clear_runner_stale (op_tenant_id operator) batch_runner runners; ck_assignments := assignments |}, Ok counts)
  end.
End Assignments.

(** * Lemmas *)

Lemma own_row_iff t n r : own_row t n r = true <-> (rw_tenant_id r, rw_runner_name r) = (t, n).
Proof. unfold own_row. rewrite andb_true_iff, !bool_decide_eq_true. naive_solver. Qed.

Definition rows_ok (db : AssignmentDb) : Prop := NoDup ((fun r => (rw_tenant_id r, rw_runner_name r)) <$> as_rows db).

Lemma find_own_update t n f rows :
  (forall r, own_row t n (f r) = own_row t n r) ->
  List.find (own_row t n) (update_where (own_row t n) f rows) = f <$> List.find (own_row t n) rows.
Proof.
  intros Hf. induction rows as [|x rows IH]; [done|]. simpl. destruct (own_row t n x) eqn:E; simpl.
  - by rewrite Hf, E.
  - by rewrite E.
Qed.

Lemma find_other_update t n t' n' f rows :
  (forall r, own_row t n (f r) = own_row t n r) -> (t', n') <> (t, n) ->
  List.find (own_row t' n') (update_where (own_row t n) f rows) = List.find (own_row t' n') rows.
Proof.
  intros Hf Hne. assert (forall y, own_row t n y = true -> own_row t' n' y = false) as Hno.
  { intros y Hy%own_row_iff. apply not_true_iff_false. rewrite own_row_iff. congruence. }
  induction rows as [|x rows IH]; [done|]. simpl. destruct (own_row t n x) eqn:E.
  - rewrite (Hno x E), (Hno (f x)) by (by rewrite Hf). exact IH.
  - by destruct (own_row t' n' x).
Qed.

Lemma find_own_snoc t n rows x : List.find (own_row t n) (rows ++ [x]) =
  match List.find (own_row t n) rows with Some r => Some r | None => if own_row t n x then Some x else None end.
Proof. induction rows as [|y rows IH]; [done|]. simpl. by destruct (own_row t n y). Qed.

Lemma upsert_spec tenant_id runner_name items now db :
  rows_ok db ->
  let db' := upsert_assignment_row tenant_id runner_name items now db in
  rows_ok db' /\ rw_items <$> get_assignment_row tenant_id runner_name db' = Some items /\
  (forall t n, (t, n) <> (tenant_id, runner_name) -> get_assignment_row t n db' = get_assignment_row t n db).
Proof.
  intros Hok db'. unfold db', upsert_assignment_row. destruct (get_assignment_row tenant_id runner_name db) as [row|] eqn:Eg.
  - split_and!.
    + unfold rows_ok. simpl. rewrite update_where_keys; [done|]. by intros [].
    + unfold get_assignment_row. simpl. rewrite find_own_update by done. unfold get_assignment_row in Eg. by rewrite Eg.
    + intros t n Hne. unfold get_assignment_row. simpl. by apply find_other_update.
  - split_and!.
    + unfold rows_ok. simpl. rewrite fmap_app. apply NoDup_snoc; [done|]. intros (x & Hx & Hin)%list_elem_of_fmap.
      unfold get_assignment_row in Eg. rewrite find_None_iff in Eg. apply Eg, not_true_iff_false in Hin.
      apply Hin, own_row_iff. by rewrite <- Hx.
    + unfold get_assignment_row in *. simpl. rewrite find_own_snoc, Eg.
      destruct (own_row _ _ _) eqn:Eo; [done|]. apply not_true_iff_false in Eo. destruct (Eo (proj2 (own_row_iff _ _ _) eq_refl)).
    + intros t n Hne. unfold get_assignment_row in *. simpl. rewrite find_own_snoc.
      destruct (own_row t n _) eqn:Eo; [apply own_row_iff in Eo; simpl in Eo; congruence|].
      by destruct (List.find (own_row t n) (as_rows db)).
Qed.

Section AssignmentFacts.
Context (installed : list string) (row_code_missing : option uuid -> EndpointDescriptor -> bool).
Context (is_safe_write : string -> bool) (handler_ref_of : EndpointDescriptor -> option string).
Context (sha256 : string -> string) (dump_item : RunnerWorkItem -> json).
Context {V : Type} (Version : string -> option V) (release : V -> list Z).
Context (SpecifierSet : string -> option (list Specifier)) (contains : list Specifier -> V -> bool).

Lemma lookup_op_key v tenant_id cls op d :
  lookup_op installed row_code_missing v tenant_id cls op = Ok (Some d) -> ed_key d = connector_op_key cls op.
Proof.
  unfold lookup_op, lookup_descriptor. intros H. apply bind_Ok in H as (row & Hrow & H).
  destruct row as [d0|]; [|done]. destruct (row_code_missing _ d0); [done|]. injection H as <-.
  change (ed_key (apply_effective_policy (cd_overrides (av_catalog v)) (Some tenant_id) d0)) with (ed_key d0).
  unfold ok_or in Hrow. destruct (scalar_one_or_none _) as [o|] eqn:Es; [|done]. injection Hrow as ->.
  unfold scalar_one_or_none in Es. destruct (select_where _ _) as [|x [|y l]] eqn:El; try done. injection Es as <-.
  assert (x ∈ select_where (fun d => visible_op (av_catalog v) (Some tenant_id) (connector_op_key cls op) d &&
    enabled_for_tenant (cd_settings (av_catalog v)) (Some tenant_id) d && installed_owner installed d) (cd_descriptors (av_catalog v)))
    as Hx by (rewrite El; by left).
  apply elem_of_select in Hx as [_ Hx]. unfold visible_op in Hx. by to_prop.
Qed.

Lemma resolve_target_Ok tenant_id query rows t :
  resolve_target tenant_id query rows = Ok t ->
  t ∈ rows /\ live_target tenant_id t = true /\
  (td_name (tr_descriptor t) = query \/ query ∈ td_aliases (tr_descriptor t)).
Proof.
  unfold resolve_target. destruct (select_where _ rows) as [|x [|y l]] eqn:E1; intros H; [| |done].
  - destruct (alias_match _ _ _) as [|x [|y l]] eqn:E2; [done| |done]. injection H as <-.
    assert (x ∈ alias_match tenant_id query rows) as Hx by (rewrite E2; by left).
    apply elem_of_select in Hx as [Hx Hp]. to_prop. auto.
  - injection H as <-. assert (x ∈ select_where (fun t => live_target tenant_id t && bool_decide (td_name (tr_descriptor t) = query)) rows)
      as Hx by (rewrite E1; by left).
    apply elem_of_select in Hx as [Hx Hp]. to_prop. auto.
Qed.
Lemma lookup_op_total v tenant_id cls op :
  catalog_ok (av_catalog v) -> exists r, lookup_op installed row_code_missing v tenant_id cls op = Ok r.
Proof.
  intros Hok. unfold lookup_op, lookup_descriptor.
  rewrite (lookup_unique installed (av_catalog v) (Some tenant_id) (connector_op_key cls op) Hok). simpl.
  destruct (head _) as [d|]; [|eauto]. destruct (row_code_missing _ _); eauto.
Qed.

Lemma materialize_item_total v tenant_id principal a :
  catalog_ok (av_catalog v) ->
  exists r, materialize_item installed row_code_missing is_safe_write handler_ref_of Version release SpecifierSet contains
              v tenant_id principal a = Ok r.
Proof.
  intros Hok. unfold materialize_item. destruct (resolve_target _ _ _) as [t|]; [|eauto].
  destruct (resolved_connector _ _ _ _ _ _) as [cls|]; [|eauto].
  destruct (lookup_op_total v tenant_id cls (ac_op a) Hok) as [r ->]. simpl. destruct r as [d|]; [|eauto].
  destruct (is_runnable_safe _ _ _); eauto.
Qed.

(** What a materialised item carries. *)
Record safe_item (v : AssignmentView) (tenant_id : uuid) (runner_package_set : string) (a : AuthoredCheckItem)
  (w : RunnerWorkItem) : Prop := {
  sf_authored : wi_check_ref w = ac_check_ref a /\ wi_op_id w = ac_op a /\ wi_params w = ac_params a;
  sf_safe : item_tier is_safe_write w = TIER_SAFE;
  sf_handler : wi_handler_ref w <> "";
  sf_unsigned : wi_signature w = None /\ wi_expires_at w = None;
  sf_target : exists t, t ∈ av_targets v /\ wi_target_descriptor w = Some (tr_descriptor t) /\ live_target tenant_id t = true /\
                (td_name (tr_descriptor t) = ac_target_name a \/ ac_target_name a ∈ td_aliases (tr_descriptor t));
  sf_packages : wi_package_set w = None \/ wi_package_set w = Some runner_package_set;
}.

Lemma materialize_item_safe v tenant_id principal a w ps :
  materialize_item installed row_code_missing is_safe_write handler_ref_of Version release SpecifierSet contains
    v tenant_id principal a = Ok (Some w) ->
  package_set_matches w ps = true -> safe_item v tenant_id ps a w.
Proof.
  unfold materialize_item. intros H Hps. destruct (resolve_target _ _ _) as [t|] eqn:Et; [|done].
  destruct (resolved_connector _ _ _ _ _ _) as [cls|]; [|done]. apply bind_Ok in H as ([d|] & Hd & H); [|done].
  destruct (is_runnable_safe _ _ d) as [h|] eqn:Eh; [|done]. injection H as <-. apply lookup_op_key in Hd.
  unfold is_runnable_safe in Eh. destruct (is_safe_tier _ d) eqn:Es; [|done].
  apply resolve_target_Ok in Et as (Ht & Hl & Hn). split; simpl; [done| |  |done|by exists t|].
  - unfold is_safe_tier in Es. to_prop. rewrite Hd in Es. exact Es.
  - destruct (handler_ref_of d) as [h0|]; [|done]. simpl in Eh. unfold non_empty in Eh. case_bool_decide; [done|]. congruence.
  - unfold package_set_matches in Hps. simpl in Hps. destruct (package_for_handler _ _); [|by left]. to_prop. right. by rewrite Hps.
Qed.

Lemma materialize_items_safe v tenant_id principal ps authored :
  catalog_ok (av_catalog v) -> exists items,
  materialize_items installed row_code_missing is_safe_write handler_ref_of Version release SpecifierSet contains
    v tenant_id principal ps authored = Ok items /\
  exists kept, kept `sublist_of` authored /\ Forall2 (safe_item v tenant_id ps) kept items.
Proof.
  intros Hok. induction authored as [|a rest (items & IH & kept & Hsub & Hall)].
  - exists []. split; [done|]. exists []. by split.
  - simpl. destruct (materialize_item_total v tenant_id principal a Hok) as [r Hr]. rewrite Hr, IH. simpl.
    destruct r as [w|]; [|exists items; split; [done|]; exists kept; split; [by constructor|done]].
    destruct (package_set_matches w ps) eqn:Eps.
    + exists (w :: items). split; [done|]. exists (a :: kept). split; [by constructor|]. constructor; [|done].
      by eapply materialize_item_safe.
    + exists items. split; [done|]. exists kept. split; [by constructor|done].
Qed.

(** The recurring work of a runner is reads only.  A stored document always
    materialises, and every item of the assignment is one of its authored items, in
    order: a safe operation with a handler, on a live target of the tenant by name
    or alias, for the runner's own package set, unsigned; the runner's screens admit
    it exactly when its handler lies in the connector tree. *)
Theorem assignments_hold_only_safe_work v tenant_id runner_name principal ps db :
  catalog_ok (av_catalog v) -> exists a,
  materialize_assignment installed row_code_missing is_safe_write handler_ref_of sha256 dump_item Version release SpecifierSet
    contains v tenant_id runner_name principal ps db = Ok a /\
  (exists kept, kept `sublist_of` (match get_assignment_row tenant_id runner_name db with Some r => rw_items r | None => [] end) /\
     Forall2 (safe_item v tenant_id ps) kept (ra_items a)) /\
  forall w `{SignatureScheme} settings now, w ∈ ra_items a ->
    screen_item sha256 is_safe_write settings now w =
    if starts_with CONNECTOR_MODULE_PREFIX (wi_handler_ref w) then None else Some handler_out_of_tree.
Proof.
  intros Hok. unfold materialize_assignment.
  destruct (materialize_items_safe v tenant_id principal ps
    (match get_assignment_row tenant_id runner_name db with Some r => rw_items r | None => [] end) Hok)
    as (items & -> & kept & Hsub & Hall). simpl. eexists. split; [done|]. simpl. split; [by exists kept|].
  intros w S settings now Hw. apply list_elem_of_lookup in Hw as [i Hi].
  destruct (Forall2_lookup_r _ _ _ _ _ Hall Hi) as (x & _ & Hs). unfold screen_item. by rewrite (sf_safe _ _ _ _ _ Hs).
Qed.

(** ** The document *)

Lemma validate_all_cases v tenant_id items :
  match validate_all installed row_code_missing is_safe_write Version release SpecifierSet contains v tenant_id items with
  | Ok _ => forall item, item ∈ items -> validate_authored_item installed row_code_missing is_safe_write Version release
              SpecifierSet contains v tenant_id item = Ok tt
  | Raise e => exists item, item ∈ items /\ validate_authored_item installed row_code_missing is_safe_write Version release
              SpecifierSet contains v tenant_id item = Raise e
  end.
Proof.
  induction items as [|i items IH]; simpl; [by intros ? ?%elem_of_nil|].
  destruct (validate_authored_item _ _ _ _ _ _ _ _ _ i) as [[]|e] eqn:Ei; simpl.
  - destruct (validate_all _ _ _ _ _ _ _ _ _ items) as [u|e].
    + intros x [->|Hx]%elem_of_cons; [done|by apply IH].
    + destruct IH as (x & Hx & He). exists x. split; [by right|done].
  - exists i. split; [by left|done].
Qed.

(** A document is replaced whole or not at all.  A document with one item that
    names no live target, no enabled operation or an operation that is not a safe
    read changes nothing; any other becomes the runner's document, which is what
    later reads see, and no other runner's changes; each runner has one row. *)
Theorem documents_are_replaced_whole v tenant_id runner_name items now db db' r :
  rows_ok db ->
  store_assignment installed row_code_missing is_safe_write Version release SpecifierSet contains v tenant_id runner_name items now db
    = (db', r) ->
  rows_ok db' /\
  match r with
  | Raise e => db' = db /\ exists item, item ∈ items /\
      validate_authored_item installed row_code_missing is_safe_write Version release SpecifierSet contains v tenant_id item = Raise e
  | Ok _ =>
      rw_items <$> get_assignment_row tenant_id runner_name db' = Some items /\
      (forall t n, (t, n) <> (tenant_id, runner_name) -> get_assignment_row t n db' = get_assignment_row t n db) /\
      (forall item, item ∈ items ->
         validate_authored_item installed row_code_missing is_safe_write Version release SpecifierSet contains v tenant_id item = Ok tt)
  end.
Proof.
  intros Hok. unfold store_assignment. rewrite lift_bind. pose proof (validate_all_cases v tenant_id items) as Hv.
  destruct (validate_all _ _ _ _ _ _ _ _ _ items) as [u|e]; [|by intros [= <- <-]].
  unfold commit. intros [= <- <-]. destruct (upsert_spec tenant_id runner_name items now db Hok) as (H1 & H2 & H3). done.
Qed.
End AssignmentFacts.

(** * Witnesses *)

Definition w_vm_list : EndpointDescriptor := {| ed_tenant_id := None;
  ed_key := {| k_product := "vsphere"; k_version := "9.x"; k_impl_id := "vsphere-rest"; k_op_id := "vm.list" |};
  ed_is_enabled := true; ed_owner_package := None; ed_method := None; ed_tags := []; ed_safety_level := "safe";
  ed_requires_approval := false; ed_parameter_schema := JNull |}.

Definition w_vcenter : TargetRow := {| tr_deleted_at := None; tr_descriptor := {|
  td_id := "t-1"; td_tenant_id := "t1"; td_name := "vcenter"; td_aliases := ["vc"]; td_product := "vsphere"; td_version := Some "9.0.2";
  td_fingerprint := None; td_preferred_impl_id := None; td_host := "vc.local"; td_port := None; td_fqdn := None;
  td_secret_ref := None; td_auth_model := "shared_service_account"; td_verify_tls := true;
  td_tls_ca_pin := None; td_tls_server_name := None; td_secret_field_map := []; td_extras := []; td_updated_at := None |} |}.

Definition w_view : AssignmentView := {| av_targets := [w_vcenter];
  av_registry := {| rg_v1 := []; rg_v2 := [(("vsphere", "9.x", "vsphere-rest"), w_class "VSphere" ">=9.0,<10.0" shim_none)] |};
  av_catalog := {| cd_descriptors := [w_vm_list]; cd_settings := []; cd_overrides := [] |};
  av_package_set := {| ps_digest := "sha256:0"; ps_folders := [] |} |}.

Definition w_authored : AuthoredCheckItem :=
  {| ac_check_ref := "c-1"; ac_target_name := "vc"; ac_op := "vm.list"; ac_params := []; ac_cadence_seconds := 60 |}.
Definition w_stale : AuthoredCheckItem :=
  {| ac_check_ref := "c-0"; ac_target_name := "gone"; ac_op := "vm.list"; ac_params := []; ac_cadence_seconds := 60 |}.

Definition w_assignments : AssignmentDb := {| as_rows := [{| rw_tenant_id := "t1"; rw_runner_name := "edge-1";
  rw_items := [w_stale; w_authored]; rw_created_at := 0; rw_updated_at := 0 |}]; as_results := [] |}.

Definition w_principal : WirePrincipal :=
  {| wp_sub := "runner:edge-1"; wp_tenant_id := "t1"; wp_tenant_role := OPERATOR; wp_principal_kind := SERVICE |}.

Lemma w_catalog_ok : catalog_ok (av_catalog w_view).
Proof. apply NoDup_singleton. Qed.

Definition w_assignment : res LookupError RunnerAssignment :=
  materialize_assignment [] (fun _ _ => false) (fun _ => false) (fun _ => Some "meho_backplane.connectors.vsphere.vm_list") id
    (fun w => JStr (wi_op_id w)) w_version id w_specifiers w_contains w_view "t1" "edge-1" w_principal "sha256:0" w_assignments.

Lemma assignments_hold_only_safe_work_witness : exists a,
  w_assignment = Ok a /\ wi_check_ref <$> ra_items a = ["c-1"].
Proof.
  destruct (assignments_hold_only_safe_work [] (fun _ _ => false) (fun _ => false) (fun _ => Some "meho_backplane.connectors.vsphere.vm_list")
    id (fun w => JStr (wi_op_id w)) w_version id w_specifiers w_contains w_view "t1" "edge-1" w_principal "sha256:0" w_assignments
    w_catalog_ok) as (a & Ha & _).
  exists a. split; [exact Ha|]. vm_compute in Ha. injection Ha as <-. done.
Defined.

Lemma documents_are_replaced_whole_witness : exists db',
  store_assignment [] (fun _ _ => false) (fun _ => false) w_version id w_specifiers w_contains w_view "t1" "edge-1" [w_authored] 5
    w_assignments = (db', Ok tt) /\
  rw_items <$> get_assignment_row "t1" "edge-1" db' = Some [w_authored].
Proof.
  destruct (store_assignment [] (fun _ _ => false) (fun _ => false) w_version id w_specifiers w_contains w_view "t1" "edge-1"
    [w_authored] 5 w_assignments) as [db' r] eqn:E. exists db'.
  destruct (documents_are_replaced_whole [] (fun _ _ => false) (fun _ => false) w_version id w_specifiers w_contains w_view "t1" "edge-1"
    [w_authored] 5 w_assignments db' r (NoDup_singleton _) E) as [_ H].
  destruct r as [[]|e]; [split; [done|exact (proj1 H)]|by vm_compute in E].
Defined.
