(* ===== verification/RunnerLoop.v ===== *)
(** The runner's tick ([runner/loop.py]) and its spool of results that could not be
    posted ([runner/spool.py]).

    The network is what each call comes to: a post may fail after the centre took
    it.  Nothing else of the centre is assumed than [ingest_results]. *)

From stdpp Require Import gmap strings.
From S2P Require Import Prelude Identity Json GatewayQueue WireText WorkItemSigning EffectChain RunnerEdge RunnerEdgeProofs RunnerAssignments.

Record RunnerResultBatch := { rb_runner_id : string; rb_results : list RunnerResult }.

(** * The spool *)

(** The files by name; [None] is a file that does not read back. *)
Abbreviation spool_files := (list (string * option RunnerResultBatch)).

Fixpoint enforce_cap (max_files : nat) (files : spool_files) : spool_files :=
  match files with
  | [] => []
  | _ :: rest => if (max_files <=? length files)%nat then enforce_cap max_files rest else files
  end.

Fixpoint put_batch (name : string) (b : RunnerResultBatch) (files : spool_files) : spool_files :=
  match files with
  | [] => [(name, Some b)]
  | f :: rest => if String.eqb name f.1 then (name, Some b) :: rest
                 else if String.leb name f.1 then (name, Some b) :: files
                 else f :: put_batch name b rest
  end.

(** [name] is the clock, a counter and a fresh uuid. *)
Definition write_batch (max_files : nat) (name : string) (b : RunnerResultBatch) (files : spool_files) : spool_files :=
  put_batch name b (enforce_cap max_files files).

Definition load_oldest_first (files : spool_files) : list (string * RunnerResultBatch) :=
  omap (fun f => pair f.1 <$> f.2) files.

Definition remove_batch (name : string) (files : spool_files) : spool_files :=
  delete_where (fun f => bool_decide (f.1 = name)) files.

(** * A tick *)

(** What a post comes to; a failed one may have been ingested. *)
Inductive PostOutcome := post_ok | post_wire_mismatch | post_failed (ingested : bool).

#[global] Instance PostOutcome_eq_dec : EqDecision PostOutcome.
Proof. solve_decision. Defined.

Inductive FetchOutcome :=
| fetched (a : RunnerAssignment) | assignment_unchanged | fetch_down | fetch_wire_mismatch.

Record RunnerState := { rs_assignment : option RunnerAssignment; rs_assignment_version : option string }.

Record TickEnv := {
  te_drain : list PostOutcome;
  te_fetch : FetchOutcome;
  te_report : PostOutcome;
  te_runs : list EdgeRun;
  te_file_name : string;
  te_now : datetime;
}.

Record LoopState := {
  ls_state : RunnerState;
  ls_spool : spool_files;
  ls_centre : AssignmentDb;
}.

Inductive drain_end := drained | drain_stopped | drain_mismatch.

Section Loop.
Context (sha256 : string -> string) `{SignatureScheme} (is_safe_write : string -> bool).
Context (tenant_id : uuid) (runner_id : string) (max_files : nat).

(** What a post leaves at the centre. *)
Definition deliver_batch (o : PostOutcome) (b : RunnerResultBatch) (now : datetime) (db : AssignmentDb) : AssignmentDb :=
  match o with
  | post_ok | post_failed true => fst (ingest_results tenant_id (rb_runner_id b) (rb_results b) now db)
  | post_wire_mismatch | post_failed false => db
  end.

(** [_drain_spool]: the first failure ends it; a post without an outcome fails. *)
Fixpoint drain_spool (outcomes : list PostOutcome) (batches : list (string * RunnerResultBatch)) (now : datetime)
  (files : spool_files) (db : AssignmentDb) {struct batches} : spool_files * AssignmentDb * drain_end :=
  match batches with
  | [] => (files, db, drained)
  | (name, b) :: rest =>
      match outcomes with
      | post_ok :: outcomes' => drain_spool outcomes' rest now (remove_batch name files) (deliver_batch post_ok b now db)
      | post_wire_mismatch :: _ => (files, db, drain_mismatch)
      | post_failed i :: _ => (files, deliver_batch (post_failed i) b now db, drain_stopped)
      | [] => (files, db, drain_stopped)
      end
  end.

(** [None] on a refused wire version. *)
Definition fetch_assignment (o : FetchOutcome) (s : RunnerState) : option RunnerState :=
  match o with
  | fetched a => Some {| rs_assignment := Some a; rs_assignment_version := Some (ra_assignment_version a) |}
  | assignment_unchanged | fetch_down => Some s
  | fetch_wire_mismatch => None
  end.

(** The items run one after the other, without a chain. *)
Fixpoint execute_items (runs : list EdgeRun) (items : list RunnerWorkItem) {struct items} : edge (list RunnerResult) :=
  match items, runs with
  | item :: items', run :: runs' =>
      r ← execute_work_item sha256 is_safe_write run "" item;
      rs ← execute_items runs' items';
      mret (r :: rs)
  | _, _ => mret []
  end.

(** The state after the report, and whether the wire version was refused. *)
Definition report (env : TickEnv) (results : list RunnerResult) (s : LoopState) : LoopState * bool :=
  let batch := {| rb_runner_id := runner_id; rb_results := results |} in
  let db := deliver_batch (te_report env) batch (te_now env) (ls_centre s) in
  match te_report env with
  | post_ok => ({| ls_state := ls_state s; ls_spool := ls_spool s; ls_centre := db |}, false)
  | post_wire_mismatch =>
      ({| ls_state := ls_state s; ls_spool := write_batch max_files (te_file_name env) batch (ls_spool s); ls_centre := db |}, true)
  | post_failed _ =>
      ({| ls_state := ls_state s; ls_spool := write_batch max_files (te_file_name env) batch (ls_spool s); ls_centre := db |}, false)
  end.

Definition drop_cache (s : LoopState) : LoopState :=
  {| ls_state := {| rs_assignment := None; rs_assignment_version := None |}; ls_spool := ls_spool s; ls_centre := ls_centre s |}.

(** One tick: its state, and the results it executed.  [budget] and the edge state
    are those of [execute_work_item]; a stop there ends the process, whose memory
    is lost. *)
Definition run_one_tick (env : TickEnv) (budget : nat) (e : EdgeState) (s : LoopState)
  : EdgeState * LoopState * list RunnerResult :=
  let '(files, db, how) := drain_spool (te_drain env) (load_oldest_first (ls_spool s)) (te_now env) (ls_spool s) (ls_centre s) in
  let s1 := {| ls_state := ls_state s; ls_spool := files; ls_centre := db |} in
  match how with
  | drain_mismatch => (e, drop_cache s1, [])
  | drained | drain_stopped =>
      match fetch_assignment (te_fetch env) (ls_state s1) with
      | None => (e, drop_cache s1, [])
      | Some st =>
          let s2 := {| ls_state := st; ls_spool := ls_spool s1; ls_centre := ls_centre s1 |} in
          match rs_assignment st with
          | None => (e, s2, [])
          | Some a =>
              match ra_items a with
              | [] => (e, s2, [])
              | items =>
                  match execute_items (te_runs env) items budget e with
                  | (e', done_with results _) =>
                      let '(s3, mismatch) := report env results s2 in
                      (e', if (mismatch : bool) then drop_cache s3 else s3, results)
                  | (e', _) => (e', drop_cache s2, [])
                  end
              end
          end
      end
  end.
End Loop.

(** * What becomes of the results *)

Section LoopFacts.
Context (sha256 : string -> string) `{SignatureScheme} (is_safe_write : string -> bool).
Context (tenant_id : uuid) (runner_id : string) (max_files : nat).

(** The results of the runner that the centre holds. *)
Definition ingested (db : AssignmentDb) : list RunnerResult :=
  cr_result <$> List.filter (own_result tenant_id runner_id) (as_results db).

Definition spooled (files : spool_files) (r : RunnerResult) : Prop :=
  exists name b, (name, Some b) ∈ files /\ r ∈ rb_results b.

Definition uids (l : list RunnerResult) : list string := rr_result_uid <$> l.

Definition files_ok (produced : list RunnerResult) (files : spool_files) : Prop :=
  NoDup (fst <$> files) /\
  forall name b, (name, Some b) ∈ files -> rb_runner_id b = runner_id /\ forall r, r ∈ rb_results b -> r ∈ produced.

Definition centre_ok (produced : list RunnerResult) (db : AssignmentDb) : Prop :=
  NoDup (uids (ingested db)) /\ forall r, r ∈ ingested db -> r ∈ produced.

Lemma dedupe_spec seen rs :
  NoDup (uids (dedupe seen rs)) /\
  (forall r, r ∈ dedupe seen rs -> r ∈ rs /\ rr_result_uid r ∉ seen) /\
  (forall r, r ∈ rs -> rr_result_uid r ∈ seen \/ rr_result_uid r ∈ uids (dedupe seen rs)).
Proof.
  revert seen. induction rs as [|x rs IH]; intros seen; simpl.
  - split_and!; [constructor|by intros r ?%elem_of_nil|by intros r ?%elem_of_nil].
  - case_bool_decide as Hx.
    + destruct (IH seen) as (H1 & H2 & H3). split_and!; [done| |].
      * intros r Hr. apply H2 in Hr as [? ?]. split; [by right|done].
      * intros r [->|Hr]%elem_of_cons; [by left|by apply H3].
    + destruct (IH (rr_result_uid x :: seen)) as (H1 & H2 & H3). split_and!.
      * unfold uids. rewrite fmap_cons. apply NoDup_cons. split; [|done]. intros Hin.
        apply list_elem_of_fmap in Hin as (y & Hy & Hin). apply H2 in Hin as [_ Hin]. apply Hin. rewrite Hy. by left.
      * intros r [->|Hr]%elem_of_cons; [split; [by left|done]|]. apply H2 in Hr as [? Hn]. split; [by right|].
        intros ?. apply Hn. by right.
      * intros r [->|Hr]%elem_of_cons; [right; by left|]. apply H3 in Hr as [[->|?]%elem_of_cons|?]; [right; by left|by left|right; by right].
Qed.

(** The ingest adds the results whose uid is new, once each. *)
Lemma ingested_app t n rs now db :
  ingested (fst (ingest_results t n rs now db)) =
  ingested db ++ if bool_decide ((t, n) = (tenant_id, runner_id))
                 then List.filter (fun r => negb (already_ingested t n db (rr_result_uid r))) (dedupe [] rs) else [].
Proof.
  unfold ingested, ingest_results. simpl. rewrite List.filter_app, fmap_app. f_equal.
  set (fresh := List.filter _ (dedupe [] rs)). assert (forall r, own_result tenant_id runner_id
    {| cr_tenant_id := t; cr_runner_name := n; cr_result := r; cr_received_at := now |} = bool_decide ((t, n) = (tenant_id, runner_id))) as Hown.
  { intros r. unfold own_result. simpl. apply eq_true_iff_eq. rewrite andb_true_iff, !bool_decide_eq_true. naive_solver. }
  revert Hown. destruct (bool_decide _); intros Hown; induction fresh as [|r fresh IH]; try done; csimpl; rewrite Hown; csimpl;
    by rewrite IH.
Qed.

Lemma already_iff db uid :
  already_ingested tenant_id runner_id db uid = true <-> uid ∈ uids (ingested db).
Proof.
  unfold already_ingested, uids, ingested. rewrite existsb_exists, <- list_fmap_compose, list_elem_of_fmap. split.
  - intros (c & Hc & Ht). apply andb_true_iff in Ht as [Ho Hu]. to_prop. exists c. split; [done|].
    apply list_elem_of_In, filter_In. done.
  - intros (c & -> & Hc). apply list_elem_of_In, filter_In in Hc as [Hc Ho]. exists c. split; [done|].
    by rewrite Ho, bool_decide_true.
Qed.

Lemma same_uid produced r r' :
  NoDup (uids produced) -> r ∈ produced -> r' ∈ produced -> rr_result_uid r = rr_result_uid r' -> r = r'.
Proof. intros Hn Hr Hr'. by apply (key_inj rr_result_uid produced). Qed.

Lemma ingest_covers produced rs now db :
  NoDup (uids produced) -> (forall r, r ∈ rs -> r ∈ produced) -> centre_ok produced db ->
  let db' := fst (ingest_results tenant_id runner_id rs now db) in
  centre_ok produced db' /\ (forall r, r ∈ rs -> r ∈ ingested db') /\ (forall r, r ∈ ingested db -> r ∈ ingested db').
Proof.
  intros Hn Hrs [Hc1 Hc2] db'. unfold centre_ok, db'. rewrite ingested_app, bool_decide_true by done.
  set (fresh := List.filter _ (dedupe [] rs)). destruct (dedupe_spec [] rs) as (D1 & D2 & D3).
  assert (forall r, r ∈ fresh <-> r ∈ dedupe [] rs /\ rr_result_uid r ∉ uids (ingested db)) as Hf.
  { intros r. pose proof (elem_of_select (fun r => negb (already_ingested tenant_id runner_id db (rr_result_uid r))) (dedupe [] rs) r) as He.
    unfold select_where in He. unfold fresh. by rewrite He, negb_true_iff, <- not_true_iff_false, already_iff. }
  assert (forall r, r ∈ fresh -> r ∈ produced) as Hfp by (intros r [[Hr _]%D2 _]%Hf; by apply Hrs).
  split_and!.
  - unfold uids. rewrite fmap_app. apply NoDup_app. split_and!; [done| |].
    + intros u Hu (r & -> & [_ Hr]%Hf)%list_elem_of_fmap. done.
    + unfold fresh. by apply NoDup_select_where.
  - intros r [Hr|Hr]%elem_of_app; [by apply Hc2|by apply Hfp].
  - intros r Hr. apply elem_of_app. destruct (decide (rr_result_uid r ∈ uids (ingested db))) as [Hin|Hout].
    + left. apply list_elem_of_fmap in Hin as (r' & Hu & Hr'). by rewrite (same_uid produced r r') by auto.
    + right. destruct (D3 r Hr) as [Hnil|Hd]; [by apply elem_of_nil in Hnil|].
      apply list_elem_of_fmap in Hd as (r' & Hu & Hr'). assert (r' ∈ fresh) as Hfr by (apply Hf; by rewrite <- Hu).
      by rewrite (same_uid produced r r') by auto.
  - intros r Hr. apply elem_of_app. by left.
Qed.

Lemma deliver_covers produced o b now db :
  NoDup (uids produced) -> rb_runner_id b = runner_id -> (forall r, r ∈ rb_results b -> r ∈ produced) -> centre_ok produced db ->
  let db' := deliver_batch tenant_id o b now db in
  centre_ok produced db' /\ (forall r, r ∈ ingested db -> r ∈ ingested db') /\
  (o = post_ok -> forall r, r ∈ rb_results b -> r ∈ ingested db').
Proof.
  intros Hn Hb Hp Hc. destruct (ingest_covers produced (rb_results b) now db Hn Hp Hc) as (H1 & H2 & H3).
  destruct o as [| |[]]; simpl; rewrite ?Hb; by auto.
Qed.

Lemma drain_covers produced outcomes batches now files db files' db' how :
  NoDup (uids produced) -> files_ok produced files -> centre_ok produced db ->
  (forall name b, (name, b) ∈ batches -> (name, Some b) ∈ files) -> NoDup (fst <$> batches) ->
  drain_spool tenant_id outcomes batches now files db = (files', db', how) ->
  files_ok produced files' /\ centre_ok produced db' /\ (forall r, r ∈ ingested db -> r ∈ ingested db') /\
  (forall r, spooled files r -> spooled files' r \/ r ∈ ingested db').
Proof.
  intros Hn. revert outcomes files db. induction batches as [|[name b] rest IH]; intros outcomes files db Hf Hc Hb Hnd Hd; simpl in Hd.
  { injection Hd as <- <- <-. by auto. }
  destruct (proj2 Hf name b) as [Hrb Hrp]; [apply Hb; by left|].
  destruct outcomes as [|[| |i] outcomes]; try (injection Hd as <- <- <-; by auto).
  - destruct (deliver_covers produced post_ok b now db Hn Hrb Hrp Hc) as (C1 & C2 & C3).
    apply NoDup_cons in Hnd as [Hname Hnd]. destruct Hf as [Hf1 Hf2].
    destruct (IH outcomes (remove_batch name files) (deliver_batch tenant_id post_ok b now db)) as (F & C & M & S).
    + split; [by apply NoDup_delete_where|]. intros n0 b0 [Hin _]%elem_of_delete. by apply Hf2 in Hin.
    + done.
    + intros n0 b0 Hin. apply elem_of_delete. split; [apply Hb; by right|]. simpl. apply bool_decide_eq_false. intros ->.
      apply Hname. by apply (list_elem_of_fmap_2 fst) in Hin.
    + done.
    + exact Hd.
    + split_and!; [done|done|by auto|]. intros r (n0 & b0 & Hin & Hr). destruct (decide (n0 = name)) as [->|Hne].
      * right. apply M, C3; [done|]. assert ((name, Some b0) = (name, Some b)) as E; [|by injection E as <-].
        apply (key_inj fst files); [done|done|apply Hb; by left|done].
      * apply S. exists n0, b0. split; [|done]. apply elem_of_delete. split; [done|]. by apply bool_decide_eq_false.
  - injection Hd as <- <- <-. destruct (deliver_covers produced (post_failed i) b now db Hn Hrb Hrp Hc) as (C1 & C2 & _). by auto.
Qed.

Lemma load_names files : NoDup (fst <$> files) ->
  NoDup (fst <$> load_oldest_first files) /\ forall name b, (name, b) ∈ load_oldest_first files -> (name, Some b) ∈ files.
Proof.
  intros Hn. assert (forall name b, (name, b) ∈ load_oldest_first files -> (name, Some b) ∈ files) as Hin.
  { intros name b ([n0 o] & Hx & Ho)%list_elem_of_omap. simpl in Ho. destruct o as [b0|]; [|done]. by injection Ho as <- <-. }
  split; [|done]. clear Hin. induction files as [|[n0 o] files IH]; [constructor|]. apply NoDup_cons in Hn as [Hn0 Hn].
  unfold load_oldest_first in *. simpl. destruct o as [b0|]; simpl; [|by apply IH].
  apply NoDup_cons. split; [|by apply IH]. intros (y & Hy & Hin)%list_elem_of_fmap.
  apply list_elem_of_omap in Hin as ([n1 o1] & Hx & Ho). simpl in Ho. destruct o1; [|done]. injection Ho as <-. simpl in Hy. subst n1.
  apply Hn0. by apply (list_elem_of_fmap_2 fst) in Hx.
Qed.
(** ** The cap *)

(** The files the cap drops before a write. *)
Definition overflow (files : spool_files) : spool_files := take (length files - length (enforce_cap max_files files)) files.

Lemma enforce_cap_split files : overflow files ++ enforce_cap max_files files = files /\ length (enforce_cap max_files files) <= length files.
Proof.
  unfold overflow. induction files as [|f files [IH1 IH2]]; [done|]. cbn [enforce_cap].
  destruct (max_files <=? length (f :: files))%nat; [|by rewrite Nat.sub_diag]. cbn [length].
  rewrite Nat.sub_succ_l by done. simpl. split; [by rewrite IH1|lia].
Qed.

Lemma enforce_cap_room files : 0 < max_files -> length (enforce_cap max_files files) < max_files.
Proof.
  intros Hm. induction files as [|f files IH]; [done|]. cbn [enforce_cap]. destruct (Nat.leb_spec max_files (length (f :: files))); [done|].
  done.
Qed.

Lemma elem_of_put name b files x : name ∉ fst <$> files -> x ∈ put_batch name b files <-> x = (name, Some b) \/ x ∈ files.
Proof.
  induction files as [|f files IH]; intros Hn; simpl.
  - rewrite elem_of_cons. done.
  - rewrite fmap_cons in Hn. apply not_elem_of_cons in Hn as [Hf Hn]. rewrite (proj2 (String.eqb_neq _ _) Hf).
    destruct (String.leb name f.1); [by rewrite elem_of_cons|]. rewrite !elem_of_cons, IH by done. naive_solver.
Qed.

Lemma put_names name b files : NoDup (fst <$> files) -> name ∉ fst <$> files -> NoDup (fst <$> put_batch name b files).
Proof.
  induction files as [|f files IH]; intros Hnd Hn; simpl; [by constructor|]. rewrite fmap_cons in Hn, Hnd.
  pose proof Hn as Hn0. apply not_elem_of_cons in Hn as [Hf Hn]. apply NoDup_cons in Hnd as [Hfn Hnd].
  rewrite (proj2 (String.eqb_neq _ _) Hf). destruct (String.leb name f.1).
  - rewrite !fmap_cons. apply NoDup_cons. split; [done|]. by apply NoDup_cons.
  - rewrite fmap_cons. apply NoDup_cons. split; [|by apply IH]. intros (x & Hx & Hin)%list_elem_of_fmap.
    apply elem_of_put in Hin as [->|Hin]; [|apply Hfn; rewrite Hx; by apply list_elem_of_fmap_2|done]. simpl in Hx. congruence.
Qed.

Lemma write_covers produced name b files :
  files_ok produced files -> name ∉ fst <$> files -> rb_runner_id b = runner_id -> (forall r, r ∈ rb_results b -> r ∈ produced) ->
  files_ok produced (write_batch max_files name b files) /\
  (forall r, r ∈ rb_results b -> spooled (write_batch max_files name b files) r) /\
  (forall r, spooled files r -> spooled (write_batch max_files name b files) r \/ spooled (overflow files) r).
Proof.
  intros [Hnd Hok] Hname Hb Hp. unfold write_batch. destruct (enforce_cap_split files) as [Hs _].
  assert (forall x, x ∈ enforce_cap max_files files -> x ∈ files) as Hin by (intros x Hx; rewrite <- Hs; apply elem_of_app; by right).
  assert (name ∉ fst <$> enforce_cap max_files files) as Hname'.
  { intros (x & Hx & Hxin)%list_elem_of_fmap. apply Hname. rewrite Hx. by apply list_elem_of_fmap_2, Hin. }
  split_and!.
  - split.
    + apply put_names; [|done]. rewrite <- Hs, fmap_app in Hnd. by apply NoDup_app in Hnd as (_ & _ & ?).
    + intros n0 b0 Hx. apply elem_of_put in Hx as [[= -> ->]|Hx]; [done| |done]. by apply (Hok n0), Hin.
  - intros r Hr. exists name, b. split; [|done]. apply elem_of_put; [done|by left].
  - intros r (n0 & b0 & Hx & Hr). rewrite <- Hs in Hx. apply elem_of_app in Hx as [Hx|Hx].
    + right. by exists n0, b0.
    + left. exists n0, b0. split; [|done]. apply elem_of_put; [done|by right].
Qed.

(** ** The runner and the centre over time *)

Record LoopWorld := {
  lw_loop : LoopState;
  (** The results of every completed round of executions. *)
  lw_produced : list RunnerResult;
  (** The files that the cap dropped. *)
  lw_dropped : spool_files;
}.

Definition after_drain (env : TickEnv) (s : LoopState) : spool_files * AssignmentDb * drain_end :=
  drain_spool tenant_id (te_drain env) (load_oldest_first (ls_spool s)) (te_now env) (ls_spool s) (ls_centre s).

(** A tick, with fresh uids and a fresh file name; another runner's batch; a stop
    that loses the memory of the process. *)
Inductive loop_step : LoopWorld -> LoopWorld -> Prop :=
| lp_tick env budget e e' w s' results :
    run_one_tick sha256 is_safe_write tenant_id runner_id max_files env budget e (lw_loop w) = (e', s', results) ->
    NoDup (uids (lw_produced w ++ results)) -> te_file_name env ∉ fst <$> ls_spool (lw_loop w) ->
    loop_step w {| lw_loop := s'; lw_produced := lw_produced w ++ results;
                   lw_dropped := lw_dropped w ++ (if bool_decide (te_report env = post_ok) then []
                                                  else overflow (after_drain env (lw_loop w)).1.1) |}
| lp_other t n rs now w :
    (t, n) <> (tenant_id, runner_id) ->
    loop_step w {| lw_loop := {| ls_state := ls_state (lw_loop w); ls_spool := ls_spool (lw_loop w);
                                 ls_centre := fst (ingest_results t n rs now (ls_centre (lw_loop w))) |};
                   lw_produced := lw_produced w; lw_dropped := lw_dropped w |}
| lp_restart w :
    loop_step w {| lw_loop := drop_cache (lw_loop w); lw_produced := lw_produced w; lw_dropped := lw_dropped w |}.

Definition fresh_loop : LoopWorld := {|
  lw_loop := {| ls_state := {| rs_assignment := None; rs_assignment_version := None |}; ls_spool := [];
                ls_centre := {| as_rows := []; as_results := [] |} |};
  lw_produced := []; lw_dropped := [] |}.

Record loop_inv (w : LoopWorld) : Prop := {
  li_uids : NoDup (uids (lw_produced w));
  li_files : files_ok (lw_produced w) (ls_spool (lw_loop w));
  li_centre : centre_ok (lw_produced w) (ls_centre (lw_loop w));
  li_kept : forall r, r ∈ lw_produced w ->
    r ∈ ingested (ls_centre (lw_loop w)) \/ spooled (ls_spool (lw_loop w)) r \/ spooled (lw_dropped w) r;
}.
Lemma report_covers env results s s' mismatch produced :
  report tenant_id runner_id max_files env results s = (s', mismatch) ->
  NoDup (uids produced) -> (forall r, r ∈ results -> r ∈ produced) -> te_file_name env ∉ fst <$> ls_spool s ->
  files_ok produced (ls_spool s) -> centre_ok produced (ls_centre s) ->
  files_ok produced (ls_spool s') /\ centre_ok produced (ls_centre s') /\
  (forall r, r ∈ results -> r ∈ ingested (ls_centre s') \/ spooled (ls_spool s') r) /\
  (forall r, r ∈ ingested (ls_centre s) -> r ∈ ingested (ls_centre s')) /\
  (forall r, spooled (ls_spool s) r ->
     spooled (ls_spool s') r \/ (te_report env <> post_ok /\ spooled (overflow (ls_spool s)) r)).
Proof.
  intros Hr Hn Hp Hname Hf Hc. set (b := {| rb_runner_id := runner_id; rb_results := results |}).
  destruct (deliver_covers produced (te_report env) b (te_now env) (ls_centre s) Hn eq_refl Hp Hc) as (C1 & C2 & C3).
  destruct (write_covers produced (te_file_name env) b (ls_spool s) Hf Hname eq_refl Hp) as (W1 & W2 & W3).
  unfold report in Hr. fold b in Hr. destruct (te_report env) as [| |i] eqn:Eo; injection Hr as <- <-; simpl in *.
  - split_and!; [done|done| |done|by auto]. intros r Hr. left. by apply C3.
  - split_and!; [done|done| |done|]; [intros r Hr; right; by apply W2|]. intros r [?|?]%W3; [by left|right; by split].
  - split_and!; [done|done| |done|]; [intros r Hr; right; by apply W2|]. intros r [?|?]%W3; [by left|right; by split].
Qed.

Lemma tick_covers env budget e s e' s' results produced :
  run_one_tick sha256 is_safe_write tenant_id runner_id max_files env budget e s = (e', s', results) ->
  NoDup (uids produced) -> (forall r, r ∈ results -> r ∈ produced) -> te_file_name env ∉ fst <$> ls_spool s ->
  files_ok produced (ls_spool s) -> centre_ok produced (ls_centre s) ->
  files_ok produced (ls_spool s') /\ centre_ok produced (ls_centre s') /\
  (forall r, r ∈ results -> r ∈ ingested (ls_centre s') \/ spooled (ls_spool s') r) /\
  (forall r, r ∈ ingested (ls_centre s) -> r ∈ ingested (ls_centre s')) /\
  (forall r, spooled (ls_spool s) r -> spooled (ls_spool s') r \/ r ∈ ingested (ls_centre s') \/
     (te_report env <> post_ok /\ spooled (overflow (after_drain env s).1.1) r)).
Proof.
  intros Ht Hn Hp Hname Hf Hc. unfold run_one_tick in Ht. fold (after_drain env s) in Ht.
  destruct (after_drain env s) as [[files db] how] eqn:Ed. unfold after_drain in Ed.
  destruct (load_names _ (proj1 Hf)) as [Hl1 Hl2].
  destruct (drain_covers produced _ _ _ _ _ _ _ _ Hn Hf Hc Hl2 Hl1 Ed) as (F & C & M & S). cbn [fst].
  assert (te_file_name env ∉ fst <$> files) as Hname'.
  { clear -Ed Hname. revert Ed Hname. generalize (load_oldest_first (ls_spool s)) as bs, (ls_centre s) as db0, (te_drain env) as os.
    generalize (ls_spool s) as fs. intros fs bs. revert fs. induction bs as [|[n b] bs IH]; intros fs db0 os Ed Hname; simpl in Ed; [by injection Ed as <- _ _|].
    destruct os as [|[] os]; try (by injection Ed as <- _ _). eapply IH; [exact Ed|]. intros (x & Hx & Hin)%list_elem_of_fmap.
    apply elem_of_delete in Hin as [Hin _]. apply Hname. rewrite Hx. by apply list_elem_of_fmap_2. }
  assert (forall s0, ls_spool s0 = files -> ls_centre s0 = db -> results = [] ->
    files_ok produced (ls_spool s0) /\ centre_ok produced (ls_centre s0) /\
    (forall r, r ∈ results -> r ∈ ingested (ls_centre s0) \/ spooled (ls_spool s0) r) /\
    (forall r, r ∈ ingested (ls_centre s) -> r ∈ ingested (ls_centre s0)) /\
    (forall r, spooled (ls_spool s) r -> spooled (ls_spool s0) r \/ r ∈ ingested (ls_centre s0) \/
       (te_report env <> post_ok /\ spooled (overflow files) r))) as Hquiet.
  { intros s0 -> -> ->. split_and!; [done|done|by intros r ?%elem_of_nil|done|]. intros r [?|?]%S; auto. }
  destruct how; [| |by injection Ht as _ <- <-; apply Hquiet].
  all: destruct (fetch_assignment (te_fetch env) _) as [st|]; [|by injection Ht as _ <- <-; apply Hquiet].
  all: destruct (rs_assignment st) as [a|]; [|by injection Ht as _ <- <-; apply Hquiet].
  all: destruct (ra_items a) as [|item items]; [by injection Ht as _ <- <-; apply Hquiet|].
  all: destruct (execute_items _ _ _ _ _ _) as [e1 [| |rs b]]; [by injection Ht as _ <- <-; apply Hquiet..|].
  all: destruct (report _ _ _ _ _ _) as [s3 mismatch] eqn:Er; injection Ht as _ <- <-;
    destruct (report_covers _ _ _ _ _ _ Er Hn Hp Hname' F C) as (R1 & R2 & R3 & R4 & R5);
    (replace (ls_spool (if mismatch then drop_cache s3 else s3)) with (ls_spool s3) by (by destruct mismatch));
    (replace (ls_centre (if mismatch then drop_cache s3 else s3)) with (ls_centre s3) by (by destruct mismatch));
    simpl in *; (split_and!; [done|done|done|by auto|]); intros r [[?|?]%R5|?]%S; auto.
Qed.

Lemma loop_inv_step w w' : loop_step w w' -> loop_inv w -> loop_inv w'.
Proof.
  intros Hs [Hu [Hf1 Hf2] [Hc1 Hc2] Hk].
  destruct Hs as [env budget e e' w s' results Ht Hn Hname|t n rs now w Hne|w].
  - destruct (tick_covers _ _ _ _ _ _ _ (lw_produced w ++ results) Ht Hn) as (T1 & T2 & T3 & T4 & T5); try done.
    + intros r Hr. apply elem_of_app. by right.
    + split; [done|]. intros name b Hin. destruct (Hf2 _ _ Hin) as [? Hin']. split; [done|]. intros r Hr.
      apply elem_of_app. left. by apply Hin'.
    + split; [done|]. intros r Hr. apply elem_of_app. left. by apply Hc2.
    + split; simpl; [done..|]. intros r [Hr|Hr]%elem_of_app; [|apply T3 in Hr as [?|?]; auto].
      apply Hk in Hr as [Hr|[Hr|(nm & b & Hin & Hr)]]; [by auto| |].
      * apply T5 in Hr as [?|[?|[Hne (nm & b & Hin & Hr)]]]; [by auto..|]. right; right. exists nm, b. split; [|done].
        apply elem_of_app. right. by rewrite bool_decide_false.
      * right; right. exists nm, b. split; [|done]. apply elem_of_app. by left.
  - assert (ingested (fst (ingest_results t n rs now (ls_centre (lw_loop w)))) = ingested (ls_centre (lw_loop w))) as E
      by (rewrite ingested_app, bool_decide_false by done; apply app_nil_r).
    split; [done|by split| |]; unfold centre_ok; cbn [lw_loop ls_centre lw_produced]; [by rewrite E|].
    intros r Hr. rewrite E. by apply Hk.
  - by split.
Qed.

(** C31. A result reaches the centre once and is not lost.  Whatever the network
    does, also when a post fails after the centre took it, and through refusals,
    restarts and other runners' posts: the centre never holds two rows of one uid
    for the runner, nor a row the runner did not produce, and every result of a
    completed round is at the centre, in the spool, or in a file that the cap
    dropped. *)
Theorem results_arrive_exactly_once w :
  rtc loop_step fresh_loop w ->
  NoDup (uids (ingested (ls_centre (lw_loop w)))) /\
  (forall r, r ∈ ingested (ls_centre (lw_loop w)) -> r ∈ lw_produced w) /\
  (forall r, r ∈ lw_produced w ->
     r ∈ ingested (ls_centre (lw_loop w)) \/ spooled (ls_spool (lw_loop w)) r \/ spooled (lw_dropped w) r).
Proof.
  intros Hr. assert (loop_inv w) as [_ _ [Hc1 Hc2] Hk]; [|done].
  assert (loop_inv fresh_loop) as H0.
  { split; simpl; [constructor|split; [constructor|by intros ? ? ?%elem_of_nil]|split; [constructor|by intros ? ?%elem_of_nil]|by intros ? ?%elem_of_nil]. }
  induction Hr as [|x y z Hs _ IH]; [done|]. by eapply IH, loop_inv_step.
Qed.
End LoopFacts.

(** * Witness *)

Definition w_safe_item : RunnerWorkItem := {|
  wi_check_ref := "c-1"; wi_op_id := "vm.list"; wi_product := "vsphere"; wi_version := "9.x"; wi_impl_id := "vsphere-rest";
  wi_handler_ref := "meho_backplane.connectors.vsphere.vm_list"; wi_params := []; wi_safety_level := "safe";
  wi_principal := w_principal; wi_target_descriptor := Some (tr_descriptor w_vcenter); wi_signature := None; wi_expires_at := None;
  wi_package_set := None |}.

Definition w_lossy (report : PostOutcome) (name uid : string) (fetch : FetchOutcome) : TickEnv := {|
  te_drain := [post_ok]; te_fetch := fetch; te_report := report;
  te_runs := [{| ru_settings := {| es_satellite_write_allowlist := ""; es_satellite_write_verify_key := "";
                                   es_package_set_digest := "sha256:0" |};
                 ru_runner_id := "edge-1"; ru_chained := false; ru_now := 1; ru_now_intent := 1; ru_now_outcome := 1;
                 ru_uid := uid; ru_import := fun r => Some r; ru_answer := answered [] |}];
  te_file_name := name; te_now := 1 |}.

Definition w_no_signatures : SignatureScheme := {|
  ed_public k := k; ed_sign _ m := m; ed_verify _ _ _ := false |}.

Definition w_tick (env : TickEnv) (s : LoopState) : EdgeState * LoopState * list RunnerResult :=
  @run_one_tick id w_no_signatures (fun _ => false) "t1" "edge-1" 2 env 9 fresh_edge s.

Definition w_after (env : TickEnv) (w : LoopWorld) : LoopWorld :=
  let '(_, s, results) := w_tick env (lw_loop w) in
  {| lw_loop := s; lw_produced := lw_produced w ++ results;
     lw_dropped := lw_dropped w ++ (if bool_decide (te_report env = post_ok) then []
                                    else overflow 2 (after_drain "t1" env (lw_loop w)).1.1) |}.

(** The first report is taken by the centre and fails at the runner, so the next
    tick posts it again. *)
Definition w_lost_answer : LoopWorld :=
  w_after (w_lossy (post_failed true) "f1" "u1" (fetched {| ra_assignment_version := "v"; ra_items := [w_safe_item] |})) fresh_loop.
Definition w_retried : LoopWorld := w_after (w_lossy post_ok "f2" "u2" assignment_unchanged) w_lost_answer.

Lemma results_arrive_exactly_once_witness :
  uids (lw_produced w_retried) = ["u1"; "u2"] /\ uids (ingested "t1" "edge-1" (ls_centre (lw_loop w_retried))) = ["u1"; "u2"] /\
  ls_spool (lw_loop w_lost_answer) <> [] /\ NoDup (uids (ingested "t1" "edge-1" (ls_centre (lw_loop w_retried)))).
Proof.
  split; [by vm_compute|]. split; [by vm_compute|]. split; [by vm_compute|].
  apply (@results_arrive_exactly_once id w_no_signatures (fun _ => false) "t1" "edge-1" 2 w_retried).
  apply rtc_l with w_lost_answer; [|apply rtc_once].
  - unfold w_lost_answer, w_after. destruct (w_tick _ _) as [[e s] rs] eqn:E. eapply lp_tick; [exact E| |by intros ?%elem_of_nil].
    vm_compute in E. injection E as _ _ <-. apply NoDup_singleton.
  - unfold w_retried, w_after. destruct (w_tick _ (lw_loop w_lost_answer)) as [[e s] rs] eqn:E. eapply lp_tick; [exact E| |].
    + assert (uids rs = ["u2"]) as Hu by (change rs with ((e, s, rs).2); rewrite <- E; by vm_compute).
      unfold uids in *. rewrite fmap_app. rewrite Hu. vm_compute. apply (bool_decide_unpack _). by vm_compute.
    + apply (bool_decide_unpack _). by vm_compute.
Defined.
