(* ===== verification/Substitution.v ===== *)
(** Substitution of [${run.target}] and [${run.params.X}] in runbook text
    ([runbooks/substitution.py]), the publish-time allowlist
    ([runbooks/schemas.py]) and the start-time collection of the referenced
    parameters ([runbooks/run_service.py]). *)

From S2P Require Import Prelude Json.

(** [KeyError(name)] of a parameter that was not supplied. *)
Inductive SubstError := KeyError (name : string).

(** * The patterns *)

Definition is_name_start (c : ascii) : bool :=
  let n := nat_of_ascii c in ((97 <=? n) && (n <=? 122)) || (n =? 95).

Definition is_name_char (c : ascii) : bool :=
  let n := nat_of_ascii c in is_name_start c || ((48 <=? n) && (n <=? 57)).

(** The longest run of name characters and the rest. *)
Fixpoint span_name (s : string) : string * string :=
  match s with
  | EmptyString => ("", "")
  | String c s' =>
      if is_name_char c then let '(n, r) := span_name s' in (String c n, r) else ("", s)
  end.

(** [[a-z_][a-z0-9_]*] at the start of [s]. *)
Definition take_name (s : string) : option (string * string) :=
  match s with
  | String c s' => if is_name_start c then let '(n, r) := span_name s' in Some (String c n, r) else None
  | EmptyString => None
  end.

Definition RUN_TARGET_PATTERN (s : string) : option (unit * string) :=
  rest ← strip_prefix "${run.target}" s; Some (tt, rest).

Definition RUN_PARAMS_PATTERN (s : string) : option (string * string) :=
  r ← strip_prefix "${run.params." s;
  '(name, r') ← take_name r;
  rest ← strip_prefix "}" r';
  Some (name, rest).

(** The text up to the first closing brace, and the text after it. *)
Fixpoint until_brace (s : string) : option (string * string) :=
  match s with
  | EmptyString => None
  | String c s' =>
      if Ascii.eqb c "}" then Some ("", s')
      else '(inner, rest) ← until_brace s'; Some (String c inner, rest)
  end.

(** [_SUBSTITUTION_PATTERN]: any [${...}], with the text inside the braces. *)
Definition SUBSTITUTION_PATTERN (s : string) : option (string * string) :=
  r ← strip_prefix "${" s; until_brace r.

(** [_PARAM_NAME_PATTERN.match]: the "$" of the pattern also matches before a
    final line feed. *)
Definition PARAM_NAME_PATTERN (inner : string) : bool :=
  match strip_prefix "run.params." inner ≫= take_name with
  | Some (_, rest) => bool_decide (rest = "") || bool_decide (rest = String "010" "")
  | None => false
  end.

(** * Substitution *)

Definition lookup_param (params : list (string * json)) (name : string) : res SubstError string :=
  v ← ok_or (KeyError name) (dict_get name params); Ok (py_str v).

Definition resolve_string (target : string) (params : list (string * json)) (value : string)
  : res SubstError string :=
  resolved ← re_sub RUN_TARGET_PATTERN (fun _ => Ok target) value;
  re_sub RUN_PARAMS_PATTERN (lookup_param params) resolved.

Fixpoint resolve_substitutions (target : string) (params : list (string * json)) (value : json)
  : res SubstError json :=
  match value with
  | JStr s => JStr <$> resolve_string target params s
  | JDict d =>
      JDict <$> res_map (fun kv =>
        v ← resolve_substitutions target params (snd kv); Ok (fst kv, v)) d
  | JList l => JList <$> res_map (resolve_substitutions target params) l
  | _ => Ok value
  end.

(** * Publish-time allowlist *)

Definition allowed_inner (inner : string) : bool :=
  bool_decide (inner = "run.target") || PARAM_NAME_PATTERN inner.

Definition validate_string (s : string) : bool :=
  forallb allowed_inner (finditer SUBSTITUTION_PATTERN s).

(** [validate_substitutions] returns normally ([true]) or raises [ValueError]
    ([false]); dict keys are walked like values. *)
Fixpoint validate_substitutions (value : json) : bool :=
  match value with
  | JStr s => validate_string s
  | JDict d => forallb (fun kv => validate_string (fst kv) && validate_substitutions (snd kv)) d
  | JList l => forallb validate_substitutions l
  | _ => true
  end.

Definition validate_op_id_static (op_id : string) : bool :=
  match finditer SUBSTITUTION_PATTERN op_id with [] => true | _ :: _ => false end.

(** * Start-time collection of the referenced parameters *)

Definition collect_param_refs (value : string) : list string :=
  finditer RUN_PARAMS_PATTERN value.

Fixpoint walk_collect (value : json) : list string :=
  match value with
  | JStr s => collect_param_refs s
  | JDict d => List.flat_map (fun kv => walk_collect (snd kv)) d
  | JList l => List.flat_map walk_collect l
  | _ => []
  end.

(** * Lemmas on the patterns *)

(** A pattern that only matches at a dollar sign. *)
Definition at_dollar {A} (m : string -> option (A * string)) : Prop :=
  forall c s, c <> "$"%char -> m (String c s) = None.

Lemma finditer_cons {A} (m : string -> option (A * string)) c s :
  consuming m ->
  finditer m (String c s) =
  match m (String c s) with Some (a, rest) => a :: finditer m rest | None => finditer m s end.
Proof. intros Hm. unfold finditer. rewrite scan_cons by done. by destruct (m _) as [[a r]|]. Qed.

Lemma finditer_skip {A} (m : string -> option (A * string)) t s :
  consuming m -> at_dollar m -> has_char "$" t = false ->
  finditer m (t +:+ s) = finditer m s.
Proof.
  intros Hm Hd. induction t as [|c t IH]; intros Ht; [done|].
  apply has_char_cons_false in Ht as [Hc Ht].
  rewrite string_app_cons, finditer_cons, Hd by done. by apply IH.
Qed.

Lemma until_brace_spec s inner rest :
  until_brace s = Some (inner, rest) <-> s = inner +:+ "}" +:+ rest /\ has_char "}" inner = false.
Proof.
  split.
  - revert inner; induction s as [|c s IH]; intros inner H; simpl in *; [done|].
    destruct (Ascii.eqb_spec c "}") as [->|Hc]; simplify_eq; [done|].
    destruct (until_brace s) as [[i r]|]; simplify_eq/=.
    destruct (IH _ eq_refl) as [-> Hi]. split; [done|]. by apply has_char_cons_false.
  - intros [-> Hi]. induction inner as [|c i IH]; [done|].
    apply has_char_cons_false in Hi as [Hc Hi]. rewrite string_app_cons. simpl.
    by rewrite (proj2 (Ascii.eqb_neq _ _) Hc), IH.
Qed.

Lemma until_brace_None s : until_brace s = None -> has_char "}" s = false.
Proof.
  induction s as [|c s IH]; intros H; simpl in H; [done|].
  destruct (Ascii.eqb_spec c "}"); [done|]. apply has_char_cons_false. split; [done|].
  destruct (until_brace s) as [[i r]|]; [done|]. by apply IH.
Qed.

Lemma SUBSTITUTION_spec s inner rest :
  SUBSTITUTION_PATTERN s = Some (inner, rest) <->
  s = "${" +:+ inner +:+ "}" +:+ rest /\ has_char "}" inner = false.
Proof.
  unfold SUBSTITUTION_PATTERN. destruct (strip_prefix "${" s) as [r|] eqn:E; simpl.
  - apply strip_prefix_spec in E as ->. rewrite until_brace_spec. split.
    + by intros [-> ?].
    + intros [H ?]. split; [|done]. by apply (inj (String.append "${")) in H.
  - split; [done|]. intros [-> _]. by rewrite (proj2 (strip_prefix_spec _ _ _) eq_refl) in E.
Qed.

Lemma RUN_TARGET_spec s u rest :
  RUN_TARGET_PATTERN s = Some (u, rest) <-> s = "${run.target}" +:+ rest.
Proof.
  unfold RUN_TARGET_PATTERN. destruct u. rewrite <- strip_prefix_spec.
  destruct (strip_prefix _ s); simpl; split; intros; simplify_eq; done.
Qed.

Lemma span_name_app s n r : span_name s = (n, r) -> s = n +:+ r.
Proof.
  revert n; induction s as [|c s IH]; intros n H; simpl in *; simplify_eq; [done|].
  destruct (is_name_char c); [|by simplify_eq].
  destruct (span_name s) as [n' r']; simplify_eq. by rewrite (IH _ eq_refl).
Qed.

Lemma take_name_app s n r : take_name s = Some (n, r) -> s = n +:+ r.
Proof.
  destruct s as [|c s]; simpl; [done|]. destruct (is_name_start c); [|done].
  destruct (span_name s) as [n' r'] eqn:E. intros [= <- <-].
  by rewrite string_app_cons, <- (span_name_app _ _ _ E).
Qed.

(** What follows the name does not change the name. *)
Lemma take_name_extend s n r c t :
  take_name s = Some (n, r) -> is_name_char c = false ->
  (r = "" -> take_name (s +:+ String c t) = Some (n, String c t)) /\
  (r <> "" -> take_name (s +:+ t) = Some (n, r +:+ t)).
Proof.
  intros Hs Hc. destruct s as [|d s]; simpl in *; [done|].
  destruct (is_name_start d); [|done].
  assert (forall s n r, span_name s = (n, r) ->
    (r = "" -> span_name (s +:+ String c t) = (n, String c t)) /\
    (r <> "" -> span_name (s +:+ t) = (n, r +:+ t))) as Hspan.
  { clear -Hc. induction s as [|d s IH]; intros n r H; simpl in H; simplify_eq.
    - split; [intros _; simpl; by rewrite Hc|done].
    - destruct (is_name_char d) eqn:Hd.
      + destruct (span_name s) as [n' r'] eqn:E; simplify_eq. destruct (IH _ _ eq_refl) as [H1 H2].
        split; intros Hr; simpl; rewrite Hd; [by rewrite (H1 Hr)|by rewrite (H2 Hr)].
      + simplify_eq. split; [done|]. intros _. simpl. by rewrite Hd. }
  destruct (span_name s) as [n' r'] eqn:E. simplify_eq.
  destruct (Hspan _ _ _ E) as [H1 H2].
  split; intros Hr; simpl; [by rewrite (H1 Hr)|by rewrite (H2 Hr)].
Qed.

Lemma RUN_PARAMS_prefix s name rest :
  RUN_PARAMS_PATTERN s = Some (name, rest) -> s = "${run.params." +:+ name +:+ "}" +:+ rest.
Proof.
  unfold RUN_PARAMS_PATTERN. destruct (strip_prefix _ s) as [r|] eqn:E1; [|done]; simpl.
  destruct (take_name r) as [[n r']|] eqn:E2; [|done]; simpl.
  destruct (strip_prefix "}" r') as [r''|] eqn:E3; [|done]; simpl. intros [= <- <-].
  apply strip_prefix_spec in E1 as ->, E3 as ->. by apply take_name_app in E2 as ->.
Qed.

Lemma consuming_target : consuming RUN_TARGET_PATTERN.
Proof. intros s a r H%RUN_TARGET_spec. subst. rewrite string_app_length. simpl. lia. Qed.

Lemma consuming_params : consuming RUN_PARAMS_PATTERN.
Proof. intros s a r H%RUN_PARAMS_prefix. subst. rewrite !string_app_length. simpl. lia. Qed.

Lemma consuming_subst : consuming SUBSTITUTION_PATTERN.
Proof. intros s a r [-> _]%SUBSTITUTION_spec. rewrite !string_app_length. simpl. lia. Qed.

Lemma not_dollar_prefix {p : string} c s :
  c <> "$"%char -> strip_prefix (String "$" p) (String c s) = None.
Proof. intros Hc. rewrite strip_prefix_cons. by rewrite (proj2 (Ascii.eqb_neq _ _) (not_eq_sym Hc)). Qed.

Lemma at_dollar_target : at_dollar RUN_TARGET_PATTERN.
Proof. intros c s Hc. unfold RUN_TARGET_PATTERN. by rewrite not_dollar_prefix. Qed.

Lemma at_dollar_params : at_dollar RUN_PARAMS_PATTERN.
Proof. intros c s Hc. unfold RUN_PARAMS_PATTERN. by rewrite not_dollar_prefix. Qed.

Lemma at_dollar_subst : at_dollar SUBSTITUTION_PATTERN.
Proof. intros c s Hc. unfold SUBSTITUTION_PATTERN. by rewrite not_dollar_prefix. Qed.

#[export] Hint Resolve consuming_target consuming_params consuming_subst
  at_dollar_target at_dollar_params at_dollar_subst : meho.

(** * The target pass *)

(** The text after the first pass, which never raises. *)
Fixpoint put_target (target : string) (segs : list (ascii + unit)) : string :=
  match segs with
  | [] => ""
  | inl c :: rest => String c (put_target target rest)
  | inr _ :: rest => target +:+ put_target target rest
  end.

Definition with_target (target s : string) : string :=
  put_target target (scan RUN_TARGET_PATTERN s).

Lemma target_pass target s :
  re_sub (E := SubstError) RUN_TARGET_PATTERN (fun _ => Ok target) s = Ok (with_target target s).
Proof.
  unfold re_sub, with_target. induction (scan RUN_TARGET_PATTERN s) as [|[c|[]] segs IH]; simpl;
    [done|by rewrite IH|by rewrite IH].
Qed.

Lemma with_target_cons target c s :
  with_target target (String c s) =
  match RUN_TARGET_PATTERN (String c s) with
  | Some (_, rest) => target +:+ with_target target rest
  | None => String c (with_target target s)
  end.
Proof.
  unfold with_target. rewrite scan_cons by auto with meho.
  by destruct (RUN_TARGET_PATTERN _) as [[[] r]|].
Qed.

Lemma with_target_skip target t s :
  has_char "$" t = false -> with_target target (t +:+ s) = t +:+ with_target target s.
Proof.
  induction t as [|c t IH]; intros Ht; [done|].
  apply has_char_cons_false in Ht as [Hc Ht].
  by rewrite !string_app_cons, with_target_cons, at_dollar_target, IH.
Qed.

(** The second pass raises exactly for a name that is not supplied. *)
Lemma params_pass params s :
  (exists t, re_sub RUN_PARAMS_PATTERN (lookup_param params) s = Ok t) <->
  forall name, name ∈ finditer RUN_PARAMS_PATTERN s -> is_Some (dict_get name params).
Proof.
  unfold re_sub, finditer. induction (scan RUN_PARAMS_PATTERN s) as [|[c|name] segs IH]; simpl.
  - split; [set_solver|eauto].
  - rewrite <- IH. split; intros [t Ht]; destruct (sub_segments _ segs); simplify_eq/=; eauto.
  - assert (lookup_param params name =
            match dict_get name params with
            | Some v => Ok (py_str v) | None => Raise (KeyError name) end) as ->
      by (unfold lookup_param; by destruct (dict_get name params)).
    split.
    + intros [t Ht]. destruct (dict_get name params) eqn:E; simplify_eq/=.
      destruct (sub_segments _ segs); simplify_eq/=.
      intros n [->|Hn]%elem_of_cons; [by rewrite E|]. apply IH; eauto.
    + intros H. destruct (H name ltac:(left)) as [v ->]. simpl.
      destruct (proj2 IH) as [t ->]; [|simpl; eauto]. intros n Hn. apply H. by right.
Qed.

(** * The allowlist keeps the references *)

Lemma validate_string_subst s inner rest :
  SUBSTITUTION_PATTERN s = Some (inner, rest) ->
  validate_string s = allowed_inner inner && validate_string rest.
Proof.
  intros H. unfold validate_string. destruct s as [|c s]; [done|].
  rewrite finditer_cons by auto with meho. by rewrite H.
Qed.

Lemma validate_string_char c s :
  SUBSTITUTION_PATTERN (String c s) = None -> validate_string (String c s) = validate_string s.
Proof.
  intros H. unfold validate_string. rewrite finditer_cons by auto with meho. by rewrite H.
Qed.

(** A string without a closing brace holds no token. *)
Lemma with_target_no_brace target s : has_char "}" s = false -> with_target target s = s.
Proof.
  induction s as [|c s IH]; intros Hs; [done|]. rewrite with_target_cons.
  destruct (RUN_TARGET_PATTERN (String c s)) as [[u r]|] eqn:E.
  - apply RUN_TARGET_spec in E. by rewrite E, has_char_app in Hs.
  - apply has_char_cons_false in Hs as [_ Hs]. by rewrite IH.
Qed.

(** The target pass does not put an opening brace after a dollar sign. *)
Lemma with_target_head target s t :
  target <> "" -> has_char "{" target = false ->
  with_target target s = String "{" t -> exists s', s = String "{" s'.
Proof.
  intros Hne Hb. destruct s as [|c s]; [done|]. rewrite with_target_cons.
  destruct (RUN_TARGET_PATTERN (String c s)) as [[u r]|]; [|intros [= -> _]; eauto].
  destruct target as [|d target]; [done|]. rewrite string_app_cons. intros [= -> _].
  by apply has_char_cons_false in Hb as [? _].
Qed.

Lemma RUN_PARAMS_token name rest :
  take_name name = Some (name, "") ->
  RUN_PARAMS_PATTERN ("${run.params." +:+ name +:+ "}" +:+ rest) = Some (name, rest).
Proof.
  intros Hn. unfold RUN_PARAMS_PATTERN. rewrite (proj2 (strip_prefix_spec _ _ _) eq_refl). simpl.
  destruct (take_name_extend _ _ _ "}" rest Hn) as [H _]; [done|].
  change ("}" +:+ rest) with (String "}" rest). by rewrite (H eq_refl).
Qed.

Lemma take_name_self s n r : take_name s = Some (n, r) -> take_name n = Some (n, "").
Proof.
  assert (forall s n r, span_name s = (n, r) -> span_name n = (n, "")) as Hspan.
  { clear. induction s as [|c s IH]; intros n r H; simpl in H; simplify_eq; [done|].
    destruct (is_name_char c) eqn:Hc; simplify_eq; [|done].
    destruct (span_name s) as [n' r'] eqn:E; simplify_eq. simpl. by rewrite Hc, (IH _ _ eq_refl). }
  destruct s as [|c s]; simpl; [done|]. destruct (is_name_start c) eqn:Hc; [|done].
  destruct (span_name s) as [n' r'] eqn:E. intros [= <- <-]. simpl. by rewrite Hc, (Hspan _ _ _ E).
Qed.

Lemma name_no_dollar s n r : take_name s = Some (n, r) -> has_char "$" n = false.
Proof.
  assert (forall s n r, span_name s = (n, r) -> has_char "$" n = false) as Hspan.
  { clear. induction s as [|c s IH]; intros n r H; simpl in H; simplify_eq; [done|].
    destruct (is_name_char c) eqn:Hc; simplify_eq; [|done].
    destruct (span_name s) as [n' r'] eqn:E; simplify_eq.
    apply has_char_cons_false. split; [by intros ->|by eapply IH]. }
  destruct s as [|c s]; simpl; [done|]. destruct (is_name_start c) eqn:Hc; [|done].
  destruct (span_name s) as [n' r'] eqn:E. intros [= <- <-].
  apply has_char_cons_false. split; [by intros ->|by eapply Hspan].
Qed.

(** The text inside an allowed pair of braces. *)
Lemma allowed_inner_cases inner :
  allowed_inner inner = true ->
  inner = "run.target" \/
  (exists name, inner = "run.params." +:+ name /\ take_name name = Some (name, "") /\
     has_char "$" name = false) \/
  (exists name, inner = "run.params." +:+ name +:+ String "010" "" /\
     take_name name = Some (name, "") /\ has_char "$" name = false).
Proof.
  unfold allowed_inner, PARAM_NAME_PATTERN. intros [H|H]%orb_true_iff; [left; by to_prop|right].
  destruct (strip_prefix "run.params." inner) as [r|] eqn:E1; [|done]; simpl in H.
  destruct (take_name r) as [[n r']|] eqn:E2; [|done].
  apply strip_prefix_spec in E1 as ->.
  pose proof (take_name_self _ _ _ E2). pose proof (name_no_dollar _ _ _ E2).
  apply take_name_app in E2 as ->.
  apply orb_true_iff in H as [E%bool_decide_eq_true|E%bool_decide_eq_true]; subst r'.
  - left. exists n. by rewrite string_app_nil.
  - right. by exists n.
Qed.

(** A newline before the closing brace is let through by the allowlist, but is
    no parameter reference. *)
Lemma RUN_PARAMS_newline name rest :
  take_name name = Some (name, "") ->
  RUN_PARAMS_PATTERN ("${run.params." +:+ name +:+ String "010" (String "}" rest)) = None.
Proof.
  intros Hn. unfold RUN_PARAMS_PATTERN. rewrite (proj2 (strip_prefix_spec _ _ _) eq_refl). simpl.
  destruct (take_name_extend _ _ _ "010" (String "}" rest) Hn) as [H _]; [done|].
  by rewrite (H eq_refl).
Qed.

(** After a text that starts no token, both passes go on behind it. *)
Lemma passes_token target t rest :
  has_char "$" t = false ->
  (forall u, RUN_TARGET_PATTERN (String "$" (t +:+ u)) = None) ->
  with_target target (String "$" (t +:+ rest)) = String "$" (t +:+ with_target target rest).
Proof. intros Ht Hu. by rewrite with_target_cons, Hu, with_target_skip. Qed.

Lemma finditer_params_skip t rest :
  has_char "$" t = false -> RUN_PARAMS_PATTERN (String "$" (t +:+ rest)) = None ->
  finditer RUN_PARAMS_PATTERN (String "$" (t +:+ rest)) = finditer RUN_PARAMS_PATTERN rest.
Proof.
  intros Ht Hu. rewrite finditer_cons, Hu by auto with meho.
  apply finditer_skip; auto with meho.
Qed.

Section TargetPass.
Variable target : string.
Hypothesis target_nonempty : target <> "".
Hypothesis target_plain : has_char "$" target = false /\ has_char "{" target = false.

Lemma with_target_refs_token inner rest :
  has_char "}" inner = false -> allowed_inner inner = true ->
  finditer RUN_PARAMS_PATTERN (with_target target rest) = finditer RUN_PARAMS_PATTERN rest ->
  finditer RUN_PARAMS_PATTERN (with_target target ("${" +:+ inner +:+ "}" +:+ rest)) =
  finditer RUN_PARAMS_PATTERN ("${" +:+ inner +:+ "}" +:+ rest).
Proof.
  intros Hi [->|[(n & -> & Hn & Hd)|(n & -> & Hn & Hd)]]%allowed_inner_cases IH.
  - change ("${" +:+ "run.target" +:+ "}" +:+ rest) with ("${run.target}" +:+ rest).
    change ("${run.target}" +:+ rest) with (String "$" ("{run.target}" +:+ rest)) at 1.
    rewrite with_target_cons, (proj2 (RUN_TARGET_spec _ tt rest)) by done.
    rewrite finditer_skip, IH by (try apply target_plain; auto with meho).
    change ("${run.target}" +:+ rest) with (String "$" ("{run.target}" +:+ rest)).
    by rewrite finditer_params_skip.
  - assert (forall u, "${" +:+ ("run.params." +:+ n) +:+ "}" +:+ u
                      = String "$" (("{run.params." +:+ n +:+ "}") +:+ u)) as Eq
      by (intros u; by rewrite !string_app_assoc).
    assert (has_char "$" ("{run.params." +:+ n +:+ "}") = false) as Hd'
      by (by rewrite !has_char_app, Hd).
    rewrite Eq, passes_token by done.
    rewrite <- !Eq. rewrite !string_app_assoc.
    change ("${" +:+ "run.params." +:+ n +:+ "}" +:+ with_target target rest)
      with (String "$" ("{run.params." +:+ n +:+ "}" +:+ with_target target rest)).
    change ("${" +:+ "run.params." +:+ n +:+ "}" +:+ rest)
      with (String "$" ("{run.params." +:+ n +:+ "}" +:+ rest)).
    rewrite !finditer_cons by auto with meho.
    pose proof (RUN_PARAMS_token n (with_target target rest) Hn) as H1.
    pose proof (RUN_PARAMS_token n rest Hn) as H2.
    rewrite string_app_cons in H1, H2.
    change ("{run.params." +:+ n +:+ "}" +:+ with_target target rest) with
      ("{run.params." +:+ (n +:+ "}" +:+ with_target target rest)).
    rewrite H1, H2. by rewrite IH.
  - assert (forall u, "${" +:+ ("run.params." +:+ n +:+ String "010" "") +:+ "}" +:+ u
              = String "$" (("{run.params." +:+ n +:+ String "010" (String "}" "")) +:+ u)) as Eq
      by (intros u; by rewrite !string_app_assoc).
    assert (has_char "$" ("{run.params." +:+ n +:+ String "010" (String "}" "")) = false) as Hd'
      by (by rewrite !has_char_app, Hd).
    assert (forall u, RUN_PARAMS_PATTERN
              (String "$" (("{run.params." +:+ n +:+ String "010" (String "}" "")) +:+ u)) = None) as Hp.
    { intros u. rewrite !string_app_assoc. exact (RUN_PARAMS_newline n u Hn). }
    by rewrite Eq, passes_token, !finditer_params_skip.
Qed.

Lemma with_target_refs_char c s :
  SUBSTITUTION_PATTERN (String c s) = None ->
  finditer RUN_PARAMS_PATTERN (with_target target s) = finditer RUN_PARAMS_PATTERN s ->
  finditer RUN_PARAMS_PATTERN (with_target target (String c s)) =
  finditer RUN_PARAMS_PATTERN (String c s).
Proof.
  intros Hsub IH.
  destruct (strip_prefix "${" (String c s)) as [r|] eqn:Hpre.
  { (* an unclosed brace: no token follows *)
    unfold SUBSTITUTION_PATTERN in Hsub. rewrite Hpre in Hsub. simpl in Hsub.
    apply until_brace_None in Hsub. apply strip_prefix_spec in Hpre. rewrite Hpre.
    by rewrite with_target_no_brace by (by rewrite has_char_app). }
  assert (RUN_TARGET_PATTERN (String c s) = None) as Ht.
  { destruct (RUN_TARGET_PATTERN _) as [[u r]|] eqn:E; [|done].
    apply RUN_TARGET_spec in E. by rewrite E in Hpre. }
  assert (forall u, (forall t, u = String "{" t -> exists t', s = String "{" t') ->
            RUN_PARAMS_PATTERN (String c u) = None) as Hp.
  { intros u Hu. destruct (RUN_PARAMS_PATTERN _) as [[n r]|] eqn:E; [|done].
    apply RUN_PARAMS_prefix in E. injection E as -> ->.
    destruct (Hu _ eq_refl) as [t' ->]. by rewrite !strip_prefix_cons in Hpre. }
  rewrite with_target_cons, Ht, !finditer_cons by auto with meho.
  rewrite !Hp; [done|by eauto|].
  intros t Ht'. eapply with_target_head; [done|apply target_plain|done].
Qed.

(** The target pass neither adds nor removes a parameter reference. *)
Lemma with_target_refs s :
  validate_string s = true ->
  finditer RUN_PARAMS_PATTERN (with_target target s) = finditer RUN_PARAMS_PATTERN s.
Proof.
  induction s as [s IH] using (induction_ltof1 _ String.length); unfold ltof in IH.
  intros Hv. destruct (SUBSTITUTION_PATTERN s) as [[inner rest]|] eqn:E.
  - rewrite (validate_string_subst _ _ _ E) in Hv. to_prop.
    assert (String.length rest < String.length s) by (by eapply consuming_subst).
    apply SUBSTITUTION_spec in E as [-> Hi]. apply with_target_refs_token; auto.
  - destruct s as [|c s]; [done|]. rewrite validate_string_char in Hv by done.
    apply with_target_refs_char; auto.
Qed.

(** An allowed text resolves as soon as every parameter it names is supplied. *)
Lemma resolve_string_total params s :
  validate_string s = true ->
  (forall name, name ∈ collect_param_refs s -> is_Some (dict_get name params)) ->
  exists t, resolve_string target params s = Ok t.
Proof.
  intros Hv Hrefs. unfold resolve_string. rewrite target_pass. simpl.
  apply params_pass. rewrite with_target_refs by done. exact Hrefs.
Qed.

Lemma resolve_substitutions_total params v :
  validate_substitutions v = true ->
  (forall name, name ∈ walk_collect v -> is_Some (dict_get name params)) ->
  exists w, resolve_substitutions target params v = Ok w.
Proof.
  induction v as [| | | |s|l IH|d IH] using json_nested_ind; simpl; intros Hv Hrefs; eauto.
  - destruct (resolve_string_total params s Hv Hrefs) as [t ->]. simpl. eauto.
  - destruct (res_map_total (resolve_substitutions target params) l) as [ws ->]; [|simpl; eauto].
    induction IH as [|x l Hx _ IHl]; constructor; simpl in *; to_prop.
    + apply Hx; [done|]. intros n Hn. apply Hrefs. apply elem_of_app. by left.
    + apply IHl; [done|]. intros n Hn. apply Hrefs. apply elem_of_app. by right.
  - destruct (res_map_total (fun kv : string * json =>
      v ← resolve_substitutions target params (snd kv); Ok (fst kv, v)) d) as [ws ->]; [|simpl; eauto].
    induction IH as [|[k x] d Hx _ IHd]; constructor; simpl in *; to_prop.
    + destruct Hx as [w ->]; [done| |by eexists]. intros n Hn. apply Hrefs. apply elem_of_app. by left.
    + apply IHd; [done|]. intros n Hn. apply Hrefs. apply elem_of_app. by right.
Qed.
End TargetPass.

(** * Properties *)

(** The value put in for [${run.target}] is scanned again for parameters: a
    target that is itself the text of a parameter reference resolves to that
    parameter's value, or raises for a parameter that was not supplied. *)
Theorem target_value_is_expanded params name :
  take_name name = Some (name, "") ->
  resolve_string ("${run.params." +:+ name +:+ "}") params "${run.target}" =
  lookup_param params name.
Proof.
  intros Hn. unfold resolve_string. rewrite target_pass. simpl.
  change (with_target ?t "${run.target}") with (t +:+ ""). rewrite !string_app_assoc.
  pose proof (RUN_PARAMS_token name "" Hn) as Ht. rewrite string_app_cons in Ht.
  unfold re_sub. rewrite string_app_cons, scan_cons, Ht by auto with meho. simpl.
  destruct (lookup_param params name); [|done]. simpl. by rewrite string_app_nil.
Qed.

Lemma resolve_shape target params v w :
  resolve_substitutions target params v = Ok w ->
  match v, w with
  | JStr s, JStr t => has_char "$" s = false -> t = s
  | JDict d, JDict d' => d'.*1 = d.*1 /\
      Forall2 (fun kv kw => resolve_substitutions target params (snd kv) = Ok (snd kw)) d d'
  | JList l, JList l' => Forall2 (fun x y => resolve_substitutions target params x = Ok y) l l'
  | JStr _, _ | JDict _, _ | JList _, _ => False
  | _, _ => w = v
  end.
Proof.
  destruct v as [| | | |s|l|d]; simpl; intros H; simplify_eq; try done.
  - destruct (resolve_string target params s) as [t|] eqn:Hr; simplify_eq/=.
    intros Hd. unfold resolve_string in Hr. rewrite target_pass in Hr. simpl in Hr.
    rewrite <- (string_app_nil s), with_target_skip in Hr by done.
    unfold re_sub, with_target in Hr. simpl in Hr. rewrite string_app_nil in Hr.
    clear -Hr Hd. revert t Hr. induction s as [|c s IH]; intros t Hr; [by injection Hr|].
    apply has_char_cons_false in Hd as [Hc Hd].
    rewrite scan_cons, at_dollar_params in Hr by auto with meho. simpl in Hr.
    destruct (sub_segments _ (scan _ s)); simplify_eq/=. by rewrite (IH Hd _ eq_refl).
  - destruct (res_map _ l) as [l'|] eqn:Hm; simplify_eq/=. by apply res_map_Ok.
  - destruct (res_map _ d) as [d'|] eqn:Hm; simplify_eq/=. apply res_map_Ok in Hm.
    induction Hm as [|[k x] [k' y] d d' Hx _ [IHk IH]]; [done|]. simpl in Hx.
    destruct (resolve_substitutions target params x) eqn:Hx'; simplify_eq/=.
    split; [by f_equal|]. by constructor.
Qed.

(** Substitution only rewrites text: a value resolves to one of the same
    shape, with the same dict keys in the same order, the same list lengths and
    the same numbers, booleans and nulls; and text without a dollar sign is kept
    as it is. *)
Theorem resolve_keeps_shape target params v w :
  resolve_substitutions target params v = Ok w ->
  match v, w with
  | JStr s, JStr t => has_char "$" s = false -> t = s
  | JDict d, JDict d' => d'.*1 = d.*1 /\
      Forall2 (fun kv kw => resolve_substitutions target params (snd kv) = Ok (snd kw)) d d'
  | JList l, JList l' => Forall2 (fun x y => resolve_substitutions target params x = Ok y) l l'
  | JStr _, _ | JDict _, _ | JList _, _ => False
  | _, _ => w = v
  end.
Proof. apply resolve_shape. Qed.

Lemma target_value_is_expanded_witness :
  take_name "secret" = Some ("secret", "") /\
  resolve_string "${run.params.secret}" [("secret", JStr "s3")] "${run.target}" = Ok "s3".
Proof.
  split; [reflexivity|].
  exact (target_value_is_expanded [("secret", JStr "s3")] "secret" eq_refl).
Defined.

Lemma resolve_keeps_shape_witness :
  exists w, resolve_substitutions "db-1" [("n", JInt 3)]
    (JDict [("host", JStr "${run.target}"); ("count", JStr "n=${run.params.n}"); ("k", JInt 1)])
    = Ok w /\
  w = JDict [("host", JStr "db-1"); ("count", JStr "n=3"); ("k", JInt 1)] /\
  match w with JDict d' => d'.*1 = ["host"; "count"; "k"] | _ => False end.
Proof.
  eexists. split; [vm_compute; reflexivity|]. split; [reflexivity|].
  exact (proj1 (resolve_keeps_shape "db-1" [("n", JInt 3)]
    (JDict [("host", JStr "${run.target}"); ("count", JStr "n=${run.params.n}"); ("k", JInt 1)])
    (JDict [("host", JStr "db-1"); ("count", JStr "n=3"); ("k", JInt 1)]) ltac:(vm_compute; reflexivity))).
Defined.
