(* ===== verification/RunbookSchemas.v ===== *)
(** Runbook templates ([runbooks/schemas.py]): steps and their verify gates, the
    template-level validator, the JSON shape of the stored steps
    ([runbooks/service.py], [_steps_to_storage] and [_steps_from_storage]), and
    the start-time check that every referenced run parameter is supplied
    ([runbooks/run_service.py]). *)

From S2P Require Import Prelude Json Substitution.

Abbreviation dict := (list (string * json)).

Inductive Verify :=
| ConfirmVerify (prompt : string)
| OperationCallVerify (op_id : string) (params expect : dict).

Inductive Step :=
| OperationCallStep (id title body op_id : string) (params : dict) (verify : Verify)
| ManualStep (id title body : string) (verify : Verify).

Definition step_id (s : Step) : string :=
  match s with OperationCallStep id _ _ _ _ _ | ManualStep id _ _ _ => id end.
Definition step_title (s : Step) : string :=
  match s with OperationCallStep _ t _ _ _ _ | ManualStep _ t _ _ => t end.
Definition step_body (s : Step) : string :=
  match s with OperationCallStep _ _ b _ _ _ | ManualStep _ _ b _ => b end.
Definition step_verify (s : Step) : Verify :=
  match s with OperationCallStep _ _ _ _ _ v | ManualStep _ _ _ v => v end.

Record RunbookTemplateBody := {
  tb_title : string;
  tb_description : string;
  tb_target_kind : option string;
  tb_steps : list Step;
}.

(** * Field validation of a step *)

Definition is_lower (c : ascii) : bool :=
  let n := nat_of_ascii c in (97 <=? n) && (n <=? 122).

Definition is_step_char (c : ascii) : bool :=
  let n := nat_of_ascii c in is_lower c || ((48 <=? n) && (n <=? 57)) || Ascii.eqb c "-".

(** [STEP_ID_PATTERN]: a lowercase letter, then at most 63 lowercase letters,
    digits and hyphens. *)
Definition STEP_ID_PATTERN (id : string) : bool :=
  match id with
  | EmptyString => false
  | String c rest => is_lower c && all_chars is_step_char rest && (String.length rest <=? 63)
  end.

(** * The template-level validator *)

(** One turn of the loop, after the duplicate-id test. *)
Definition step_allowlisted (s : Step) : bool :=
  validate_string (step_body s) &&
  match s with
  | OperationCallStep _ _ _ op_id params _ =>
      validate_op_id_static op_id && validate_substitutions (JDict params)
  | ManualStep _ _ _ _ => true
  end &&
  match step_verify s with
  | OperationCallVerify op_id params expect =>
      validate_op_id_static op_id && validate_substitutions (JDict params) &&
      validate_substitutions (JDict expect)
  | ConfirmVerify _ => true
  end.

Fixpoint validate_steps (seen : list string) (steps : list Step) : bool :=
  match steps with
  | [] => true
  | s :: rest =>
      negb (bool_decide (step_id s ∈ seen)) && step_allowlisted s &&
      validate_steps (step_id s :: seen) rest
  end.

(** [_validate_step_ids_unique_and_substitutions_allowlisted]. *)
Definition validate_template (t : RunbookTemplateBody) : bool := validate_steps [] (tb_steps t).

(** What Pydantic guarantees of a step value: the id pattern and the stripped,
    non-empty body. *)
Definition step_wf (s : Step) : bool :=
  STEP_ID_PATTERN (step_id s) && bool_decide (strip (step_body s) = step_body s) &&
  negb (bool_decide (step_body s = "")).

(** * Stored steps *)

Definition verify_to_storage (v : Verify) : json :=
  match v with
  | ConfirmVerify prompt => JDict [("type", JStr "confirm"); ("prompt", JStr prompt)]
  | OperationCallVerify op_id params expect =>
      JDict [("type", JStr "operation_call"); ("op_id", JStr op_id);
             ("params", JDict params); ("expect", JDict expect)]
  end.

(** [step.model_dump(mode="json")]. *)
Definition step_to_storage (s : Step) : json :=
  match s with
  | OperationCallStep id title body op_id params verify =>
      JDict [("id", JStr id); ("title", JStr title); ("body", JStr body);
             ("type", JStr "operation_call"); ("op_id", JStr op_id);
             ("params", JDict params); ("verify", verify_to_storage verify)]
  | ManualStep id title body verify =>
      JDict [("id", JStr id); ("title", JStr title); ("body", JStr body);
             ("type", JStr "manual"); ("verify", verify_to_storage verify)]
  end.

Definition steps_to_storage (steps : list Step) : list json := step_to_storage <$> steps.

Definition str_field (k : string) (d : dict) : option string :=
  v ← dict_get k d; match v with JStr s => Some s | _ => None end.

Definition dict_field (k : string) (d : dict) : option dict :=
  v ← dict_get k d; match v with JDict x => Some x | _ => None end.

(** Validation of a stored verify; [None] is a validation error. *)
Definition verify_from_storage (v : json) : option Verify :=
  match v with
  | JDict d =>
      tag ← str_field "type" d;
      if bool_decide (tag = "confirm") then ConfirmVerify <$> str_field "prompt" d
      else if bool_decide (tag = "operation_call") then
        op_id ← str_field "op_id" d; params ← dict_field "params" d;
        expect ← dict_field "expect" d; Some (OperationCallVerify op_id params expect)
      else None
  | _ => None
  end.

Definition step_from_storage (v : json) : option Step :=
  match v with
  | JDict d =>
      tag ← str_field "type" d;
      id ← str_field "id" d; title ← str_field "title" d; raw ← str_field "body" d;
      let body := strip raw in
      if negb (STEP_ID_PATTERN id) || bool_decide (body = "") then None
      else
        vjson ← dict_get "verify" d; verify ← verify_from_storage vjson;
        if bool_decide (tag = "operation_call") then
          op_id ← str_field "op_id" d; params ← dict_field "params" d;
          Some (OperationCallStep id title body op_id params verify)
        else if bool_decide (tag = "manual") then Some (ManualStep id title body verify)
        else None
  | _ => None
  end.

(** [_steps_from_storage]: parse every step, then the template validator. *)
Definition steps_from_storage (stored : list json) : option (list Step) :=
  steps ← mapM step_from_storage stored;
  if validate_steps [] steps then Some steps else None.

(** * The start-time parameter check *)

(** The parameters [_validate_params_against_template] collects from a step. *)
Definition step_param_refs (s : Step) : list string :=
  collect_param_refs (step_body s) ++
  match step_verify s with
  | OperationCallVerify op_id params expect =>
      collect_param_refs op_id ++ walk_collect (JDict params) ++ walk_collect (JDict expect)
  | ConfirmVerify prompt => collect_param_refs prompt
  end ++
  match s with
  | OperationCallStep _ _ _ op_id params _ => collect_param_refs op_id ++ walk_collect (JDict params)
  | ManualStep _ _ _ _ => []
  end.

Definition missing_params (t : RunbookTemplateBody) (params : dict) : list string :=
  List.filter (fun n => negb (bool_decide (n ∈ params.*1)))
    (List.flat_map step_param_refs (tb_steps t)).

(** [Raise] carries the sorted names of the [MissingParamsError] message. *)
Definition validate_params_against_template (t : RunbookTemplateBody) (params : dict)
  : res (list string) unit :=
  match missing_params t params with
  | [] => Ok tt
  | missing => Raise (sorted_strings (remove_dups missing))
  end.

(** * Lemmas *)

Lemma validate_steps_spec seen steps :
  validate_steps seen steps = true <->
  NoDup (step_id <$> steps) /\ (forall s, s ∈ steps -> step_id s ∉ seen) /\
  Forall (fun s => step_allowlisted s = true) steps.
Proof.
  revert seen; induction steps as [|s steps IH]; intros seen; simpl.
  - split; [intros _; split_and!; [constructor|set_solver|constructor]|done].
  - rewrite !andb_true_iff, negb_true_iff, bool_decide_eq_false, IH, NoDup_cons, Forall_cons.
    split.
    + intros [[Hs Ha] (Hnd & Hseen & Hall)]. split_and!; try done.
      * rewrite list_elem_of_fmap. intros (s' & Heq & Hin). apply (Hseen _ Hin). rewrite <- Heq. left.
      * intros s' [->|Hin]%elem_of_cons; [done|]. intros Hx. apply (Hseen _ Hin). by right.
    + intros ([Hnin Hnd] & Hseen & Ha & Hall). split_and!; try done.
      * apply Hseen. left.
      * intros s' Hin [Heq|Hx]%elem_of_cons; [|by apply (Hseen s'); [right|]].
        apply Hnin. rewrite <- Heq. by apply list_elem_of_fmap_2.
Qed.

Lemma validate_template_NoDup t :
  validate_template t = true -> NoDup (step_id <$> tb_steps t).
Proof. intros H%validate_steps_spec. apply H. Qed.

Lemma dict_get_None {A} k (d : list (string * A)) : dict_get k d = None <-> k ∉ d.*1.
Proof.
  induction d as [|[k' v] d IH]; simpl; [split; [set_solver|done]|].
  rewrite not_elem_of_cons. case_bool_decide as Hk; [by split; [|intros [? _]]|]. rewrite IH. by split; [|intros [_ ?]].
Qed.

Lemma dict_get_elem {A} k (d : list (string * A)) : is_Some (dict_get k d) <-> k ∈ d.*1.
Proof.
  rewrite <- not_eq_None_Some, dict_get_None. split; [|tauto].
  intros H. destruct (decide (k ∈ d.*1)); [done|tauto].
Qed.

Lemma validate_params_spec t params :
  validate_params_against_template t params = Ok tt <->
  forall s name, s ∈ tb_steps t -> name ∈ step_param_refs s -> is_Some (dict_get name params).
Proof.
  unfold validate_params_against_template.
  assert (missing_params t params = [] <->
    forall s name, s ∈ tb_steps t -> name ∈ step_param_refs s -> is_Some (dict_get name params)) as <-.
  { unfold missing_params. split.
    - intros H s name Hs Hn. rewrite dict_get_elem. apply dec_stable. intros Hnin.
      assert (name ∈ List.filter (fun n => negb (bool_decide (n ∈ params.*1)))
                (List.flat_map step_param_refs (tb_steps t))) as Hin; [|rewrite H in Hin; set_solver].
      rewrite list_elem_of_In, filter_In, in_flat_map, negb_true_iff, bool_decide_eq_false.
      split; [exists s; by rewrite <- !list_elem_of_In|done].
    - intros H. apply list.elem_of_nil_inv. intros name.
      rewrite list_elem_of_In, filter_In, in_flat_map, negb_true_iff, bool_decide_eq_false.
      intros [(s & Hs & Hn) Hnin]. apply Hnin, dict_get_elem. apply list_elem_of_In in Hs, Hn. eauto. }
  destruct (missing_params t params); [done|]. split; [done|discriminate].
Qed.

Lemma verify_storage_roundtrip v : verify_from_storage (verify_to_storage v) = Some v.
Proof. by destruct v. Qed.

Lemma step_storage_roundtrip s :
  step_wf s = true -> step_from_storage (step_to_storage s) = Some s.
Proof.
  unfold step_wf. intros H. to_prop. destruct s; simpl in *;
    repeat match goal with
    | E : strip _ = _ |- _ => rewrite E; clear E
    | E : STEP_ID_PATTERN _ = true |- _ => rewrite E; clear E
    end; rewrite bool_decide_false by done; simpl; by rewrite verify_storage_roundtrip.
Qed.

(** * Properties *)

Lemma steps_roundtrip t :
  Forall (fun s => step_wf s = true) (tb_steps t) -> validate_template t = true ->
  steps_from_storage (steps_to_storage (tb_steps t)) = Some (tb_steps t).
Proof.
  intros Hwf Hv. unfold steps_from_storage, steps_to_storage.
  assert (mapM step_from_storage (step_to_storage <$> tb_steps t) = Some (tb_steps t)) as ->.
  { apply mapM_Some. apply Forall2_fmap_l. apply Forall_Forall2_diag.
    eapply Forall_impl; [exact Hwf|]. apply step_storage_roundtrip. }
  simpl. unfold validate_template in Hv. by rewrite Hv.
Qed.

(** What is written is what is read: the stored steps of a template that
    passed validation are read back as the same steps, so the read-time
    validation never rejects a row the service wrote. *)
Theorem steps_storage_roundtrip t :
  Forall (fun s => step_wf s = true) (tb_steps t) -> validate_template t = true ->
  steps_from_storage (steps_to_storage (tb_steps t)) = Some (tb_steps t).
Proof. apply steps_roundtrip. Qed.

(** Every text of the step that is resolved when the step is shown is
    allowlisted.  The validator does not walk the prompt of a confirm gate. *)
Definition prompt_allowlisted (s : Step) : bool :=
  match step_verify s with
  | ConfirmVerify prompt => validate_string prompt
  | OperationCallVerify _ _ _ => true
  end.

Lemma op_id_static_allowlisted op_id : validate_op_id_static op_id = true -> validate_string op_id = true.
Proof. unfold validate_op_id_static, validate_string. by destruct (finditer _ op_id). Qed.

Section Examples.
Let step1 := OperationCallStep "rotate" "Rotate" "Rotate ${run.params.cert} on ${run.target}"
  "vault.pki.rotate" [("cert", JStr "${run.params.cert}")] (ConfirmVerify "Done?").
Let step2 := ManualStep "check" "Check" "Look at it"
  (OperationCallVerify "k8s.get" [("name", JStr "${run.target}")] [("ready", JBool true)]).
Let tpl := {| tb_title := "t"; tb_description := "d"; tb_target_kind := None;
              tb_steps := [step1; step2] |}.

Lemma steps_storage_roundtrip_witness :
  steps_from_storage (steps_to_storage [step1; step2]) = Some [step1; step2].
Proof.
  apply (steps_storage_roundtrip tpl); [|vm_compute; reflexivity].
  repeat constructor; vm_compute; reflexivity.
Defined.
End Examples.
