(* ===== verification/RunbookEngine.v ===== *)
(** The step-execution engine of runbook runs ([runbooks/engine.py]): the single
    step shown to the operator ([current_step_body]), and the transition of the
    run's current step under its verify gate ([advance]).  Both are pure. *)

From S2P Require Import Prelude Json Substitution RunbookSchemas.

(** * Data ([runbooks/runs_schemas.py]) *)

Inductive Answer := ans_yes | ans_no | ans_escalate.
#[export] Instance Answer_eq_dec : EqDecision Answer.
Proof. solve_decision. Defined.

Inductive VerifyResponse :=
| ConfirmVerifyResponse (answer : Answer)
| OperationCallVerifyResponse (matched : bool) (actual : dict).

Inductive VerifyType := vt_confirm | vt_operation_call.
Inductive StepType := st_operation_call | st_manual.

Record StepBodyVerify := {
  sbv_type : VerifyType;
  sbv_prompt : option string;
  sbv_op_id : option string;
  sbv_params : option dict;
  sbv_expect : option dict;
}.

Record StepBody := {
  sb_id : string;
  sb_title : string;
  sb_body : string;
  sb_type : StepType;
  sb_op_id : option string;
  sb_params : option dict;
  sb_verify : StepBodyVerify;
}.

(** [runbook_run_step_states.state]. *)
Inductive StepState := step_pending | step_in_progress | step_verified | step_failed.
#[export] Instance StepState_eq_dec : EqDecision StepState.
Proof. solve_decision. Defined.

Inductive EngineError :=
| PreviousStepNotVerifiedError
| VerifyResponseRequiredError
| VerifyResponseMismatchError
| EngineKeyError (name : string)
| EngineAssertionError.

Inductive OutcomeKind := out_next_step | out_completed | out_failed.
#[export] Instance OutcomeKind_eq_dec : EqDecision OutcomeKind.
Proof. solve_decision. Defined.

Record AdvanceOutcome := {
  ao_kind : OutcomeKind;
  ao_next_step_body : option StepBody;
  ao_completed_at : option datetime;
  ao_verify_response_persisted : option VerifyResponse;
}.

(** * Helpers *)

(** A [KeyError] of the substitution leaves the engine as a [KeyError]. *)
Definition lift_subst {A} (r : res SubstError A) : res EngineError A :=
  match r with Ok a => Ok a | Raise (KeyError n) => Raise (EngineKeyError n) end.

Definition resolve_str (target : string) (params : dict) (value : string)
  : res EngineError string := lift_subst (resolve_string target params value).

Definition resolve_dict (target : string) (params : dict) (value : dict)
  : res EngineError dict :=
  r ← lift_subst (resolve_substitutions target params (JDict value));
  match r with JDict d => Ok d | _ => Raise EngineAssertionError end.

Definition find_step (t : RunbookTemplateBody) (id : string) : res EngineError Step :=
  ok_or (EngineKeyError id) (List.find (fun s => bool_decide (step_id s = id)) (tb_steps t)).

(** [_next_step]: the step after the first one with the id; [KeyError] when no
    step has the id. *)
Fixpoint next_in (steps : list Step) (id : string) : res EngineError (option Step) :=
  match steps with
  | [] => Raise (EngineKeyError id)
  | s :: rest => if bool_decide (step_id s = id) then Ok (head rest) else next_in rest id
  end.

Definition next_step (t : RunbookTemplateBody) (id : string) : res EngineError (option Step) :=
  next_in (tb_steps t) id.

(** [_matches]. *)
Fixpoint matches (actual expect : json) {struct expect} : bool :=
  match expect with
  | JDict e =>
      match actual with
      | JDict a =>
          forallb (fun kv => match dict_get (fst kv) a with
                             | Some x => matches x (snd kv)
                             | None => false
                             end) e
      | _ => false
      end
  | JList e =>
      match actual with
      | JList a =>
          bool_decide (length a = length e) &&
          (fix all e a := match e, a with
            | y :: e', x :: a' => matches x y && all e' a'
            | _, _ => true
            end) e a
      | _ => false
      end
  | _ => py_eq actual expect
  end.

Definition build_step_body_verify (target : string) (params : dict) (v : Verify)
  : res EngineError StepBodyVerify :=
  match v with
  | ConfirmVerify prompt =>
      p ← resolve_str target params prompt;
      Ok {| sbv_type := vt_confirm; sbv_prompt := Some p; sbv_op_id := None;
            sbv_params := None; sbv_expect := None |}
  | OperationCallVerify op_id vparams expect =>
      p ← resolve_dict target params vparams;
      e ← resolve_dict target params expect;
      Ok {| sbv_type := vt_operation_call; sbv_prompt := None; sbv_op_id := Some op_id;
            sbv_params := Some p; sbv_expect := Some e |}
  end.

Definition build_step_body (target : string) (params : dict) (s : Step)
  : res EngineError StepBody :=
  body ← resolve_str target params (step_body s);
  vb ← build_step_body_verify target params (step_verify s);
  match s with
  | OperationCallStep id title _ op_id sparams _ =>
      p ← resolve_dict target params sparams;
      Ok {| sb_id := id; sb_title := title; sb_body := body; sb_type := st_operation_call;
            sb_op_id := Some op_id; sb_params := Some p; sb_verify := vb |}
  | ManualStep id title _ _ =>
      Ok {| sb_id := id; sb_title := title; sb_body := body; sb_type := st_manual;
            sb_op_id := None; sb_params := None; sb_verify := vb |}
  end.

Definition evaluate_confirm (r : option VerifyResponse) : res EngineError (bool * VerifyResponse) :=
  match r with
  | None => Raise VerifyResponseRequiredError
  | Some (ConfirmVerifyResponse a) => Ok (bool_decide (a = ans_yes), ConfirmVerifyResponse a)
  | Some (OperationCallVerifyResponse _ _) => Raise VerifyResponseMismatchError
  end.

Definition evaluate_operation_call (target : string) (params : dict) (expect : dict)
  (r : option VerifyResponse) : res EngineError (bool * VerifyResponse) :=
  match r with
  | None => Raise VerifyResponseRequiredError
  | Some (ConfirmVerifyResponse _) => Raise VerifyResponseMismatchError
  | Some (OperationCallVerifyResponse _ actual) =>
      resolved ← resolve_dict target params expect;
      let m := matches (JDict actual) (JDict resolved) in
      Ok (m, OperationCallVerifyResponse m actual)
  end.

(** * The two engine functions *)

Definition current_step_body (t : RunbookTemplateBody) (current_step_id : string)
  (target : string) (params : dict) : res EngineError StepBody :=
  s ← find_step t current_step_id; build_step_body target params s.

Definition evaluate_verify (target : string) (params : dict) (v : Verify)
  (r : option VerifyResponse) : res EngineError (bool * VerifyResponse) :=
  match v with
  | ConfirmVerify _ => evaluate_confirm r
  | OperationCallVerify _ _ expect => evaluate_operation_call target params expect r
  end.

Definition advance (t : RunbookTemplateBody) (current_step_id : string)
  (previous_step_state : StepState) (target : string) (params : dict)
  (verify_response : option VerifyResponse) (completed_at : option datetime)
  : res EngineError AdvanceOutcome :=
  _ ← guard_or PreviousStepNotVerifiedError (bool_decide (previous_step_state = step_in_progress));
  s ← find_step t current_step_id;
  '(passed, persisted) ← evaluate_verify target params (step_verify s) verify_response;
  if negb passed then
    Ok {| ao_kind := out_failed; ao_next_step_body := None; ao_completed_at := None;
          ao_verify_response_persisted := Some persisted |}
  else
    n ← next_step t current_step_id;
    match n with
    | None =>
        Ok {| ao_kind := out_completed; ao_next_step_body := None; ao_completed_at := completed_at;
              ao_verify_response_persisted := Some persisted |}
    | Some s' =>
        b ← build_step_body target params s';
        Ok {| ao_kind := out_next_step; ao_next_step_body := Some b; ao_completed_at := None;
              ao_verify_response_persisted := Some persisted |}
    end.

(** * Lemmas *)

Lemma find_step_Ok t id s :
  find_step t id = Ok s -> s ∈ tb_steps t /\ step_id s = id.
Proof.
  unfold find_step. intros [Hin Hid]%ok_or_Ok%find_Some_iff. split; [done|].
  by apply bool_decide_eq_true in Hid.
Qed.

Lemma find_step_elem t s :
  validate_template t = true -> s ∈ tb_steps t -> find_step t (step_id s) = Ok s.
Proof.
  intros Hv Hs. unfold find_step. rewrite (find_unique step_id _ _ s); try done.
  - by apply validate_template_NoDup.
  - intros r' H. by apply bool_decide_eq_true in H.
  - by apply bool_decide_eq_true.
Qed.

Lemma resolve_dict_Ok target params d w :
  resolve_substitutions target params (JDict d) = Ok w -> is_Ok (resolve_dict target params d).
Proof.
  intros H. unfold resolve_dict. rewrite H. simpl.
  pose proof (resolve_shape _ _ _ _ H) as Hs. destruct w; try done. by eexists.
Qed.

Lemma next_in_spec steps id s :
  NoDup (step_id <$> steps) ->
  forall i, steps !! i = Some s -> step_id s = id -> next_in steps id = Ok (steps !! S i).
Proof.
  intros Hnd. induction steps as [|x steps IH]; intros i Hi Hid; [done|].
  apply NoDup_cons in Hnd as [Hx Hnd]. destruct i as [|i]; simplify_eq/=.
  - rewrite bool_decide_true by done. by destruct steps.
  - rewrite bool_decide_false; [by apply IH|]. intros Heq. apply Hx. rewrite Heq.
    by apply list_elem_of_fmap_2, list_elem_of_lookup_2 with i.
Qed.

Lemma next_step_lookup t i s :
  validate_template t = true -> tb_steps t !! i = Some s ->
  next_step t (step_id s) = Ok (tb_steps t !! S i).
Proof. intros Hv Hi. by eapply next_in_spec; [apply validate_template_NoDup|..]. Qed.

Lemma build_step_body_id target params s b :
  build_step_body target params s = Ok b -> sb_id b = step_id s.
Proof. intros H. unfold build_step_body in H. invert_ok. destruct s; invert_ok; done. Qed.

(** What it means that a result covers an expectation: a dict has to have the keys
    named, a list the same length, and everything else is equal. *)
Inductive covers : json -> json -> Prop :=
| covers_dict a e :
    Forall (fun kv => exists x, dict_get kv.1 a = Some x /\ covers x kv.2) e -> covers (JDict a) (JDict e)
| covers_list a e : Forall2 covers a e -> covers (JList a) (JList e)
| covers_other x y : match y with JDict _ | JList _ => False | _ => True end -> py_eq x y = true -> covers x y.

Lemma matches_covers expect : forall actual, matches actual expect = true <-> covers actual expect.
Proof.
  induction expect as [| | | |t|e IH|e IH] using json_nested_ind; intros actual; cbn [matches].
  1-5: split; [by intros; apply covers_other|by inversion_clear 1].
  - destruct actual as [| | | | |l|]; try (split; [done|by inversion 1]).
    trans (Forall2 covers l e); [|by split; [apply covers_list|inversion_clear 1]].
    rewrite andb_true_iff, bool_decide_eq_true. revert l. induction IH as [|y e Hy _ IHe]; intros l.
    + split; [by intros [->%nil_length_inv _]|]. by intros ->%Forall2_nil_inv_r.
    + destruct l as [|x l]; [split; [by intros [? _]|by inversion 1]|].
      rewrite Forall2_cons, <- Hy, <- IHe, andb_true_iff. cbn [length]. split; intros; destruct_and?; split_and?; done || lia.
  - destruct actual as [| | | | | |d]; try (split; [done|by inversion 1]).
    trans (Forall (fun kv => exists x, dict_get kv.1 d = Some x /\ covers x kv.2) e); [|by split; [apply covers_dict|inversion_clear 1]].
    rewrite forallb_forall, !Forall_forall. rewrite Forall_forall in IH. split; intros Hall kv Hin.
    + specialize (Hall kv). rewrite <- list_elem_of_In in Hall. specialize (Hall Hin).
      destruct (dict_get _ _) as [x|]; [|done]. exists x. split; [done|]. by apply IH.
    + apply list_elem_of_In in Hin. destruct (Hall kv Hin) as (x & -> & Hx). by apply IH.
Qed.

Definition failed_with (p : VerifyResponse) : AdvanceOutcome := {|
  ao_kind := out_failed; ao_next_step_body := None; ao_completed_at := None; ao_verify_response_persisted := Some p |}.

(** * Properties *)

(** Step opacity as non-interference: what the engine shows and decides does
    not depend on the rest of the template.  Two templates that agree on the step
    with the given id show the same body, and if they also agree on the step that
    follows it, they advance the same way. *)
Theorem engine_opacity t1 t2 id st target params resp at_ :
  find_step t1 id = find_step t2 id ->
  current_step_body t1 id target params = current_step_body t2 id target params /\
  (next_step t1 id = next_step t2 id ->
   advance t1 id st target params resp at_ = advance t2 id st target params resp at_).
Proof.
  intros Hf. unfold current_step_body, advance. rewrite Hf. split; [done|]. by intros ->.
Qed.

(** The run moves on from step [i]: the body of the step that follows is shown, and
    after the last step the run is completed at the time given. *)
Definition moves_on (t : RunbookTemplateBody) (i : nat) (target : string) (params : dict) (at_ : option datetime)
  (p : VerifyResponse) (o : res EngineError AdvanceOutcome) : Prop :=
  match tb_steps t !! S i with
  | Some following =>
      match build_step_body target params following with
      | Ok b => o = Ok {| ao_kind := out_next_step; ao_next_step_body := Some b; ao_completed_at := None;
                          ao_verify_response_persisted := Some p |} /\ sb_id b = step_id following
      | Raise e => o = Raise e
      end
  | None => o = Ok {| ao_kind := out_completed; ao_next_step_body := None; ao_completed_at := at_;
                      ao_verify_response_persisted := Some p |}
  end.

Lemma advance_moves t i s target params resp at_ p :
  validate_template t = true -> tb_steps t !! i = Some s -> evaluate_verify target params (step_verify s) resp = Ok (true, p) ->
  moves_on t i target params at_ p (advance t (step_id s) step_in_progress target params resp at_).
Proof.
  intros Hv Hi He. unfold advance, moves_on. rewrite find_step_elem by (try done; by eapply list_elem_of_lookup_2).
  rewrite (next_step_lookup _ _ _ Hv Hi). cbn. rewrite He. cbn. destruct (tb_steps t !! S i) as [s'|]; [|done]. cbn.
  destruct (build_step_body target params s') as [b|e] eqn:Hb; [|done]. split; [done|]. by eapply build_step_body_id.
Qed.

Lemma advance_stops t i s target params resp at_ o :
  validate_template t = true -> tb_steps t !! i = Some s ->
  match evaluate_verify target params (step_verify s) resp with
  | Ok (true, _) => False
  | Ok (false, p) => o = Ok (failed_with p)
  | Raise e => o = Raise e
  end -> advance t (step_id s) step_in_progress target params resp at_ = o.
Proof.
  intros Hv Hi He. unfold advance. rewrite find_step_elem by (try done; by eapply list_elem_of_lookup_2). cbn.
  destruct (evaluate_verify _ _ _ _) as [[[|] p]|e]; cbn; [done|by rewrite He..].
Qed.

(** C25. The verify gate decides, and this is all of it.  Only a step in progress
    advances.  Without a response, or with one that is not of the kind of the step's
    gate, [advance] raises, and the step neither passes nor fails.  At a confirm gate
    the answer yes moves the run on, and no and escalate fail the step; the response
    kept is the one given.  At an operation-call gate the run moves on exactly when
    the result covers the expectation with the names filled in, and the response kept
    holds the engine's own verdict, whatever the caller claimed.  Moving on shows the
    body of the very next step of the template, and after the last one completes. *)
Theorem advance_gated t i s st target params resp at_ :
  validate_template t = true -> tb_steps t !! i = Some s ->
  let o := advance t (step_id s) st target params resp at_ in
  (st <> step_in_progress -> o = Raise PreviousStepNotVerifiedError) /\
  (st = step_in_progress ->
   match step_verify s, resp with
   | _, None => o = Raise VerifyResponseRequiredError
   | ConfirmVerify _, Some (OperationCallVerifyResponse _ _)
   | OperationCallVerify _ _ _, Some (ConfirmVerifyResponse _) => o = Raise VerifyResponseMismatchError
   | ConfirmVerify _, Some (ConfirmVerifyResponse ans_yes) => moves_on t i target params at_ (ConfirmVerifyResponse ans_yes) o
   | ConfirmVerify _, Some (ConfirmVerifyResponse a) => o = Ok (failed_with (ConfirmVerifyResponse a))
   | OperationCallVerify _ _ expect, Some (OperationCallVerifyResponse _ actual) =>
       match resolve_dict target params expect with
       | Raise e => o = Raise e
       | Ok e =>
           (covers (JDict actual) (JDict e) -> moves_on t i target params at_ (OperationCallVerifyResponse true actual) o) /\
           (~ covers (JDict actual) (JDict e) -> o = Ok (failed_with (OperationCallVerifyResponse false actual)))
       end
   end).
Proof.
  intros Hv Hi o. split.
  { intros Hst. subst o. unfold advance. by rewrite bool_decide_false. }
  intros ->. pose proof (fun p => advance_moves t i s target params resp at_ p Hv Hi) as Hm.
  pose proof (fun o => advance_stops t i s target params resp at_ o Hv Hi) as Hs.
  destruct (step_verify s) as [prompt|op vp expect]; unfold evaluate_verify, evaluate_confirm, evaluate_operation_call in Hm, Hs.
  - destruct resp as [[[| |]|m actual]|]; first [exact (Hs _ eq_refl)|exact (Hm _ eq_refl)].
  - destruct resp as [[a|m actual]|]; [exact (Hs _ eq_refl)| |exact (Hs _ eq_refl)].
    destruct (resolve_dict target params expect) as [e|e]; [|exact (Hs _ eq_refl)]. cbn [mbind res_bind] in Hm, Hs.
    pose proof (matches_covers (JDict e) (JDict actual)) as Hc. destruct (matches (JDict actual) (JDict e)).
    + split; [intros _; by apply Hm|]. intros Hn. by destruct Hn; apply Hc.
    + split; [by intros ?%Hc|]. intros _. by apply Hs.
Qed.

(** ** The engine does not raise on a validated template *)

Definition response_fits (v : Verify) (r : VerifyResponse) : bool :=
  match v, r with
  | ConfirmVerify _, ConfirmVerifyResponse _ => true
  | OperationCallVerify _ _ _, OperationCallVerifyResponse _ _ => true
  | _, _ => false
  end.

Definition refs_supplied (params : dict) (s : Step) : Prop :=
  forall n, n ∈ step_param_refs s -> is_Some (dict_get n params).

Lemma verify_refs_supplied params s n :
  refs_supplied params s ->
  n ∈ match step_verify s with
      | OperationCallVerify op_id p e =>
          collect_param_refs op_id ++ walk_collect (JDict p) ++ walk_collect (JDict e)
      | ConfirmVerify prompt => collect_param_refs prompt
      end -> is_Some (dict_get n params).
Proof. intros H Hn. apply H. unfold step_param_refs. rewrite !elem_of_app. tauto. Qed.

Section Total.
Variables (target : string) (params : dict).
Hypothesis target_nonempty : target <> "".
Hypothesis target_plain : has_char "$" target = false /\ has_char "{" target = false.

Lemma resolve_str_total s :
  validate_string s = true ->
  (forall n, n ∈ collect_param_refs s -> is_Some (dict_get n params)) ->
  is_Ok (resolve_str target params s).
Proof.
  intros Hv Hr. unfold resolve_str.
  destruct (resolve_string_total target target_nonempty target_plain params s Hv Hr) as [t ->].
  by eexists.
Qed.

Lemma resolve_dict_total d :
  validate_substitutions (JDict d) = true ->
  (forall n, n ∈ walk_collect (JDict d) -> is_Some (dict_get n params)) ->
  is_Ok (resolve_dict target params d).
Proof.
  intros Hv Hr.
  destruct (resolve_substitutions_total target target_nonempty target_plain params _ Hv Hr) as [w Hw].
  by eapply resolve_dict_Ok.
Qed.

Lemma build_step_body_verify_total s :
  step_allowlisted s = true -> prompt_allowlisted s = true -> refs_supplied params s ->
  is_Ok (build_step_body_verify target params (step_verify s)).
Proof.
  intros Ha Hp Hr. pose proof (verify_refs_supplied params s) as Hv.
  unfold step_allowlisted, prompt_allowlisted in *. to_prop.
  destruct (step_verify s) as [prompt|op vp ve]; simpl in *.
  - destruct (resolve_str_total prompt) as [t ->]; [done|by eauto|]. by eexists.
  - to_prop. destruct (resolve_dict_total vp) as [d1 ->]; [done|by intros n Hn; apply Hv; [|set_solver]|].
    simpl. destruct (resolve_dict_total ve) as [d2 ->]; [done|by intros n Hn; apply Hv; [|set_solver]|].
    by eexists.
Qed.

Lemma build_step_body_total s :
  step_allowlisted s = true -> prompt_allowlisted s = true -> refs_supplied params s ->
  is_Ok (build_step_body target params s).
Proof.
  intros Ha Hp Hr. unfold build_step_body.
  destruct (resolve_str_total (step_body s)) as [b ->].
  { unfold step_allowlisted in Ha. by to_prop. }
  { intros n Hn. apply Hr. unfold step_param_refs. rewrite elem_of_app. by left. }
  simpl. destruct (build_step_body_verify_total s) as [vb ->]; try done. simpl.
  destruct s as [id title body op sp v|id title body v]; [|by eexists].
  destruct (resolve_dict_total sp) as [d ->]; [| |by eexists].
  - unfold step_allowlisted in Ha. by to_prop.
  - intros n Hn. apply Hr. unfold step_param_refs. set_solver.
Qed.
End Total.

Lemma engine_total t target params s :
  target <> "" -> has_char "$" target = false /\ has_char "{" target = false ->
  validate_template t = true -> validate_params_against_template t params = Ok tt ->
  Forall (fun s => prompt_allowlisted s = true) (tb_steps t) -> s ∈ tb_steps t ->
  is_Ok (current_step_body t (step_id s) target params) /\
  forall r at_, response_fits (step_verify s) r = true ->
    is_Ok (advance t (step_id s) step_in_progress target params (Some r) at_).
Proof.
  intros Hne Hpl Hv Hpar Hprompt Hs.
  assert (forall s', s' ∈ tb_steps t -> is_Ok (build_step_body target params s')) as Hbuild.
  { intros s' Hs'. apply build_step_body_total; try done.
    - apply validate_steps_spec in Hv as (_ & _ & Hall). by eapply Forall_forall in Hall.
    - by eapply Forall_forall in Hprompt.
    - intros n Hn. rewrite validate_params_spec in Hpar. eauto. }
  split.
  - unfold current_step_body. rewrite find_step_elem by done. by apply Hbuild.
  - intros r at_ Hfit. unfold advance. rewrite find_step_elem by done. simpl.
    assert (is_Ok (evaluate_verify target params (step_verify s) (Some r))) as [[p k] ->].
    { pose proof Hpar as Hpar'. rewrite validate_params_spec in Hpar'.
      pose proof (verify_refs_supplied params s) as Hvr.
      apply validate_steps_spec in Hv as (_ & _ & Hall). eapply Forall_forall in Hall; [|done].
      unfold step_allowlisted in Hall. to_prop.
      destruct (step_verify s) as [prompt|op vp ve], r as [a|m actual]; simpl in *; try done; [by eexists|].
      to_prop. destruct (resolve_dict_total target params Hne Hpl ve) as [d ->]; [done| |by eexists].
      intros n Hn. apply Hvr; [unfold refs_supplied; eauto|set_solver]. }
    simpl. destruct p; simpl; [|by eexists].
    apply list_elem_of_lookup in Hs as [i Hi]. rewrite (next_step_lookup _ _ _ Hv Hi). simpl.
    destruct (tb_steps t !! S i) as [s'|] eqn:Hn; [|by eexists].
    destruct (Hbuild s') as [b ->]; [by eapply list_elem_of_lookup_2|]. by eexists.
Qed.

(** On a template that passed validation, with every referenced parameter
    supplied, a plain non-empty target and allowlisted prompts, the engine never
    raises: every step can be shown, and a response of the gate's kind to the
    step in progress always yields an outcome. *)
Theorem engine_never_raises t target params s :
  target <> "" -> has_char "$" target = false /\ has_char "{" target = false ->
  validate_template t = true -> validate_params_against_template t params = Ok tt ->
  Forall (fun s => prompt_allowlisted s = true) (tb_steps t) -> s ∈ tb_steps t ->
  is_Ok (current_step_body t (step_id s) target params) /\
  forall r at_, response_fits (step_verify s) r = true ->
    is_Ok (advance t (step_id s) step_in_progress target params (Some r) at_).
Proof. apply engine_total. Qed.

(** ** The comparison of an operation-call gate *)

Lemma num_eq_refl x : num_eq x x = true.
Proof. destruct x. apply Z.eqb_refl. Qed.

Lemma json_wf_list l : json_wf (JList l) <-> Forall json_wf l.
Proof. simpl. induction l; [by split|]. rewrite Forall_cons, <- IHl. done. Qed.

Lemma json_wf_dict d : json_wf (JDict d) <-> NoDup d.*1 /\ Forall (fun kv => json_wf (snd kv)) d.
Proof.
  simpl. apply and_iff_compat_l. induction d as [|[k x] d IH]; [by split|].
  rewrite Forall_cons, <- IH. done.
Qed.

Lemma dict_get_NoDup {A} k (v : A) d : NoDup d.*1 -> (k, v) ∈ d -> dict_get k d = Some v.
Proof.
  induction d as [|[k' v'] d IH]; simpl; [set_solver|].
  intros [Hk Hnd]%NoDup_cons [Heq|Hin]%elem_of_cons; [simplify_eq; by rewrite bool_decide_true|].
  rewrite bool_decide_false; [by apply IH|]. intros ->. apply Hk.
  apply list_elem_of_fmap. by exists (k', v).
Qed.

Lemma dict_get_app {A} k (v : A) d d' :
  dict_get k d = Some v -> dict_get k (d ++ d') = Some v.
Proof. induction d as [|[k' v'] d IH]; simpl; [done|]. case_bool_decide; auto. Qed.

(** The comparison is structural equality plus presence: a result matches an
    expectation equal to it, and further keys in the result never turn a match
    into a mismatch. *)
Theorem matches_presence v a e extra :
  (json_wf v -> matches v v = true) /\
  (matches (JDict a) (JDict e) = true -> matches (JDict (a ++ extra)) (JDict e) = true).
Proof.
  split.
  - induction v as [| | | |s|l IH|d IH] using json_nested_ind; intros Hwf;
      cbn [matches py_eq num_of].
    all: try (by (reflexivity || apply num_eq_refl || apply bool_decide_eq_true)).
    + rewrite bool_decide_true by done. cbn [andb]. apply json_wf_list in Hwf.
      induction IH as [|x l Hx _ IHl]; [done|]. apply Forall_cons in Hwf as [Hw Hwf].
      rewrite Hx by done. by apply IHl.
    + apply json_wf_dict in Hwf as [Hnd Hwf]. apply forallb_forall. intros [k x] Hin.
      apply list_elem_of_In in Hin. simpl. rewrite (dict_get_NoDup k x) by done.
      rewrite Forall_forall in IH, Hwf. apply (IH (k, x)); [done|]. by apply (Hwf (k, x)).
  - simpl. rewrite !forallb_forall. intros H [k x] Hin. specialize (H _ Hin). simpl in *.
    destruct (dict_get k a) as [y|] eqn:E; [|done]. by rewrite (dict_get_app _ _ _ extra E).
Qed.

(** * The prompt of a confirm gate

    [_validate_step_ids_unique_and_substitutions_allowlisted] does not walk the
    prompt, but the engine resolves it.  In this template the prompt nests one
    reference in another; no single [${run.params.X}] is in it, so the start-time
    check finds nothing to supply either. *)
Definition nested_prompt_template : RunbookTemplateBody := {|
  tb_title := "t"; tb_description := "d"; tb_target_kind := None;
  tb_steps := [ManualStep "ask" "Ask" "Ask the owner" (ConfirmVerify "${run.params.a${run.target}}")] |}.

(** A confirm prompt escapes the allowlist: the template passes both
    validations, and showing its only step raises [KeyError] for a name that is
    put together from the target. *)
Theorem unchecked_prompt_raises :
  validate_template nested_prompt_template = true /\
  validate_params_against_template nested_prompt_template [] = Ok tt /\
  current_step_body nested_prompt_template "ask" "bc" [] = Raise (EngineKeyError "abc").
Proof. vm_compute. done. Qed.

Section Examples.
Let step1 := OperationCallStep "rotate" "Rotate" "Rotate ${run.params.cert} on ${run.target}"
  "vault.pki.rotate" [("cert", JStr "${run.params.cert}")] (ConfirmVerify "Done?").
Let step2 := ManualStep "check" "Check" "Look at it"
  (OperationCallVerify "k8s.get" [("name", JStr "${run.target}")] [("ready", JBool true)]).
Let tpl := {| tb_title := "t"; tb_description := "d"; tb_target_kind := None;
              tb_steps := [step1; step2] |}.
Let tpl' := {| tb_title := "u"; tb_description := ""; tb_target_kind := None;
               tb_steps := [ManualStep "other" "o" "secret" (ConfirmVerify "?"); step1; step2] |}.
Let params : dict := [("cert", JStr "c1")].

Lemma engine_opacity_witness :
  advance tpl "rotate" step_in_progress "db" params (Some (ConfirmVerifyResponse ans_yes)) None =
  advance tpl' "rotate" step_in_progress "db" params (Some (ConfirmVerifyResponse ans_yes)) None.
Proof.
  apply (engine_opacity tpl tpl' "rotate" step_in_progress "db" params
           (Some (ConfirmVerifyResponse ans_yes)) None); vm_compute; reflexivity.
Defined.

(** The caller's claim does not count: the result does not cover the expectation.
    And after the first step comes the body of the second. *)
Lemma advance_gated_witness :
  advance tpl "check" step_in_progress "db" params
    (Some (OperationCallVerifyResponse true [("ready", JBool false)])) (Some 7%Z) =
    Ok (failed_with (OperationCallVerifyResponse false [("ready", JBool false)])) /\
  moves_on tpl 0 "db" params None (ConfirmVerifyResponse ans_yes)
    (advance tpl "rotate" step_in_progress "db" params (Some (ConfirmVerifyResponse ans_yes)) None).
Proof.
  split.
  - destruct (advance_gated tpl 1 step2 step_in_progress "db" params
      (Some (OperationCallVerifyResponse true [("ready", JBool false)])) (Some 7%Z)) as [_ H]; [vm_compute; reflexivity..|].
    destruct (H eq_refl) as [_ Hf]. apply Hf. intros Hc%matches_covers. vm_compute in Hc. discriminate Hc.
  - destruct (advance_gated tpl 0 step1 step_in_progress "db" params (Some (ConfirmVerifyResponse ans_yes)) None) as [_ H];
      [vm_compute; reflexivity..|]. exact (H eq_refl).
Defined.

Lemma engine_never_raises_witness : is_Ok (current_step_body tpl "check" "db" params).
Proof.
  apply (engine_never_raises tpl "db" params step2).
  - discriminate.
  - split; reflexivity.
  - vm_compute; reflexivity.
  - vm_compute; reflexivity.
  - repeat constructor.
  - right. left.
Defined.

Lemma matches_presence_witness :
  matches (JDict [("ready", JInt 1); ("uid", JStr "x")]) (JDict [("ready", JBool true)]) = true.
Proof.
  apply (matches_presence JNull [("ready", JInt 1)] [("ready", JBool true)] [("uid", JStr "x")]).
  vm_compute. reflexivity.
Defined.
End Examples.
