(* ===== verification/RunbookTemplates.v ===== *)
(** The versioned template store ([runbooks/service.py],
    [RunbookTemplateService]): create, edit or fork, publish, deprecate, discard,
    list and show, over the [runbook_templates] table. *)

From S2P Require Import Prelude Json Substitution RunbookSchemas.

(** * The table *)

Inductive TemplateStatus := tpl_draft | tpl_published | tpl_deprecated.
#[export] Instance TemplateStatus_eq_dec : EqDecision TemplateStatus.
Proof. solve_decision. Defined.

(** A row of [runbook_templates]. *)
Record RunbookTemplate := {
  tr_tenant_id : uuid;
  tr_slug : string;
  tr_version : Z;
  tr_title : string;
  tr_description : string;
  tr_target_kind : option string;
  tr_steps : list json;
  tr_status : TemplateStatus;
  tr_created_by : string;
  tr_created_at : datetime;
  tr_edited_by : string;
  tr_edited_at : datetime;
}.

(** The unique index [runbook_templates_tenant_slug_version_idx]. *)
Definition tr_key (r : RunbookTemplate) : uuid * string * Z :=
  (tr_tenant_id r, tr_slug r, tr_version r).

Inductive TemplateError :=
| InvalidKbSlugError
| DuplicateDraftError
| TemplateNotFoundError
| TemplateNotDraftError
| TemplateNotPublishedError
| TemplateLimitError
| TemplateStoredStepsInvalid
| TemplateIntegrityError.

(** * Queries *)

Definition is_slug_row (tenant_id : uuid) (slug : string) (r : RunbookTemplate) : bool :=
  bool_decide (tr_tenant_id r = tenant_id) && bool_decide (tr_slug r = slug).

Definition load_draft (rows : list RunbookTemplate) (tenant_id : uuid) (slug : string)
  : option RunbookTemplate :=
  List.find (fun r => is_slug_row tenant_id slug r && bool_decide (tr_status r = tpl_draft)) rows.

Definition load_exact (rows : list RunbookTemplate) (tenant_id : uuid) (slug : string) (version : Z)
  : option RunbookTemplate :=
  List.find (fun r => is_slug_row tenant_id slug r && bool_decide (tr_version r = version)) rows.

(** [max] over a possibly empty column. *)
Definition max_version (rows : list RunbookTemplate) : option Z :=
  match rows with
  | [] => None
  | r :: rest => Some (foldr (fun x acc => Z.max (tr_version x) acc) (tr_version r) rest)
  end.

Definition resolve_latest_version (rows : list RunbookTemplate) (tenant_id : uuid) (slug : string)
  : option Z := max_version (select_where (is_slug_row tenant_id slug) rows).

(** [INSERT], refused by the unique index. *)
Definition insert_template (rows : list RunbookTemplate) (r : RunbookTemplate)
  : res TemplateError (list RunbookTemplate) :=
  if bool_decide (tr_key r ∈ tr_key <$> rows) then Raise TemplateIntegrityError else Ok (rows ++ [r]).

(** * [validate_slug] ([kb/schemas.py]) *)

Definition is_alnum_lower (c : ascii) : bool :=
  let n := nat_of_ascii c in is_lower c || ((48 <=? n) && (n <=? 57)).

Definition is_slug_char (c : ascii) : bool :=
  is_alnum_lower c || Ascii.eqb c "." || Ascii.eqb c "-".

Fixpoint last_char (c : ascii) (s : string) : ascii :=
  match s with EmptyString => c | String d s' => last_char d s' end.

Definition slug_text (s : string) : bool :=
  match s with
  | EmptyString => false
  | String c rest => is_lower c && all_chars is_slug_char rest &&
                     (bool_decide (rest = "") || is_alnum_lower (last_char c rest))
  end.

Definition validate_slug (slug : string) : bool :=
  slug_text slug || slug_text (drop_final_newline slug).

(** * Operations *)

(** The row a create or a fork inserts. *)
Definition draft_row (tenant_id : uuid) (operator_sub slug : string) (version : Z)
  (body : RunbookTemplateBody) (now : datetime) : RunbookTemplate := {|
  tr_tenant_id := tenant_id; tr_slug := slug; tr_version := version;
  tr_title := tb_title body; tr_description := tb_description body;
  tr_target_kind := tb_target_kind body; tr_steps := steps_to_storage (tb_steps body);
  tr_status := tpl_draft; tr_created_by := operator_sub; tr_created_at := now;
  tr_edited_by := operator_sub; tr_edited_at := now |}.

(** The response is the version of the draft, which is always 1. *)
Definition create_draft (rows : list RunbookTemplate) (tenant_id : uuid) (operator_sub slug : string)
  (body : RunbookTemplateBody) (now : datetime)
  : res TemplateError (list RunbookTemplate * Z) :=
  _ ← guard_or InvalidKbSlugError (validate_slug slug);
  match resolve_latest_version rows tenant_id slug with
  | Some _ => Raise DuplicateDraftError
  | None =>
      rows' ← insert_template rows (draft_row tenant_id operator_sub slug 1 body now);
      Ok (rows', 1%Z)
  end.

Definition edit_row (operator_sub : string) (body : RunbookTemplateBody) (now : datetime)
  (r : RunbookTemplate) : RunbookTemplate := {|
  tr_tenant_id := tr_tenant_id r; tr_slug := tr_slug r; tr_version := tr_version r;
  tr_title := tb_title body; tr_description := tb_description body;
  tr_target_kind := tb_target_kind body; tr_steps := steps_to_storage (tb_steps body);
  tr_status := tr_status r; tr_created_by := tr_created_by r; tr_created_at := tr_created_at r;
  tr_edited_by := operator_sub; tr_edited_at := now |}.

(** [row.steps == _steps_to_storage(body.steps)] on lists of dicts. *)
Definition body_matches (r : RunbookTemplate) (body : RunbookTemplateBody) : bool :=
  bool_decide (tr_title r = tb_title body) &&
  bool_decide (tr_description r = tb_description body) &&
  bool_decide (tr_target_kind r = tb_target_kind body) &&
  py_eq (JList (tr_steps r)) (JList (steps_to_storage (tb_steps body))).

Record ForkInfo := { fi_version : Z; fi_in_flight_run_count : nat }.

Record EditTemplateResponse := {
  er_version : Z;
  er_status : TemplateStatus;
  er_forked_from : option ForkInfo;
}.

(** [in_flight version] is the number of in-progress runs pinned to the version
    ([_count_in_flight_runs], a read of the run table). *)
Definition update_or_fork (rows : list RunbookTemplate) (in_flight : Z -> nat)
  (tenant_id : uuid) (operator_sub slug : string) (body : RunbookTemplateBody) (now : datetime)
  : res TemplateError (list RunbookTemplate * EditTemplateResponse) :=
  match load_draft rows tenant_id slug with
  | Some draft =>
      Ok (update_where (fun r => bool_decide (tr_key r = tr_key draft))
            (edit_row operator_sub body now) rows,
          {| er_version := tr_version draft; er_status := tpl_draft; er_forked_from := None |})
  | None =>
      source_version ← ok_or TemplateNotFoundError (resolve_latest_version rows tenant_id slug);
      let fork :=
        rows' ← insert_template rows
                  (draft_row tenant_id operator_sub slug (source_version + 1) body now);
        Ok (rows', {| er_version := source_version + 1; er_status := tpl_draft;
                      er_forked_from := Some {| fi_version := source_version;
                        fi_in_flight_run_count := in_flight source_version |} |}) in
      match load_exact rows tenant_id slug source_version with
      | Some source =>
          if body_matches source body then
            Ok (rows, {| er_version := source_version; er_status := tr_status source;
                         er_forked_from := None |})
          else fork
      | None => fork
      end
  end.

Definition set_status (s : TemplateStatus) (r : RunbookTemplate) : RunbookTemplate := {|
  tr_tenant_id := tr_tenant_id r; tr_slug := tr_slug r; tr_version := tr_version r;
  tr_title := tr_title r; tr_description := tr_description r; tr_target_kind := tr_target_kind r;
  tr_steps := tr_steps r; tr_status := s; tr_created_by := tr_created_by r;
  tr_created_at := tr_created_at r; tr_edited_by := tr_edited_by r; tr_edited_at := tr_edited_at r |}.

Definition write_status (rows : list RunbookTemplate) (r : RunbookTemplate) (s : TemplateStatus)
  : list RunbookTemplate :=
  update_where (fun x => bool_decide (tr_key x = tr_key r)) (set_status s) rows.

Definition publish (rows : list RunbookTemplate) (tenant_id : uuid) (slug : string) (version : Z)
  : res TemplateError (list RunbookTemplate) :=
  r ← ok_or TemplateNotFoundError (load_exact rows tenant_id slug version);
  match tr_status r with
  | tpl_published => Ok rows
  | tpl_deprecated => Raise TemplateNotDraftError
  | tpl_draft => Ok (write_status rows r tpl_published)
  end.

Definition deprecate (rows : list RunbookTemplate) (tenant_id : uuid) (slug : string) (version : Z)
  : res TemplateError (list RunbookTemplate) :=
  r ← ok_or TemplateNotFoundError (load_exact rows tenant_id slug version);
  match tr_status r with
  | tpl_deprecated => Ok rows
  | tpl_draft => Raise TemplateNotPublishedError
  | tpl_published => Ok (write_status rows r tpl_deprecated)
  end.

Definition discard (rows : list RunbookTemplate) (tenant_id : uuid) (slug : string) (version : Z)
  : res TemplateError (list RunbookTemplate) :=
  r ← ok_or TemplateNotFoundError (load_exact rows tenant_id slug version);
  match tr_status r with
  | tpl_draft => Ok (delete_where (fun x => bool_decide (tr_key x = tr_key r)) rows)
  | _ => Raise TemplateNotDraftError
  end.

(** The newest version of every slug among the rows of the tenant that pass the
    filters, newest edit first, at most [limit] of them. *)
Definition passes_filter (status : option TemplateStatus) (target_kind : option string)
  (r : RunbookTemplate) : bool :=
  match status with Some s => bool_decide (tr_status r = s) | None => true end &&
  match target_kind with Some k => bool_decide (tr_target_kind r = Some k) | None => true end.

Definition edited_desc (a b : RunbookTemplate) : Prop := (tr_edited_at b <= tr_edited_at a)%Z.
#[export] Instance edited_desc_dec a b : Decision (edited_desc a b) := Z_le_dec _ _.

Definition latest_sub (rows : list RunbookTemplate) (tenant_id : uuid)
  (status : option TemplateStatus) (target_kind : option string) : list (string * Z) :=
  let considered := select_where (fun r => bool_decide (tr_tenant_id r = tenant_id) &&
                                           passes_filter status target_kind r) rows in
  omap (fun slug => v ← max_version (select_where (fun r => bool_decide (tr_slug r = slug)) considered);
                    Some (slug, v))
    (remove_dups (tr_slug <$> considered)).

Definition list_templates (rows : list RunbookTemplate) (tenant_id : uuid)
  (status : option TemplateStatus) (target_kind : option string) (limit : Z)
  : res TemplateError (list RunbookTemplate) :=
  if (limit <? 0)%Z then Raise TemplateLimitError
  else if (limit =? 0)%Z then Ok []
  else
    let sub := latest_sub rows tenant_id status target_kind in
    let joined := select_where (fun r => bool_decide (tr_tenant_id r = tenant_id) &&
                                         bool_decide ((tr_slug r, tr_version r) ∈ sub)) rows in
    Ok (take (Z.to_nat limit) (merge_sort edited_desc joined)).

(** The shown row with its re-validated steps. *)
Definition show_template (rows : list RunbookTemplate) (tenant_id : uuid) (slug : string)
  (version : option Z) : res TemplateError (RunbookTemplate * list Step) :=
  v ← match version with
      | Some v => Ok v
      | None => ok_or TemplateNotFoundError (resolve_latest_version rows tenant_id slug)
      end;
  r ← ok_or TemplateNotFoundError (load_exact rows tenant_id slug v);
  steps ← ok_or TemplateStoredStepsInvalid (steps_from_storage (tr_steps r));
  Ok (r, steps).

(** * The store as a transition system *)

(** What Pydantic guarantees of a request body. *)
Definition body_ok (body : RunbookTemplateBody) : Prop :=
  Forall (fun s => step_wf s = true) (tb_steps body) /\ validate_template body = true.

Inductive template_step : list RunbookTemplate -> list RunbookTemplate -> Prop :=
| ts_create rows tenant_id sub slug body now rows' v :
    body_ok body -> create_draft rows tenant_id sub slug body now = Ok (rows', v) ->
    template_step rows rows'
| ts_edit rows in_flight tenant_id sub slug body now rows' resp :
    body_ok body -> update_or_fork rows in_flight tenant_id sub slug body now = Ok (rows', resp) ->
    template_step rows rows'
| ts_publish rows tenant_id slug version rows' :
    publish rows tenant_id slug version = Ok rows' -> template_step rows rows'
| ts_deprecate rows tenant_id slug version rows' :
    deprecate rows tenant_id slug version = Ok rows' -> template_step rows rows'
| ts_discard rows tenant_id slug version rows' :
    discard rows tenant_id slug version = Ok rows' -> template_step rows rows'.

Definition same_slug (a b : RunbookTemplate) : Prop :=
  tr_tenant_id a = tr_tenant_id b /\ tr_slug a = tr_slug b.

(** The versions of a slug are 1, 2, ... without gap or repetition; only the
    newest may be a draft; and the stored steps of every row are readable. *)
Record templates_inv (rows : list RunbookTemplate) : Prop := {
  ti_keys : NoDup (tr_key <$> rows);
  ti_versions : forall r, r ∈ rows -> (1 <= tr_version r)%Z /\
    forall v, (1 <= v <= tr_version r)%Z -> exists r', r' ∈ rows /\ same_slug r' r /\ tr_version r' = v;
  ti_draft_latest : forall d r, d ∈ rows -> r ∈ rows -> same_slug d r ->
    tr_status d = tpl_draft -> (tr_version r <= tr_version d)%Z;
  ti_steps : forall r, r ∈ rows -> is_Some (steps_from_storage (tr_steps r));
}.

(** ** Queries *)

Lemma is_slug_row_spec tenant slug r :
  is_slug_row tenant slug r = true <-> tr_tenant_id r = tenant /\ tr_slug r = slug.
Proof. unfold is_slug_row. by rewrite andb_true_iff, !bool_decide_eq_true. Qed.

Lemma load_exact_Some rows tenant slug v r :
  load_exact rows tenant slug v = Some r ->
  r ∈ rows /\ tr_tenant_id r = tenant /\ tr_slug r = slug /\ tr_version r = v.
Proof.
  intros [Hr Hp]%find_Some_iff. apply andb_true_iff in Hp as [Hs Hv].
  apply is_slug_row_spec in Hs as [? ?]. by apply bool_decide_eq_true in Hv.
Qed.

Lemma load_exact_elem rows r :
  NoDup (tr_key <$> rows) -> r ∈ rows ->
  load_exact rows (tr_tenant_id r) (tr_slug r) (tr_version r) = Some r.
Proof.
  intros Hnd Hr. unfold load_exact. apply (find_unique tr_key); try done.
  - intros r' Hp. apply andb_true_iff in Hp as [[Ht Hs]%is_slug_row_spec Hv%bool_decide_eq_true].
    unfold tr_key. congruence.
  - apply andb_true_iff. rewrite is_slug_row_spec, bool_decide_eq_true. done.
Qed.

Lemma load_draft_Some rows tenant slug r :
  load_draft rows tenant slug = Some r ->
  r ∈ rows /\ tr_tenant_id r = tenant /\ tr_slug r = slug /\ tr_status r = tpl_draft.
Proof.
  intros [Hr Hp]%find_Some_iff. apply andb_true_iff in Hp as [Hs Hv].
  apply is_slug_row_spec in Hs as [? ?]. by apply bool_decide_eq_true in Hv.
Qed.

Lemma load_draft_None rows tenant slug :
  load_draft rows tenant slug = None ->
  forall r, r ∈ rows -> tr_tenant_id r = tenant -> tr_slug r = slug -> tr_status r <> tpl_draft.
Proof.
  intros H r Hr Ht Hs Hd. unfold load_draft in H. rewrite find_None_iff in H. specialize (H r Hr).
  apply andb_false_iff in H as [H|H]; [|by apply bool_decide_eq_false in H].
  assert (is_slug_row tenant slug r = true) by (by apply is_slug_row_spec). congruence.
Qed.

Lemma max_version_None rows : max_version rows = None <-> rows = [].
Proof. by destruct rows. Qed.

Lemma max_version_Some rows v :
  max_version rows = Some v ->
  (exists r, r ∈ rows /\ tr_version r = v) /\ forall r, r ∈ rows -> (tr_version r <= v)%Z.
Proof.
  destruct rows as [|x rows]; [done|]. simpl. intros [= <-].
  induction rows as [|y rows [(r & Hr & Hv) IH]]; simpl.
  - split; [exists x; split; [left|done]|]. intros r ->%list_elem_of_singleton. done.
  - split.
    + destruct (Z.max_spec (tr_version y) (foldr (fun x acc => Z.max (tr_version x) acc) (tr_version x) rows))
        as [[_ ->]|[_ ->]].
      * exists r. split; [|done]. set_solver.
      * exists y. split; [set_solver|done].
    + intros z Hz. apply elem_of_cons in Hz as [->|Hz]; [specialize (IH x ltac:(left)); lia|].
      apply elem_of_cons in Hz as [->|Hz]; [lia|]. specialize (IH z ltac:(by right)). lia.
Qed.

Lemma resolve_latest_None rows tenant slug :
  resolve_latest_version rows tenant slug = None ->
  forall r, r ∈ rows -> tr_tenant_id r = tenant -> tr_slug r = slug -> False.
Proof.
  unfold resolve_latest_version. rewrite max_version_None. intros H r Hr Ht Hs.
  assert (r ∈ select_where (is_slug_row tenant slug) rows) as Hin
    by (apply elem_of_select; split; [done|by apply is_slug_row_spec]).
  rewrite H in Hin. set_solver.
Qed.

Lemma resolve_latest_Some rows tenant slug v :
  resolve_latest_version rows tenant slug = Some v ->
  (exists r, r ∈ rows /\ tr_tenant_id r = tenant /\ tr_slug r = slug /\ tr_version r = v) /\
  forall r, r ∈ rows -> tr_tenant_id r = tenant -> tr_slug r = slug -> (tr_version r <= v)%Z.
Proof.
  unfold resolve_latest_version. intros [(r & Hr & Hv) Hmax]%max_version_Some.
  apply elem_of_select in Hr as [Hr [Ht Hs]%is_slug_row_spec]. split; [eauto 6|].
  intros r' Hr' Ht' Hs'. apply Hmax, elem_of_select. split; [done|by apply is_slug_row_spec].
Qed.

(** ** Preservation *)

Lemma tr_key_eq a b : tr_key a = tr_key b <-> same_slug a b /\ tr_version a = tr_version b.
Proof. unfold tr_key, same_slug. split; [intros [= -> -> ->]; done|intros [[-> ->] ->]; done]. Qed.

Lemma one_draft rows d d' :
  templates_inv rows -> d ∈ rows -> d' ∈ rows -> same_slug d d' ->
  tr_status d = tpl_draft -> tr_status d' = tpl_draft -> d = d'.
Proof.
  intros Hinv Hd Hd' Hs Hst Hst'. eapply key_inj; [apply ti_keys, Hinv|done..|].
  apply tr_key_eq. split; [done|]. apply Z.le_antisymm.
  - apply (ti_draft_latest _ Hinv d' d); try done. by destruct Hs.
  - by apply (ti_draft_latest _ Hinv d d').
Qed.

(** A new newest version: [k] is the newest version so far (0 for none). *)
Lemma inv_append rows n k :
  templates_inv rows -> (0 <= k)%Z -> tr_version n = (k + 1)%Z ->
  is_Some (steps_from_storage (tr_steps n)) ->
  (forall r, r ∈ rows -> same_slug r n -> (tr_version r <= k)%Z /\ tr_status r <> tpl_draft) ->
  ((1 <= k)%Z -> exists r, r ∈ rows /\ same_slug r n /\ tr_version r = k) ->
  tr_key n ∉ tr_key <$> rows /\ templates_inv (rows ++ [n]).
Proof.
  intros Hinv Hk Hn Hsteps Hmax Hex.
  assert (tr_key n ∉ tr_key <$> rows) as Hfresh.
  { intros (r & Heq & Hr)%list_elem_of_fmap. symmetry in Heq. apply tr_key_eq in Heq as [Hs Hv].
    destruct (Hmax r Hr Hs). lia. }
  split; [done|]. constructor.
  - rewrite fmap_app. simpl. apply NoDup_app. split_and!; [apply Hinv| |apply NoDup_singleton].
    intros x Hx ->%list_elem_of_singleton. done.
  - intros r [Hr| ->%list_elem_of_singleton]%elem_of_app.
    + destruct (ti_versions _ Hinv r Hr) as [H1 H2]. split; [done|]. intros v Hv.
      destruct (H2 v Hv) as (r' & Hr' & ?). exists r'. split; [|done]. rewrite elem_of_app. by left.
    + split; [lia|]. intros v Hv. destruct (decide (v = k + 1)%Z) as [->|Hne].
      * exists n. split; [|done]. rewrite elem_of_app. right. left.
      * destruct Hex as (r & Hr & Hs & Hrv); [lia|].
        destruct (ti_versions _ Hinv r Hr) as [_ H2]. destruct (H2 v) as (r' & Hr' & Hs' & ?); [lia|].
        exists r'. split; [rewrite elem_of_app; by left|]. split; [|done].
        unfold same_slug in *. destruct Hs, Hs'. split; congruence.
  - intros d r Hd Hr Hs Hst.
    apply elem_of_app in Hd as [Hd| ->%list_elem_of_singleton],
      Hr as [Hr| ->%list_elem_of_singleton].
    + by apply (ti_draft_latest _ Hinv).
    + destruct (Hmax d Hd Hs). done.
    + destruct (Hmax r Hr) as [? _]; [by destruct Hs|]. lia.
    + done.
  - intros r [Hr| ->%list_elem_of_singleton]%elem_of_app; [by apply Hinv|done].
Qed.

Lemma inv_update rows d f :
  templates_inv rows -> d ∈ rows -> (forall r, tr_key (f r) = tr_key r) ->
  (tr_status (f d) = tpl_draft -> tr_status d = tpl_draft) ->
  is_Some (steps_from_storage (tr_steps (f d))) ->
  templates_inv (update_where (fun r => bool_decide (tr_key r = tr_key d)) f rows).
Proof.
  intros Hinv Hd Hf Hst Hsteps. pose proof (ti_keys _ Hinv) as Hnd.
  assert (same_slug (f d) d /\ tr_version (f d) = tr_version d) as [Hfs Hfv] by (by apply tr_key_eq).
  (* every old row has a successor of the same key *)
  assert (forall r, r ∈ rows -> exists r', r' ∈ update_where (fun r => bool_decide (tr_key r = tr_key d)) f rows /\
            tr_key r' = tr_key r) as Hsucc.
  { intros r Hr. destruct (decide (tr_key r = tr_key d)) as [E|E].
    - exists (f d). split; [by apply elem_of_update_key; [..|left]|]. by rewrite Hf, E.
    - exists r. split; [by apply elem_of_update_key; [..|right]|done]. }
  (* every new row comes from an old row of the same key *)
  assert (forall r', r' ∈ update_where (fun r => bool_decide (tr_key r = tr_key d)) f rows ->
            exists r, r ∈ rows /\ tr_key r' = tr_key r /\
              (tr_status r' = tpl_draft -> tr_status r = tpl_draft) /\
              is_Some (steps_from_storage (tr_steps r'))) as Hpred.
  { intros r' [->|[Hr' _]]%elem_of_update_key; [exists d; by rewrite Hf|exists r'|done..].
    split_and!; try done. by apply Hinv. }
  constructor.
  - by rewrite update_where_keys.
  - intros r' Hr'. destruct (Hpred _ Hr') as (r & Hr & [Hs Hv]%tr_key_eq & _). rewrite Hv.
    destruct (ti_versions _ Hinv r Hr) as [H1 H2]. split; [done|]. intros v Hv'.
    destruct (H2 v Hv') as (x & Hx & Hxs & Hxv). destruct (Hsucc x Hx) as (x' & Hx' & [Hk Hkv]%tr_key_eq).
    exists x'. split; [done|]. unfold same_slug in *. destruct Hs, Hk, Hxs. split_and!; congruence.
  - intros d' r' Hd' Hr' Hs Hdraft.
    destruct (Hpred _ Hd') as (d0 & Hd0 & [Hs1 Hv1]%tr_key_eq & Hst0 & _).
    destruct (Hpred _ Hr') as (r0 & Hr0 & [Hs2 Hv2]%tr_key_eq & _).
    rewrite Hv1, Hv2. apply (ti_draft_latest _ Hinv); auto.
    unfold same_slug in *. destruct Hs, Hs1, Hs2. split; congruence.
  - intros r' Hr'. by destruct (Hpred _ Hr') as (_ & _ & _ & _ & ?).
Qed.

Lemma inv_delete_draft rows d :
  templates_inv rows -> d ∈ rows -> tr_status d = tpl_draft ->
  templates_inv (delete_where (fun r => bool_decide (tr_key r = tr_key d)) rows).
Proof.
  intros Hinv Hd Hst. pose proof (ti_keys _ Hinv) as Hnd.
  constructor.
  - by apply NoDup_delete_where.
  - intros r [Hr Hne]%elem_of_delete_key; [|done..].
    destruct (ti_versions _ Hinv r Hr) as [H1 H2]. split; [done|]. intros v Hv.
    destruct (H2 v Hv) as (x & Hx & Hs & Hxv). exists x. split; [|done].
    apply elem_of_delete_key; [done..|]. split; [done|]. intros ->. apply Hne.
    eapply key_inj; [done..|]. apply tr_key_eq. split; [by destruct Hs|].
    pose proof (ti_draft_latest _ Hinv d r Hd Hr Hs Hst). lia.
  - intros d' r [Hd' _]%elem_of_delete_key [Hr _]%elem_of_delete_key; [|done..].
    by apply (ti_draft_latest _ Hinv).
  - intros r [Hr _]%elem_of_delete_key; [by apply Hinv|done..].
Qed.

Lemma steps_roundtrip_body body :
  body_ok body -> steps_from_storage (steps_to_storage (tb_steps body)) = Some (tb_steps body).
Proof. intros [Hwf Hv]. by apply steps_roundtrip. Qed.

Lemma body_ok_steps tenant sub slug v body now :
  body_ok body -> is_Some (steps_from_storage (tr_steps (draft_row tenant sub slug v body now))).
Proof. intros Hb. eexists. by apply steps_roundtrip_body. Qed.

(** What a create inserts, and what a fork inserts. *)
Lemma create_append rows tenant sub slug body now :
  templates_inv rows -> body_ok body -> resolve_latest_version rows tenant slug = None ->
  let n := draft_row tenant sub slug 1 body now in
  tr_key n ∉ tr_key <$> rows /\ templates_inv (rows ++ [n]).
Proof.
  intros Hinv Hb Hnone n. apply (inv_append rows n 0); try done.
  - by apply body_ok_steps.
  - intros r Hr [Ht Hs]. by destruct (resolve_latest_None _ _ _ Hnone r).
Qed.

Lemma fork_append rows tenant sub slug body now k :
  templates_inv rows -> body_ok body -> load_draft rows tenant slug = None ->
  resolve_latest_version rows tenant slug = Some k ->
  let n := draft_row tenant sub slug (k + 1) body now in
  tr_key n ∉ tr_key <$> rows /\ templates_inv (rows ++ [n]).
Proof.
  intros Hinv Hb Hd Hk n. apply resolve_latest_Some in Hk as [(r & Hr & Ht & Hs & Hv) Hmax].
  apply (inv_append rows n k); try done.
  - rewrite <- Hv. pose proof (ti_versions _ Hinv r Hr). lia.
  - by apply body_ok_steps.
  - intros r' Hr' [Ht' Hs']. split; [by apply Hmax|]. by eapply load_draft_None.
  - intros _. exists r. done.
Qed.

(** Name the membership of the row a successful [load_exact] returned. *)
Ltac loaded Hx :=
  match goal with E : load_exact _ _ _ _ = Some _ |- _ => apply load_exact_Some in E as (Hx & _) end.

Lemma template_step_inv rows rows' :
  template_step rows rows' -> templates_inv rows -> templates_inv rows'.
Proof.
  intros Hstep Hinv. destruct Hstep as
    [rows tenant sub slug body now rows' v Hb H|rows fl tenant sub slug body now rows' resp Hb H
    |rows tenant slug v rows' H|rows tenant slug v rows' H|rows tenant slug v rows' H].
  - unfold create_draft in H. invert_ok. destruct (resolve_latest_version _ _ _) eqn:Hl; [done|].
    invert_ok. unfold insert_template in *. case_bool_decide; invert_ok.
    by apply create_append.
  - unfold update_or_fork in H. destruct (load_draft rows tenant slug) as [d|] eqn:Hd.
    + invert_ok. apply load_draft_Some in Hd as (Hin & _ & _ & Hst).
      apply inv_update; try done. by apply (body_ok_steps tenant sub slug 1 body now).
    + invert_ok. assert (forall (rows' : list RunbookTemplate) (resp : EditTemplateResponse),
        (rows' ← insert_template rows (draft_row tenant sub slug (x + 1) body now);
         Ok (rows', {| er_version := x + 1; er_status := tpl_draft;
                       er_forked_from := Some {| fi_version := x; fi_in_flight_run_count := fl x |} |}))
        = Ok (rows', resp) -> templates_inv rows') as Hfork.
      { intros rows0 resp0 H1. invert_ok. unfold insert_template in *. case_bool_decide; invert_ok.
        by apply fork_append. }
      destruct (load_exact rows tenant slug x) as [src|]; [|by eapply Hfork].
      destruct (body_matches src body); [by invert_ok|by eapply Hfork].
  - unfold publish in H. invert_ok. split_matches; invert_ok.
    loaded Hx.
    apply inv_update; try done. simpl. by apply Hinv.
  - unfold deprecate in H. invert_ok. split_matches; invert_ok.
    loaded Hx.
    apply inv_update; try done. simpl. by apply Hinv.
  - unfold discard in H. invert_ok. split_matches; invert_ok.
    loaded Hx.
    by apply inv_delete_draft.
Qed.

(** ** Theorems *)

Lemma templates_inv_nil : templates_inv [].
Proof. constructor; [constructor|set_solver..]. Qed.

Lemma reachable_inv rows : rtc template_step [] rows -> templates_inv rows.
Proof.
  intros H. remember [] as start eqn:Hs.
  assert (templates_inv start) as Hinv by (subst; apply templates_inv_nil). clear Hs.
  induction H as [|rows0 rows1 rows2 Hstep _ IH]; [done|]. eapply IH, template_step_inv; eauto.
Qed.

(** In every state the store can reach, the versions of a slug are numbered
    1, 2, ... with no gap and no repetition, a slug has at most one draft, the
    draft is its newest version, and every stored step list can be read back. *)
Theorem version_discipline rows :
  rtc template_step [] rows ->
  NoDup (tr_key <$> rows) /\
  (forall r v, r ∈ rows -> (1 <= v <= tr_version r)%Z ->
     exists r', load_exact rows (tr_tenant_id r) (tr_slug r) v = Some r') /\
  (forall d d', d ∈ rows -> d' ∈ rows -> same_slug d d' ->
     tr_status d = tpl_draft -> tr_status d' = tpl_draft -> d = d') /\
  (forall d, d ∈ rows -> tr_status d = tpl_draft ->
     resolve_latest_version rows (tr_tenant_id d) (tr_slug d) = Some (tr_version d)) /\
  (forall r, r ∈ rows ->
     is_Ok (show_template rows (tr_tenant_id r) (tr_slug r) (Some (tr_version r)))).
Proof.
  intros Hinv%reachable_inv. pose proof (ti_keys _ Hinv) as Hnd. split_and!; [done|..].
  - intros r v Hr Hv. destruct (ti_versions _ Hinv r Hr) as [_ H].
    destruct (H v Hv) as (r' & Hr' & [<- <-] & <-). exists r'. by apply load_exact_elem.
  - intros d d'. by apply one_draft.
  - intros d Hd Hst. destruct (resolve_latest_version _ _ _) as [v|] eqn:Hl.
    + apply resolve_latest_Some in Hl as [(r & Hr & Ht & Hs & Hv) Hmax]. f_equal.
      apply Z.le_antisymm; [|by apply Hmax]. rewrite <- Hv. by apply (ti_draft_latest _ Hinv).
    + by destruct (resolve_latest_None _ _ _ Hl d).
  - intros r Hr. unfold show_template. simpl. rewrite load_exact_elem by done. simpl.
    destruct (ti_steps _ Hinv r Hr) as [steps ->]. by eexists.
Qed.

(** The row an operation may leave in place of [r]. *)
Definition kept_or_deprecated (r : RunbookTemplate) (rows' : list RunbookTemplate) : Prop :=
  r ∈ rows' \/ tr_status r = tpl_published /\ set_status tpl_deprecated r ∈ rows'.

Lemma write_keeps rows d r f :
  templates_inv rows -> d ∈ rows -> r ∈ rows -> tr_status d = tpl_draft -> tr_status r <> tpl_draft ->
  r ∈ update_where (fun x => bool_decide (tr_key x = tr_key d)) f rows.
Proof.
  intros Hinv Hd Hr Hst Hne. apply elem_of_update_key; [apply Hinv|done|]. right. split; [done|].
  intros Hk. apply Hne. assert (r = d) as -> by (eapply key_inj; [apply Hinv|done..]). done.
Qed.

Lemma insert_template_Ok rows n rows' : insert_template rows n = Ok rows' -> rows' = rows ++ [n].
Proof. unfold insert_template. case_bool_decide as Hk; intros H; by invert_ok. Qed.

Lemma template_step_keeps rows rows' r :
  templates_inv rows -> template_step rows rows' -> r ∈ rows -> tr_status r <> tpl_draft ->
  kept_or_deprecated r rows'.
Proof.
  intros Hinv Hstep Hr Hne. unfold kept_or_deprecated. destruct Hstep as
    [rows tenant sub slug body now rows' v Hb H|rows fl tenant sub slug body now rows' resp Hb H
    |rows tenant slug v rows' H|rows tenant slug v rows' H|rows tenant slug v rows' H].
  - unfold create_draft in H. invert_ok. split_matches. invert_ok.
    apply insert_template_Ok in H0 as ->. left. apply elem_of_app. by left.
  - unfold update_or_fork in H. destruct (load_draft rows tenant slug) as [d|] eqn:Hd; invert_ok.
    + apply load_draft_Some in Hd as (Hin & _ & _ & Hst). left. by apply write_keeps.
    + left. split_matches; invert_ok; try done;
        match goal with E : insert_template _ _ = _ |- _ => apply insert_template_Ok in E as -> end;
        apply elem_of_app; by left.
  - unfold publish in H. invert_ok. split_matches; invert_ok; left; try done.
    loaded Hx. by apply write_keeps.
  - unfold deprecate in H. invert_ok. split_matches; invert_ok; [|by left].
    loaded Hx. destruct (decide (tr_key r = tr_key x)) as [Hk|Hk].
    + assert (r = x) as -> by (eapply key_inj; [apply Hinv|done..]). right. split; [done|].
      apply elem_of_update_key; [apply Hinv|done|by left].
    + left. apply elem_of_update_key; [apply Hinv|done|by right].
  - unfold discard in H. invert_ok. split_matches; invert_ok. left.
    loaded Hx. apply elem_of_delete_key; [apply Hinv|done|].
    split; [done|]. intros ->. done.
Qed.

(** A published or deprecated version is immutable: whatever operation runs,
    its row stays exactly as it was, or a published row becomes the same row
    with status deprecated. *)
Theorem published_is_immutable rows rows' r :
  templates_inv rows -> template_step rows rows' -> r ∈ rows -> tr_status r <> tpl_draft ->
  kept_or_deprecated r rows'.
Proof. apply template_step_keeps. Qed.

Lemma insert_fresh rows n : tr_key n ∉ tr_key <$> rows -> insert_template rows n = Ok (rows ++ [n]).
Proof. intros H. unfold insert_template. by rewrite bool_decide_false. Qed.

(** A create succeeds exactly when the slug is well formed and has no row
    yet, and an edit exactly when the slug has one: the unique index on
    (tenant, slug, version) never refuses the row either of them inserts. *)
Theorem create_and_edit_succeed rows in_flight tenant sub slug body now :
  templates_inv rows -> body_ok body ->
  (is_Ok (create_draft rows tenant sub slug body now) <->
     validate_slug slug = true /\ forall r, r ∈ rows -> is_slug_row tenant slug r = false) /\
  (is_Ok (update_or_fork rows in_flight tenant sub slug body now) <->
     exists r, r ∈ rows /\ is_slug_row tenant slug r = true).
Proof.
  intros Hinv Hb. split; split.
  - intros [[rows' v] H]. unfold create_draft in H. invert_ok. split; [done|]. intros r Hr.
    split_matches. apply not_true_iff_false. intros [Ht Hs]%is_slug_row_spec.
    by eapply resolve_latest_None.
  - intros [Hv Hnone]. unfold create_draft. rewrite Hv. simpl.
    destruct (resolve_latest_version _ _ _) as [k|] eqn:Hl.
    + apply resolve_latest_Some in Hl as [(r & Hr & Ht & Hs & _) _].
      specialize (Hnone r Hr). apply not_true_iff_false in Hnone as [].
      by apply is_slug_row_spec.
    + destruct (create_append rows tenant sub slug body now Hinv Hb Hl) as [Hf _].
      rewrite insert_fresh by done. by eexists.
  - intros [[rows' resp] H]. unfold update_or_fork in H. destruct (load_draft _ _ _) as [d|] eqn:Hd.
    + apply load_draft_Some in Hd as (Hin & Ht & Hs & _). exists d. by rewrite is_slug_row_spec.
    + invert_ok. match goal with E : resolve_latest_version _ _ _ = Some _ |- _ =>
        apply resolve_latest_Some in E as [(r & Hr & Ht & Hs & _) _] end.
      exists r. by rewrite is_slug_row_spec.
  - intros (r & Hr & [Ht Hs]%is_slug_row_spec). unfold update_or_fork.
    destruct (load_draft _ _ _) as [d|] eqn:Hd; [by eexists|].
    destruct (resolve_latest_version _ _ _) as [k|] eqn:Hl; [|by destruct (resolve_latest_None _ _ _ Hl r)].
    destruct (fork_append rows tenant sub slug body now k Hinv Hb Hd Hl) as [Hf _].
    simpl. rewrite insert_fresh by done. split_matches; by eexists.
Qed.

Lemma latest_of_elem rows n :
  n ∈ rows -> (forall r, r ∈ rows -> same_slug r n -> (tr_version r <= tr_version n)%Z) ->
  resolve_latest_version rows (tr_tenant_id n) (tr_slug n) = Some (tr_version n).
Proof.
  intros Hn Hmax. destruct (resolve_latest_version _ _ _) as [v|] eqn:Hl.
  - apply resolve_latest_Some in Hl as [(r & Hr & Ht & Hs & Hv) Hle]. f_equal.
    apply Z.le_antisymm; [|by apply Hle]. rewrite <- Hv. by apply Hmax.
  - by destruct (resolve_latest_None _ _ _ Hl n).
Qed.

Lemma show_template_elem rows n steps version :
  NoDup (tr_key <$> rows) -> n ∈ rows ->
  (forall r, r ∈ rows -> same_slug r n -> (tr_version r <= tr_version n)%Z) ->
  steps_from_storage (tr_steps n) = Some steps ->
  version = None \/ version = Some (tr_version n) ->
  show_template rows (tr_tenant_id n) (tr_slug n) version = Ok (n, steps).
Proof.
  intros Hnd Hn Hmax Hsteps Hv. unfold show_template.
  assert (load_exact rows (tr_tenant_id n) (tr_slug n) (tr_version n) = Some n) as Hl
    by (by apply load_exact_elem).
  destruct Hv as [->| ->]; simpl; rewrite ?(latest_of_elem rows n) by done;
    simpl; rewrite Hl; simpl; by rewrite Hsteps.
Qed.

(** What an operator creates and publishes is what the store shows: after a
    create and a publish of the version it returned, showing the slug (with or
    without the version) returns a published row with the body's title,
    description and target kind, and exactly the steps of the body. *)
Theorem create_publish_show rows tenant sub slug body now rows1 v :
  templates_inv rows -> body_ok body ->
  create_draft rows tenant sub slug body now = Ok (rows1, v) ->
  exists rows2 r,
    publish rows1 tenant slug v = Ok rows2 /\
    show_template rows2 tenant slug None = Ok (r, tb_steps body) /\
    show_template rows2 tenant slug (Some v) = Ok (r, tb_steps body) /\
    tr_status r = tpl_published /\ tr_title r = tb_title body /\
    tr_description r = tb_description body /\ tr_target_kind r = tb_target_kind body.
Proof.
  intros Hinv Hb H. unfold create_draft in H. invert_ok.
  destruct (resolve_latest_version _ _ _) as [k|] eqn:Hl; [done|]. invert_ok.
  apply insert_template_Ok in H0 as ->.
  set (n := draft_row tenant sub slug 1 body now).
  destruct (create_append rows tenant sub slug body now Hinv Hb Hl) as [Hf Hinv1]. fold n in Hf, Hinv1.
  assert (n ∈ rows ++ [n]) as Hn by (apply elem_of_app; right; by left).
  exists (write_status (rows ++ [n]) n tpl_published), (set_status tpl_published n).
  assert (steps_from_storage (tr_steps n) = Some (tb_steps body)) as Hsteps
    by (simpl; by apply steps_roundtrip_body).
  assert (NoDup (tr_key <$> write_status (rows ++ [n]) n tpl_published)) as Hnd2.
  { unfold write_status. rewrite update_where_keys by done. apply Hinv1. }
  assert (set_status tpl_published n ∈ write_status (rows ++ [n]) n tpl_published) as Hn2.
  { apply elem_of_update_key; [apply Hinv1|done|by left]. }
  assert (forall r, r ∈ write_status (rows ++ [n]) n tpl_published ->
            same_slug r (set_status tpl_published n) -> (tr_version r <= 1)%Z) as Hmax.
  { intros r [->|[[Hr| ->%list_elem_of_singleton]%elem_of_app Hk]]%elem_of_update_key [Ht Hs];
      [done| |done|apply Hinv1|done]. by destruct (resolve_latest_None _ _ _ Hl r). }
  split_and!; try done.
  - unfold publish. pose proof (load_exact_elem (rows ++ [n]) n (ti_keys _ Hinv1) Hn) as E.
    cbn in E. by rewrite E.
  - apply (show_template_elem _ (set_status tpl_published n) _ None); auto.
  - apply (show_template_elem _ (set_status tpl_published n) _ (Some 1%Z)); auto.
Qed.

(** The newest row of its slug among the tenant's rows that pass the filters. *)
Definition newest_matching (rows : list RunbookTemplate) (tenant : uuid)
  (status : option TemplateStatus) (kind : option string) (r : RunbookTemplate) : Prop :=
  r ∈ rows /\ tr_tenant_id r = tenant /\ passes_filter status kind r = true /\
  forall r', r' ∈ rows -> same_slug r' r -> passes_filter status kind r' = true ->
             (tr_version r' <= tr_version r)%Z.

Lemma latest_sub_spec rows tenant status kind slug v :
  (slug, v) ∈ latest_sub rows tenant status kind <->
  exists r, newest_matching rows tenant status kind r /\ tr_slug r = slug /\ tr_version r = v.
Proof.
  unfold latest_sub. set (considered := select_where _ rows).
  assert (forall r, r ∈ considered <->
            r ∈ rows /\ tr_tenant_id r = tenant /\ passes_filter status kind r = true) as Hc.
  { intros r. unfold considered. by rewrite elem_of_select, andb_true_iff, bool_decide_eq_true. }
  assert (forall s r, r ∈ select_where (fun r => bool_decide (tr_slug r = s)) considered <->
            r ∈ considered /\ tr_slug r = s) as Hs.
  { intros s r. by rewrite elem_of_select, bool_decide_eq_true. }
  rewrite list_elem_of_omap. split.
  - intros (s & _ & Hmax). destruct (max_version _) as [m|] eqn:Hm; [|done]. injection Hmax as -> ->.
    apply max_version_Some in Hm as [(r & [Hr Hrs]%Hs & Hrv) Hle]. apply Hc in Hr as (Hr & Ht & Hp).
    exists r. split; [|done]. split_and!; try done. intros r' Hr' [Ht' Hs'] Hp'. rewrite Hrv.
    apply Hle, Hs. split; [apply Hc|]; split_and?; congruence.
  - intros (r & (Hr & Ht & Hp & Hmax) & <- & <-). exists (tr_slug r).
    assert (r ∈ considered) as Hrc by (by apply Hc). split.
    { rewrite elem_of_remove_dups. by apply list_elem_of_fmap_2. }
    destruct (max_version _) as [m|] eqn:Hm.
    + apply max_version_Some in Hm as [(x & [[Hx [Hxt Hxp]]%Hc Hxs]%Hs & <-) Hle]. simpl.
      do 2 f_equal. apply Z.le_antisymm; [|by apply Hle, Hs].
      apply Hmax; [done|by split; congruence|done].
    + apply max_version_None in Hm. assert (r ∈ ([] : list RunbookTemplate)) as Hr0
        by (rewrite <- Hm; by apply Hs). set_solver.
Qed.

Lemma edited_desc_total : Total edited_desc.
Proof. intros a b. unfold edited_desc. lia. Qed.
Lemma edited_desc_trans : Transitive edited_desc.
Proof. intros a b c. unfold edited_desc. lia. Qed.

(** A listing holds no more than [limit] rows, newest edit first, each of
    them the newest matching version of its slug; and when the limit is not
    reached it holds every such row. *)
Theorem list_templates_spec rows tenant status kind limit out :
  templates_inv rows -> list_templates rows tenant status kind limit = Ok out ->
  (length out <= Z.to_nat limit)%nat /\ StronglySorted edited_desc out /\
  (forall r, r ∈ out -> newest_matching rows tenant status kind r) /\
  ((length out < Z.to_nat limit)%nat ->
     forall r, newest_matching rows tenant status kind r -> r ∈ out).
Proof.
  intros Hinv H. unfold list_templates in H.
  destruct (limit <? 0)%Z eqn:H0; [done|]. destruct (limit =? 0)%Z eqn:H1; [|].
  { invert_ok. apply Z.eqb_eq in H1 as ->. split_and!; [done|constructor|set_solver|simpl; lia]. }
  injection H as <-. set (joined := select_where _ rows).
  assert (forall r, r ∈ joined <-> newest_matching rows tenant status kind r) as Hj.
  { intros r. unfold joined. rewrite elem_of_select, andb_true_iff, !bool_decide_eq_true,
      latest_sub_spec. split; [|intros Hn; pose proof Hn as (? & ? & _); eauto 10].
    intros (Hr & Ht & (x & (Hx & Hxt & Hxp & Hxm) & Hxs & Hxv)).
    assert (x = r) as ->; [|done]. eapply key_inj; [apply Hinv|done..|].
    apply tr_key_eq. by split; [split; congruence|]. }
  set (sorted := merge_sort edited_desc joined).
  assert (sorted ≡ₚ joined) as Hp by apply merge_sort_Permutation.
  assert (StronglySorted edited_desc sorted) as Hs.
  { apply StronglySorted_merge_sort; [apply edited_desc_trans|apply edited_desc_total]. }
  rewrite length_take. split_and!; [lia| | |].
  - rewrite <- (take_drop (Z.to_nat limit) sorted) in Hs. by apply StronglySorted_app_1_l in Hs.
  - intros r Hr. apply Hj. rewrite <- Hp. apply elem_of_take in Hr as (i & Hi & _).
    by eapply list_elem_of_lookup_2.
  - intros Hlt r Hr. rewrite take_ge by lia. rewrite Hp. by apply Hj.
Qed.

(** ** Instances of the theorems *)

Section TemplateExamples.
Let body := {| tb_title := "Restart"; tb_description := "d"; tb_target_kind := None;
               tb_steps := [ManualStep "check" "Check" "Look at it" (ConfirmVerify "Done?")] |}.
Let body2 := {| tb_title := "Restart twice"; tb_description := "d"; tb_target_kind := Some "vm";
                tb_steps := tb_steps body |}.
Let draft := draft_row "t1" "alice" "restart" 1 body 10.
Let published := set_status tpl_published draft.
Let fork := draft_row "t1" "alice" "restart" 2 body2 20.

Lemma example_body_ok : body_ok body /\ body_ok body2.
Proof. split; (split; [repeat constructor; vm_compute; reflexivity|vm_compute; reflexivity]). Qed.

Lemma example_reachable : rtc template_step [] [published; fork].
Proof.
  destruct example_body_ok as [H1 H2].
  eapply rtc_l; [by apply (ts_create [] "t1" "alice" "restart" body 10 [draft] 1)|].
  eapply rtc_l; [by apply (ts_publish [draft] "t1" "restart" 1 [published])|].
  eapply rtc_once, (ts_edit [published] (fun _ => 0) "t1" "alice" "restart" body2 20 _ _ H2).
  vm_compute. reflexivity.
Qed.

Lemma version_discipline_witness :
  load_exact [published; fork] "t1" "restart" 1 = Some published /\
  resolve_latest_version [published; fork] "t1" "restart" = Some 2%Z /\
  NoDup (tr_key <$> [published; fork]).
Proof.
  split_and!; [reflexivity| |exact (proj1 (version_discipline _ example_reachable))].
  apply (proj1 (proj2 (proj2 (proj2 (version_discipline _ example_reachable)))) fork);
    [right; left|reflexivity].
Defined.

Lemma published_is_immutable_witness :
  kept_or_deprecated published [set_status tpl_deprecated published; fork].
Proof.
  apply (published_is_immutable [published; fork]).
  - exact (reachable_inv _ example_reachable).
  - apply (ts_deprecate _ "t1" "restart" 1). vm_compute. reflexivity.
  - left.
  - discriminate.
Defined.

Lemma create_and_edit_succeed_witness :
  is_Ok (create_draft [published; fork] "t1" "bob" "reboot" body 30) /\
  is_Ok (update_or_fork [published; fork] (fun _ => 0) "t1" "bob" "restart" body 30).
Proof.
  pose proof (reachable_inv _ example_reachable) as Hinv.
  split.
  - apply (create_and_edit_succeed _ (fun _ => 0) "t1" "bob" "reboot" body 30 Hinv
             (proj1 example_body_ok)).
    split; [vm_compute; reflexivity|]. by intros r [->|[->|[]%not_elem_of_nil]%elem_of_cons]%elem_of_cons.
  - apply (create_and_edit_succeed _ (fun _ => 0) "t1" "bob" "restart" body 30 Hinv
             (proj1 example_body_ok)).
    exists published. split; [left|reflexivity].
Defined.

Lemma create_publish_show_witness : exists rows2 r,
  publish [draft] "t1" "restart" 1 = Ok rows2 /\
  show_template rows2 "t1" "restart" None = Ok (r, tb_steps body) /\
  show_template rows2 "t1" "restart" (Some 1%Z) = Ok (r, tb_steps body) /\
  tr_status r = tpl_published /\ tr_title r = "Restart" /\
  tr_description r = "d" /\ tr_target_kind r = None.
Proof.
  apply (create_publish_show [] "t1" "alice" "restart" body 10 [draft] 1).
  - exact templates_inv_nil.
  - exact (proj1 example_body_ok).
  - vm_compute. reflexivity.
Defined.

Lemma list_templates_spec_witness :
  newest_matching [published; fork] "t1" (Some tpl_published) None published.
Proof.
  apply (list_templates_spec [published; fork] "t1" (Some tpl_published) None 5 [published]).
  - exact (reachable_inv _ example_reachable).
  - vm_compute. reflexivity.
  - left.
Defined.
End TemplateExamples.
