(* ===== verification/RunbookRuns.v ===== *)
(** Runbook runs ([runbooks/run_service.py], [RunbookRunService]): start, advance,
    abort, reassign and read, over the tables [runbook_runs],
    [runbook_run_step_states] and [audit_log].

    A method is a transaction ([txn]) on the database of this file.  [next_step]
    has two database sessions with the dispatch of the verify call between them;
    the dispatch is a parameter that may change the database, so every
    interleaving with the other methods is an instance of it. *)

From S2P Require Import Prelude Json Identity Catalog Substitution RunbookSchemas RunbookEngine RunbookTemplates.

(** * Rows *)

Inductive RunState := run_in_progress | run_completed | run_abandoned.
#[export] Instance RunState_eq_dec : EqDecision RunState.
Proof. solve_decision. Defined.

Record RunbookRun := {
  rr_run_id : uuid;
  rr_tenant_id : uuid;
  rr_template_slug : string;
  rr_template_version : Z;
  rr_assigned_to : string;
  rr_target : string;
  rr_params : dict;
  rr_state : RunState;
  rr_work_ref : option string;
  rr_started_by : string;
  rr_started_at : datetime;
  rr_completed_at : option datetime;
  rr_abandoned_at : option datetime;
}.

Record RunbookRunStepState := {
  ss_run_id : uuid;
  ss_step_id : string;
  ss_state : StepState;
  ss_started_at : option datetime;
  ss_verified_at : option datetime;
  ss_verify_response : option json;
}.

(** The primary key of a step-state row. *)
Definition ss_key (s : RunbookRunStepState) : uuid * string := (ss_run_id s, ss_step_id s).

(** The audit row of an abort.  The duration is in hundredths of a millisecond,
    the precision the code rounds it to. *)
Record AuditLog := {
  al_id : uuid;
  al_occurred_at : datetime;
  al_operator_sub : string;
  al_tenant_id : uuid;
  al_method : string;
  al_path : string;
  al_status_code : Z;
  al_duration_ms : Z;
  al_payload : json;
  al_raw_payload : json;
  al_run_id : option uuid;
  al_step_id : option string;
  al_work_ref : option string;
}.

(** What the run service reads and writes. *)
Record RunsDb := {
  db_templates : list RunbookTemplate;
  db_descriptors : list EndpointDescriptor;
  db_settings : list TenantOperationSetting;
  db_runs : list RunbookRun;
  db_states : list RunbookRunStepState;
  db_audit : list AuditLog;
}.

Inductive RunError :=
| RunNotFoundError
| NotRunAssigneeError
| RunAlreadyTerminalError
| PreviousStepFailedError
| MissingParamsError (names : list string)
| RunTemplateNotFoundError
| DeprecatedTemplateError
| RunStoredStepsInvalid
| RunIndexError
| RunKeyError (key : string)
| RunNoCurrentStep
| RunAssertionError
| RunLimitError
| RunIntegrityError
| RunEngineError (e : EngineError)
| DispatchError (e : string).

Abbreviation run_txn := (txn RunsDb RunError).

(** * Requests and responses *)

Record StartRunRequest := {
  sr_template_slug : string;
  sr_target : string;
  sr_params : dict;
  sr_work_ref : option string;
}.

(** [StepPosition]: step [n] of [total]. *)
Record StepPosition := { pos_n : nat; pos_total : nat }.

Record CurrentStepResponse := {
  cs_run_id : uuid;
  cs_template_slug : string;
  cs_template_version : Z;
  cs_position : StepPosition;
  cs_current_step : StepBody;
}.

Record RunCompletedResponse := { rc_run_id : uuid; rc_completed_at : datetime }.
Record AbortRunResponse := { ar_run_id : uuid; ar_abandoned_at : datetime }.
Record ReassignRunResponse := {
  rs_run_id : uuid; rs_assigned_to : string; rs_reassigned_at : datetime }.

Inductive NextStepResponse :=
| next_current (r : CurrentStepResponse)
| next_completed (r : RunCompletedResponse).

Inductive CurrentStepView :=
| view_current (r : CurrentStepResponse)
| view_completed (r : RunCompletedResponse)
| view_aborted (r : AbortRunResponse).

Record ListRunsFilter := {
  lf_assignee : option string;
  lf_status : option RunState;
  lf_template_slug : option string;
  lf_work_ref : option string;
}.

Inductive CurrentStepState := cur_in_progress | cur_failed.

Record RunSummary := {
  su_run : RunbookRun;
  su_current_step_id : option string;
  su_current_step_state : option CurrentStepState;
  su_position : option StepPosition;
}.

(** * Module helpers *)

Definition version_desc (a b : RunbookTemplate) : Prop := (tr_version b <= tr_version a)%Z.
#[export] Instance version_desc_dec a b : Decision (version_desc a b) := Z_le_dec _ _.

Definition has_status (s : TemplateStatus) (r : RunbookTemplate) : bool := bool_decide (tr_status r = s).

Definition load_published_or_raise (templates : list RunbookTemplate) (tenant_id : uuid)
  (slug : string) : res RunError RunbookTemplate :=
  let rows := merge_sort version_desc (select_where (is_slug_row tenant_id slug) templates) in
  match rows with
  | [] => Raise RunTemplateNotFoundError
  | _ =>
      match List.filter (has_status tpl_published) rows with
      | r :: _ => Ok r
      | [] =>
          if existsb (has_status tpl_deprecated) rows && negb (existsb (has_status tpl_draft) rows)
          then Raise DeprecatedTemplateError
          else Raise RunTemplateNotFoundError
      end
  end.

Definition template_body_from_row (row : RunbookTemplate) : res RunError RunbookTemplateBody :=
  steps ← ok_or RunStoredStepsInvalid (steps_from_storage (tr_steps row));
  Ok {| tb_title := tr_title row; tb_description := tr_description row;
        tb_target_kind := tr_target_kind row; tb_steps := steps |}.

(** [None]: there is no such row. *)
Definition load_pinned_template_or_none (templates : list RunbookTemplate) (tenant_id : uuid)
  (slug : string) (version : Z) : res RunError (option RunbookTemplateBody) :=
  match load_exact templates tenant_id slug version with
  | None => Ok None
  | Some row => b ← template_body_from_row row; Ok (Some b)
  end.

(** [_load_step_states]: the step rows of the run; the dict is keyed by step id,
    which is unique within a run. *)
Definition load_step_states (db : RunsDb) (run_id : uuid) : list RunbookRunStepState :=
  select_where (fun s => bool_decide (ss_run_id s = run_id)) (db_states db).

(** [step_states[step_id]]. *)
Definition get_step_state (states : list RunbookRunStepState) (step_id : string)
  : res RunError RunbookRunStepState :=
  ok_or (RunKeyError step_id) (List.find (fun s => bool_decide (ss_step_id s = step_id)) states).

Definition service_find_step (t : RunbookTemplateBody) (id : string) : res RunError Step :=
  ok_or (RunKeyError id) (List.find (fun s => bool_decide (step_id s = id)) (tb_steps t)).

Fixpoint index_of_step (steps : list Step) (id : string) : option nat :=
  match steps with
  | [] => None
  | s :: rest => if bool_decide (step_id s = id) then Some 0 else S <$> index_of_step rest id
  end.

Definition position_from_step_id (steps : list Step) (id : option string) : option StepPosition :=
  i ← id; n ← index_of_step steps i; Some {| pos_n := n + 1; pos_total := length steps |}.

Definition position_for_step (t : RunbookTemplateBody) (id : string) : res RunError StepPosition :=
  ok_or (RunKeyError id) (position_from_step_id (tb_steps t) (Some id)).

Definition answer_text (a : Answer) : string :=
  match a with ans_yes => "yes" | ans_no => "no" | ans_escalate => "escalate" end.

Definition verify_response_to_storage (r : option VerifyResponse) : option json :=
  match r with
  | None => None
  | Some (ConfirmVerifyResponse a) =>
      Some (JDict [("type", JStr "confirm"); ("answer", JStr (answer_text a))])
  | Some (OperationCallVerifyResponse m actual) =>
      Some (JDict [("type", JStr "operation_call"); ("matched", JBool m); ("actual", JDict actual)])
  end.

Definition build_operator_for_dispatch (sub : string) (tenant_id : uuid) : Operator := {|
  op_sub := sub; op_tenant_id := tenant_id; op_tenant_role := OPERATOR;
  op_principal_kind := USER; op_client_id := None; op_platform_admin := false;
  op_web_session := false; op_name := None; op_approver := false; op_self_approver := false;
  op_tenant_chosen := true; op_auth_time := None; op_sid := None; op_acr := None; op_azp := None |}.

Definition lift_engine {A} (r : res EngineError A) : res RunError A :=
  match r with Ok a => Ok a | Raise e => Raise (RunEngineError e) end.

(** * Service helpers *)

Definition load_run_or_raise (db : RunsDb) (tenant_id run_id : uuid) : res RunError RunbookRun :=
  ok_or RunNotFoundError
    (List.find (fun r => bool_decide (rr_tenant_id r = tenant_id) &&
                         bool_decide (rr_run_id r = run_id)) (db_runs db)).

Definition require_run_assignee (db : RunsDb) (tenant_id run_id : uuid) (caller_sub : string)
  : res RunError RunbookRun :=
  run ← load_run_or_raise db tenant_id run_id;
  _ ← guard_or NotRunAssigneeError (bool_decide (rr_assigned_to run = caller_sub));
  Ok run.

Definition is_terminal (s : RunState) : bool :=
  match s with run_in_progress => false | run_completed | run_abandoned => true end.

Definition refuse_if_terminal (run : RunbookRun) : res RunError unit :=
  guard_or RunAlreadyTerminalError (negb (is_terminal (rr_state run))).

Definition load_pinned_template_body (db : RunsDb) (run : RunbookRun)
  : res RunError RunbookTemplateBody :=
  pinned ← load_pinned_template_or_none (db_templates db) (rr_tenant_id run)
             (rr_template_slug run) (rr_template_version run);
  ok_or RunTemplateNotFoundError pinned.

(** The first step in progress, else the first failed one. *)
Definition current_step_id_or_none (states : list RunbookRunStepState) : option string :=
  let first st := ss_step_id <$> List.find (fun s => bool_decide (ss_state s = st)) states in
  match first step_in_progress with Some i => Some i | None => first step_failed end.

Definition current_step_id_or_raise (states : list RunbookRunStepState) : res RunError string :=
  ok_or RunNoCurrentStep (current_step_id_or_none states).

(** * Operations *)

Definition set_runs (f : list RunbookRun -> list RunbookRun) (db : RunsDb) : RunsDb := {|
  db_templates := db_templates db; db_descriptors := db_descriptors db; db_settings := db_settings db;
  db_runs := f (db_runs db); db_states := db_states db; db_audit := db_audit db |}.
Definition set_states (f : list RunbookRunStepState -> list RunbookRunStepState) (db : RunsDb) : RunsDb := {|
  db_templates := db_templates db; db_descriptors := db_descriptors db; db_settings := db_settings db;
  db_runs := db_runs db; db_states := f (db_states db); db_audit := db_audit db |}.
Definition add_audit (row : AuditLog) (db : RunsDb) : RunsDb := {|
  db_templates := db_templates db; db_descriptors := db_descriptors db; db_settings := db_settings db;
  db_runs := db_runs db; db_states := db_states db; db_audit := db_audit db ++ [row] |}.
Definition set_templates (t : list RunbookTemplate) (db : RunsDb) : RunsDb := {|
  db_templates := t; db_descriptors := db_descriptors db; db_settings := db_settings db;
  db_runs := db_runs db; db_states := db_states db; db_audit := db_audit db |}.

(** [UPDATE] of one run and of one step row by primary key. *)
Definition update_run (run_id : uuid) (f : RunbookRun -> RunbookRun) : RunsDb -> RunsDb :=
  set_runs (update_where (fun r => bool_decide (rr_run_id r = run_id)) f).
Definition update_state (key : uuid * string) (f : RunbookRunStepState -> RunbookRunStepState)
  : RunsDb -> RunsDb :=
  set_states (update_where (fun s => bool_decide (ss_key s = key)) f).

(** ** [start_run] *)

Definition new_run (tenant_id : uuid) (operator_sub : string) (rq : StartRunRequest)
  (row : RunbookTemplate) (run_id : uuid) (now : datetime) : RunbookRun := {|
  rr_run_id := run_id; rr_tenant_id := tenant_id; rr_template_slug := tr_slug row;
  rr_template_version := tr_version row; rr_assigned_to := operator_sub;
  rr_target := sr_target rq; rr_params := sr_params rq; rr_state := run_in_progress;
  rr_work_ref := sr_work_ref rq; rr_started_by := operator_sub; rr_started_at := now;
  rr_completed_at := None; rr_abandoned_at := None |}.

Definition new_state (run_id : uuid) (now : datetime) (index : nat) (s : Step) : RunbookRunStepState := {|
  ss_run_id := run_id; ss_step_id := step_id s;
  ss_state := match index with 0 => step_in_progress | _ => step_pending end;
  ss_started_at := match index with 0 => Some now | _ => None end;
  ss_verified_at := None; ss_verify_response := None |}.

Definition lift_missing (r : res (list string) unit) : res RunError unit :=
  match r with Ok u => Ok u | Raise names => Raise (MissingParamsError names) end.

(** [run_id] is the value of [uuid.uuid4()]; the primary keys of the two tables
    refuse a run id or a step row that exists. *)
Definition start_run (tenant_id : uuid) (operator_sub : string) (rq : StartRunRequest)
  (run_id : uuid) (now : datetime) : run_txn CurrentStepResponse :=
  row ← read_db (fun db => load_published_or_raise (db_templates db) tenant_id (sr_template_slug rq));
  body ← lift_res (template_body_from_row row);
  let steps := tb_steps body in
  _ ← lift_res (lift_missing (validate_params_against_template body (sr_params rq)));
  first_step ← lift_res (ok_or RunIndexError (head steps));
  let states := imap (new_state run_id now) steps in
  _ ← read_db (fun db => guard_or RunIntegrityError
         (bool_decide (run_id ∉ rr_run_id <$> db_runs db) &&
          bool_decide (Forall (fun s => ss_key s ∉ ss_key <$> db_states db) states)));
  _ ← commit (fun db => set_states (fun l => l ++ states)
                (set_runs (fun l => l ++ [new_run tenant_id operator_sub rq row run_id now]) db));
  step ← lift_res (lift_engine
           (current_step_body body (step_id first_step) (sr_target rq) (sr_params rq)));
  mret {| cs_run_id := run_id; cs_template_slug := tr_slug row; cs_template_version := tr_version row;
          cs_position := {| pos_n := 1; pos_total := length steps |}; cs_current_step := step |}.

(** ** [next_step] *)

Record NextStepInputs := {
  ni_run : RunbookRun;
  ni_template_body : RunbookTemplateBody;
  ni_current_step : Step;
  ni_current_step_id : string;
  ni_current_state : StepState;
  ni_run_target : string;
  ni_run_params : dict;
}.

(** Phase A, read only. *)
Definition load_next_step_inputs (tenant_id : uuid) (operator_sub : string) (run_id : uuid)
  (db : RunsDb) : res RunError NextStepInputs :=
  run ← require_run_assignee db tenant_id run_id operator_sub;
  _ ← refuse_if_terminal run;
  body ← load_pinned_template_body db run;
  let states := load_step_states db run_id in
  current ← current_step_id_or_raise states;
  row ← get_step_state states current;
  _ ← guard_or PreviousStepFailedError (negb (bool_decide (ss_state row = step_failed)));
  step ← service_find_step body current;
  Ok {| ni_run := run; ni_template_body := body; ni_current_step := step;
        ni_current_step_id := current; ni_current_state := ss_state row;
        ni_run_target := rr_target run; ni_run_params := rr_params run |}.

(** Tenant rows before built-in ones. *)
Definition resolve_connector_id_for_op (tenant_id : uuid) (op_id : string) (db : RunsDb)
  : res RunError string :=
  let candidates := select_where (fun d =>
        bool_decide (k_op_id (ed_key d) = op_id) &&
        enabled_for_tenant (db_settings db) (Some tenant_id) d &&
        (bool_decide (ed_tenant_id d = Some tenant_id) || bool_decide (ed_tenant_id d = None)))
        (db_descriptors db) in
  let pick := match List.find (fun d => negb (bool_decide (ed_tenant_id d = None))) candidates with
              | Some d => Some d
              | None => head candidates
              end in
  d ← ok_or RunTemplateNotFoundError pick;
  Ok (format_connector_id (k_impl_id (ed_key d)) (k_version (ed_key d))).

(** What the dispatcher is given: the operator, the call's arguments, and the
    context variables bound around the call. *)
Record CallArguments := {
  ca_connector_id : string;
  ca_op_id : string;
  ca_target : string;
  ca_params : dict;
}.
Record CallContext := { cc_run_id : uuid; cc_step_id : string; cc_work_ref : option string }.

(** [call_operation] of the dispatcher: it returns the call's result dict or
    raises, and any other request may change the database meanwhile. *)
Definition Dispatcher := Operator -> CallContext -> CallArguments -> run_txn dict.

Definition resolve_verify_response (call_operation : Dispatcher) (run : RunbookRun)
  (current_step : Step) (request_verify : option VerifyResponse)
  : run_txn (option VerifyResponse) :=
  match step_verify current_step with
  | ConfirmVerify _ => mret request_verify
  | OperationCallVerify op_id vparams _ =>
      op ← lift_res (lift_engine (resolve_str (rr_target run) (rr_params run) op_id));
      params ← lift_res (lift_engine (resolve_dict (rr_target run) (rr_params run) vparams));
      connector_id ← read_db (resolve_connector_id_for_op (rr_tenant_id run) op);
      result ← call_operation
        (build_operator_for_dispatch (rr_assigned_to run) (rr_tenant_id run))
        {| cc_run_id := rr_run_id run; cc_step_id := step_id current_step;
           cc_work_ref := rr_work_ref run |}
        {| ca_connector_id := connector_id; ca_op_id := op; ca_target := rr_target run;
           ca_params := params |};
      let actual := match dict_get "result" result with
                    | None => []
                    | Some (JDict d) => d
                    | Some v => [("result", v)]
                    end in
      mret (Some (OperationCallVerifyResponse false actual))
  end.

Definition mark_failed (resp : option json) (s : RunbookRunStepState) : RunbookRunStepState := {|
  ss_run_id := ss_run_id s; ss_step_id := ss_step_id s; ss_state := step_failed;
  ss_started_at := ss_started_at s; ss_verified_at := ss_verified_at s; ss_verify_response := resp |}.
Definition mark_verified (now : datetime) (resp : option json) (s : RunbookRunStepState)
  : RunbookRunStepState := {|
  ss_run_id := ss_run_id s; ss_step_id := ss_step_id s; ss_state := step_verified;
  ss_started_at := ss_started_at s; ss_verified_at := Some now; ss_verify_response := resp |}.
Definition mark_in_progress (now : datetime) (s : RunbookRunStepState) : RunbookRunStepState := {|
  ss_run_id := ss_run_id s; ss_step_id := ss_step_id s; ss_state := step_in_progress;
  ss_started_at := Some now; ss_verified_at := ss_verified_at s;
  ss_verify_response := ss_verify_response s |}.
Definition mark_completed (at_ : datetime) (r : RunbookRun) : RunbookRun := {|
  rr_run_id := rr_run_id r; rr_tenant_id := rr_tenant_id r; rr_template_slug := rr_template_slug r;
  rr_template_version := rr_template_version r; rr_assigned_to := rr_assigned_to r;
  rr_target := rr_target r; rr_params := rr_params r; rr_state := run_completed;
  rr_work_ref := rr_work_ref r; rr_started_by := rr_started_by r; rr_started_at := rr_started_at r;
  rr_completed_at := Some at_; rr_abandoned_at := rr_abandoned_at r |}.

(** The failed branch commits and then raises. *)
Definition apply_outcome (run : RunbookRun) (body : RunbookTemplateBody)
  (states : list RunbookRunStepState) (current_step_id : string) (o : AdvanceOutcome)
  (now : datetime) : run_txn NextStepResponse :=
  _ ← lift_res (get_step_state states current_step_id);
  let key := (rr_run_id run, current_step_id) in
  let resp := verify_response_to_storage (ao_verify_response_persisted o) in
  match ao_kind o with
  | out_failed =>
      _ ← commit (update_state key (mark_failed resp));
      lift_res (Raise PreviousStepFailedError)
  | out_completed =>
      let at_ := default now (ao_completed_at o) in
      _ ← commit (fun db => update_run (rr_run_id run) (mark_completed at_)
                    (update_state key (mark_verified now resp) db));
      mret (next_completed {| rc_run_id := rr_run_id run; rc_completed_at := at_ |})
  | out_next_step =>
      next ← lift_res (ok_or RunAssertionError (ao_next_step_body o));
      _ ← lift_res (get_step_state states (sb_id next));
      _ ← commit (fun db => update_state (rr_run_id run, sb_id next) (mark_in_progress now)
                    (update_state key (mark_verified now resp) db));
      position ← lift_res (position_for_step body (sb_id next));
      mret (next_current {| cs_run_id := rr_run_id run; cs_template_slug := rr_template_slug run;
              cs_template_version := rr_template_version run; cs_position := position;
              cs_current_step := next |})
  end.

(** Phase C. *)
Definition write_next_step_outcome (tenant_id : uuid) (operator_sub : string) (run_id : uuid)
  (inputs : NextStepInputs) (verify_response : option VerifyResponse) (now : datetime)
  : run_txn NextStepResponse :=
  run ← read_db (fun db => require_run_assignee db tenant_id run_id operator_sub);
  _ ← lift_res (refuse_if_terminal run);
  states ← read_db (fun db => Ok (load_step_states db run_id));
  row ← lift_res (get_step_state states (ni_current_step_id inputs));
  _ ← lift_res (guard_or PreviousStepFailedError (negb (bool_decide (ss_state row = step_failed))));
  outcome ← lift_res (lift_engine (advance (ni_template_body inputs) (ni_current_step_id inputs)
              (ni_current_state inputs) (ni_run_target inputs) (ni_run_params inputs)
              verify_response (Some now)));
  apply_outcome run (ni_template_body inputs) states (ni_current_step_id inputs) outcome now.

Definition next_step_run (call_operation : Dispatcher) (tenant_id : uuid) (operator_sub : string)
  (run_id : uuid) (request_verify : option VerifyResponse) (now : datetime)
  : run_txn NextStepResponse :=
  inputs ← read_db (load_next_step_inputs tenant_id operator_sub run_id);
  verify_response ← resolve_verify_response call_operation (ni_run inputs)
                      (ni_current_step inputs) request_verify;
  write_next_step_outcome tenant_id operator_sub run_id inputs verify_response now.

(** ** [abort_run], [reassign_run] *)

Definition mark_abandoned (now : datetime) (r : RunbookRun) : RunbookRun := {|
  rr_run_id := rr_run_id r; rr_tenant_id := rr_tenant_id r; rr_template_slug := rr_template_slug r;
  rr_template_version := rr_template_version r; rr_assigned_to := rr_assigned_to r;
  rr_target := rr_target r; rr_params := rr_params r; rr_state := run_abandoned;
  rr_work_ref := rr_work_ref r; rr_started_by := rr_started_by r; rr_started_at := rr_started_at r;
  rr_completed_at := rr_completed_at r; rr_abandoned_at := Some now |}.

Definition set_assignee (sub : string) (r : RunbookRun) : RunbookRun := {|
  rr_run_id := rr_run_id r; rr_tenant_id := rr_tenant_id r; rr_template_slug := rr_template_slug r;
  rr_template_version := rr_template_version r; rr_assigned_to := sub;
  rr_target := rr_target r; rr_params := rr_params r; rr_state := rr_state r;
  rr_work_ref := rr_work_ref r; rr_started_by := rr_started_by r; rr_started_at := rr_started_at r;
  rr_completed_at := rr_completed_at r; rr_abandoned_at := rr_abandoned_at r |}.

Definition build_abort_audit_row (tenant_id : uuid) (operator_sub : string) (run_id : uuid)
  (step_id_at_abort : option string) (work_ref : option string) (reason : string)
  (duration_ms : Z) (id : uuid) (occurred_at : datetime) : AuditLog := {|
  al_id := id; al_occurred_at := occurred_at; al_operator_sub := operator_sub;
  al_tenant_id := tenant_id; al_method := "DISPATCH"; al_path := "runbook.abort";
  al_status_code := 200; al_duration_ms := duration_ms;
  al_payload := JDict ([("op_id", JStr "runbook.abort"); ("result_status", JStr "ok");
                        ("reason", JStr reason); ("run_id", JStr run_id)] ++
                       match step_id_at_abort with Some s => [("step_id", JStr s)] | None => [] end);
  al_raw_payload := JDict [("reason", JStr reason)];
  al_run_id := Some run_id; al_step_id := step_id_at_abort; al_work_ref := work_ref |}.

Definition abort_run (tenant_id : uuid) (operator_sub : string) (run_id : uuid) (reason : string)
  (caller_is_admin : bool) (audit_id : uuid) (duration_ms : Z) (now : datetime)
  : run_txn AbortRunResponse :=
  run ← read_db (fun db => load_run_or_raise db tenant_id run_id);
  _ ← lift_res (guard_or NotRunAssigneeError
        (bool_decide (rr_assigned_to run = operator_sub) || caller_is_admin));
  _ ← lift_res (refuse_if_terminal run);
  states ← read_db (fun db => Ok (load_step_states db run_id));
  let audit := build_abort_audit_row tenant_id operator_sub run_id (current_step_id_or_none states)
                 (rr_work_ref run) reason duration_ms audit_id now in
  _ ← commit (fun db => add_audit audit (update_run (rr_run_id run) (mark_abandoned now) db));
  mret {| ar_run_id := run_id; ar_abandoned_at := now |}.

Definition reassign_run (tenant_id run_id : uuid) (new_assignee : string) (now : datetime)
  : run_txn ReassignRunResponse :=
  run ← read_db (fun db => load_run_or_raise db tenant_id run_id);
  _ ← lift_res (refuse_if_terminal run);
  _ ← commit (update_run (rr_run_id run) (set_assignee new_assignee));
  mret {| rs_run_id := run_id; rs_assigned_to := new_assignee; rs_reassigned_at := now |}.

(** ** Reads *)

Definition started_desc (a b : RunbookRun) : Prop := (rr_started_at b <= rr_started_at a)%Z.
#[export] Instance started_desc_dec a b : Decision (started_desc a b) := Z_le_dec _ _.

Definition eq_filter {A} `{EqDecision A} (f : option A) (v : option A) : bool :=
  match f with None => true | Some x => bool_decide (v = Some x) end.

Definition project_current_step (db : RunsDb) (row : RunbookRun) (steps : list Step)
  : res RunError (option string * option CurrentStepState * option StepPosition) :=
  if negb (bool_decide (rr_state row = run_in_progress)) || bool_decide (length steps = 0)
  then Ok (None, None, None)
  else
    let states := load_step_states db (rr_run_id row) in
    match current_step_id_or_none states with
    | None => Ok (None, None, None)
    | Some current =>
        s ← get_step_state states current;
        Ok (Some current,
            Some (if bool_decide (ss_state s = step_failed) then cur_failed else cur_in_progress),
            position_from_step_id steps (Some current))
    end.

(** The rows a caller may list: an operator's own runs, whatever the filter says. *)
Definition listed (tenant_id : uuid) (caller_sub : string) (caller_is_admin : bool)
  (f : ListRunsFilter) (r : RunbookRun) : bool :=
  let effective_assignee := if caller_is_admin then lf_assignee f else Some caller_sub in
  bool_decide (rr_tenant_id r = tenant_id) &&
  eq_filter effective_assignee (Some (rr_assigned_to r)) &&
  eq_filter (lf_status f) (Some (rr_state r)) &&
  eq_filter (lf_template_slug f) (Some (rr_template_slug r)) &&
  eq_filter (lf_work_ref f) (rr_work_ref r).

Definition summarize (tenant_id : uuid) (db : RunsDb) (row : RunbookRun) : res RunError RunSummary :=
  pinned ← load_pinned_template_or_none (db_templates db) tenant_id
             (rr_template_slug row) (rr_template_version row);
  let steps := match pinned with Some b => tb_steps b | None => [] end in
  '(id, st, pos) ← project_current_step db row steps;
  Ok {| su_run := row; su_current_step_id := id; su_current_step_state := st; su_position := pos |}.

Definition list_runs (tenant_id : uuid) (caller_sub : string) (caller_is_admin : bool)
  (f : ListRunsFilter) (limit : Z) (db : RunsDb) : res RunError (list RunSummary) :=
  if (limit <? 0)%Z then Raise RunLimitError
  else if (limit =? 0)%Z then Ok []
  else
    let rows := take (Z.to_nat limit) (merge_sort started_desc
                  (select_where (listed tenant_id caller_sub caller_is_admin f) (db_runs db))) in
    res_map (summarize tenant_id db) rows.

Definition get_current_step (tenant_id run_id : uuid) (db : RunsDb) : res RunError CurrentStepView :=
  run ← load_run_or_raise db tenant_id run_id;
  match rr_state run with
  | run_completed =>
      Ok (view_completed {| rc_run_id := rr_run_id run;
                            rc_completed_at := default (rr_started_at run) (rr_completed_at run) |})
  | run_abandoned =>
      Ok (view_aborted {| ar_run_id := rr_run_id run;
                          ar_abandoned_at := default (rr_started_at run) (rr_abandoned_at run) |})
  | run_in_progress =>
      body ← load_pinned_template_body db run;
      current ← current_step_id_or_raise (load_step_states db run_id);
      step ← lift_engine (current_step_body body current (rr_target run) (rr_params run));
      position ← position_for_step body current;
      Ok (view_current {| cs_run_id := rr_run_id run; cs_template_slug := rr_template_slug run;
            cs_template_version := rr_template_version run; cs_position := position;
            cs_current_step := step |})
  end.

Definition get_run_assignee (tenant_id run_id : uuid) (db : RunsDb) : res RunError string :=
  run ← load_run_or_raise db tenant_id run_id; Ok (rr_assigned_to run).

Definition can_show_template_post_completion (tenant_id : uuid) (operator_sub slug : string)
  (version : Z) (db : RunsDb) : bool :=
  negb (bool_decide (length (select_where (fun r =>
    bool_decide (rr_tenant_id r = tenant_id) && bool_decide (rr_assigned_to r = operator_sub) &&
    bool_decide (rr_template_slug r = slug) && bool_decide (rr_template_version r = version) &&
    is_terminal (rr_state r)) (db_runs db)) = 0)).

(** [_count_in_flight_runs] of [runbooks/service.py], which an edit reports. *)
Definition count_in_flight_runs (tenant_id : uuid) (slug : string) (db : RunsDb) (version : Z) : nat :=
  length (select_where (fun r =>
    bool_decide (rr_tenant_id r = tenant_id) && bool_decide (rr_template_slug r = slug) &&
    bool_decide (rr_template_version r = version) && bool_decide (rr_state r = run_in_progress))
    (db_runs db)).
