(* ===== verification/RunbookRunProofs.v ===== *)
(** Theorems on runbook runs: the shape of a run's step rows, what an operation
    may change, and what happens when two requests overlap. *)

From S2P Require Import Prelude Json Identity Catalog Substitution RunbookSchemas RunbookEngine RunbookTemplates RunbookRuns.

(** * What a database holds *)

(** A run in progress or abandoned has one active step, with every step before it
    verified and every step after it pending. *)
Definition step_shape (i : nat) (c : StepState) (j : nat) : StepState :=
  if j <? i then step_verified else if j =? i then c else step_pending.

Definition states_at (i : nat) (c : StepState) (l : list RunbookRunStepState) : Prop :=
  forall j s, l !! j = Some s -> ss_state s = step_shape i c j.

Definition active (c : StepState) : Prop := c = step_in_progress \/ c = step_failed.

Definition run_shape (st : RunState) (l : list RunbookRunStepState) : Prop :=
  match st with
  | run_completed => Forall (fun s => ss_state s = step_verified) l
  | _ => exists i c, i < length l /\ active c /\ states_at i c l
  end.

(** The template version a run is pinned to. *)
Definition pinned (templates : list RunbookTemplate) (r : RunbookRun) (body : RunbookTemplateBody) : Prop :=
  exists row, load_exact templates (rr_tenant_id r) (rr_template_slug r) (rr_template_version r) = Some row /\
    tr_status row <> tpl_draft /\ template_body_from_row row = Ok body.

Record run_ok (db : RunsDb) (r : RunbookRun) : Prop := {
  ro_pinned : exists body, pinned (db_templates db) r body /\
    ss_step_id <$> load_step_states db (rr_run_id r) = step_id <$> tb_steps body /\
    validate_params_against_template body (rr_params r) = Ok tt;
  ro_shape : run_shape (rr_state r) (load_step_states db (rr_run_id r));
  ro_completed : is_Some (rr_completed_at r) <-> rr_state r = run_completed;
  ro_abandoned : is_Some (rr_abandoned_at r) <-> rr_state r = run_abandoned;
}.

Record runs_inv (db : RunsDb) : Prop := {
  ri_templates : templates_inv (db_templates db);
  ri_run_ids : NoDup (rr_run_id <$> db_runs db);
  ri_state_keys : NoDup (ss_key <$> db_states db);
  ri_fk : forall s, s ∈ db_states db -> ss_run_id s ∈ rr_run_id <$> db_runs db;
  ri_runs : forall r, r ∈ db_runs db -> run_ok db r;
}.

(** * Queries *)

Lemma load_run_Ok db t rid run :
  load_run_or_raise db t rid = Ok run ->
  run ∈ db_runs db /\ rr_tenant_id run = t /\ rr_run_id run = rid.
Proof.
  unfold load_run_or_raise. intros [Hr Hp]%ok_or_Ok%find_Some_iff. by to_prop.
Qed.

Lemma load_run_elem db run :
  NoDup (rr_run_id <$> db_runs db) -> run ∈ db_runs db ->
  load_run_or_raise db (rr_tenant_id run) (rr_run_id run) = Ok run.
Proof.
  intros Hnd Hr. unfold load_run_or_raise. rewrite (find_unique rr_run_id _ _ run); try done.
  - intros r' H. by to_prop.
  - by rewrite !bool_decide_true.
Qed.

Lemma require_assignee_Ok db t rid sub run :
  require_run_assignee db t rid sub = Ok run <->
  load_run_or_raise db t rid = Ok run /\ rr_assigned_to run = sub.
Proof.
  unfold require_run_assignee. rewrite bind_Ok. split.
  - intros (r & Hr & H). invert_ok. by to_prop.
  - intros [Hr Hs]. exists run. by rewrite bool_decide_true.
Qed.

Lemma refuse_if_terminal_Ok run : refuse_if_terminal run = Ok tt <-> rr_state run = run_in_progress.
Proof. unfold refuse_if_terminal. rewrite guard_or_Ok. destruct (rr_state run); simpl; split; done. Qed.

Lemma elem_of_load_states db rid s :
  s ∈ load_step_states db rid <-> s ∈ db_states db /\ ss_run_id s = rid.
Proof. unfold load_step_states. by rewrite elem_of_select, bool_decide_eq_true. Qed.

Lemma load_states_NoDup db rid :
  NoDup (ss_key <$> db_states db) -> NoDup (ss_step_id <$> load_step_states db rid).
Proof.
  unfold load_step_states, select_where. induction (db_states db) as [|s l IH]; simpl; [constructor|].
  intros [Hs Hnd]%NoDup_cons. case_bool_decide as Hr; [|by apply IH]. simpl. apply NoDup_cons.
  split; [|by apply IH]. intros (s' & Heq & Hin)%list_elem_of_fmap. apply Hs.
  fold (select_where (fun s => bool_decide (ss_run_id s = rid)) l) in Hin.
  apply elem_of_select in Hin as [Hin Hr']. to_prop. apply list_elem_of_fmap. exists s'.
  split; [|done]. unfold ss_key. congruence.
Qed.

(** * Updates *)

(** Which step rows of which run an update of one step row touches. *)
Lemma load_states_update db rid sid f rid' :
  (forall s, ss_run_id (f s) = ss_run_id s) ->
  load_step_states (update_state (rid, sid) f db) rid' =
  if bool_decide (rid' = rid)
  then update_where (fun s => bool_decide (ss_step_id s = sid)) f (load_step_states db rid')
  else load_step_states db rid'.
Proof.
  intros Hf. unfold load_step_states at 1. simpl. rewrite select_update by (intros s; by rewrite Hf).
  fold (load_step_states db rid'). case_bool_decide as Hr.
  - apply list_fmap_ext. intros i s Hi. apply list_elem_of_lookup_2, elem_of_load_states in Hi as [_ Hi].
    unfold ss_key. rewrite (bool_decide_ext _ (ss_step_id s = sid)); [done|]. naive_solver.
  - apply update_where_none. intros s [_ Hs]%elem_of_load_states. apply bool_decide_eq_false.
    unfold ss_key. naive_solver.
Qed.

Lemma load_states_update_run db rid f rid' :
  load_step_states (update_run rid f db) rid' = load_step_states db rid'.
Proof. done. Qed.

(** * What an operation writes *)

(** Step through one read of a transaction that ran to [H]: name its value and
    the equation; a raise leaves the database as it was. *)
Ltac txn_read H a E :=
  first [rewrite read_bind in H | rewrite lift_bind in H];
  match type of H with
  | (match ?x with Ok _ => _ | Raise _ => _ end) = _ =>
      destruct x as [a|] eqn:E; [|injection H as <- <-; solve [eauto]]
  end.

(** Either the write phase of an advance changes nothing and raises, or the run
    is the caller's and in progress at that moment, its step row is not failed,
    and the engine's outcome is stored. *)
Inductive write_effect (run : RunbookRun) (inputs : NextStepInputs) (o : AdvanceOutcome)
  (now : datetime) (db : RunsDb) : RunsDb -> res RunError NextStepResponse -> Prop :=
| we_failed :
    ao_kind o = out_failed ->
    write_effect run inputs o now db
      (update_state (rr_run_id run, ni_current_step_id inputs)
         (mark_failed (verify_response_to_storage (ao_verify_response_persisted o))) db)
      (Raise PreviousStepFailedError)
| we_completed :
    ao_kind o = out_completed ->
    write_effect run inputs o now db
      (update_run (rr_run_id run) (mark_completed (default now (ao_completed_at o)))
        (update_state (rr_run_id run, ni_current_step_id inputs)
           (mark_verified now (verify_response_to_storage (ao_verify_response_persisted o))) db))
      (Ok (next_completed {| rc_run_id := rr_run_id run;
                             rc_completed_at := default now (ao_completed_at o) |}))
| we_next b r :
    ao_kind o = out_next_step -> ao_next_step_body o = Some b ->
    is_Ok (get_step_state (load_step_states db (rr_run_id run)) (sb_id b)) ->
    r = (position ← position_for_step (ni_template_body inputs) (sb_id b);
         Ok (next_current {| cs_run_id := rr_run_id run; cs_template_slug := rr_template_slug run;
              cs_template_version := rr_template_version run; cs_position := position;
              cs_current_step := b |})) ->
    write_effect run inputs o now db
      (update_state (rr_run_id run, sb_id b) (mark_in_progress now)
        (update_state (rr_run_id run, ni_current_step_id inputs)
           (mark_verified now (verify_response_to_storage (ao_verify_response_persisted o))) db)) r.

Lemma write_cases t sub rid inputs vr now db db' r :
  write_next_step_outcome t sub rid inputs vr now db = (db', r) ->
  (db' = db /\ exists e, r = Raise e) \/
  exists run row o,
    run ∈ db_runs db /\ rr_tenant_id run = t /\ rr_run_id run = rid /\
    rr_assigned_to run = sub /\ rr_state run = run_in_progress /\
    get_step_state (load_step_states db rid) (ni_current_step_id inputs) = Ok row /\
    ss_state row <> step_failed /\
    advance (ni_template_body inputs) (ni_current_step_id inputs) (ni_current_state inputs)
      (ni_run_target inputs) (ni_run_params inputs) vr (Some now) = Ok o /\
    write_effect run inputs o now db db' r.
Proof.
  unfold write_next_step_outcome. intros H.
  txn_read H run Hrun. txn_read H u Hterm. destruct u. rewrite read_bind in H.
  txn_read H row Hrow. txn_read H u Hnf. txn_read H o Hadv0.
  apply require_assignee_Ok in Hrun as [(Hin & Ht & Hrid)%load_run_Ok Hsub].
  apply refuse_if_terminal_Ok in Hterm. apply guard_or_Ok in Hnf. to_prop.
  assert (advance (ni_template_body inputs) (ni_current_step_id inputs) (ni_current_state inputs)
            (ni_run_target inputs) (ni_run_params inputs) vr (Some now) = Ok o) as Hadv.
  { unfold lift_engine in Hadv0. by destruct (advance _ _ _ _ _ _ _); simplify_eq. }
  unfold apply_outcome in H. rewrite lift_bind, Hrow in H.
  destruct (ao_kind o) eqn:Hk.
  - txn_read H b Hb. apply ok_or_Ok in Hb. txn_read H nrow Hnext. rewrite commit_bind in H.
    right. exists run, row, o. split_and!; try done. rewrite lift_bind in H.
    destruct (position_for_step _ _) eqn:Hp; injection H as <- <-; eapply we_next; try done;
      first [by rewrite Hp|by rewrite Hrid, Hnext; eexists].
  - rewrite commit_bind in H. injection H as <- <-. right. exists run, row, o.
    split_and!; try done. by apply we_completed.
  - rewrite commit_bind in H. injection H as <- <-. right. exists run, row, o.
    split_and!; try done. by apply we_failed.
Qed.

Lemma service_find_step_Ok body id s :
  service_find_step body id = Ok s -> s ∈ tb_steps body /\ step_id s = id.
Proof. unfold service_find_step. intros [H1 H2]%ok_or_Ok%find_Some_iff. by to_prop. Qed.

Lemma inputs_Ok t sub rid db inputs :
  load_next_step_inputs t sub rid db = Ok inputs ->
  let run := ni_run inputs in
  run ∈ db_runs db /\ rr_tenant_id run = t /\ rr_run_id run = rid /\ rr_assigned_to run = sub /\
  rr_state run = run_in_progress /\
  load_pinned_template_body db run = Ok (ni_template_body inputs) /\
  current_step_id_or_none (load_step_states db rid) = Some (ni_current_step_id inputs) /\
  (exists row, get_step_state (load_step_states db rid) (ni_current_step_id inputs) = Ok row /\
     ss_state row = ni_current_state inputs /\ ss_state row <> step_failed) /\
  ni_run_target inputs = rr_target run /\ ni_run_params inputs = rr_params run /\
  ni_current_step inputs ∈ tb_steps (ni_template_body inputs) /\
  step_id (ni_current_step inputs) = ni_current_step_id inputs.
Proof.
  unfold load_next_step_inputs. intros H.
  apply bind_Ok in H as (run & Hrun & H). apply bind_Ok in H as ([] & Hterm & H).
  apply bind_Ok in H as (body & Hbody & H). apply bind_Ok in H as (cur & Hcur & H).
  apply bind_Ok in H as (row & Hrow & H). apply bind_Ok in H as (u & Hnf & H).
  apply bind_Ok in H as (step & Hstep & H). injection H as <-. simpl.
  apply require_assignee_Ok in Hrun as [(Hin & Ht & Hrid)%load_run_Ok Hsub].
  apply refuse_if_terminal_Ok in Hterm. apply guard_or_Ok in Hnf. to_prop.
  apply service_find_step_Ok in Hstep as [Hs1 Hs2]. apply ok_or_Ok in Hcur.
  split_and!; eauto.
Qed.

(** A dispatch during which no other request writes. *)
Definition quiet (d : Dispatcher) : Prop := forall op cc ca db, fst (d op cc ca db) = db.

Lemma resolve_quiet d run step rv db :
  quiet d -> fst (resolve_verify_response d run step rv db) = db.
Proof.
  intros Hq. unfold resolve_verify_response. destruct (step_verify step) as [p|op vp ex]; [done|].
  rewrite lift_bind. destruct (lift_engine _) as [op'|e]; [|done].
  rewrite lift_bind. destruct (lift_engine _) as [ps|e]; [|done].
  rewrite read_bind. destruct (resolve_connector_id_for_op _ _ _) as [c|e]; [|done].
  unfold mbind, txn_bind. specialize (Hq (build_operator_for_dispatch (rr_assigned_to run) (rr_tenant_id run))
    {| cc_run_id := rr_run_id run; cc_step_id := step_id step; cc_work_ref := rr_work_ref run |}
    {| ca_connector_id := c; ca_op_id := op'; ca_target := rr_target run; ca_params := ps |} db).
  destruct (d _ _ _ db) as [db1 [a|e]]; done.
Qed.

(** An advance is its read phase, the dispatch, and its write phase. *)
Lemma next_step_phases d t sub rid rv now db db' r :
  next_step_run d t sub rid rv now db = (db', r) ->
  (exists e, r = Raise e /\ load_next_step_inputs t sub rid db = Raise e /\ db' = db) \/
  exists inputs db1 vr,
    load_next_step_inputs t sub rid db = Ok inputs /\
    resolve_verify_response d (ni_run inputs) (ni_current_step inputs) rv db = (db1, vr) /\
    match vr with
    | Raise e => db' = db1 /\ r = Raise e
    | Ok v => write_next_step_outcome t sub rid inputs v now db1 = (db', r)
    end.
Proof.
  unfold next_step_run. intros H. rewrite read_bind in H.
  destruct (load_next_step_inputs t sub rid db) as [inputs|e]; [|injection H as <- <-; eauto].
  right. apply txn_bind_inv in H as [(e & -> & H)|(db1 & v & H & Hw)].
  - exists inputs, db', (Raise e). eauto.
  - exists inputs, db1, (Ok v). eauto.
Qed.

(** * The current step *)

Lemma step_shape_active i c j : active c -> step_shape i c j = step_in_progress \/ step_shape i c j = step_failed -> j = i.
Proof.
  unfold step_shape. intros Hc. destruct (Nat.ltb_spec j i); [by intros []|].
  destruct (Nat.eqb_spec j i); [done|by intros []].
Qed.

Lemma step_shape_at i c : step_shape i c i = c.
Proof. unfold step_shape. by rewrite Nat.ltb_irrefl, Nat.eqb_refl. Qed.

Lemma current_step_at l i c x :
  states_at i c l -> active c -> l !! i = Some x -> current_step_id_or_none l = Some (ss_step_id x).
Proof.
  intros Hl Hc Hi. unfold current_step_id_or_none.
  assert (ss_state x = c) as Hx by (rewrite (Hl _ _ Hi); apply step_shape_at).
  assert (forall st, active st -> st = c -> List.find (fun s => bool_decide (ss_state s = st)) l = Some x) as Hfind.
  { intros st Hst ->. eapply find_only; [done|by apply bool_decide_eq_true|].
    intros j y Hj Hy. apply bool_decide_eq_true in Hy. rewrite (Hl _ _ Hj) in Hy.
    apply (step_shape_active i c); [done|]. rewrite Hy. done. }
  destruct Hc as [->| ->].
  - rewrite Hfind; [done|by left|done].
  - assert (List.find (fun s => bool_decide (ss_state s = step_in_progress)) l = None) as ->.
    { apply find_None_iff. intros y Hy. apply list_elem_of_lookup in Hy as [j Hj].
      apply bool_decide_eq_false. rewrite (Hl _ _ Hj). intros Hs.
      assert (j = i) as -> by (apply (step_shape_active i step_failed); [by right|by left]).
      by rewrite step_shape_at in Hs. }
    simpl. rewrite Hfind; [done|by right|done].
Qed.

Lemma get_step_state_at l i x :
  NoDup (ss_step_id <$> l) -> l !! i = Some x -> get_step_state l (ss_step_id x) = Ok x.
Proof.
  intros Hnd Hi. unfold get_step_state. rewrite (find_unique ss_step_id _ _ x); try done.
  - intros y Hy. by to_prop.
  - by eapply list_elem_of_lookup_2.
  - by apply bool_decide_eq_true.
Qed.

(** * The writes keep the shape *)

Section Writes.
Variables (l : list RunbookRunStepState) (i : nat) (x : RunbookRunStepState).
Hypothesis ids : NoDup (ss_step_id <$> l).
Hypothesis at_i : l !! i = Some x.

Definition write_row (sid : string) (f : RunbookRunStepState -> RunbookRunStepState)
  (l : list RunbookRunStepState) : list RunbookRunStepState :=
  update_where (fun s => bool_decide (ss_step_id s = sid)) f l.

Lemma write_row_insert f : write_row (ss_step_id x) f l = <[i := f x]> l.
Proof. by apply update_where_insert. Qed.

Lemma states_at_failed resp :
  states_at i step_in_progress l -> states_at i step_failed (write_row (ss_step_id x) (mark_failed resp) l).
Proof.
  intros Hl. rewrite write_row_insert. intros j s. rewrite list_lookup_insert_Some.
  intros [(<- & <- & _)|[Hne Hj]]; [simpl; by rewrite step_shape_at|]. rewrite (Hl _ _ Hj).
  unfold step_shape. by rewrite (proj2 (Nat.eqb_neq j i)).
Qed.

Lemma states_all_verified now resp :
  states_at i step_in_progress l -> S i = length l ->
  Forall (fun s => ss_state s = step_verified) (write_row (ss_step_id x) (mark_verified now resp) l).
Proof.
  intros Hl Hlen. rewrite write_row_insert. apply Forall_lookup. intros j s.
  rewrite list_lookup_insert_Some. intros [(<- & <- & _)|[Hne Hj]]; [done|]. rewrite (Hl _ _ Hj).
  apply lookup_lt_Some in Hj. unfold step_shape. rewrite (proj2 (Nat.ltb_lt j i)); [done|lia].
Qed.

Lemma states_at_next now resp y :
  states_at i step_in_progress l -> l !! S i = Some y ->
  states_at (S i) step_in_progress
    (write_row (ss_step_id y) (mark_in_progress now) (write_row (ss_step_id x) (mark_verified now resp) l)).
Proof.
  intros Hl Hy. rewrite write_row_insert.
  assert (<[i:=mark_verified now resp x]> l !! S i = Some y) as Hy' by (by rewrite list_lookup_insert_ne).
  unfold write_row. rewrite (update_where_insert ss_step_id _ _ (S i) y); [|..|done].
  - intros j s. rewrite list_lookup_insert_Some. intros [(<- & <- & _)|[Hne Hj]].
    { simpl. by rewrite step_shape_at. }
    apply list_lookup_insert_Some in Hj as [(<- & <- & _)|[Hne' Hj]].
    + unfold step_shape. by rewrite (proj2 (Nat.ltb_lt _ _)) by lia.
    + rewrite (Hl _ _ Hj). unfold step_shape. repeat case_match; to_prop; try done;
        rewrite ?Nat.ltb_lt, ?Nat.ltb_ge, ?Nat.eqb_eq, ?Nat.eqb_neq in *; lia.
  - rewrite list_fmap_insert. simpl. rewrite list_insert_id; [done|]. by rewrite list_lookup_fmap, at_i.
Qed.
End Writes.

Lemma write_row_ids sid f l :
  (forall s, ss_step_id (f s) = ss_step_id s) -> ss_step_id <$> write_row sid f l = ss_step_id <$> l.
Proof. apply update_where_keys. Qed.

(** A write to one run keeps the invariant when the run's own part is restored. *)
Lemma inv_write db db' run g :
  runs_inv db -> run ∈ db_runs db ->
  db_templates db' = db_templates db ->
  db_runs db' = update_where (fun r => bool_decide (rr_run_id r = rr_run_id run)) g (db_runs db) ->
  (forall r, rr_run_id (g r) = rr_run_id r) ->
  ss_key <$> db_states db' = ss_key <$> db_states db ->
  (forall rid, rid <> rr_run_id run -> load_step_states db' rid = load_step_states db rid) ->
  run_ok db' (g run) -> runs_inv db'.
Proof.
  intros Hinv Hin Ht Hr Hg Hk Hothers Hok. constructor.
  - rewrite Ht. apply Hinv.
  - rewrite Hr, update_where_keys by done. apply Hinv.
  - rewrite Hk. apply Hinv.
  - intros s Hs. rewrite Hr, update_where_keys by done.
    assert (ss_key s ∈ ss_key <$> db_states db) as (s0 & Heq & Hs0)%list_elem_of_fmap
      by (rewrite <- Hk; by apply list_elem_of_fmap_2).
    injection Heq as -> _. by apply (ri_fk _ Hinv).
  - intros r. rewrite Hr, elem_of_update_key by (done || apply Hinv). intros [->|[Hr0 Hne]]; [done|].
    destruct (ri_runs _ Hinv r Hr0) as [Hp Hs Hc Ha]. constructor; rewrite ?Ht, ?Hothers; done.
Qed.

(** * An advance on its own *)

Lemma body_from_row_valid row body : template_body_from_row row = Ok body -> validate_template body = true.
Proof.
  unfold template_body_from_row, steps_from_storage. intros H. invert_ok.
  destruct (mapM _ _) as [steps|]; [|done]. simpl in *. unfold validate_template. simpl.
  split_matches.
Qed.

Lemma pinned_loads db r body : load_pinned_template_body db r = Ok body -> forall body',
  pinned (db_templates db) r body' -> body' = body.
Proof.
  unfold load_pinned_template_body, load_pinned_template_or_none.
  intros H body' (row & Hrow & _ & Hb). rewrite Hrow, Hb in H. simpl in H. by simplify_eq.
Qed.

(** Where an outcome leads in the template. *)
Lemma advance_target t i s st target params resp at_ o :
  validate_template t = true -> tb_steps t !! i = Some s ->
  advance t (step_id s) st target params resp at_ = Ok o ->
  st = step_in_progress /\
  (ao_kind o = out_completed -> tb_steps t !! S i = None) /\
  (forall b, ao_next_step_body o = Some b -> exists s', tb_steps t !! S i = Some s' /\ sb_id b = step_id s').
Proof.
  intros Hv Hi Hadv. unfold advance in Hadv.
  rewrite find_step_elem in Hadv by (try done; by eapply list_elem_of_lookup_2).
  rewrite (next_step_lookup _ _ _ Hv Hi) in Hadv.
  apply bind_Ok in Hadv as ([] & Hst%guard_or_Ok%bool_decide_eq_true & Hadv). simpl in Hadv.
  apply bind_Ok in Hadv as ([passed persisted] & He & Hadv). split; [done|].
  destruct passed; simpl in Hadv; [|by injection Hadv as <-].
  destruct (tb_steps t !! S i) as [s'|]; [|by injection Hadv as <-].
  invert_ok. split; [done|]. intros b [= <-]. exists s'. split; [done|]. by eapply build_step_body_id.
Qed.

(** What the read phase knows in a database that satisfies the invariant. *)
Record situation (db : RunsDb) (inputs : NextStepInputs) (i : nat) (x : RunbookRunStepState)
  (s : Step) : Prop := {
  si_ids : NoDup (ss_step_id <$> load_step_states db (rr_run_id (ni_run inputs)));
  si_at : load_step_states db (rr_run_id (ni_run inputs)) !! i = Some x;
  si_states : states_at i step_in_progress (load_step_states db (rr_run_id (ni_run inputs)));
  si_current : ni_current_step_id inputs = ss_step_id x;
  si_state : ni_current_state inputs = step_in_progress;
  si_step : tb_steps (ni_template_body inputs) !! i = Some s;
  si_step_id : step_id s = ss_step_id x;
  si_steps : ss_step_id <$> load_step_states db (rr_run_id (ni_run inputs)) =
             step_id <$> tb_steps (ni_template_body inputs);
  si_valid : validate_template (ni_template_body inputs) = true;
  si_pinned : pinned (db_templates db) (ni_run inputs) (ni_template_body inputs);
  si_params : validate_params_against_template (ni_template_body inputs) (rr_params (ni_run inputs)) = Ok tt;
}.

Lemma inputs_situation db t sub rid inputs :
  runs_inv db -> load_next_step_inputs t sub rid db = Ok inputs ->
  exists i x s, situation db inputs i x s.
Proof.
  intros Hinv (Hin & Ht & Hrid & Hsub & Hst & Hbody & Hcur & (row & Hrow & Hrs & Hnf) & _)%inputs_Ok.
  subst rid. destruct (ri_runs _ Hinv _ Hin) as [(body & Hp & Hids & Hpar) Hshape _ _].
  assert (body = ni_template_body inputs) as -> by (by eapply pinned_loads).
  pose proof (load_states_NoDup db (rr_run_id (ni_run inputs)) (ri_state_keys _ Hinv)) as Hnd.
  rewrite Hst in Hshape. destruct Hshape as (i & c & Hi & Hc & Hl).
  destruct (lookup_lt_is_Some_2 _ _ Hi) as [x Hx].
  rewrite (current_step_at _ _ _ _ Hl Hc Hx) in Hcur. injection Hcur as Hcur.
  rewrite <- Hcur, (get_step_state_at _ _ _ Hnd Hx) in Hrow. injection Hrow as <-.
  assert (ss_state x = c) as Hxc by (rewrite (Hl _ _ Hx); apply step_shape_at).
  assert (c = step_in_progress) as -> by (destruct Hc; congruence).
  assert ((step_id <$> tb_steps (ni_template_body inputs)) !! i = Some (ss_step_id x)) as Hs
    by (by rewrite <- Hids, list_lookup_fmap, Hx).
  rewrite list_lookup_fmap in Hs. destruct (tb_steps _ !! i) as [s|] eqn:Hsi; [|done]. injection Hs as Hs.
  exists i, x, s. constructor; try done; [congruence|].
  destruct Hp as (tr & _ & _ & Hb). by eapply body_from_row_valid.
Qed.

Lemma update_where_same {A} (p : A -> bool) rows : update_where p (fun r => r) rows = rows.
Proof. unfold update_where. induction rows as [|x rows IH]; [done|]. rewrite fmap_cons, IH. by destruct (p x). Qed.

(** The step rows of the run after one or two of the writes above. *)
Lemma load_states_write db rid sid f :
  (forall s, ss_run_id (f s) = ss_run_id s) ->
  load_step_states (update_state (rid, sid) f db) rid = write_row sid f (load_step_states db rid).
Proof. intros Hf. rewrite load_states_update by done. by rewrite bool_decide_true. Qed.

Lemma load_states_other db rid sid f rid' :
  (forall s, ss_run_id (f s) = ss_run_id s) -> rid' <> rid ->
  load_step_states (update_state (rid, sid) f db) rid' = load_step_states db rid'.
Proof. intros Hf Hne. rewrite load_states_update by done. by rewrite bool_decide_false. Qed.

Lemma update_state_keys db key f :
  (forall s, ss_key (f s) = ss_key s) -> ss_key <$> db_states (update_state key f db) = ss_key <$> db_states db.
Proof. intros Hf. by apply update_where_keys. Qed.

Lemma write_inv db t sub rid inputs vr now db' r :
  runs_inv db -> load_next_step_inputs t sub rid db = Ok inputs ->
  write_next_step_outcome t sub rid inputs vr now db = (db', r) -> runs_inv db'.
Proof.
  intros Hinv Hinp Hw. pose proof (inputs_Ok _ _ _ _ _ Hinp) as (Hin & Ht & Hrid & _ & Hst & _).
  destruct (inputs_situation _ _ _ _ _ Hinv Hinp) as (i & x & s & Hsit).
  destruct (write_cases _ _ _ _ _ _ _ _ _ Hw) as
    [[-> _]|(run & row & o & Hin' & Ht' & Hrid' & _ & Hst' & _ & _ & Hadv & He)]; [done|].
  assert (run = ni_run inputs) as -> by (eapply (key_inj rr_run_id); [apply Hinv|done..|congruence]).
  destruct Hsit as [Hnd Hx Hl Hcur Hcs Hs Hsid Hids Hval Hpin Hpar].
  rewrite Hcur, <- Hsid in Hadv.
  destruct (advance_target _ _ _ _ _ _ _ _ _ Hval Hs Hadv) as (_ & Hcomp & Hnext).
  destruct (ri_runs _ Hinv _ Hin) as [_ _ Hc Ha]. rewrite Hst in Hc, Ha.
  set (rid0 := rr_run_id (ni_run inputs)) in *.
  destruct He as [Hk|Hk|b r' Hk Hb _ _]; rewrite Hcur.
  - apply (inv_write db _ (ni_run inputs) (fun r => r)); try done.
    + by rewrite update_where_same.
    + by apply update_state_keys.
    + intros rid' Hne. by apply load_states_other.
    + constructor; rewrite ?load_states_write, ?Hst; try done.
      * exists (ni_template_body inputs). by rewrite write_row_ids.
      * exists i, step_failed. split_and!; [|by right|by apply states_at_failed].
        unfold write_row, update_where. rewrite length_fmap. by eapply lookup_lt_Some.
  - apply (inv_write db _ (ni_run inputs) (mark_completed (default now (ao_completed_at o)))); try done.
    + by apply update_state_keys.
    + intros rid' Hne. by apply (load_states_other db).
    + constructor; rewrite ?load_states_update_run; simpl; rewrite ?load_states_write; try done.
      * exists (ni_template_body inputs). by rewrite write_row_ids.
      * apply (states_all_verified _ i); try done. apply Hcomp, lookup_ge_None in Hk.
        assert (length (load_step_states db rid0) = length (tb_steps (ni_template_body inputs))) as Hlen
          by (rewrite <- (length_fmap ss_step_id), Hids; apply length_fmap).
        apply lookup_lt_Some in Hx. unfold rid0 in *. lia.
      * split; [by intros ?%Ha|done].
  - apply (inv_write db _ (ni_run inputs) (fun r => r)); try done.
    + by rewrite update_where_same.
    + by rewrite !update_state_keys.
    + intros rid' Hne. by rewrite !load_states_other.
    + destruct (Hnext b Hb) as (s' & Hs' & ->).
      assert (exists y, load_step_states db rid0 !! S i = Some y /\ ss_step_id y = step_id s') as (y & Hy & Hys).
      { assert ((ss_step_id <$> load_step_states db rid0) !! S i = Some (step_id s')) as H
          by (by rewrite Hids, list_lookup_fmap, Hs').
        rewrite list_lookup_fmap in H. destruct (load_step_states db rid0 !! S i); [|done].
        injection H as H. eauto. }
      constructor; rewrite ?load_states_write, ?Hst; try done.
      * exists (ni_template_body inputs). by rewrite !write_row_ids.
      * rewrite <- Hys. exists (S i), step_in_progress. split_and!; [|by left|by apply states_at_next].
        unfold write_row, update_where. rewrite !length_fmap. by eapply lookup_lt_Some.
Qed.

(** * The other operations *)

Lemma load_published_Ok templates t slug row :
  load_published_or_raise templates t slug = Ok row ->
  row ∈ templates /\ tr_tenant_id row = t /\ tr_slug row = slug /\ tr_status row = tpl_published.
Proof.
  unfold load_published_or_raise.
  assert (forall r, r ∈ merge_sort version_desc (select_where (is_slug_row t slug) templates) ->
            r ∈ templates /\ tr_tenant_id r = t /\ tr_slug r = slug) as Hall.
  { intros r. rewrite merge_sort_Permutation. intros [Hr [? ?]%is_slug_row_spec]%elem_of_select. done. }
  destruct (merge_sort _ _) as [|r0 rows] eqn:Hs; [done|].
  destruct (List.filter _ _) as [|r rest] eqn:Hf; [destruct (_ && _); done|]. intros [= ->].
  assert (row ∈ List.filter (has_status tpl_published) (r0 :: rows)) as Hin by (rewrite Hf; left).
  rewrite list_elem_of_In, filter_In, <- list_elem_of_In in Hin. destruct Hin as [Hin Hst].
  apply bool_decide_eq_true in Hst. by destruct (Hall row Hin) as (? & ? & ?).
Qed.

(** Either [start_run] leaves the database as it was and raises, or it has added
    the run and its step rows, and returns or raises what the engine says of the
    first step. *)
Lemma start_cases t sub rq rid now db db' r :
  start_run t sub rq rid now db = (db', r) ->
  (db' = db /\ exists e, r = Raise e) \/
  exists row body first,
    load_published_or_raise (db_templates db) t (sr_template_slug rq) = Ok row /\
    template_body_from_row row = Ok body /\
    validate_params_against_template body (sr_params rq) = Ok tt /\
    head (tb_steps body) = Some first /\
    rid ∉ rr_run_id <$> db_runs db /\
    db' = set_states (fun l => l ++ imap (new_state rid now) (tb_steps body))
            (set_runs (fun l => l ++ [new_run t sub rq row rid now]) db) /\
    r = (step ← lift_engine (current_step_body body (step_id first) (sr_target rq) (sr_params rq));
         Ok {| cs_run_id := rid; cs_template_slug := tr_slug row; cs_template_version := tr_version row;
               cs_position := {| pos_n := 1; pos_total := length (tb_steps body) |};
               cs_current_step := step |}).
Proof.
  unfold start_run. intros H. txn_read H row Hrow. txn_read H body Hbody. txn_read H u Hpar.
  txn_read H first0 Hfirst. txn_read H u' Hkeys. rewrite commit_bind in H.
  right. exists row, body, first0. apply ok_or_Ok in Hfirst. apply guard_or_Ok in Hkeys. to_prop.
  rewrite lift_bind in H.
  assert (validate_params_against_template body (sr_params rq) = Ok tt) as Hp.
  { unfold lift_missing in Hpar. destruct (validate_params_against_template _ _) as [[]|]; done. }
  destruct (lift_engine _) as [step|e]; injection H as <- <-; done.
Qed.

Lemma new_states_ids rid now steps : ss_step_id <$> imap (new_state rid now) steps = step_id <$> steps.
Proof. rewrite fmap_imap. apply list_eq. intros j. rewrite list_lookup_imap, list_lookup_fmap. done. Qed.

Lemma new_states_run rid now steps s : s ∈ imap (new_state rid now) steps -> ss_run_id s = rid.
Proof. intros (j & Hj)%list_elem_of_lookup. rewrite list_lookup_imap in Hj. by destruct (steps !! j); simplify_eq/=. Qed.

Lemma new_states_at rid now steps : states_at 0 step_in_progress (imap (new_state rid now) steps).
Proof.
  intros j s. rewrite list_lookup_imap. destruct (steps !! j) as [st|]; intros; simplify_eq/=. by destruct j.
Qed.

Lemma new_states_keys rid now steps :
  NoDup (step_id <$> steps) -> NoDup (ss_key <$> imap (new_state rid now) steps).
Proof.
  intros Hnd. apply NoDup_fmap_1 with snd. rewrite <- list_fmap_compose.
  assert (snd ∘ ss_key <$> imap (new_state rid now) steps = step_id <$> steps) as ->; [|done].
  apply new_states_ids.
Qed.

Lemma load_states_app db l rid :
  load_step_states (set_states (fun l0 => l0 ++ l) db) rid =
  load_step_states db rid ++ select_where (fun s => bool_decide (ss_run_id s = rid)) l.
Proof. unfold load_step_states, select_where. simpl. apply List.filter_app. Qed.

Lemma select_all {A} (p : A -> bool) l : (forall x, x ∈ l -> p x = true) -> select_where p l = l.
Proof.
  unfold select_where. induction l as [|x l IH]; intros H; [done|]. simpl. rewrite H by left. f_equal.
  apply IH. intros y Hy. apply H. by right.
Qed.

Lemma select_none {A} (p : A -> bool) l : (forall x, x ∈ l -> p x = false) -> select_where p l = [].
Proof.
  unfold select_where. induction l as [|x l IH]; intros H; [done|]. simpl. rewrite H by left.
  apply IH. intros y Hy. apply H. by right.
Qed.

Lemma run_ok_ext db db' r :
  db_templates db' = db_templates db ->
  load_step_states db' (rr_run_id r) = load_step_states db (rr_run_id r) ->
  run_ok db r -> run_ok db' r.
Proof. intros Ht Hl [Hp Hs Hc Ha]. constructor; rewrite ?Ht, ?Hl; done. Qed.

Lemma start_inv t sub rq rid now db : runs_inv db -> runs_inv (fst (start_run t sub rq rid now db)).
Proof.
  intros Hinv. destruct (start_run t sub rq rid now db) as [db' r] eqn:H. simpl.
  apply start_cases in H as
    [[-> _]|(row & body & first0 & Hrow & Hbody & Hpar & Hfirst & Hfresh & -> & _)]; [done|].
  apply load_published_Ok in Hrow as (Hin & Ht & Hslug & Hst).
  pose proof (body_from_row_valid _ _ Hbody) as Hval.
  set (run := new_run t sub rq row rid now). set (db1 := set_runs (fun l => l ++ [run]) db).
  set (states := imap (new_state rid now) (tb_steps body)).
  assert (forall rid', load_step_states db1 rid' = load_step_states db rid') as Hdb1 by done.
  assert (forall s, s ∈ db_states db -> ss_run_id s <> rid) as Hno.
  { intros s Hs <-. by apply Hfresh, (ri_fk _ Hinv). }
  assert (load_step_states (set_states (fun l => l ++ states) db1) rid = states) as Hmine.
  { rewrite load_states_app, Hdb1. unfold load_step_states. rewrite select_none, select_all; [done|..].
    - intros s Hs. apply bool_decide_eq_true. by eapply new_states_run.
    - intros s Hs. apply bool_decide_eq_false. by apply Hno. }
  assert (forall rid', rid' <> rid ->
    load_step_states (set_states (fun l => l ++ states) db1) rid' = load_step_states db rid') as Hothers.
  { intros rid' Hne. rewrite load_states_app, Hdb1, select_none, app_nil_r; [done|].
    intros s Hs. apply bool_decide_eq_false. by rewrite (new_states_run _ _ _ _ Hs). }
  constructor; simpl.
  - apply Hinv.
  - rewrite fmap_app. simpl. apply NoDup_app. split_and!; [apply Hinv| |apply NoDup_singleton].
    intros y Hy ->%list_elem_of_singleton. done.
  - rewrite fmap_app. apply NoDup_app. split_and!; [apply Hinv| |].
    + intros k (s & -> & Hs)%list_elem_of_fmap (s' & Hk & Hs')%list_elem_of_fmap.
      injection Hk as Hk _. apply (Hno s Hs). rewrite Hk. by eapply new_states_run.
    + apply new_states_keys. by apply validate_template_NoDup.
  - intros s [Hs|Hs]%elem_of_app; rewrite fmap_app, elem_of_app.
    + left. by apply (ri_fk _ Hinv).
    + right. rewrite (new_states_run _ _ _ _ Hs). left.
  - intros r' [Hr'|Hr']%elem_of_app.
    + assert (rr_run_id r' <> rid) as Hne by (intros <-; by apply Hfresh, list_elem_of_fmap_2).
      apply (run_ok_ext db); [done|by apply Hothers|by apply Hinv].
    + apply list_elem_of_singleton in Hr' as ->. constructor; simpl; rewrite ?Hmine; try done.
      * exists body. split_and!; [|apply new_states_ids|done]. exists row. split_and!; [|congruence|done].
        simpl. rewrite <- Ht. apply load_exact_elem; [apply Hinv|done].
      * exists 0, step_in_progress. split_and!; [|by left|apply new_states_at].
        unfold states. rewrite length_imap. by destruct (tb_steps body); [|simpl; lia].
Qed.

Lemma abort_cases t sub rid reason admin aid dur now db db' r :
  abort_run t sub rid reason admin aid dur now db = (db', r) ->
  (db' = db /\ exists e, r = Raise e) \/
  exists run, run ∈ db_runs db /\ rr_tenant_id run = t /\ rr_run_id run = rid /\
    (rr_assigned_to run = sub \/ admin = true) /\ rr_state run = run_in_progress /\
    db' = add_audit (build_abort_audit_row t sub rid (current_step_id_or_none (load_step_states db rid))
                       (rr_work_ref run) reason dur aid now)
            (update_run rid (mark_abandoned now) db) /\
    r = Ok {| ar_run_id := rid; ar_abandoned_at := now |}.
Proof.
  unfold abort_run. intros H. txn_read H run Hrun. txn_read H u Hwho. txn_read H u' Hterm.
  destruct u'. rewrite read_bind, commit_bind in H.
  apply load_run_Ok in Hrun as (Hin & Ht & Hrid). apply guard_or_Ok in Hwho.
  apply refuse_if_terminal_Ok in Hterm. injection H as <- <-. right. exists run.
  apply orb_true_iff in Hwho. rewrite bool_decide_eq_true in Hwho. by rewrite Hrid.
Qed.

Lemma abort_inv t sub rid reason admin aid dur now db :
  runs_inv db -> runs_inv (fst (abort_run t sub rid reason admin aid dur now db)).
Proof.
  intros Hinv. destruct (abort_run _ _ _ _ _ _ _ _ db) as [db' r] eqn:H. simpl.
  apply abort_cases in H as [[-> _]|(run & Hin & _ & <- & _ & Hst & -> & _)]; [done|].
  destruct (ri_runs _ Hinv _ Hin) as [Hp Hs Hc Ha]. rewrite Hst in *.
  apply (inv_write db _ run (mark_abandoned now)); try done.
  constructor; simpl; try done. split; [by intros ?%Hc|done].
Qed.

Lemma reassign_cases t rid sub' now db db' r :
  reassign_run t rid sub' now db = (db', r) ->
  (db' = db /\ exists e, r = Raise e) \/
  exists run, run ∈ db_runs db /\ rr_tenant_id run = t /\ rr_run_id run = rid /\
    rr_state run = run_in_progress /\ db' = update_run rid (set_assignee sub') db.
Proof.
  unfold reassign_run. intros H. txn_read H run Hrun. txn_read H u Hterm. destruct u.
  rewrite commit_bind in H. apply load_run_Ok in Hrun as (Hin & Ht & Hrid).
  apply refuse_if_terminal_Ok in Hterm. injection H as <- <-. right. exists run. by rewrite Hrid.
Qed.

Lemma reassign_inv t rid sub' now db : runs_inv db -> runs_inv (fst (reassign_run t rid sub' now db)).
Proof.
  intros Hinv. destruct (reassign_run _ _ _ _ db) as [db' r] eqn:H. simpl.
  apply reassign_cases in H as [[-> _]|(run & Hin & _ & <- & Hst & ->)]; [done|].
  destruct (ri_runs _ Hinv _ Hin) as [Hp Hs Hc Ha].
  apply (inv_write db _ run (set_assignee sub')); try done.
Qed.

Lemma next_inv d t sub rid rv now db :
  runs_inv db -> quiet d -> runs_inv (fst (next_step_run d t sub rid rv now db)).
Proof.
  intros Hinv Hq. destruct (next_step_run d t sub rid rv now db) as [db' r] eqn:H. simpl.
  apply next_step_phases in H as [(_ & _ & _ & ->)|(inputs & db1 & vr & Hinp & Hres & H)]; [done|].
  pose proof (resolve_quiet d (ni_run inputs) (ni_current_step inputs) rv db Hq) as Hdb.
  rewrite Hres in Hdb. simpl in Hdb. subst db1. destruct vr; [|by destruct H as [-> _]].
  by eapply write_inv.
Qed.

(** A run keeps its pinned template whatever is done to the templates. *)
Lemma pinned_kept templates templates' r body :
  templates_inv templates -> template_step templates templates' ->
  pinned templates r body -> pinned templates' r body.
Proof.
  intros Hinv Hstep (row & Hrow & Hst & Hb).
  pose proof (ti_keys _ (template_step_inv _ _ Hstep Hinv)) as Hnd.
  apply load_exact_Some in Hrow as (Hin & Ht & Hs & Hv).
  destruct (template_step_keeps _ _ row Hinv Hstep Hin Hst) as [Hk|[_ Hk]].
  - exists row. split_and!; [|done..]. rewrite <- Ht, <- Hs, <- Hv. by apply load_exact_elem.
  - exists (set_status tpl_deprecated row). split_and!; [|done..]. rewrite <- Ht, <- Hs, <- Hv.
    by apply (load_exact_elem _ (set_status tpl_deprecated row)).
Qed.

(** * Runs as a transition system *)

Definition set_catalog (ds : list EndpointDescriptor) (ss : list TenantOperationSetting) (db : RunsDb) : RunsDb := {|
  db_templates := db_templates db; db_descriptors := ds; db_settings := ss;
  db_runs := db_runs db; db_states := db_states db; db_audit := db_audit db |}.

Definition empty_db : RunsDb := {|
  db_templates := []; db_descriptors := []; db_settings := []; db_runs := []; db_states := []; db_audit := [] |}.

(** One committed session.  An advance contributes its write phase, with the
    inputs some earlier read phase returned and any verify response: the other
    sessions may run in between. *)
Inductive session : RunsDb -> RunsDb -> Prop :=
| ses_template db templates' :
    template_step (db_templates db) templates' -> session db (set_templates templates' db)
| ses_catalog db ds ss : session db (set_catalog ds ss db)
| ses_start t sub rq rid now db : session db (fst (start_run t sub rq rid now db))
| ses_write t sub rid inputs vr now db :
    session db (fst (write_next_step_outcome t sub rid inputs vr now db))
| ses_abort t sub rid reason admin aid dur now db :
    session db (fst (abort_run t sub rid reason admin aid dur now db))
| ses_reassign t rid sub' now db : session db (fst (reassign_run t rid sub' now db)).

(** One whole request, with no other request between the phases of an advance. *)
Inductive request : RunsDb -> RunsDb -> Prop :=
| rq_template db templates' :
    template_step (db_templates db) templates' -> request db (set_templates templates' db)
| rq_catalog db ds ss : request db (set_catalog ds ss db)
| rq_start t sub rq rid now db : request db (fst (start_run t sub rq rid now db))
| rq_next d t sub rid rv now db : quiet d -> request db (fst (next_step_run d t sub rid rv now db))
| rq_abort t sub rid reason admin aid dur now db :
    request db (fst (abort_run t sub rid reason admin aid dur now db))
| rq_reassign t rid sub' now db : request db (fst (reassign_run t rid sub' now db)).

Lemma empty_inv : runs_inv empty_db.
Proof. constructor; simpl; [apply templates_inv_nil|constructor|constructor|set_solver|set_solver]. Qed.

Lemma template_inv db templates' :
  runs_inv db -> template_step (db_templates db) templates' -> runs_inv (set_templates templates' db).
Proof.
  intros Hinv Hstep. constructor; simpl; try apply Hinv.
  - by eapply template_step_inv; [|apply Hinv].
  - intros r Hr. destruct (ri_runs _ Hinv r Hr) as [(body & Hp & Hrest) Hs Hc Ha].
    constructor; try done. exists body. split; [|done]. by eapply pinned_kept; [apply Hinv|..].
Qed.

Lemma catalog_inv db ds ss : runs_inv db -> runs_inv (set_catalog ds ss db).
Proof.
  intros Hinv. constructor; simpl; try apply Hinv.
  intros r Hr. apply (run_ok_ext db); [done..|by apply Hinv].
Qed.

Lemma request_inv db db' : request db db' -> runs_inv db -> runs_inv db'.
Proof.
  intros [] Hinv; auto using template_inv, catalog_inv, start_inv, next_inv, abort_inv, reassign_inv.
Qed.

Lemma requests_inv db : rtc request empty_db db -> runs_inv db.
Proof.
  intros H. remember empty_db as start eqn:Hs.
  assert (runs_inv start) as Hinv by (subst; apply empty_inv). clear Hs.
  induction H as [|db0 db1 db2 Hstep _ IH]; [done|]. eapply IH, request_inv; eauto.
Qed.

(** C24. The state machine of a run.  After any sequence of requests, the template
    version of every run can be loaded, whatever was edited, deprecated or
    discarded since; the run has one step row for each step of that version (here in
    their order, the order of insertion, which the code does not rely on);
    a run that is not completed has exactly one active step, with the steps
    before it verified and those after it pending; a completed run has every
    step verified; and the two end timestamps tell the two final states apart. *)
Theorem run_state_machine db r :
  rtc request empty_db db -> r ∈ db_runs db ->
  (exists body, load_pinned_template_body db r = Ok body /\
     ss_step_id <$> load_step_states db (rr_run_id r) = step_id <$> tb_steps body) /\
  run_shape (rr_state r) (load_step_states db (rr_run_id r)) /\
  (is_Some (rr_completed_at r) <-> rr_state r = run_completed) /\
  (is_Some (rr_abandoned_at r) <-> rr_state r = run_abandoned).
Proof.
  intros Hinv%requests_inv Hr.
  destruct (ri_runs _ Hinv r Hr) as [(body & (row & Hrow & _ & Hb) & Hids & _) Hs Hc Ha].
  split; [|done]. exists body. split; [|done].
  unfold load_pinned_template_body, load_pinned_template_or_none. by rewrite Hrow, Hb.
Qed.

(** ** Safety under every interleaving *)

Lemma update_run_keeps db rid f r :
  r ∈ db_runs db -> rr_run_id r <> rid -> r ∈ db_runs (update_run rid f db).
Proof.
  intros Hr Hne. apply elem_of_update. exists r. split; [done|]. by rewrite bool_decide_false.
Qed.

Lemma update_run_ids db rid f :
  (forall r, rr_run_id (f r) = rr_run_id r) ->
  rr_run_id <$> db_runs (update_run rid f db) = rr_run_id <$> db_runs db.
Proof. intros Hf. by apply update_where_keys. Qed.

(** Whatever a session writes, the rows of the run [r] are not touched. *)
Definition untouched (r : RunbookRun) (db db' : RunsDb) : Prop :=
  r ∈ db_runs db' /\ load_step_states db' (rr_run_id r) = load_step_states db (rr_run_id r).

Lemma write_untouched t sub rid inputs vr now db r :
  NoDup (rr_run_id <$> db_runs db) -> r ∈ db_runs db ->
  rr_state r <> run_in_progress \/ rr_assigned_to r <> sub \/ rr_run_id r <> rid ->
  untouched r db (fst (write_next_step_outcome t sub rid inputs vr now db)).
Proof.
  intros Hnd Hr Hne. destruct (write_next_step_outcome _ _ _ _ _ _ db) as [db' res] eqn:H. simpl.
  destruct (write_cases _ _ _ _ _ _ _ _ _ H) as
    [[-> _]|(run & row & o & Hin & _ & Hrid & Hsub & Hst & _ & _ & _ & He)]; [by split|].
  assert (rr_run_id r <> rr_run_id run) as Hid.
  { intros Heq. assert (r = run) as -> by (by eapply (key_inj rr_run_id)). naive_solver. }
  destruct He; split; rewrite ?load_states_update_run, ?load_states_other by done; try done.
  apply (update_run_keeps (update_state _ _ db)); done.
Qed.

Lemma session_untouched db db' r :
  session db db' -> NoDup (rr_run_id <$> db_runs db) -> r ∈ db_runs db ->
  is_terminal (rr_state r) = true -> untouched r db db'.
Proof.
  intros Hs Hnd Hr Hterm. assert (rr_state r <> run_in_progress) as Hst by (by destruct (rr_state r)).
  destruct Hs as [db t' _|db ds ss|t sub rq rid now db|t sub rid inputs vr now db
                 |t sub rid reason admin aid dur now db|t rid sub' now db]; [by split..| | | |].
  - destruct (start_run t sub rq rid now db) as [db' res] eqn:H. simpl.
    apply start_cases in H as [[-> _]|(row & body & f & _ & _ & _ & _ & Hfresh & -> & _)]; [by split|].
    split; [simpl; apply elem_of_app; by left|]. rewrite load_states_app, select_none, app_nil_r; [done|].
    intros s Hs%new_states_run. apply bool_decide_eq_false. rewrite Hs. intros ->.
    by apply Hfresh, list_elem_of_fmap_2.
  - apply write_untouched; auto.
  - destruct (abort_run _ _ _ _ _ _ _ _ db) as [db' res] eqn:H. simpl.
    apply abort_cases in H as [[-> _]|(run & Hin & _ & Hrid & _ & Hrst & -> & _)]; [by split|].
    split; [|done]. apply (update_run_keeps db); [done|]. intros Heq.
    assert (r = run) as -> by (eapply (key_inj rr_run_id); [done|done|done|congruence]). done.
  - destruct (reassign_run _ _ _ _ db) as [db' res] eqn:H. simpl.
    apply reassign_cases in H as [[-> _]|(run & Hin & _ & Hrid & Hrst & ->)]; [by split|].
    split; [|done]. apply (update_run_keeps db); [done|]. intros Heq.
    assert (r = run) as -> by (eapply (key_inj rr_run_id); [done|done|done|congruence]). done.
Qed.

Lemma session_ids db db' :
  session db db' -> NoDup (rr_run_id <$> db_runs db) -> NoDup (rr_run_id <$> db_runs db').
Proof.
  intros Hs Hnd.
  destruct Hs as [db t' _|db ds ss|t sub rq rid now db|t sub rid inputs vr now db
                 |t sub rid reason admin aid dur now db|t rid sub' now db]; [done..| | | |].
  - destruct (start_run t sub rq rid now db) as [db' res] eqn:H. simpl.
    apply start_cases in H as [[-> _]|(row & body & f & _ & _ & _ & _ & Hfresh & -> & _)]; [done|].
    simpl. rewrite fmap_app. simpl. apply NoDup_app. split_and!; [done| |apply NoDup_singleton].
    by intros x Hx ->%list_elem_of_singleton.
  - destruct (write_next_step_outcome _ _ _ _ _ _ db) as [db' res] eqn:H. simpl.
    destruct (write_cases _ _ _ _ _ _ _ _ _ H) as [[-> _]|(run & row & o & _ & _ & _ & _ & _ & _ & _ & _ & He)];
      [done|]. destruct He; [done| |done]. by rewrite update_run_ids.
  - destruct (abort_run _ _ _ _ _ _ _ _ db) as [db' res] eqn:H. simpl.
    apply abort_cases in H as [[-> _]|(run & _ & _ & _ & _ & _ & -> & _)]; [done|].
    simpl. by rewrite update_where_keys.
  - destruct (reassign_run _ _ _ _ db) as [db' res] eqn:H. simpl.
    apply reassign_cases in H as [[-> _]|(run & _ & _ & _ & _ & ->)]; [done|].
    simpl. by rewrite update_where_keys.
Qed.

(** A run that is completed or abandoned is never written again, under every
    interleaving of sessions, also when the write phase of an advance comes after
    an abort it raced with: its row and its step rows stay as they are. *)
Theorem terminal_runs_are_frozen db db' r :
  rtc session db db' -> NoDup (rr_run_id <$> db_runs db) -> r ∈ db_runs db ->
  is_terminal (rr_state r) = true -> untouched r db db'.
Proof.
  intros Hs. induction Hs as [|db0 db1 db2 H1 H2 IH]; intros Hnd Hr Hterm; [by split|].
  destruct (session_untouched _ _ r H1 Hnd Hr Hterm) as [Hr1 Hl1].
  destruct (IH (session_ids _ _ H1 Hnd) Hr1 Hterm) as [Hr2 Hl2]. split; [done|congruence].
Qed.

(** Only the assignee moves a run, judged at the moment of the write: a write
    phase leaves alone every run that is not in progress, not the one named, or
    not assigned to the caller, and when it changes anything at all the named run
    is in progress and the caller's. *)
Theorem only_the_assignee_advances t sub rid inputs vr now db db' r :
  NoDup (rr_run_id <$> db_runs db) ->
  write_next_step_outcome t sub rid inputs vr now db = (db', r) ->
  (db' <> db -> exists run, run ∈ db_runs db /\ rr_tenant_id run = t /\ rr_run_id run = rid /\
     rr_assigned_to run = sub /\ rr_state run = run_in_progress) /\
  (forall run, run ∈ db_runs db ->
     rr_state run <> run_in_progress \/ rr_assigned_to run <> sub \/ rr_run_id run <> rid ->
     untouched run db db').
Proof.
  intros Hnd H. split.
  - intros Hne. destruct (write_cases _ _ _ _ _ _ _ _ _ H) as
      [[-> _]|(run & row & o & Hin & Ht & Hrid & Hsub & Hst & _)]; [done|eauto 10].
  - intros run Hrun Hn. assert (db' = fst (write_next_step_outcome t sub rid inputs vr now db)) as ->
      by (by rewrite H). by apply write_untouched.
Qed.

(** An abort is on the record: it succeeds only for the assignee or an admin
    and only on a run in progress; it then marks that run abandoned and adds
    exactly one audit row, which names the run, the step it was on, the caller,
    the reason and the run's change ticket.  An abort that is refused changes
    nothing. *)
Theorem abort_is_audited t sub rid reason admin aid dur now db db' r :
  NoDup (rr_run_id <$> db_runs db) ->
  abort_run t sub rid reason admin aid dur now db = (db', r) ->
  (forall e, r = Raise e -> db' = db) /\
  (forall resp, r = Ok resp ->
     exists run row, run ∈ db_runs db /\ rr_run_id run = rid /\ rr_tenant_id run = t /\
       (rr_assigned_to run = sub \/ admin = true) /\ rr_state run = run_in_progress /\
       mark_abandoned now run ∈ db_runs db' /\ db_states db' = db_states db /\
       db_audit db' = db_audit db ++ [row] /\
       al_run_id row = Some rid /\ al_operator_sub row = sub /\ al_tenant_id row = t /\
       al_path row = "runbook.abort" /\ al_work_ref row = rr_work_ref run /\
       al_step_id row = current_step_id_or_none (load_step_states db rid) /\
       al_raw_payload row = JDict [("reason", JStr reason)]).
Proof.
  intros Hnd H. apply abort_cases in H as
    [[-> [e ->]]|(run & Hin & Ht & Hrid & Hwho & Hst & -> & ->)]; [done|].
  split; [done|]. intros resp [= <-]. exists run. eexists. split_and!; try done.
  simpl. rewrite <- Hrid. apply elem_of_update_key; [done..|]. by left.
Qed.

(** ** The order of the rows does not matter *)

Lemma find_unique_perm {A} (p : A -> bool) l l' x :
  l ≡ₚ l' -> List.find p l = Some x -> (forall y, y ∈ l -> p y = true -> y = x) ->
  List.find p l' = Some x.
Proof.
  intros Hp Hf Hu. apply find_Some_iff in Hf as [Hx Hpx]. destruct (List.find p l') as [y|] eqn:Hy.
  - apply find_Some_iff in Hy as [Hy Hpy]. f_equal. apply Hu; [by rewrite Hp|done].
  - rewrite find_None_iff in Hy. rewrite Hy in Hpx; [done|]. by rewrite <- Hp.
Qed.

Lemma find_None_perm {A} (p : A -> bool) l l' : l ≡ₚ l' -> List.find p l = None -> List.find p l' = None.
Proof. intros Hp. rewrite !find_None_iff. intros H r Hr. apply H. by rewrite Hp. Qed.

(** The query for a run's step rows has no ORDER BY; for a run that is not
    completed the current step is nevertheless determined: it is the same for
    every order in which the database may return the rows. *)
Theorem current_step_ignores_row_order db r states' :
  runs_inv db -> r ∈ db_runs db -> rr_state r <> run_completed ->
  states' ≡ₚ load_step_states db (rr_run_id r) ->
  is_Some (current_step_id_or_none states') /\
  current_step_id_or_none states' = current_step_id_or_none (load_step_states db (rr_run_id r)).
Proof.
  intros Hinv Hr Hne Hp. pose proof (ro_shape _ _ (ri_runs _ Hinv r Hr)) as Hs.
  assert (exists i c, i < length (load_step_states db (rr_run_id r)) /\ active c /\
            states_at i c (load_step_states db (rr_run_id r))) as (i & c & Hi & Hc & Hl)
    by (by destruct (rr_state r)).
  destruct (lookup_lt_is_Some_2 _ _ Hi) as [x Hx].
  set (l := load_step_states db (rr_run_id r)) in *.
  assert (forall st, active st -> forall y, y ∈ l -> bool_decide (ss_state y = st) = true -> y = x) as Huniq.
  { intros st Hst y [j Hj]%list_elem_of_lookup Hy. to_prop. rewrite (Hl _ _ Hj) in Hy.
    assert (j = i) as -> by (apply (step_shape_active i c); [done|by rewrite Hy]). congruence. }
  assert (forall st, active st -> List.find (fun s => bool_decide (ss_state s = st)) states' =
            List.find (fun s => bool_decide (ss_state s = st)) l) as Hfind.
  { intros st Hst. symmetry in Hp. destruct (List.find _ l) as [y|] eqn:Hf.
    - eapply find_unique_perm; [done..|]. intros z Hz Hpz. apply find_Some_iff in Hf as [Hy Hpy].
      rewrite (Huniq st Hst y Hy Hpy). by apply (Huniq st).
    - by eapply find_None_perm. }
  assert (current_step_id_or_none states' = current_step_id_or_none l) as Heq.
  { unfold current_step_id_or_none. rewrite !Hfind; [done|by right|by left]. }
  split; [|done]. rewrite Heq, (current_step_at _ _ _ _ Hl Hc Hx). by eexists.
Qed.

(** ** What an operator may list *)

Lemma summarize_run t db row s : summarize t db row = Ok s -> su_run s = row.
Proof. unfold summarize. intros H. invert_ok. by destruct x0 as [[? ?] ?]; simplify_eq. Qed.

Lemma project_total db r steps :
  runs_inv db -> r ∈ db_runs db -> is_Ok (project_current_step db r steps).
Proof.
  intros Hinv Hr. unfold project_current_step. destruct (negb _ || _) eqn:Hb; [by eexists|].
  to_prop. pose proof (ro_shape _ _ (ri_runs _ Hinv r Hr)) as Hs. rewrite H in Hs.
  destruct Hs as (i & c & Hi & Hc & Hl). destruct (lookup_lt_is_Some_2 _ _ Hi) as [x Hx].
  rewrite (current_step_at _ _ _ _ Hl Hc Hx).
  rewrite (get_step_state_at _ i x); [by eexists|by apply load_states_NoDup, Hinv|done].
Qed.

Lemma summarize_total t db r :
  runs_inv db -> r ∈ db_runs db -> rr_tenant_id r = t -> is_Ok (summarize t db r).
Proof.
  intros Hinv Hr <-. destruct (ro_pinned _ _ (ri_runs _ Hinv r Hr)) as (body & (row & Hrow & _ & Hb) & _).
  unfold summarize, load_pinned_template_or_none. rewrite Hrow, Hb. simpl.
  destruct (project_total db r (tb_steps body) Hinv Hr) as [[[id st] pos] ->]. by eexists.
Qed.

(** Listing runs never fails on a database the service can reach, returns at
    most [limit] runs of the caller's tenant, and shows a caller who is no admin
    only the runs assigned to them, whatever the filter asks for. *)
Theorem list_runs_scoped t sub admin f limit db :
  runs_inv db -> (0 <= limit)%Z ->
  exists out, list_runs t sub admin f limit db = Ok out /\
    (length out <= Z.to_nat limit)%nat /\
    forall s, s ∈ out -> su_run s ∈ db_runs db /\ rr_tenant_id (su_run s) = t /\
      (admin = false -> rr_assigned_to (su_run s) = sub) /\
      (forall a, admin = true -> lf_assignee f = Some a -> rr_assigned_to (su_run s) = a).
Proof.
  intros Hinv Hlim. unfold list_runs. destruct (Z.ltb_spec limit 0); [lia|].
  destruct (Z.eqb_spec limit 0) as [->|Hn0]; [exists []; split_and!; [done|done|set_solver]|].
  set (rows := take _ _).
  assert (forall r, r ∈ rows -> r ∈ db_runs db /\ listed t sub admin f r = true) as Hrows.
  { intros r (j & Hj & _)%elem_of_take. apply list_elem_of_lookup_2 in Hj.
    rewrite merge_sort_Permutation in Hj. by apply elem_of_select in Hj. }
  destruct (res_map_total (summarize t db) rows) as [out Hout].
  { apply Forall_forall. intros r [Hr Hl]%Hrows. unfold listed in Hl. to_prop. by apply summarize_total. }
  exists out. split; [done|]. apply res_map_Ok in Hout. split.
  - rewrite <- (Forall2_length _ _ _ Hout). unfold rows. rewrite length_take. lia.
  - intros s [j Hj]%list_elem_of_lookup.
    destruct (Forall2_lookup_r _ _ _ _ _ Hout Hj) as (r & Hjr & Hsum).
    apply summarize_run in Hsum as ->. apply list_elem_of_lookup_2, Hrows in Hjr as [Hr Hl].
    unfold listed in Hl. to_prop. split_and!; try done.
    + intros ->. simpl in *. to_prop. congruence.
    + intros a -> Ha. rewrite Ha in *. simpl in *. to_prop. congruence.
Qed.

(** ** A run can be driven to its end *)

Lemma index_of_step_elem steps s : s ∈ steps -> is_Some (index_of_step steps (step_id s)).
Proof.
  induction steps as [|s0 steps IH]; [set_solver|]. intros [->|Hs]%elem_of_cons; simpl.
  - rewrite bool_decide_true by done. by eexists.
  - case_bool_decide; [by eexists|]. destruct (IH Hs) as [n ->]. by eexists.
Qed.

Lemma position_total body s : s ∈ tb_steps body -> is_Ok (position_for_step body (step_id s)).
Proof.
  intros Hs. unfold position_for_step, position_from_step_id. simpl.
  destruct (index_of_step_elem _ _ Hs) as [n ->]. by eexists.
Qed.

(** Answering yes to a confirm gate. *)
Lemma advance_yes t i s p target params at_ :
  validate_template t = true -> tb_steps t !! i = Some s -> step_verify s = ConfirmVerify p ->
  (forall s', s' ∈ tb_steps t -> is_Ok (build_step_body target params s')) ->
  exists o, advance t (step_id s) step_in_progress target params (Some (ConfirmVerifyResponse ans_yes)) at_ = Ok o /\
    match tb_steps t !! S i with
    | None => ao_kind o = out_completed
    | Some s' => ao_kind o = out_next_step /\ exists b, ao_next_step_body o = Some b /\ sb_id b = step_id s'
    end.
Proof.
  intros Hv Hi Hs Hbuild. unfold advance. simpl.
  rewrite find_step_elem by (try done; by eapply list_elem_of_lookup_2).
  simpl. rewrite Hs. simpl. rewrite (next_step_lookup _ _ _ Hv Hi). simpl.
  destruct (tb_steps t !! S i) as [s'|] eqn:Hn; [|by eexists].
  destruct (Hbuild s') as [b Hb]; [by eapply list_elem_of_lookup_2|]. rewrite Hb. simpl.
  eexists. split; [done|]. split; [done|]. exists b. split; [done|]. by eapply build_step_body_id.
Qed.

(** The run [run] of [sub] stands at step [i] of its template. *)
Record at_step (db : RunsDb) (run : RunbookRun) (body : RunbookTemplateBody) (i : nat) : Prop := {
  as_inv : runs_inv db;
  as_run : run ∈ db_runs db;
  as_state : rr_state run = run_in_progress;
  as_pinned : pinned (db_templates db) run body;
  as_states : states_at i step_in_progress (load_step_states db (rr_run_id run));
  as_step : i < length (tb_steps body);
}.

Lemma at_step_inputs db run body i :
  at_step db run body i ->
  exists inputs s x,
    load_next_step_inputs (rr_tenant_id run) (rr_assigned_to run) (rr_run_id run) db = Ok inputs /\
    ni_run inputs = run /\ ni_template_body inputs = body /\ ni_current_step inputs = s /\
    situation db inputs i x s.
Proof.
  intros [Hinv Hr Hst Hp Hl Hi]. pose proof (ri_runs _ Hinv run Hr) as Hok.
  destruct (ro_pinned _ _ Hok) as (body' & Hp' & Hids & Hpar).
  assert (load_pinned_template_body db run = Ok body) as Hbody.
  { destruct Hp as (row & Hrow & _ & Hb). unfold load_pinned_template_body, load_pinned_template_or_none.
    by rewrite Hrow, Hb. }
  assert (body' = body) as -> by (by eapply pinned_loads).
  pose proof (load_states_NoDup db (rr_run_id run) (ri_state_keys _ Hinv)) as Hnd.
  destruct (lookup_lt_is_Some_2 (tb_steps body) i Hi) as [s Hs].
  assert ((ss_step_id <$> load_step_states db (rr_run_id run)) !! i = Some (step_id s)) as Hx
    by (by rewrite Hids, list_lookup_fmap, Hs).
  rewrite list_lookup_fmap in Hx. destruct (load_step_states db (rr_run_id run) !! i) as [x|] eqn:Hxi; [|done].
  injection Hx as Hx.
  assert (validate_template body = true) as Hval
    by (destruct Hp as (row & _ & _ & Hb); by eapply body_from_row_valid).
  assert (ss_state x = step_in_progress) as Hxs by (rewrite (Hl _ _ Hxi); apply step_shape_at).
  exists {| ni_run := run; ni_template_body := body; ni_current_step := s;
            ni_current_step_id := ss_step_id x; ni_current_state := step_in_progress;
            ni_run_target := rr_target run; ni_run_params := rr_params run |}, s, x.
  split; [|by split_and!; try done; constructor].
  unfold load_next_step_inputs.
  rewrite (proj2 (require_assignee_Ok _ _ _ _ run)) by (split; [by apply load_run_elem; [apply Hinv|]|done]).
  simpl. rewrite (proj2 (refuse_if_terminal_Ok run)) by done. simpl. rewrite Hbody. simpl.
  unfold current_step_id_or_raise. rewrite (current_step_at _ i step_in_progress x) by (done || by left).
  simpl. rewrite (get_step_state_at _ i x) by done. simpl. rewrite Hxs. simpl.
  unfold service_find_step. rewrite (find_unique step_id _ _ s); [done|..].
  - by apply validate_template_NoDup.
  - intros s' Hs'. to_prop. congruence.
  - by eapply list_elem_of_lookup_2.
  - by apply bool_decide_eq_true.
Qed.

(** Templates and runs on which the engine is total and every gate is a question. *)
Definition all_confirm (body : RunbookTemplateBody) : Prop :=
  Forall (fun s => (exists p, step_verify s = ConfirmVerify p) /\ prompt_allowlisted s = true) (tb_steps body).

Definition plain_target (run : RunbookRun) : Prop :=
  rr_target run <> "" /\ has_char "$" (rr_target run) = false /\ has_char "{" (rr_target run) = false.

Lemma steps_buildable db run body i s :
  at_step db run body i -> all_confirm body -> plain_target run -> s ∈ tb_steps body ->
  is_Ok (build_step_body (rr_target run) (rr_params run) s).
Proof.
  intros Hat Hall (Hne & Hd & Hb) Hs.
  destruct (at_step_inputs _ _ _ _ Hat) as (inputs & s0 & x & _ & Hrun & Hbody & _ & Hsit).
  pose proof (si_valid _ _ _ _ _ Hsit) as Hval. pose proof (si_params _ _ _ _ _ Hsit) as Hpar.
  rewrite Hbody in *. rewrite Hrun in Hpar. unfold all_confirm in Hall.
  apply build_step_body_total; try done.
  - apply validate_steps_spec in Hval as (_ & _ & H). by eapply Forall_forall in H.
  - by eapply Forall_forall in Hall as [_ ?].
  - intros n Hn. rewrite validate_params_spec in Hpar. eauto.
Qed.

(** The transaction of the write phase, when every check passes. *)
Lemma write_forward run inputs vr now db row o :
  load_run_or_raise db (rr_tenant_id run) (rr_run_id run) = Ok run -> rr_state run = run_in_progress ->
  get_step_state (load_step_states db (rr_run_id run)) (ni_current_step_id inputs) = Ok row ->
  ss_state row <> step_failed ->
  advance (ni_template_body inputs) (ni_current_step_id inputs) (ni_current_state inputs)
    (ni_run_target inputs) (ni_run_params inputs) vr (Some now) = Ok o ->
  write_next_step_outcome (rr_tenant_id run) (rr_assigned_to run) (rr_run_id run) inputs vr now db =
  apply_outcome run (ni_template_body inputs) (load_step_states db (rr_run_id run))
    (ni_current_step_id inputs) o now db.
Proof.
  intros Hrun Hst Hrow Hnf Hadv. unfold write_next_step_outcome.
  rewrite read_bind, (proj2 (require_assignee_Ok _ _ _ _ run)) by done.
  rewrite lift_bind, (proj2 (refuse_if_terminal_Ok run)) by done.
  rewrite read_bind, lift_bind, Hrow, lift_bind. rewrite bool_decide_false by done. simpl.
  by rewrite lift_bind, Hadv.
Qed.

Definition answer_yes (d : Dispatcher) (run : RunbookRun) (now : datetime) : run_txn NextStepResponse :=
  next_step_run d (rr_tenant_id run) (rr_assigned_to run) (rr_run_id run)
    (Some (ConfirmVerifyResponse ans_yes)) now.

Lemma yes_step d db run body i now :
  at_step db run body i -> all_confirm body -> plain_target run ->
  exists db' resp, answer_yes d run now db = (db', Ok resp) /\
    if decide (S i < length (tb_steps body)) then at_step db' run body (S i)
    else exists at_, mark_completed at_ run ∈ db_runs db'.
Proof.
  intros Hat Hall Hplain.
  pose proof (fun s => steps_buildable _ _ _ _ s Hat Hall Hplain) as Hbuild.
  destruct (at_step_inputs _ _ _ _ Hat) as (inputs & s & x & Hinp & Hrun & Hbody & Hcs & Hsit).
  pose proof (inputs_Ok _ _ _ _ _ Hinp) as (_ & _ & _ & _ & _ & _ & _ & _ & Htg & Hps & _).
  destruct Hat as [Hinv Hr Hst Hp Hl Hi].
  destruct Hsit as [Hnd Hx _ Hcur Hcst Hs Hsid Hids Hval _ _]. rewrite Hrun, Hbody in *.
  destruct (proj1 (Forall_forall _ _) Hall s) as [[p Hv] _]; [by eapply list_elem_of_lookup_2|].
  destruct (advance_yes body i s p (rr_target run) (rr_params run) (Some now) Hval Hs Hv Hbuild)
    as (o & Hadv & Ho).
  destruct (answer_yes d run now db) as [db' r] eqn:H. exists db'.
  assert (write_next_step_outcome (rr_tenant_id run) (rr_assigned_to run) (rr_run_id run) inputs
            (Some (ConfirmVerifyResponse ans_yes)) now db = (db', r)) as Hw.
  { unfold answer_yes, next_step_run in H. rewrite read_bind, Hinp in H. simpl in H.
    unfold resolve_verify_response in H. by rewrite Hcs, Hv in H. }
  pose proof (write_inv _ _ _ _ _ _ _ _ _ Hinv Hinp Hw) as Hinv'.
  rewrite (write_forward run inputs _ _ _ x o) in Hw;
    [|by apply load_run_elem; [apply Hinv|]|done|by rewrite Hcur; eapply get_step_state_at
     |by rewrite (Hl _ _ Hx), step_shape_at|by rewrite Hbody, Hcur, Hcst, Htg, Hps, <- Hsid].
  unfold apply_outcome in Hw. rewrite lift_bind, Hcur, (get_step_state_at _ i x) in Hw by done.
  destruct (tb_steps body !! S i) as [s'|] eqn:Hs'.
  - destruct Ho as (Hk & b & Hb & Hbid). rewrite Hk, Hb in Hw. simpl in Hw.
    assert ((ss_step_id <$> load_step_states db (rr_run_id run)) !! S i = Some (step_id s')) as Hy
      by (by rewrite Hids, list_lookup_fmap, Hs').
    rewrite list_lookup_fmap in Hy. destruct (load_step_states db (rr_run_id run) !! S i) as [y|] eqn:Hyi; [|done].
    injection Hy as Hy. rewrite lift_bind, lift_bind, Hbid, <- Hy, (get_step_state_at _ (S i) y) in Hw by done.
    rewrite commit_bind, lift_bind, Hbody in Hw.
    destruct (position_total body s') as [pos Hpos]; [by eapply list_elem_of_lookup_2|].
    rewrite Hy, Hpos in Hw. injection Hw as <- <-. eexists. split; [done|].
    rewrite decide_True by (by eapply lookup_lt_Some). constructor; try done.
    + rewrite !load_states_write by done. rewrite <- Hy. by apply states_at_next.
    + by eapply lookup_lt_Some.
  - rewrite Ho, commit_bind in Hw. injection Hw as <- <-. eexists. split; [done|].
    rewrite decide_False by (apply lookup_ge_None in Hs'; lia).
    eexists. simpl. apply (elem_of_update_key rr_run_id); [apply Hinv|done|by left].
Qed.

(** A run whose gates are all questions can be driven to its end: from any
    step, answering yes once per remaining step completes the run, and no answer
    on the way raises. *)
Theorem confirm_run_completes d db run body i now :
  at_step db run body i -> all_confirm body -> plain_target run ->
  exists at_, mark_completed at_ run ∈
    db_runs (Nat.iter (length (tb_steps body) - i) (fun db => fst (answer_yes d run now db)) db) /\
  forall k, k < length (tb_steps body) - i ->
    is_Ok (snd (answer_yes d run now
                  (Nat.iter k (fun db => fst (answer_yes d run now db)) db))).
Proof.
  intros Hat Hall Hplain. remember (length (tb_steps body) - i) as n eqn:Hn.
  revert db i Hat Hn. induction n as [|n IH]; intros db i Hat Hn.
  { destruct Hat. lia. }
  destruct (yes_step d db run body i now Hat Hall Hplain) as (db' & resp & Hy & Hnext).
  rewrite Nat.iter_succ_r, Hy. simpl. case_decide as Hlt.
  - destruct (IH db' (S i) Hnext) as (at_ & Hdone & Hk); [lia|]. exists at_. split; [done|].
    intros [|k] Hlt'; [by simpl; rewrite Hy; eexists|]. rewrite Nat.iter_succ_r, Hy. apply Hk. lia.
  - destruct Hnext as [at_ Hdone]. assert (n = 0) as -> by (destruct Hat; lia). exists at_.
    split; [done|]. intros k Hk. assert (k = 0) as -> by lia. simpl. rewrite Hy. by eexists.
Qed.

(** ** Edge cases of [start_run] *)

(** The run row is committed before the first step is built: when the engine
    cannot build it, [start_run] raises and leaves the run and its step rows
    behind. *)
Theorem failed_start_leaves_a_run t sub rq rid now db db' e :
  start_run t sub rq rid now db = (db', Raise (RunEngineError e)) ->
  exists run, run ∈ db_runs db' /\ run ∉ db_runs db /\ rr_run_id run = rid /\
    rr_state run = run_in_progress /\ rr_assigned_to run = sub /\
    current_step_id_or_none (load_step_states db' rid) <> None.
Proof.
  intros H. pose proof H as H0.
  apply start_cases in H as [[-> _]|(row & body & s0 & Hrow & Hb & _ & Hhd & Hfresh & -> & _)].
  - exfalso. unfold start_run in H0. rewrite read_bind in H0.
    assert (forall slug e0, load_published_or_raise (db_templates db) t slug <> Raise (RunEngineError e0)) as Hl.
    { intros slug e0. unfold load_published_or_raise. by repeat case_match. }
    destruct (load_published_or_raise _ _ _) as [row|e0] eqn:Hr; [|injection H0 as ->; by eapply Hl].
    rewrite lift_bind in H0. unfold template_body_from_row in H0.
    destruct (steps_from_storage _) as [steps|]; [|done]. simpl in H0. rewrite lift_bind in H0.
    destruct (validate_params_against_template _ _) as [[]|]; [|done]. simpl in H0. rewrite lift_bind in H0.
    destruct steps as [|s0 steps]; [done|]. simpl in H0. rewrite read_bind in H0.
    destruct (guard_or _ _) as [[]|e1] eqn:Hg; [|unfold guard_or in Hg; destruct (_ && _); simplify_eq].
    rewrite commit_bind in H0. rewrite lift_bind in H0. apply (f_equal (length ∘ db_runs ∘ fst)) in H0.
    destruct (lift_engine _); simpl in H0; rewrite length_app in H0; simpl in H0; lia.
  - exists (new_run t sub rq row rid now). split_and!; try done.
    + simpl. apply elem_of_app. right. left.
    + intros Hin. apply Hfresh. by apply (list_elem_of_fmap_2 rr_run_id) in Hin.
    + rewrite load_states_app. set (pre := load_step_states _ rid).
      unfold current_step_id_or_none.
      destruct (List.find (fun s => bool_decide (ss_state s = step_in_progress)) _) as [y|] eqn:Hf; [done|].
      rewrite find_None_iff in Hf. destruct (tb_steps body) as [|s1 rest]; [done|].
      specialize (Hf (new_state rid now 0 s1)). rewrite bool_decide_true in Hf by done.
      exfalso. enough (true = false) by done. apply Hf. apply elem_of_app. right.
      apply elem_of_select. split; [rewrite imap_cons; left|]. by apply bool_decide_eq_true.
Qed.

(** Nothing keeps a template without steps from being created and published,
    and no run of it can be started: [start_run] raises an [IndexError] and
    changes nothing. *)
Theorem empty_template_cannot_start t sub rq rid now db row body :
  load_published_or_raise (db_templates db) t (sr_template_slug rq) = Ok row ->
  template_body_from_row row = Ok body -> tb_steps body = [] ->
  start_run t sub rq rid now db = (db, Raise RunIndexError).
Proof.
  intros Hrow Hb He. unfold start_run. rewrite read_bind, Hrow, lift_bind, Hb.
  rewrite lift_bind. replace (validate_params_against_template body (sr_params rq)) with
    (Ok tt : res (list string) unit).
  - rewrite lift_bind, He. done.
  - symmetry. apply validate_params_spec. intros n s Hn Hs. rewrite He in *. set_solver.
Qed.

(** * Instances of the theorems *)

Section RunExamples.
Let confirm id := ManualStep id "Step" "Look at ${run.target}" (ConfirmVerify "Done?").
Let body := {| tb_title := "Restart"; tb_description := "d"; tb_target_kind := None;
               tb_steps := [confirm "one"; confirm "two"; confirm "three"] |}.
Let template := set_status tpl_published (draft_row "t1" "senior" "restart" 1 body 10).
Let db0 := set_templates [template] empty_db.
Let rq := {| sr_template_slug := "restart"; sr_target := "db-1"; sr_params := [];
             sr_work_ref := Some "CHG-9" |}.
Let idle : Dispatcher := fun _ _ _ => mret [].
Let yes := Some (ConfirmVerifyResponse ans_yes).
Let run := new_run "t1" "alice" rq template "r1" 20.
Let db1 := fst (start_run "t1" "alice" rq "r1" 20 db0).
Let db2 := fst (next_step_run idle "t1" "alice" "r1" yes 30 db1).

Lemma example_db1 : rtc request empty_db db1.
Proof.
  assert (body_ok body) as Hb
    by (split; [repeat constructor; vm_compute; reflexivity|vm_compute; reflexivity]).
  eapply rtc_l. { apply (rq_template empty_db [draft_row "t1" "senior" "restart" 1 body 10]).
    by apply (ts_create [] "t1" "senior" "restart" body 10 _ 1). }
  eapply rtc_l. { apply (rq_template _ [template]). by apply (ts_publish _ "t1" "restart" 1). }
  apply rtc_once. exact (rq_start "t1" "alice" rq "r1" 20 db0).
Qed.

Lemma idle_quiet : quiet idle.
Proof. done. Qed.

Lemma example_db2 : rtc request empty_db db2.
Proof.
  eapply rtc_r; [apply example_db1|]. apply (rq_next idle "t1" "alice" "r1" yes 30), idle_quiet.
Qed.

Lemma run_state_machine_witness :
  run_shape run_in_progress (load_step_states db2 "r1") /\
  exists b, load_pinned_template_body db2 run = Ok b.
Proof.
  assert (run ∈ db_runs db2) as Hr by (vm_compute; left).
  destruct (run_state_machine db2 run example_db2 Hr) as ((b & Hb & _) & Hs & _).
  split; [exact Hs|exists b; exact Hb].
Defined.

(** Two overlapping advances of the same run by its assignee break the run:
    both read the run at its first step; after one of them and a further
    advance have been stored, the late write of the other reopens the second
    step, which was already verified, and the run has two steps in progress. *)
Theorem overlapping_advances_reopen_a_step :
  exists db inputs dba dbb dbc,
    rtc request empty_db db /\
    load_next_step_inputs "t1" "alice" "r1" db = Ok inputs /\
    fst (write_next_step_outcome "t1" "alice" "r1" inputs yes 40 db) = dba /\
    fst (next_step_run idle "t1" "alice" "r1" yes 50 dba) = dbb /\
    ss_state <$> load_step_states dbb "r1" = [step_verified; step_verified; step_in_progress] /\
    fst (write_next_step_outcome "t1" "alice" "r1" inputs yes 60 dbb) = dbc /\
    is_Ok (snd (write_next_step_outcome "t1" "alice" "r1" inputs yes 60 dbb)) /\
    ss_state <$> load_step_states dbc "r1" = [step_verified; step_in_progress; step_in_progress].
Proof.
  eexists db1, _, _, _, _. split; [exact example_db1|].
  split; [vm_compute; reflexivity|]. split; [reflexivity|]. split; [reflexivity|].
  split; [vm_compute; reflexivity|]. split; [reflexivity|].
  split; [vm_compute; eexists; reflexivity|vm_compute; reflexivity].
Qed.

Lemma example_inv : runs_inv db1 /\ NoDup (rr_run_id <$> db_runs db1).
Proof. pose proof (requests_inv _ example_db1) as H. split; [done|apply H]. Qed.

Let dbx := fst (abort_run "t1" "alice" "r1" "wrong host" false "a1" 12 40 db1).
Let gone := mark_abandoned 40 run.

(** The abort wins the race: the late write of an advance changes nothing. *)
Lemma terminal_runs_are_frozen_witness : exists inputs,
  load_next_step_inputs "t1" "alice" "r1" db1 = Ok inputs /\
  untouched gone dbx (fst (write_next_step_outcome "t1" "alice" "r1" inputs yes 50 dbx)).
Proof.
  eexists. split; [vm_compute; reflexivity|]. apply terminal_runs_are_frozen.
  - apply rtc_once, ses_write.
  - vm_compute. apply NoDup_singleton.
  - vm_compute. left.
  - reflexivity.
Defined.

Lemma only_the_assignee_advances_witness : exists inputs,
  load_next_step_inputs "t1" "alice" "r1" db1 = Ok inputs /\
  untouched run db1 (fst (write_next_step_outcome "t1" "bob" "r1" inputs yes 50 db1)).
Proof.
  eexists. split; [vm_compute; reflexivity|].
  eapply only_the_assignee_advances.
  - exact (proj2 example_inv).
  - apply surjective_pairing.
  - vm_compute. left.
  - right. left. discriminate.
Defined.

Lemma abort_is_audited_witness : exists r row,
  r ∈ db_runs db1 /\ db_audit dbx = db_audit db1 ++ [row] /\
  al_step_id row = Some "one" /\ al_work_ref row = rr_work_ref r.
Proof.
  destruct (proj2 (abort_is_audited "t1" "alice" "r1" "wrong host" false "a1" 12 40 db1 dbx
    (Ok {| ar_run_id := "r1"; ar_abandoned_at := 40 |}) (proj2 example_inv)
    (surjective_pairing _)) _ eq_refl)
    as (r & row & Hr & _ & _ & _ & _ & _ & _ & Ha & _ & _ & _ & _ & Hw & Hs & _).
  exists r, row. split; [exact Hr|]. split; [exact Ha|]. split; [exact Hs|exact Hw].
Defined.

Lemma current_step_ignores_row_order_witness :
  current_step_id_or_none (reverse (load_step_states db1 "r1")) = Some "one".
Proof.
  apply (current_step_ignores_row_order db1 run).
  - exact (proj1 example_inv).
  - vm_compute. left.
  - discriminate.
  - apply reverse_Permutation.
Defined.

Lemma list_runs_scoped_witness :
  exists out, list_runs "t1" "bob" false
    {| lf_assignee := Some "alice"; lf_status := None; lf_template_slug := None; lf_work_ref := None |}
    10 db1 = Ok out /\ forall s, s ∈ out -> rr_assigned_to (su_run s) = "bob".
Proof.
  destruct (list_runs_scoped "t1" "bob" false
    {| lf_assignee := Some "alice"; lf_status := None; lf_template_slug := None; lf_work_ref := None |}
    10 db1 (proj1 example_inv)) as (out & Hout & _ & H); [lia|].
  exists out. split; [exact Hout|]. intros s Hs.
  destruct (H s Hs) as (_ & _ & Hsub & _). exact (Hsub eq_refl).
Defined.

Lemma example_at_step : at_step db1 run body 0.
Proof.
  constructor; [exact (proj1 example_inv)|vm_compute; left|reflexivity| | |simpl; lia].
  - exists template. split_and!; [vm_compute; reflexivity|discriminate|vm_compute; reflexivity].
  - intros [|[|[|j]]] s Hs; vm_compute in Hs; try discriminate Hs; injection Hs as <-; reflexivity.
Qed.

Lemma confirm_run_completes_witness : exists at_,
  mark_completed at_ run ∈ db_runs (Nat.iter 3 (fun db => fst (answer_yes idle run 30 db)) db1).
Proof.
  destruct (confirm_run_completes idle db1 run body 0 30) as (at_ & H & _).
  - exact example_at_step.
  - unfold all_confirm. repeat constructor; eexists; reflexivity.
  - split; [discriminate|split; reflexivity].
  - exists at_. exact H.
Defined.

Lemma failed_start_leaves_a_run_witness : exists r db',
  start_run "t1" "alice" {| sr_template_slug := "restart"; sr_target := "${run.params.x}";
                            sr_params := []; sr_work_ref := None |} "r2" 20 db0
    = (db', Raise (RunEngineError (EngineKeyError "x"))) /\
  r ∈ db_runs db' /\ r ∉ db_runs db0.
Proof.
  destruct (failed_start_leaves_a_run "t1" "alice"
    {| sr_template_slug := "restart"; sr_target := "${run.params.x}"; sr_params := [];
       sr_work_ref := None |} "r2" 20 db0 _ (EngineKeyError "x") ltac:(vm_compute; reflexivity))
    as (r & H1 & H2 & _).
  exists r. eexists. split; [vm_compute; reflexivity|]. split; [exact H1|exact H2].
Defined.

Let hollow := {| tb_title := "Empty"; tb_description := "d"; tb_target_kind := None; tb_steps := [] |}.
Let hollow_row := set_status tpl_published (draft_row "t1" "senior" "empty" 1 hollow 10).

Lemma empty_template_cannot_start_witness :
  body_ok hollow /\ rtc template_step [] [hollow_row] /\
  start_run "t1" "alice" {| sr_template_slug := "empty"; sr_target := "db-1"; sr_params := [];
                            sr_work_ref := None |} "r2" 20 (set_templates [hollow_row] empty_db)
    = (set_templates [hollow_row] empty_db, Raise RunIndexError).
Proof.
  assert (body_ok hollow) as Hb by (split; [constructor|reflexivity]).
  split; [exact Hb|]. split.
  - eapply rtc_l; [by apply (ts_create [] "t1" "senior" "empty" hollow 10 _ 1)|].
    apply rtc_once. by apply (ts_publish _ "t1" "empty" 1).
  - apply (empty_template_cannot_start _ _ _ _ _ _ hollow_row hollow); vm_compute; reflexivity.
Defined.
End RunExamples.
