(* ===== verification/Assertions.v ===== *)
(** The assertions of sensors ([checks/assertions.py], [checks/evaluate.py]): the
    grammar of select paths, the comparators and their validation, and the evaluator
    that turns the answer of an operation into a verdict. *)

From stdpp Require Import pretty.
From S2P Require Import Prelude Json.

Inductive CheckState := ok | degraded | critical | unknown | skip.
#[export] Instance CheckState_eq_dec : EqDecision CheckState.
Proof. solve_decision. Defined.

(** * Select paths *)

Inductive PathSegment := key (name : string) | index (idx : N) | wildcard.

(** What one match of [_PATH_SEGMENT_RE] captured. *)
Inductive SegmentMatch := m_key (name : string) | m_index (digits : string) | m_wildcard.

Definition is_decimal (c : ascii) : bool := let n := nat_of_ascii c in (48 <=? n) && (n <=? 57).
Definition is_name_char (c : ascii) : bool :=
  let n := nat_of_ascii c in
  is_decimal c || ((65 <=? n) && (n <=? 90)) || ((97 <=? n) && (n <=? 122)) || Ascii.eqb c "_" || Ascii.eqb c "-".

(** The longest prefix of characters of a class, and the rest. *)
Fixpoint span (p : ascii -> bool) (s : string) : string * string :=
  match s with
  | EmptyString => ("", "")
  | String c s' => if p c then let '(a, b) := span p s' in (String c a, b) else ("", s)
  end.

Definition PATH_SEGMENT_RE (s : string) : option (SegmentMatch * string) :=
  match s with
  | String c s' =>
      if Ascii.eqb c "." then
        match span is_name_char s' with (EmptyString, _) => None | (name, rest) => Some (m_key name, rest) end
      else if Ascii.eqb c "[" then
        match span is_decimal s' with
        | (EmptyString, _) => (fun rest => (m_wildcard, rest)) <$> strip_prefix "*]" s'
        | (digits, rest) => (fun rest => (m_index digits, rest)) <$> strip_prefix "]" rest
        end
      else None
  | EmptyString => None
  end.

Inductive PathError := no_dollar | invalid_segment | second_wildcard | too_many_digits.

(** [int(digits)]; an integer of more digits than [sys.get_int_max_str_digits()] is
    refused in both directions, from text and to text. *)
Definition int_max_str_digits : nat := 4300.
Definition digit_value (c : ascii) : N := (N.of_nat (nat_of_ascii c) - 48)%N.
Fixpoint decimal_value (acc : N) (s : string) : N :=
  match s with EmptyString => acc | String c s' => decimal_value (10 * acc + digit_value c) s' end.
Definition int_of_digits (s : string) : res PathError N :=
  if Nat.leb (String.length s) int_max_str_digits then Ok (decimal_value 0 s) else Raise too_many_digits.

(** The [while] of [parse_path]; [wildcards] says whether one was seen. *)
Fixpoint compile_segments (wildcards : bool) (matches : list (ascii + SegmentMatch)) : res PathError (list PathSegment) :=
  match matches with
  | [] => Ok []
  | inl _ :: _ => Raise invalid_segment
  | inr m :: rest =>
      match m with
      | m_key name => cons (key name) <$> compile_segments wildcards rest
      | m_index digits => idx ← int_of_digits digits; cons (index idx) <$> compile_segments wildcards rest
      | m_wildcard => if wildcards then Raise second_wildcard else cons wildcard <$> compile_segments true rest
      end
  end.

Definition parse_path (path : string) : res PathError (list PathSegment) :=
  match path with
  | String c s => if Ascii.eqb c "$" then compile_segments false (scan PATH_SEGMENT_RE s) else Raise no_dollar
  | EmptyString => Raise no_dollar
  end.

(** * Numbers *)

(** A Python [float]: [m * 2^e], an infinity or a NaN.  [repr] tells them apart. *)
Inductive float := Finite (m e : Z) | Infinite (negative : bool) | NaN.

Definition float_of (m e : Z) (text : string) : float :=
  if bool_decide (text = "nan") then NaN
  else if bool_decide (text = "inf") then Infinite false
  else if bool_decide (text = "-inf") then Infinite true
  else Finite m e.

Definition isfinite (f : float) : bool := match f with Finite _ _ => true | _ => false end.

(** [isinstance(v, (int, float)) and not isinstance(v, bool)]. *)
Definition number (v : json) : option float :=
  match v with JInt z => Some (Finite z 0) | JFloat m e text => Some (float_of m e text) | _ => None end.

(** Python compares an [int] and a [float] by their exact values. *)
Definition scaled_lt (x y : Z * Z) : bool :=
  let '(m1, e1) := x in
  let '(m2, e2) := y in
  let e := Z.min e1 e2 in
  (m1 * 2 ^ (e1 - e) <? m2 * 2 ^ (e2 - e))%Z.

Definition flt (a b : float) : bool :=
  match a, b with
  | Finite m e, Finite m' e' => scaled_lt (m, e) (m', e')
  | Infinite true, Finite _ _ | Finite _ _, Infinite false | Infinite true, Infinite false => true
  | _, _ => false
  end.

Definition feq (a b : float) : bool :=
  match a, b with
  | Finite m e, Finite m' e' => num_eq (m, e) (m', e')
  | Infinite s, Infinite s' => Bool.eqb s s'
  | _, _ => false
  end.

Definition fle (a b : float) : bool := flt a b || feq a b.

(** The double nearest to [a / b], for [b > 0]; ties go to the even one. *)
Definition to_double (a b : Z) : Z * Z :=
  if (a =? 0)%Z then (0, 0)%Z
  else
    let e0 := (Z.log2 (Z.abs a) - Z.log2 b - 53)%Z in
    let num e := if (e <? 0)%Z then (Z.abs a * 2 ^ (- e))%Z else Z.abs a in
    let den e := if (e <? 0)%Z then b else (b * 2 ^ e)%Z in
    let e := if (2 ^ 53 <=? num e0 / den e0)%Z then (e0 + 1)%Z else e0 in
    let q := (num e / den e)%Z in
    let r := (num e mod den e)%Z in
    let up := (den e <? 2 * r)%Z || ((2 * r =? den e)%Z && Z.odd q) in
    (Z.sgn a * (if up then q + 1 else q), e)%Z.

(** * The specification *)

Inductive Aggregate := a_max | a_min | a_sum | a_count | a_any | a_all.
Record SelectSpec := { select_path : string; aggregate : option Aggregate }.

Inductive Operator := gt | gte | lt | lte.

(** A field of an age is a [float] that may be infinite. *)
Inductive Compare :=
| ThresholdCompare (op : Operator) (degraded_bound critical_bound : option float)
| EqualsCompare (value : json)
| InCompare (values : list json)
| BoolCompare (expect : bool)
| FreshnessCompare (max_age_seconds : float) (degraded_age_seconds : option float).

Record AssertionSpec := { select : SelectSpec; compare : Compare }.

Inductive SpecError :=
| bad_path (e : PathError) | bound_not_finite | no_bound | bounds_out_of_order | no_values | age_not_positive
| ages_out_of_order.

Definition check_bounds (op : Operator) (degraded critical : option float) : res SpecError unit :=
  if negb (forallb (fun b => match b with Some f => isfinite f | None => true end) [degraded; critical])
  then Raise bound_not_finite
  else match degraded, critical with
       | None, None => Raise no_bound
       | Some d, Some c =>
           match op with
           | gt | gte => if flt c d then Raise bounds_out_of_order else Ok tt
           | lt | lte => if flt d c then Raise bounds_out_of_order else Ok tt
           end
       | _, _ => Ok tt
       end.

Definition positive (f : float) : bool := flt (Finite 0 0) f.

Definition check_ages (max_age : float) (degraded_age : option float) : res SpecError unit :=
  if negb (positive max_age && match degraded_age with Some d => positive d | None => true end) then Raise age_not_positive
  else match degraded_age with
       | Some d => if fle max_age d then Raise ages_out_of_order else Ok tt
       | None => Ok tt
       end.

(** The validators of the models. *)
Definition validate_compare (c : Compare) : res SpecError unit :=
  match c with
  | ThresholdCompare op d c => check_bounds op d c
  | InCompare [] => Raise no_values
  | FreshnessCompare m d => check_ages m d
  | _ => Ok tt
  end.

Definition validate (spec : AssertionSpec) : res SpecError unit :=
  match parse_path (select_path (select spec)) with
  | Raise e => Raise (bad_path e)
  | Ok _ => validate_compare (compare spec)
  end.

(** * The evaluator *)

(** Why a reading cannot be judged; [found] is the type found instead. *)
Inductive Reason :=
| expected_object (at_key found : string)
| missing_key (name : string)
| expected_array (at_index : N) (found : string)
| index_out_of_range (at_index : N) (length : nat)
| unexpected_wildcard
| array_before_wildcard (found : string)
| in_element (i : nat) (r : Reason)
| not_a_scalar (found : string)
| aggregate_requires_array (a : Aggregate) (found : string)
| aggregate_requires_numbers (a : Aggregate) (found : string)
| aggregate_requires_finite (a : Aggregate)
| sum_overflows
| sum_not_finite
| undefined_on_empty (a : Aggregate)
| aggregate_requires_booleans (a : Aggregate) (found : string)
| bool_requires_boolean (found : string)
| threshold_requires_number (found : string)
| threshold_requires_finite
| unparseable_timestamp
| naive_timestamp
| boolean_timestamp
| epoch_out_of_range
| not_a_timestamp (found : string).

Record Evidence := {
  path : string;
  aggregate_of : option Aggregate;
  expected : Compare;
  observed : option json;
  reason : option Reason;
  age_seconds : option (Z * Z);
  sample : option (list json);
  sample_truncated : bool;
}.

Record AssertionOutcome := { state : CheckState; value : json; evidence : Evidence }.

(** The one exception of the contract, and one more: [repr] of an integer with too
    many digits. *)
Inductive EvaluatorFault := naive_now | path_error (e : PathError) | long_integer.

Definition typename (v : json) : string :=
  match v with
  | JNull => "null" | JBool _ => "bool" | JDict _ => "object" | JList _ => "array"
  | JInt _ => "int" | JFloat _ _ _ => "float" | JStr _ => "str"
  end.

(** ** Select *)

Fixpoint navigate (v : json) (segments : list PathSegment) : res Reason json :=
  match segments with
  | [] => Ok v
  | key name :: rest =>
      match v with
      | JDict d => match dict_get name d with Some x => navigate x rest | None => Raise (missing_key name) end
      | _ => Raise (expected_object name (typename v))
      end
  | index i :: rest =>
      match v with
      | JList l =>
          if (N.of_nat (length l) <=? i)%N then Raise (index_out_of_range i (length l))
          else match l !! N.to_nat i with
               | Some x => navigate x rest
               | None => Raise (index_out_of_range i (length l))
               end
      | _ => Raise (expected_array i (typename v))
      end
  | wildcard :: _ => Raise unexpected_wildcard
  end.

(** The segments before and after the first wildcard. *)
Fixpoint at_wildcard (segments : list PathSegment) : option (list PathSegment * list PathSegment) :=
  match segments with
  | [] => None
  | wildcard :: rest => Some ([], rest)
  | s :: rest => (fun '(before, after) => (s :: before, after)) <$> at_wildcard rest
  end.

(** [after] over every element; a failure names its element. *)
Fixpoint project (i : nat) (elements : list json) (after : list PathSegment) : res Reason (list json) :=
  match elements with
  | [] => Ok []
  | element :: rest =>
      match navigate element after with
      | Ok x => cons x <$> project (S i) rest after
      | Raise r => Raise (in_element i r)
      end
  end.

Definition select_value (payload : json) (segments : list PathSegment) : res Reason json :=
  match at_wildcard segments with
  | Some (before, after) =>
      base ← navigate payload before;
      match base with
      | JList elements => JList <$> project 0 elements after
      | _ => Raise (array_before_wildcard (typename base))
      end
  | None => navigate payload segments
  end.

(** ** Aggregates and comparators *)

Section Evaluate.
(** The floating-point arithmetic of [sum] over numbers that are not all [int]
    ([None]: [OverflowError]); [datetime.fromisoformat], which raises, gives a naive
    time or an instant; and [datetime.fromtimestamp] of a [float]. *)
Context (float_sum : list json -> option json) (fromisoformat : string -> option (option Z))
  (float_timestamp : float -> option Z).

Fixpoint check_numbers (a : Aggregate) (values : list json) : res Reason unit :=
  match values with
  | [] => Ok tt
  | v :: rest =>
      match number v with
      | None => Raise (aggregate_requires_numbers a (typename v))
      | Some f => if isfinite f then check_numbers a rest else Raise (aggregate_requires_finite a)
      end
  end.

Fixpoint check_booleans (a : Aggregate) (values : list json) : res Reason (list bool) :=
  match values with
  | [] => Ok []
  | JBool b :: rest => cons b <$> check_booleans a rest
  | v :: _ => Raise (aggregate_requires_booleans a (typename v))
  end.

Definition ints (values : list json) : option (list Z) := mapM (fun v => match v with JInt z => Some z | _ => None end) values.

Definition py_sum (values : list json) : option json :=
  match ints values with Some zs => Some (JInt (foldl Z.add 0%Z zs)) | None => float_sum values end.

(** [max(values)] and [min(values)]: the first of the greatest or least. *)
Definition number_or_zero (v : json) : float := default (Finite 0 0) (number v).
Definition extreme (better : float -> float -> bool) (v : json) (rest : list json) : json :=
  foldl (fun best x => if better (number_or_zero x) (number_or_zero best) then x else best) v rest.

Definition aggregate_values (values : list json) (a : Aggregate) : res Reason json :=
  match a with
  | a_count => Ok (JInt (Z.of_nat (length values)))
  | a_sum =>
      _ ← check_numbers a values;
      match py_sum values with
      | None => Raise sum_overflows
      | Some (JFloat m e text as total) => if isfinite (float_of m e text) then Ok total else Raise sum_not_finite
      | Some total => Ok total
      end
  | a_max | a_min =>
      _ ← check_numbers a values;
      match values with
      | [] => Raise (undefined_on_empty a)
      | v :: rest => Ok (extreme (match a with a_max => fun x y => flt y x | _ => flt end) v rest)
      end
  | a_any => bs ← check_booleans a values; Ok (JBool (existsb id bs))
  | a_all => bs ← check_booleans a values; Ok (JBool (forallb id bs))
  end.

(** [left == right], with a [bool] equal to booleans only. *)
Definition strict_eq (left right : json) : bool :=
  match left, right with
  | JBool a, JBool b => Bool.eqb a b
  | JBool _, _ | _, JBool _ => false
  | _, _ => match number left, number right with Some x, Some y => feq x y | _, _ => py_eq left right end
  end.

Definition violates (v : float) (op : Operator) (bound : float) : bool :=
  match op with gt => flt bound v | gte => fle bound v | lt => flt v bound | lte => fle v bound end.

Definition violates_bound (v : float) (op : Operator) (bound : option float) : bool :=
  match bound with Some b => violates v op b | None => false end.

Definition threshold_state (op : Operator) (degraded_bound critical_bound : option float) (v : float) : CheckState :=
  if violates_bound v op critical_bound then critical
  else if violates_bound v op degraded_bound then degraded else ok.

(** The readable instants of [datetime]: the years 1 to 9999. *)
Definition second : Z := 1000000.
Definition epoch_in_range (z : Z) : bool := (-62135596800 <=? z)%Z && (z <=? 253402300799)%Z.
Definition repr_fails (v : json) : bool :=
  match v with JInt z => (10 ^ Z.of_nat int_max_str_digits <=? Z.abs z)%Z | _ => false end.

Definition parse_timestamp (v : json) : res EvaluatorFault (res Reason Z) :=
  match v with
  | JStr s =>
      Ok match fromisoformat s with
         | None => Raise unparseable_timestamp
         | Some None => Raise naive_timestamp
         | Some (Some t) => Ok t
         end
  | JBool _ => Ok (Raise boolean_timestamp)
  | JInt z =>
      if epoch_in_range z then Ok (Ok (z * second)%Z)
      else if repr_fails v then Raise long_integer else Ok (Raise epoch_out_of_range)
  | JFloat m e text => Ok match float_timestamp (float_of m e text) with Some t => Ok t | None => Raise epoch_out_of_range end
  | _ => Ok (Raise (not_a_timestamp (typename v)))
  end.

(** [timedelta.total_seconds()] *)
Definition total_seconds (microseconds : Z) : Z * Z := to_double microseconds second.

Definition freshness_state (max_age : float) (degraded_age : option float) (age : float) : CheckState :=
  if flt max_age age then critical
  else if match degraded_age with Some d => flt d age | None => false end then degraded else ok.

Definition base_evidence (spec : AssertionSpec) : Evidence := {|
  path := select_path (select spec); aggregate_of := aggregate (select spec); expected := compare spec;
  observed := None; reason := None; age_seconds := None; sample := None; sample_truncated := false |}.

(** [_unknown]: what was observed, if not given, is the reason's text. *)
Definition unknown_outcome (ev : Evidence) (r : Reason) (seen : option json) : AssertionOutcome := {|
  state := unknown; value := JNull;
  evidence := {| path := path ev; aggregate_of := aggregate_of ev; expected := expected ev;
                 observed := match seen with Some v => Some v | None => observed ev end; reason := Some r;
                 age_seconds := age_seconds ev; sample := sample ev; sample_truncated := sample_truncated ev |} |}.

Definition with_observed (ev : Evidence) (v : json) : Evidence := {|
  path := path ev; aggregate_of := aggregate_of ev; expected := expected ev; observed := Some v; reason := reason ev;
  age_seconds := age_seconds ev; sample := sample ev; sample_truncated := sample_truncated ev |}.

Definition with_age (ev : Evidence) (age : Z * Z) : Evidence := {|
  path := path ev; aggregate_of := aggregate_of ev; expected := expected ev; observed := observed ev; reason := reason ev;
  age_seconds := Some age; sample := sample ev; sample_truncated := sample_truncated ev |}.

Definition compare_threshold op degraded_bound critical_bound (v : json) (ev : Evidence) : AssertionOutcome :=
  match number v with
  | None => unknown_outcome ev (threshold_requires_number (typename v)) None
  | Some f =>
      if isfinite f then {| state := threshold_state op degraded_bound critical_bound f; value := v; evidence := ev |}
      else unknown_outcome ev threshold_requires_finite None
  end.

Definition compare_freshness max_age degraded_age (v : json) (now : Z) (ev : Evidence) : res EvaluatorFault AssertionOutcome :=
  timestamp ← parse_timestamp v;
  match timestamp with
  | Raise r => Ok (unknown_outcome ev r None)
  | Ok t =>
      let age := total_seconds (now - t) in
      Ok {| state := freshness_state max_age degraded_age (Finite age.1 age.2); value := v; evidence := with_age ev age |}
  end.

Definition match_state (b : bool) : CheckState := if b then ok else critical.

Definition compare_value (c : Compare) (v : json) (now : Z) (ev : Evidence) : res EvaluatorFault AssertionOutcome :=
  match c with
  | ThresholdCompare op d cr => Ok (compare_threshold op d cr v ev)
  | EqualsCompare w => Ok {| state := match_state (strict_eq v w); value := v; evidence := ev |}
  | InCompare ws => Ok {| state := match_state (existsb (strict_eq v) ws); value := v; evidence := ev |}
  | BoolCompare expect =>
      Ok match v with
         | JBool b => {| state := match_state (Bool.eqb b expect); value := v; evidence := ev |}
         | _ => unknown_outcome ev (bool_requires_boolean (typename v)) None
         end
  | FreshnessCompare m d => compare_freshness m d v now ev
  end.

Definition EVIDENCE_SAMPLE_LIMIT : nat := 5.

Definition with_offender_sample (o : AssertionOutcome) (a : option Aggregate) (selected : json) : AssertionOutcome :=
  match a, state o, selected with
  | Some _, (degraded | critical), JList (_ :: _ as rows) =>
      {| state := state o; value := value o;
         evidence := {| path := path (evidence o); aggregate_of := aggregate_of (evidence o); expected := expected (evidence o);
                        observed := observed (evidence o); reason := reason (evidence o); age_seconds := age_seconds (evidence o);
                        sample := Some (take EVIDENCE_SAMPLE_LIMIT rows);
                        sample_truncated := Nat.ltb EVIDENCE_SAMPLE_LIMIT (length rows) |} |}
  | _, _, _ => o
  end.

(** The scalar the comparator judges, or why there is none and what was seen. *)
Definition observe (a : option Aggregate) (selected : json) : res (Reason * option json) json :=
  match a with
  | None =>
      match selected with
      | JDict _ | JList _ => Raise (not_a_scalar (typename selected), Some (JStr (typename selected)))
      | v => Ok v
      end
  | Some a =>
      match selected with
      | JList l => match aggregate_values l a with Ok v => Ok v | Raise r => Raise (r, None) end
      | _ => Raise (aggregate_requires_array a (typename selected), Some (JStr (typename selected)))
      end
  end.

(** [now] is [None] for a naive time. *)
Definition evaluate_assertion (spec : AssertionSpec) (payload : json) (now : option Z) : res EvaluatorFault AssertionOutcome :=
  match now with
  | None => Raise naive_now
  | Some now =>
      match parse_path (select_path (select spec)) with
      | Raise e => Raise (path_error e)
      | Ok segments =>
          match select_value payload segments with
          | Raise r => Ok (unknown_outcome (base_evidence spec) r None)
          | Ok selected =>
              match observe (aggregate (select spec)) selected with
              | Raise (r, seen) => Ok (unknown_outcome (base_evidence spec) r seen)
              | Ok v =>
                  o ← compare_value (compare spec) v now (with_observed (base_evidence spec) v);
                  Ok (with_offender_sample o (aggregate (select spec)) selected)
              end
          end
      end
  end.
End Evaluate.
