(* ===== verification/AssertionProofs.v ===== *)
(** What the assertions of sensors promise: select paths print and read back, and the
    verdict of the evaluator is the one its specification defines. *)

From stdpp Require Import pretty.
From S2P Require Import Prelude Json Assertions.

(** * Select paths *)

Definition print_segment (s : PathSegment) : string :=
  match s with key name => "." +:+ name | index i => "[" +:+ pretty i +:+ "]" | wildcard => "[*]" end.

Fixpoint print_segments (segments : list PathSegment) : string :=
  match segments with [] => "" | s :: rest => print_segment s +:+ print_segments rest end.

Definition print_path (segments : list PathSegment) : string := "$" +:+ print_segments segments.

Definition segment_ok (s : PathSegment) : Prop :=
  match s with
  | key name => name <> "" /\ all_chars is_name_char name = true
  | index i => (i < 10 ^ N.of_nat int_max_str_digits)%N
  | wildcard => True
  end.

Fixpoint wildcards_in (segments : list PathSegment) : nat :=
  match segments with [] => 0 | wildcard :: rest => S (wildcards_in rest) | _ :: rest => wildcards_in rest end.

Record path_ok (segments : list PathSegment) : Prop := {
  po_segments : Forall segment_ok segments;
  po_wildcards : wildcards_in segments <= 1;
}.

(** ** Decimals *)

Lemma decimal_value_app acc s t : decimal_value acc (s +:+ t) = decimal_value (decimal_value acc s) t.
Proof. revert acc. induction s as [|c s IH]; intros acc; [done|]. rewrite string_app_cons. cbn [decimal_value]. apply IH. Qed.

Lemma decimal_bound acc s : all_chars is_decimal s = true ->
  (decimal_value acc s < (acc + 1) * 10 ^ N.of_nat (String.length s))%N.
Proof.
  revert acc. induction s as [|c s IH]; intros acc; cbn [all_chars decimal_value String.length]; [intros _; rewrite N.pow_0_r; lia|].
  intros [Hc Hs]%andb_true_iff. eapply N.lt_le_trans; [by apply IH|]. rewrite Nat2N.inj_succ, N.pow_succ_r' . rewrite N.mul_assoc.
  apply N.mul_le_mono_r. unfold is_decimal in Hc. unfold digit_value. apply andb_true_iff in Hc as [H1%Nat.leb_le H2%Nat.leb_le]. lia.
Qed.

Lemma pretty_go_digits n : (0 < n)%N -> exists t, (forall s, pretty_N_go n s = t +:+ s) /\ all_chars is_decimal t = true /\ t <> "" /\
  decimal_value 0 t = n /\ forall k, (n < 10 ^ N.of_nat k)%N -> String.length t <= k.
Proof.
  induction (N.lt_wf_0 n) as [n _ IH]; intros Hn. set (c := pretty_N_char (n mod 10)).
  assert (all_chars is_decimal (String c "") = true /\ digit_value c = (n mod 10)%N) as [Hc Hv].
  { pose proof (N.mod_lt n 10 ltac:(done)) as Hm. subst c. revert Hm. generalize (n mod 10)%N as r. intros r Hr.
    assert (r = 0 \/ r = 1 \/ r = 2 \/ r = 3 \/ r = 4 \/ r = 5 \/ r = 6 \/ r = 7 \/ r = 8 \/ r = 9)%N as Hr' by lia.
    destruct_or! Hr'; by subst. }
  destruct (N.eq_0_gt_0_cases (n / 10)) as [H0|H0].
  - exists (String c ""). split_and!; [|done|done| |].
    + intros s. rewrite pretty_N_go_step, H0, pretty_N_go_0 by done. done.
    + cbn [decimal_value]. rewrite Hv. pose proof (N.div_mod n 10 ltac:(done)). lia.
    + intros [|k] Hk; [simpl in Hk; lia|]. simpl. lia.
  - destruct (IH (n / 10)%N) as (t & Ht & Hd & Hne & Hval & Hlen); [by apply N.div_lt|done|].
    exists (t +:+ String c ""). split_and!.
    + intros s. rewrite pretty_N_go_step, Ht by done. by rewrite string_app_assoc.
    + clear -Hd Hc. induction t as [|a t IHt]; [done|]. rewrite string_app_cons. cbn [all_chars] in *.
      apply andb_true_iff in Hd as [-> Hd]. by apply IHt.
    + by destruct t.
    + rewrite decimal_value_app, Hval. cbn [decimal_value]. rewrite Hv. pose proof (N.div_mod n 10 ltac:(done)). lia.
    + intros [|k] Hk; [simpl in Hk; lia|]. rewrite string_app_length. cbn [String.length].
      assert (String.length t <= k); [|lia]. apply Hlen. apply N.Div0.div_lt_upper_bound.
      by rewrite Nat2N.inj_succ, N.pow_succ_r' in Hk.
Qed.

Lemma pretty_digits (i : N) : all_chars is_decimal (pretty i) = true /\ pretty i <> "" /\ decimal_value 0 (pretty i) = i /\
  forall k, (i < 10 ^ N.of_nat (S k))%N -> String.length (pretty i) <= S k.
Proof.
  unfold pretty, pretty_N. case_decide as H; [subst; split_and!; try done; simpl; lia|].
  destruct (pretty_go_digits i) as (t & Ht & ? & ? & ? & Hl); [lia|]. rewrite Ht, string_app_nil. split_and!; try done.
  intros k. apply Hl.
Qed.

(** ** Reading a printed path *)

Lemma span_prefix p s t : all_chars p s = true -> (match t with String c _ => p c = false | EmptyString => True end) ->
  span p (s +:+ t) = (s, t).
Proof.
  intros Hs Ht. induction s as [|c s IH]; [change ("" +:+ t) with t; destruct t as [|c t]; [done|]; cbn [span]; by rewrite Ht|].
  rewrite string_app_cons. cbn [all_chars span] in *. apply andb_true_iff in Hs as [-> Hs]. by rewrite IH.
Qed.

Lemma span_app p s a b : span p s = (a, b) -> s = a +:+ b /\ all_chars p a = true.
Proof.
  revert a b. induction s as [|c s IH]; intros a b; cbn [span]; [by intros [= <- <-]|].
  destruct (p c) eqn:Hp; [|by intros [= <- <-]]. destruct (span p s) as [a' b']. intros [= <- <-].
  destruct (IH _ _ eq_refl) as [-> Ha]. cbn [all_chars]. by rewrite Hp.
Qed.

Lemma strip_prefix_length p s t : strip_prefix p s = Some t -> String.length s = String.length p + String.length t.
Proof. intros ->%strip_prefix_spec. apply string_app_length. Qed.

Lemma segment_consuming : consuming PATH_SEGMENT_RE.
Proof.
  intros s a rest. destruct s as [|c s]; [done|]. cbn [PATH_SEGMENT_RE]. destruct (Ascii.eqb c ".").
  { destruct (span is_name_char s) as [[|n ns] r] eqn:E; [done|]. intros [= <- <-]. apply span_app in E as [-> _].
    rewrite string_app_cons. cbn [String.length]. rewrite string_app_length. lia. }
  destruct (Ascii.eqb c "["); [|done]. destruct (span is_decimal s) as [[|n ns] r] eqn:E; apply span_app in E as [-> _].
  - change ("" +:+ r) with r. destruct (strip_prefix "*]" r) as [u|] eqn:Eu; [|done]. intros [= <- <-].
    apply strip_prefix_length in Eu. cbn [String.length] in *. lia.
  - destruct (strip_prefix "]" r) as [u|] eqn:Eu; [|done]. intros [= <- <-]. apply strip_prefix_length in Eu.
    rewrite string_app_cons. cbn [String.length] in *. rewrite string_app_length. lia.
Qed.

(** *** The grammar

    [segment := . name | [ int ] | [*]], as the comment of [parse_path] has it. *)
Definition NAME_CHARS : string := "ABCDEFGHIJKLMNOPQRSTUVWXYZabcdefghijklmnopqrstuvwxyz0123456789_-".
Definition DIGITS : string := "0123456789".
Definition made_of (chars s : string) : Prop := s <> "" /\ all_chars (fun c => has_char c chars) s = true.

Inductive spells_segment : PathSegment -> string -> Prop :=
| spells_key name : made_of NAME_CHARS name -> spells_segment (key name) ("." +:+ name)
| spells_index digits : made_of DIGITS digits -> String.length digits <= int_max_str_digits ->
    spells_segment (index (decimal_value 0 digits)) ("[" +:+ digits +:+ "]")
| spells_wildcard : spells_segment wildcard "[*]".

Inductive spells : list PathSegment -> string -> Prop :=
| spells_nil : spells [] ""
| spells_cons s segments a b : spells_segment s a -> spells segments b -> spells (s :: segments) (a +:+ b).

Lemma all_chars_ext p q s : (forall c, p c = q c) -> all_chars p s = all_chars q s.
Proof. intros He. induction s as [|c s IH]; [done|]. cbn [all_chars]. by rewrite He, IH. Qed.

Lemma made_of_name name : made_of NAME_CHARS name <-> name <> "" /\ all_chars is_name_char name = true.
Proof.
  unfold made_of. rewrite (all_chars_ext _ is_name_char); [done|]. intros c. by destruct c as [[] [] [] [] [] [] [] []].
Qed.

Lemma made_of_digits digits : made_of DIGITS digits <-> digits <> "" /\ all_chars is_decimal digits = true.
Proof.
  unfold made_of. rewrite (all_chars_ext _ is_decimal); [done|]. intros c. by destruct c as [[] [] [] [] [] [] [] []].
Qed.

(** What one match reads. *)
Definition captures (m : SegmentMatch) (a : string) : Prop :=
  match m with
  | m_key name => made_of NAME_CHARS name /\ a = "." +:+ name
  | m_index digits => made_of DIGITS digits /\ a = "[" +:+ digits +:+ "]"
  | m_wildcard => a = "[*]"
  end.

Lemma match_reads s m rest : PATH_SEGMENT_RE s = Some (m, rest) -> exists a, captures m a /\ s = a +:+ rest.
Proof.
  destruct s as [|c s]; [done|]. cbn [PATH_SEGMENT_RE]. destruct (Ascii.eqb_spec c ".") as [->|_].
  { destruct (span is_name_char s) as [[|n ns] r] eqn:E; [done|]. intros [= <- <-]. apply span_app in E as [-> Hn].
    exists ("." +:+ String n ns). by split; [split; [by apply made_of_name|]|]. }
  destruct (Ascii.eqb_spec c "[") as [->|_]; [|done]. destruct (span is_decimal s) as [[|n ns] r] eqn:E; apply span_app in E as [-> Hd].
  - change ("" +:+ r) with r. destruct (strip_prefix "*]" r) as [u|] eqn:Eu; [|done]. intros [= <- <-].
    apply strip_prefix_spec in Eu as ->. by exists "[*]".
  - destruct (strip_prefix "]" r) as [u|] eqn:Eu; [|done]. intros [= <- <-]. apply strip_prefix_spec in Eu as ->.
    exists ("[" +:+ String n ns +:+ "]"). split; [split; [by apply made_of_digits|done]|].
    change ("[" +:+ String n ns +:+ "]") with (String "[" (String n ns +:+ "]")). by rewrite (string_app_cons "["), (string_app_assoc (String n ns)).
Qed.

Lemma spells_stops segments t : spells segments t -> match t with String c _ => is_name_char c = false | EmptyString => True end.
Proof. destruct 1 as [|s segments a b Ha]; [done|]. by destruct Ha. Qed.

Lemma read_matches m a t : captures m a -> (match t with String c _ => is_name_char c = false | EmptyString => True end) ->
  PATH_SEGMENT_RE (a +:+ t) = Some (m, t).
Proof.
  destruct m as [name|digits|]; cbn [captures].
  - intros [[Hne Hc]%made_of_name ->] Ht. change ("." +:+ name) with (String "." name). rewrite string_app_cons. cbn [PATH_SEGMENT_RE].
    change (Ascii.eqb "." ".") with true. cbn iota. rewrite span_prefix by done. by destruct name.
  - intros [[Hne Hd]%made_of_digits ->] _. change ("[" +:+ digits +:+ "]") with (String "[" (digits +:+ "]")). rewrite string_app_cons. cbn [PATH_SEGMENT_RE].
    change (Ascii.eqb "[" ".") with false. change (Ascii.eqb "[" "[") with true. cbn iota.
    rewrite string_app_assoc, span_prefix by done. by destruct digits.
  - by intros -> _.
Qed.

(** What is read is a spelling of the segments, and nothing is skipped. *)
Lemma compiled_spells n s w segments : String.length s <= n -> compile_segments w (scan PATH_SEGMENT_RE s) = Ok segments ->
  spells segments s /\ wildcards_in segments + (if w : bool then 1 else 0) <= 1.
Proof.
  revert s w segments. induction n as [|n IH]; intros [|c s] w segments Hn; cbn [String.length] in Hn; [|lia|..].
  1,2: intros [= <-]; split; [constructor|destruct w; simpl; lia].
  rewrite scan_cons by apply segment_consuming. destruct (PATH_SEGMENT_RE (String c s)) as [[m rest]|] eqn:Em; [|done].
  pose proof (segment_consuming _ _ _ Em) as Hlen. cbn [String.length] in Hlen. apply match_reads in Em as (a & Ha & ->).
  assert (forall w segs, compile_segments w (scan PATH_SEGMENT_RE rest) = Ok segs -> spells segs rest /\ wildcards_in segs + (if w then 1 else 0) <= 1)
    as Hrest by (intros w' segs; apply IH; lia).
  cbn [compile_segments]. destruct m as [name|digits|]; cbn [captures] in Ha.
  - destruct Ha as [Ha ->]. destruct (compile_segments w _) as [segs|e] eqn:E; [|done]. intros [= <-]. destruct (Hrest w segs E) as [H1 H2].
    split; [by apply spells_cons; [apply spells_key|]|done].
  - destruct Ha as [Ha ->]. unfold int_of_digits. destruct (Nat.leb _ _) eqn:Hd; [|done]. apply Nat.leb_le in Hd. cbn [mbind res_bind].
    destruct (compile_segments w _) as [segs|e] eqn:E; [|done]. intros [= <-]. destruct (Hrest w segs E) as [H1 H2].
    split; [by apply spells_cons; [apply spells_index|]|done].
  - subst a. destruct w; [done|]. destruct (compile_segments true _) as [segs|e] eqn:E; [|done]. intros [= <-]. destruct (Hrest true segs E) as [H1 H2].
    split; [by apply spells_cons; [apply spells_wildcard|]|]. cbn [wildcards_in]. lia.
Qed.

Lemma compile_spelled segments t w : spells segments t -> wildcards_in segments + (if w : bool then 1 else 0) <= 1 ->
  compile_segments w (scan PATH_SEGMENT_RE t) = Ok segments.
Proof.
  intros Hs. revert w. induction Hs as [|s segments a b Ha Hb IH]; intros w Hw; [done|]. pose proof (spells_stops _ _ Hb) as Hstop.
  assert (forall m, captures m a -> scan PATH_SEGMENT_RE (a +:+ b) = inr m :: scan PATH_SEGMENT_RE b) as Hscan.
  { intros m Hm. pose proof (read_matches m a b Hm Hstop) as Hr. destruct (a +:+ b) as [|c t]; [done|].
    by rewrite scan_cons, Hr by apply segment_consuming. }
  destruct Ha as [name Hn|digits Hd Hl|].
  - rewrite (Hscan (m_key name)) by done. cbn [compile_segments]. by rewrite IH.
  - rewrite (Hscan (m_index digits)) by done. cbn [compile_segments]. unfold int_of_digits. rewrite (proj2 (Nat.leb_le _ _)) by done.
    cbn [mbind res_bind]. by rewrite IH.
  - rewrite (Hscan m_wildcard) by done. cbn [compile_segments wildcards_in] in *. destruct w; [lia|]. rewrite IH; [done|lia].
Qed.

Lemma printed_spells segments : Forall segment_ok segments -> spells segments (print_segments segments).
Proof.
  induction 1 as [|s segments Hs _ IH]; [constructor|]. cbn [print_segments]. apply spells_cons; [|done].
  destruct s as [name|i|]; cbn [segment_ok print_segment] in *.
  - by apply spells_key, made_of_name.
  - destruct (pretty_digits i) as (Hd & Hne & Hv & Hl). rewrite <- Hv at 1. apply spells_index; [by apply made_of_digits|]. by apply (Hl 4299).
  - apply spells_wildcard.
Qed.

(** C36. Select paths are read by their grammar.  A text is read as a path exactly when
    it is [$] and a spelling of the path's segments one after the other, with nothing
    between or after them: [.] and a name of letters, digits, [_] and [-], an index in
    decimal digits in brackets (leading zeros are allowed, and no more digits than
    Python converts), or [[*]], once at most.  Every other text raises.  So a path
    that is printed is read back as it was. *)
Theorem select_paths_round_trip segments text :
  (parse_path text = Ok segments <-> exists rest, text = "$" +:+ rest /\ spells segments rest /\ wildcards_in segments <= 1) /\
  (path_ok segments -> parse_path (print_path segments) = Ok segments).
Proof.
  assert (forall text, parse_path text = Ok segments <-> exists rest, text = "$" +:+ rest /\ spells segments rest /\ wildcards_in segments <= 1) as Hp.
  { intros [|c s]; cbn [parse_path]; [split; [done|by intros (? & [=] & _)]|]. destruct (Ascii.eqb_spec c "$") as [->|Hc].
    - split.
      + intros [H1 H2]%(compiled_spells _ _ _ _ (le_n _)). exists s. split_and!; [done|done|lia].
      + intros (rest & [= ->] & H1 & H2). apply compile_spelled; [done|lia].
    - split; [done|]. by intros (? & [= -> _] & _). }
  split; [apply Hp|]. intros [H1 H2]. apply Hp. exists (print_segments segments). split_and!; [done|by apply printed_spells|done].
Qed.

(** * The order of numbers *)

Lemma scaled_lt_at x y e : (e <= x.2)%Z -> (e <= y.2)%Z ->
  scaled_lt x y = (x.1 * 2 ^ (x.2 - e) <? y.1 * 2 ^ (y.2 - e))%Z.
Proof.
  destruct x as [m1 e1], y as [m2 e2]. cbn [fst snd scaled_lt]. intros H1 H2. set (k := Z.min e1 e2).
  assert (2 ^ (e1 - e) = 2 ^ (e1 - k) * 2 ^ (k - e))%Z as -> by (rewrite <- Z.pow_add_r by lia; f_equal; lia).
  assert (2 ^ (e2 - e) = 2 ^ (e2 - k) * 2 ^ (k - e))%Z as -> by (rewrite <- Z.pow_add_r by lia; f_equal; lia).
  assert (0 < 2 ^ (k - e))%Z as Hp by (apply Z.pow_pos_nonneg; lia).
  apply Bool.eq_iff_eq_true. rewrite !Z.ltb_lt, !Z.mul_assoc. by rewrite <- Z.mul_lt_mono_pos_r.
Qed.

Lemma num_eq_at x y e : (e <= x.2)%Z -> (e <= y.2)%Z ->
  num_eq x y = (x.1 * 2 ^ (x.2 - e) =? y.1 * 2 ^ (y.2 - e))%Z.
Proof.
  destruct x as [m1 e1], y as [m2 e2]. cbn [fst snd num_eq]. intros H1 H2. set (k := Z.min e1 e2).
  assert (2 ^ (e1 - e) = 2 ^ (e1 - k) * 2 ^ (k - e))%Z as -> by (rewrite <- Z.pow_add_r by lia; f_equal; lia).
  assert (2 ^ (e2 - e) = 2 ^ (e2 - k) * 2 ^ (k - e))%Z as -> by (rewrite <- Z.pow_add_r by lia; f_equal; lia).
  assert (0 < 2 ^ (k - e))%Z as Hp by (apply Z.pow_pos_nonneg; lia).
  apply Bool.eq_iff_eq_true. rewrite !Z.eqb_eq, !Z.mul_assoc. rewrite Z.mul_cancel_r by lia. done.
Qed.

(** Three numbers with one exponent. *)
Ltac common_exponent a b c :=
  let e := fresh "e" in
  set (e := Z.min a (Z.min b c)); cbn [flt feq fle];
  rewrite ?(fun x y H1 H2 => scaled_lt_at x y e H1 H2), ?(fun x y H1 H2 => num_eq_at x y e H1 H2) by (cbn [fst snd]; lia);
  cbn [fst snd].

Lemma flt_irrefl a : flt a a = false.
Proof. destruct a as [m e|[]|]; [|done..]. cbn [flt]. rewrite (scaled_lt_at _ _ e) by (cbn; lia). apply Z.ltb_irrefl. Qed.

Lemma flt_trans a b c : flt a b = true -> flt b c = true -> flt a c = true.
Proof.
  destruct a as [m e|[]|], b as [m' e'|[]|], c as [m'' e''|[]|]; try done. cbn [flt].
  rewrite !(scaled_lt_at _ _ (Z.min e (Z.min e' e''))) by (cbn; lia). rewrite !Z.ltb_lt. lia.
Qed.

Lemma fle_lt a b : isfinite a = true -> isfinite b = true -> fle a b = negb (flt b a).
Proof.
  destruct a as [m e|[]|], b as [m' e'|[]|]; try done. intros _ _. unfold fle. cbn [flt feq].
  rewrite !(scaled_lt_at _ _ (Z.min e e')), (num_eq_at _ _ (Z.min e e')) by (cbn; lia). cbn [fst snd].
  apply Bool.eq_iff_eq_true. rewrite orb_true_iff, negb_true_iff, Z.ltb_lt, Z.ltb_ge, Z.eqb_eq. lia.
Qed.

#[export] Instance JBool_inj : Inj (=) (=) JBool.
Proof. by intros ?? [= ->]. Qed.
#[export] Instance JInt_inj : Inj (=) (=) JInt.
Proof. by intros ?? [= ->]. Qed.

(** * What a verdict means *)

Section Meaning.
Context (float_sum : list json -> option json) (fromisoformat : string -> option (option Z))
  (float_timestamp : float -> option Z).

(** [at_path segments p v]: [v] stands at the path in [p]. *)
Inductive at_path : list PathSegment -> json -> json -> Prop :=
| at_root v : at_path [] v v
| at_key name d x segments v : dict_get name d = Some x -> at_path segments x v -> at_path (key name :: segments) (JDict d) v
| at_index i l x segments v : l !! N.to_nat i = Some x -> at_path segments x v -> at_path (index i :: segments) (JList l) v.

Inductive selects : list PathSegment -> json -> json -> Prop :=
| sel_path segments p v : at_path segments p v -> selects segments p v
| sel_all before after p l vs :
    at_path before p (JList l) -> Forall2 (at_path after) l vs -> selects (before ++ wildcard :: after) p (JList vs).

Definition finite_number (v : json) : Prop := exists f, number v = Some f /\ isfinite f = true.

(** [v] is the first of the best numbers of [l]. *)
Definition first_best (better : float -> float -> bool) (l : list json) (v : json) : Prop :=
  exists l1 l2, l = l1 ++ v :: l2 /\
    Forall (fun x => better (number_or_zero v) (number_or_zero x) = true) l1 /\
    Forall (fun x => better (number_or_zero x) (number_or_zero v) = false) l2.

Definition aggregates (a : Aggregate) (l : list json) (v : json) : Prop :=
  match a with
  | a_count => v = JInt (Z.of_nat (length l))
  | a_sum =>
      (exists zs, l = JInt <$> zs /\ v = JInt (foldr Z.add 0%Z zs)) \/
      (Forall finite_number l /\ ints l = None /\ float_sum l = Some v /\
       forall m e t, v = JFloat m e t -> isfinite (float_of m e t) = true)
  | a_max => Forall finite_number l /\ first_best (fun x y => flt y x) l v
  | a_min => Forall finite_number l /\ first_best flt l v
  | a_any => exists bs b, l = JBool <$> bs /\ v = JBool b /\ (b = true <-> true ∈ bs)
  | a_all => exists bs b, l = JBool <$> bs /\ v = JBool b /\ (b = true <-> false ∉ bs)
  end.

(** What the select stage hands to the comparator. *)
Definition reads (spec : AssertionSpec) (payload v : json) : Prop :=
  exists segments selected, parse_path (select_path (select spec)) = Ok segments /\ selects segments payload selected /\
    match aggregate (select spec) with
    | None => selected = v /\ (forall l, v <> JList l) /\ (forall d, v <> JDict d)
    | Some a => exists l, selected = JList l /\ aggregates a l v
    end.

(** [v op bound] for a bound that is set. *)
Definition breaches (v : float) (op : Operator) (bound : option float) : Prop :=
  exists b, bound = Some b /\
    match op with gt => flt b v = true | gte => fle b v = true | lt => flt v b = true | lte => fle v b = true end.

Definition instant (v : json) (t : Z) : Prop :=
  match v with
  | JStr s => fromisoformat s = Some (Some t)
  | JInt z => epoch_in_range z = true /\ t = (z * second)%Z
  | JFloat m e text => float_timestamp (float_of m e text) = Some t
  | _ => False
  end.

Definition older (age : float) (limit : float) : Prop := flt limit age = true.

Inductive judged : Compare -> json -> Z -> CheckState -> Prop :=
| j_critical op d c v now f : number v = Some f -> isfinite f = true -> breaches f op c ->
    judged (ThresholdCompare op d c) v now critical
| j_degraded op d c v now f : number v = Some f -> isfinite f = true -> ~ breaches f op c -> breaches f op d ->
    judged (ThresholdCompare op d c) v now degraded
| j_within op d c v now f : number v = Some f -> isfinite f = true -> ~ breaches f op c -> ~ breaches f op d ->
    judged (ThresholdCompare op d c) v now ok
| j_equals w v now b : strict_eq v w = b -> judged (EqualsCompare w) v now (match_state b)
| j_member ws w v now : w ∈ ws -> strict_eq v w = true -> judged (InCompare ws) v now ok
| j_no_member ws v now : (forall w, w ∈ ws -> strict_eq v w = false) -> judged (InCompare ws) v now critical
| j_bool b expect now : judged (BoolCompare expect) (JBool b) now (match_state (bool_decide (b = expect)))
| j_stale m d v now t a : instant v t -> a = total_seconds (now - t) -> older (Finite a.1 a.2) m ->
    judged (FreshnessCompare m d) v now critical
| j_aging m d v now t a l : instant v t -> a = total_seconds (now - t) -> ~ older (Finite a.1 a.2) m ->
    d = Some l -> older (Finite a.1 a.2) l -> judged (FreshnessCompare m d) v now degraded
| j_fresh m d v now t a : instant v t -> a = total_seconds (now - t) -> ~ older (Finite a.1 a.2) m ->
    (forall l, d = Some l -> ~ older (Finite a.1 a.2) l) -> judged (FreshnessCompare m d) v now ok.

(** ** Select *)

Lemma navigate_at segments p v : navigate p segments = Ok v <-> at_path segments p v.
Proof.
  split.
  - revert p. induction segments as [|[name|i|] segments IH]; intros p; cbn [navigate]; [intros [= ->]; constructor|..|done].
    + destruct p as [| | | | | |d]; try done. destruct (dict_get name d) as [x|] eqn:E; [|done]. intros H. econstructor; [done|by apply IH].
    + destruct p as [| | | | |l|]; try done. destruct (N.of_nat (length l) <=? i)%N; [done|]. destruct (l !! N.to_nat i) as [x|] eqn:E; [|done].
      intros H. econstructor; [done|by apply IH].
  - induction 1 as [v|name d x segments v E _ IH|i l x segments v E _ IH]; cbn [navigate]; [done|by rewrite E|].
    rewrite E. apply lookup_lt_Some in E. rewrite (proj2 (N.leb_gt _ _)) by lia. done.
Qed.

Lemma project_at after l i vs : project i l after = Ok vs <-> Forall2 (at_path after) l vs.
Proof.
  split.
  - revert i vs. induction l as [|x l IH]; intros i vs; cbn [project]; [intros [= <-]; constructor|].
    destruct (navigate x after) as [v|] eqn:E; [|done]. destruct (project (S i) l after) as [vs'|] eqn:Ep; [|done]. intros [= <-].
    constructor; [by apply navigate_at|by eapply IH].
  - intros H. revert i. induction H as [|x v l vs Hx _ IH]; intros i; [done|]. cbn [project]. rewrite (proj2 (navigate_at _ _ _) Hx).
    by rewrite IH.
Qed.

Lemma at_wildcard_split segments before after : at_wildcard segments = Some (before, after) -> segments = before ++ wildcard :: after /\ wildcard ∉ before.
Proof.
  revert before. induction segments as [|s segments IH]; intros before; [done|]. destruct s as [n|i|]; cbn [at_wildcard];
    [| |intros [= <- <-]; split; [done|apply not_elem_of_nil]];
    (destruct (at_wildcard segments) as [[b a]|]; [|done]; intros [= <- <-]; destruct (IH _ eq_refl) as [-> Hn]; split; [done|];
     by intros [[=]|?]%elem_of_cons).
Qed.

Lemma at_wildcard_app before after : wildcard ∉ before -> at_wildcard (before ++ wildcard :: after) = Some (before, after).
Proof.
  induction before as [|s before IH]; intros Hn; [done|]. apply not_elem_of_cons in Hn as [Hs Hn]. destruct s; [..|done]; cbn; by rewrite IH.
Qed.

Lemma at_path_plain segments p v : at_path segments p v -> wildcard ∉ segments.
Proof. induction 1; [apply not_elem_of_nil|..]; by apply not_elem_of_cons. Qed.

Lemma select_selects segments p v : select_value p segments = Ok v <-> selects segments p v.
Proof.
  unfold select_value. destruct (at_wildcard segments) as [[before after]|] eqn:Ew.
  - apply at_wildcard_split in Ew as [-> Hn]. split.
    + destruct (navigate p before) as [base|] eqn:Eb; [|done]. cbn [mbind res_bind]. destruct base as [| | | | |l|]; try done.
      destruct (project 0 l after) as [vs|] eqn:Ep; [|done]. intros [= <-]. econstructor; [by apply navigate_at|by apply project_at in Ep].
    + inversion 1 as [? ? ? Hp|b a ? l vs Hb Ha Heq]; subst; [apply at_path_plain in Hp; destruct Hp; apply elem_of_app; right; by left|].
      pose proof (f_equal at_wildcard Heq) as Hw. rewrite !at_wildcard_app in Hw by (done || by eapply at_path_plain). injection Hw as -> ->.
      rewrite (proj2 (navigate_at _ _ _) Hb). cbn [mbind res_bind]. by rewrite (proj2 (project_at _ _ _ _) Ha).
  - rewrite navigate_at. split; [by constructor|]. inversion 1 as [|b a ? l vs Hb Ha]; subst; [done|].
    rewrite at_wildcard_app in Ew by (by eapply at_path_plain). done.
Qed.

(** ** Aggregates *)

Lemma check_numbers_ok a l : check_numbers a l = Ok tt <-> Forall finite_number l.
Proof.
  induction l as [|v l IH]; cbn [check_numbers]; [by split|]. rewrite Forall_cons. unfold finite_number at 1.
  destruct (number v) as [f|]; [|by split; [|intros [(? & ? & _) _]]]. destruct (isfinite f) eqn:Hf.
  - rewrite IH. split; [intros H; split; [by exists f|done]|by intros [_ ?]].
  - split; [done|]. by intros [(f' & [= <-] & ?) _]; congruence.
Qed.

Lemma check_booleans_ok a l bs : check_booleans a l = Ok bs <-> l = JBool <$> bs.
Proof.
  revert bs. induction l as [|v l IH]; intros bs; cbn [check_booleans]; [by destruct bs; split; try done; intros [= <-]|].
  destruct v as [|b| | | | |]; try (by split; [|destruct bs]). destruct (check_booleans a l) as [bs'|e] eqn:E.
  - split; [intros [= <-]; cbn; f_equal; by apply IH|]. destruct bs as [|b' bs]; [done|]. intros [= -> H]. apply IH in H as [= ->]. done.
  - split; [done|]. destruct bs as [|b' bs]; [done|]. intros [= _ H]. by apply IH in H.
Qed.

Lemma ints_spec l zs : ints l = Some zs <-> l = JInt <$> zs.
Proof.
  unfold ints. rewrite mapM_Some. split.
  - induction 1 as [|v z l zs Hv _ ->]; [done|]. by destruct v; simplify_eq.
  - intros ->. induction zs; constructor; done.
Qed.

Lemma finite_ints zs : Forall finite_number (JInt <$> zs).
Proof. apply Forall_fmap, Forall_forall. intros z _. by exists (Finite z 0). Qed.

(** [better] compares finite numbers strictly and totally. *)
Definition strict_order (better : float -> float -> bool) : Prop :=
  (forall a, better a a = false) /\ (forall a b c, better a b = true -> better b c = true -> better a c = true) /\
  (forall a b c, isfinite a = true -> isfinite b = true -> isfinite c = true -> better a b = false -> better b c = false -> better a c = false).

Lemma flt_negative_trans a b c : isfinite a = true -> isfinite b = true -> isfinite c = true -> flt a b = false -> flt b c = false -> flt a c = false.
Proof.
  destruct a as [m e|[]|], b as [m' e'|[]|], c as [m'' e''|[]|]; try done. intros _ _ _. cbn [flt].
  rewrite !(scaled_lt_at _ _ (Z.min e (Z.min e' e''))) by (cbn; lia). rewrite !Z.ltb_ge. lia.
Qed.

Lemma flt_strict : strict_order flt.
Proof. split; [apply flt_irrefl|]. split; [apply flt_trans|apply flt_negative_trans]. Qed.

Lemma fgt_strict : strict_order (fun x y => flt y x).
Proof.
  split; [apply flt_irrefl|]. split; [intros a b c H1 H2; by eapply flt_trans|intros a b c ? ? ? H1 H2; by eapply (flt_negative_trans c b a)].
Qed.

Lemma finite_zero v : finite_number v -> isfinite (number_or_zero v) = true.
Proof. intros (f & Hf & ?). unfold number_or_zero. by rewrite Hf. Qed.

Lemma extreme_first better v rest : strict_order better -> Forall finite_number (v :: rest) ->
  first_best better (v :: rest) (extreme better v rest).
Proof.
  intros (Hirr & Htr & Hneg) Hf. unfold extreme.
  assert (forall rest best l1 l2, Forall finite_number (l1 ++ best :: l2 ++ rest) ->
    Forall (fun x => better (number_or_zero best) (number_or_zero x) = true) l1 ->
    Forall (fun x => better (number_or_zero x) (number_or_zero best) = false) l2 ->
    first_best better (l1 ++ best :: l2 ++ rest)
      (foldl (fun best x => if better (number_or_zero x) (number_or_zero best) then x else best) best rest)) as Hgen;
    [|by apply (Hgen rest v [] [])].
  clear v rest Hf. induction rest as [|x rest IH]; intros best l1 l2 Hf H1 H2; cbn [foldl].
  { exists l1, l2. by rewrite app_nil_r. }
  assert (isfinite (number_or_zero best) = true /\ isfinite (number_or_zero x) = true) as [Hb Hx].
  { rewrite Forall_app, Forall_cons, Forall_app, Forall_cons in Hf. destruct Hf as (_ & ? & _ & ? & _). split; by apply finite_zero. }
  destruct (better (number_or_zero x) (number_or_zero best)) eqn:E.
  - replace (l1 ++ best :: l2 ++ x :: rest) with ((l1 ++ best :: l2) ++ x :: [] ++ rest) by (by rewrite <- app_assoc).
    apply IH; [by rewrite <- app_assoc| |done]. rewrite Forall_app, Forall_cons. split; [|split; [done|]].
    + eapply Forall_impl; [exact H1|]. intros y Hy. by eapply Htr.
    + rewrite Forall_forall in H2. apply Forall_forall. intros y Hy. specialize (H2 y Hy). cbn in H2.
      destruct (better (number_or_zero x) (number_or_zero y)) eqn:Exy; [done|]. exfalso.
      assert (isfinite (number_or_zero y) = true) as Hyf.
      { rewrite Forall_app, Forall_cons, Forall_app in Hf. destruct Hf as (_ & _ & Hl2 & _). rewrite Forall_forall in Hl2. by apply finite_zero, Hl2. }
      by rewrite (Hneg _ _ _ Hx Hyf Hb Exy H2) in E.
  - replace (l1 ++ best :: l2 ++ x :: rest) with (l1 ++ best :: (l2 ++ [x]) ++ rest) by (by rewrite <- (app_assoc l2)).
    apply IH; [by rewrite <- app_assoc|done|]. rewrite Forall_app. split; [done|]. by constructor.
Qed.

Lemma first_best_unique better l v w : strict_order better -> first_best better l v -> first_best better l w -> v = w.
Proof.
  intros (Hirr & _) (l1 & l2 & -> & Hv1 & Hv2) (k1 & k2 & Heq & Hw1 & Hw2). apply app_eq_app in Heq as (k & [[-> Hk]|[-> Hk]]);
    (destruct k as [|x k]; [by injection Hk|]); injection Hk as <- ->.
  - rewrite Forall_app, Forall_cons in Hv1. rewrite Forall_app, Forall_cons in Hw2. cbn in *. destruct_and!. congruence.
  - rewrite Forall_app, Forall_cons in Hw1. rewrite Forall_app, Forall_cons in Hv2. cbn in *. destruct_and!. congruence.
Qed.

Lemma sum_fold zs : foldl Z.add 0%Z zs = foldr Z.add 0%Z zs.
Proof.
  assert (forall acc, foldl Z.add acc zs = (acc + foldr Z.add 0 zs)%Z) as H; [|apply H].
  induction zs as [|z zs IH]; intros acc; cbn; [lia|]. rewrite IH. lia.
Qed.

Lemma existsb_id bs : existsb id bs = true <-> true ∈ bs.
Proof. rewrite existsb_exists. setoid_rewrite <- list_elem_of_In. split; [by intros (x & ? & Hx); destruct x|by exists true]. Qed.

Lemma forallb_id bs : forallb id bs = true <-> false ∉ bs.
Proof.
  rewrite forallb_forall. setoid_rewrite <- list_elem_of_In. split; [by intros H Hf; apply H in Hf|]. intros H [] Hx; done.
Qed.

Lemma extreme_aggregates better a l v : strict_order better ->
  (_ ← check_numbers a l; match l with [] => Raise (undefined_on_empty a) | x :: rest => Ok (extreme better x rest) end) = Ok v <->
  Forall finite_number l /\ first_best better l v.
Proof.
  intros Hord. destruct (check_numbers a l) as [[]|e] eqn:En; cbn [mbind res_bind].
  - apply check_numbers_ok in En. destruct l as [|x l]; [split; [done|by intros (_ & [|? ?] & ? & [=] & _)]|].
    pose proof (extreme_first better x l Hord En) as Hx. split; [by intros [= <-]|]. intros [_ Hb]. f_equal. by eapply first_best_unique.
  - split; [done|]. intros [Hf _]. apply (check_numbers_ok a) in Hf. congruence.
Qed.

Lemma boolean_aggregates a (f : list bool -> bool) (P : list bool -> Prop) l v : (forall bs, f bs = true <-> P bs) ->
  (bs ← check_booleans a l; Ok (JBool (f bs))) = Ok v <-> exists bs b, l = JBool <$> bs /\ v = JBool b /\ (b = true <-> P bs).
Proof.
  intros Hf. destruct (check_booleans a l) as [bs|e] eqn:Eb; cbn [mbind res_bind].
  - apply check_booleans_ok in Eb as ->. split; [intros [= <-]; by eexists _, _|]. intros (bs' & b & Hl & -> & Hb).
    apply (inj (fmap JBool)) in Hl as ->. do 2 f_equal. apply Bool.eq_iff_eq_true. by rewrite Hf.
  - split; [done|]. intros (bs & b & Hl & _). apply (check_booleans_ok a) in Hl. congruence.
Qed.

Lemma aggregate_aggregates a l v : aggregate_values float_sum l a = Ok v <-> aggregates a l v.
Proof.
  destruct a; cbn [aggregate_values aggregates].
  - apply extreme_aggregates, fgt_strict.
  - apply extreme_aggregates, flt_strict.
  - unfold py_sum. destruct (ints l) as [zs|] eqn:Ei.
    + pose proof Ei as ->%ints_spec. rewrite (proj2 (check_numbers_ok _ _) (finite_ints zs)). cbn [mbind res_bind]. rewrite sum_fold. split.
      * intros [= <-]. left. by exists zs.
      * intros [(zs' & Hz & ->)|(_ & [=] & _)]. by apply (inj (fmap JInt)) in Hz as ->.
    + assert (~ exists zs, l = JInt <$> zs) as Hno by (intros (zs & Hz); apply ints_spec in Hz; congruence).
      destruct (check_numbers a_sum l) as [[]|e] eqn:En; cbn [mbind res_bind].
      * apply check_numbers_ok in En. split.
        -- intros H. right. split_and!; [done|done|..]; destruct (float_sum l) as [[| | |m e t| | |]|]; try done;
             try (destruct (isfinite (float_of m e t)) eqn:Hf; [|done]); injection H as <-; try done. by intros ? ? ? [= -> -> ->].
        -- intros [(zs & Hz & _)|(_ & _ & -> & Hfin)]; [by destruct Hno; exists zs|].
           destruct v as [| | |m e t| | |]; try done. by rewrite (Hfin _ _ _ eq_refl).
      * split; [done|]. intros [(zs & Hz & _)|(Hf & _)]; [by destruct Hno; exists zs|]. apply (check_numbers_ok a_sum) in Hf. congruence.
  - split; [by intros [= <-]|by intros ->].
  - apply (boolean_aggregates a_any (existsb id) (fun bs => true ∈ bs)), existsb_id.
  - apply (boolean_aggregates a_all (forallb id) (fun bs => false ∉ bs)), forallb_id.
Qed.

Lemma observe_reads a selected v : observe float_sum a selected = Ok v <->
  match a with
  | None => selected = v /\ (forall l, v <> JList l) /\ (forall d, v <> JDict d)
  | Some a => exists l, selected = JList l /\ aggregates a l v
  end.
Proof.
  destruct a as [a|]; cbn [observe].
  - destruct selected as [| | | | |l|]; try by (split; [|intros (? & ? & _)]). destruct (aggregate_values float_sum l a) as [w|r] eqn:E.
    + split; [intros [= <-]; exists l; split; [done|by apply aggregate_aggregates]|]. intros (l' & [= <-] & H). apply aggregate_aggregates in H. congruence.
    + split; [done|]. intros (l' & [= <-] & H). apply aggregate_aggregates in H. congruence.
  - destruct selected; (split; [intros H; first [discriminate H|injection H as <-; done]|]); intros (<- & Hl & Hd); try done; [by destruct (Hl l)|by destruct (Hd d)].
Qed.

Lemma reads_select spec payload segments : parse_path (select_path (select spec)) = Ok segments ->
  forall v, reads spec payload v <-> exists selected, select_value payload segments = Ok selected /\ observe float_sum (aggregate (select spec)) selected = Ok v.
Proof.
  intros Hp v. unfold reads. setoid_rewrite Hp. setoid_rewrite observe_reads. setoid_rewrite select_selects. split.
  - intros (segs & selected & [= <-] & Hs & Hv). by exists selected.
  - intros (selected & Hs & Hv). by exists segments, selected.
Qed.

(** ** Comparators *)

Lemma violates_breaches v op bound : violates_bound v op bound = true <-> breaches v op bound.
Proof.
  unfold violates_bound, breaches, violates. destruct bound as [b|]; [|by split; [|intros (? & ? & _)]].
  split; [intros H; exists b; by destruct op|]. intros (? & [= <-] & H). by destruct op.
Qed.

Lemma not_violates v op bound : violates_bound v op bound = false -> ~ breaches v op bound.
Proof. intros H Hb%violates_breaches. congruence. Qed.

Lemma threshold_judged op d c v now f : number v = Some f -> isfinite f = true -> judged (ThresholdCompare op d c) v now (threshold_state op d c f).
Proof.
  intros Hn Hf. unfold threshold_state. destruct (violates_bound f op c) eqn:Ec; [by eapply j_critical; [..|by apply violates_breaches]|].
  apply not_violates in Ec. destruct (violates_bound f op d) eqn:Ed; [by eapply j_degraded; [..|by apply violates_breaches]|].
  apply not_violates in Ed. by eapply j_within.
Qed.

Lemma freshness_judged m d v now t : instant v t ->
  judged (FreshnessCompare m d) v now (freshness_state m d (Finite (total_seconds (now - t)).1 (total_seconds (now - t)).2)).
Proof.
  intros Hi. unfold freshness_state. destruct (flt m _) eqn:Em; [by eapply j_stale|]. apply not_true_iff_false in Em.
  destruct d as [l|]; [destruct (flt l _) eqn:El; [by eapply j_aging|]|].
  - apply not_true_iff_false in El. eapply j_fresh; [done..|]. by intros ? [= <-].
  - by eapply j_fresh.
Qed.

Lemma timestamp_instant v r : parse_timestamp fromisoformat float_timestamp v = Ok r ->
  match r with Ok t => instant v t | Raise _ => forall t, ~ instant v t end.
Proof.
  destruct v as [|b|z|m e t|s|l|d]; cbn [parse_timestamp instant]; try (intros [= <-]; by intros ? []).
  - destruct (epoch_in_range z); [by intros [= <-]|]. destruct (repr_fails _); [done|]. intros [= <-] t [? _]. done.
  - destruct (float_timestamp _); intros [= <-]; done.
  - destruct (fromisoformat s) as [[t|]|]; intros [= <-]; done.
Qed.

(** A verdict, or no verdict at all. *)
Definition explained (c : Compare) (v : json) (now : Z) (ev : Evidence) (o : AssertionOutcome) : Prop :=
  (judged c v now (state o) /\ value o = v /\ reason (evidence o) = reason ev /\ observed (evidence o) = observed ev) \/
  (state o = unknown /\ value o = JNull /\ reason (evidence o) <> None /\ forall s, ~ judged c v now s).

Lemma no_verdict c v now ev r seen : (forall s, ~ judged c v now s) -> explained c v now ev (unknown_outcome ev r seen).
Proof. intros H. right. by split_and!. Qed.

Lemma compare_explained c v now ev o :
  compare_value fromisoformat float_timestamp c v now ev = Ok o -> explained c v now ev o.
Proof.
  destruct c as [op d c|w|ws|expect|m d]; cbn [compare_value].
  - intros [= <-]. unfold compare_threshold. destruct (number v) as [f|] eqn:En; [destruct (isfinite f) eqn:Ef|].
    + left. split_and!; try done. by apply threshold_judged.
    + apply no_verdict. intros s. inversion 1; congruence.
    + apply no_verdict. intros s. inversion 1; congruence.
  - intros [= <-]. left. split_and!; try done. by apply j_equals.
  - intros [= <-]. left. split_and!; try done. cbn [state]. destruct (existsb (strict_eq v) ws) eqn:E; cbn [match_state].
    + apply existsb_exists in E as (w & Hw & ?). eapply j_member; [|done]. by apply list_elem_of_In.
    + apply j_no_member. intros w Hw. apply not_true_iff_false. intros Ht. apply not_true_iff_false in E. apply E, existsb_exists.
      exists w. split; [by apply list_elem_of_In|done].
  - intros [= <-]. destruct v as [|b| | | | |]; try (by apply no_verdict; intros ?; inversion 1).
    left. split_and!; [cbn [state]|done..].
    replace (Bool.eqb b expect) with (bool_decide (b = expect)) by (by destruct b, expect). apply j_bool.
  - unfold compare_freshness. destruct (parse_timestamp _ _ v) as [r|e] eqn:Et; [|done]. apply timestamp_instant in Et. cbn [mbind res_bind].
    destruct r as [t|r]; intros [= <-].
    + left. split_and!; try done. by apply freshness_judged.
    + apply no_verdict. intros s. inversion 1; subst; by eapply Et.
Qed.

Lemma sampled o a selected : let o' := with_offender_sample o a selected in
  state o' = state o /\ value o' = value o /\ reason (evidence o') = reason (evidence o) /\ observed (evidence o') = observed (evidence o).
Proof. cbn. unfold with_offender_sample. destruct a; [|done]. destruct (state o) eqn:E; [done|..|done|done]; destruct selected as [| | | | |[|? ?]|]; done. Qed.

(** C16. The verdict of a sensor means what its assertion says: where the select stage
    reads a scalar that the comparator can judge, the state is the judgement of
    that scalar, which is shown as observed; everywhere else the state is unknown,
    with a reason and without a value, and no judgement exists. *)
Theorem verdicts_mean_what_they_say spec payload now o :
  evaluate_assertion float_sum fromisoformat float_timestamp spec payload (Some now) = Ok o ->
  (exists v, reads spec payload v /\ judged (compare spec) v now (state o) /\ state o ∈ [ok; degraded; critical] /\
     value o = v /\ observed (evidence o) = Some v /\ reason (evidence o) = None) \/
  (state o = unknown /\ value o = JNull /\ reason (evidence o) <> None /\
     ~ exists v s, reads spec payload v /\ judged (compare spec) v now s).
Proof.
  unfold evaluate_assertion. destruct (parse_path _) as [segments|e] eqn:Ep; [|done]. pose proof (reads_select spec payload segments Ep) as Hr.
  destruct (select_value payload segments) as [selected|r] eqn:Es.
  2:{ intros [= <-]. right. split_and!; try done. intros (v & s & (? & [=] & _)%Hr & _). }
  destruct (observe float_sum _ selected) as [v|[r seen]] eqn:Eo.
  2:{ intros [= <-]. right. split_and!; try done. intros (v & s & (? & [= <-] & Ho)%Hr & _). congruence. }
  destruct (compare_value _ _ _ v now _) as [o'|e] eqn:Ec; [|done]. cbn [mbind res_bind]. intros [= <-].
  destruct (sampled o' (aggregate (select spec)) selected) as (-> & -> & -> & ->).
  apply compare_explained in Ec as [(Hj & Hv & Hre & Hob)|(Hs & Hv & Hre & Hno)].
  - left. exists v. split_and!; try done; [apply Hr; by exists selected|]. clear -Hj.
    inversion Hj; subst; try (by rewrite !elem_of_cons; naive_solver);
      match goal with |- match_state ?b ∈ _ => destruct b; cbn [match_state]; rewrite !elem_of_cons; naive_solver end.
  - right. split_and!; try done. intros (w & s & (? & [= <-] & Ho)%Hr & Hj). rewrite Eo in Ho. injection Ho as <-. by eapply Hno.
Qed.

(** * The evaluator answers *)

(** The values inside a payload. *)
Inductive part_of : json -> json -> Prop :=
| part_refl v : part_of v v
| part_list v x l : x ∈ l -> part_of v x -> part_of v (JList l)
| part_dict v k x d : (k, x) ∈ d -> part_of v x -> part_of v (JDict d).

Definition int_limit : Z := (10 ^ Z.of_nat int_max_str_digits)%Z.

(** No integer and no list longer than an integer's text can be. *)
Definition sized (payload : json) : Prop :=
  forall v, part_of v payload ->
    match v with JInt z => (Z.abs z < int_limit)%Z | JList l => (Z.of_nat (length l) < int_limit)%Z | _ => True end.

Lemma part_trans u v w : part_of u v -> part_of v w -> part_of u w.
Proof. intros Hu Hv. induction Hv; [done|by eapply part_list; [|auto]|by eapply part_dict; [|auto]]. Qed.

Lemma dict_get_item {A} k (d : list (string * A)) v : dict_get k d = Some v -> (k, v) ∈ d.
Proof.
  induction d as [|[k' x] d IH]; [done|]. cbn [dict_get]. case_bool_decide as Hk; [intros [= ->]; subst; by left|]. intros H. right. by apply IH.
Qed.

Lemma at_path_part segments p v : at_path segments p v -> part_of v p.
Proof.
  induction 1 as [v|name d x segments v E _ IH|i l x segments v E _ IH]; [constructor|..].
  - eapply part_dict; [by eapply dict_get_item|done].
  - eapply part_list; [by eapply list_elem_of_lookup_2|done].
Qed.

(** What is selected is part of the payload, or a list of such parts as long as one
    of its lists. *)
Lemma selected_sized segments payload selected : selects segments payload selected -> sized payload ->
  match selected with
  | JList l => (Z.of_nat (length l) < int_limit)%Z /\ forall z, JInt z ∈ l -> (Z.abs z < int_limit)%Z
  | JInt z => (Z.abs z < int_limit)%Z
  | _ => True
  end.
Proof.
  intros Hs Hp. destruct Hs as [segments p v Ha%at_path_part|before after p l vs Ha%at_path_part Hf].
  - destruct v as [| |z| | |l|]; try done; [by apply (Hp (JInt z))|]. split; [by apply (Hp (JList l))|]. intros z Hz. apply (Hp (JInt z)).
    eapply part_trans; [|done]. eapply part_list; [done|constructor].
  - split; [rewrite <- (Forall2_length _ _ _ Hf); by apply (Hp (JList l))|]. intros z Hz. apply (Hp (JInt z)).
    apply list_elem_of_lookup in Hz as [i Hi]. destruct (Forall2_lookup_r _ _ _ _ _ Hf Hi) as (x & Hx & Hxz%at_path_part).
    eapply part_trans; [done|]. eapply part_trans; [|done]. eapply part_list; [by eapply list_elem_of_lookup_2|constructor].
Qed.

Lemma first_best_elem better l v : first_best better l v -> v ∈ l.
Proof. intros (l1 & l2 & -> & _). apply elem_of_app. right. by left. Qed.

Lemma observed_sized a selected z : observe float_sum a selected = Ok (JInt z) -> a <> Some a_sum ->
  match selected with
  | JList l => (Z.of_nat (length l) < int_limit)%Z /\ forall z, JInt z ∈ l -> (Z.abs z < int_limit)%Z
  | JInt z => (Z.abs z < int_limit)%Z
  | _ => True
  end -> (Z.abs z < int_limit)%Z.
Proof.
  intros Ho Hsum Hs. apply observe_reads in Ho. destruct a as [a|]; [|by destruct Ho as (-> & _)].
  destruct Ho as (l & -> & Ha), Hs as [Hl Hz]. destruct a; cbn [aggregates] in Ha; try done.
  - apply Hz. by eapply first_best_elem, Ha.
  - apply Hz. by eapply first_best_elem, Ha.
  - injection Ha as ->. by rewrite Z.abs_eq by apply Nat2Z.is_nonneg.
  - by destruct Ha as (? & ? & _ & [=] & _).
  - by destruct Ha as (? & ? & _ & [=] & _).
Qed.

(** The evaluator answers: on an assertion the API accepts and a payload as JSON
    gives it, whatever its shape, it raises nothing, unless it compares the age of
    a sum. *)
Theorem evaluations_answer spec payload now :
  validate spec = Ok tt -> sized payload ->
  (aggregate (select spec) = Some a_sum -> forall m d, compare spec <> FreshnessCompare m d) ->
  exists o, evaluate_assertion float_sum fromisoformat float_timestamp spec payload (Some now) = Ok o.
Proof.
  intros Hv Hp Hsum. unfold validate in Hv. unfold evaluate_assertion. destruct (parse_path _) as [segments|] eqn:Epath; [|done].
  destruct (select_value payload segments) as [selected|r] eqn:Es; [|by eexists].
  destruct (observe float_sum (aggregate (select spec)) selected) as [v|[r seen]] eqn:Eo; [|by eexists].
  assert (exists o, compare_value fromisoformat float_timestamp (compare spec) v now (with_observed (base_evidence spec) v) = Ok o) as [o ->]; [|by eexists].
  destruct (compare spec) as [| | | |m d]; cbn [compare_value]; try by eexists.
  assert (aggregate (select spec) <> Some a_sum) as Hno by (intros H; by destruct (Hsum H m d)).
  unfold compare_freshness. destruct (parse_timestamp _ _ v) as [[t|r]|e] eqn:Et; [by eexists..|]. exfalso.
  destruct v as [| |z| | | |]; try done. cbn [parse_timestamp] in Et. destruct (epoch_in_range z); [done|].
  apply select_selects, selected_sized in Es; [|done]. apply (observed_sized _ _ _ Eo Hno) in Es.
  unfold repr_fails in Et. fold int_limit in Et. rewrite (proj2 (Z.leb_gt _ _)) in Et by done. done.
Qed.

(** The sum of two integers that can be printed may be one that cannot: the reason
    text raises then. *)
Lemma long_sums_raise :
  let spec := {| select := {| select_path := "$"; aggregate := Some a_sum |}; compare := FreshnessCompare (Finite 60 0) None |} in
  let n := JInt (9 * 10 ^ 4299) in
  validate spec = Ok tt /\
  evaluate_assertion float_sum fromisoformat float_timestamp spec (JList [n; n]) (Some 0%Z) = Raise long_integer.
Proof. cbv zeta. split; by vm_compute. Qed.
End Meaning.

(** A concrete calendar for the witnesses: one text, and no fractional instants. *)
Definition sample_iso (s : string) : option (option Z) :=
  if bool_decide (s = "1970-01-01T00:01:00+00:00") then Some (Some (60 * second)%Z) else None.

Lemma select_paths_round_trip_witness :
  parse_path "$.data[12].rows[*].free-mb" = Ok [key "data"; index 12; key "rows"; wildcard; key "free-mb"].
Proof.
  apply (proj2 (select_paths_round_trip [key "data"; index 12; key "rows"; wildcard; key "free-mb"] "")).
  split; [|by apply Nat.leb_le]. repeat constructor; done.
Defined.

Definition disk_spec : AssertionSpec := {|
  select := {| select_path := "$.rows[*].used"; aggregate := Some a_max |};
  compare := ThresholdCompare gte (Some (Finite 80 0)) (Some (Finite 95 0)) |}.
Definition disk_payload : json := JDict [("rows", JList [JDict [("used", JInt 40)]; JDict [("used", JInt 97)]])].

Lemma verdicts_mean_what_they_say_witness : exists o,
  evaluate_assertion (fun _ => None) sample_iso (fun _ => None) disk_spec disk_payload (Some 0%Z) = Ok o /\
  state o = critical /\ judged sample_iso (fun _ => None) (compare disk_spec) (value o) 0 critical.
Proof.
  destruct (evaluate_assertion (fun _ => None) sample_iso (fun _ => None) disk_spec disk_payload (Some 0%Z)) as [o|e] eqn:E; [|by vm_compute in E].
  exists o. pose proof (verdicts_mean_what_they_say (fun _ => None) sample_iso (fun _ => None) disk_spec disk_payload 0 o E) as Ho.
  vm_compute in E. injection E as <-. destruct Ho as [(v & _ & Hj & _ & Hv & _)|[[=] _]]. cbn in Hv. by subst v.
Defined.

Definition backup_spec : AssertionSpec := {|
  select := {| select_path := "$.last"; aggregate := None |}; compare := FreshnessCompare (Finite 3600 0) (Some (Finite 600 0)) |}.

Lemma evaluations_answer_witness : exists o,
  evaluate_assertion (fun _ => None) sample_iso (fun _ => None) backup_spec
    (JDict [("last", JStr "1970-01-01T00:01:00+00:00")]) (Some (700 * second)%Z) = Ok o.
Proof.
  refine (evaluations_answer (fun _ => None) sample_iso (fun _ => None) backup_spec _ _ _ _ _); [by vm_compute| |done].
  intros v Hv. inversion Hv as [|? x ? Hx|? k x ? Hx Hp]; subst; [done|]. apply list_elem_of_singleton in Hx as [= -> ->].
  by inversion Hp.
Defined.
