(* ===== verification/Cron.v ===== *)
(** When a row with a cadence is next due ([scheduler/cron.py]), over the croniter
    library and the time zone database. *)

From S2P Require Import Prelude.

(** [str.split()]: the words between runs of white space. *)
Definition words (s : string) : list string := List.filter (fun w => negb (bool_decide (w = ""))) (split_by py_space s).

Definition is_five_field_expr (expr : string) : bool := bool_decide (length (words expr) = 5).

(** The two typed errors, and what [ZoneInfo] raises for a name that is no relative
    path. *)
Inductive CadenceError := InvalidCronExpression (expr : string) | InvalidTimezone (tz_name : string) | ZoneValueError.

(** croniter and [zoneinfo]: whether an expression is valid, the zone of a name, and
    the next match after an instant in a zone. *)
Class CronLibrary := {
  tzinfo : Type;
  UTC : tzinfo;
  croniter_is_valid : string -> bool;
  ZoneInfo : string -> res CadenceError tzinfo;
  get_next : string -> tzinfo -> Z -> Z;
}.

(** What the libraries document: the next match is strictly later, and a zone that
    is not found is reported as such. *)
Class CronLibraryLaws (L : CronLibrary) := {
  get_next_later : forall expr tz base, croniter_is_valid expr = true -> (base < get_next expr tz base)%Z;
}.

Section Cron.
Context `{L : CronLibrary}.

Definition is_valid_cron_expr (expr : string) : bool := is_five_field_expr expr && croniter_is_valid expr.

Definition resolve_timezone (tz_name : string) : res CadenceError tzinfo :=
  if bool_decide (tz_name = "") || bool_decide (tz_name = "UTC") then Ok UTC else ZoneInfo tz_name.

Definition next_fire_after (expr : string) (base : Z) (tz_name : string) : res CadenceError Z :=
  if negb (is_five_field_expr expr) || negb (croniter_is_valid expr) then Raise (InvalidCronExpression expr)
  else tz ← resolve_timezone tz_name; Ok (get_next expr tz base).

Lemma next_fire_later {LL : CronLibraryLaws L} expr base tz t : next_fire_after expr base tz = Ok t -> (base < t)%Z.
Proof.
  unfold next_fire_after. destruct (is_five_field_expr expr); [|done]. destruct (croniter_is_valid expr) eqn:E; [|done]. cbn [negb orb].
  intros (z & _ & [= <-])%bind_Ok. by apply get_next_later.
Qed.
End Cron.
