(* ===== verification/Sensors.v ===== *)
(** Sensors ([checks/repository.py], [checks/sensor_edit.py], the tick of
    [checks/runner.py]): the rows with their latest state, the confirmation of
    readings, the history, and the claims of due sensors by the runner's ticks. *)

From S2P Require Import Prelude Json Cron Assertions.

(** * Outcomes *)

(** Why the runner could not judge a sensor. *)
Inductive RunnerReason :=
| evaluation_timeout
| dispatch_error (error : string)
| dispatch_not_ok (dispatch_status : string) (error : json)
| op_descriptor_missing
| op_not_safe_at_dispatch (safety_level : string)
| op_is_write_at_dispatch (safety_level : string)
| target_error (code : string) (error : json)
| result_too_large
| assertion_evaluation_error.

(** The evidence of a result: the evaluator's, over the full answer or over its
    summary, or the runner's. *)
Inductive SensorEvidence :=
| from_evaluator (e : Evidence)
| checked_summary (e : Evidence)
| from_runner (why : RunnerReason).

Record Outcome := { o_state : CheckState; o_value : json; o_evidence : SensorEvidence }.

(** * Rows *)

Inductive SensorStatus := active | paused.
Inductive SensorSeverity := sev_degraded | sev_critical.
#[export] Instance SensorStatus_eq_dec : EqDecision SensorStatus.
Proof. solve_decision. Defined.

(** The cadence columns, of which the table's check admits one. *)
Inductive Cadence := interval (interval_seconds : Z) | cron (cron_expr : string).

Record Sensor := {
  sid : string;
  tenant_id : string;
  name : string;
  connector_id : string;
  op_id : string;
  target : option json_dict;
  params : json_dict;
  assertion : json;
  status : SensorStatus;
  status_reason : option string;
  cadence : Cadence;
  timezone : string;
  next_fire_at : option Z;
  severity : SensorSeverity;
  for_seconds : Z;
  retry_times : nat;
  retry_backoff_seconds : Z;
  identity_sub : string;
  last_state : CheckState;
  last_value : json;
  last_evidence : option SensorEvidence;
  last_evaluated_at : option Z;
  state_since : option Z;
  pending_state : option CheckState;
  pending_count : nat;
}.

Record SensorResult := {
  r_sensor_id : string;
  r_evaluated_at : Z;
  r_state : CheckState;
  r_value : json;
  r_evidence : SensorEvidence;
}.

Record SensorDb := { sensors : list Sensor; sensor_results : list SensorResult }.

(** Writing columns. *)
Definition with_reading (v : json) (e : SensorEvidence) (at_ : Z) (s : Sensor) : Sensor := {|
  sid := sid s; tenant_id := tenant_id s; name := name s; connector_id := connector_id s; op_id := op_id s; target := target s;
  params := params s; assertion := assertion s; status := status s; status_reason := status_reason s; cadence := cadence s;
  timezone := timezone s; next_fire_at := next_fire_at s; severity := severity s; for_seconds := for_seconds s;
  retry_times := retry_times s; retry_backoff_seconds := retry_backoff_seconds s; identity_sub := identity_sub s;
  last_state := last_state s; last_value := v; last_evidence := Some e; last_evaluated_at := Some at_; state_since := state_since s;
  pending_state := pending_state s; pending_count := pending_count s |}.

Definition with_state (st : CheckState) (since : option Z) (pending : option CheckState) (count : nat) (s : Sensor) : Sensor := {|
  sid := sid s; tenant_id := tenant_id s; name := name s; connector_id := connector_id s; op_id := op_id s; target := target s;
  params := params s; assertion := assertion s; status := status s; status_reason := status_reason s; cadence := cadence s;
  timezone := timezone s; next_fire_at := next_fire_at s; severity := severity s; for_seconds := for_seconds s;
  retry_times := retry_times s; retry_backoff_seconds := retry_backoff_seconds s; identity_sub := identity_sub s;
  last_state := st; last_value := last_value s; last_evidence := last_evidence s; last_evaluated_at := last_evaluated_at s;
  state_since := since; pending_state := pending; pending_count := count |}.

Definition with_schedule (st : SensorStatus) (why : option string) (next : option Z) (s : Sensor) : Sensor := {|
  sid := sid s; tenant_id := tenant_id s; name := name s; connector_id := connector_id s; op_id := op_id s; target := target s;
  params := params s; assertion := assertion s; status := st; status_reason := why; cadence := cadence s;
  timezone := timezone s; next_fire_at := next; severity := severity s; for_seconds := for_seconds s;
  retry_times := retry_times s; retry_backoff_seconds := retry_backoff_seconds s; identity_sub := identity_sub s;
  last_state := last_state s; last_value := last_value s; last_evidence := last_evidence s; last_evaluated_at := last_evaluated_at s;
  state_since := state_since s; pending_state := pending_state s; pending_count := pending_count s |}.

Definition set_next_fire (next : Z) (s : Sensor) : Sensor := with_schedule (status s) (status_reason s) (Some next) s.

(** * Recording a result *)

(** [_commit_through_confirmation_gate]: whether the committed state changed. *)
Definition commit_through_confirmation_gate (row : Sensor) (st : CheckState) (evaluated_at : Z) : Sensor * bool :=
  if bool_decide (st = last_state row) then (with_state (last_state row) (state_since row) None 0 row, false)
  else
    let '(pending, count) :=
      if Nat.ltb 0 (retry_times row) then
        if bool_decide (Some st <> pending_state row) then (Some st, 1) else (pending_state row, S (pending_count row))
      else (pending_state row, pending_count row) in
    if Nat.ltb 0 (retry_times row) && Nat.leb count (retry_times row)
    then (with_state (last_state row) (state_since row) pending count row, false)
    else (with_state st (Some evaluated_at) None 0 row, true).

(** A result that is not strictly newer than the last one is ignored. *)
Definition is_stale (evaluated_at : Z) (row : Sensor) : bool :=
  match last_evaluated_at row with Some t => (evaluated_at <=? t)%Z | None => false end.

Definition has_sid (id : string) (s : Sensor) : bool := bool_decide (sid s = id).

Definition record_sensor_result (db : SensorDb) (id : string) (st : CheckState) (v : json) (e : SensorEvidence) (evaluated_at : Z)
  (record_history : bool) : SensorDb * bool :=
  match List.find (has_sid id) (sensors db) with
  | None => (db, false)
  | Some row =>
      if is_stale evaluated_at row then (db, false)
      else
        let '(row', changed) := commit_through_confirmation_gate (with_reading v e evaluated_at row) st evaluated_at in
        ({| sensors := update_where (has_sid id) (fun _ => row') (sensors db);
            sensor_results := if record_history
              then sensor_results db ++ [{| r_sensor_id := id; r_evaluated_at := evaluated_at; r_state := st; r_value := v; r_evidence := e |}]
              else sensor_results db |}, changed)
  end.

(** * The history *)

Definition result_le (a b : SensorResult) : Prop := (r_evaluated_at a <= r_evaluated_at b)%Z.
#[export] Instance result_le_dec a b : Decision (result_le a b) := Z_le_dec _ _.

(** The filters of the trend query, the cursor apart. *)
Definition matches (id : string) (from_ts to_ts : option Z) (st : option CheckState) (r : SensorResult) : bool :=
  bool_decide (r_sensor_id r = id) &&
  match from_ts with Some t => (t <=? r_evaluated_at r)%Z | None => true end &&
  match to_ts with Some t => (r_evaluated_at r <=? t)%Z | None => true end &&
  match st with Some s => bool_decide (r_state r = s) | None => true end.

Definition after_cursor (after : option Z) (r : SensorResult) : bool :=
  match after with Some t => (t <? r_evaluated_at r)%Z | None => true end.

(** A page, and the cursor of the next one. *)
Definition list_sensor_results (results : list SensorResult) (id : string) (from_ts to_ts : option Z) (st : option CheckState)
  (limit : nat) (after : option Z) : list SensorResult * option Z :=
  let rows := take (S limit) (merge_sort result_le (select_where (fun r => matches id from_ts to_ts st r && after_cursor after r) results)) in
  if Nat.ltb limit (length rows)
  then (take limit rows, r_evaluated_at <$> last (take limit rows))
  else (rows, None).

(** * Due sensors *)

Definition second : Z := 1000000.

Definition is_due (now : Z) (s : Sensor) : bool :=
  bool_decide (status s = active) && match next_fire_at s with Some t => (t <=? now)%Z | None => false end.

Definition fire_le (a b : Sensor) : Prop := (default 0 (next_fire_at a) <= default 0 (next_fire_at b))%Z.
#[export] Instance fire_le_dec a b : Decision (fire_le a b) := Z_le_dec _ _.

Definition claim_due_sensors (db : SensorDb) (now : Z) (limit : nat) : list Sensor :=
  take limit (merge_sort fire_le (select_where (is_due now) (sensors db))).

Section Store.
Context `{CronLibrary}.

(** The instant after [t] at which a row is due. *)
Definition next_after (row : Sensor) (t : Z) : res CadenceError Z :=
  match cadence row with
  | cron expr => next_fire_after expr t (timezone row)
  | interval n => Ok (t + n * second)%Z
  end.

(** [UPDATE ... WHERE id AND status = 'active' AND next_fire_at = :previous], which
    no NULL satisfies. *)
Definition still_due (row s : Sensor) : bool :=
  has_sid (sid row) s && bool_decide (status s = active) &&
  match next_fire_at row, next_fire_at s with Some t, Some u => bool_decide (u = t) | _, _ => false end.

(** [row] is as it was read; [None] where another claimer was faster. *)
Definition advance_sensor_next_fire (db : SensorDb) (row : Sensor) (fire_instant : Z) : res CadenceError (SensorDb * option Sensor) :=
  new_next ← next_after row fire_instant;
  if existsb (still_due row) (sensors db)
  then Ok ({| sensors := update_where (still_due row) (set_next_fire new_next) (sensors db); sensor_results := sensor_results db |},
           Some (set_next_fire new_next row))
  else Ok (db, None).

Definition later_than (id : string) (t : Z) (s : Sensor) : bool :=
  has_sid id s && bool_decide (status s = active) && match next_fire_at s with Some u => (t <? u)%Z | None => false end.

Definition accelerate_sensor_next_fire (db : SensorDb) (id : string) (not_later_than : Z) : SensorDb * bool :=
  ({| sensors := update_where (later_than id not_later_than) (set_next_fire not_later_than) (sensors db);
      sensor_results := sensor_results db |},
   existsb (later_than id not_later_than) (sensors db)).

Definition park_sensor (db : SensorDb) (id : string) (why : string) : SensorDb := {|
  sensors := update_where (has_sid id) (fun s => with_schedule paused (Some why) (next_fire_at s) s) (sensors db);
  sensor_results := sensor_results db |}.

(** The columns a new row takes from its creator. *)
Definition create_sensor (db : SensorDb) (fields : Sensor) (base : Z) : res CadenceError SensorDb :=
  next ← next_after fields base;
  Ok {| sensors := sensors db ++ [with_schedule active None (Some next)
          (with_state unknown None None 0 {|
             sid := sid fields; tenant_id := tenant_id fields; name := name fields; connector_id := connector_id fields;
             op_id := op_id fields; target := target fields; params := params fields; assertion := assertion fields;
             status := active; status_reason := None; cadence := cadence fields; timezone := timezone fields;
             next_fire_at := None; severity := severity fields; for_seconds := for_seconds fields;
             retry_times := retry_times fields; retry_backoff_seconds := retry_backoff_seconds fields;
             identity_sub := identity_sub fields; last_state := unknown; last_value := JNull; last_evidence := None;
             last_evaluated_at := None; state_since := None; pending_state := None; pending_count := 0 |})];
        sensor_results := sensor_results db |}.

(** [_apply]: the edited settings, no waiting reading, and due at once. *)
Definition apply_edit (merged : Sensor) (now : Z) (s : Sensor) : Sensor := {|
  sid := sid s; tenant_id := tenant_id s; name := name merged; connector_id := connector_id merged; op_id := op_id merged;
  target := target s; params := params merged; assertion := assertion merged; status := active; status_reason := None;
  cadence := cadence merged; timezone := timezone merged; next_fire_at := Some now; severity := severity merged;
  for_seconds := for_seconds s; retry_times := retry_times s; retry_backoff_seconds := retry_backoff_seconds s;
  identity_sub := identity_sub s; last_state := last_state s; last_value := last_value s; last_evidence := last_evidence s;
  last_evaluated_at := last_evaluated_at s; state_since := state_since s; pending_state := None; pending_count := 0 |}.

Definition edit_row (db : SensorDb) (id : string) (merged : Sensor) (now : Z) : SensorDb := {|
  sensors := update_where (has_sid id) (apply_edit merged now) (sensors db); sensor_results := sensor_results db |}.

(** Deleting a row takes its history along. *)
Definition delete_sensor (db : SensorDb) (id : string) : SensorDb := {|
  sensors := delete_where (has_sid id) (sensors db);
  sensor_results := delete_where (fun r => bool_decide (r_sensor_id r = id)) (sensor_results db) |}.

(** [_persist_outcome], one transaction. *)
Definition persist_outcome (db : SensorDb) (id : string) (o : Outcome) (evaluated_at : Z) (record_history : bool) : SensorDb :=
  let '(db, _) := record_sensor_result db id (o_state o) (o_value o) (o_evidence o) evaluated_at record_history in
  match List.find (has_sid id) (sensors db) with
  | Some row =>
      match pending_state row with
      | Some _ => (accelerate_sensor_next_fire db id (evaluated_at + retry_backoff_seconds row * second)).1
      | None => db
      end
  | None => db
  end.

(** * A tick *)

Definition CLAIM_BATCH_LIMIT : nat := 50.

Definition cadence_error_name (e : CadenceError) : string :=
  match e with
  | InvalidCronExpression _ => "InvalidCronExpressionError" | InvalidTimezone _ => "InvalidTimezoneError" | ZoneValueError => "ValueError"
  end.

(** What happened to one claimed row: left due, lost to another claimer, advanced and
    committed, parked and committed, or an exception that no clause names. *)
Inductive RowOutcome := overlap | lost | advanced (row : Sensor) | parked | row_failed.

Definition tick_row (db : SensorDb) (in_flight : bool) (now : Z) (row : Sensor) : SensorDb * RowOutcome :=
  if in_flight then (db, overlap)
  else match advance_sensor_next_fire db row now with
       | Ok (db', Some row') => (db', advanced row')
       | Ok (db', None) => (db', lost)
       | Raise (InvalidCronExpression _ as e) | Raise (InvalidTimezone _ as e) =>
           (park_sensor db (sid row) ("invalid_cadence:" +:+ cadence_error_name e), parked)
       | Raise _ => (db, row_failed)
       end.

(** The [for] over the claimed rows.  [in_txn] says whether the session has a
    transaction open: the claim opened one, a commit ends it.  The rollback of an open
    transaction expires every row object of the session, so reading the next row
    raises, in the handler too; the rows advanced so far are then not evaluated. *)
Fixpoint tick_rows (db : SensorDb) (in_txn : bool) (in_flight : string -> bool) (now : Z) (rows : list Sensor)
  : SensorDb * option (list Sensor) :=
  match rows with
  | [] => (db, Some [])
  | row :: rest =>
      match tick_row db (in_flight (sid row)) now row with
      | (db, overlap) => tick_rows db in_txn in_flight now rest
      | (db, lost) => tick_rows db true in_flight now rest
      | (db, advanced row') =>
          let '(db, to_dispatch) := tick_rows db false in_flight now rest in (db, cons row' <$> to_dispatch)
      | (db, parked) => tick_rows db false in_flight now rest
      | (db, row_failed) =>
          if in_txn && negb (bool_decide (rest = [])) then (db, None) else tick_rows db false in_flight now rest
      end
  end.

(** A tick that no other writer interrupts; [None]: it raises. *)
Definition claim_and_spawn_due (draining locked : bool) (db : SensorDb) (in_flight : string -> bool) (now : Z)
  : SensorDb * option (bool * list Sensor) :=
  if draining then (db, Some (false, []))
  else if negb locked then (db, Some (false, []))
  else let '(db, to_dispatch) := tick_rows db true in_flight now (claim_due_sensors db now CLAIM_BATCH_LIMIT) in
       (db, pair true <$> to_dispatch).
End Store.
