(* ===== verification/SensorProofs.v ===== *)
(** What the sensors promise: the committed state is the confirmed one, the history
    pages are complete, and every due time fires once, at the sensor's cadence. *)

From S2P Require Import Prelude Json Cron Assertions Sensors.

(** * Confirmation *)

Record Reading := { rd_state : CheckState; rd_value : json; rd_evidence : SensorEvidence; rd_at : Z }.

(** The states from the newest back: the latest one that was read [S n] times in a
    row, or the state before all of them. *)
Fixpoint latest (n : nat) (newest_first : list CheckState) (before : CheckState) : CheckState :=
  match newest_first with
  | [] => before
  | s :: older => if bool_decide (take (S n) newest_first = replicate (S n) s) then s else latest n older before
  end.

(** The readings that are newer than all before them. *)
Fixpoint accepted (newest : option Z) (readings : list Reading) : list Reading :=
  match readings with
  | [] => []
  | r :: rest =>
      if match newest with Some t => (rd_at r <=? t)%Z | None => false end then accepted newest rest
      else r :: accepted (Some (rd_at r)) rest
  end.

Definition row_after (row : Sensor) (r : Reading) : Sensor :=
  if is_stale (rd_at r) row then row
  else (commit_through_confirmation_gate (with_reading (rd_value r) (rd_evidence r) (rd_at r) row) (rd_state r) (rd_at r)).1.

Definition record_reading (record_history : bool) (db : SensorDb) (id : string) (r : Reading) : SensorDb :=
  (record_sensor_result db id (rd_state r) (rd_value r) (rd_evidence r) (rd_at r) record_history).1.

Definition result_of (id : string) (r : Reading) : SensorResult := {|
  r_sensor_id := id; r_evaluated_at := rd_at r; r_state := rd_state r; r_value := rd_value r; r_evidence := rd_evidence r |}.

(** ** The gate *)

(** [newest_first] are the states since no confirmation was open. *)
Definition gate_state (newest_first : list CheckState) (before : CheckState) (row : Sensor) : Prop :=
  last_state row = latest (retry_times row) newest_first before /\
  match pending_state row with
  | None => newest_first = [] \/ head newest_first = Some (last_state row)
  | Some p => p <> last_state row /\ 1 <= pending_count row <= retry_times row /\
      take (pending_count row) newest_first = replicate (pending_count row) p /\ newest_first !! pending_count row <> Some p
  end.

Lemma latest_window n st l before : take n l = replicate n st -> latest n (st :: l) before = st.
Proof. intros H. cbn [latest]. rewrite bool_decide_true; [done|]. cbn [take replicate]. by rewrite H. Qed.

Lemma latest_open n st l before k : k < n -> l !! k <> Some st -> latest n (st :: l) before = latest n l before.
Proof.
  intros Hk Hl. cbn [latest]. rewrite bool_decide_false; [done|]. cbn [take replicate]. intros [= Ht]. apply Hl.
  rewrite <- (lookup_take_lt l n k), Ht by done. by apply lookup_replicate_2.
Qed.

Lemma gate_step newest_first before row st t :
  gate_state newest_first before row ->
  gate_state (st :: newest_first) before (commit_through_confirmation_gate row st t).1.
Proof.
  intros [Hl Hp]. unfold commit_through_confirmation_gate. destruct (bool_decide (st = last_state row)) eqn:Est.
  { apply bool_decide_eq_true in Est as ->. split; cbn [with_state last_state retry_times pending_state fst]; [|by right].
    cbn [latest]. by case_bool_decide. }
  apply bool_decide_eq_false in Est. destruct (retry_times row) as [|n] eqn:En.
  { cbn [Nat.ltb Nat.leb andb fst]. split; cbn [with_state last_state retry_times pending_state]; [|by right]. by rewrite En, latest_window. }
  change (Nat.ltb 0 (S n)) with true. cbn [andb]. destruct (bool_decide (Some st <> pending_state row)) eqn:Epd.
  - apply bool_decide_eq_true in Epd. change (Nat.leb 1 (S n)) with true. cbn [fst].
    assert (newest_first !! 0 <> Some st) as Hhead.
    { destruct (pending_state row) as [p|].
      - destruct Hp as (_ & Hc & Ht & _). destruct (pending_count row); [lia|]. destruct newest_first as [|x l]; [done|].
        injection Ht as -> _. cbn. congruence.
      - destruct Hp as [->|Hh]; [done|]. destruct newest_first; [done|]. cbn in *. congruence. }
    split; cbn [with_state last_state retry_times pending_state pending_count]; rewrite En.
    + by rewrite Hl, (latest_open _ _ _ _ 0) by (done || lia).
    + split_and!; try done; lia.
  - apply bool_decide_eq_false in Epd. destruct (pending_state row) as [p|]; [|by destruct Epd].
    assert (p = st) as -> by (destruct (decide (p = st)) as [|Hne]; [done|]; destruct Epd; congruence).
    destruct Hp as (_ & Hc & Ht & Hk). destruct (Nat.leb (S (pending_count row)) (S n)) eqn:Ele; cbn [fst].
    + apply Nat.leb_le in Ele. split; cbn [with_state last_state retry_times pending_state pending_count]; rewrite En.
      * by rewrite Hl, (latest_open _ _ _ _ (pending_count row)) by (done || lia).
      * split_and!; try done; try lia. cbn [take replicate]. by rewrite Ht.
    + apply Nat.leb_gt in Ele. split; cbn [with_state last_state retry_times pending_state]; [|by right].
      rewrite En, latest_window; [done|]. by replace (S n) with (pending_count row) by lia.
Qed.

Lemma gate_keeps row st t : let row' := (commit_through_confirmation_gate row st t).1 in
  sid row' = sid row /\ retry_times row' = retry_times row /\ last_evaluated_at row' = last_evaluated_at row /\ next_fire_at row' = next_fire_at row /\
  status row' = status row.
Proof. cbn. unfold commit_through_confirmation_gate. repeat (case_match; simplify_eq/=; try done). Qed.

(** The answer says whether the committed state changed. *)
Lemma gate_reports row st t : let '(row', changed) := commit_through_confirmation_gate row st t in
  changed = negb (bool_decide (last_state row' = last_state row)).
Proof.
  unfold commit_through_confirmation_gate. destruct (bool_decide (st = last_state row)) eqn:E; [by cbn [with_state last_state]; rewrite bool_decide_true by done|].
  apply bool_decide_eq_false in E. repeat case_match; simplify_eq; cbn [with_state last_state]; rewrite ?(bool_decide_true (last_state row = _)) by done; try done;
    by rewrite bool_decide_false.
Qed.

Lemma row_after_keeps row r : sid (row_after row r) = sid row /\ retry_times (row_after row r) = retry_times row /\
  last_evaluated_at (row_after row r) = if is_stale (rd_at r) row then last_evaluated_at row else Some (rd_at r).
Proof.
  unfold row_after. destruct (is_stale (rd_at r) row); [done|].
  by destruct (gate_keeps (with_reading (rd_value r) (rd_evidence r) (rd_at r) row) (rd_state r) (rd_at r)) as (-> & -> & -> & _).
Qed.

Lemma gate_readings readings newest_first before row : gate_state newest_first before row ->
  gate_state (reverse (rd_state <$> accepted (last_evaluated_at row) readings) ++ newest_first) before (foldl row_after row readings).
Proof.
  revert newest_first row. induction readings as [|r readings IH]; intros l row Hg; [done|]. cbn [foldl accepted].
  destruct (row_after_keeps row r) as (_ & _ & Hle). unfold is_stale in Hle. destruct (match last_evaluated_at row with Some t => _ | None => _ end) eqn:E.
  - rewrite <- Hle. apply IH. unfold row_after, is_stale. by rewrite E.
  - rewrite fmap_cons, reverse_cons, <- app_assoc. cbn [app]. rewrite <- Hle. apply IH. unfold row_after, is_stale. rewrite E.
    by apply gate_step.
Qed.

(** ** In the table *)

Definition has_row (db : SensorDb) (id : string) (row : Sensor) : Prop :=
  NoDup (sid <$> sensors db) /\ row ∈ sensors db /\ sid row = id.

Lemma find_row db id row : has_row db id row -> List.find (has_sid id) (sensors db) = Some row.
Proof.
  intros (Hnd & Hr & Hs). apply (find_unique sid); [done| |done|].
  - intros r Hr'. unfold has_sid in Hr'. to_prop. congruence.
  - unfold has_sid. by apply bool_decide_eq_true.
Qed.

Lemma record_in_table h db id row r : has_row db id row ->
  has_row (record_reading h db id r) id (row_after row r) /\
  sensor_results (record_reading h db id r) =
    sensor_results db ++ (if h && negb (is_stale (rd_at r) row) then [result_of id r] else []).
Proof.
  intros Hrow. pose proof Hrow as (Hnd & Hr & Hs). unfold record_reading, record_sensor_result, row_after. rewrite (find_row _ _ _ Hrow).
  destruct (is_stale (rd_at r) row) eqn:Est; [by rewrite andb_false_r, app_nil_r|].
  destruct (gate_keeps (with_reading (rd_value r) (rd_evidence r) (rd_at r) row) (rd_state r) (rd_at r)) as (Hsid & _).
  destruct (commit_through_confirmation_gate _ _ _) as [row' changed]. cbn [fst sensors sensor_results] in *. split; [|by destruct h; rewrite ?app_nil_r].
  assert (sid row' = id) as Hs' by (by rewrite Hsid). split_and!; [|apply elem_of_update; exists row; split; [done|]; unfold has_sid; by rewrite bool_decide_true|done].
  clear -Hnd Hs'. cbn [sensors]. replace (sid <$> update_where (has_sid id) (fun _ => row') (sensors db)) with (sid <$> sensors db); [done|].
  unfold update_where. rewrite <- list_fmap_compose. apply list_fmap_ext. intros i x _. cbn. unfold has_sid. case_bool_decide; [congruence|done].
Qed.

(** C13. A sensor shows the confirmed state: after any sequence of results its state is
    the latest one that was read [retry_times + 1] times in a row, late and repeated
    results left aside, or its old state when there is none; and the history gains
    exactly the results that count, in their order. *)
Theorem sensors_show_confirmed_states h db id row readings :
  has_row db id row -> pending_state row = None ->
  let counted := accepted (last_evaluated_at row) readings in
  let db' := foldl (fun db r => record_reading h db id r) db readings in
  exists row', has_row db' id row' /\
    last_state row' = latest (retry_times row) (reverse (rd_state <$> counted)) (last_state row) /\
    sensor_results db' = sensor_results db ++ (if h then result_of id <$> counted else []).
Proof.
  intros Hrow Hp counted db'. exists (foldl row_after row readings).
  assert (has_row db' id (foldl row_after row readings) /\
    sensor_results db' = sensor_results db ++ (if h then result_of id <$> counted else [])) as [H1 H2].
  { clear Hp. subst counted db'. revert db row Hrow. induction readings as [|r readings IH]; intros db row Hrow; cbn [foldl accepted].
    { split; [done|]. destruct h; by rewrite app_nil_r. }
    destruct (record_in_table h db id row r Hrow) as [Hrow' Hres]. destruct (IH _ _ Hrow') as [H1 H2]. split; [done|]. rewrite H2, Hres.
    destruct (row_after_keeps row r) as (_ & _ & ->). unfold is_stale. rewrite <- app_assoc. f_equal.
    destruct (match last_evaluated_at row with Some t => _ | None => _ end) eqn:E; destruct h; done. }
  split; [done|]. split; [|done].
  pose proof (gate_readings readings [] (last_state row) row) as Hg. rewrite app_nil_r in Hg.
  destruct Hg as [Hg _]; [by split; [|rewrite Hp; left]|]. rewrite Hg. f_equal. clear. induction readings as [|r readings IH] using rev_ind; [done|].
  rewrite foldl_app. cbn. by destruct (row_after_keeps (foldl row_after row readings) r) as (_ & -> & _).
Qed.

Lemma sensors_show_confirmed_states_witness :
  let ev := from_evaluator (base_evidence {| select := {| select_path := "$"; aggregate := None |}; compare := BoolCompare true |}) in
  let rd st t := {| rd_state := st; rd_value := JNull; rd_evidence := ev; rd_at := t |} in
  let row := {| sid := "s1"; tenant_id := "t"; name := "disk"; connector_id := "c"; op_id := "o"; target := None; params := [];
                assertion := JNull; status := active; status_reason := None; cadence := interval 60; timezone := "UTC"; next_fire_at := Some 0%Z;
                severity := sev_critical; for_seconds := 0; retry_times := 1; retry_backoff_seconds := 15; identity_sub := "__sensor__";
                last_state := ok; last_value := JNull; last_evidence := None; last_evaluated_at := None; state_since := None;
                pending_state := None; pending_count := 0 |} in
  let db := {| sensors := [row]; sensor_results := [] |} in
  exists row', has_row (foldl (fun db r => record_reading true db "s1" r) db [rd critical 1%Z; rd critical 1%Z; rd ok 2%Z; rd critical 3%Z; rd critical 4%Z])
    "s1" row' /\ last_state row' = critical.
Proof.
  intros ev rd row db.
  destruct (sensors_show_confirmed_states true db "s1" row [rd critical 1%Z; rd critical 1%Z; rd ok 2%Z; rd critical 3%Z; rd critical 4%Z])
    as (row' & Hrow & Hl & _); [split_and!; [repeat constructor; by intros ?%elem_of_nil|by left|done]|done|].
  exists row'. split; [exact Hrow|]. rewrite Hl. by vm_compute.
Defined.

(** * Ticks that interleave

    Any number of ticks, of any replicas, with any clocks, hold rows they have read;
    each of their steps on a row is one transaction, and so are the results, edits,
    creations and deletions in between.  No lock is assumed. *)

Record Tick := { t_now : Z; t_rows : list Sensor }.

(** A due time was set, or a row was fired: what was read of it, the tick's instant,
    and the due time it got. *)
Inductive Event := e_set (id : string) (t : Z) | e_fired (row : Sensor) (at_ next : Z).

Definition event_id (e : Event) : string := match e with e_set id _ => id | e_fired row _ _ => sid row end.
Definition due_set (e : Event) : Z := match e with e_set _ t => t | e_fired _ _ next => next end.

Fixpoint last_due (id : string) (newest_first : list Event) : option Z :=
  match newest_first with
  | [] => None
  | e :: older => if bool_decide (event_id e = id) then Some (due_set e) else last_due id older
  end.

(** [log]: the newest event first. *)
Record World := { db : SensorDb; ticks : list Tick; log : list Event }.

Section Ticks.
Context `{L : CronLibrary}.

Inductive world_step : World -> World -> Prop :=
| w_claim w now limit : world_step w {| db := db w; ticks := ticks w ++ [{| t_now := now; t_rows := claim_due_sensors (db w) now limit |}]; log := log w |}
| w_row w i now row rest in_flight db' outcome :
    ticks w !! i = Some {| t_now := now; t_rows := row :: rest |} -> tick_row (db w) in_flight now row = (db', outcome) ->
    world_step w {| db := db'; ticks := <[i := {| t_now := now; t_rows := rest |}]> (ticks w);
                    log := match outcome, next_after row now with advanced _, Ok next => e_fired row now next :: log w | _, _ => log w end |}
| w_record w id r h : world_step w {| db := record_reading h (db w) id r; ticks := ticks w; log := log w |}
| w_accelerate w id t db' moved : accelerate_sensor_next_fire (db w) id t = (db', moved) ->
    world_step w {| db := db'; ticks := ticks w; log := if moved then e_set id t :: log w else log w |}
| w_edit w id merged now : world_step w {| db := edit_row (db w) id merged now; ticks := ticks w; log := e_set id now :: log w |}
| w_create w fields base db' next : next_after fields base = Ok next -> create_sensor (db w) fields base = Ok db' ->
    sid fields ∉ (sid <$> sensors (db w)) ->
    world_step w {| db := db'; ticks := ticks w; log := e_set (sid fields) next :: log w |}
| w_delete w id : world_step w {| db := delete_sensor (db w) id; ticks := ticks w; log := log w |}.

Inductive reachable : World -> Prop :=
| w_start : reachable {| db := {| sensors := []; sensor_results := [] |}; ticks := []; log := [] |}
| w_next w w' : reachable w -> world_step w w' -> reachable w'.

(** Every fire was due, at the time set last. *)
Fixpoint fires_due (newest_first : list Event) : Prop :=
  match newest_first with
  | [] => True
  | e :: older =>
      fires_due older /\
      match e with
      | e_set _ _ => True
      | e_fired row at_ next =>
          next_after row at_ = Ok next /\ exists due, next_fire_at row = Some due /\ last_due (sid row) older = Some due /\ (due <= at_)%Z
      end
  end.

Record world_ok (w : World) : Prop := {
  wo_ids : NoDup (sid <$> sensors (db w));
  wo_due : forall s, s ∈ sensors (db w) -> next_fire_at s = last_due (sid s) (log w);
  wo_ticks : forall tk row, tk ∈ ticks w -> row ∈ t_rows tk -> exists due, next_fire_at row = Some due /\ (due <= t_now tk)%Z;
  wo_fires : fires_due (log w);
}.

Lemma last_due_cons_eq e older : last_due (event_id e) (e :: older) = Some (due_set e).
Proof. cbn [last_due]. by rewrite bool_decide_true. Qed.

Lemma last_due_cons_ne id e older : event_id e <> id -> last_due id (e :: older) = last_due id older.
Proof. intros Hne. cbn [last_due]. by rewrite bool_decide_false. Qed.

(** An update of rows that keeps ids and either keeps due times or sets those of one
    id, which the log notes. *)
Lemma update_due p f db l id t :
  (forall s, sid (f s) = sid s) -> (forall s, p s = true -> sid s = id /\ next_fire_at (f s) = Some t) ->
  (forall s, s ∈ sensors db -> next_fire_at s = last_due (sid s) l) ->
  (forall s, s ∈ sensors db -> sid s = id -> p s = true) ->
  forall s, s ∈ update_where p f (sensors db) -> next_fire_at s = last_due (sid s) (e_set id t :: l).
Proof.
  intros Hid Hp Hl Hall s (s0 & Hs0 & ->)%elem_of_update. destruct (p s0) eqn:E.
  - destruct (Hp _ E) as [<- ->]. rewrite Hid. symmetry. apply (last_due_cons_eq (e_set (sid s0) t)).
  - rewrite last_due_cons_ne; [by apply Hl|]. cbn. intros Heq. by rewrite (Hall s0 Hs0 (eq_sym Heq)) in E.
Qed.

Lemma update_where_ids p f db : (forall s, sid (f s) = sid s) -> sid <$> update_where p f (sensors db) = sid <$> sensors db.
Proof. intros Hf. by apply update_where_keys. Qed.

Lemma advanced_row dbw row now db' row' : tick_row dbw false now row = (db', advanced row') ->
  exists next s, next_after row now = Ok next /\ s ∈ sensors dbw /\ still_due row s = true /\
    db' = {| sensors := update_where (still_due row) (set_next_fire next) (sensors dbw); sensor_results := sensor_results dbw |}.
Proof.
  unfold tick_row, advance_sensor_next_fire. destruct (next_after row now) as [next|e]; cbn [mbind res_bind]; [|by destruct e].
  destruct (existsb (still_due row) (sensors dbw)) eqn:E; [|done]. intros [= <- <-]. apply existsb_exists in E as (s & Hs & Hd).
  exists next, s. split_and!; try done. by apply list_elem_of_In.
Qed.

Lemma other_row dbw in_flight row now db' outcome : tick_row dbw in_flight now row = (db', outcome) ->
  (forall row', outcome <> advanced row') -> db' = dbw \/ exists why, db' = park_sensor dbw (sid row) why.
Proof.
  unfold tick_row, advance_sensor_next_fire. destruct in_flight; [intros [= <- <-]; by left|].
  destruct (next_after row now) as [next|e]; cbn [mbind res_bind].
  - destruct (existsb _ _); intros [= <- <-] Hno; [by destruct (Hno (set_next_fire next row))|by left].
  - destruct e; intros [= <- <-] _; first [by right; eexists|by left].
Qed.

Lemma still_due_spec row s due : next_fire_at row = Some due -> still_due row s = true <-> sid s = sid row /\ status s = active /\ next_fire_at s = Some due.
Proof.
  intros Hd. unfold still_due, has_sid. rewrite Hd. destruct (next_fire_at s) as [u|].
  - rewrite !andb_true_iff, !bool_decide_eq_true. naive_solver.
  - rewrite andb_false_r. naive_solver.
Qed.

Lemma claimed_due dbw now limit row : row ∈ claim_due_sensors dbw now limit -> exists due, next_fire_at row = Some due /\ (due <= now)%Z.
Proof.
  unfold claim_due_sensors. intros Hr. apply elem_of_take in Hr as (i & Hi & _). apply list_elem_of_lookup_2 in Hi.
  rewrite merge_sort_Permutation in Hi. apply elem_of_select in Hi as [_ Hd]. unfold is_due in Hd. to_prop.
  destruct (next_fire_at row) as [t|]; [|done]. exists t. split; [done|]. by apply Z.leb_le.
Qed.

Lemma record_keeps_due h dbw id r : sid <$> sensors (record_reading h dbw id r) = sid <$> sensors dbw /\
  forall s, s ∈ sensors (record_reading h dbw id r) -> exists s0, s0 ∈ sensors dbw /\ sid s = sid s0 /\ next_fire_at s = next_fire_at s0.
Proof.
  unfold record_reading, record_sensor_result. destruct (List.find (has_sid id) (sensors dbw)) as [row|] eqn:E; [|by split; [|intros s Hs; exists s]].
  apply find_Some_iff in E as [Hr Hid]. unfold has_sid in Hid. to_prop.
  destruct (is_stale (rd_at r) row); [by split; [|intros s Hs; exists s]|].
  destruct (gate_keeps (with_reading (rd_value r) (rd_evidence r) (rd_at r) row) (rd_state r) (rd_at r)) as (Hsid & _ & _ & Hnf & _).
  destruct (commit_through_confirmation_gate _ _ _) as [row' changed]. cbn [fst sensors with_reading sid next_fire_at] in *. split.
  - unfold update_where. rewrite <- list_fmap_compose. apply list_fmap_ext. intros i x _. cbn. unfold has_sid. case_bool_decide; [congruence|done].
  - intros s (s0 & Hs0 & ->)%elem_of_update. destruct (has_sid id s0) eqn:E; [exists row; split; [done|by rewrite Hsid, Hnf]|by exists s0].
Qed.

Lemma step_ok w w' : world_ok w -> world_step w w' -> world_ok w'.
Proof.
  intros [Hi Hd Ht Hf] Hs. destruct Hs as [w now limit|w i now row rest busy db' outcome Hti Hrow|w id r h|w id t db' moved Hacc|w id merged now|w fields base db' next Hn Hc Hnew|w id];
    cbn [db ticks log] in *.
  - constructor; cbn [db ticks log]; try done. intros tk row [Htk| ->%list_elem_of_singleton]%elem_of_app Hrow; [by eapply Ht|]. by eapply claimed_due.
  - assert (forall tk r0, tk ∈ <[i:={| t_now := now; t_rows := rest |}]> (ticks w) -> r0 ∈ t_rows tk ->
      exists due, next_fire_at r0 = Some due /\ (due <= t_now tk)%Z) as Ht'.
    { intros tk r0 Htk Hr0. apply list_elem_of_lookup in Htk as [j Hj].
      apply list_lookup_insert_Some in Hj as [(_ & <- & _)|(_ & Hj)]; [|by eapply Ht; [eapply list_elem_of_lookup_2|]]. cbn in *.
      apply (Ht {| t_now := now; t_rows := row :: rest |}); [by eapply list_elem_of_lookup_2|by right]. }
    destruct (Ht _ row (list_elem_of_lookup_2 _ _ _ Hti) (list_elem_of_here _ _)) as (due & Hdue & Hle). cbn in Hle.
    destruct (match outcome with advanced row' => Some row' | _ => None end) as [row'|] eqn:Eo.
    + destruct outcome as [| |r'| |]; try done. destruct busy; [by cbn in Hrow; simplify_eq|].
      destruct (advanced_row _ _ _ _ _ Hrow) as (next & s & Hnext & Hs & Hsd & ->). rewrite Hnext.
      apply (still_due_spec _ _ due) in Hsd as (Hid & Hact & Hnf); [|done].
      constructor; cbn [db ticks log sensors]; [by rewrite update_where_ids|..|done|].
      * intros s1 Hs1. apply (update_due (still_due row) (set_next_fire next) (db w) (log w) (sid row) next) in Hs1; try done.
        -- intros s2 Hs2. apply (still_due_spec _ _ due) in Hs2 as (? & _ & _); [|done]. by split.
        -- intros s2 Hs2 Hid2. apply (still_due_spec _ _ due); [done|]. rewrite (key_inj sid (sensors (db w)) s2 s) by (done || congruence). by split_and!.
      * split; [done|]. split; [done|]. exists due. split_and!; try done. by rewrite <- Hid, <- Hd.
    + assert (forall row', outcome <> advanced row') as Hno by (intros row' ->; done).
      replace (match outcome with advanced _ => match next_after row now with Ok next => e_fired row now next :: log w | _ => log w end | _ => log w end)
        with (log w) by (by destruct outcome).
      destruct (other_row _ _ _ _ _ _ Hrow Hno) as [->|[why ->]]; constructor; cbn [db ticks log park_sensor sensors]; try done; [by rewrite update_where_ids|].
      intros s (s0 & Hs0 & ->)%elem_of_update. destruct (has_sid (sid row) s0); cbn; by apply Hd.
  - destruct (record_keeps_due h (db w) id r) as [Hids Hrows]. constructor; cbn [db ticks log]; [by rewrite Hids| |done|done].
    intros s Hs. destruct (Hrows s Hs) as (s0 & Hs0 & -> & ->). by apply Hd.
  - unfold accelerate_sensor_next_fire in Hacc. injection Hacc as <- <-. constructor; cbn [db ticks log sensors]; [by rewrite update_where_ids| |done|by destruct (existsb _ _)].
    destruct (existsb (later_than id t) (sensors (db w))) eqn:E.
    + apply existsb_exists in E as (s & Hs%list_elem_of_In & Hl). apply update_due; try done.
      * intros s1 Hs1. unfold later_than, has_sid in Hs1. by to_prop.
      * intros s1 Hs1 Hid1. rewrite (key_inj sid (sensors (db w)) s1 s); [done..|]. unfold later_than, has_sid in Hl. to_prop. congruence.
    + rewrite update_where_none; [done|]. intros s Hs. apply not_true_iff_false. intros Hl. apply not_true_iff_false in E. apply E, existsb_exists.
      exists s. split; [by apply list_elem_of_In|done].
  - constructor; cbn [db ticks log sensors edit_row]; [by rewrite update_where_ids| |done|done].
    apply update_due; try done; unfold has_sid; intros s Hs; [by to_prop|intros; by apply bool_decide_eq_true].
  - unfold create_sensor in Hc. rewrite Hn in Hc. injection Hc as <-. constructor; cbn [db ticks log sensors]; [| |done|done].
    + rewrite fmap_app. by apply NoDup_snoc.
    + intros s [Hs| ->%list_elem_of_singleton]%elem_of_app; [|cbn; by rewrite bool_decide_true].
      rewrite last_due_cons_ne; [by apply Hd|]. cbn. intros Heq. apply Hnew. rewrite Heq. by apply list_elem_of_fmap_2.
  - constructor; cbn [db ticks log sensors delete_sensor]; [| |done|done].
    + by apply NoDup_delete_where.
    + intros s [Hs _]%elem_of_delete. by apply Hd.
Qed.

Lemma reachable_ok w : reachable w -> world_ok w.
Proof.
  induction 1 as [|w w' _ IH Hs]; [|by eapply step_ok]. constructor; cbn; [constructor|..|done]; [by intros s ?%elem_of_nil|by intros ?? ?%elem_of_nil].
Qed.

Lemma fires_due_suffix l1 l2 : fires_due (l1 ++ l2) -> fires_due l2.
Proof. induction l1 as [|e l1 IH]; [done|]. intros [Hf _]. by apply IH. Qed.

Lemma last_due_skip id l1 l2 : Forall (fun e => event_id e <> id) l1 -> last_due id (l1 ++ l2) = last_due id l2.
Proof. induction 1 as [|e l1 He _ IH]; [done|]. cbn [app]. by rewrite last_due_cons_ne. Qed.

(** C14. A sensor keeps its cadence, in every interleaving of ticks, results and edits,
    without any lock.  Take two fires of a sensor with no other fire of it in between,
    whose due time was not set anew in between either, by an edit or for a confirming
    re-check.  The second one answers the due time that the cadence gave when the
    first was made, and is not earlier.  Where the cron library answers with later
    times and an interval is positive, as the schemas of the API demand, that due
    time is after the first fire, which in turn is not before its own: so no due time
    fires twice, and however late a tick is, one fire answers for all times missed. *)
Theorem sensors_keep_their_cadence `{LL : !CronLibraryLaws L} w newer row' at' next' between row at_ next older :
  reachable w -> log w = newer ++ e_fired row' at' next' :: between ++ e_fired row at_ next :: older ->
  sid row = sid row' -> Forall (fun e => event_id e <> sid row) between ->
  (forall n, cadence row = interval n -> (0 < n)%Z) ->
  exists due due', next_fire_at row = Some due /\ next_fire_at row' = Some due' /\
    (due <= at_ < due')%Z /\ (due' <= at')%Z /\
    match cadence row with
    | interval n => due' = (at_ + n * second)%Z
    | cron expr => next_fire_after expr at_ (timezone row) = Ok due'
    end.
Proof.
  intros Hw%reachable_ok Hlog Hid Hb Hpos. destruct Hw as [_ _ _ Hf]. rewrite Hlog in Hf. apply fires_due_suffix in Hf as [Hf (Hn' & due' & Hdue' & Hlast & Hle')].
  apply fires_due_suffix in Hf as [_ (Hn & due & Hdue & _ & Hle)]. rewrite <- Hid, last_due_skip in Hlast by done.
  rewrite (last_due_cons_eq (e_fired row at_ next)) in Hlast. injection Hlast as <-. cbn [due_set] in *.
  exists due, next. unfold next_after in Hn. destruct (cadence row) as [n|expr].
  - injection Hn as <-. specialize (Hpos n eq_refl). split_and!; try done. unfold second. lia.
  - pose proof (next_fire_later _ _ _ _ Hn). by split_and!.
Qed.

(** One step on the first row of a tick, executed. *)
Definition run_row (w : World) (i : nat) (in_flight : bool) : World :=
  match ticks w !! i with
  | Some {| t_now := now; t_rows := row :: rest |} =>
      let '(db', outcome) := tick_row (db w) in_flight now row in
      {| db := db'; ticks := <[i := {| t_now := now; t_rows := rest |}]> (ticks w);
         log := match outcome, next_after row now with advanced _, Ok next => e_fired row now next :: log w | _, _ => log w end |}
  | _ => w
  end.

Lemma run_row_reachable w i in_flight : reachable w -> reachable (run_row w i in_flight).
Proof.
  intros Hw. unfold run_row. destruct (ticks w !! i) as [[now [|row rest]]|] eqn:Et; [done| |done].
  destruct (tick_row (db w) in_flight now row) as [db' outcome] eqn:Er. eapply w_next; [done|]. by eapply w_row.
Qed.

Definition run_claim (w : World) (now : Z) : World :=
  {| db := db w; ticks := ticks w ++ [{| t_now := now; t_rows := claim_due_sensors (db w) now CLAIM_BATCH_LIMIT |}]; log := log w |}.

Lemma run_claim_reachable w now : reachable w -> reachable (run_claim w now).
Proof. intros Hw. eapply w_next; [done|]. apply w_claim. Qed.
End Ticks.

(** A library whose every expression means the next minute. *)
Definition each_minute : CronLibrary := {|
  tzinfo := unit; UTC := tt; croniter_is_valid := fun _ => true; ZoneInfo := fun _ => Ok tt;
  get_next := fun _ _ base => (base + 60 * second)%Z |}.

#[local] Instance each_minute_laws : CronLibraryLaws each_minute.
Proof. split. intros expr tz base _. cbn. unfold second. lia. Qed.

Definition new_sensor (id zone : string) (c : Cadence) : Sensor := {|
  sid := id; tenant_id := "t"; name := id; connector_id := "c"; op_id := "o"; target := None; params := [];
  assertion := JNull; status := active; status_reason := None; cadence := c; timezone := zone; next_fire_at := Some 0%Z;
  severity := sev_critical; for_seconds := 0; retry_times := 0; retry_backoff_seconds := 15; identity_sub := "__sensor__";
  last_state := unknown; last_value := JNull; last_evidence := None; last_evaluated_at := None; state_since := None;
  pending_state := None; pending_count := 0 |}.

Lemma sensors_keep_their_cadence_witness : exists w row at_ next row' at' next' older,
  @reachable each_minute w /\ log w = e_fired row' at' next' :: e_fired row at_ next :: older /\ at_ = (70 * second)%Z /\
  (at_ + 60 * second <= at')%Z.
Proof.
  pose (w1 := {| db := {| sensors := [set_next_fire (60 * second) (new_sensor "s1" "UTC" (interval 60))]; sensor_results := [] |};
                 ticks := []; log := [e_set "s1" (60 * second)] |}).
  assert (@reachable each_minute w1) as H1.
  { apply (w_next _ w1 w_start).
    apply (w_create {| db := {| sensors := []; sensor_results := [] |}; ticks := []; log := [] |}
      (new_sensor "s1" "UTC" (interval 60)) 0 (db w1) (60 * second)); [done|done|by intros ?%elem_of_nil]. }
  pose (w := @run_row each_minute (run_claim (@run_row each_minute (run_claim w1 (70 * second)) 0 false) (140 * second)) 1 false).
  assert (@reachable each_minute w) as Hw by (apply run_row_reachable, run_claim_reachable, run_row_reachable, run_claim_reachable, H1).
  pose (row := set_next_fire (60 * second) (new_sensor "s1" "UTC" (interval 60))).
  pose (row' := set_next_fire (130 * second) (new_sensor "s1" "UTC" (interval 60))).
  assert (log w = [] ++ e_fired row' (140 * second) (200 * second) :: [] ++ e_fired row (70 * second) (130 * second) :: [e_set "s1" (60 * second)]) as Hlog
    by (by vm_compute).
  destruct (sensors_keep_their_cadence w [] row' (140 * second) (200 * second) [] row (70 * second) (130 * second) _ Hw Hlog)
    as (due & due' & _ & Hdue' & _ & Hle & Hn); [done|by constructor|by intros n [= <-]|].
  exists w, row, (70 * second)%Z, (130 * second)%Z, row', (140 * second)%Z, (200 * second)%Z, [e_set "s1" (60 * second)].
  split; [exact Hw|]. split; [exact Hlog|]. split; [done|]. cbn in Hn. by rewrite <- Hn.
Defined.

(** A row whose zone name is no zone key raises in the open transaction of the claim:
    the sensors due after it are not checked, on this tick and on every later one. *)
Definition strict_zones : CronLibrary := {|
  tzinfo := unit; UTC := tt; croniter_is_valid := fun _ => true;
  ZoneInfo := fun zone => if starts_with "/" zone then Raise ZoneValueError else Ok tt;
  get_next := fun _ _ base => (base + 60 * second)%Z |}.

Lemma one_row_stalls_the_tick :
  let bad := new_sensor "bad" "/etc/localtime" (cron "* * * * *") in
  let good := new_sensor "good" "UTC" (interval 60) in
  let sensor_db := {| sensors := [bad; good]; sensor_results := [] |} in
  @claim_and_spawn_due strict_zones false true sensor_db (fun _ => false) second = (sensor_db, None).
Proof. by vm_compute. Qed.

(** * The history *)

(** The pages from a cursor on. *)
Fixpoint follow_pages (fuel : nat) (results : list SensorResult) (id : string) (from_ts to_ts : option Z) (st : option CheckState)
  (limit : nat) (after : option Z) : list SensorResult :=
  match fuel with
  | 0 => []
  | S fuel =>
      let '(rows, next) := list_sensor_results results id from_ts to_ts st limit after in
      rows ++ match next with Some t => follow_pages fuel results id from_ts to_ts st limit (Some t) | None => [] end
  end.

Definition times_differ (l : list SensorResult) : Prop := NoDup (r_evaluated_at <$> l).

#[export] Instance result_le_trans : Transitive result_le.
Proof. intros a b c. unfold result_le. lia. Qed.
#[export] Instance result_le_total : Total result_le.
Proof. intros a b. unfold result_le. lia. Qed.

(** One order of rows with different times is sorted. *)
Lemma sorted_rows_unique l1 l2 : times_differ l1 -> StronglySorted result_le l1 -> StronglySorted result_le l2 -> l1 ≡ₚ l2 -> l1 = l2.
Proof.
  intros Hd H1 H2 Hp. apply (StronglySorted_unique_strong result_le); try done. intros a b Ha Hb Hab Hba.
  apply (key_inj r_evaluated_at l1); [done|done|by rewrite Hp|]. unfold result_le in *. lia.
Qed.

Lemma sorted_select p l : StronglySorted result_le l -> StronglySorted result_le (select_where p l).
Proof.
  induction 1 as [|a l Hl IH Ha]; [constructor|]. cbn. destruct (p a); [|done]. constructor; [done|]. rewrite Forall_forall in *.
  intros b [Hb _]%elem_of_select. by apply Ha.
Qed.

Lemma times_differ_select p l : times_differ l -> times_differ (select_where p l).
Proof. apply NoDup_select_where. Qed.

Lemma select_select p q (l : list SensorResult) : select_where (fun r => p r && q r) l = select_where q (select_where p l).
Proof. unfold select_where. induction l as [|a l IH]; [done|]. cbn. destruct (p a); cbn; [destruct (q a)|]; by rewrite IH. Qed.

(** After the row at a place of a sorted table come the rows behind it. *)
Lemma select_after l a l' : StronglySorted result_le (l ++ a :: l') -> times_differ (l ++ a :: l') ->
  select_where (after_cursor (Some (r_evaluated_at a))) (l ++ a :: l') = l'.
Proof.
  intros Hs Hd. set (p := after_cursor (Some (r_evaluated_at a))).
  assert (p a = false) as Hpa by apply Z.ltb_irrefl.
  unfold times_differ in Hd. rewrite fmap_app, fmap_cons, NoDup_app, NoDup_cons in Hd. destruct Hd as (_ & _ & Hal' & _).
  assert (forall x, x ∈ l -> p x = false) as Hl.
  { intros x Hx. apply Z.ltb_ge. apply (StronglySorted_app_1_elem_of result_le l (a :: l')); [done|done|by left]. }
  assert (forall x, x ∈ l' -> p x = true) as Hl'.
  { intros x Hx. apply Z.ltb_lt. apply StronglySorted_app_1_r in Hs. inversion Hs as [|? ? _ Hf]; subst. rewrite Forall_forall in Hf.
    specialize (Hf x Hx). unfold result_le in Hf. assert (r_evaluated_at a <> r_evaluated_at x); [|lia]. intros Heq. apply Hal'. rewrite Heq.
    by apply list_elem_of_fmap_2. }
  clear Hs Hal'. clearbody p. unfold select_where. rewrite List.filter_app. cbn [List.filter]. rewrite Hpa.
  replace (List.filter p l) with (@nil SensorResult).
  - clear Hl. induction l' as [|y l' IH]; [done|]. cbn [List.filter app]. rewrite (Hl' y) by left. f_equal. apply IH. intros z Hz. apply Hl'. by right.
  - clear Hl'. induction l as [|x l IH]; [done|]. cbn [List.filter]. rewrite (Hl x) by left. apply IH. intros z Hz. apply Hl. by right.
Qed.

(** The pages of the trend query cover the history: following the cursors from the
    start gives every row of the sensor that passes the filters, once, in the order of
    time, in at most one page per row and one. *)
Theorem trend_pages_cover_the_history results id from_ts to_ts st limit fuel :
  times_differ (select_where (fun r => bool_decide (r_sensor_id r = id)) results) -> 1 <= limit ->
  length (select_where (matches id from_ts to_ts st) results) < fuel ->
  follow_pages fuel results id from_ts to_ts st limit None = merge_sort result_le (select_where (matches id from_ts to_ts st) results).
Proof.
  intros Hd Hlim Hfuel. set (all := merge_sort result_le (select_where (matches id from_ts to_ts st) results)).
  assert (times_differ (select_where (matches id from_ts to_ts st) results)) as Hdm.
  { replace (select_where (matches id from_ts to_ts st) results) with
      (select_where (fun r => matches id from_ts to_ts st r) (select_where (fun r => bool_decide (r_sensor_id r = id)) results));
      [by apply times_differ_select|]. rewrite <- select_select. unfold select_where. clear. induction results as [|r l IH]; [done|]. cbn [List.filter].
    rewrite IH. unfold matches. by destruct (bool_decide (r_sensor_id r = id)). }
  assert (times_differ all) as Hda by (unfold times_differ, all in *; by rewrite merge_sort_Permutation).
  assert (StronglySorted result_le all) as Hsa by (apply (StronglySorted_merge_sort result_le)).
  assert (forall after, merge_sort result_le (select_where (fun r => matches id from_ts to_ts st r && after_cursor after r) results) =
    select_where (after_cursor after) all) as Hpage.
  { intros after. rewrite select_select. symmetry. apply sorted_rows_unique; [by apply times_differ_select|by apply sorted_select| |].
    - apply (StronglySorted_merge_sort result_le).
    - rewrite merge_sort_Permutation. apply select_where_Permutation. apply merge_sort_Permutation. }
  assert (forall fuel done_ rest after, all = done_ ++ rest -> select_where (after_cursor after) all = rest -> length rest < fuel ->
    follow_pages fuel results id from_ts to_ts st limit after = rest) as Hgen.
  { clear fuel Hfuel. induction fuel as [|fuel IH]; intros done_ rest after Hall Hafter Hlen; [lia|]. cbn [follow_pages]. unfold list_sensor_results.
    rewrite Hpage, Hafter. destruct (Nat.ltb limit (length (take (S limit) rest))) eqn:El.
    - apply Nat.ltb_lt in El. rewrite length_take in El. replace (take limit (take (S limit) rest)) with (take limit rest) by (by rewrite take_take, Nat.min_l by lia).
      destruct (last (take limit rest)) as [a|] eqn:Ea; [|apply last_None in Ea; apply (f_equal length) in Ea; rewrite length_take in Ea; cbn in Ea; lia].
      cbn [fmap option_fmap option_map]. transitivity (take limit rest ++ drop limit rest); [|apply take_drop]. f_equal. apply last_Some in Ea as [page Hpg].
      assert (all = (done_ ++ page) ++ a :: drop limit rest) as Hsplit.
      { rewrite Hall, <- (take_drop limit rest) at 1. rewrite Hpg. by rewrite <- !app_assoc. }
      apply (IH (done_ ++ take limit rest)); [by rewrite <- app_assoc, take_drop| |rewrite length_drop; lia].
      rewrite Hsplit. apply select_after; by rewrite <- Hsplit.
    - apply Nat.ltb_ge in El. rewrite length_take in El. rewrite take_ge by lia. by rewrite app_nil_r. }
  apply (Hgen fuel [] all None); [done| |].
  - unfold select_where. clear. induction all as [|a l IH]; [done|]. cbn [List.filter after_cursor]. by rewrite IH.
  - unfold all. by rewrite merge_sort_Permutation.
Qed.

Lemma trend_pages_cover_the_history_witness :
  let ev := from_evaluator (base_evidence {| select := {| select_path := "$"; aggregate := None |}; compare := BoolCompare true |}) in
  let row id t st := {| r_sensor_id := id; r_evaluated_at := t; r_state := st; r_value := JNull; r_evidence := ev |} in
  let results := [row "a" 5%Z ok; row "b" 2%Z ok; row "a" 3%Z ok; row "a" 1%Z critical; row "a" 4%Z ok] in
  follow_pages 5 results "a" (Some 2%Z) None (Some ok) 2 None = [row "a" 3%Z ok; row "a" 4%Z ok; row "a" 5%Z ok].
Proof.
  intros ev row results. rewrite (trend_pages_cover_the_history results "a" (Some 2%Z) None (Some ok) 2 5).
  - by vm_compute.
  - apply (bool_decide_unpack _). by vm_compute.
  - by apply Nat.leb_le.
  - by apply Nat.ltb_lt.
Defined.
