(* ===== verification/SensorRunner.v ===== *)
(** One evaluation of a sensor ([checks/runner.py]): the floor at dispatch, the target,
    the dispatch and the verdict; and the watchdog of the runner's loop
    ([checks/watchdog.py]). *)

From S2P Require Import Prelude Json Catalog SecretNames SecretValues Programs Assertions Sensors.

(** * What an evaluation calls *)

(** The dispatcher's answer as far as the runner reads it. *)
Record DispatchAnswer := {
  da_status : string;
  da_error : json;
  da_result : json;
  da_handle : option (option string);
}.

Inductive CheckOp :=
| c_lookup_descriptor (tenant product version impl_id op : string)
| c_check_runner_jwt
| c_resolve_target (op : string) (stored : option json_dict)
| c_dispatch (sub tenant jwt connector op : string) (resolved : json) (call_params : json_dict).

(** A descriptor's safety level, where there is a descriptor; a token; a target or an
    error envelope; the answer and the full payload, where it was captured. *)
Definition CheckAns (o : CheckOp) : Type :=
  match o with
  | c_lookup_descriptor _ _ _ _ _ => option string
  | c_check_runner_jwt => string
  | c_resolve_target _ _ => json + json
  | c_dispatch _ _ _ _ _ _ _ => DispatchAnswer * option json
  end.

(** The deadline of [asyncio.timeout], the cancellation of the task, anything else. *)
Inductive CheckFault := TimeoutError | Cancelled | OtherError (text : string).

Abbreviation check := (action CheckAns CheckFault).

Section Run.
Context (float_sum : list json -> option json) (fromisoformat : string -> option (option Z)) (float_timestamp : float -> option Z).
(** [AssertionSpec.model_validate] on the stored document, and the registry of safe
    writes. *)
Context (model_validate : json -> option AssertionSpec) (is_safe_write : string -> bool).

Definition unknown_because (why : RunnerReason) : Outcome := {| o_state := unknown; o_value := JNull; o_evidence := from_runner why |}.

Definition field (k : string) (v : json) : json := match v with JDict d => default JNull (dict_get k d) | _ => JNull end.

Definition target_resolution_outcome (envelope : json) : Outcome :=
  let error_code := field "error_code" (field "extras" envelope) in
  unknown_because (target_error (if truthy error_code then py_str error_code else "target_error") (field "error" envelope)).

(** [None] is to proceed. *)
Definition safe_tier_floor (snap : Sensor) : check (option Outcome) :=
  let '(product, version, impl_id) := parse_connector_id (connector_id snap) in
  descriptor ← invoke (c_lookup_descriptor (tenant_id snap) product version impl_id (op_id snap));
  mret match descriptor with
       | None => Some (unknown_because op_descriptor_missing)
       | Some level =>
           if negb (bool_decide (level = "safe")) then Some (unknown_because (op_not_safe_at_dispatch level))
           else if is_safe_write (op_id snap) then Some (unknown_because (op_is_write_at_dispatch level))
           else None
       end.

(** The part under the deadline: an outcome, or the answer to judge. *)
Definition dispatch_phase (snap : Sensor) : check (Outcome + DispatchAnswer * option json) :=
  floor_outcome ← safe_tier_floor snap;
  match floor_outcome with
  | Some o => mret (inl o)
  | None =>
      raw_jwt ← invoke c_check_runner_jwt;
      resolved ← invoke (c_resolve_target (op_id snap) (target snap));
      match resolved with
      | inr envelope => mret (inl (target_resolution_outcome envelope))
      | inl tgt =>
          answer ← invoke (c_dispatch (identity_sub snap) (tenant_id snap) raw_jwt (connector_id snap) (op_id snap) tgt (params snap));
          mret (inr answer)
      end
  end.

Definition ADMISSION_LIMIT_EXCEEDED : string := "admission_limit_exceeded".

Definition of_evaluator (o : AssertionOutcome) : Outcome := {|
  o_state := state o; o_value := value o; o_evidence := from_evaluator (evidence o) |}.

(** A handle's [drill_in] reason decides; the full payload is judged first. *)
Definition evaluate_result (spec : AssertionSpec) (answer : DispatchAnswer) (capture : option json) (now : Z) : res EvaluatorFault Outcome :=
  let evaluate payload := evaluate_assertion float_sum fromisoformat float_timestamp spec payload (Some now) in
  match da_handle answer, capture with
  | None, _ | _, None => of_evaluator <$> evaluate (da_result answer)
  | Some drill_in, Some payload =>
      if bool_decide (drill_in = Some ADMISSION_LIMIT_EXCEEDED) then Ok (unknown_because result_too_large)
      else
        outcome ← evaluate payload;
        if negb (bool_decide (state outcome = unknown)) then Ok (of_evaluator outcome)
        else
          summary_outcome ← evaluate (da_result answer);
          if bool_decide (state summary_outcome = unknown) then Ok (of_evaluator outcome)
          else Ok {| o_state := state summary_outcome; o_value := value summary_outcome;
                     o_evidence := checked_summary (evidence summary_outcome) |}
  end.

(** What becomes of the answer. *)
Definition judge_answer (snap : Sensor) (answer : DispatchAnswer) (capture : option json) (now : Z) : Outcome :=
  if negb (bool_decide (da_status answer = "ok")) then unknown_because (dispatch_not_ok (da_status answer) (da_error answer))
  else match model_validate (assertion snap) with
       | None => unknown_because assertion_evaluation_error
       | Some spec => match evaluate_result spec answer capture now with Ok o => o | Raise _ => unknown_because assertion_evaluation_error end
       end.

(** Cancellation is no [Exception] and goes on. *)
Definition run_evaluation (snap : Sensor) (now : Z) : check Outcome :=
  reached ← try_except (dispatch_phase snap) (fun e =>
    match e with
    | TimeoutError => Some (mret (inl (unknown_because evaluation_timeout)))
    | OtherError text => Some (mret (inl (unknown_because (dispatch_error text))))
    | Cancelled => None
    end);
  match reached with
  | inl o => mret o
  | inr (answer, capture) => mret (judge_answer snap answer capture now)
  end.

(** * What an evaluation does *)

Definition is_dispatch (e : event CheckAns CheckFault) : bool := match projT1 e with c_dispatch _ _ _ _ _ _ _ => true | _ => false end.

(** The floor let this sensor through: its operation is safe, and no write. *)
Definition floor_passed (snap : Sensor) (e : event CheckAns CheckFault) : Prop :=
  let '(product, version, impl_id) := parse_connector_id (connector_id snap) in
  e = ev (c_lookup_descriptor (tenant_id snap) product version impl_id (op_id snap)) (Ok (Some "safe")) /\ is_safe_write (op_id snap) = false.

Lemma floor_runs snap h r : runs (safe_tier_floor snap) h r ->
  Forall (fun e => is_dispatch e = false) h /\
  match r with
  | Ok None => exists e, h = [e] /\ floor_passed snap e
  | Ok (Some o) => o_state o = unknown
  | Raise _ => True
  end.
Proof.
  unfold safe_tier_floor, floor_passed. destruct (parse_connector_id (connector_id snap)) as [[product version] impl_id].
  intros (x & h' & -> & Hr). destruct x as [d|e]; [|destruct Hr as [-> ->]; by split; [repeat constructor|]]. destruct Hr as [-> ->].
  split; [by repeat constructor|]. destruct d as [level|]; [|done]. case_bool_decide as Hl; [subst|done]. cbn [negb].
  destruct (is_safe_write (op_id snap)) eqn:Hw; [done|]. by eexists.
Qed.

(** The one dispatch of a run, with the values of the sensor. *)
Definition dispatched_as (snap : Sensor) (e : event CheckAns CheckFault) (x : res CheckFault (DispatchAnswer * option json)) : Prop :=
  exists jwt tgt, e = ev (c_dispatch (identity_sub snap) (tenant_id snap) jwt (connector_id snap) (op_id snap) tgt (params snap)) x.

Lemma dispatch_phase_runs snap h r : runs (dispatch_phase snap) h r ->
  (Forall (fun e => is_dispatch e = false) h /\
   match r with Ok (inl o) => o_state o = unknown | Ok (inr _) => False | Raise _ => True end) \/
  exists e1 e2 e3 e4 x, h = [e1; e2; e3; e4] /\ floor_passed snap e1 /\ is_dispatch e2 = false /\ is_dispatch e3 = false /\
    dispatched_as snap e4 x /\ r = match x with Ok a => Ok (inr a) | Raise e => Raise e end.
Proof.
  unfold dispatch_phase. intros (h1 & h2 & a & -> & H1 & H2)%runs_after. apply floor_runs in H1 as [Hd Hf].
  destruct a as [[o|]|e]; [destruct H2 as [-> ->]; left; rewrite app_nil_r; by split| |destruct H2 as [-> ->]; left; rewrite app_nil_r; by split].
  destruct Hf as (e1 & -> & Hp). rewrite Forall_singleton in Hd.
  destruct H2 as ([jwt|e] & h3 & -> & H2); cbn [after] in H2; [|destruct H2 as [-> ->]; left; by split; [repeat constructor|]].
  destruct H2 as ([[tgt|envelope]|e] & h4 & -> & H2); cbn [after] in H2;
    [|destruct H2 as [-> ->]; left; by split; [repeat constructor|]..].
  destruct H2 as (x & h5 & -> & H2). right. exists e1. eexists _, _, _, x. destruct x as [a|e]; destruct H2 as [-> ->]; split_and!; try done;
    by eexists _, _.
Qed.

Lemma floor_no_dispatch snap e : floor_passed snap e -> is_dispatch e = false.
Proof. unfold floor_passed. destruct (parse_connector_id _) as [[? ?] ?]. by intros [-> _]. Qed.

(** C11. A sensor only reads: its one dispatch is the last call of an evaluation, made
    only after the operation was found safe and no write, with the sensor's own
    identity, tenant, connector, operation and params; whatever fails or runs late,
    the evaluation ends with an outcome (cancellation apart), and any state but
    unknown is the judgement of an answer ok. *)
Theorem sensors_only_read snap now h r :
  runs (run_evaluation snap now) h r ->
  (forall h' e, h = h' ++ [e] -> Forall (fun e => is_dispatch e = false) h' /\
     (is_dispatch e = true -> exists first x, head h' = Some first /\ floor_passed snap first /\ dispatched_as snap e x)) /\
  match r with
  | Raise e => e = Cancelled
  | Ok o => o_state o <> unknown -> exists e answer capture, last h = Some e /\ dispatched_as snap e (Ok (answer, capture)) /\
      da_status answer = "ok" /\ o = judge_answer snap answer capture now
  end.
Proof.
  unfold run_evaluation. intros (h1 & h2 & a & -> & H1 & H2)%runs_after. unfold try_except in H1. apply runs_after in H1 as (h3 & h4 & b & -> & H3 & H4).
  assert (h4 = [] /\ h2 = []) as [-> ->].
  { split; [by destruct b as [|[]]; destruct H4 as [-> _]|]. destruct a as [[?|[??]]|?]; by destruct H2 as [-> _]. }
  rewrite !app_nil_r. apply dispatch_phase_runs in H3 as [[Hno Hb]|(e1 & e2 & e3 & e4 & x & -> & Hf & Hn2 & Hn3 & Hd & ->)].
  - split; [intros h' e ->; apply Forall_app in Hno as [Hno He]; split; [done|]; inversion He; subst; congruence|].
    destruct b as [[o|?]|[| |text]]; [|done|..]; destruct H4 as [_ ->]; destruct H2 as [_ ->]; done.
  - split.
    + intros h' e Heq. change [e1; e2; e3; e4] with ([e1; e2; e3] ++ [e4]) in Heq. apply app_inj_2 in Heq as [<- [= <-]]; [|done].
      split; [repeat constructor; try done; by eapply floor_no_dispatch|]. intros _. by exists e1, x.
    + destruct x as [[answer capture]|[| |text]]; destruct H4 as [_ ->]; destruct H2 as [_ ->]; try done.
      intros Hs. exists e4, answer, capture. split_and!; try done. unfold judge_answer in Hs. case_bool_decide; [done|by cbn in Hs].
Qed.
End Run.

(** A world with one safe operation and no targets. *)
Lemma sensors_only_read_witness :
  let snap := {| sid := "s1"; tenant_id := "t"; name := "up"; connector_id := "vault-2.x"; op_id := "sys.health"; target := None; params := [];
                 assertion := JNull; status := active; status_reason := None; cadence := interval 60; timezone := "UTC"; next_fire_at := None;
                 severity := sev_critical; for_seconds := 0; retry_times := 0; retry_backoff_seconds := 15; identity_sub := "__sensor__";
                 last_state := unknown; last_value := JNull; last_evidence := None; last_evaluated_at := None; state_since := None;
                 pending_state := None; pending_count := 0 |} in
  let spec := {| select := {| select_path := "$.sealed"; aggregate := None |}; compare := BoolCompare false |} in
  let answer := {| da_status := "ok"; da_error := JNull; da_result := JDict [("sealed", JBool true)]; da_handle := None |} in
  let h := [ev (c_lookup_descriptor "t" "vault" "2.x" "vault" "sys.health") (Ok (Some "safe")); ev c_check_runner_jwt (Ok "");
            ev (c_resolve_target "sys.health" None) (Ok (inl JNull));
            ev (c_dispatch "__sensor__" "t" "" "vault-2.x" "sys.health" JNull []) (Ok (answer, None))] in
  exists o, runs (run_evaluation (fun _ => None) (fun _ => None) (fun _ => None) (fun _ => Some spec) (fun _ => false) snap 0) h (Ok o) /\
    o_state o = critical /\ exists first, head h = Some first /\ floor_passed (fun _ => false) snap first.
Proof.
  intros snap spec answer h.
  assert (exists o, runs (run_evaluation (fun _ => None) (fun _ => None) (fun _ => None) (fun _ => Some spec) (fun _ => false) snap 0) h (Ok o) /\
    o_state o = critical) as (o & Hr & Ho).
  { eexists. split; [|shelve]. do 4 (eexists _, _; split; [reflexivity|]). split; [done|]. reflexivity. Unshelve. by vm_compute. }
  exists o. split; [exact Hr|]. split; [exact Ho|].
  destruct (sensors_only_read _ _ _ _ _ _ _ _ _ Hr) as [Hlast _].
  destruct (Hlast (take 3 h) _ eq_refl) as [_ Hd]. destruct (Hd eq_refl) as (first & x & Hf & Hp & _). by exists first.
Defined.

(** * The watchdog *)

(** The per-process stamps; [stalled_since] is set while a stall is flagged. *)
Record Watchdog := {
  last_tick_completed_at : option Z;
  last_claim_at : option Z;
  baseline : option Z;
  stalled_since : option Z;
}.

Inductive WatchdogLog := checks_scheduler_stalled (quiet : Z * Z) | checks_scheduler_recovered (stalled_for : Z * Z).

Definition staleness_reference (w : Watchdog) : option Z :=
  match last_tick_completed_at w with Some t => Some t | None => baseline w end.

Definition stall_threshold_seconds (stall_after_ticks tick_interval : Z) : float := Finite (stall_after_ticks * tick_interval) 0.

Definition seconds_between (a b : Z) : float := Finite (total_seconds (b - a)).1 (total_seconds (b - a)).2.

(** Seconds since the last tick and the last claim, and whether that is a stall. *)
Definition sensor_runner_liveness (w : Watchdog) (threshold : float) (now : Z) : option float * option float * bool :=
  let since t := seconds_between t now in
  let claim := match last_claim_at w with Some t => Some t | None => baseline w end in
  match staleness_reference w with
  | None => (None, since <$> claim, false)
  | Some t => (Some (since t), since <$> claim, flt threshold (since t))
  end.

Definition note_tick_completed (w : Watchdog) (now : Z) (lock_acquired : bool) : Watchdog * option WatchdogLog :=
  ({| last_tick_completed_at := Some now; last_claim_at := if lock_acquired then Some now else last_claim_at w;
      baseline := baseline w; stalled_since := None |},
   (fun t => checks_scheduler_recovered (total_seconds (now - t))) <$> stalled_since w).

Definition evaluate_stall_watchdog (w : Watchdog) (threshold : float) (now : Z) : Watchdog * option WatchdogLog * bool :=
  match staleness_reference w with
  | None => (w, None, false)
  | Some t =>
      if fle (seconds_between t now) threshold then (w, None, false)
      else match stalled_since w with
           | Some _ => (w, None, true)
           | None =>
               ({| last_tick_completed_at := last_tick_completed_at w; last_claim_at := last_claim_at w; baseline := baseline w;
                   stalled_since := Some t |}, Some (checks_scheduler_stalled (total_seconds (now - t))), true)
           end
  end.

Definition start_checks_watchdog (w : Watchdog) (now : Z) : Watchdog := {|
  last_tick_completed_at := last_tick_completed_at w; last_claim_at := last_claim_at w; baseline := Some now; stalled_since := stalled_since w |}.

Inductive WatchdogAction := tick_completed (now : Z) (lock_acquired : bool) | stall_check (now : Z).

Definition watchdog_step (threshold : float) (w : Watchdog) (a : WatchdogAction) : Watchdog * option WatchdogLog :=
  match a with
  | tick_completed now locked => note_tick_completed w now locked
  | stall_check now => (evaluate_stall_watchdog w threshold now).1
  end.

Fixpoint watchdog_logs (threshold : float) (w : Watchdog) (actions : list WatchdogAction) : list WatchdogLog :=
  match actions with
  | [] => []
  | a :: rest =>
      let '(w, line) := watchdog_step threshold w a in
      match line with Some l => l :: watchdog_logs threshold w rest | None => watchdog_logs threshold w rest end
  end.

(** Stalls and recoveries take turns. *)
Fixpoint take_turns (stalled : bool) (logs : list WatchdogLog) : Prop :=
  match logs with
  | [] => True
  | checks_scheduler_stalled _ :: rest => stalled = false /\ take_turns true rest
  | checks_scheduler_recovered _ :: rest => stalled = true /\ take_turns false rest
  end.

(** One stall gives one alarm and one recovery, however often it is checked. *)
Lemma one_alarm_per_stall threshold w actions :
  take_turns (bool_decide (is_Some (stalled_since w))) (watchdog_logs threshold w actions).
Proof.
  revert w. induction actions as [|[now locked|now] rest IH]; intros w; [done|..]; cbn [watchdog_logs watchdog_step].
  - unfold note_tick_completed. specialize (IH {| last_tick_completed_at := Some now; last_claim_at := if locked then Some now else last_claim_at w;
      baseline := baseline w; stalled_since := None |}). destruct (stalled_since w); cbn in *; [by split|done].
  - unfold evaluate_stall_watchdog. destruct (staleness_reference w) as [t|]; [|by apply IH].
    destruct (fle (seconds_between t now) threshold); [by apply IH|]. destruct (stalled_since w) as [t'|] eqn:E; cbn [fst].
    + specialize (IH w). by rewrite E in IH.
    + specialize (IH {| last_tick_completed_at := last_tick_completed_at w; last_claim_at := last_claim_at w; baseline := baseline w; stalled_since := Some t |}).
      by split.
Qed.
