(* ===== verification/Dashboards.v ===== *)
(** Dashboards: the rollup of their sensors ([checks/rollup.py]) and the claims of its
    changes ([checks/investigate.py]). *)

From S2P Require Import Prelude Json Assertions Sensors.

(** * The rollup *)

Definition STALE_GRACE_SECONDS : Z := 60.

(** What the fold reads of a sensor. *)
Record MemberState := {
  ms_last_state : CheckState;
  ms_status : SensorStatus;
  ms_severity : SensorSeverity;
  ms_for_seconds : Z;
  ms_last_evaluated_at : option Z;
  ms_next_fire_at : option Z;
  ms_state_since : option Z;
}.

Record MemberEvaluation := { raw_state : CheckState; effective_state : CheckState; pending : bool }.

(** [_FOLD_ORDER], which has no [skip] and no [unknown]. *)
Definition FOLD_ORDER (s : CheckState) : nat := match s with ok => 0 | degraded => 1 | critical => 2 | unknown | skip => 0 end.

Definition state_of_severity (s : SensorSeverity) : CheckState := match s with sev_degraded => degraded | sev_critical => critical end.

Definition cap (st : CheckState) (sev : SensorSeverity) : CheckState :=
  if Nat.leb (FOLD_ORDER st) (FOLD_ORDER (state_of_severity sev)) then st else state_of_severity sev.

Definition derive_raw (m : MemberState) (now : Z) : CheckState :=
  if bool_decide (ms_status m = paused) then skip
  else match ms_last_evaluated_at m with
       | None => unknown
       | Some _ =>
           if match ms_next_fire_at m with Some t => (t + STALE_GRACE_SECONDS * second <? now)%Z | None => false end
           then unknown else ms_last_state m
       end.

(** A failing state has not been held for [for_seconds]. *)
Definition held_back (m : MemberState) (now : Z) : bool :=
  match ms_state_since m with Some t => (now - t <? ms_for_seconds m * second)%Z | None => false end.

Definition evaluate_member (m : MemberState) (now : Z) : MemberEvaluation :=
  let raw := derive_raw m now in
  match raw with
  | skip => {| raw_state := skip; effective_state := skip; pending := false |}
  | ok => {| raw_state := ok; effective_state := ok; pending := false |}
  | _ =>
      let contribution := match raw with unknown => degraded | _ => raw end in
      if held_back m now then {| raw_state := raw; effective_state := ok; pending := true |}
      else {| raw_state := raw; effective_state := cap contribution (ms_severity m); pending := false |}
  end.

(** [max(contributions, key=...)]: the first of the worst. *)
Definition worst (e : MemberEvaluation) (rest : list MemberEvaluation) : MemberEvaluation :=
  foldl (fun best x => if Nat.ltb (FOLD_ORDER (effective_state best)) (FOLD_ORDER (effective_state x)) then x else best) e rest.

Definition fold (evaluations : list MemberEvaluation) : CheckState :=
  match evaluations with
  | [] => unknown
  | _ =>
      match List.filter (fun e => negb (bool_decide (effective_state e = skip))) evaluations with
      | [] => skip
      | e :: rest => effective_state (worst e rest)
      end
  end.

Definition rollup (members : list MemberState) (now : Z) : CheckState := fold ((fun m => evaluate_member m now) <$> members).

Definition member_state (s : Sensor) : MemberState := {|
  ms_last_state := last_state s; ms_status := status s; ms_severity := severity s; ms_for_seconds := for_seconds s;
  ms_last_evaluated_at := last_evaluated_at s; ms_next_fire_at := next_fire_at s; ms_state_since := state_since s |}.

(** * Claims *)

Record CheckDashboard := {
  d_id : string;
  d_tenant_id : string;
  d_name : string;
  last_rollup_state : option CheckState;
  investigator_prompt : option string;
  notify_email : option string;
  notify_min_state : SensorSeverity;
}.

Record DashboardSensor := { l_dashboard_id : string; l_sensor_id : string; last_member_state : option CheckState }.

Record DashboardDb := { dashboards : list CheckDashboard; links : list DashboardSensor }.

Record MemberSnapshot := {
  m_sensor_id : string;
  m_name : string;
  m_effective_state : CheckState;
  m_last_value : json;
  m_last_evidence : option SensorEvidence;
}.

Record MemberChange := { c_sensor_id : string; c_name : string; c_previous_state : CheckState; c_current_state : CheckState }.

Record DashboardNotice := {
  n_tenant_id : string;
  n_dashboard_id : string;
  n_name : string;
  n_previous_state : CheckState;
  n_current_state : CheckState;
  n_notify_email : option string;
  n_notify_min_state : SensorSeverity;
  n_members : list MemberSnapshot;
  n_member_change : option MemberChange;
  n_member_changes : list MemberChange;
}.

(** A won edge, whether it got worse, and the members that are not green. *)
Record ClaimedTransition := { t_worsening : bool; t_non_green : list MemberSnapshot; t_notice : DashboardNotice }.
Record DashboardClaims := { transition : option ClaimedTransition; member_notices : list DashboardNotice }.

Definition FIRE_RANK (s : CheckState) : nat := match s with degraded => 1 | critical => 2 | _ => 0 end.

Definition is_worsening (previous current : CheckState) : bool :=
  Nat.ltb (FIRE_RANK previous) (FIRE_RANK current) && bool_decide (current = degraded \/ current = critical).

(** What a caller read: the dashboard, and its members with their links. *)
Record ClaimView := { v_dashboard : CheckDashboard; v_members : list (DashboardSensor * Sensor) }.

Definition member_snapshot (s : Sensor) (e : MemberEvaluation) : MemberSnapshot := {|
  m_sensor_id := sid s; m_name := name s; m_effective_state := effective_state e; m_last_value := last_value s;
  m_last_evidence := last_evidence s |}.

Definition dashboard_notice (d : CheckDashboard) (previous current : CheckState) (non_green : list MemberSnapshot)
  (change : option MemberChange) (changes : list MemberChange) : DashboardNotice := {|
  n_tenant_id := d_tenant_id d; n_dashboard_id := d_id d; n_name := d_name d; n_previous_state := previous; n_current_state := current;
  n_notify_email := notify_email d; n_notify_min_state := notify_min_state d; n_members := non_green; n_member_change := change;
  n_member_changes := changes |}.

(** The two compare-and-swaps. *)
Definition memo_is (id : string) (expected : option CheckState) (d : CheckDashboard) : bool :=
  bool_decide (d_id d = id /\ last_rollup_state d = expected).

Definition set_memo (new : CheckState) (d : CheckDashboard) : CheckDashboard := {|
  d_id := d_id d; d_tenant_id := d_tenant_id d; d_name := d_name d; last_rollup_state := Some new;
  investigator_prompt := investigator_prompt d; notify_email := notify_email d; notify_min_state := notify_min_state d |}.

Definition claim_rollup_transition (db : DashboardDb) (id : string) (expected : option CheckState) (new : CheckState) : DashboardDb * bool :=
  ({| dashboards := update_where (memo_is id expected) (set_memo new) (dashboards db); links := links db |},
   bool_decide (length (List.filter (memo_is id expected) (dashboards db)) = 1)).

Definition member_memo_is (l : DashboardSensor) (expected : option CheckState) (x : DashboardSensor) : bool :=
  bool_decide (l_dashboard_id x = l_dashboard_id l /\ l_sensor_id x = l_sensor_id l /\ last_member_state x = expected).

Definition set_member_memo (new : CheckState) (x : DashboardSensor) : DashboardSensor := {|
  l_dashboard_id := l_dashboard_id x; l_sensor_id := l_sensor_id x; last_member_state := Some new |}.

Definition claim_member_state (db : DashboardDb) (l : DashboardSensor) (expected : option CheckState) (new : CheckState) : DashboardDb * bool :=
  ({| dashboards := dashboards db; links := update_where (member_memo_is l expected) (set_member_memo new) (links db) |},
   bool_decide (length (List.filter (member_memo_is l expected) (links db)) = 1)).

Fixpoint claim_member_changes (db : DashboardDb) (evaluations : list (DashboardSensor * Sensor * MemberEvaluation)) : DashboardDb * list MemberChange :=
  match evaluations with
  | [] => (db, [])
  | (link, sensor, e) :: rest =>
      let previous := last_member_state link in
      let current := effective_state e in
      if bool_decide (Some current = previous) then claim_member_changes db rest
      else
        let '(db, won) := claim_member_state db link previous current in
        let '(db, changes) := claim_member_changes db rest in
        match previous with
        | Some p =>
            if won && is_worsening p current
            then (db, {| c_sensor_id := sid sensor; c_name := name sensor; c_previous_state := p; c_current_state := current |} :: changes)
            else (db, changes)
        | None => (db, changes)
        end
  end.

(** The writes of [_claim_dashboard_transition] on what was read, which may be older
    than the tables where no lock is taken. *)
Definition claim_dashboard_transition (db : DashboardDb) (view : ClaimView) (now : Z) : DashboardDb * DashboardClaims :=
  let dashboard := v_dashboard view in
  let evaluations := (fun ls => (ls, evaluate_member (member_state ls.2) now)) <$> v_members view in
  let current := fold (evaluations.*2) in
  let previous_memo := last_rollup_state dashboard in
  let previous := default ok previous_memo in
  let non_green := (fun x => member_snapshot x.1.2 x.2) <$>
    List.filter (fun x => negb (bool_decide (effective_state x.2 = ok \/ effective_state x.2 = skip))) evaluations in
  let dashboard_edge := negb (bool_decide (Some current = previous_memo)) in
  let '(db, claimed) := if dashboard_edge then claim_rollup_transition db (d_id dashboard) previous_memo current else (db, false) in
  let '(db, changes) := if claimed || negb dashboard_edge then claim_member_changes db evaluations else (db, []) in
  (db, if claimed
       then {| transition := Some {| t_worsening := is_worsening previous current; t_non_green := non_green;
                                     t_notice := dashboard_notice dashboard previous current non_green None changes |};
               member_notices := [] |}
       else if negb dashboard_edge
       then {| transition := None;
               member_notices := (fun c => dashboard_notice dashboard previous current non_green (Some c) []) <$> changes |}
       else {| transition := None; member_notices := [] |}).

(** [_member_rows]: the members in the order of their names and ids. *)
Definition member_le (a b : DashboardSensor * Sensor) : Prop :=
  str_le (name a.2) (name b.2) /\ (name a.2 = name b.2 -> str_le (sid a.2) (sid b.2)).
#[export] Instance member_le_dec a b : Decision (member_le a b).
Proof.
  unfold member_le. destruct (decide (name a.2 = name b.2)) as [e|n].
  - destruct (decide (str_le (name a.2) (name b.2))), (decide (str_le (sid a.2) (sid b.2))); (left + right); tauto.
  - destruct (decide (str_le (name a.2) (name b.2))); (left + right); tauto.
Defined.

Definition member_rows (db : DashboardDb) (sensor_db : SensorDb) (dashboard_id : string) : list (DashboardSensor * Sensor) :=
  merge_sort member_le
    (l ← select_where (fun l => bool_decide (l_dashboard_id l = dashboard_id)) (links db);
     match List.find (has_sid (l_sensor_id l)) (sensors sensor_db) with Some s => [(l, s)] | None => [] end).

Definition claim_view (db : DashboardDb) (sensor_db : SensorDb) (tenant_id dashboard_id : string) : option ClaimView :=
  match List.find (fun d => bool_decide (d_id d = dashboard_id)) (dashboards db) with
  | None => None
  | Some d =>
      if bool_decide (d_tenant_id d = tenant_id)
      then Some {| v_dashboard := d; v_members := member_rows db sensor_db dashboard_id |} else None
  end.

(** [_dashboards_for_sensor] *)
Definition dashboards_for_sensor (db : DashboardDb) (tenant_id sensor_id : string) : list CheckDashboard :=
  l ← select_where (fun l => bool_decide (l_sensor_id l = sensor_id)) (links db);
  select_where (fun d => bool_decide (d_id d = l_dashboard_id l) && bool_decide (d_tenant_id d = tenant_id)) (dashboards db).

Inductive Scheduled :=
| investigation (tenant_id dashboard_id : string) (members : list MemberSnapshot)
| notification (n : DashboardNotice).

(** What a claim sets off. *)
Definition routed (tenant_id : string) (claims : list DashboardClaims) : list Scheduled :=
  (c ← claims;
   match transition c with
   | None => []
   | Some t =>
       (if t_worsening t && negb (bool_decide (t_non_green t = [])) then [investigation tenant_id (n_dashboard_id (t_notice t)) (t_non_green t)] else []) ++
       [notification (t_notice t)]
   end) ++ (c ← claims; notification <$> member_notices c).

Fixpoint claim_all (db : DashboardDb) (sensor_db : SensorDb) (tenant_id : string) (ids : list string) (now : Z) : DashboardDb * list DashboardClaims :=
  match ids with
  | [] => (db, [])
  | id :: rest =>
      match claim_view db sensor_db tenant_id id with
      | None => claim_all db sensor_db tenant_id rest now
      | Some view =>
          let '(db, c) := claim_dashboard_transition db view now in
          let '(db, cs) := claim_all db sensor_db tenant_id rest now in (db, c :: cs)
      end
  end.

(** [_process_transition], each claim under its lock. *)
Definition process_transition (db : DashboardDb) (sensor_db : SensorDb) (sensor_id tenant_id : string) (now : Z) : DashboardDb * list Scheduled :=
  let '(db', claims) := claim_all db sensor_db tenant_id (d_id <$> dashboards_for_sensor db tenant_id sensor_id) now in
  (db', routed tenant_id claims).
