(* ===== verification/DashboardProofs.v ===== *)
(** What the dashboards promise: the rollup is the worst that counts, and every change of
    it is announced once. *)

From S2P Require Import Prelude Json Assertions Sensors Dashboards.

(** * The rollup *)

(** What a member reads as: skip while it is paused; unknown before its first check,
    and when its next check is more than a minute overdue; else its last state. *)
Inductive reads_as (m : MemberState) (now : Z) : CheckState -> Prop :=
| reads_paused : ms_status m = paused -> reads_as m now skip
| reads_never : ms_status m <> paused -> ms_last_evaluated_at m = None -> reads_as m now unknown
| reads_overdue at_ due : ms_status m <> paused -> ms_last_evaluated_at m = Some at_ ->
    ms_next_fire_at m = Some due -> (due + 60 * 1000000 < now)%Z -> reads_as m now unknown
| reads_last at_ : ms_status m <> paused -> ms_last_evaluated_at m = Some at_ ->
    (forall due, ms_next_fire_at m = Some due -> (now <= due + 60 * 1000000)%Z) -> reads_as m now (ms_last_state m).

(** It has been in its state for the hold time, or nobody knows since when. *)
Definition held (m : MemberState) (now : Z) : Prop :=
  forall since, ms_state_since m = Some since -> (since + ms_for_seconds m * 1000000 <= now)%Z.

(** [m] drives its dashboard to [s]: it fails, has failed for its hold time, and its
    severity lets it. *)
Definition alarms (m : MemberState) (now : Z) (s : CheckState) : Prop :=
  held m now /\
  match s with
  | critical => reads_as m now critical /\ ms_severity m = sev_critical
  | degraded => reads_as m now degraded \/ reads_as m now unknown \/ (reads_as m now critical /\ ms_severity m = sev_degraded)
  | _ => False
  end.

Lemma reads_derive m now s : reads_as m now s <-> derive_raw m now = s.
Proof.
  unfold derive_raw, STALE_GRACE_SECONDS, second. split.
  - destruct 1 as [Hp|Hp He|t due Hp He Hd Ho|t Hp He Ho]; [by rewrite bool_decide_true|rewrite bool_decide_false by done; rewrite He..]; [done| |].
    + by rewrite Hd, (proj2 (Z.ltb_lt _ _)).
    + destruct (ms_next_fire_at m) as [due|]; [|done]. by rewrite (proj2 (Z.ltb_ge _ _)) by auto.
  - case_bool_decide as Hp; [intros <-; by apply reads_paused|]. destruct (ms_last_evaluated_at m) as [t|] eqn:He; [|intros <-; by apply reads_never].
    destruct (ms_next_fire_at m) as [due|] eqn:Hd; [destruct (Z.ltb_spec (due + 60 * 1000000) now)|]; intros <-.
    + by eapply reads_overdue.
    + eapply reads_last; [done..|]. by rewrite Hd; intros ? [= <-].
    + eapply reads_last; [done..|]. by rewrite Hd.
Qed.

Lemma held_spec m now : held m now <-> held_back m now = false.
Proof.
  unfold held, held_back, second. destruct (ms_state_since m) as [t|]; [|done]. rewrite Z.ltb_ge. split; [intros H; specialize (H t eq_refl); lia|].
  intros H ? [= <-]. lia.
Qed.

Lemma effective_spec m now :
  let e := effective_state (evaluate_member m now) in
  (e = skip <-> reads_as m now skip) /\ (e = critical <-> alarms m now critical) /\ (e = degraded <-> alarms m now degraded) /\ e <> unknown.
Proof.
  cbv zeta. unfold evaluate_member, alarms. rewrite held_spec, !reads_derive. destruct (derive_raw m now) eqn:E; cbn [effective_state]; try (split_and!; try done; naive_solver);
    (destruct (held_back m now) eqn:Eh; cbn [effective_state]; [split_and!; try done; naive_solver|]);
    destruct (ms_severity m) eqn:Es; cbn; split_and!; try done; naive_solver.
Qed.

Lemma worst_spec e rest : worst e rest ∈ e :: rest /\
  forall x, x ∈ e :: rest -> FOLD_ORDER (effective_state x) <= FOLD_ORDER (effective_state (worst e rest)).
Proof.
  unfold worst. revert e. induction rest as [|y rest IH]; intros e; cbn [foldl].
  { split; [by left|]. by intros x ->%list_elem_of_singleton. }
  destruct (Nat.ltb _ _) eqn:El; destruct (IH (if Nat.ltb (FOLD_ORDER (effective_state e)) (FOLD_ORDER (effective_state y)) then y else e)) as [Hin Hmax];
    rewrite El in Hin, Hmax.
  - apply Nat.ltb_lt in El. split; [by right|]. intros x [->|Hx]%elem_of_cons; [|by apply Hmax].
    etransitivity; [|apply (Hmax y); by left]. lia.
  - apply Nat.ltb_ge in El. split; [apply elem_of_cons in Hin as [->|?]; [by left|by right; right]|].
    intros x [->|[->|Hx]%elem_of_cons]%elem_of_cons; [apply Hmax; by left| |apply Hmax; by right]. etransitivity; [done|apply Hmax; by left].
Qed.

Definition counts (members : list MemberState) (now : Z) (s : CheckState) : Prop := exists m, m ∈ members /\ alarms m now s.

(** C37. The rollup is the worst that counts: unknown without members, skip when all read
    as skip, as every paused one does; else critical exactly when a sensor of severity
    critical reads critical and has for its hold time, degraded when one counts as
    degraded and none as critical, and ok when none counts.  A sensor that has never
    been checked, or is more than a minute overdue, reads unknown and counts as
    degraded, and so does a critical one of severity degraded. *)
Theorem rollup_is_the_worst_that_counts members now :
  (rollup members now = unknown <-> members = []) /\
  (rollup members now = skip <-> members <> [] /\ Forall (fun m => reads_as m now skip) members) /\
  (rollup members now = critical <-> counts members now critical) /\
  (rollup members now = degraded <-> counts members now degraded /\ ~ counts members now critical) /\
  (rollup members now = ok <-> ~ Forall (fun m => reads_as m now skip) members /\
     ~ counts members now critical /\ ~ counts members now degraded).
Proof.
  unfold rollup. destruct members as [|m0 ms].
  { cbn. unfold counts. assert (forall s, ~ exists m : MemberState, m ∈ [] /\ alarms m now s) as Hno by (intros s (m & Hm%elem_of_nil & _); done).
    split_and!; [done|split; [done|by intros [[] _]]|split; [done|intros Hc; by destruct (Hno critical)]|
      split; [done|intros [Hc _]; by destruct (Hno degraded)]|split; [done|intros [Hc _]; by destruct Hc]]. }
  set (members := m0 :: ms). set (evs := (fun m => evaluate_member m now) <$> members).
  assert (forall e, e ∈ evs <-> exists m, m ∈ members /\ e = evaluate_member m now) as Hevs by (intros e; unfold evs; rewrite list_elem_of_fmap; naive_solver).
  assert (fold evs = match List.filter (fun e => negb (bool_decide (effective_state e = skip))) evs with [] => skip | e :: rest => effective_state (worst e rest) end) as ->.
  { unfold fold, evs, members. by rewrite fmap_cons. }
  assert (forall e, e ∈ List.filter (fun e => negb (bool_decide (effective_state e = skip))) evs <-> e ∈ evs /\ effective_state e <> skip) as Hfil.
  { intros e. rewrite !list_elem_of_In, filter_In, negb_true_iff, bool_decide_eq_false. done. }
  assert (forall s, (exists e, e ∈ evs /\ effective_state e = s) <-> exists m, m ∈ members /\ effective_state (evaluate_member m now) = s) as Hex.
  { intros s. split; [intros (e & (m & Hm & ->)%Hevs & Hs); by exists m|]. intros (m & Hm & Hs). exists (evaluate_member m now). split; [|done].
    apply Hevs. by exists m. }
  assert (forall s, (s = critical \/ s = degraded) -> counts members now s <-> exists e, e ∈ evs /\ effective_state e = s) as Hcounts.
  { intros s Hs. rewrite Hex. unfold counts. split; intros (m & Hm & H); exists m; (split; [done|]);
      destruct (effective_spec m now) as (_ & Hc & Hd & _); destruct Hs as [-> | ->]; tauto. }
  assert (Forall (fun m => reads_as m now skip) members <-> forall e, e ∈ evs -> effective_state e = skip) as Hskip.
  { rewrite Forall_forall. split.
    - intros H e (m & Hm & ->)%Hevs. by apply effective_spec, H.
    - intros H m Hm. apply effective_spec, H, Hevs. by exists m. }
  rewrite (Hcounts critical), (Hcounts degraded), Hskip by tauto. assert (members <> []) as Hne by done.
  assert (forall e, e ∈ evs -> effective_state e <> unknown) as Hunk by (intros e (m & Hm & ->)%Hevs; apply effective_spec).
  clearbody evs. clear Hevs Hex Hcounts Hskip. destruct (List.filter _ evs) as [|e rest].
  - assert (forall e, e ∈ evs -> effective_state e = skip) as Hall.
    { intros e He. destruct (decide (effective_state e = skip)) as [|Hn]; [done|]. by destruct (proj1 (elem_of_nil e) (proj2 (Hfil e) (conj He Hn))). }
    assert (forall s, s <> skip -> ~ exists e, e ∈ evs /\ effective_state e = s) as Hno by (intros s Hs (e & He & <-); by apply Hs, Hall).
    split_and!; split; try done; [intros H; by destruct (Hno critical)|intros [H _]; by destruct (Hno degraded)|by intros [H _]].
  - destruct (worst_spec e rest) as [Hin Hmax]. set (w := worst e rest) in *. clearbody w. apply Hfil in Hin as [Hw Hns].
    assert (forall x, x ∈ evs -> effective_state x <> skip -> FOLD_ORDER (effective_state x) <= FOLD_ORDER (effective_state w)) as Hle
      by (intros x Hx Hs; by apply Hmax, Hfil).
    pose proof (Hunk w Hw) as Hwu. clear Hmax Hfil. split_and!.
    + by split.
    + split; [done|]. intros [_ Hall]. by destruct Hns; apply Hall.
    + split; [intros Hc; by exists w|]. intros (x & Hx & Hc). assert (2 <= FOLD_ORDER (effective_state w)) as Hge by (rewrite <- (Hle x) by (done || congruence); by rewrite Hc).
      destruct (effective_state w); cbn in Hge; done || lia.
    + split.
      * intros Hd. split; [by exists w|]. intros (x & Hx & Hc). specialize (Hle x Hx ltac:(congruence)). rewrite Hc, Hd in Hle. cbn in Hle. lia.
      * intros [(x & Hx & Hd) Hno]. assert (1 <= FOLD_ORDER (effective_state w)) as Hge by (rewrite <- (Hle x) by (done || congruence); by rewrite Hd).
        destruct (effective_state w) eqn:Ew; cbn in Hge; try done; try lia. by destruct Hno; exists w.
    + split.
      * intros Ho. split; [intros Hall; by destruct Hns; apply Hall|]. split; intros (x & Hx & Hs); specialize (Hle x Hx ltac:(congruence)); rewrite Hs, Ho in Hle; cbn in Hle; lia.
      * intros (_ & Hc & Hd). destruct (effective_state w) eqn:Ew; try done; [by destruct Hd; exists w|by destruct Hc; exists w].
Qed.


(** * Claims *)

(** The state of the newest notice of a dashboard. *)
Fixpoint last_edge (id : string) (newest_first : list DashboardNotice) : option CheckState :=
  match newest_first with
  | [] => None
  | n :: older => if bool_decide (n_dashboard_id n = id) then Some (n_current_state n) else last_edge id older
  end.

Definition edges_of (c : DashboardClaims) : list DashboardNotice := match transition c with Some t => [t_notice t] | None => [] end.

(** Callers write claims on anything they have read, at any time and in any order;
    dashboards come and go and are configured anew in between. *)
Inductive claim_step : DashboardDb * list DashboardNotice -> DashboardDb * list DashboardNotice -> Prop :=
| c_claim db log view now db' claims : claim_dashboard_transition db view now = (db', claims) ->
    claim_step (db, log) (db', edges_of claims ++ log)
| c_create db log d : last_rollup_state d = None -> d_id d ∉ (d_id <$> dashboards db) -> Forall (fun n => n_dashboard_id n <> d_id d) log ->
    claim_step (db, log) ({| dashboards := dashboards db ++ [d]; links := links db |}, log)
| c_configure db log f : (forall d, d_id (f d) = d_id d /\ last_rollup_state (f d) = last_rollup_state d) ->
    claim_step (db, log) ({| dashboards := f <$> dashboards db; links := links db |}, log)
| c_delete db log id : claim_step (db, log) ({| dashboards := delete_where (fun d => bool_decide (d_id d = id)) (dashboards db); links := links db |}, log)
| c_links db log ls : claim_step (db, log) ({| dashboards := dashboards db; links := ls |}, log).

Inductive claim_reachable : DashboardDb * list DashboardNotice -> Prop :=
| c_start : claim_reachable ({| dashboards := []; links := [] |}, [])
| c_next w w' : claim_reachable w -> claim_step w w' -> claim_reachable w'.

(** Each notice starts where the one before it ended, and changes something. *)
Fixpoint chained (newest_first : list DashboardNotice) : Prop :=
  match newest_first with
  | [] => True
  | n :: older =>
      chained older /\ n_previous_state n = default ok (last_edge (n_dashboard_id n) older) /\
      Some (n_current_state n) <> last_edge (n_dashboard_id n) older
  end.

Lemma member_changes_keep db evs : dashboards (claim_member_changes db evs).1 = dashboards db.
Proof.
  revert db. induction evs as [|[[link sensor] e] evs IH]; intros db; [done|]. cbn [claim_member_changes]. case_bool_decide; [done|].
  unfold claim_member_state. specialize (IH {| dashboards := dashboards db; links := update_where (member_memo_is link (last_member_state link)) (set_member_memo (effective_state e)) (links db) |}).
  destruct (claim_member_changes _ evs) as [db' changes]. cbn [fst] in *. destruct (last_member_state link); [|done]. by case_match.
Qed.

Lemma memo_filter_unique l d id expected : NoDup (d_id <$> l) -> d ∈ l -> memo_is id expected d = true ->
  List.filter (memo_is id expected) l = [d].
Proof.
  induction l as [|x l IH]; intros Hnd Hd Hm; [by apply elem_of_nil in Hd|]. rewrite fmap_cons in Hnd. apply NoDup_cons in Hnd as [Hx Hnd].
  assert (forall y, y ∈ l -> d_id y = d_id x -> False) as Hno by (intros y Hy Heq; apply Hx; rewrite <- Heq; by apply list_elem_of_fmap_2).
  assert (forall y, memo_is id expected y = true -> d_id y = id) as Hid by (intros y Hy; unfold memo_is in Hy; to_prop; tauto).
  cbn. apply elem_of_cons in Hd as [<-|Hd].
  - rewrite Hm. f_equal. destruct (List.filter _ l) as [|y rest] eqn:E; [done|]. exfalso.
    assert (y ∈ List.filter (memo_is id expected) l) as Hy by (rewrite E; by left). rewrite list_elem_of_In, filter_In in Hy. destruct Hy as [Hy%list_elem_of_In Hmy].
    apply (Hno y Hy). by rewrite (Hid y), (Hid d).
  - destruct (memo_is id expected x) eqn:Ex; [|by apply IH]. exfalso. apply (Hno d Hd). by rewrite (Hid d), (Hid x).
Qed.

(** What one claim does to the dashboards. *)
Lemma claim_cases db view now db' claims : NoDup (d_id <$> dashboards db) -> claim_dashboard_transition db view now = (db', claims) ->
  (dashboards db' = dashboards db /\ edges_of claims = []) \/
  exists n d, edges_of claims = [n] /\ n_dashboard_id n = d_id (v_dashboard view) /\
    n_previous_state n = default ok (last_rollup_state (v_dashboard view)) /\ Some (n_current_state n) <> last_rollup_state (v_dashboard view) /\
    d ∈ dashboards db /\ d_id d = n_dashboard_id n /\ last_rollup_state d = last_rollup_state (v_dashboard view) /\
    dashboards db' = update_where (memo_is (d_id d) (last_rollup_state d)) (set_memo (n_current_state n)) (dashboards db).
Proof.
  intros Hnd. unfold claim_dashboard_transition. set (evs := _ <$> v_members view). set (current := fold _). case_bool_decide as Hc; cbn [negb].
  - cbn [orb]. pose proof (member_changes_keep db evs) as Hk. destruct (claim_member_changes db evs) as [db1 changes]. intros [= <- <-]. by left.
  - unfold claim_rollup_transition. set (p := memo_is (d_id (v_dashboard view)) (last_rollup_state (v_dashboard view))). case_bool_decide as Hl; cbn [orb].
    + set (db0 := {| dashboards := _; links := _ |}). pose proof (member_changes_keep db0 evs) as Hk.
      destruct (claim_member_changes db0 evs) as [db1 changes]. intros [= <- <-]. right.
      destruct (List.filter p (dashboards db)) as [|d [|? ?]] eqn:Ef; try done.
      assert (d ∈ List.filter p (dashboards db)) as Hd by (rewrite Ef; by left). rewrite list_elem_of_In, filter_In in Hd. destruct Hd as [Hd%list_elem_of_In Hp].
      unfold p, memo_is in Hp. apply bool_decide_eq_true in Hp as [Hid Hmemo]. eexists _, d. split; [done|]. cbn in *. rewrite Hid, Hmemo. by split_and!.
    + intros [= <- <-]. left. split; [|done]. cbn. apply update_where_none. intros d Hd. apply not_true_iff_false. intros Hm. apply Hl.
      unfold p in *. by rewrite (memo_filter_unique _ d).
Qed.

Record claims_ok (w : DashboardDb * list DashboardNotice) : Prop := {
  co_ids : NoDup (d_id <$> dashboards w.1);
  co_memo : forall d, d ∈ dashboards w.1 -> last_rollup_state d = last_edge (d_id d) w.2;
  co_chain : chained w.2;
}.

Lemma last_edge_none id log : Forall (fun n => n_dashboard_id n <> id) log -> last_edge id log = None.
Proof. induction 1 as [|n log Hn _ IH]; [done|]. cbn. by rewrite bool_decide_false. Qed.

Lemma claim_step_ok w w' : claims_ok w -> claim_step w w' -> claims_ok w'.
Proof.
  intros [Hi Hm Hc] Hs. destruct Hs as [db log view now db' claims Hcl|db log d Hd Hfresh Hnew|db log f Hf|db log id|db log ls]; cbn [fst snd] in *.
  - destruct (claim_cases _ _ _ _ _ Hi Hcl) as [[Hdb ->]|(n & d & -> & Hid & Hprev & Hcur & Hd & Hdid & Hdm & Hdb)];
      [constructor; cbn [fst snd app]; by rewrite ?Hdb|].
    pose proof (Hm d Hd) as Hmd. constructor; cbn [fst snd app].
    + rewrite Hdb. by rewrite update_where_keys.
    + rewrite Hdb. intros x (x0 & Hx0 & ->)%elem_of_update. destruct (memo_is (d_id d) (last_rollup_state d) x0) eqn:E.
      * unfold memo_is in E. apply bool_decide_eq_true in E as [E _]. cbn. by rewrite bool_decide_true by congruence.
      * cbn. case_bool_decide as Heq; [|by apply Hm]. exfalso. unfold memo_is in E. apply bool_decide_eq_false in E. apply E.
        split; [congruence|]. rewrite (Hm x0 Hx0), Hmd. congruence.
    + cbn. rewrite <- Hdid, <- Hmd, Hdm. by split_and!.
  - constructor; cbn [fst snd dashboards]; [|intros x [Hx| ->%list_elem_of_singleton]%elem_of_app; [by apply Hm|by rewrite Hd, last_edge_none]|done].
    rewrite fmap_app. by apply NoDup_snoc.
  - constructor; cbn [fst snd dashboards]; [|intros x (x0 & -> & Hx0)%list_elem_of_fmap; destruct (Hf x0) as [-> ->]; by apply Hm|done].
    rewrite <- list_fmap_compose. erewrite list_fmap_ext; [exact Hi|]. intros i x _. apply Hf.
  - constructor; cbn [fst snd dashboards]; [|intros x [Hx _]%elem_of_delete; by apply Hm|done]. by apply NoDup_delete_where.
  - by constructor.
Qed.

Lemma claim_reachable_ok w : claim_reachable w -> claims_ok w.
Proof.
  induction 1 as [|w w' _ IH Hs]; [|by eapply claim_step_ok]. constructor; cbn; [constructor|by intros d ?%elem_of_nil|done].
Qed.

Lemma chained_suffix l1 l2 : chained (l1 ++ l2) -> chained l2.
Proof. induction l1 as [|n l1 IH]; [done|]. intros [Hc _]. by apply IH. Qed.

(** A claim on what the tables hold now: the memo ends at the rollup, and the edge is
    claimed exactly when the memo moved. *)
Lemma fresh_claim db sensor_db tenant_id id view now :
  NoDup (d_id <$> dashboards db) -> claim_view db sensor_db tenant_id id = Some view ->
  let '(db', claims) := claim_dashboard_transition db view now in
  let current := rollup (member_state <$> (v_members view).*2) now in
  (exists d, d ∈ dashboards db' /\ d_id d = id /\ last_rollup_state d = Some current) /\
  (edges_of claims = [] <-> last_rollup_state (v_dashboard view) = Some current).
Proof.
  intros Hnd Hv. unfold claim_view in Hv. destruct (List.find _ (dashboards db)) as [d|] eqn:Ef; [|done]. case_bool_decide; [|done].
  injection Hv as <-. apply find_Some_iff in Ef as [Hd Hid]. to_prop. unfold claim_dashboard_transition. cbn [v_dashboard v_members].
  set (members := member_rows db sensor_db id). set (evs := _ <$> members).
  assert (rollup (member_state <$> members.*2) now = fold evs.*2) as ->.
  { unfold rollup, evs. f_equal. rewrite <- !list_fmap_compose. by apply list_fmap_ext. }
  set (current := fold _). case_bool_decide as Hc; cbn [negb].
  - cbn [orb]. pose proof (member_changes_keep db evs) as Hk. destruct (claim_member_changes db evs) as [db1 changes]. cbn in *. rewrite Hk.
    split; [by exists d|by split].
  - unfold claim_rollup_transition. rewrite (memo_filter_unique (dashboards db) d); [|done|done|unfold memo_is; by apply bool_decide_eq_true].
    cbn [length]. rewrite bool_decide_true by done. cbn [orb]. set (db0 := {| dashboards := _; links := _ |}).
    pose proof (member_changes_keep db0 evs) as Hk. destruct (claim_member_changes db0 evs) as [db1 changes]. cbn in *. rewrite Hk. split.
    + exists (set_memo current d). split; [|by split]. apply elem_of_update. exists d. split; [done|]. unfold memo_is. by rewrite bool_decide_true.
    + split; [done|]. intros Heq. by destruct Hc.
Qed.

(** C15. Every change of a dashboard is announced once, in every interleaving of callers
    that claim on anything they have read at any time: each notice starts where the
    one before it ended and names another state. *)
Theorem every_change_is_announced_once db log newer n2 between n1 older :
  claim_reachable (db, log) -> log = newer ++ n2 :: between ++ n1 :: older ->
  n_dashboard_id n1 = n_dashboard_id n2 -> Forall (fun n => n_dashboard_id n <> n_dashboard_id n1) between ->
  n_previous_state n2 = n_current_state n1 /\ n_current_state n2 <> n_previous_state n2 /\
  (newer = [] -> forall d, d ∈ dashboards db -> d_id d = n_dashboard_id n2 -> last_rollup_state d = Some (n_current_state n2)).
Proof.
  intros [Hi Hm Hc]%claim_reachable_ok -> Hid Hb. cbn [fst snd] in *. pose proof Hc as [_ [Hprev Hcur]]%chained_suffix.
  assert (last_edge (n_dashboard_id n2) (between ++ n1 :: older) = Some (n_current_state n1)) as Hle.
  { rewrite <- Hid. clear -Hb. induction Hb as [|n between Hn _ IH]; cbn; [by rewrite bool_decide_true|by rewrite bool_decide_false]. }
  rewrite Hle in Hprev, Hcur. cbn in Hprev. split; [done|]. split; [congruence|].
  intros -> d Hd Heq. rewrite (Hm d Hd), Heq. cbn. by rewrite bool_decide_true.
Qed.

Lemma every_change_is_announced_once_witness :
  let d := {| d_id := "d"; d_tenant_id := "t"; d_name := "web"; last_rollup_state := None; investigator_prompt := None; notify_email := None;
              notify_min_state := sev_critical |} in
  let sensor st := {| sid := "s1"; tenant_id := "t"; name := "up"; connector_id := "c"; op_id := "o"; target := None; params := [];
                      assertion := JNull; status := active; status_reason := None; cadence := interval 60; timezone := "UTC"; next_fire_at := None;
                      severity := sev_critical; for_seconds := 0; retry_times := 0; retry_backoff_seconds := 15; identity_sub := "__sensor__";
                      last_state := st; last_value := JNull; last_evidence := None; last_evaluated_at := Some 0%Z; state_since := None;
                      pending_state := None; pending_count := 0 |} in
  let view memo st := {| v_dashboard := {| d_id := "d"; d_tenant_id := "t"; d_name := "web"; last_rollup_state := memo; investigator_prompt := None;
                           notify_email := None; notify_min_state := sev_critical |};
                         v_members := [({| l_dashboard_id := "d"; l_sensor_id := "s1"; last_member_state := None |}, sensor st)] |} in
  exists db n2 n1, claim_reachable (db, [n2; n1]) /\ n_current_state n1 = critical /\ n_previous_state n2 = critical /\ n_current_state n2 <> critical.
Proof.
  intros d sensor view.
  pose (w1 := {| dashboards := [d]; links := [] |}).
  assert (claim_reachable (w1, [])) as H1.
  { eapply c_next; [apply c_start|]. apply (c_create {| dashboards := []; links := [] |} [] d); [done|by intros ?%elem_of_nil|done]. }
  destruct (claim_dashboard_transition w1 (view None critical) 0) as [w2 c2] eqn:E2.
  assert (claim_reachable (w2, edges_of c2 ++ [])) as H2 by (eapply c_next; [exact H1|]; by eapply c_claim).
  destruct (claim_dashboard_transition w2 (view (Some critical) ok) 0) as [w3 c3] eqn:E3.
  assert (claim_reachable (w3, edges_of c3 ++ edges_of c2 ++ [])) as H3 by (eapply c_next; [exact H2|]; by eapply c_claim).
  vm_compute in E2. injection E2 as <- <-. vm_compute in E3. injection E3 as <- <-. cbn [edges_of transition t_notice app] in H3.
  match type of H3 with claim_reachable (?w, [?n2; ?n1]) =>
    exists w, n2, n1; split; [exact H3|]; split; [done|];
    destruct (every_change_is_announced_once w [n2; n1] [] n2 [] n1 [] H3) as (Hp & Hc & _); [done..|] end.
  split; [exact Hp|done].
Defined.
