(* ===== verification/CheckNotices.v ===== *)
(** The mails about a dashboard ([checks/notify.py]): the floor, the windows that damp
    a flapping dashboard, the recipients and the send. *)

From stdpp Require Import pretty.
From S2P Require Import Prelude Json Programs Assertions Sensors Dashboards.

Definition NOTIFY_RANK (s : CheckState) : nat := match s with ok | skip => 0 | unknown | degraded => 1 | critical => 2 end.
Definition SUPPRESSIBLE_STATES : list CheckState := [unknown; degraded; critical].
Definition MAX_MEMBER_LINES : nat := 20.

Definition state_name (s : CheckState) : string :=
  match s with ok => "ok" | degraded => "degraded" | critical => "critical" | unknown => "unknown" | skip => "skip" end.

(** The notice about one member that rode along. *)
Definition member_notice (n : DashboardNotice) (c : MemberChange) : DashboardNotice := {|
  n_tenant_id := n_tenant_id n; n_dashboard_id := n_dashboard_id n; n_name := n_name n; n_previous_state := n_previous_state n;
  n_current_state := n_current_state n; n_notify_email := n_notify_email n; n_notify_min_state := n_notify_min_state n;
  n_members := n_members n; n_member_change := Some c; n_member_changes := [] |}.

(** The edge the gates judge. *)
Definition edge (n : DashboardNotice) : CheckState * CheckState :=
  match n_member_change n with
  | Some c => (c_previous_state c, c_current_state c)
  | None => (n_previous_state n, n_current_state n)
  end.

Definition crosses_threshold (previous current : CheckState) (min_state : SensorSeverity) : bool :=
  Nat.leb (NOTIFY_RANK (state_of_severity min_state)) (Nat.max (NOTIFY_RANK previous) (NOTIFY_RANK current)).

Definition suppression_key (tenant_id dashboard_id : string) (st : CheckState) (sensor_id : option string) : string :=
  match sensor_id with
  | Some s => "meho:checks:notify:" +:+ tenant_id +:+ ":" +:+ dashboard_id +:+ ":member:" +:+ s +:+ ":" +:+ state_name st
  | None => "meho:checks:notify:" +:+ tenant_id +:+ ":" +:+ dashboard_id +:+ ":" +:+ state_name st
  end.

(** The members a mail lists: the one it is about first. *)
Definition shown_members (n : DashboardNotice) : list MemberSnapshot :=
  take MAX_MEMBER_LINES
    match n_member_change n with
    | None => n_members n
    | Some c => let about m := bool_decide (m_sensor_id m = c_sensor_id c) in
                select_where about (n_members n) ++ delete_where about (n_members n)
    end.

(** * What a notification calls *)

Inductive MailOp :=
| m_set_nx (key : string) (seconds : Z)
| m_delete (keys : list string)
| m_send (to : list string) (n : DashboardNotice).

(** Whether the key was set; whether the mail was sent. *)
Definition MailAns (o : MailOp) : Type := match o with m_set_nx _ _ => bool | m_delete _ => unit | m_send _ _ => bool end.

(** An [Exception], and the cancellation of the task. *)
Inductive MailFault := mail_exception | mail_cancelled.

Abbreviation mail := (action MailAns MailFault).

Section Notify.
(** The allowlist of recipients, and the setting of the window. *)
Context (recipient_allowed : string -> bool) (window_minutes : Z).

(** [except Exception: ...] *)
Definition swallowing {A} (a : A) (c : mail A) : mail A :=
  try_except c (fun e => match e with mail_exception => Some (mret a) | mail_cancelled => None end).

Definition notice_key (n : DashboardNotice) : string :=
  suppression_key (n_tenant_id n) (n_dashboard_id n) (edge n).2 (c_sensor_id <$> n_member_change n).

Definition claim_suppression (n : DashboardNotice) (seconds : Z) : mail bool := swallowing true (invoke (m_set_nx (notice_key n) seconds)).

Fixpoint set_all (keys : list string) (seconds : Z) : mail unit :=
  match keys with [] => mret tt | k :: rest => _ ← invoke (m_set_nx k seconds); set_all rest seconds end.

Definition claim_member_windows (n : DashboardNotice) (seconds : Z) : mail unit :=
  swallowing tt (set_all
    ((fun m => suppression_key (n_tenant_id n) (n_dashboard_id n) (m_effective_state m) (Some (m_sensor_id m))) <$> shown_members n) seconds).

Definition clear_suppression (n : DashboardNotice) : mail unit :=
  swallowing tt (invoke (m_delete ((fun st => suppression_key (n_tenant_id n) (n_dashboard_id n) st None) <$> SUPPRESSIBLE_STATES))).

Definition allowed_recipients (raw : string) : list string :=
  List.filter recipient_allowed (List.filter (fun e => negb (bool_decide (e = ""))) (py_strip <$> split_on "," raw)).

Definition deliver (n : DashboardNotice) (recipients : list string) : mail unit :=
  swallowing tt (_ ← invoke (m_send recipients n); mret tt).

(** The gates; [on_suppressed] is what becomes of the members of a damped notice. *)
Definition notify_gates (on_suppressed : mail unit) (n : DashboardNotice) : mail unit :=
  match n_notify_email n with
  | None | Some "" => mret tt
  | Some raw =>
      let '(previous, current) := edge n in
      let suppressible := bool_decide (current ∈ SUPPRESSIBLE_STATES) in
      let damped := (0 <? window_minutes)%Z in
      _ ← (if damped && negb suppressible then clear_suppression n else mret tt);
      if negb (crosses_threshold previous current (n_notify_min_state n)) then mret tt
      else
        claimed ← (if damped && suppressible then claim_suppression n (window_minutes * 60) else mret true);
        if negb claimed then on_suppressed
        else
          _ ← (if damped && suppressible && negb (bool_decide (is_Some (n_member_change n)))
               then claim_member_windows n (window_minutes * 60) else mret tt);
          match allowed_recipients raw with
          | [] => mret tt
          | recipients => deliver n recipients
          end
  end.

Fixpoint in_turn (l : list (mail unit)) : mail unit := match l with [] => mret tt | c :: rest => _ ← c; in_turn rest end.

(** A notice about a member carries no further members: the recursion is one deep. *)
Definition notify_dashboard_transition (n : DashboardNotice) : mail unit :=
  notify_gates (in_turn ((fun c => notify_gates (mret tt) (member_notice n c)) <$> n_member_changes n)) n.
End Notify.

(** * No alert is lost *)

Section Alerts.
Context (recipient_allowed : string -> bool) (window_minutes : Z).

Abbreviation recipients_of := (allowed_recipients recipient_allowed).
Abbreviation gates := (notify_gates recipient_allowed window_minutes).

Definition is_send (e : event MailAns MailFault) : bool := match projT1 e with m_send _ _ => true | _ => false end.
Definition no_send (h : history MailAns MailFault) : Prop := Forall (fun e => is_send e = false) h.

(** An action that sends nothing and raises only when it is cancelled. *)
Definition quiet {A} (c : mail A) : Prop := forall h r, runs c h r -> no_send h /\ (is_Ok r \/ r = Raise mail_cancelled).

Lemma swallowing_runs {A} (a : A) c h r : runs (swallowing a c) h r ->
  exists r0, runs c h r0 /\ r = match r0 with Ok x => Ok x | Raise mail_exception => Ok a | Raise mail_cancelled => Raise mail_cancelled end.
Proof.
  unfold swallowing, try_except. intros (h1 & h2 & r0 & -> & H1 & H2)%runs_after. exists r0.
  destruct r0 as [x|[|]]; destruct H2 as [-> ->]; by rewrite app_nil_r.
Qed.

Lemma quiet_swallowing {A} (a : A) c : (forall h r, runs c h r -> no_send h) -> quiet (swallowing a c).
Proof.
  intros Hc h r (r0 & Hr & ->)%swallowing_runs. split; [by eapply Hc|]. destruct r0 as [x|[|]]; [left; by eexists|left; by eexists|by right].
Qed.

Lemma quiet_ret {A} (a : A) : quiet (mret a : mail A).
Proof. intros h r [-> ->]. split; [constructor|left; by eexists]. Qed.

Lemma invoke_no_send o h r : is_send (ev o r) = false -> runs (invoke o : mail _) h r -> no_send h.
Proof. intros Ho (x & h' & -> & [-> ->]). by repeat constructor. Qed.

Lemma set_all_no_send keys seconds h r : runs (set_all keys seconds) h r -> no_send h.
Proof.
  revert h. induction keys as [|k keys IH]; intros h; [by intros [-> _]; constructor|].
  intros (x & h' & -> & Hr). constructor; [done|]. destruct x as [b|e]; [by apply IH|]. by destruct Hr as [-> _].
Qed.

Lemma quiet_clear n : quiet (clear_suppression n).
Proof. apply quiet_swallowing. intros h r. by apply invoke_no_send. Qed.
Lemma quiet_windows n seconds : quiet (claim_member_windows n seconds).
Proof. apply quiet_swallowing. intros h r. apply set_all_no_send. Qed.

(** The three ways through the gates. *)
Lemma gates_runs on_suppressed n raw h r :
  n_notify_email n = Some raw -> raw <> "" -> runs (gates on_suppressed n) h r ->
  let crosses := crosses_threshold (edge n).1 (edge n).2 (n_notify_min_state n) in
  (no_send h /\ (r = Raise mail_cancelled \/ (r = Ok tt /\ (crosses = false \/ recipients_of raw = [])))) \/
  (exists h1 x, h = h1 ++ [ev (m_send (recipients_of raw) n) x] /\ no_send h1 /\ crosses = true /\ (r = Ok tt \/ r = Raise mail_cancelled)) \/
  (exists h2, h = ev (m_set_nx (notice_key n) (window_minutes * 60)) (Ok false) :: h2 /\ crosses = true /\
     (0 < window_minutes)%Z /\ (edge n).2 ∈ SUPPRESSIBLE_STATES /\ runs on_suppressed h2 r).
Proof.
  intros Hraw Hne. unfold notify_gates. rewrite Hraw. destruct raw as [|c raw]; [done|]. destruct (edge n) as [previous current]. cbn [fst snd].
  set (crosses := crosses_threshold previous current (n_notify_min_state n)). intros Hr. cbv zeta.
  apply runs_after in Hr as (h0 & h' & a & -> & H0 & Hr).
  assert (no_send h0 /\ (a = Ok tt \/ a = Raise mail_cancelled) /\ (bool_decide (current ∈ SUPPRESSIBLE_STATES) = true -> h0 = [])) as (Hq0 & Ha & Hemp).
  { destruct (_ && negb _) eqn:E.
    - destruct (quiet_clear n _ _ H0) as [Hq [[[] ->]| ->]]; (split; [done|]); (split; [by auto|]); intros Hs; rewrite Hs, andb_false_r in E; done.
    - destruct H0 as [-> ->]. by repeat constructor. }
  destruct Ha as [-> | ->]; [|destruct Hr as [-> ->]; left; rewrite app_nil_r; split; [done|by left]].
  destruct crosses eqn:Ec; cbn [negb] in Hr; [|destruct Hr as [-> ->]; left; rewrite app_nil_r; split; [done|by right; auto]].
  apply runs_after in Hr as (h1 & h2 & a & -> & H1 & Hr).
  assert (no_send h1 /\ (is_Ok a \/ a = Raise mail_cancelled) /\
    (a = Ok false -> h1 = [ev (m_set_nx (notice_key n) (window_minutes * 60)) (Ok false)] /\ (0 < window_minutes)%Z /\ current ∈ SUPPRESSIBLE_STATES)) as (Hq1 & Ha & Hclaim).
  { destruct ((0 <? window_minutes)%Z && _) eqn:E.
    - apply andb_true_iff in E as [Ew%Z.ltb_lt Es%bool_decide_eq_true]. apply swallowing_runs in H1 as (r0 & (x & h3 & -> & [-> ->]) & ->).
      split; [by repeat constructor|]. split; [destruct x as [b|[|]]; [left; by eexists|left; by eexists|by right]|].
      destruct x as [b|[|]]; [intros [= ->]|done|done]. by split_and!.
    - destruct H1 as [-> ->]. split; [constructor|]. split; [left; by eexists|done]. }
  destruct Ha as [[claimed ->]| ->]; [|destruct Hr as [-> ->]; left; rewrite app_nil_r; split; [by apply Forall_app|by left]].
  destruct claimed; cbn [negb] in Hr.
  2:{ right; right. destruct (Hclaim eq_refl) as (-> & Hw & Hs). exists h2. rewrite Hemp by (by apply bool_decide_eq_true). by split_and!. }
  apply runs_after in Hr as (h3 & h4 & a & -> & H3 & Hr).
  assert (no_send h3 /\ (a = Ok tt \/ a = Raise mail_cancelled)) as [Hq3 Ha].
  { destruct (_ && negb _); [|destruct H3 as [-> ->]; by repeat constructor].
    destruct (quiet_windows n _ _ _ H3) as [Hq [[[] ->]| ->]]; auto. }
  destruct Ha as [-> | ->]; [|destruct Hr as [-> ->]; left; rewrite app_nil_r; split; [unfold no_send in *; by rewrite !Forall_app|by left]].
  set (rs := recipients_of (String c raw)) in *. destruct rs as [|to rs'] eqn:Ers.
  { destruct Hr as [-> ->]. left. rewrite app_nil_r. split; [unfold no_send in *; by rewrite !Forall_app|]. right. by auto. }
  apply swallowing_runs in Hr as (r0 & (x & h5 & -> & Hr) & ->). right; left. exists (h0 ++ h1 ++ h3), x.
  destruct x as [b|e]; cbn [after] in Hr; destruct Hr as [-> ->]; (split; [by rewrite <- !app_assoc|]); (split; [unfold no_send in *; by rewrite !Forall_app|]); (split; [done|]); [by left|destruct e; auto].
Qed.

Lemma in_turn_runs (l : list (mail unit)) h r : runs (in_turn l) h r -> (forall c h r, c ∈ l -> runs c h r -> r = Ok tt \/ r = Raise mail_cancelled) ->
  (r = Ok tt \/ r = Raise mail_cancelled) /\ (forall e, e ∈ h -> exists c h0 r0, c ∈ l /\ runs c h0 r0 /\ e ∈ h0) /\
  (r = Ok tt -> forall c, c ∈ l -> exists h0, runs c h0 (Ok tt) /\ h0 ⊆ h).
Proof.
  revert h. induction l as [|c l IH]; intros h Hr Hl.
  { destruct Hr as [-> ->]. split; [by left|]. split; [by intros e ?%elem_of_nil|by intros _ c ?%elem_of_nil]. }
  apply runs_after in Hr as (h1 & h2 & a & -> & H1 & Hr). destruct (Hl c h1 a (list_elem_of_here _ _) H1) as [-> | ->].
  - destruct (IH h2 Hr) as (Hres & Hev & Hall); [intros c1 h1' r1 Hc1 Hrun; apply (Hl c1 h1' r1); [by right|done]|]. split; [done|]. split.
    + intros e [He|He]%elem_of_app; [exists c, h1, (Ok tt); split; [by left|done]|]. destruct (Hev e He) as (c' & h0 & r0 & ? & ? & ?).
      exists c', h0, r0. split; [by right|done].
    + intros Hok c' [->|Hc']%elem_of_cons; [exists h1; split; [done|]; intros e He; apply elem_of_app; by left|].
      destruct (Hall Hok c' Hc') as (h0 & ? & Hsub). exists h0. split; [done|]. intros e He. apply elem_of_app. right. by apply Hsub.
  - destruct Hr as [-> ->]. split; [by right|]. split; [|done]. rewrite app_nil_r. intros e He. exists c, h1, (Raise mail_cancelled). split; [by left|done].
Qed.

Lemma gates_in_turn n raw h r :
  n_notify_email n = Some raw -> raw <> "" -> n_member_change n = None -> recipients_of raw <> [] ->
  runs (notify_dashboard_transition recipient_allowed window_minutes n) h r ->
  let mailed m := exists x, ev (m_send (recipients_of raw) m) x ∈ h in
  let damped m := (0 < window_minutes)%Z /\ (edge m).2 ∈ SUPPRESSIBLE_STATES /\
    ev (m_set_nx (notice_key m) (window_minutes * 60)) (Ok false) ∈ h in
  let crosses m := crosses_threshold (edge m).1 (edge m).2 (n_notify_min_state m) = true in
  (r = Ok tt \/ r = Raise mail_cancelled) /\
  (r = Ok tt -> crosses n -> mailed n \/
     (damped n /\ forall c, c ∈ n_member_changes n -> crosses (member_notice n c) -> mailed (member_notice n c) \/ damped (member_notice n c))) /\
  (forall to m x, ev (m_send to m) x ∈ h -> to = recipients_of raw /\ crosses m /\
     (m = n \/ exists c, c ∈ n_member_changes n /\ m = member_notice n c)).
Proof.
  intros Hraw Hne Hmc Hrec Hr mailed damped crosses. unfold notify_dashboard_transition in Hr.
  assert (forall h to m x, no_send h -> ev (m_send to m) x ∈ h -> False) as Hns.
  { intros h0 to m x Hq He. unfold no_send in Hq. rewrite Forall_forall in Hq. by specialize (Hq _ He). }
  assert (forall A (e : A) l, e ∈ l ++ [e]) as Hlast by (intros; apply elem_of_app; right; by left).
  apply (gates_runs _ _ raw) in Hr as [[Hq Hres]|[(h1 & x & -> & Hq & Hc & Hres)|(h2 & -> & Hc & Hw & Hs & Hr)]]; [| | |done|done].
  - split; [naive_solver|]. split; [|intros to m x He; by destruct (Hns _ _ _ _ Hq He)].
    intros -> Hcr. destruct Hres as [[=]|[_ [Hf|Hf]]]; [by unfold crosses in Hcr; rewrite Hf in Hcr|done].
  - split; [naive_solver|]. split; [intros _ _; left; by exists x|].
    intros to m y [He|He%list_elem_of_singleton]%elem_of_app; [by destruct (Hns _ _ _ _ Hq He)|].
    apply (f_equal (fun e => projT1 e)) in He. cbn in He. injection He as -> ->. split; [done|]. split; [done|by left].
  - assert (forall c, c ∈ n_member_changes n -> n_notify_email (member_notice n c) = Some raw) as Hmail by done.
    apply in_turn_runs in Hr as (Hres & Hev & Hall).
    2:{ intros c h r' (mc & -> & _)%list_elem_of_fmap Hrun. apply (gates_runs _ _ raw) in Hrun as [[_ Hx]|[(? & ? & _ & _ & _ & Hx)|(? & _ & _ & _ & _ & [-> ->])]];
          [naive_solver|done|by left|done|done]. }
    split; [done|]. split.
    + intros Hok Hcr. right. split; [split_and!; try done; by left|]. intros c Hcin Hcc.
      destruct (Hall Hok (gates (mret tt) (member_notice n c))) as (h0 & Hrun & Hsub); [apply list_elem_of_fmap; by exists c|].
      apply (gates_runs _ _ raw) in Hrun as [[_ [[=]|[_ [Hf|Hf]]]]|[(h1 & x & -> & _)|(h3 & -> & _ & Hw' & Hs' & _)]];
        [by unfold crosses in Hcc; rewrite Hf in Hcc|done| | |done|done].
      * left. exists x. right. by apply Hsub.
      * right. split_and!; [done|done|]. right. apply Hsub. by left.
    + intros to m x [He|He]%elem_of_cons; [by apply (f_equal (fun e => projT1 e)) in He|].
      destruct (Hev _ He) as (c & h0 & r0 & (mc & -> & Hmcin)%list_elem_of_fmap & Hrun & Hin).
      apply (gates_runs _ _ raw) in Hrun as [[Hq _]|[(h1 & y & -> & Hq & Hcm & _)|(h3 & -> & _ & _ & _ & [-> ->])]]; [| | |done|done].
      * by destruct (Hns _ _ _ _ Hq Hin).
      * apply elem_of_app in Hin as [Hin|Hin%list_elem_of_singleton]; [by destruct (Hns _ _ _ _ Hq Hin)|].
        apply (f_equal (fun e => projT1 e)) in Hin. cbn in Hin. injection Hin as -> ->. split; [done|]. split; [done|]. right. by exists mc.
      * apply list_elem_of_singleton in Hin. by apply (f_equal (fun e => projT1 e)) in Hin.
Qed.
(** ** In the words of the operator *)

(** The mail field is a list separated by commas; the entries that are not blank and
    that the deployment allows are its recipients. *)
Inductive mailing_list : list string -> list string -> Prop :=
| ml_nil : mailing_list [] []
| ml_take e entries to : py_strip e <> "" -> recipient_allowed (py_strip e) = true -> mailing_list entries to ->
    mailing_list (e :: entries) (py_strip e :: to)
| ml_skip e entries to : py_strip e = "" \/ recipient_allowed (py_strip e) = false -> mailing_list entries to ->
    mailing_list (e :: entries) to.

(** An edge reaches the floor when the worse of its two states does. *)
Definition reaches_floor (floor : SensorSeverity) (previous current : CheckState) : Prop :=
  match floor with
  | sev_degraded => previous ∈ [unknown; degraded; critical] \/ current ∈ [unknown; degraded; critical]
  | sev_critical => previous = critical \/ current = critical
  end.

(** The window of a dashboard in a state, and that of a member. *)
Definition window_of (n : DashboardNotice) (member : option string) (st : CheckState) : string :=
  "meho:checks:notify:" +:+ n_tenant_id n +:+ ":" +:+ n_dashboard_id n +:+
  (match member with Some s => ":member:" +:+ s | None => "" end) +:+ ":" +:+ state_name st.

Lemma mailing_list_spec entries to :
  mailing_list entries to -> List.filter recipient_allowed (List.filter (fun e => negb (bool_decide (e = ""))) (py_strip <$> entries)) = to.
Proof.
  induction 1 as [|e entries to Hne Ha _ IH|e entries to Hs _ IH]; [done|..]; rewrite fmap_cons; cbn [List.filter].
  - rewrite bool_decide_false by done. cbn [negb List.filter]. by rewrite Ha, IH.
  - case_bool_decide as He; cbn [negb List.filter]; [done|]. destruct Hs as [|Hs]; [done|]. by rewrite Hs.
Qed.

Lemma reaches_floor_spec floor previous current :
  reaches_floor floor previous current <-> crosses_threshold previous current floor = true.
Proof.
  unfold reaches_floor, crosses_threshold. destruct floor, previous, current; cbn; set_solver.
Qed.

Lemma notice_key_window n : notice_key n = window_of n (c_sensor_id <$> n_member_change n) (edge n).2.
Proof.
  unfold notice_key, suppression_key, window_of. destruct (n_member_change n) as [c|]; cbn [fmap option_fmap option_map]; [|done].
  by rewrite !string_app_assoc.
Qed.

(** C38. No alert is lost.  A send of a notice that reaches the floor of its dashboard is
    attempted, to every allowed recipient, whatever fails on the way, unless the window
    of the dashboard in this very state was claimed before; then one is attempted for
    each member whose own edge reaches the floor, unless its window was claimed too.
    A recovery has no window.  Nothing else is sent, to nobody else, and only a
    cancellation is raised.  The windows bound attempts: a send that fails is not made
    again. *)
Theorem alerts_are_not_lost n raw to h r :
  n_notify_email n = Some raw -> raw <> "" -> n_member_change n = None -> mailing_list (split_on "," raw) to -> to <> [] ->
  runs (notify_dashboard_transition recipient_allowed window_minutes n) h r ->
  let attempted m := exists x, ev (m_send to m) x ∈ h in
  let damped member st := (0 < window_minutes)%Z /\ st ∈ [unknown; degraded; critical] /\
    ev (m_set_nx (window_of n member st) (window_minutes * 60)) (Ok false) ∈ h in
  let reaches := reaches_floor (n_notify_min_state n) in
  (r = Ok tt \/ r = Raise mail_cancelled) /\
  (r = Ok tt -> reaches (n_previous_state n) (n_current_state n) -> attempted n \/
     (damped None (n_current_state n) /\
      forall c, c ∈ n_member_changes n -> reaches (c_previous_state c) (c_current_state c) ->
        attempted (member_notice n c) \/ damped (Some (c_sensor_id c)) (c_current_state c))) /\
  (forall to' m x, ev (m_send to' m) x ∈ h -> to' = to /\
     ((m = n /\ reaches (n_previous_state n) (n_current_state n)) \/
      exists c, c ∈ n_member_changes n /\ m = member_notice n c /\ reaches (c_previous_state c) (c_current_state c))).
Proof.
  intros Hraw Hne Hmc Hto%mailing_list_spec Hrec Hr attempted damped reaches. subst to. subst reaches.
  destruct (gates_in_turn n raw h r Hraw Hne Hmc Hrec Hr) as (Hres & Hall & Hsent).
  rewrite notice_key_window in Hall. unfold edge in Hall at 1 2 3 4. rewrite Hmc in Hall. cbn [fst snd] in Hall.
  setoid_rewrite reaches_floor_spec. split; [done|]. split.
  - intros Hok Hc. destruct (Hall Hok Hc) as [?|[Hd Hm]]; [by left|right]. split; [done|]. intros c Hin Hcc.
    destruct (Hm c Hin Hcc) as [?|Hdm]; [by left|right]. by rewrite notice_key_window in Hdm.
  - intros to' m x He. destruct (Hsent to' m x He) as (-> & Hc & Hm). split; [done|].
    destruct Hm as [->|(c & Hin & ->)]; [left|right; by exists c]. unfold edge in Hc. by rewrite Hmc in Hc.
Qed.
End Alerts.

(** The window of the dashboard was claimed; the window of a member cannot be asked for,
    so its mail goes out, to the one recipient that is allowed. *)
Lemma alerts_are_not_lost_witness :
  let member := {| m_sensor_id := "s1"; m_name := "disk"; m_effective_state := critical; m_last_value := JNull; m_last_evidence := None |} in
  let change := {| c_sensor_id := "s1"; c_name := "disk"; c_previous_state := ok; c_current_state := critical |} in
  let n := {| n_tenant_id := "t"; n_dashboard_id := "d"; n_name := "web"; n_previous_state := ok; n_current_state := critical;
              n_notify_email := Some "a@example.org, b@example.org"; n_notify_min_state := sev_critical; n_members := [member];
              n_member_change := None; n_member_changes := [change] |} in
  let h := [ev (m_set_nx "meho:checks:notify:t:d:critical" 1800) (Ok false);
            ev (m_set_nx "meho:checks:notify:t:d:member:s1:critical" 1800) (Raise mail_exception);
            ev (m_send ["a@example.org"] (member_notice n change)) (Ok true)] in
  let allowed r := bool_decide (r = "a@example.org") in
  runs (notify_dashboard_transition allowed 30 n) h (Ok tt) /\
  forall to m x, ev (m_send to m) x ∈ h -> to = ["a@example.org"] /\ m = member_notice n change.
Proof.
  intros member change n h allowed.
  assert (runs (notify_dashboard_transition allowed 30 n) h (Ok tt)) as Hr.
  { do 3 (eexists _, _; split; [reflexivity|]). by split. }
  assert (mailing_list allowed (split_on "," "a@example.org, b@example.org") ["a@example.org"]) as Hl.
  { change (split_on "," "a@example.org, b@example.org") with ["a@example.org"; " b@example.org"].
    apply (ml_take allowed "a@example.org" [" b@example.org"] []); [done|done|]. apply ml_skip; [by right|constructor]. }
  split; [exact Hr|]. intros to m x He.
  destruct (alerts_are_not_lost allowed 30 n "a@example.org, b@example.org" ["a@example.org"] h (Ok tt) eq_refl) as (_ & _ & Hsent);
    [done|done|exact Hl|done|exact Hr|].
  destruct (Hsent to m x He) as [-> Hm]. split; [done|].
  destruct Hm as [[-> _]|(c & ->%list_elem_of_singleton & -> & _)]; [|done].
  apply elem_of_cons in He as [He|[He|He%list_elem_of_singleton]%elem_of_cons]; apply (f_equal (fun e => projT1 e)) in He; by cbn in He.
Defined.
