(* ===== verification/Scheduler.v ===== *)
(** Scheduled triggers ([scheduler/repository.py], [scheduler/loop.py],
    [scheduler/service.py]): the table with its conditional updates, the tick that
    fires due rows, and the admin calls that create and cancel them. *)

From stdpp Require Import pretty.
From S2P Require Import Prelude Json Programs Cron WireText.

(** * Rows *)

Inductive TriggerKind := CRON | ONE_OFF | EVENT.
Inductive TriggerStatus := ACTIVE | PAUSED | CANCELLED | FIRED.
Inductive InFlightPolicy := RESUME | FAIL_INTO_AUDIT.
#[export] Instance TriggerKind_eq_dec : EqDecision TriggerKind.
Proof. solve_decision. Defined.
#[export] Instance TriggerStatus_eq_dec : EqDecision TriggerStatus.
Proof. solve_decision. Defined.

Record ScheduledTrigger := {
  id : string;
  tenant_id : string;
  agent_definition_id : string;
  kind : TriggerKind;
  cron_expr : option string;
  timezone : string;
  fire_at : option Z;
  event_filter : option json_dict;
  status : TriggerStatus;
  in_flight_policy : InFlightPolicy;
  next_fire_at : option Z;
  last_fired_at : option Z;
  last_skip_reason : option string;
  last_skipped_at : option Z;
  skip_count : nat;
  inputs : option json_dict;
  identity_sub : string;
  created_by_sub : string;
  work_ref : option string;
}.

(** Writing the columns of the fire, and those of the skips. *)
Definition with_fire (st : TriggerStatus) (next fired : option Z) (r : ScheduledTrigger) : ScheduledTrigger := {|
  id := id r; tenant_id := tenant_id r; agent_definition_id := agent_definition_id r; kind := kind r; cron_expr := cron_expr r;
  timezone := timezone r; fire_at := fire_at r; event_filter := event_filter r; status := st; in_flight_policy := in_flight_policy r;
  next_fire_at := next; last_fired_at := fired; last_skip_reason := last_skip_reason r; last_skipped_at := last_skipped_at r;
  skip_count := skip_count r; inputs := inputs r; identity_sub := identity_sub r; created_by_sub := created_by_sub r;
  work_ref := work_ref r |}.

Definition with_skip (st : TriggerStatus) (count : nat) (reason : option string) (at_ : option Z) (r : ScheduledTrigger) : ScheduledTrigger := {|
  id := id r; tenant_id := tenant_id r; agent_definition_id := agent_definition_id r; kind := kind r; cron_expr := cron_expr r;
  timezone := timezone r; fire_at := fire_at r; event_filter := event_filter r; status := st; in_flight_policy := in_flight_policy r;
  next_fire_at := next_fire_at r; last_fired_at := last_fired_at r; last_skip_reason := reason; last_skipped_at := at_;
  skip_count := count; inputs := inputs r; identity_sub := identity_sub r; created_by_sub := created_by_sub r;
  work_ref := work_ref r |}.

(** * The statements on the table *)

Inductive TriggerUpdate :=
| u_advance (i : string) (previous : option Z) (new fired : Z)
| u_mark_fired (i : string) (previous : option Z) (fired : Z)
| u_record_skip (i : string) (count : nat) (reason : string) (at_ : Z) (park : bool)
| u_park (i reason : string) (at_ : Z)
| u_cancel (tenant i : string)
| u_insert (r : ScheduledTrigger).

Definition has_id (i : string) (r : ScheduledTrigger) : bool := bool_decide (id r = i).
Definition is_active (i : string) (r : ScheduledTrigger) : bool := has_id i r && bool_decide (status r = ACTIVE).

(** [WHERE id AND status = 'active' AND next_fire_at = :previous], which no NULL
    satisfies. *)
Definition still_due (i : string) (previous : option Z) (r : ScheduledTrigger) : bool :=
  is_active i r && match previous, next_fire_at r with Some t, Some u => bool_decide (u = t) | _, _ => false end.

Definition cancellable (tenant i : string) (r : ScheduledTrigger) : bool :=
  has_id i r && bool_decide (tenant_id r = tenant) && bool_decide (status r = ACTIVE \/ status r = PAUSED).

Definition table := list ScheduledTrigger.

Definition update_rows (p : ScheduledTrigger -> bool) (f : ScheduledTrigger -> ScheduledTrigger) (t : table) : table * bool :=
  (update_where p f t, existsb p t).

(** The table after a statement, and whether a row matched. *)
Definition apply_update (u : TriggerUpdate) (t : table) : table * bool :=
  match u with
  | u_advance i previous new fired => update_rows (still_due i previous) (fun r => with_fire (status r) (Some new) (Some fired) r) t
  | u_mark_fired i previous fired => update_rows (still_due i previous) (fun r => with_fire FIRED (next_fire_at r) (Some fired) r) t
  | u_record_skip i count reason at_ park =>
      update_rows (is_active i) (fun r => with_skip (if park then PAUSED else status r) count (Some reason) (Some at_) r) t
  | u_park i reason at_ => update_rows (has_id i) (fun r => with_skip PAUSED (skip_count r) (Some reason) (Some at_) r) t
  | u_cancel tenant i => update_rows (cancellable tenant i) (fun r => with_fire CANCELLED (next_fire_at r) (last_fired_at r) r) t
  | u_insert r => if existsb (has_id (id r)) t then (t, false) else (t ++ [r], true)
  end.

Definition clear_skip (i : string) (t : table) : table := update_where (has_id i) (fun r => with_skip (status r) 0 None None r) t.

Definition is_due (now : Z) (r : ScheduledTrigger) : bool :=
  bool_decide (status r = ACTIVE) && match next_fire_at r with Some t => (t <=? now)%Z | None => false end.

Definition fire_le (a b : ScheduledTrigger) : Prop := (default 0 (next_fire_at a) <= default 0 (next_fire_at b))%Z.
#[export] Instance fire_le_dec a b : Decision (fire_le a b) := Z_le_dec _ _.

Definition claim_due_triggers (t : table) (now : Z) (limit : nat) : list ScheduledTrigger :=
  take limit (merge_sort fire_le (select_where (is_due now) t)).

(** * New rows *)

(** What the three kinds have in common. *)
Record TriggerBase := {
  b_id : string;
  b_tenant_id : string;
  b_agent_definition_id : string;
  b_inputs : option json_dict;
  b_identity_sub : string;
  b_created_by_sub : string;
  b_in_flight_policy : InFlightPolicy;
  b_work_ref : option string;
}.

Definition new_trigger (b : TriggerBase) (k : TriggerKind) (expr : option string) (zone : string) (fire : option Z)
  (filter : option json_dict) (next : option Z) : ScheduledTrigger := {|
  id := b_id b; tenant_id := b_tenant_id b; agent_definition_id := b_agent_definition_id b; kind := k; cron_expr := expr;
  timezone := zone; fire_at := fire; event_filter := filter; status := ACTIVE; in_flight_policy := b_in_flight_policy b;
  next_fire_at := next; last_fired_at := None; last_skip_reason := None; last_skipped_at := None; skip_count := 0;
  inputs := b_inputs b; identity_sub := b_identity_sub b; created_by_sub := b_created_by_sub b; work_ref := b_work_ref b |}.

Definition create_one_off_trigger (b : TriggerBase) (run_at : Z) : ScheduledTrigger :=
  new_trigger b ONE_OFF None "UTC" (Some run_at) None (Some run_at).

Definition create_event_trigger (b : TriggerBase) (filter : json_dict) : ScheduledTrigger :=
  new_trigger b EVENT None "UTC" None (Some filter) None.

(** * Outbox rows *)

Record EventOutbox := {
  event_id : nat;
  e_tenant_id : string;
  event_kind : string;
  payload : json_dict;
  claimed_at : option Z;
  claimed_by : option string;
  processed_at : option Z;
  dedupe_key : option string;
  origin : option string;
}.

(** * What the loops call *)

Record ResolvedDefinition := { d_name : string; d_enabled : bool; d_identity_ref : string }.

Record PreparedInvocation := {
  p_name : string;
  p_identity_ref : string;
  p_agent_client_id : string;
  p_agent_client_secret : string;
  p_inputs_str : string;
  p_work_ref : option string;
}.

(** An [UPDATE] or [INSERT] with its commit is one call.  [w_run_scheduled] carries
    the row for the log lines. *)
Inductive WorkOp :=
| w_now
| w_is_draining
| w_advisory_lock (subsystem : string)
| w_lock_connector_usage
| w_claim_due_triggers (now : Z) (limit : nat)
| w_find_definition (definition_id tenant : string)
| w_resolve_agent_credentials (identity_ref tenant : string)
| w_update (u : TriggerUpdate)
| w_clear_skip_state (i : string)
| w_read_status (tenant i : string)
| w_run_scheduled (r : ScheduledTrigger) (p : PreparedInvocation)
| w_claim_unprocessed (limit : nat)
| w_stamp_claim (event_ids : list nat) (now : Z)
| w_event_triggers (tenant : string)
| w_run_exists (tenant : string) (ref : string)
| w_event_prompt (event_kind : string) (payload : json_dict)
| w_mark_processed (i : nat) (now : Z).

(** Credentials that resolve nowhere are [None]; a run answers whether it failed at
    its start. *)
Definition WorkAns (o : WorkOp) : Type :=
  match o with
  | w_now => Z
  | w_is_draining | w_advisory_lock _ | w_update _ | w_run_exists _ _ | w_mark_processed _ _ | w_run_scheduled _ _ => bool
  | w_claim_due_triggers _ _ | w_event_triggers _ => list ScheduledTrigger
  | w_find_definition _ _ => option ResolvedDefinition
  | w_resolve_agent_credentials _ _ => option (string * string)
  | w_lock_connector_usage | w_clear_skip_state _ | w_stamp_claim _ _ => unit
  | w_read_status _ _ => option TriggerStatus
  | w_claim_unprocessed _ => list EventOutbox
  | w_event_prompt _ _ => string
  end.

(** A run that is refused ([AgentNotFoundError], [AgentDisabledError],
    [AgentInvocationError], [BudgetExceededError]) and one without a token; the
    typed errors; an expired row that is read; the cancellation of the task; anything
    else. *)
Inductive WorkFault :=
| run_refused | AgentTokenError | IntegrityError | AgentDefinitionMissingError (definition_id : string)
| cadence_fault (e : CadenceError) | MissingGreenlet | task_cancelled | other_exception (text : string).

Abbreviation work := (action WorkAns WorkFault).

(** [try: ... except Exception], with [None] for an exception. *)
Definition attempt {A} (c : work A) : work (option A) :=
  try_except (a ← c; mret (Some a)) (fun e => match e with task_cancelled => None | _ => Some (mret None) end).

(** * Preparing a run *)

Definition spaced_item (kv : string * string) : string := json_string kv.1 +:+ ": " +:+ kv.2.

(** [json.dumps(v, sort_keys=True)]. *)
Fixpoint dumps (v : json) : string :=
  match v with
  | JList l => "[" +:+ join ", " ((fix go l := match l with [] => [] | x :: l' => dumps x :: go l' end) l) +:+ "]"
  | JDict d =>
      let items := (fix go d := match d with [] => [] | (k, x) :: d' => (k, dumps x) :: go d' end) d in
      "{" +:+ join ", " (spaced_item <$> sort_items items) +:+ "}"
  | _ => json_dumps v
  end.

Definition coerce_inputs (i : option json_dict) : string :=
  match i with
  | None => ""
  | Some d => match dict_get "prompt" d with Some (JStr s) => s | _ => dumps (JDict d) end
  end.

Definition SKIP_DEFINITION_MISSING : string := "definition_missing".
Definition SKIP_DEFINITION_DISABLED : string := "definition_disabled".
Definition SKIP_CREDENTIALS_UNRESOLVED : string := "credentials_unresolved".

(** A run to start, or the reason to skip. *)
Definition prepare_invocation (row : ScheduledTrigger) : work (PreparedInvocation + string) :=
  definition ← invoke (w_find_definition (agent_definition_id row) (tenant_id row));
  match definition with
  | None => mret (inr SKIP_DEFINITION_MISSING)
  | Some d =>
      if negb (d_enabled d) then mret (inr SKIP_DEFINITION_DISABLED)
      else
        credentials ← invoke (w_resolve_agent_credentials (d_identity_ref d) (tenant_id row));
        mret match credentials with
             | None => inr SKIP_CREDENTIALS_UNRESOLVED
             | Some (client_id, client_secret) => inl {|
                 p_name := d_name d; p_identity_ref := d_identity_ref d; p_agent_client_id := client_id;
                 p_agent_client_secret := client_secret; p_inputs_str := coerce_inputs (inputs row); p_work_ref := work_ref row |}
             end
  end.

(** Refusals and missing tokens are swallowed; a run that failed at its start counts
    as fired. *)
Definition dispatch_invocation (row : ScheduledTrigger) (p : PreparedInvocation) : work bool :=
  try_except (_ ← invoke (w_run_scheduled row p); mret true)
    (fun e => match e with run_refused | AgentTokenError => Some (mret false) | _ => None end).

Definition PARK_AFTER_CONSECUTIVE_SKIPS : nat := 10.

Definition record_skip (row : ScheduledTrigger) (reason : string) : work unit :=
  now ← invoke w_now;
  let new_count := S (skip_count row) in
  _ ← invoke (w_update (u_record_skip (id row) new_count reason now (Nat.leb PARK_AFTER_CONSECUTIVE_SKIPS new_count)));
  mret tt.

Definition park_trigger (i reason : string) : work unit :=
  now ← invoke w_now; _ ← invoke (w_update (u_park i reason now)); mret tt.

(** * A tick *)

Definition CLAIM_BATCH_LIMIT : nat := 50.

(** What became of a row: a run, no run, or an exception that the loop logs. *)
Inductive RowEnd := row_fired | row_left | row_failed.

(** A step of a row.  [in_txn] says whether the session has a transaction open when
    the step raises. *)
Definition step {A} (in_txn : bool) (c : work A) (k : A -> work (bool * RowEnd)) : work (bool * RowEnd) :=
  x ← attempt c; match x with None => mret (in_txn, row_failed) | Some a => k a end.

Section Tick.
Context `{CronLibrary}.

(** The statements that take a row for a fire; a cron row without an expression is not
    advanced. *)
Definition advance_cron_trigger (row : ScheduledTrigger) (fire_instant : Z) : res CadenceError (option TriggerUpdate) :=
  match cron_expr row with
  | None => Ok None
  | Some expr => new_next ← next_fire_after expr fire_instant (timezone row);
                 Ok (Some (u_advance (id row) (next_fire_at row) new_next fire_instant))
  end.

Definition mark_one_off_fired (row : ScheduledTrigger) (fire_instant : Z) : TriggerUpdate :=
  u_mark_fired (id row) (next_fire_at row) fire_instant.

Definition fire_update (row : ScheduledTrigger) (fire_instant : Z) : res CadenceError (option TriggerUpdate) :=
  match kind row with
  | CRON => advance_cron_trigger row fire_instant
  | ONE_OFF => Ok (Some (mark_one_off_fired row fire_instant))
  | EVENT => Ok None
  end.

(** [_fire_cron] and [_fire_one_off], which differ in their statement. *)
Definition fire_row (in_txn : bool) (row : ScheduledTrigger) (fire_instant : Z) : work (bool * RowEnd) :=
  step in_txn (prepare_invocation row) (fun prepared =>
  match prepared with
  | inr reason => step true (record_skip row reason) (fun _ => mret (false, row_left))
  | inl p =>
      step in_txn (invoke w_is_draining) (fun stopping =>
      if stopping then mret (in_txn, row_left)
      else
        let skipped := Nat.ltb 0 (skip_count row) in
        step true (if skipped then invoke (w_clear_skip_state (id row)) else mret tt) (fun _ =>
        match fire_update row fire_instant with
        | Raise (InvalidCronExpression expr) =>
            step true (park_trigger (id row) ("invalid_cron_expr:" +:+ py_repr expr)) (fun _ => mret (false, row_left))
        | Raise _ => mret (in_txn || skipped, row_failed)
        | Ok None => mret (in_txn || skipped, row_left)
        | Ok (Some u) =>
            step true (invoke (w_update u)) (fun matched =>
            if negb matched then mret (true, row_left)
            else step false (dispatch_invocation row p) (fun fired => mret (false, if fired then row_fired else row_left)))
        end))
  end).

(** A due row of a kind that has no due time is corrupt. *)
Definition tick_row (in_txn : bool) (now : Z) (row : ScheduledTrigger) : work (bool * RowEnd) :=
  match kind row with
  | CRON | ONE_OFF => fire_row in_txn row now
  | EVENT => step true (park_trigger (id row) "unknown_kind:'event'") (fun _ => mret (false, row_left))
  end.

(** The [for] over the claimed rows.  The rollback after a failed row expires every
    row of the session if a transaction was open: the next row cannot be read, nor
    named in the log line about that, and the tick raises. *)
Fixpoint tick_rows (in_txn : bool) (now : Z) (fires : nat) (rows : list ScheduledTrigger) : work nat :=
  match rows with
  | [] => mret fires
  | row :: rest =>
      stopping ← invoke w_is_draining;
      if (stopping : bool) then mret fires
      else
        outcome ← tick_row in_txn now row;
        match outcome with
        | (t, row_fired) => tick_rows t now (S fires) rest
        | (t, row_left) => tick_rows t now fires rest
        | (t, row_failed) =>
            if t && negb (bool_decide (rest = [])) then _ ← invoke w_is_draining; throw MissingGreenlet
            else tick_rows false now fires rest
        end
  end.

Definition run_one_tick : work nat :=
  stopping ← invoke w_is_draining;
  if (stopping : bool) then mret 0
  else
    locked ← invoke (w_advisory_lock "scheduler");
    if negb (locked : bool) then mret 0
    else
      now ← invoke w_now;
      rows ← invoke (w_claim_due_triggers now CLAIM_BATCH_LIMIT);
      tick_rows true now 0 rows.

(** * The admin service *)

(** The body of a create request. *)
Record TriggerCreate := {
  c_base : TriggerBase;
  c_kind : TriggerKind;
  c_cron_expr : option string;
  c_fire_at : option Z;
  c_event_filter : option json_dict;
  c_timezone : string;
}.

Definition payload_yields_prompt (i : option json_dict) : bool :=
  match i with
  | None | Some [] => false
  | Some d => match dict_get "prompt" d with Some (JStr s) => negb (bool_decide (py_strip s = "")) | _ => true end
  end.

(** [prompt_is_effectively_empty], the guard when a run starts. *)
Definition prompt_is_effectively_empty (prompt : string) : bool := bool_decide (py_strip prompt = "").

Inductive PayloadError :=
| needs_cron_expr | needs_fire_at | needs_event_filter | fields_of_another_kind | invalid_cron | invalid_zone (e : CadenceError)
| no_prompt.

Definition require_cron_fields (m : TriggerCreate) : res PayloadError unit :=
  match c_cron_expr m with
  | None | Some "" => Raise needs_cron_expr
  | Some expr =>
      if negb (bool_decide (c_fire_at m = None)) || (if c_event_filter m then true else false) then Raise fields_of_another_kind
      else if negb (is_valid_cron_expr expr) then Raise invalid_cron
      else match resolve_timezone (c_timezone m) with Raise e => Raise (invalid_zone e) | Ok _ => Ok tt end
  end.

Definition require_one_off_fields (m : TriggerCreate) : res PayloadError unit :=
  match c_fire_at m with
  | None => Raise needs_fire_at
  | Some _ => if c_cron_expr m then Raise fields_of_another_kind else if c_event_filter m then Raise fields_of_another_kind else Ok tt
  end.

Definition require_event_fields (m : TriggerCreate) : res PayloadError unit :=
  match c_event_filter m with
  | None => Raise needs_event_filter
  | Some _ => if c_cron_expr m then Raise fields_of_another_kind else if c_fire_at m then Raise fields_of_another_kind else Ok tt
  end.

(** [_validate_discriminated_union] *)
Definition validate_create (m : TriggerCreate) : res PayloadError unit :=
  match c_kind m with
  | CRON => _ ← require_cron_fields m; guard_or no_prompt (payload_yields_prompt (b_inputs (c_base m)))
  | ONE_OFF => _ ← require_one_off_fields m; guard_or no_prompt (payload_yields_prompt (b_inputs (c_base m)))
  | EVENT => require_event_fields m
  end.

Definition create_cron_trigger (b : TriggerBase) (expr zone : string) (base : Z) : res CadenceError ScheduledTrigger :=
  next_fire ← next_fire_after expr base zone; Ok (new_trigger b CRON (Some expr) zone None None (Some next_fire)).

(** The new row; [None] where an [assert] fails. *)
Definition row_of (m : TriggerCreate) (base : Z) : option (res CadenceError ScheduledTrigger) :=
  match c_kind m with
  | CRON => (fun expr => create_cron_trigger (c_base m) expr (c_timezone m) base) <$> c_cron_expr m
  | ONE_OFF => (fun fire => Ok (create_one_off_trigger (c_base m) fire)) <$> c_fire_at m
  | EVENT => (fun filter => Ok (create_event_trigger (c_base m) filter)) <$> c_event_filter m
  end.

Definition create (m : TriggerCreate) : work ScheduledTrigger :=
  let b := c_base m in
  _ ← invoke w_lock_connector_usage;
  definition ← invoke (w_find_definition (b_agent_definition_id b) (b_tenant_id b));
  if negb (bool_decide (is_Some (definition : option ResolvedDefinition))) then throw (AgentDefinitionMissingError (b_agent_definition_id b))
  else
    base ← (if bool_decide (c_kind m = CRON) then invoke w_now else mret 0%Z : work Z);
    match row_of m base with
    | None => throw (other_exception "AssertionError")
    | Some (Raise e) => throw (cadence_fault e)
    | Some (Ok row) =>
        try_except (_ ← invoke (w_update (u_insert row)); mret row)
          (fun e => match e with IntegrityError => Some (throw (AgentDefinitionMissingError (b_agent_definition_id b))) | _ => None end)
    end.
End Tick.

Definition cancel (tenant i : string) : work bool :=
  current ← invoke (w_read_status tenant i);
  match current with
  | None => mret false
  | Some CANCELLED => mret true
  | Some FIRED => mret false
  | Some (ACTIVE | PAUSED) =>
      matched ← invoke (w_update (u_cancel tenant i));
      if (matched : bool) then mret true
      else
        post_race ← invoke (w_read_status tenant i);
        mret (bool_decide (post_race = Some CANCELLED))
  end.
