(* ===== verification/SchedulerProofs.v ===== *)
(** Scheduled work runs at most once, in every interleaving of the ticks of any number
    of pods, each of which may stop anywhere, and of the admin calls; and the rows of
    the table keep the shape of their kind. *)

From S2P Require Import Prelude Json Programs Cron WireText Scheduler.

(** * Histories *)

Abbreviation call := (event WorkAns WorkFault).

Definition count (p : call -> bool) (h : list call) : nat := length (List.filter p h).

Lemma count_app p h h' : count p (h ++ h') = count p h + count p h'.
Proof. unfold count. by rewrite List.filter_app, length_app. Qed.

Lemma count_one p e : count p [e] = if p e then 1 else 0.
Proof. unfold count. simpl. by destruct (p e). Qed.

Lemma count_cons p e h : count p (e :: h) = (if p e then 1 else 0) + count p h.
Proof. unfold count. simpl. by destruct (p e). Qed.

(** A call that starts a run of a row that [f] picks; a statement that [g] picks and
    that matched a row. *)
Definition is_run (f : ScheduledTrigger -> bool) (e : call) : bool :=
  match projT1 e with w_run_scheduled r _ => f r | _ => false end.

Definition is_win (g : TriggerUpdate -> bool) (e : call) : bool :=
  let '(existT o x) := e in
  match o return res WorkFault (WorkAns o) -> bool with
  | w_update u => fun x => match x with Ok true => g u | _ => false end
  | _ => fun _ => false
  end x.

(** Every claim was answered with due rows. *)
Definition claim_is_due (e : call) : Prop :=
  let '(existT o x) := e in
  match o return res WorkFault (WorkAns o) -> Prop with
  | w_claim_due_triggers now _ => fun x => match x with Ok rows => Forall (fun r => is_due now r = true) rows | Raise _ => True end
  | _ => fun _ => True
  end x.

(** * Rows of their kind

    The table's check constraint, the prompt that a run needs, and the due time. *)
Definition row_ok (r : ScheduledTrigger) : Prop :=
  match kind r with
  | CRON => is_Some (cron_expr r) /\ fire_at r = None /\ event_filter r = None /\ is_Some (next_fire_at r)
  | ONE_OFF => cron_expr r = None /\ is_Some (fire_at r) /\ event_filter r = None /\ is_Some (next_fire_at r)
  | EVENT => cron_expr r = None /\ fire_at r = None /\ is_Some (event_filter r) /\ next_fire_at r = None
  end /\
  (kind r <> EVENT -> prompt_is_effectively_empty (coerce_inputs (inputs r)) = false).

Section Calls.
Context `{LL : CronLibraryLaws}.

(** * What a session may call

    [f] picks rows and [g] the statements that take them. *)
Section Sessions.
Context (f : ScheduledTrigger -> bool) (g : TriggerUpdate -> bool).
Hypothesis advance_picked : forall r new fired, kind r = CRON -> f r = true -> g (u_advance (id r) (next_fire_at r) new fired) = true.
Hypothesis mark_picked : forall r fired, kind r = ONE_OFF -> f r = true -> g (u_mark_fired (id r) (next_fire_at r) fired) = true.

Definition fair (h : list call) : Prop := count (is_run f) h <= count (is_win g) h.

Definition may (h : list call) (o : WorkOp) : Prop :=
  match o with
  | w_run_scheduled r _ => f r = true -> count (is_run f) h < count (is_win g) h
  | w_update (u_advance i previous new fired) => Forall claim_is_due h -> exists due, previous = Some due /\ (due <= fired < new)%Z
  | w_update (u_insert r) => row_ok r
  | _ => True
  end.

Definition note (h : list call) (e : call) : list call := h ++ [e].

Lemma note_all h h' : foldl note h h' = h ++ h'.
Proof. revert h. induction h' as [|e h' IH]; intros h; simpl; [by rewrite app_nil_r|]. by rewrite IH; unfold note; rewrite <- app_assoc. Qed.

(** A history that goes on from [h] and stays fair. *)
Definition goes_on (h h' : list call) : Prop := fair h' /\ exists h'', h' = h ++ h''.

Lemma goes_on_refl h : fair h -> goes_on h h.
Proof. intros Hh. split; [done|]. exists []. by rewrite app_nil_r. Qed.

Lemma goes_on_trans h h' h'' : goes_on h h' -> goes_on h' h'' -> goes_on h h''.
Proof. intros [_ [a ->]] [Hf [b ->]]. split; [done|]. exists (a ++ b). by rewrite app_assoc. Qed.

Lemma fair_note h e : fair h -> (is_run f e = true -> count (is_run f) h < count (is_win g) h) -> fair (note h e).
Proof.
  unfold fair, note. rewrite !count_app, !count_one. intros Hf Hr. destruct (is_run f e), (is_win g e); try specialize (Hr eq_refl); lia.
Qed.

Lemma goes_on_note h0 h e : goes_on h0 h -> (is_run f e = true -> count (is_run f) h < count (is_win g) h) -> goes_on h0 (note h e).
Proof. intros [Hf [a ->]] He. split; [by apply fair_note|]. exists (a ++ [e]). unfold note. by rewrite app_assoc. Qed.

(** A program that starts no run, takes no row and creates none. *)
Definition plain (o : WorkOp) : bool :=
  match o with w_run_scheduled _ _ | w_update (u_advance _ _ _ _) | w_update (u_insert _) => false | _ => true end.

Fixpoint all_plain {A} (c : prog WorkAns WorkFault A) : Prop :=
  match c with Ret _ => True | Call o k => plain o = true /\ forall x, all_plain (k x) end.

Lemma plain_may h o : plain o = true -> may h o.
Proof. by destruct o as [| | | | | | |[]| | | | | | | | |]. Qed.

Lemma plain_no_run o x : plain o = true -> is_run f (ev o x) = false.
Proof. by destruct o. Qed.

Lemma always_plain {A} (c : prog WorkAns WorkFault A) h0 h : all_plain c -> goes_on h0 h -> always note may c (fun h' _ => goes_on h0 h') h.
Proof.
  revert h. induction c as [a|o k IH]; intros h Hc Hh; [done|]. destruct Hc as [Ho Hk]. split; [by apply plain_may|].
  intros x. apply IH; [done|]. apply goes_on_note; [done|]. by rewrite plain_no_run.
Qed.

Lemma plain_call {A} o (k : res WorkFault (WorkAns o) -> prog WorkAns WorkFault A) h0 h : plain o = true -> goes_on h0 h ->
  (forall x, goes_on h0 (note h (ev o x)) -> always note may (k x) (fun h' _ => goes_on h0 h') (note h (ev o x))) ->
  always note may (Call o k) (fun h' _ => goes_on h0 h') h.
Proof.
  intros Ho Hh Hk. split; [by apply plain_may|]. intros x. apply Hk. apply goes_on_note; [done|]. by rewrite plain_no_run.
Qed.

Lemma plain_bind {A B} (c : work A) (k : A -> work B) h0 h : all_plain c -> goes_on h0 h ->
  (forall a h', goes_on h0 h' -> always note may (k a) (fun h'' _ => goes_on h0 h'') h') ->
  always note may (c ≫= k) (fun h' _ => goes_on h0 h') h.
Proof.
  intros Hc Hh Hk. rewrite always_bind. eapply always_mono; [|by apply (always_plain c h0 h)]. intros h' [a|e] Hg; [by apply Hk|done].
Qed.

Lemma prepare_plain row : all_plain (prepare_invocation row).
Proof. split; [done|]. intros [[d|]|e]; simpl; [|done..]. destruct (d_enabled d); [|done]. split; [done|]. by intros [[[c s]|]|e]. Qed.

Lemma skip_plain row reason : all_plain (record_skip row reason).
Proof. split; [done|]. intros [now|e]; [|done]. split; [done|]. by intros [b|e]. Qed.

Lemma park_plain i reason : all_plain (park_trigger i reason).
Proof. split; [done|]. intros [now|e]; [|done]. split; [done|]. by intros [b|e]. Qed.

Lemma always_step {A} t (c : work A) k h0 h :
  always note may c (fun h' r => goes_on h0 h' /\ match r with Ok a => always note may (k a) (fun h'' _ => goes_on h0 h'') h' | Raise _ => True end) h ->
  always note may (step t c k) (fun h' _ => goes_on h0 h') h.
Proof.
  intros Hc. unfold step, attempt. rewrite always_bind, always_try, always_bind. eapply always_mono; [|exact Hc].
  intros h' [a|e] [Hg Hk]; cbn in *; [done|]. by destruct e.
Qed.

(** A plain step, then [k]. *)
Lemma plain_step {A} t (c : work A) k h0 h : all_plain c -> goes_on h0 h ->
  (forall a h', goes_on h h' -> goes_on h0 h' -> always note may (k a) (fun h'' _ => goes_on h0 h'') h') ->
  always note may (step t c k) (fun h' _ => goes_on h0 h') h.
Proof.
  intros Hc Hh Hk. apply always_step. eapply always_mono; [|apply (always_plain c h h Hc (goes_on_refl h (proj1 Hh)))].
  intros h' r Hg. assert (goes_on h0 h') by (by eapply goes_on_trans). split; [done|]. destruct r as [a|e]; [by apply Hk|done].
Qed.

Lemma dispatch_allowed row p h0 h : goes_on h0 h -> (f row = true -> count (is_run f) h < count (is_win g) h) ->
  always note may (dispatch_invocation row p) (fun h' _ => goes_on h0 h') h.
Proof.
  intros Hh Hw. unfold dispatch_invocation. rewrite always_try, always_bind. simpl. split; [done|]. intros x.
  pose proof (goes_on_note _ _ (ev (w_run_scheduled row p) x) Hh Hw) as Hn.
  destruct x as [b|e]; [done|]. by destruct e.
Qed.

(** The statement of a row takes it for the pick, and keeps to its due time. *)
Lemma update_allowed row now u h : fire_update row now = Ok (Some u) -> (Forall claim_is_due h -> is_due now row = true) ->
  may h (w_update u) /\ (f row = true -> g u = true).
Proof.
  unfold fire_update, advance_cron_trigger, mark_one_off_fired. destruct (kind row) eqn:Ek.
  - destruct (cron_expr row) as [expr|]; [|done]. intros (new & Hn & [= <-])%bind_Ok Hdue. split; [|by apply advance_picked].
    intros Hc. specialize (Hdue Hc). unfold is_due in Hdue. apply andb_true_iff in Hdue as [_ Hd].
    destruct (next_fire_at row) as [due|]; [|done]. apply Z.leb_le in Hd. exists due. split; [done|]. split; [done|]. by eapply next_fire_later.
  - intros [= <-] _. split; [done|by apply mark_picked].
  - done.
Qed.

Lemma row_allowed t row now h0 h : goes_on h0 h -> (Forall claim_is_due h0 -> is_due now row = true) ->
  always note may (tick_row t now row) (fun h' _ => goes_on h0 h') h.
Proof.
  intros Hh Hdue. unfold tick_row.
  assert (always note may (fire_row t row now) (fun h' _ => goes_on h0 h') h) as Hfire.
  { apply plain_step; [apply prepare_plain|done|]. intros [p|reason] h1 _ H1; [|by apply plain_step; [apply skip_plain| |]].
    apply plain_step; [by split; [|intros [?|?]]|done|]. intros stopping h2 _ H2. destruct stopping; [done|].
    apply plain_step; [by destruct (Nat.ltb 0 (skip_count row)); [split; [|intros [?|?]]|]|done|]. intros _ h3 _ H3.
    destruct (fire_update row now) as [[u|]|[expr|zone|]] eqn:Eu; [|done| |done|done].
    - destruct (update_allowed row now u h3 Eu) as [Hm Hg].
      { intros Hc. apply Hdue. destruct H3 as [_ [a ->]]. by apply Forall_app in Hc as [Hc _]. }
      apply always_step. split; [done|]. intros x. assert (is_run f (ev (w_update u) x) = false) as Hn by done.
      assert (goes_on h0 (note h3 (ev (w_update u) x))) as H4 by (apply goes_on_note; [done|by rewrite Hn]). destruct x as [matched|e]; [|done]. split; [done|]. destruct matched; [|done].
      apply always_step. eapply always_mono; [|apply dispatch_allowed; [exact H4|]].
      + intros h5 [b|e] H5; [|done]. by split.
      + intros Hf. destruct H3 as [H3 _]. unfold fair, note in *. rewrite !count_app, !count_one, Hn. cbn. rewrite (Hg Hf). lia.
    - by apply plain_step; [apply park_plain| |]. }
  destruct (kind row); [done..|]. by apply plain_step; [apply park_plain| |].
Qed.

Lemma rows_allowed t now n rows h0 h : goes_on h0 h -> (Forall claim_is_due h0 -> Forall (fun r => is_due now r = true) rows) ->
  always note may (tick_rows t now n rows) (fun h' _ => goes_on h0 h') h.
Proof.
  revert t n h. induction rows as [|row rest IH]; intros t n h Hh Hdue; [done|]. cbn [tick_rows].
  assert (Forall claim_is_due h0 -> is_due now row = true /\ Forall (fun r => is_due now r = true) rest) as Hd.
  { intros Hc. specialize (Hdue Hc). by apply Forall_cons in Hdue. }
  split; [done|]. intros x. assert (goes_on h0 (note h (ev w_is_draining x))) as H1 by (by apply goes_on_note). destruct x as [stopping|e]; [|done].
  destruct stopping; [done|]. fold (@after WorkOp WorkAns WorkFault). simpl after at 1.
  change (always note may (tick_row t now row ≫= fun outcome => match outcome with
     | (t0, row_fired) => tick_rows t0 now (S n) rest
     | (t0, row_left) => tick_rows t0 now n rest
     | (t0, row_failed) => if t0 && negb (bool_decide (rest = [])) then _ ← invoke w_is_draining; throw MissingGreenlet
                           else tick_rows false now n rest end) (fun h' _ => goes_on h0 h') (note h (ev w_is_draining (Ok false)))).
  rewrite always_bind. eapply always_mono; [|apply row_allowed; [exact H1|by intros Hc; apply Hd]].
  intros h2 [[t2 outcome]|e] H2; [|done]. destruct outcome.
  - apply IH; [done|by intros Hc; apply Hd].
  - apply IH; [done|by intros Hc; apply Hd].
  - destruct (t2 && _); [|apply IH; [done|by intros Hc; apply Hd]]. split; [done|]. intros [b|e]; by apply goes_on_note.
Qed.

Lemma goes_on_nil : goes_on [] [].
Proof. apply goes_on_refl. by vm_compute. Qed.

Lemma tick_allowed : always note may run_one_tick (fun h' _ => goes_on [] h') [].
Proof.
  unfold run_one_tick. apply plain_call; [done|apply goes_on_nil|]. intros [[]|e] H1; [done| |done].
  apply plain_call; [done..|]. intros [[]|e] H2; [|done..]. apply plain_call; [done..|]. intros [now|e] H3; [|done].
  apply plain_call; [done..|]. intros [rows|e] H4; [|done].
  eapply always_mono; [|apply (rows_allowed true now 0 rows _ _ (goes_on_refl _ (proj1 H4)))].
  - intros h' r H5. by eapply goes_on_trans.
  - intros Hc. unfold note in Hc. apply Forall_app in Hc as [_ Hc]. rewrite Forall_singleton in Hc. exact Hc.
Qed.

Lemma cancel_plain tenant i : all_plain (cancel tenant i).
Proof.
  split; [done|]. intros [[[]|]|e]; try done; (split; [done|]; intros [[]|e]; [done| |done]; split; [done|]; by intros [[]|e]).
Qed.

(** [validate_create] makes rows of their kind. *)
Lemma py_strip_brace s : py_strip (String "{" s) <> "".
Proof.
  unfold py_strip, strip_white. replace (strip_left py_space (String "{" s)) with (String "{" s) by done. cbn [strip_right].
  by destruct (strip_right py_space s).
Qed.

Lemma prompt_rendered i : payload_yields_prompt i = true -> prompt_is_effectively_empty (coerce_inputs i) = false.
Proof.
  unfold payload_yields_prompt, prompt_is_effectively_empty. destruct i as [[|kv d]|]; [done| |done]. unfold coerce_inputs.
  assert (bool_decide (py_strip (dumps (JDict (kv :: d))) = "") = false) as Hd by (apply bool_decide_eq_false, py_strip_brace).
  destruct (dict_get "prompt" (kv :: d)) as [[]|]; try done. by intros H%negb_true_iff.
Qed.

Lemma created_row_ok m base row : validate_create m = Ok tt -> row_of m base = Some (Ok row) -> row_ok row.
Proof.
  unfold validate_create, row_of, row_ok. destruct (c_kind m).
  - intros ([] & Hc & Hp)%bind_Ok. rewrite guard_or_Ok in Hp. unfold require_cron_fields in Hc.
    destruct (c_cron_expr m) as [expr|]; [|done]. intros [= (next & _ & [= <-])%bind_Ok]. cbn.
    split; [by split_and!|]. intros _. by apply prompt_rendered.
  - intros ([] & Hc & Hp)%bind_Ok. rewrite guard_or_Ok in Hp. destruct (c_fire_at m) as [t|]; [|done]. intros [= <-]. cbn.
    split; [by split_and!|]. intros _. by apply prompt_rendered.
  - intros _. destruct (c_event_filter m); [|done]. intros [= <-]. cbn. split; [by split_and!|done].
Qed.

Lemma create_allowed m : validate_create m = Ok tt -> always note may (create m) (fun h' _ => goes_on [] h') [].
Proof.
  intros Hv. unfold create. apply plain_bind; [by split; [|intros [?|?]]|apply goes_on_nil|]. intros u h1 H1.
  apply plain_bind; [by split; [|intros [?|?]]|done|]. intros d h2 H2. case_bool_decide; [|done]. cbn [negb].
  apply plain_bind; [by case_bool_decide; [split; [|intros [?|?]]|]|done|]. intros base h3 H3.
  destruct (row_of m base) as [[row|e]|] eqn:Er; [|done..]. rewrite always_try, always_bind. split; [by eapply created_row_ok|]. intros x.
  assert (goes_on [] (note h3 (ev (w_update (u_insert row)) x))) as H4 by (by apply goes_on_note).
  destruct x as [b|e]; [done|]. by destruct e.
Qed.
End Sessions.

(** * Worlds

    A session is a task of some pod: a tick, a cancellation or a creation, which may
    be cut off anywhere. *)
Inductive session : list call -> Prop :=
| tick_session h rest r : runs run_one_tick (h ++ rest) r -> session h
| cancel_session tenant i h rest r : runs (cancel tenant i) (h ++ rest) r -> session h
| create_session m h rest r : validate_create m = Ok tt -> runs (create m) (h ++ rest) r -> session h.

Section Picked.
Context (f : ScheduledTrigger -> bool) (g : TriggerUpdate -> bool).
Hypothesis advance_picked : forall r new fired, kind r = CRON -> f r = true -> g (u_advance (id r) (next_fire_at r) new fired) = true.
Hypothesis mark_picked : forall r fired, kind r = ONE_OFF -> f r = true -> g (u_mark_fired (id r) (next_fire_at r) fired) = true.

Lemma session_calls h h1 o x h2 : session h -> h = h1 ++ ev o x :: h2 -> may f g h1 o.
Proof.
  intros Hs ->. rewrite <- (note_all [] h1 : _ = h1).
  assert (forall rest, (h1 ++ ev o x :: h2) ++ rest = h1 ++ ev o x :: h2 ++ rest) as Happ by (intros rest; by rewrite <- app_assoc).
  inversion Hs as [h rest r Hr|tenant i h rest r Hr|m h rest r Hv Hr]; subst; rewrite Happ in Hr.
  - eapply always_sound in Hr as [_ Hm]; [by eapply Hm|by apply tick_allowed].
  - eapply always_sound in Hr as [_ Hm]; [by eapply Hm|]. apply (always_plain f g _ []); [apply cancel_plain|apply goes_on_nil].
  - eapply always_sound in Hr as [_ Hm]; [by eapply Hm|by apply create_allowed].
Qed.

Lemma session_fair h : session h -> fair f g h.
Proof.
  intros Hs. assert (forall h', (exists h'', h = h' ++ h'') -> fair f g h') as Hp; [|apply Hp; exists []; by rewrite app_nil_r].
  intros h'. induction h' as [|e h' IH] using rev_ind; intros [h'' ->]; [apply goes_on_nil|].
  destruct e as [o x]. apply fair_note; [apply IH; exists (existT o x :: h''); by rewrite <- app_assoc|]. intros Hr.
  assert (may f g h' o) as Hm by (eapply (session_calls _ _ o x h''); [exact Hs|by rewrite <- app_assoc]).
  destruct o; try discriminate Hr. by apply Hm.
Qed.
End Picked.
End Calls.

(** What a call answers and leaves of the table; a statement that raises may have
    been committed, and rows that other transactions have locked are not claimed. *)
Definition read_status (t : table) (tenant i : string) : option TriggerStatus :=
  status <$> List.find (fun r => has_id i r && bool_decide (tenant_id r = tenant)) t.

Definition agrees (t : table) (e : call) (t' : table) : Prop :=
  let '(existT o x) := e in
  match o return res WorkFault (WorkAns o) -> Prop with
  | w_update u => fun x => match x with Ok b => apply_update u t = (t', b) | Raise _ => t' = t \/ t' = (apply_update u t).1 end
  | w_clear_skip_state i => fun _ => t' = t \/ t' = clear_skip i t
  | w_claim_due_triggers now limit => fun x =>
      t' = t /\ match x with Ok rows => exists locked, rows = claim_due_triggers (delete_where locked t) now limit | Raise _ => True end
  | w_read_status tenant i => fun x => t' = t /\ match x with Ok s => s = read_status t tenant i | Raise _ => True end
  | _ => fun _ => t' = t
  end x.

Inductive plays : table -> list call -> table -> Prop :=
| plays_nil t : plays t [] t
| plays_cons t e t' l t'' : agrees t e t' -> plays t' l t'' -> plays t (e :: l) t''.

(** The calls of all sessions in the order in which they took effect, from an empty
    table on. *)
Definition calls_of (p : nat) (log : list (nat * call)) : list call := snd <$> List.filter (fun x => Nat.eqb x.1 p) log.

Record world `{CronLibrary} (log : list (nat * call)) (t : table) : Prop := {
  world_plays : plays [] (log.*2) t;
  world_sessions : forall p, session (calls_of p log);
}.

Lemma claim_due t now limit : Forall (fun r => is_due now r = true) (claim_due_triggers t now limit).
Proof.
  apply Forall_forall. intros r Hr%subseteq_take. rewrite merge_sort_Permutation in Hr. by apply elem_of_select in Hr as [_ Hr].
Qed.

Lemma plays_claims t l t' : plays t l t' -> Forall claim_is_due l.
Proof.
  induction 1 as [|t e t' l t'' He _ IH]; constructor; [|done]. destruct e as [[] x]; try done. cbn in He |- *.
  destruct x as [rows|]; [|done]. destruct He as (_ & locked & ->). apply claim_due.
Qed.

Lemma calls_of_app p a b : calls_of p (a ++ b) = calls_of p a ++ calls_of p b.
Proof. unfold calls_of. by rewrite List.filter_app, fmap_app. Qed.

Lemma calls_of_sub p log e : e ∈ calls_of p log -> e ∈ log.*2.
Proof.
  unfold calls_of. rewrite !list_elem_of_fmap. intros (x & -> & Hx). exists x. split; [done|].
  by apply elem_of_select in Hx as [Hx _].
Qed.

(** What each session keeps to, the whole keeps to. *)
Lemma counted p q log : (forall i, count p (calls_of i log) <= count q (calls_of i log)) -> count p (log.*2) <= count q (log.*2).
Proof.
  assert (forall n l, length l <= n -> (forall i, count p (calls_of i l) <= count q (calls_of i l)) -> count p (l.*2) <= count q (l.*2)) as Hn;
    [|intros Hl; exact (Hn _ _ (Nat.le_refl _) Hl)].
  intros n. induction n as [|n IH]; intros [|[i e] l] Hlen Hl; cbn in Hlen; [done|lia|done|].
  set (others := List.filter (fun x => negb (Nat.eqb x.1 i)) ((i, e) :: l)).
  assert (forall r, count r (((i, e) :: l).*2) = count r (calls_of i ((i, e) :: l)) + count r (others.*2)) as Hsplit.
  { intros r. unfold others, calls_of. generalize ((i, e) :: l). intros l'. induction l' as [|[j d] l' IHl]; [done|].
    cbn [List.filter fst]. rewrite (fmap_cons snd), count_cons, IHl. cbn [snd].
    destruct (Nat.eqb j i); cbn [negb]; rewrite (fmap_cons snd), count_cons; cbn [snd]; lia. }
  rewrite !Hsplit. specialize (IH others). assert (length others <= n) as Ho.
  { unfold others. cbn [List.filter fst]. rewrite Nat.eqb_refl. cbn [negb]. etrans; [apply List.filter_length_le|lia]. }
  specialize (IH Ho). pose proof (Hl i) as Hi. cut (count p (others.*2) <= count q (others.*2)); [lia|]. apply IH. intros j.
  destruct (decide (j = i)) as [->|Hj].
  - replace (calls_of i others) with (@nil call); [done|]. unfold calls_of, others.
    generalize ((i, e) :: l). intros l'. induction l' as [|[k d] l' IHl]; [done|]. cbn [List.filter fst].
    destruct (Nat.eqb k i) eqn:E; cbn [negb List.filter fst]; [done|]. by rewrite E.
  - replace (calls_of j others) with (calls_of j ((i, e) :: l)); [done|]. unfold calls_of, others. f_equal.
    generalize ((i, e) :: l). intros l'. induction l' as [|[k d] l' IHl]; [done|]. cbn [List.filter fst].
    destruct (Nat.eqb_spec k i) as [->|Hk]; cbn [negb List.filter fst].
    + by rewrite (proj2 (Nat.eqb_neq i j)).
    + destruct (Nat.eqb k j); by rewrite IHl.
Qed.

(** * The table *)

(** A statement sets a due time later, creates rows of their kind, or changes neither. *)
Definition good_call (e : call) : Prop :=
  match projT1 e with
  | w_update (u_advance i previous new fired) => exists due, previous = Some due /\ (due <= fired < new)%Z
  | w_update (u_insert r) => row_ok r
  | _ => True
  end.

Lemma world_good `{LL : CronLibraryLaws} log t : world log t -> Forall good_call (log.*2).
Proof.
  intros [Hp Hs]. apply Forall_forall. intros e (x & -> & Hx)%list_elem_of_fmap. destruct x as [p [o x]].
  apply list_elem_of_split in Hx as (l1 & l2 & ->).
  assert (may (fun _ => false) (fun _ => false) (calls_of p l1) o) as Hm.
  { apply (session_calls (fun _ => false) (fun _ => false)) with (h := calls_of p (l1 ++ (p, ev o x) :: l2)) (x := x) (h2 := calls_of p l2); [done..|apply Hs|].
    rewrite calls_of_app. unfold calls_of at 2. cbn [List.filter fst]. by rewrite Nat.eqb_refl, fmap_cons. }
  unfold good_call. cbn. destruct o; try done. destruct u; try done. apply Hm.
  apply plays_claims in Hp. rewrite fmap_app in Hp. apply Forall_app in Hp as [Hp _]. rewrite Forall_forall in *.
  intros e He. apply Hp. by eapply calls_of_sub.
Qed.

(** What any statement does to a row. *)
Record moves (r r' : ScheduledTrigger) : Prop := {
  mv_id : id r' = id r;
  mv_kind : (kind r', cron_expr r', fire_at r', event_filter r', inputs r') = (kind r, cron_expr r, fire_at r, event_filter r, inputs r);
  mv_status : status r' = ACTIVE -> status r = ACTIVE;
  mv_next : next_fire_at r' = next_fire_at r \/ exists d d', next_fire_at r = Some d /\ next_fire_at r' = Some d' /\ (d < d')%Z;
}.

Lemma moves_refl r : moves r r.
Proof. split; [done..|by left]. Qed.

Lemma moves_ok r r' : moves r r' -> row_ok r -> row_ok r'.
Proof.
  intros [_ Hk _ Hn]. unfold row_ok. injection Hk as -> -> -> -> ->. intros [Hr Hp]. split; [|done].
  destruct Hn as [->|(d & d' & Hd & Hd' & _)]; [done|]. destruct (kind r); [|destruct Hr as (? & ? & ? & ?); by split_and!|].
  - destruct Hr as (? & ? & ? & ?). by split_and!.
  - destruct Hr as (_ & _ & _ & Hr). congruence.
Qed.

Definition evolves (t t' : table) : Prop :=
  exists m extra, t' = (m <$> t) ++ extra /\ (forall r, moves r (m r)) /\
    (extra = [] \/ exists r, extra = [r] /\ row_ok r /\ id r ∉ id <$> t).

Lemma evolves_refl t : evolves t t.
Proof. exists (fun r => r), []. rewrite app_nil_r, list_fmap_id. split_and!; [done|apply moves_refl|by left]. Qed.

Lemma evolves_update p f t : (forall r, p r = true -> moves r (f r)) -> evolves t (update_where p f t).
Proof.
  intros Hf. exists (fun r => if p r then f r else r), []. rewrite app_nil_r. split_and!; [done| |by left].
  intros r. destruct (p r) eqn:E; [by apply Hf|apply moves_refl].
Qed.

Lemma still_due_row i previous r : still_due i previous r = true ->
  id r = i /\ status r = ACTIVE /\ exists due, previous = Some due /\ next_fire_at r = Some due.
Proof.
  unfold still_due, is_active, has_id. rewrite !andb_true_iff, !bool_decide_eq_true. intros [[Hi Hs] Hn]. split_and!; [done..|].
  destruct previous as [due|], (next_fire_at r) as [u|]; try done. apply bool_decide_eq_true in Hn as ->. by exists due.
Qed.

Lemma update_evolves u x t : good_call (ev (w_update u) x) -> evolves t (apply_update u t).1.
Proof.
  destruct u as [i previous new fired|i previous fired|i n reason at_ park|i reason at_|tenant i|r]; cbn; intros Hg.
  - apply evolves_update. intros r (_ & Hs & due & -> & Hn)%still_due_row. destruct Hg as (d & [= <-] & Hd). split; [done..|].
    right. exists due, new. split_and!; [done..|lia].
  - apply evolves_update. intros r _. by split; [..|left].
  - apply evolves_update. intros r Hr. split; [done..| |by left]. cbn. by destruct park.
  - apply evolves_update. intros r _. by split; [..|left].
  - apply evolves_update. intros r _. by split; [..|left].
  - destruct (existsb (has_id (id r)) t) eqn:E; [apply evolves_refl|]. exists (fun r => r), [r]. rewrite list_fmap_id.
    split_and!; [done|apply moves_refl|]. right. exists r. split_and!; [done..|]. intros (r' & Hi & Hr')%list_elem_of_fmap.
    rewrite (existsb_intro _ t r') in E; [done..|]. by apply bool_decide_eq_true.
Qed.

Lemma agrees_evolves t e t' : good_call e -> agrees t e t' -> evolves t t'.
Proof.
  destruct e as [o x]. intros Hg He. destruct o; cbn in He; try (by rewrite He; apply evolves_refl).
  - destruct He as [-> _]. apply evolves_refl.
  - pose proof (update_evolves u x t Hg) as Hu. destruct x as [b|e]; [by rewrite He in Hu|].
    destruct He as [->| ->]; [apply evolves_refl|done].
  - destruct He as [->| ->]; [apply evolves_refl|]. apply evolves_update. intros r _. by split; [..|left].
  - destruct He as [-> _]. apply evolves_refl.
Qed.

Record table_ok (t : table) : Prop := { to_ids : NoDup (id <$> t); to_rows : Forall row_ok t }.

Lemma evolves_ok t t' : evolves t t' -> table_ok t -> table_ok t'.
Proof.
  intros (m & extra & -> & Hm & Hx) [Hi Hr].
  assert (id <$> (m <$> t) = id <$> t) as Hids.
  { rewrite <- list_fmap_compose. apply list_fmap_ext. intros j r _. apply Hm. }
  assert (Forall row_ok (m <$> t)) as Hm'.
  { apply Forall_fmap. eapply Forall_impl; [exact Hr|]. intros r. by apply moves_ok. }
  destruct Hx as [->|(r & -> & Hro & Hnew)]; [rewrite app_nil_r; split; [by rewrite Hids|done]|].
  split; [rewrite fmap_app, Hids; by apply NoDup_snoc|]. apply Forall_app. by split; [|apply Forall_singleton].
Qed.

(** A row with a property that statements keep stays, and so it keeps out of the log
    whatever it rules out. *)
Section Kept.
Context (K : ScheduledTrigger -> Prop) (q : call -> bool).
Hypothesis kept : forall r r', moves r r' -> K r -> K r'.
Hypothesis excludes : forall t e t' r, table_ok t -> agrees t e t' -> r ∈ t -> K r -> q e = false.

Lemma kept_evolves t t' r : evolves t t' -> r ∈ t -> K r -> exists r', r' ∈ t' /\ K r'.
Proof.
  intros (m & extra & -> & Hm & _) Hr HK. exists (m r). split; [|by eapply kept]. apply elem_of_app. left. by apply list_elem_of_fmap_2.
Qed.

Lemma never_again t l t' r : plays t l t' -> Forall good_call l -> table_ok t -> r ∈ t -> K r -> count q l = 0.
Proof.
  intros Hp. revert r. induction Hp as [|t e t' l t'' He _ IH]; intros r Hg Ht Hr HK; [done|]. apply Forall_cons in Hg as [Hg Hl].
  rewrite count_cons, (excludes t e t' r) by done. pose proof (agrees_evolves t e t' Hg He) as Hev.
  destruct (kept_evolves t t' r Hev Hr HK) as (r' & Hr' & HK'). rewrite (IH r'); [done..|by eapply evolves_ok|done|done].
Qed.

Hypothesis establishes : forall t e t', good_call e -> agrees t e t' -> q e = true -> exists r, r ∈ t' /\ K r.

Lemma at_most_one t l t' : plays t l t' -> Forall good_call l -> table_ok t -> count q l <= 1.
Proof.
  intros Hp. induction Hp as [|t e t' l t'' He Hp IH]; intros Hg Ht; [vm_compute; lia|]. apply Forall_cons in Hg as [Hg Hl].
  pose proof (evolves_ok _ _ (agrees_evolves t e t' Hg He) Ht) as Ht'. rewrite count_cons. destruct (q e) eqn:E.
  - destruct (establishes t e t' Hg He E) as (r & Hr & HK). rewrite (never_again t' l t'' r); [lia|done..].
  - by apply IH.
Qed.
End Kept.

(** * Runs *)

(** A statement that takes a trigger: of one due time, or a one-off's. *)
Definition takes (i : string) (due : option Z) (u : TriggerUpdate) : bool :=
  match u with
  | u_advance j previous _ _ | u_mark_fired j previous _ => bool_decide (j = i) && bool_decide (previous = due)
  | _ => false
  end.

Definition marks (i : string) (u : TriggerUpdate) : bool := match u with u_mark_fired j _ _ => bool_decide (j = i) | _ => false end.
Definition takes_any (i : string) (u : TriggerUpdate) : bool :=
  match u with u_advance j _ _ _ | u_mark_fired j _ _ => bool_decide (j = i) | _ => false end.

(** The row is past that due time, or ended. *)
Definition taken (i : string) (due : Z) (r : ScheduledTrigger) : Prop :=
  id r = i /\ (status r <> ACTIVE \/ exists d, next_fire_at r = Some d /\ (due < d)%Z).
Definition ended (i : string) (r : ScheduledTrigger) : Prop := id r = i /\ status r <> ACTIVE.

Lemma taken_kept i due r r' : moves r r' -> taken i due r -> taken i due r'.
Proof.
  intros [Hi _ Hs Hn] [Hid Hd]. split; [congruence|]. destruct Hd as [Hd|(d & Hd & Hlt)]; [left; tauto|].
  right. destruct Hn as [->|(d1 & d2 & H1 & H2 & H12)]; [by exists d|]. exists d2. split; [done|]. replace d1 with d in H12 by congruence. lia.
Qed.

Lemma ended_kept i r r' : moves r r' -> ended i r -> ended i r'.
Proof. intros [Hi _ Hs _] [Hid Hd]. split; [congruence|tauto]. Qed.

(** A taking statement that matched found an active row due at that time. *)
Lemma win_found i t e t' : agrees t e t' -> is_win (takes_any i) e = true ->
  exists r due, r ∈ t /\ id r = i /\ status r = ACTIVE /\ next_fire_at r = Some due /\ (forall d, is_win (takes i (Some d)) e = true -> d = due).
Proof.
  destruct e as [o x]. destruct o; try done. destruct x as [[]|]; try done. intros He Hw. cbn in He, Hw |- *.
  destruct u; try done; apply bool_decide_eq_true in Hw as ->; injection He as _ Hm;
    apply existsb_exists in Hm as (r & Hr & (Hi & Hs & due & -> & Hn)%still_due_row); exists r, due; rewrite list_elem_of_In;
    split_and!; try done; intros d [_ Hd%bool_decide_eq_true]%andb_true_iff; congruence.
Qed.

Lemma takes_are_takes i due e : is_win (takes i due) e = true -> is_win (takes_any i) e = true.
Proof. destruct e as [[] x]; try done. destruct x as [[]|]; try done. destruct u; try done; by intros [H _]%andb_true_iff. Qed.

Lemma marks_are_takes i e : is_win (marks i) e = true -> is_win (takes_any i) e = true.
Proof. destruct e as [[] x]; try done. destruct x as [[]|]; try done. by destruct u. Qed.

Lemma same_row t r r' : table_ok t -> r ∈ t -> r' ∈ t -> id r = id r' -> r = r'.
Proof. intros Ht. apply (key_inj id). apply Ht. Qed.

Lemma taken_excludes i due t e t' r : table_ok t -> agrees t e t' -> r ∈ t -> taken i due r -> is_win (takes i (Some due)) e = false.
Proof.
  intros Ht He Hr [Hi Hd]. apply not_true_is_false. intros Hw.
  destruct (win_found i t e t' He) as (r' & d & Hr' & Hi' & Hs & Hn & Hdue); [by eapply takes_are_takes|].
  rewrite (same_row t r r') in Hd by (done || congruence). apply Hdue in Hw as <-. destruct Hd as [Hd|(d' & Hd' & Hlt)]; [done|].
  replace d' with due in Hlt by congruence. lia.
Qed.

Lemma ended_excludes i g t e t' r : (is_win g e = true -> is_win (takes_any i) e = true) ->
  table_ok t -> agrees t e t' -> r ∈ t -> ended i r -> is_win g e = false.
Proof.
  intros Hg Ht He Hr [Hi Hd]. apply not_true_is_false. intros Hw.
  destruct (win_found i t e t' He) as (r' & d & Hr' & Hi' & Hs & _); [by apply Hg|]. by rewrite (same_row t r r') in Hd by (done || congruence).
Qed.

(** A matched statement leaves its row updated. *)
Lemma matched_row p f t t' : update_rows p f t = (t', true) -> exists r, r ∈ t /\ p r = true /\ f r ∈ t'.
Proof.
  intros [= <- H]. apply existsb_exists in H as (r & Hr%list_elem_of_In & Hp). exists r. split_and!; [done..|].
  apply elem_of_update. exists r. by rewrite Hp.
Qed.

Lemma take_takes i due t e t' : good_call e -> agrees t e t' -> is_win (takes i (Some due)) e = true -> exists r, r ∈ t' /\ taken i due r.
Proof.
  destruct e as [o x]. destruct o; try done. destruct x as [[]|]; try done. intros Hg He Hw. cbn in He, Hw.
  destruct u; try done; apply andb_true_iff in Hw as [->%bool_decide_eq_true ->%bool_decide_eq_true];
    apply matched_row in He as (r & _ & (Hi & Hs & d & [= <-] & Hn)%still_due_row & Hr); eexists; (split; [exact Hr|]); (split; [done|]).
  - right. exists new. destruct Hg as (d & [= <-] & Hlt). split; [done|lia].
  - by left.
Qed.

Lemma mark_ends i t e t' : agrees t e t' -> is_win (marks i) e = true -> exists r, r ∈ t' /\ ended i r.
Proof.
  destruct e as [o x]. destruct o; try done. destruct x as [[]|]; try done. intros He Hw. cbn in He, Hw.
  destruct u; try done. apply bool_decide_eq_true in Hw as ->. apply matched_row in He as (r & _ & (Hi & _)%still_due_row & Hr).
  eexists. split; [exact Hr|]. by split.
Qed.

(** A trigger is closed: cancelled, or fired as a one-off. *)
Definition closes (i : string) (u : TriggerUpdate) : bool :=
  match u with u_cancel _ j => bool_decide (j = i) | u_mark_fired j _ _ => bool_decide (j = i) | _ => false end.

Lemma close_ends i t e t' : agrees t e t' -> is_win (closes i) e = true -> exists r, r ∈ t' /\ ended i r.
Proof.
  intros He Hc. destruct (is_win (marks i) e) eqn:Em; [by eapply mark_ends|].
  destruct e as [o x]. destruct o; try done. destruct x as [[]|]; try done. cbn in He, Hc, Em.
  destruct u; try done; [unfold closes, marks in *; congruence|]. apply bool_decide_eq_true in Hc as ->. apply matched_row in He as (r & _ & Hm & Hr).
  eexists. split; [exact Hr|]. split; [|done]. unfold cancellable, has_id in Hm. rewrite !andb_true_iff, !bool_decide_eq_true in Hm. tauto.
Qed.

Lemma empty_ok : table_ok [].
Proof. split; constructor. Qed.

Lemma plays_split t l1 l2 t' : plays t (l1 ++ l2) t' -> exists t1, plays t l1 t1 /\ plays t1 l2 t'.
Proof.
  revert t. induction l1 as [|e l1 IH]; intros t Hp; [exists t; split; [constructor|done]|]. inversion Hp as [|? ? t1 ? ? He Hl]; subst.
  apply IH in Hl as (t2 & H1 & H2). exists t2. split; [by econstructor|done].
Qed.

Lemma plays_ok t l t' : plays t l t' -> Forall good_call l -> table_ok t -> table_ok t'.
Proof.
  induction 1 as [|t e t1 l t' He _ IH]; intros Hg Ht; [done|]. apply Forall_cons in Hg as [Hg Hl]. apply IH; [done|].
  eapply evolves_ok; [by eapply agrees_evolves|done].
Qed.

Definition due_at (i : string) (due : Z) (r : ScheduledTrigger) : bool := has_id i r && bool_decide (next_fire_at r = Some due).
Definition one_off (i : string) (r : ScheduledTrigger) : bool := has_id i r && bool_decide (kind r = ONE_OFF).

(** C12. Scheduled work runs at most once, in every interleaving of ticks, each of which
    may be cut off anywhere, cancellations and creations, with no lock that holds: at
    most one run is started for each due time of a trigger and at most one in all for
    a one-off; and once a trigger was cancelled or fired, no session takes it again. *)
Theorem scheduled_work_runs_at_most_once `{LL : CronLibraryLaws} log t :
  world log t ->
  (forall i due, count (is_run (due_at i due)) (log.*2) <= 1) /\
  (forall i, count (is_run (one_off i)) (log.*2) <= 1) /\
  (forall i older e newer, log.*2 = older ++ e :: newer -> is_win (closes i) e = true -> count (is_win (takes_any i)) newer = 0).
Proof.
  intros Hw. pose proof (world_good log t Hw) as Hg. pose proof (world_plays _ _ Hw) as Hp. split_and!.
  - intros i due. transitivity (count (is_win (takes i (Some due))) (log.*2)).
    + apply counted. intros p. apply session_fair; [intros r ? ? _ H; exact H|intros r ? _ H; exact H|apply Hw].
    + eapply (at_most_one (taken i due)); [apply taken_kept|apply taken_excludes|apply take_takes|done..|apply empty_ok].
  - intros i. transitivity (count (is_win (marks i)) (log.*2)).
    + apply counted. intros p. apply session_fair; [..|apply Hw]; intros r; intros *; unfold one_off; intros Hk [Hi Ho%bool_decide_eq_true]%andb_true_iff; [congruence|exact Hi].
    + eapply (at_most_one (ended i)); [apply ended_kept| |intros ? ? ? _; apply mark_ends|done..|apply empty_ok].
      intros. eapply ended_excludes; [apply marks_are_takes|done..].
  - intros i older e newer Hl Hc. rewrite Hl in Hp, Hg. apply plays_split in Hp as (t1 & Hp1 & Hp2).
    apply Forall_app in Hg as [Hg1 [Hge Hg2]%Forall_cons]. pose proof (plays_ok _ _ _ Hp1 Hg1 empty_ok) as Ht1.
    inversion Hp2 as [|? ? t2 ? ? He Hp3]; subst. destruct (close_ends i t1 e t2 He Hc) as (r & Hr & HK).
    eapply (never_again (ended i)); [apply ended_kept| |done..| |done|done]; [intros; by eapply ended_excludes|].
    eapply evolves_ok; [by eapply agrees_evolves|done].
Qed.

(** C39. The rows of the table are those of their kind at every moment: ids are distinct;
    a cron row has an expression and a due time, a one-off its instant, an event row
    its filter and no due time, and no row the columns of another kind; and a cron or
    one-off row always starts its run with a prompt that is not empty. *)
Theorem stored_triggers_are_well_formed `{LL : CronLibraryLaws} log t :
  world log t -> NoDup (id <$> t) /\ Forall row_ok t.
Proof.
  intros Hw. pose proof (world_good log t Hw) as Hg. destruct (plays_ok _ _ _ (world_plays _ _ Hw) Hg empty_ok) as [Hi Hr]. by split.
Qed.

(** * A small deployment *)

Definition minute : Z := 60000000.

(** A library whose every expression means the next minute, and whose one zone is UTC. *)
#[local] Instance minutes : CronLibrary := {|
  tzinfo := unit; UTC := tt; croniter_is_valid := fun _ => true; ZoneInfo := fun zone => Raise (InvalidTimezone zone);
  get_next := fun _ _ base => (base + minute)%Z |}.
#[local] Instance minutes_laws : CronLibraryLaws minutes.
Proof. split. intros expr tz base _. cbn. unfold minute. lia. Qed.

(** One pod at an instant; every agent is defined and has a secret. *)
Definition respond (now : Z) (o : WorkOp) (t : table) : table * res WorkFault (WorkAns o) :=
  match o return table * res WorkFault (WorkAns o) with
  | w_now => (t, Ok now)
  | w_is_draining => (t, Ok false)
  | w_advisory_lock _ => (t, Ok true)
  | w_lock_connector_usage => (t, Ok tt)
  | w_claim_due_triggers at_ limit => (t, Ok (claim_due_triggers (delete_where (fun _ => false) t) at_ limit))
  | w_find_definition _ _ => (t, Ok (Some {| d_name := "reporter"; d_enabled := true; d_identity_ref := "agent:reporter" |}))
  | w_resolve_agent_credentials ref _ => (t, Ok (Some (ref, "secret")))
  | w_update u => let '(t', b) := apply_update u t in (t', Ok b)
  | w_clear_skip_state i => (clear_skip i t, Ok tt)
  | w_read_status tenant i => (t, Ok (read_status t tenant i))
  | w_run_scheduled _ _ => (t, Ok true)
  | w_claim_unprocessed _ => (t, Ok [])
  | w_stamp_claim _ _ => (t, Ok tt)
  | w_event_triggers _ => (t, Ok [])
  | w_run_exists _ _ => (t, Ok false)
  | w_event_prompt _ _ => (t, Ok "")
  | w_mark_processed _ _ => (t, Ok true)
  end.

Lemma respond_agrees now o t : agrees t (ev o (respond now o t).2) (respond now o t).1.
Proof. destruct o; try done; cbn; [by split; [|exists (fun _ => false)]|by destruct (apply_update u t)|by right]. Qed.

Lemma interp_plays now {A} (c : prog WorkAns WorkFault A) t : let '(t', h, _) := interp (respond now) c t in plays t h t'.
Proof.
  revert t. induction c as [a|o k IH]; intros t; [constructor|]. simpl. pose proof (respond_agrees now o t) as Ho.
  destruct (respond now o t) as [t1 x]. specialize (IH x t1). destruct (interp (respond now) (k x) t1) as [[t2 h] a]. by econstructor.
Qed.

Lemma plays_app t l t1 l' t2 : plays t l t1 -> plays t1 l' t2 -> plays t (l ++ l') t2.
Proof. induction 1 as [|t e t1 l t' He _ IH]; intros H2; [done|]. econstructor; [done|by apply IH]. Qed.

Definition new_base (i : string) : TriggerBase := {|
  b_id := i; b_tenant_id := "t"; b_agent_definition_id := "a"; b_inputs := Some [("prompt", JStr "go")]; b_identity_sub := "__scheduler__";
  b_created_by_sub := "op"; b_in_flight_policy := FAIL_INTO_AUDIT; b_work_ref := None |}.

Definition new_one_off : TriggerCreate := {|
  c_base := new_base "once"; c_kind := ONE_OFF; c_cron_expr := None; c_fire_at := Some minute; c_event_filter := None; c_timezone := "UTC" |}.

Lemma idle : session [].
Proof. destruct (runs_total (cancel "" "") (fun _ => Raise task_cancelled)) as (h & r & Hr). by eapply (cancel_session "" "" [] h r). Qed.

Definition by_session (p : nat) (h : list call) : list (nat * call) := (fun e => (p, e)) <$> h.

Lemma by_session_calls p h : (by_session p h).*2 = h.
Proof. unfold by_session. rewrite <- list_fmap_compose. apply list_fmap_id. Qed.

Lemma calls_of_session p q h : calls_of p (by_session q h) = if Nat.eqb q p then h else [].
Proof.
  unfold calls_of, by_session. induction h as [|e h IH]; [by destruct (Nat.eqb q p)|]. rewrite fmap_cons. cbn [List.filter fst].
  destruct (Nat.eqb q p); [|done]. by rewrite fmap_cons, IH.
Qed.

(** A one-off is created, fired by one of two ticks, and then not cancelled. *)
Definition small_log : list (nat * call) :=
  let '(t1, h1, _) := interp (respond 0) (create new_one_off) [] in
  let '(t2, h2, _) := interp (respond (2 * minute)) run_one_tick t1 in
  let '(t3, h3, _) := interp (respond (3 * minute)) run_one_tick t2 in
  let '(_, h4, _) := interp (respond (4 * minute)) (cancel "t" "once") t3 in
  by_session 1 h1 ++ by_session 2 h2 ++ by_session 3 h3 ++ by_session 4 h4.

Lemma small_world : exists t, world small_log t.
Proof.
  unfold small_log.
  pose proof (interp_plays 0 (create new_one_off) []) as P1. pose proof (interp_runs (respond 0) (create new_one_off) []) as R1.
  destruct (interp (respond 0) (create new_one_off) []) as [[t1 h1] r1].
  pose proof (interp_plays (2 * minute) run_one_tick t1) as P2. pose proof (interp_runs (respond (2 * minute)) run_one_tick t1) as R2.
  destruct (interp (respond (2 * minute)) run_one_tick t1) as [[t2 h2] r2].
  pose proof (interp_plays (3 * minute) run_one_tick t2) as P3. pose proof (interp_runs (respond (3 * minute)) run_one_tick t2) as R3.
  destruct (interp (respond (3 * minute)) run_one_tick t2) as [[t3 h3] r3].
  pose proof (interp_plays (4 * minute) (cancel "t" "once") t3) as P4. pose proof (interp_runs (respond (4 * minute)) (cancel "t" "once") t3) as R4.
  destruct (interp (respond (4 * minute)) (cancel "t" "once") t3) as [[t4 h4] r4].
  exists t4. split.
  - rewrite !fmap_app, !by_session_calls.
    eapply plays_app; [exact P1|]. eapply plays_app; [exact P2|]. by eapply plays_app.
  - intros p. rewrite !calls_of_app, !calls_of_session. destruct p as [|[|[|[|[|p]]]]]; cbn [Nat.eqb app]; rewrite ?app_nil_r.
    + apply idle.
    + eapply (create_session new_one_off _ []); [done|]. rewrite app_nil_r. exact R1.
    + eapply (tick_session _ []). rewrite app_nil_r. exact R2.
    + eapply (tick_session _ []). rewrite app_nil_r. exact R3.
    + eapply (cancel_session "t" "once" _ []). rewrite app_nil_r. exact R4.
    + apply idle.
Qed.

Lemma scheduled_work_runs_at_most_once_witness :
  count (is_run (due_at "once" minute)) (small_log.*2) = 1 /\ count (is_run (one_off "once")) (small_log.*2) <= 1.
Proof.
  split; [by vm_compute|]. destruct small_world as [t Hw].
  destruct (scheduled_work_runs_at_most_once small_log t Hw) as (_ & Hone & _). apply Hone.
Defined.

Lemma stored_triggers_are_well_formed_witness : exists t, world small_log t /\ NoDup (id <$> t) /\ Forall row_ok t.
Proof. destruct small_world as [t Hw]. exists t. split; [exact Hw|]. exact (stored_triggers_are_well_formed small_log t Hw). Defined.

(** * What else the loop does *)

Definition cron_row (i zone : string) (st : TriggerStatus) (expr : string) : ScheduledTrigger :=
  with_fire st (Some minute) None (new_trigger (new_base i) CRON (Some expr) zone None None (Some minute)).

(** A cron row whose zone is not found raises in the transaction of the claim: the
    tick ends there, and the triggers due after it do not fire, on this tick and on
    every later one. *)
Lemma one_zone_stalls_the_scheduler :
  let t := [cron_row "bad" "Atlantis" ACTIVE "* * * * *"; cron_row "good" "UTC" ACTIVE "* * * * *"] in
  let '(t', h, r) := interp (respond (2 * minute)) run_one_tick t in
  t' = t /\ r = Raise MissingGreenlet /\ count (is_run (fun _ => true)) h = 0.
Proof. by vm_compute. Qed.

(** Parking a row does not look at its status: a row that was cancelled after it was
    claimed is paused, no longer cancelled. *)
Lemma parking_reopens_a_cancelled_trigger :
  let claimed := cron_row "c" "UTC" ACTIVE "every minute" in
  let t := [cron_row "c" "UTC" CANCELLED "every minute"] in
  let '(t', _, r) := interp (respond (2 * minute)) (tick_row false (2 * minute) claimed) t in
  r = Ok (false, row_left) /\ status <$> t' = [PAUSED].
Proof. by vm_compute. Qed.
