(* ===== verification/Events.v ===== *)
(** Events ([events/outbox.py], [events/matcher.py], [events/drain.py]): the outbox, the
    triggers that subscribe to its events, and the tick that drains it. *)

From stdpp Require Import pretty.
From S2P Require Import Prelude Json Programs Scheduler.

(** * The outbox *)

(** [publish]; [None] is the [IntegrityError] of a key that is taken. *)
Definition same_key (tenant key : string) (e : EventOutbox) : bool :=
  bool_decide (e_tenant_id e = tenant) && bool_decide (dedupe_key e = Some key).

Definition publish (outbox : list EventOutbox) (next_id : nat) (tenant kind : string) (body : option json_dict) (source key : option string)
  : option (list EventOutbox * EventOutbox) :=
  let row := {| event_id := next_id; e_tenant_id := tenant; event_kind := kind; payload := default [] body; claimed_at := None;
                claimed_by := None; processed_at := None; dedupe_key := key; origin := source |} in
  if match key with Some k => existsb (same_key tenant k) outbox | None => false end then None else Some (outbox ++ [row], row).

Definition unprocessed (e : EventOutbox) : bool := bool_decide (processed_at e = None).

Definition id_le (a b : EventOutbox) : Prop := event_id a <= event_id b.
#[export] Instance id_le_dec a b : Decision (id_le a b) := le_dec _ _.

Definition claim_unprocessed (outbox : list EventOutbox) (limit : nat) : list EventOutbox :=
  take limit (merge_sort id_le (select_where unprocessed outbox)).

Definition set_processed (now : Z) (e : EventOutbox) : EventOutbox := {|
  event_id := event_id e; e_tenant_id := e_tenant_id e; event_kind := event_kind e; payload := payload e; claimed_at := claimed_at e;
  claimed_by := claimed_by e; processed_at := Some now; dedupe_key := dedupe_key e; origin := origin e |}.

Definition still_unprocessed (i : nat) (e : EventOutbox) : bool := bool_decide (event_id e = i) && unprocessed e.

Definition mark_processed (outbox : list EventOutbox) (i : nat) (now : Z) : list EventOutbox * bool :=
  (update_where (still_unprocessed i) (set_processed now) outbox, existsb (still_unprocessed i) outbox).

(** * Subscriptions *)

(** [payload @> event_filter], for objects, arrays and scalars. *)
Fixpoint payload_contains (container subset : json) {struct subset} : bool :=
  match subset with
  | JDict sub =>
      match container with
      | JDict d =>
          (fix go sub := match sub with
                         | [] => true
                         | (key, value) :: rest =>
                             match dict_get key d with Some v => payload_contains v value | None => false end && go rest
                         end) sub
      | _ => false
      end
  | JList subs =>
      match container with
      | JList l =>
          (fix go subs := match subs with
                          | [] => true
                          | value :: rest => existsb (fun item => payload_contains item value) l && go rest
                          end) subs
      | _ => false
      end
  | _ => py_eq container subset
  end.

Example filter_matches : payload_contains (JDict [("kind", JStr "run"); ("tags", JList [JInt 1; JInt 2])]) (JDict [("tags", JList [JInt 2])]) = true.
Proof. reflexivity. Qed.

Definition AGENT_RUN_COMPLETED_EVENT_KIND : string := "agent_run.completed".

Definition is_self_trigger_completion (e : EventOutbox) (t : ScheduledTrigger) : bool :=
  bool_decide (event_kind e = AGENT_RUN_COMPLETED_EVENT_KIND) &&
  match dict_get "agent_definition_id" (payload e) with Some (JStr s) => bool_decide (s = agent_definition_id t) | _ => false end.

Definition event_work_ref (e : EventOutbox) (t : ScheduledTrigger) : string := "event:" +:+ pretty (event_id e) +:+ ":" +:+ id t.

Definition subscribed (e : EventOutbox) (t : ScheduledTrigger) : bool := payload_contains (JDict (payload e)) (JDict (default [] (event_filter t))).

Definition matching_event_triggers (e : EventOutbox) : work (list ScheduledTrigger) :=
  triggers ← invoke (w_event_triggers (e_tenant_id e)); mret (select_where (subscribed e) triggers).

(** The prompt of the run: the operator's, or one made of the event. *)
Definition event_inputs (t : ScheduledTrigger) (e : EventOutbox) : work string :=
  let coerced := coerce_inputs (inputs t) in
  if negb (bool_decide (coerced = "")) && negb (bool_decide (coerced = "{}")) && negb (prompt_is_effectively_empty coerced) then mret coerced
  else invoke (w_event_prompt (event_kind e) (payload e)).

Definition fire_event_trigger (t : ScheduledTrigger) (e : EventOutbox) : work bool :=
  if is_self_trigger_completion e t then mret false
  else
    prepared ← prepare_invocation t;
    match prepared with
    | inr _ => mret false
    | inl p =>
        ran ← invoke (w_run_exists (tenant_id t) (event_work_ref e t));
        if (ran : bool) then mret false
        else
          prompt ← event_inputs t e;
          dispatch_invocation t {| p_name := p_name p; p_identity_ref := p_identity_ref p; p_agent_client_id := p_agent_client_id p;
            p_agent_client_secret := p_agent_client_secret p; p_inputs_str := prompt; p_work_ref := Some (event_work_ref e t) |}
    end.

(** The [for] over the triggers: an exception of one is logged. *)
Fixpoint fire_each (e : EventOutbox) (fired : nat) (triggers : list ScheduledTrigger) : work nat :=
  match triggers with
  | [] => mret fired
  | t :: rest =>
      outcome ← attempt (fire_event_trigger t e);
      fire_each e (if bool_decide (outcome = Some true) then S fired else fired) rest
  end.

Definition fire_matching_triggers (e : EventOutbox) : work nat := triggers ← matching_event_triggers e; fire_each e 0 triggers.

(** * The drain *)

Definition DRAIN_BATCH_LIMIT : nat := 100.

(** The [for] over the claimed events.  An exception of the matcher, which works in
    its own sessions, leaves the event for the next tick; one of the drain's own
    statement rolls its transaction back, and the row can no longer be named. *)
Fixpoint drain_each (now : Z) (processed : nat) (events : list EventOutbox) : work nat :=
  match events with
  | [] => mret processed
  | e :: rest =>
      fired ← attempt (fire_matching_triggers e);
      match fired with
      | None => drain_each now processed rest
      | Some _ =>
          stamped ← attempt (invoke (w_mark_processed (event_id e) now));
          match stamped with
          | None => throw MissingGreenlet
          | Some dispatched => drain_each now (if (dispatched : bool) then S processed else processed) rest
          end
      end
  end.

Definition run_one_drain_tick : work nat :=
  locked ← invoke (w_advisory_lock "event_drain");
  if negb (locked : bool) then mret 0
  else
    now ← invoke w_now;
    events ← invoke (w_claim_unprocessed DRAIN_BATCH_LIMIT);
    match (events : list EventOutbox) with
    | [] => mret 0
    | _ => _ ← invoke (w_stamp_claim (event_id <$> (events : list EventOutbox)) now); drain_each now 0 events
    end.
