(* ===== verification/EventProofs.v ===== *)
(** Each event starts at most one run for each trigger, however often its drain is cut
    off and repeated; and an event is consumed only after every trigger it matches was
    looked after. *)

From stdpp Require Import pretty.
From S2P Require Import Prelude Json Programs Scheduler Events.

Abbreviation call := (event WorkAns WorkFault).

(** * A run is checked before it is started *)

Definition run_key : Type := string * string.

(** The key that was last found without a run, if no run was started since. *)
Definition note (g : option run_key) (e : call) : option run_key :=
  let '(existT o x) := e in
  match o return res WorkFault (WorkAns o) -> option run_key with
  | w_run_exists tenant ref => fun x => match x with Ok false => Some (tenant, ref) | _ => g end
  | w_run_scheduled _ _ => fun _ => None
  | _ => fun _ => g
  end x.

Definition may (g : option run_key) (o : WorkOp) : Prop :=
  match o with
  | w_run_scheduled t p => exists ref, p_work_ref p = Some ref /\ g = Some (tenant_id t, ref)
  | _ => True
  end.

Abbreviation keeps c := (forall g, always note may c (fun _ _ => True) g).

Lemma keeps_check_bind {A B} (c : work A) (f : A -> work B) : keeps c -> (forall a, keeps (f a)) -> keeps (c ≫= f).
Proof. intros Hc Hf g. rewrite always_bind. eapply always_mono; [|apply Hc]. intros g' [a|e] _; [apply Hf|done]. Qed.

Lemma keeps_attempt {A} (c : work A) : keeps c -> keeps (attempt c).
Proof.
  intros Hc g. unfold attempt. rewrite always_try, always_bind. eapply always_mono; [|apply Hc]. intros g' [a|e] _; [done|]. by destruct e.
Qed.

Lemma keeps_invoke o : match o with w_run_scheduled _ _ => False | _ => True end -> keeps (invoke o).
Proof. intros Ho g. split; [by destruct o|done]. Qed.

Lemma keeps_prepare t : keeps (prepare_invocation t).
Proof.
  apply keeps_check_bind; [by apply keeps_invoke|]. intros [d|]; [|done]. destruct (d_enabled d); [|done].
  apply keeps_check_bind; [by apply keeps_invoke|done].
Qed.

Lemma keeps_fire t e : keeps (fire_event_trigger t e).
Proof.
  unfold fire_event_trigger. destruct (is_self_trigger_completion e t); [done|]. apply keeps_check_bind; [apply keeps_prepare|].
  intros [p|reason]; [|done]. intros g. split; [done|]. intros [[]|f]; [done| |done]. cbn [after].
  set (p' := fun prompt => {| p_name := p_name p; p_identity_ref := p_identity_ref p; p_agent_client_id := p_agent_client_id p;
    p_agent_client_secret := p_agent_client_secret p; p_inputs_str := prompt; p_work_ref := Some (event_work_ref e t) |}).
  assert (forall prompt, always note may (dispatch_invocation t (p' prompt)) (fun _ _ => True) (Some (tenant_id t, event_work_ref e t))) as Hd.
  { intros prompt. split; [by exists (event_work_ref e t)|]. intros [b|f]; [done|]. by destruct f. }
  rewrite always_bind. unfold event_inputs. destruct (_ && _).
  - apply Hd.
  - split; [done|]. intros [prompt|f]; [apply Hd|done].
Qed.

Lemma keeps_each e n triggers : keeps (fire_each e n triggers).
Proof.
  revert n. induction triggers as [|t rest IH]; intros n; [done|]. apply keeps_check_bind; [by apply keeps_attempt, keeps_fire|].
  intros outcome. apply IH.
Qed.

Lemma keeps_matching e : keeps (fire_matching_triggers e).
Proof. apply keeps_check_bind; [|intros; apply keeps_each]. apply keeps_check_bind; [by apply keeps_invoke|done]. Qed.

Lemma keeps_drain now n events : keeps (drain_each now n events).
Proof.
  revert n. induction events as [|e rest IH]; intros n; [done|]. apply keeps_check_bind; [apply keeps_attempt, keeps_matching|].
  intros [fired|]; [|apply IH]. apply keeps_check_bind; [by apply keeps_attempt, keeps_invoke|]. intros [dispatched|]; [apply IH|done].
Qed.

Lemma keeps_tick : keeps run_one_drain_tick.
Proof.
  apply keeps_check_bind; [by apply keeps_invoke|]. intros [|]; [|done]. apply keeps_check_bind; [by apply keeps_invoke|]. intros now.
  apply keeps_check_bind; [by apply keeps_invoke|]. intros [|e rest]; [done|]. apply keeps_check_bind; [by apply keeps_invoke|]. intros _. apply keeps_drain.
Qed.

(** The same of a history. *)
Fixpoint checked (g : option run_key) (h : list call) : Prop :=
  match h with [] => True | e :: h' => may g (projT1 e) /\ checked (note g e) h' end.

Lemma runs_checked {A} (c : prog WorkAns WorkFault A) Q g h rest a : always note may c Q g -> runs c (h ++ rest) a -> checked g h.
Proof.
  revert g h. induction c as [b|o k IH]; intros g h Hc Hr; simpl in *.
  - destruct h as [|e h]; [done|]. by destruct Hr as [Hr _].
  - destruct Hc as [Hm Hk], Hr as (x & h' & Heq & Hr). destruct h as [|e h]; [done|]. injection Heq as -> <-. split; [done|]. eapply IH; [apply Hk|exact Hr].
Qed.

Lemma checked_weaken g1 g2 h : g1 = None \/ g1 = g2 -> checked g1 h -> checked g2 h.
Proof.
  revert g1 g2. induction h as [|[o x] h IH]; intros g1 g2 Hg Hc; [done|]. destruct Hc as [Hm Hh]. split.
  - destruct o; try done. destruct Hm as (ref & Hp & ->). exists ref. split; [done|]. by destruct Hg.
  - eapply IH; [|exact Hh]. destruct o; try exact Hg; [by left|]. cbn. destruct x as [[]|]; [exact Hg|by right|exact Hg].
Qed.

Lemma checked_app g h h' : checked g h -> checked None h' -> checked g (h ++ h').
Proof.
  revert g. induction h as [|e h IH]; intros g Hh Hh'; [by eapply checked_weaken; [left|]|]. destruct Hh as [Hm Hh]. split; [done|]. by apply IH.
Qed.

(** * Drains one after the other

    The advisory lock lets one drain run at a time; each may be cut off anywhere.  The
    calls of the drains are paired with whether they left a run row: a run that is
    answered did, one that raises may have.  Other parts of the process start runs in
    between. *)
Inductive drains : list call -> Prop :=
| no_drain : drains []
| one_drain h rest r l : runs run_one_drain_tick (h ++ rest) r -> drains l -> drains (h ++ l).

Definition key_of (e : call) : option run_key :=
  match projT1 e with w_run_scheduled t p => pair (tenant_id t) <$> p_work_ref p | _ => None end.

Definition left_run (e : call) : bool :=
  let '(existT o x) := e in
  match o return res WorkFault (WorkAns o) -> bool with
  | w_run_scheduled _ _ => fun x => match x with Ok _ => true | Raise _ => false end
  | _ => fun _ => false
  end x.

(** The check reads the run table. *)
Definition reads (known : list run_key) (e : call) : Prop :=
  let '(existT o x) := e in
  match o return res WorkFault (WorkAns o) -> Prop with
  | w_run_exists tenant ref => fun x => match x with Ok b => b = true <-> (tenant, ref) ∈ known | Raise _ => True end
  | _ => fun _ => True
  end x.

Inductive delivers : list run_key -> list (call * bool) -> Prop :=
| d_nil known : delivers known []
| d_other known k l : delivers (k :: known) l -> delivers known l
| d_call known e created l : reads known e -> (left_run e = true -> created = true) ->
    delivers (match created, key_of e with true, Some k => k :: known | _, _ => known end) l -> delivers known ((e, created) :: l).

(** The runs that the drains left under a key. *)
Definition runs_under (k : run_key) (x : call * bool) : bool := x.2 && bool_decide (key_of x.1 = Some k).

Lemma drains_checked l : drains l -> checked None l.
Proof. induction 1 as [|h rest r l Hr _ IH]; [done|]. apply checked_app; [|done]. eapply runs_checked; [apply keeps_tick|exact Hr]. Qed.

Lemma no_more_runs k known log g : delivers known log -> checked g (log.*1) -> k ∈ known -> g <> Some k ->
  length (List.filter (runs_under k) log) = 0.
Proof.
  intros Hd. revert g. induction Hd as [known|known k' log _ IH|known e created log Hr Hl _ IH]; intros g Hc Hk Hg; [done| |].
  - eapply IH; [exact Hc| |exact Hg]. by right.
  - rewrite fmap_cons in Hc. destruct Hc as [Hm Hc]. cbn [List.filter fst snd] in *.
    assert (runs_under k (e, created) = false) as Hno.
    { unfold runs_under, key_of. cbn. destruct created; [|done]. apply bool_decide_eq_false. destruct e as [o x]. cbn in *.
      destruct o; try done. destruct Hm as (ref & -> & ->). cbn. congruence. }
    rewrite Hno. eapply IH; [exact Hc| |].
    + destruct created; [|done]. destruct (key_of e); [by right|done].
    + destruct e as [o x]. destruct o; try done. cbn in *. destruct x as [[]|]; try done. intros [= <-]. by apply Hr in Hk.
Qed.

(** C17. Each event starts at most one run for each of its triggers, under any number of
    drains, each of which may be cut off anywhere and is repeated later, and whatever
    runs others start: a run is started only right after its key was found free. *)
Theorem events_fire_each_trigger_once log e t :
  drains (log.*1) -> delivers [] log ->
  length (List.filter (runs_under (tenant_id t, event_work_ref e t)) log) <= 1.
Proof.
  intros Hc%drains_checked. generalize (tenant_id t, event_work_ref e t). intros k. revert Hc. generalize (None : option run_key).
  generalize ([] : list run_key). intros known g Hc Hd. revert g Hc.
  induction Hd as [known|known k' log _ IH|known x created log Hr Hl Hd IH]; intros g Hc; [simpl; lia|by eapply IH|].
  rewrite fmap_cons in Hc. destruct Hc as [Hm Hc]. cbn [List.filter fst] in *. destruct (runs_under k (x, created)) eqn:E; [|by eapply IH].
  unfold runs_under in E. cbn in E. apply andb_true_iff in E as [-> E%bool_decide_eq_true]. rewrite E in Hd. cbn [length].
  rewrite (no_more_runs k _ log (note g x) Hd Hc); [done|left|].
  unfold key_of in E. destruct x as [o y]. by destruct o.
Qed.

(** * Consumed events reached their triggers *)

Definition record_call (h : list call) (e : call) : list call := h ++ [e].

(** The calls made for one trigger, before its run. *)
Definition prepares (e : EventOutbox) (t : ScheduledTrigger) (o : WorkOp) : Prop :=
  o = w_find_definition (agent_definition_id t) (tenant_id t) \/ (exists ref, o = w_resolve_agent_credentials ref (tenant_id t)) \/
  o = w_run_exists (tenant_id t) (event_work_ref e t) \/ o = w_event_prompt (event_kind e) (payload e).

Definition answered (o : WorkOp) (x : res WorkFault (WorkAns o)) : call := ev o x.

(** What became of a trigger: the event is its own agent's end, the agent is missing,
    disabled or without credentials, the event has started its run before, the run was
    asked for, or one of the calls for it raised. *)
Inductive served (e : EventOutbox) (t : ScheduledTrigger) (h : list call) : Prop :=
| s_self : is_self_trigger_completion e t = true -> served e t h
| s_missing : answered (w_find_definition (agent_definition_id t) (tenant_id t)) (Ok None) ∈ h -> served e t h
| s_disabled d : answered (w_find_definition (agent_definition_id t) (tenant_id t)) (Ok (Some d)) ∈ h -> d_enabled d = false -> served e t h
| s_no_secret ref : answered (w_resolve_agent_credentials ref (tenant_id t)) (Ok None) ∈ h -> served e t h
| s_ran_before : answered (w_run_exists (tenant_id t) (event_work_ref e t)) (Ok true) ∈ h -> served e t h
| s_run p x : answered (w_run_scheduled t p) x ∈ h -> p_work_ref p = Some (event_work_ref e t) -> served e t h
| s_raised o f : prepares e t o -> answered o (Raise f) ∈ h -> served e t h.

Definition reached (e : EventOutbox) (h : list call) : Prop :=
  exists triggers, answered (w_event_triggers (e_tenant_id e)) (Ok triggers) ∈ h /\
    forall t, t ∈ triggers -> subscribed e t = true -> served e t h.

Lemma served_more e t h h' : served e t h -> served e t (h ++ h').
Proof.
  intros [Hs|Hs|d Hs Hd|ref Hs|Hs|p x Hs Hp|o f Ho Hs]; [by apply s_self|apply s_missing|eapply s_disabled|eapply s_no_secret|apply s_ran_before|
    eapply s_run|eapply s_raised]; try done; apply elem_of_app; by left.
Qed.

Lemma reached_more e h h' : reached e h -> reached e (h ++ h').
Proof. intros (triggers & Ht & Hs). exists triggers. split; [apply elem_of_app; by left|]. intros t Hi Hsub. by apply served_more, Hs. Qed.

(** An event is stamped only when it has reached its triggers. *)
Definition may_stamp (events : list EventOutbox) (h : list call) (o : WorkOp) : Prop :=
  match o with w_mark_processed i _ => exists e, e ∈ events /\ event_id e = i /\ reached e h | _ => True end.

Section Stamps.
Context (events : list EventOutbox).
Abbreviation always' := (always record_call (may_stamp events)).

Lemma last_call (h : list call) e : e ∈ record_call h e.
Proof. apply elem_of_app. right. by apply list_elem_of_singleton. Qed.

Definition extends {A} (P : list call -> Prop) (h0 h : list call) (_ : A) : Prop := P h /\ exists h', h = h0 ++ h'.

Lemma fire_serves t e h0 : always' (fire_event_trigger t e) (extends (served e t) h0) h0.
Proof.
  unfold fire_event_trigger. destruct (is_self_trigger_completion e t) eqn:Es.
  { split; [by apply s_self|]. exists []. by rewrite app_nil_r. }
  assert (forall h c x, (exists h', h = h0 ++ h') -> served e t (record_call h c) -> extends (served e t) h0 (record_call h c) (x : res WorkFault bool)) as Hend.
  { intros h c x [h' ->] Hs. split; [done|]. exists (h' ++ [c]). unfold record_call. by rewrite app_assoc. }
  assert (forall h c, (exists h', h = h0 ++ h') -> exists h', record_call h c = h0 ++ h') as Hext.
  { intros h c [h' ->]. exists (h' ++ [c]). unfold record_call. by rewrite app_assoc. }
  assert (exists h', h0 = h0 ++ h') as Hh0 by (exists []; by rewrite app_nil_r).
  split; [done|]. intros x. destruct x as [[d|]|f]; cbn [after];
    [|apply Hend; [done|]; apply s_missing, last_call|apply Hend; [done|]; eapply s_raised; [by left|apply last_call]].
  destruct (d_enabled d) eqn:Ed; cbn [negb after]; [|apply Hend; [done|]; eapply s_disabled; [apply last_call|done]].
  apply Hext with (c := ev (w_find_definition (agent_definition_id t) (tenant_id t)) (Ok (Some d))) in Hh0 as Hh1.
  split; [done|]. intros x. destruct x as [[[client secret]|]|f]; cbn [after];
    [|apply Hend; [done|]; eapply s_no_secret, last_call|apply Hend; [done|]; eapply s_raised; [right; left; by eexists|apply last_call]].
  eapply Hext in Hh1 as Hh2. split; [done|]. intros x. destruct x as [[]|f]; cbn [after];
    [apply Hend; [exact Hh2|]; apply s_ran_before, last_call| |apply Hend; [exact Hh2|]; eapply s_raised; [right; right; by left|apply last_call]].
  eapply Hext in Hh2 as Hh3.
  assert (forall p h, p_work_ref p = Some (event_work_ref e t) -> (exists h', h = h0 ++ h') ->
    always' (dispatch_invocation t p) (extends (served e t) h0) h) as Hd.
  { intros p h Hp Hh. split; [done|]. intros x. assert (served e t (record_call h (ev (w_run_scheduled t p) x))) as Hs
      by (eapply s_run; [apply last_call|done]). destruct x as [b|f]; [by apply Hend|]. destruct f; by apply Hend. }
  change (always' (event_inputs t e ≫= fun prompt => dispatch_invocation t {| p_name := d_name d; p_identity_ref := d_identity_ref d;
    p_agent_client_id := client; p_agent_client_secret := secret; p_inputs_str := prompt; p_work_ref := Some (event_work_ref e t) |})
    (extends (served e t) h0) (record_call (record_call (record_call h0 (ev (w_find_definition (agent_definition_id t) (tenant_id t)) (Ok (Some d))))
      (ev (w_resolve_agent_credentials (d_identity_ref d) (tenant_id t)) (Ok (Some (client, secret)))))
      (ev (w_run_exists (tenant_id t) (event_work_ref e t)) (Ok false)))).
  rewrite always_bind. unfold event_inputs. destruct (_ && _); [by apply Hd|]. split; [done|].
  intros x. destruct x as [prompt|f]; [apply Hd; [done|by apply Hext]|].
  apply Hend; [exact Hh3|]. eapply s_raised; [by right; right; right|apply last_call].
Qed.

Lemma each_serves e n triggers h0 :
  always' (fire_each e n triggers) (fun h r => (exists h', h = h0 ++ h') /\ (is_Ok r -> forall t, t ∈ triggers -> served e t h)) h0.
Proof.
  revert n h0. induction triggers as [|t rest IH]; intros n h0.
  - split; [exists []; by rewrite app_nil_r|]. by intros _ t ?%elem_of_nil.
  - cbn [fire_each]. rewrite always_bind. unfold attempt. rewrite always_try, always_bind. eapply always_mono; [|apply fire_serves].
    intros h r [Hs [h' ->]].
    assert (forall m, always' (fire_each e m rest) (fun h r => (exists h', h = h0 ++ h') /\ (is_Ok r -> forall t', t' ∈ t :: rest -> served e t' h)) (h0 ++ h')) as Hrest.
    { intros m. eapply always_mono; [|apply IH]. intros h1 r1 [[h'' ->] Hok]. split; [exists (h' ++ h''); by rewrite app_assoc|].
      intros Hr1 t' [->|Hi]%elem_of_cons; [by apply served_more|by apply Hok]. }
    destruct r as [b|[]]; try apply Hrest. split; [by exists h'|]. by intros [? ?].
Qed.

Lemma matching_reaches e h0 : always' (fire_matching_triggers e) (fun h r => is_Ok r -> reached e h) h0.
Proof.
  unfold fire_matching_triggers, matching_event_triggers. rewrite !always_bind. split; [done|]. intros x. destruct x as [triggers|f]; [|by intros [? ?]].
  refine (always_mono _ _ (fire_each e 0 (select_where (subscribed e) triggers)) _ _ _ _ (each_serves e 0 _ _)).
  intros h r [[h' ->] Hok] Hr. exists triggers.
  split; [apply elem_of_app; left; apply last_call|]. intros t Ht Hs. apply (Hok Hr). by apply elem_of_select.
Qed.

Lemma drain_stamps now n l h0 : (forall e, e ∈ l -> e ∈ events) -> always' (drain_each now n l) (fun _ _ => True) h0.
Proof.
  revert n h0. induction l as [|e rest IH]; intros n h0 Hl; [done|].
  assert (forall m h, always' (drain_each now m rest) (fun _ _ => True) h) as Hrest by (intros; apply IH; intros; apply Hl; by right).
  cbn [drain_each]. rewrite always_bind. unfold attempt. rewrite always_try, always_bind. eapply always_mono; [|apply matching_reaches].
  intros h r Hr. assert (forall f : WorkFault, always' (drain_each now n rest) (fun _ _ => True) h) as Hskip by (intros; apply Hrest).
  destruct r as [fired|f]; [|by destruct f; first [apply Hrest|done]].
  assert (reached e h) as Hreach by (apply Hr; by eexists).
  split; [exists e; split_and!; [apply Hl; by left|done..]|]. intros x. destruct x as [dispatched|f]; [apply Hrest|]. by destruct f.
Qed.
End Stamps.

Lemma foldl_record h h' : foldl record_call h h' = h ++ h'.
Proof. revert h. induction h' as [|e h' IH]; intros h; cbn; [by rewrite app_nil_r|]. rewrite IH. unfold record_call. by rewrite <- app_assoc. Qed.

(** C40. An event is consumed only after it has reached its triggers: before it is
    stamped, the drain has read the active event triggers of its tenant and, for each
    that the payload matches, has asked for its run, or the event is the end of the
    trigger's own agent, or its agent cannot run, or its run exists; or a call for
    that trigger raised. *)
Theorem consumed_events_reached_their_triggers h1 i at_ x h2 r :
  runs run_one_drain_tick (h1 ++ answered (w_mark_processed i at_) x :: h2) r ->
  exists events e, answered (w_claim_unprocessed DRAIN_BATCH_LIMIT) (Ok events) ∈ h1 /\ e ∈ events /\ event_id e = i /\ reached e h1.
Proof.
  intros Hr. unfold run_one_drain_tick in Hr. destruct Hr as (locked & h & Heq & Hr).
  destruct h1 as [|c1 h1]; [done|]. injection Heq as -> <-. destruct locked as [[]|]; cbn [after negb] in Hr;
    [|destruct Hr as [Hr _]; by destruct h1|destruct Hr as [Hr _]; by destruct h1].
  destruct Hr as (now & h & Heq & Hr). destruct h1 as [|c2 h1]; [done|]. injection Heq as -> <-. destruct now as [now|]; cbn [after] in Hr;
    [|destruct Hr as [Hr _]; by destruct h1].
  destruct Hr as (events & h & Heq & Hr). destruct h1 as [|c3 h1]; [done|]. injection Heq as -> <-. destruct events as [events|]; cbn [after] in Hr;
    [|destruct Hr as [Hr _]; by destruct h1].
  destruct events as [|e0 rest]; [destruct Hr as [Hr _]; by destruct h1|].
  destruct Hr as (stamped & h & Heq & Hr). destruct h1 as [|c4 h1]; [done|]. injection Heq as -> <-. destruct stamped as [[]|]; cbn [after] in Hr;
    [|destruct Hr as [Hr _]; by destruct h1].
  set (c := [answered (w_advisory_lock "event_drain") (Ok true); answered w_now (Ok now); answered (w_claim_unprocessed DRAIN_BATCH_LIMIT) (Ok (e0 :: rest));
             answered (w_stamp_claim (event_id <$> (e0 :: rest)) now) (Ok tt)]).
  pose proof (drain_stamps (e0 :: rest) now 0 (e0 :: rest) c (fun e He => He)) as Hs.
  destruct (always_sound _ _ _ _ _ _ _ Hs Hr) as [_ Hm]. destruct (Hm h1 _ x h2 eq_refl) as (e & He & Hi & Hreach).
  rewrite foldl_record in Hreach. exists (e0 :: rest), e. split_and!; [|done..|exact Hreach]. do 2 right. by left.
Qed.

(** * A small deployment *)

Definition a_trigger : ScheduledTrigger :=
  create_event_trigger {| b_id := "tr"; b_tenant_id := "t"; b_agent_definition_id := "a"; b_inputs := None; b_identity_sub := "__scheduler__";
    b_created_by_sub := "op"; b_in_flight_policy := FAIL_INTO_AUDIT; b_work_ref := None |} [("status", JStr "failed")].

Definition an_event : EventOutbox := {|
  event_id := 7; e_tenant_id := "t"; event_kind := "agent_run.completed"; payload := [("status", JStr "failed"); ("run", JStr "r")];
  claimed_at := None; claimed_by := None; processed_at := None; dedupe_key := None; origin := None |}.

(** One event and one trigger; [secrets] says whether Vault answers. *)
Definition respond (secrets : bool) (o : WorkOp) (s : list EventOutbox * list run_key)
  : (list EventOutbox * list run_key) * res WorkFault (WorkAns o) :=
  let '(outbox, known) := s in
  match o return (list EventOutbox * list run_key) * res WorkFault (WorkAns o) with
  | w_now => (s, Ok 0%Z)
  | w_is_draining => (s, Ok false)
  | w_advisory_lock _ => (s, Ok true)
  | w_lock_connector_usage => (s, Ok tt)
  | w_claim_due_triggers _ _ => (s, Ok [])
  | w_find_definition _ _ => (s, Ok (Some {| d_name := "triage"; d_enabled := true; d_identity_ref := "agent:triage" |}))
  | w_resolve_agent_credentials ref _ => (s, if secrets then Ok (Some (ref, "secret")) else Raise (other_exception "ConnectionError"))
  | w_update _ => (s, Ok true)
  | w_clear_skip_state _ => (s, Ok tt)
  | w_read_status _ _ => (s, Ok None)
  | w_run_scheduled t p => ((outbox, match p_work_ref p with Some ref => (tenant_id t, ref) :: known | None => known end), Ok true)
  | w_claim_unprocessed limit => (s, Ok (claim_unprocessed outbox limit))
  | w_stamp_claim _ _ => (s, Ok tt)
  | w_event_triggers _ => (s, Ok [a_trigger])
  | w_run_exists tenant ref => (s, Ok (bool_decide ((tenant, ref) ∈ known)))
  | w_event_prompt _ _ => (s, Ok "an agent run failed")
  | w_mark_processed i at_ => let '(outbox', b) := mark_processed outbox i at_ in ((outbox', known), Ok b)
  end.

Lemma interp_runs_of {S A} (answer : forall o, S -> S * res WorkFault (WorkAns o)) (c : prog WorkAns WorkFault A) s :
  runs c (interp answer c s).1.2 (interp answer c s).2.
Proof. pose proof (interp_runs answer c s) as Hr. by destruct (interp answer c s) as [[s' h] a]. Qed.

(** A drain that is cut off after the run was started, and the next one. *)
Definition first_drain : list call := (interp (respond true) run_one_drain_tick ([an_event], [])).1.2.
Definition second_drain : list call := (interp (respond true) run_one_drain_tick ([an_event], [("t", "event:7:tr")])).1.2.
Definition two_drains : list (call * bool) := (fun e => (e, left_run e)) <$> (take 10 first_drain ++ second_drain).

Lemma two_drains_run : drains (two_drains.*1) /\ delivers [] two_drains.
Proof.
  split.
  - unfold two_drains. rewrite <- list_fmap_compose, list_fmap_id. eapply (one_drain _ (drop 10 first_drain)).
    + rewrite take_drop. apply interp_runs_of.
    + rewrite <- (app_nil_r second_drain). eapply (one_drain _ []); [rewrite app_nil_r; apply interp_runs_of|constructor].
  - let l := eval vm_compute in two_drains in change two_drains with l.
    repeat first [apply d_nil | apply d_call; [first [exact I | cbn; split; [done|set_solver] | cbn; split; [intros _; by left|done]] | done | cbn]].
Qed.

Lemma events_fire_each_trigger_once_witness :
  length (List.filter (runs_under ("t", "event:7:tr")) two_drains) = 1 /\
  length (List.filter (runs_under (tenant_id a_trigger, event_work_ref an_event a_trigger)) two_drains) <= 1.
Proof.
  split; [by vm_compute|]. destruct two_drains_run as [Hd Hl]. exact (events_fire_each_trigger_once two_drains an_event a_trigger Hd Hl).
Defined.

Lemma consumed_events_reached_their_triggers_witness : exists events e h1,
  answered (w_claim_unprocessed DRAIN_BATCH_LIMIT) (Ok events) ∈ h1 /\ e ∈ events /\ event_id e = 7 /\ reached e h1.
Proof.
  destruct (consumed_events_reached_their_triggers (take 10 first_drain) 7 0 (Ok true) [] (Ok 1)) as (events & e & H).
  - exact (interp_runs_of (respond true) run_one_drain_tick ([an_event], [])).
  - exists events, e, (take 10 first_drain). exact H.
Defined.

(** An exception of one trigger, here of the read of its secret, is logged, and the
    event is consumed all the same: that trigger never runs for it. *)
Lemma failed_triggers_miss_the_event :
  let '(outbox, _, h, r) := interp (respond false) run_one_drain_tick ([an_event], []) in
  r = Ok 1 /\ processed_at <$> outbox = [Some 0%Z] /\ existsb left_run h = false.
Proof. by vm_compute. Qed.
